(* ===== verification/_CoqProject ===== *)
-Q . S2P
Prelude.v
Base64.v
Buffer.v
BufferText.v
BufferInt.v
BufferOps.v
StringDecoder.v
ImmHash.v
ImmMap.v
ImmMapOk.v
ImmIter.v
ImmList.v
ImmListOk.v
ImmOrdered.v
ImmOrderedOk.v
NextTick.v
Debounce.v
Reselect.v
Redux.v
Events.v
Uri.v
Json.v
Punycode.v
PunycodeOk.v
Query.v
Qs.v
QsOk.v
Style.v
ClientHttp.v
YamlTypes.v
YamlTypesOk.v
YamlLoad.v
YamlLoadOk.v
ClientSpec.v
ClientSpecOk.v
Url.v
UrlOk.v
Patch.v
PatchOk.v
Ruler.v
Im.v
ImmEq.v
UiErr.v
UiAuth.v
UiOas3.v
ClientRequest.v
ClientRequestOk.v
UiUtils.v
UiSamples.v
UiSpec.v
UiSpecOk.v
UiPlugins.v
UiPluginsOk.v
UiSystem.v
