(* ===== verification/Prelude.v ===== *)
(** * Verification of the JavaScript of the smartdoge API explorer

    The node serves its API documentation with Swagger UI, from the bundle
    src/client/docs/swagger-ui/swagger-ui-bundle.js (all line numbers in this
    development are lines of that file; each file of the development names the
    lines it translates). The bundle holds the libraries the page rests on and
    the page's own code. They interact like this: the page keeps its whole
    state in one redux store (Redux.v) as a tree of Immutable collections
    (ImmMap.v, ImmList.v, ImmOrdered.v, Im.v); a plugin (UiErr.v, UiAuth.v,
    UiOas3.v, UiSpec.v) is a set of action creators, a reducer for its slice of
    the state and selectors, memoized by reselect (Reselect.v), that read it;
    plugins are merged into one tree, with wrappers around each other's actions
    and components (UiPlugins.v), and the system (UiSystem.v) runs their
    reducers; the utilities (UiUtils.v) validate what is entered, by fields
    whose events are debounced (Debounce.v), and show samples of schemas
    (UiSamples.v). To execute an operation, swagger-client looks it up in the
    normalized specification (ClientSpec.v), builds a request of its parameters
    and credentials (ClientRequest.v, with the styles of Style.v and the URL
    parser of Url.v) and sends it (ClientHttp.v), with base64, UTF-8, punycode
    and query strings (Base64.v, Buffer*.v, Uri.v, Punycode.v, Query.v, Qs.v);
    the text of a specification is read by js-yaml (YamlTypes.v, YamlLoad.v), and
    specifications are resolved with JSON patches (Patch.v), on top of streams,
    events and the next-tick queue of the Node shims (StringDecoder.v, Events.v,
    NextTick.v). Descriptions are rendered by a Markdown parser whose rules are
    kept in lists (Ruler.v).

    ** Conventions

    A string is the list of its UTF-16 code units, a byte array a list of
    integers, a number an integer; the 32-bit operators of the language are
    written out ([Int32], with the notations of [js_scope]). Code that can
    throw returns [result], with the monadic [let!]. State is passed
    explicitly; where the code keeps a shared object (the default error of
    UiErr.v, the listener arrays of Redux.v, the cache of ImmHash.v) the
    object is part of the state. Loops without a structural argument have
    fuel, and every theorem that uses them proves that the fuel given by the
    caller is enough: the fuel is the number of elements left (Base64, Buffer,
    BufferInt, NextTick), the depth of the document (Qs, Patch) or of the tree
    (ImmList, seven levels for 2^30 positions) or the number of rounds that
    ImmIter counts. A sample goes as deep as its schema ([UiSamples.sample_fuel]);
    punycode has at most 32 digits per number, one round per code point, and 16
    rounds of its bias loop; the search for the variables of a server URL goes
    on for at most the length of the URL. The loops of the YAML loader over
    characters have the length of the text, and its nodes
    [YamlLoad.node_fuel], ten times as much, which YamlLoadOk proves to be enough
    for texts of JSON. The recogniser of JSON texts in UiUtils has fuel for
    twice the length of the text, since at least every second call reads a
    character.

    ** Files

    - Prelude: the 32-bit operators, arrays, errors, loops, and their lemmas.
    - Base64: base64-js. Round trip with the RFC 4648 encoding.
    - Buffer, BufferText: the Buffer shim, strings. UTF-8, UTF-16LE, hex, base64
      and latin1 texts and bytes survive the trips through each other.
    - BufferInt: integer accessors. Writes and reads are inverse for all widths,
      signs and byte orders and touch only their bytes; range errors.
    - BufferOps: search, copy, concat, compare, fill and swap. Each against a
      reference definition.
    - StringDecoder: a text cut anywhere into chunks decodes to itself.
    - ImmHash, ImmMap, ImmMapOk, ImmIter: Immutable's Map, a hash array mapped
      trie with five kinds of nodes. It refines a finite map for every history
      of updates; the iterator returns each entry once and ends; a key whose
      hash is found in a prototype makes it diverge.
    - ImmList, ImmListOk: Immutable's List, a vector trie with a tail and a
      window. It refines a list for every history of set, push, pop, unshift,
      shift, slice and clear that sets defined values inside of the list or next
      to it; cuts that leave elements behind are evaluated.
    - ImmOrdered, ImmOrderedOk: Immutable's OrderedMap, made of a Map and a List.
      It refines an association list in the order of insertion, unless its list
      is cut back across a block; a history after which removed entries are
      back is evaluated.
    - Im: Immutable values as the page uses them (paths, merging, conversion).
      Writes along paths are exact.
    - ImmEq: value equality and hashes of collections. Equal values have equal
      hashes; the replacement of [Math.imul] is [Math.imul].
    - NextTick: the queue of process.nextTick, as a step relation. First in,
      first out, across exceptions.
    - Debounce: lodash.debounce with its timers, as a step function. Every call
      is answered, and none too early.
    - Reselect: memoization is transparent.
    - Redux: the store and combined reducers. A dispatch calls the listeners
      that were subscribed when it began, until one of them throws.
    - Events: EventEmitter. Listener lists refine lists; [once] calls once.
    - Punycode, PunycodeOk: texts and domain names survive their ASCII form.
    - Ruler: the rule lists of remarkable. Their cache is transparent.
    - Uri, Json, Query, Qs, QsOk: percent encoding, query strings, cookies, and
      the nested objects of qs. Round trips.
    - Style: the parameter styles of swagger-client. The fields of an array of
      texts read back, in all six styles.
    - ClientHttp: queries, forms, headers and responses of swagger-client. The
      URL into which a query is merged has a query that reads back.
    - YamlTypes, YamlTypesOk: the types of YAML scalars. Safe integers written in
      base 2, 8, 10 and 16 read back.
    - YamlLoad, YamlLoadOk: the loader of js-yaml, from directives to the
      snippets of errors. A JSON text loads to the value it was written from.
    - ClientSpec, ClientSpecOk: operation ids and the normalization of
      specifications. Operations get different names; they inherit exactly
      once, and in order, the parameters of their path that they do not override.
    - Url, UrlOk: the url module. A URL is parsed into its parts and written
      again; dot segments are removed as by walking the path.
    - ClientRequest, ClientRequestOk: the request of an operation. Path and query
      of the request carry the values of the parameters; credentials are sent
      only where they are required, and API keys where they are.
    - Patch, PatchOk: fast-json-patch. Applying the result of [compare] gives
      the second document, when both have arrays in the same places; JSON
      pointers round-trip.
    - UiErr: the error log, the layout and the configuration. The log has the
      errors that were reported, with their fields, and loses only those that an
      action clears; what is shown is what was asked for.
    - UiAuth: authorization. Authorizing and logging out of one scheme.
    - UiOas3: the OpenAPI 3 plugin. Reading back what was set; the effective URL
      of a server.
    - UiUtils: validation of parameters against bounds, and the query of the
      page.
    - UiSamples: samples of schemas. The sample of a well-formed schema is an
      instance of it.
    - UiPlugins, UiPluginsOk: registration and merging of plugins. It refines an
      abstract merge, on which the [afterLoad] functions of the plugins then
      run; actions are wrapped in the order of registration.
    - UiSpec, UiSpecOk: the specification. What is entered for a parameter is
      the value its operation is executed with; an operation is executed only
      when it is valid.
    - UiSystem: the system that joins the plugins, each an instance of the class
      [Plugin]. Every reachable state of the page satisfies the invariants of
      all plugins, and an action changes only the slice of its own plugin.

    ** Parameters

    [Date.parse], the matches of a [RegExp] whose pattern comes from the user,
    [JSON.stringify] in the text of one error, the number an object is given
    when it is first hashed, [toLowerCase] beyond ASCII, the time of a sample,
    [JSON.parse] and the YAML loader where responses and entered objects are
    read, the text of dates, fractions and binary data that are keys of a
    mapping, [fetch] and the interceptors, the functions that plugins bring, the
    listeners and reducers of the application and the callbacks of timers are
    parameters of the definitions that use them. The theorems hold for all of
    them, except where they name what they need: the listeners of the store act
    on it through its methods, and for the order of wrappers the [afterLoad]
    functions write into [rootInjects] only, as the one of the page does.

    ** Not modelled

    Numbers that are not integers (fractions of YAML are exact decimals), NaN and
    the rounding of doubles; the DOM,
    React and its components, lodash, core-js, the promise and generator
    runtimes; the dumper of js-yaml, which the page never calls, and its
    documents with cycles; the parser of remarkable, samples as XML; the resolver of
    swagger-client and uploads of files; the mutable copies of Immutable's
    collections, its Set, Record and lazy Seq. The second script of the page,
    swagger-ui-standalone-preset.js, repeats modules of the bundle. The node
    itself is written in Go and is not part of this development.

    ** Plan

    Next: the XML generator, the Set and the Stack of Immutable, the resolver of
    swagger-client. *)

From stdpp Require Import base list list_numbers numbers strings gmap.
From Stdlib Require Import ZArith Lia Ascii.

#[global] Open Scope Z_scope.

(** * 32-bit integer operators of ECMAScript *)

Module Int32.

(** ToInt32: the value modulo 2^32, read as a two's complement number. *)
Definition to_int32 (z : Z) : Z := (z + 2^31) mod 2^32 - 2^31.

(** ToUint32: the value modulo 2^32. *)
Definition to_uint32 (z : Z) : Z := z mod 2^32.

Definition shift_count (z : Z) : Z := z mod 32.

Definition band (a b : Z) : Z := Z.land (to_int32 a) (to_int32 b).
Definition bor (a b : Z) : Z := Z.lor (to_int32 a) (to_int32 b).
Definition bxor (a b : Z) : Z := Z.lxor (to_int32 a) (to_int32 b).
Definition shl (a b : Z) : Z := to_int32 (Z.shiftl (to_int32 a) (shift_count b)).
Definition sar (a b : Z) : Z := Z.shiftr (to_int32 a) (shift_count b).
Definition shr (a b : Z) : Z := Z.shiftr (to_uint32 a) (shift_count b).

End Int32.

Declare Scope js_scope.
Delimit Scope js_scope with js.
Infix ".&" := Int32.band (at level 54, left associativity) : js_scope.
Infix ".^" := Int32.bxor (at level 56, left associativity) : js_scope.
Infix ".|" := Int32.bor (at level 58, left associativity) : js_scope.
Infix ".<<" := Int32.shl (at level 52, left associativity) : js_scope.
Infix ".>>" := Int32.sar (at level 52, left associativity) : js_scope.
Infix ".>>>" := Int32.shr (at level 52, left associativity) : js_scope.
#[global] Open Scope js_scope.

Abbreviation is_int32 z := (- 2147483648 <= z < 2147483648).
Abbreviation is_uint32 z := (0 <= z < 4294967296).
Abbreviation is_byte z := (0 <= z < 256).

(** [zdm] closes linear goals over quotients and remainders by constants. *)
Ltac zdm := Z.to_euclidean_division_equations; lia.

(** ** Facts about the 32-bit operators *)

Section int32_facts.
Import Int32.

Lemma to_int32_id z : is_int32 z -> to_int32 z = z.
Proof. unfold to_int32. intros. rewrite Z.mod_small; lia. Qed.

Lemma to_uint32_id z : is_uint32 z -> to_uint32 z = z.
Proof. unfold to_uint32. intros. apply Z.mod_small. lia. Qed.

Lemma to_int32_range z : is_int32 (to_int32 z).
Proof. unfold to_int32. pose proof (Z.mod_pos_bound (z + 2^31) (2^32)). lia. Qed.

Lemma to_uint32_range z : is_uint32 (to_uint32 z).
Proof. unfold to_uint32. pose proof (Z.mod_pos_bound z (2^32)). lia. Qed.

Lemma to_int32_mod z : to_int32 z mod 2^32 = z mod 2^32.
Proof. unfold to_int32. zdm. Qed.

Lemma to_int32_eqm a b : a mod 2^32 = b mod 2^32 -> to_int32 a = to_int32 b.
Proof. unfold to_int32. intros H. zdm. Qed.

Lemma to_int32_uint32 z : to_int32 (to_uint32 z) = to_int32 z.
Proof. apply to_int32_eqm. unfold to_uint32. apply Z.mod_mod. lia. Qed.

Lemma to_uint32_int32 z : to_uint32 (to_int32 z) = to_uint32 z.
Proof. apply to_int32_mod. Qed.

(** The low bits survive both conversions. *)
Lemma to_int32_low z k : 0 <= k <= 32 -> to_int32 z mod 2^k = z mod 2^k.
Proof.
  intros Hk. assert (E : 2^32 = 2^(32-k) * 2^k).
  { rewrite <- Z.pow_add_r by lia. f_equal. lia. }
  assert (0 < 2^k) by (apply Z.pow_pos_nonneg; lia).
  pose proof (to_int32_mod z) as M.
  rewrite <- (Z.mod_mod_divide (to_int32 z) (2^32) (2^k)) by (exists (2^(32-k)); lia).
  rewrite <- (Z.mod_mod_divide z (2^32) (2^k)) by (exists (2^(32-k)); lia).
  by rewrite M.
Qed.

(** [x & (2^k - 1)] keeps the low [k] bits. *)
Lemma band_ones a k : 0 <= k <= 31 -> (a .& Z.ones k) = a mod 2^k.
Proof.
  intros Hk. unfold band. rewrite (to_int32_id (Z.ones k)).
  - rewrite Z.land_ones by lia. apply to_int32_low. lia.
  - rewrite Z.ones_equiv. assert (2^k <= 2^31) by (apply Z.pow_le_mono_r; lia).
    assert (0 < 2^k) by (apply Z.pow_pos_nonneg; lia). lia.
Qed.

Lemma band_comm a b : (a .& b) = (b .& a).
Proof. apply Z.land_comm. Qed.

Lemma sar_div a k : 0 <= k < 32 -> is_int32 a -> (a .>> k) = a / 2^k.
Proof.
  intros Hk Ha. unfold sar, shift_count. rewrite to_int32_id, Z.mod_small by lia.
  apply Z.shiftr_div_pow2. lia.
Qed.

Lemma shr_div a k : 0 <= k < 32 -> is_uint32 a -> (a .>>> k) = a / 2^k.
Proof.
  intros Hk Ha. unfold shr, shift_count. rewrite to_uint32_id, Z.mod_small by lia.
  apply Z.shiftr_div_pow2. lia.
Qed.

Lemma shl_mul a k : 0 <= k < 32 -> (a .<< k) = to_int32 (a * 2^k).
Proof.
  intros Hk. unfold shl, shift_count. rewrite (Z.mod_small k) by lia.
  rewrite Z.shiftl_mul_pow2 by lia. apply to_int32_eqm.
  rewrite <- Zmult_mod_idemp_l, to_int32_mod, Zmult_mod_idemp_l. done.
Qed.

Lemma shl_small a k : 0 <= k < 32 -> is_int32 (a * 2^k) -> (a .<< k) = a * 2^k.
Proof. intros. rewrite shl_mul by done. by apply to_int32_id. Qed.

(** Disjoint bits: [|] is addition. *)
Lemma lor_add a b k : 0 <= k -> a mod 2^k = 0 -> 0 <= b < 2^k -> Z.lor a b = a + b.
Proof.
  intros Hk Ha Hb. assert (L : Z.land a b = 0).
  { apply Z.bits_inj'; intros i Hi. rewrite Z.land_spec, Z.bits_0.
    destruct (Z.lt_ge_cases i k).
    - rewrite <- (Z.mod_pow2_bits_low a k i), Ha, Z.bits_0 by lia. done.
    - rewrite <- (Z.mod_small b (2^k)), Z.mod_pow2_bits_high by lia. by rewrite andb_false_r. }
  by rewrite Z.add_nocarry_lxor, Z.lxor_lor by done.
Qed.

Lemma bor_add a b k :
  0 <= k -> is_int32 a -> a mod 2^k = 0 -> 0 <= b < 2^k -> is_int32 b -> (a .| b) = a + b.
Proof. intros. unfold bor. rewrite !to_int32_id by lia. by eapply lor_add. Qed.

Lemma bor_comm a b : (a .| b) = (b .| a).
Proof. apply Z.lor_comm. Qed.

Lemma bor_0_r a : is_int32 a -> (a .| 0) = a.
Proof. intros. unfold bor. rewrite !to_int32_id by lia. apply Z.lor_0_r. Qed.

End int32_facts.

(** [js_bits] rewrites masks by [2^k - 1] and shifts of small numbers into
    quotients and remainders; side conditions go to [lia]. *)
Lemma band_63 a : (a .& 63) = a mod 64.
Proof. apply (band_ones a 6). lia. Qed.
Lemma band_255 a : (a .& 255) = a mod 256.
Proof. apply (band_ones a 8). lia. Qed.
Lemma band_15 a : (a .& 15) = a mod 16.
Proof. apply (band_ones a 4). lia. Qed.
Lemma band_31 a : (a .& 31) = a mod 32.
Proof. apply (band_ones a 5). lia. Qed.
Lemma band_1023 a : (a .& 1023) = a mod 1024.
Proof. apply (band_ones a 10). lia. Qed.
Lemma band_63_l a : (63 .& a) = a mod 64.
Proof. rewrite band_comm. apply band_63. Qed.
Lemma band_255_l a : (255 .& a) = a mod 256.
Proof. rewrite band_comm. apply band_255. Qed.
Lemma band_15_l a : (15 .& a) = a mod 16.
Proof. rewrite band_comm. apply band_15. Qed.
Lemma band_31_l a : (31 .& a) = a mod 32.
Proof. rewrite band_comm. apply band_31. Qed.
Lemma band_1023_l a : (1023 .& a) = a mod 1024.
Proof. rewrite band_comm. apply band_1023. Qed.

Create Rewrite HintDb js_mask.
#[export] Hint Rewrite band_63 band_255 band_15 band_31 band_1023
  band_63_l band_255_l band_15_l band_31_l band_1023_l : js_mask.

(** * Arrays and strings *)

(** A JavaScript string is its sequence of UTF-16 code units. *)
Abbreviation jstring := (list Z) (only parsing).

Definition js (s : string) : list Z := (λ c, Z.of_nat (nat_of_ascii c)) <$> String.list_ascii_of_string s.

(** [e[i]]: [None] is [undefined]. *)
Definition arr_get {A} (l : list A) (i : Z) : option A :=
  if 0 <=? i then l !! Z.to_nat i else None.

(** [undefined] in a bitwise operator counts as [0] (ToInt32 of NaN). *)
Definition num (o : option Z) : Z := match o with Some z => z | None => 0 end.

(** [e[i] = x] for an index that exists (a typed array ignores the others). *)
Definition arr_set {A} (l : list A) (i : Z) (x : A) : list A :=
  if 0 <=? i then <[Z.to_nat i := x]> l else l.

Definition len {A} (l : list A) : Z := Z.of_nat (length l).

(** The values of [i] in [for (i = a; i < b; i += s)]. *)
Definition for_range (a b s : Z) : list Z :=
  (λ i, a + s * i) <$> seqZ 0 ((b - a + s - 1) / s).

Lemma for_range_nil a b s : 0 < s -> b <= a -> for_range a b s = [].
Proof.
  intros. unfold for_range. rewrite seqZ_nil; [done|].
  apply Z.lt_succ_r, Z.div_lt_upper_bound; lia.
Qed.

Lemma for_range_cons a b s : 0 < s -> a < b -> for_range a b s = a :: for_range (a + s) b s.
Proof.
  intros. unfold for_range.
  assert (E : (b - a + s - 1) / s = Z.succ ((b - (a + s) + s - 1) / s)).
  { replace (b - a + s - 1) with ((b - (a + s) + s - 1) + 1 * s) by lia.
    rewrite Z.div_add by lia. lia. }
  rewrite E, seqZ_cons by (apply Z.lt_succ_r, Z.div_pos; lia).
  cbn. f_equal; [lia|]. replace (Z.pred (Z.succ _)) with ((b - (a + s) + s - 1) / s) by lia.
  rewrite <- (fmap_add_seqZ 1 0), <- list_fmap_compose.
  apply list_fmap_ext. intros i x _. cbn. lia.
Qed.

Lemma for_range_shift a b s d : 0 < s ->
  for_range (a + d) (b + d) s = (λ i, i + d) <$> for_range a b s.
Proof.
  intros. unfold for_range. replace (b + d - (a + d)) with (b - a) by lia.
  rewrite <- list_fmap_compose. apply list_fmap_ext. intros i x _. cbn. lia.
Qed.

(** * Exceptions *)

(** A thrown error: its constructor and its message; an error of a module's own
    class has a name. *)
Inductive exn :=
  | PlainError (m : list Z)
  | TypeError (m : list Z)
  | RangeError (m : list Z)
  | URIError (m : list Z)
  | NamedError (name m : list Z).

(** The outcome of a call: a value or a thrown error. *)
Inductive result (A : Type) :=
  | Ok (a : A)
  | Throw (e : exn).
Arguments Ok {_} _.
Arguments Throw {_} _.

Definition result_bind {A B} (m : result A) (k : A -> result B) : result B :=
  match m with Ok a => k a | Throw e => Throw e end.

Notation "'let!' x := m 'in' k" := (result_bind m (fun x => k))
  (at level 10, x pattern, m at level 100, k at level 200) : js_scope.

(** * Loops and lists *)

Lemma for_range_app a k b s : 0 < s -> 0 <= k -> a + s * k <= b ->
  for_range a b s = for_range a (a + s * k) s ++ for_range (a + s * k) b s.
Proof.
  intros Hs Hk. revert a. pattern k. apply natlike_ind; [| |done]; clear k Hk.
  - intros a Hb. by rewrite Z.mul_0_r, Z.add_0_r, (for_range_nil a a) by lia.
  - intros k Hk IH a Hb. rewrite (for_range_cons a), (for_range_cons a (a + _)) by nia.
    replace (a + s * Z.succ k) with ((a + s) + s * k) by lia.
    rewrite (IH (a + s)) by lia. done.
Qed.

(** Splitting a loop of step [s] into blocks of [m * s] does not change what
    it visits. *)
Lemma for_range_blocks a b s m : 0 < s -> 0 < m ->
  concat ((λ i, for_range i (if b <? i + s * m then b else i + s * m) s) <$> for_range a b (s * m))
  = for_range a b s.
Proof.
  intros Hs Hm. remember (Z.to_nat (b - a)) as n eqn:E. revert a E.
  induction (lt_wf n) as [n _ IH]. intros a ->.
  destruct (Z.lt_ge_cases a b).
  - rewrite (for_range_cons a b (s * m)) by nia. cbn [fmap list_fmap concat].
    destruct (Z.ltb_spec b (a + s * m)).
    + rewrite (for_range_nil (a + _)) by nia. cbn. apply app_nil_r.
    + rewrite (for_range_app a m b s) by nia. f_equal. apply (IH (Z.to_nat (b - (a + s * m)))); nia.
  - by rewrite !for_range_nil by nia.
Qed.

Lemma concat_fmap_concat {A B} (f : A -> list B) (ls : list (list A)) :
  concat (f <$> concat ls) = concat ((λ l, concat (f <$> l)) <$> ls).
Proof. induction ls as [|l ls IH]; [done|]. cbn. by rewrite fmap_app, concat_app, IH. Qed.

Lemma len_cons {A} (x : A) l : len (x :: l) = len l + 1.
Proof. unfold len. cbn [length]. lia. Qed.
Lemma len_nil {A} : len (@nil A) = 0.
Proof. done. Qed.
Lemma len_app {A} (l k : list A) : len (l ++ k) = len l + len k.
Proof. unfold len. rewrite length_app. lia. Qed.
Lemma len_nonneg {A} (l : list A) : 0 <= len l.
Proof. unfold len. lia. Qed.

Create Rewrite HintDb js_len.
#[export] Hint Rewrite @len_cons @len_nil @len_app : js_len.

Lemma arr_get_0 {A} (x : A) l : arr_get (x :: l) 0 = Some x.
Proof. done. Qed.
Lemma arr_get_S {A} (x : A) l i : 0 < i -> arr_get (x :: l) i = arr_get l (i - 1).
Proof.
  intros. unfold arr_get. destruct (Z.leb_spec 0 i), (Z.leb_spec 0 (i - 1)); try lia.
  replace (Z.to_nat i) with (S (Z.to_nat (i - 1))) by lia. done.
Qed.
Lemma arr_get_app_r {A} (l k : list A) i : 0 <= i -> arr_get (l ++ k) (i + len l) = arr_get k i.
Proof.
  intros. unfold arr_get, len. destruct (Z.leb_spec 0 (i + Z.of_nat (length l))), (Z.leb_spec 0 i); try lia.
  rewrite lookup_app_r by lia. f_equal. lia.
Qed.

(** Induction three elements at a time. *)
Lemma list3_ind {A} (P : list A -> Prop) :
  P [] -> (∀ a, P [a]) -> (∀ a b, P [a; b]) -> (∀ a b c l, P l -> P (a :: b :: c :: l)) -> ∀ l, P l.
Proof.
  intros H0 H1 H2 H3. fix IH 1. intros [|a [|b [|c l]]]; [apply H0|apply H1|apply H2|].
  apply H3, IH.
Qed.

(** [at_index f] pushes the reads [f (x :: l) i] at literal indices [i] down to
    the element they name or to the tail. *)
Ltac at_index f :=
  repeat match goal with
  | |- context [f (?x :: ?l) ?i] =>
      let b := eval vm_compute in (0 <? i) in
      lazymatch b with
      | true => let j := eval vm_compute in (i - 1) in change (f (x :: l) i) with (f l j)
      end
  end.

(** Reads of an array literal. *)
Ltac arr_reads :=
  at_index (@arr_get Z);
  repeat match goal with
  | |- context [arr_get (?x :: ?l) ?i] =>
      let b := eval vm_compute in (i =? 0) in
      lazymatch b with true => change (arr_get (x :: l) i) with (Some x) end
  end; cbn [num].

(** Masking a shifted byte with the mask of its position changes nothing. *)
Lemma band_byte_at a k : is_byte a -> 0 <= k <= 16 -> (a * 2^k .& 255 * 2^k) = a * 2^k.
Proof.
  intros Ha Hk. assert (0 < 2^k <= 2^16).
  { split; [apply Z.pow_pos_nonneg; lia|apply Z.pow_le_mono_r; lia]. }
  unfold Int32.band. rewrite !to_int32_id by nia.
  rewrite <- !Z.shiftl_mul_pow2, <- Z.shiftl_land by lia. change 255 with (Z.ones 8).
  rewrite Z.land_ones, Z.mod_small by lia. done.
Qed.

(** * Characters *)

(** White space of [String.prototype.trim], [parseInt] and the like. *)
Definition is_white (c : Z) : bool :=
  bool_decide (c ∈ [9; 10; 11; 12; 13; 32; 160; 5760; 8232; 8233; 8239; 8287; 12288; 65279])
  || ((8192 <=? c) && (c <=? 8202)).

Fixpoint trim_left (s : list Z) : list Z :=
  match s with c :: s' => if is_white c then trim_left s' else s | [] => [] end.

(** [s.trim()] *)
Definition trim (s : list Z) : list Z := reverse (trim_left (reverse (trim_left s))).

(** [s.toLowerCase()] on ASCII letters; the comparisons it feeds are with
    lower-case ASCII words that no other character maps into. *)
Definition to_lower (s : list Z) : list Z :=
  (λ c, if (65 <=? c) && (c <=? 90) then c + 32 else c) <$> s.

(** The value of a hexadecimal digit. *)
Definition hex_digit (c : Z) : option Z :=
  if (48 <=? c) && (c <=? 57) then Some (c - 48)
  else if (97 <=? c) && (c <=? 102) then Some (c - 87)
  else if (65 <=? c) && (c <=? 70) then Some (c - 55)
  else None.

Fixpoint hex_prefix (s : list Z) (acc : Z) : Z :=
  match s with
  | c :: s' => match hex_digit c with Some d => hex_prefix s' (16 * acc + d) | None => acc end
  | [] => acc
  end.

(** [parseInt(s, 16)]; [None] is NaN. *)
Definition parseInt_16 (s : list Z) : option Z :=
  let s := trim_left s in
  let '(sign, s) :=
    match s with 43 :: s' => (1, s') | 45 :: s' => (-1, s') | _ => (1, s) end in
  let s := match s with 48 :: x :: s' => if (x =? 120) || (x =? 88) then s' else s | _ => s end in
  match s with
  | c :: _ => match hex_digit c with Some _ => Some (sign * hex_prefix s 0) | None => None end
  | [] => None
  end.

(** [e.toString(16)] of a value below 16. *)
Definition hex_char (d : Z) : Z := if d <? 10 then 48 + d else 87 + d.

(** * Digits in base [2^k] *)

Fixpoint of_digits (k : Z) (ds : list Z) : Z :=
  match ds with [] => 0 | d :: ds => d + 2 ^ k * of_digits k ds end.

Lemma bits_join k d x i : 0 <= k -> 0 <= d < 2 ^ k -> 0 <= i ->
  Z.testbit (d + 2 ^ k * x) i = if i <? k then Z.testbit d i else Z.testbit x (i - k).
Proof.
  intros Hk Hd Hi. rewrite Z.add_comm, Z.mul_comm, <- (lor_add _ d k), Z.lor_spec by
    (rewrite ?Z.mod_mul by lia; lia).
  rewrite <- Z.shiftl_mul_pow2, Z.shiftl_spec by lia. destruct (Z.ltb_spec i k).
  - by rewrite (Z.testbit_neg_r x) by lia.
  - rewrite <- (Z.mod_small d (2 ^ k)), Z.mod_pow2_bits_high by lia. by rewrite orb_false_r.
Qed.

Lemma land_join k d m x y : 0 <= k -> 0 <= d < 2 ^ k -> 0 <= m < 2 ^ k ->
  Z.land (d + 2 ^ k * x) (m + 2 ^ k * y) = Z.land d m + 2 ^ k * Z.land x y.
Proof.
  intros Hk Hd Hm. assert (0 <= Z.land d m < 2 ^ k).
  { rewrite <- (Z.mod_small m (2 ^ k)), <- Z.land_ones, Z.land_assoc, Z.land_ones by lia.
    apply Z.mod_pos_bound. lia. }
  apply Z.bits_inj'. intros i Hi. rewrite Z.land_spec, !bits_join by done.
  destruct (i <? k); by rewrite Z.land_spec.
Qed.

(** The binary digits of a number. *)
Lemma of_bits n x : 0 <= x < 2 ^ Z.of_nat n ->
  x = of_digits 1 ((λ i, Z.b2z (Z.testbit x (Z.of_nat i))) <$> seq 0 n).
Proof.
  revert x. induction n as [|n IH]; intros x Hx; [cbn in *; lia|].
  rewrite <- cons_seq, <- fmap_S_seq. cbn [fmap list_fmap of_digits].
  rewrite <- list_fmap_compose. rewrite (list_fmap_ext _ (λ i, Z.b2z (Z.testbit (x / 2) (Z.of_nat i)))).
  - rewrite <- IH by (rewrite Nat2Z.inj_succ, Z.pow_succ_r in Hx by lia; zdm).
    pose proof (Z.div_mod x 2 ltac:(lia)). rewrite <- Z.bit0_mod in H.
    change (Z.testbit x (Z.of_nat 0)) with (Z.testbit x 0). lia.
  - intros i j _. cbn. f_equal. by rewrite Z.div2_bits, Nat2Z.inj_succ by lia.
Qed.

Lemma elem_of_concat {A} (x : A) ls : x ∈ concat ls <-> ∃ l, x ∈ l /\ l ∈ ls.
Proof. induction ls as [|l ls IH]; cbn; [set_solver|]. rewrite elem_of_app, IH. set_solver. Qed.

(** [f] on every element in turn; the first error ends the loop. *)
Fixpoint mapR {A B} (f : A -> result B) (l : list A) : result (list B) :=
  match l with
  | [] => Ok []
  | x :: l => let! y := f x in let! r := mapR f l in Ok (y :: r)
  end.

(** A loop that threads a state through fallible steps. *)
Fixpoint foldR {A S} (f : S -> A -> result S) (s : S) (l : list A) : result S :=
  match l with
  | [] => Ok s
  | x :: l => let! s := f s x in foldR f s l
  end.

Lemma mapR_ok {A B} (f : A -> result B) l g : Forall (λ x, f x = Ok (g x)) l -> mapR f l = Ok (g <$> l).
Proof. induction 1 as [|x l Hx _ IH]; [done|]. cbn. rewrite Hx. cbn. by rewrite IH. Qed.

Lemma foldR_app {A S} (f : S -> A -> result S) s l k :
  foldR f s (l ++ k) = let! s := foldR f s l in foldR f s k.
Proof. revert s. induction l as [|x l IH]; intros s; [done|]. cbn. destruct (f s x); [apply IH|done]. Qed.

Lemma fmap_concat {A B} (f : A -> B) (ls : list (list A)) : f <$> concat ls = concat ((λ l : list A, f <$> l : list B) <$> ls).
Proof. induction ls as [|l ls IH]; [done|]. cbn [fmap list_fmap concat]. by rewrite fmap_app, IH. Qed.

(** Texts with the same code units are the same. *)
Lemma js_inj a b : js a = js b -> a = b.
Proof.
  unfold js. intros E. apply (f_equal (fmap (λ z, ascii_of_nat (Z.to_nat z)))) in E. rewrite <- !list_fmap_compose in E.
  assert (F : ∀ l : list ascii, ((λ z, ascii_of_nat (Z.to_nat z)) ∘ (λ c, Z.of_nat (nat_of_ascii c))) <$> l = l).
  { intros l. rewrite <- (list_fmap_id l) at 2. apply list_fmap_ext. intros i c _. cbn. by rewrite Nat2Z.id, ascii_nat_embedding. }
  rewrite !F in E. apply (f_equal String.string_of_list_ascii) in E. by rewrite !String.string_of_list_ascii_of_string in E.
Qed.
