(* ===== verification/Base64.v ===== *)
(** Model of the base64 codec of the bundle (module [base64-js],
    client/docs/swagger-ui/swagger-ui-bundle.js, lines 21850-21883): the two
    lookup tables, the length computation and the two converters, with the
    reference codec on lists they implement and the round trip between them. *)

From stdpp Require Import base list list_numbers numbers strings gmap.
From Stdlib Require Import ZArith Lia.
From S2P Require Import Prelude.

Module Base64.

(** ** The tables *)

(** [a]: the alphabet. *)
Definition code : list Z := js "ABCDEFGHIJKLMNOPQRSTUVWXYZabcdefghijklmnopqrstuvwxyz0123456789+/".

(** [r[i]] in a string concatenation; an index outside the table would read
    [undefined]. *)
Definition lookup (i : Z) : list Z :=
  match arr_get code i with Some c => [c] | None => js "undefined" end.

(** [o]: character code to value, with the URL-safe characters added. *)
Definition revLookup_table : gmap Z Z :=
  <[95 := 63]> (<[45 := 62]>
    (list_to_map (imap (λ i c, (c, Z.of_nat i)) code))).

(** [o[e.charCodeAt(i)]] as the operand of a shift: a missing entry counts as 0. *)
Definition revLookup (e : list Z) (i : Z) : Z :=
  match arr_get e i with
  | Some c => num (revLookup_table !! c)
  | None => 0
  end.

(** ** Lengths *)

(** [e.indexOf("=")], or the length when there is none. *)
Definition index_of_pad (e : list Z) : Z :=
  match list_find (λ c, c = 61) e with
  | Some (i, _) => Z.of_nat i
  | None => len e
  end.

(** [l(e)]: the number of characters before the padding, and the padding. *)
Definition getLens (e : list Z) : result (Z * Z) :=
  let t := len e in
  if (0 <? t mod 4) then Throw (PlainError (js "Invalid string. Length must be a multiple of 4")) else
  let n := index_of_pad e in
  Ok (n, if n =? t then 0 else 4 - n mod 4).

Definition byteLength (e : list Z) : result Z :=
  let! (n, r) := getLens e in
  Ok (3 * (n + r) / 4 - r).

(** ** Decoding *)

(** One iteration of the loop: the three bytes of the four characters at [f]. *)
Definition decode_quad (e : list Z) (f : Z) : list Z :=
  let t := (revLookup e f .<< 18 .| revLookup e (f + 1) .<< 12
            .| revLookup e (f + 2) .<< 6 .| revLookup e (f + 3)) in
  [ (t .>> 16 .& 255); (t .>> 8 .& 255); (255 .& t) ].

(** The bytes of the last group when [a] padding characters end the text. *)
Definition decode_rest (e : list Z) (f a : Z) : list Z :=
  if a =? 2 then
    let t := (revLookup e f .<< 2 .| revLookup e (f + 1) .>> 4) in [ (255 .& t) ]
  else if a =? 1 then
    let t := (revLookup e f .<< 10 .| revLookup e (f + 1) .<< 4 .| revLookup e (f + 2) .>> 2) in
    [ (t .>> 8 .& 255); (255 .& t) ]
  else [].

(** The value of [f] when the loop [for (f = 0; f < c; f += 4)] ends. *)
Definition loop_end (c : Z) : Z := 4 * Z.max 0 ((c + 3) / 4).

(** [toByteArray]: the result is a typed array of a fixed length, so stores
    past its end are dropped and positions never written stay 0. *)
Definition toByteArray (e : list Z) : result (list Z) :=
  let! (r, a) := getLens e in
  let n := 3 * (r + a) / 4 - a in
  if (n <? 0) then Throw (RangeError (js "Invalid typed array length")) else
  let c := if 0 <? a then r - 4 else r in
  let u := concat (decode_quad e <$> for_range 0 c 4) ++ decode_rest e (loop_end c) a in
  Ok (resize (Z.to_nat n) 0 u).

(** ** Encoding *)

(** One iteration of the chunk loop: the four characters of the bytes at [u]. *)
Definition encode_triple (e : list Z) (u : Z) : list Z :=
  let o := (num (arr_get e u) .<< 16 .& 16711680) + (num (arr_get e (u + 1)) .<< 8 .& 65280)
           + (255 .& num (arr_get e (u + 2))) in
  lookup (o .>> 18 .& 63) ++ lookup (o .>> 12 .& 63) ++ lookup (o .>> 6 .& 63) ++ lookup (63 .& o).

(** [c(e, t, n)]: the characters of the bytes from [t] to [n]. *)
Definition encodeChunk (e : list Z) (t n : Z) : list Z :=
  concat (encode_triple e <$> for_range t n 3).

Definition fromByteArray (e : list Z) : list Z :=
  let n := len e in
  let o := n mod 3 in
  let u := n - o in
  let i := concat ((λ a, encodeChunk e a (if u <? a + 16383 then u else a + 16383))
                     <$> for_range 0 u 16383) in
  if o =? 1 then
    let t := num (arr_get e (n - 1)) in
    i ++ lookup (t .>> 2) ++ lookup (t .<< 4 .& 63) ++ js "=="
  else if o =? 2 then
    let t := (num (arr_get e (n - 2)) .<< 8) + num (arr_get e (n - 1)) in
    i ++ lookup (t .>> 10) ++ lookup (t .>> 4 .& 63) ++ lookup (t .<< 2 .& 63) ++ js "="
  else i.

Example encode_man : fromByteArray (js "Man") = js "TWFu".
Proof. vm_compute. reflexivity. Qed.
Example decode_url_safe : toByteArray (js "-_8=") = Ok [251; 255].
Proof. vm_compute. reflexivity. Qed.
Example decode_leading_pad : toByteArray (js "=AAA") = Throw (RangeError (js "Invalid typed array length")).
Proof. vm_compute. reflexivity. Qed.

(** ** The reference codec *)

(** RFC 4648 encoding, three bytes at a time. *)
Definition char (i : Z) : Z := default 0 (code !! Z.to_nat i).

Fixpoint encode (l : list Z) : list Z :=
  match l with
  | a :: b :: c :: l' =>
      char (a / 4) :: char (a mod 4 * 16 + b / 16) :: char (b mod 16 * 4 + c / 64)
        :: char (c mod 64) :: encode l'
  | [a; b] => [char (a / 4); char (a mod 4 * 16 + b / 16); char (b mod 16 * 4); 61]
  | [a] => [char (a / 4); char (a mod 4 * 16); 61; 61]
  | [] => []
  end.

(** ** The tables are inverse to each other *)

Lemma char_facts i : 0 <= i < 64 ->
  arr_get code i = Some (char i) /\ revLookup_table !! char i = Some i /\ char i <> 61.
Proof.
  intros Hi. assert (Hin : i ∈ seqZ 0 64) by (apply elem_of_seqZ; lia). revert i Hi Hin.
  assert (F : Forall (λ i, arr_get code i = Some (char i) /\ revLookup_table !! char i = Some i
                            /\ char i <> 61) (seqZ 0 64)).
  { apply (bool_decide_unpack _). vm_compute. done. }
  rewrite Forall_forall in F. auto.
Qed.

Lemma lookup_char i : 0 <= i < 64 -> lookup i = [char i].
Proof. intros H. unfold lookup. by rewrite (proj1 (char_facts i H)). Qed.

Lemma revLookup_char i l : 0 <= i < 64 -> revLookup (char i :: l) 0 = i.
Proof. intros H. unfold revLookup. by rewrite arr_get_0, (proj1 (proj2 (char_facts i H))). Qed.

Lemma revLookup_cons x l i : 0 < i -> revLookup (x :: l) i = revLookup l (i - 1).
Proof. intros. unfold revLookup. by rewrite arr_get_S. Qed.

(** ** The encoder implements the reference *)

Lemma encode_triple_cons a b c l : is_byte a -> is_byte b -> is_byte c ->
  encode_triple (a :: b :: c :: l) 0
  = [char (a / 4); char (a mod 4 * 16 + b / 16); char (b mod 16 * 4 + c / 64); char (c mod 64)].
Proof.
  intros Ha Hb Hc. unfold encode_triple. arr_reads.
  rewrite !shl_small by lia.
  change 16711680 with (255 * 2^16). change 65280 with (255 * 2^8).
  rewrite (band_byte_at a 16), (band_byte_at b 8) by lia.
  autorewrite with js_mask. rewrite !sar_div by zdm.
  rewrite !lookup_char by zdm. cbn [app].
  repeat (apply (f_equal2 cons); [apply (f_equal char); zdm|]). done.
Qed.

Lemma encode_triple_shift a b c l u : 0 <= u -> encode_triple (a :: b :: c :: l) (u + 3) = encode_triple l u.
Proof.
  intros. unfold encode_triple. rewrite !arr_get_S by lia.
  replace (u + 3 - 1 - 1 - 1) with u by lia.
  replace (u + 3 + 1 - 1 - 1 - 1) with (u + 1) by lia.
  replace (u + 3 + 2 - 1 - 1 - 1) with (u + 2) by lia. done.
Qed.

(** The chunking of the encoder is transparent. *)
Lemma chunks_flatten e u :
  concat ((λ a, encodeChunk e a (if u <? a + 16383 then u else a + 16383)) <$> for_range 0 u 16383)
  = encodeChunk e 0 u.
Proof.
  unfold encodeChunk. rewrite <- (for_range_blocks 0 u 3 5461), concat_fmap_concat by lia.
  by rewrite <- list_fmap_compose.
Qed.

(** What the encoder appends after the whole groups. *)
Definition encode_tail (e : list Z) : list Z :=
  let n := len e in
  if n mod 3 =? 1 then
    let t := num (arr_get e (n - 1)) in lookup (t .>> 2) ++ lookup (t .<< 4 .& 63) ++ js "=="
  else if n mod 3 =? 2 then
    let t := (num (arr_get e (n - 2)) .<< 8) + num (arr_get e (n - 1)) in
    lookup (t .>> 10) ++ lookup (t .>> 4 .& 63) ++ lookup (t .<< 2 .& 63) ++ js "="
  else [].

Lemma fromByteArray_split e :
  fromByteArray e = encodeChunk e 0 (len e - len e mod 3) ++ encode_tail e.
Proof.
  unfold fromByteArray, encode_tail. rewrite chunks_flatten.
  destruct (len e mod 3 =? 1); [done|]. destruct (len e mod 3 =? 2); [done|]. by rewrite app_nil_r.
Qed.

Lemma encode_tail_cons a b c l : encode_tail (a :: b :: c :: l) = encode_tail l.
Proof.
  unfold encode_tail. autorewrite with js_len.
  replace ((len l + 1 + 1 + 1) mod 3) with (len l mod 3) by zdm.
  pose proof (len_nonneg l).
  destruct (Z.eqb_spec (len l mod 3) 1), (Z.eqb_spec (len l mod 3) 2);
  rewrite ?(arr_get_S a), ?(arr_get_S b), ?(arr_get_S c) by zdm; [lia| | |done];
  replace (len l + 1 + 1 + 1 - 1 - 1 - 1 - 1) with (len l - 1) by lia; [done|].
  by replace (len l + 1 + 1 + 1 - 2 - 1 - 1 - 1) with (len l - 2) by lia.
Qed.

Lemma encodeChunk_cons a b c l : is_byte a -> is_byte b -> is_byte c ->
  encodeChunk (a :: b :: c :: l) 0 (len (a :: b :: c :: l) - len (a :: b :: c :: l) mod 3)
  = [char (a / 4); char (a mod 4 * 16 + b / 16); char (b mod 16 * 4 + c / 64); char (c mod 64)]
    ++ encodeChunk l 0 (len l - len l mod 3).
Proof.
  intros. unfold encodeChunk. autorewrite with js_len.
  replace (len l + 1 + 1 + 1 - (len l + 1 + 1 + 1) mod 3) with (len l - len l mod 3 + 3) by zdm.
  pose proof (len_nonneg l).
  rewrite for_range_cons, (for_range_shift 0) by zdm. cbn [fmap list_fmap concat].
  rewrite encode_triple_cons by done. f_equal.
  rewrite <- list_fmap_compose. f_equal. apply list_fmap_ext. intros i u Hu. cbn.
  apply encode_triple_shift. unfold for_range in Hu.
  apply list_lookup_fmap_Some in Hu as (j & -> & Hj%lookup_seqZ). lia.
Qed.

Abbreviation bytes l := (Forall (λ b, is_byte b) l).

Lemma encode_tail_short a b : is_byte a -> is_byte b ->
  encode_tail [a] = encode [a] /\ encode_tail [a; b] = encode [a; b].
Proof.
  intros Ha Hb. unfold encode_tail. cbn [len length Z.of_nat]. split.
  - change (1 mod 3 =? 1) with true. cbv iota zeta. arr_reads.
    rewrite sar_div, shl_small, band_63 by lia. rewrite !lookup_char by zdm. cbn [app encode].
    repeat (apply (f_equal2 cons); [apply (f_equal char); zdm|]). done.
  - change (len [a; b]) with 2. change (2 mod 3 =? 1) with false. change (2 mod 3 =? 2) with true.
    cbv iota zeta. arr_reads.
    rewrite (shl_small a) by lia. rewrite !sar_div by zdm. rewrite shl_small by lia.
    autorewrite with js_mask. rewrite !lookup_char by zdm. cbn [app encode].
    repeat (apply (f_equal2 cons); [apply (f_equal char); zdm|]). done.
Qed.

Lemma fromByteArray_encode e : bytes e -> fromByteArray e = encode e.
Proof.
  rewrite fromByteArray_split. induction e as [|a|a b|a b c l IH] using list3_ind; intros He.
  - done.
  - rewrite Forall_singleton in He. rewrite (proj1 (encode_tail_short a a He He)). done.
  - rewrite Forall_cons, Forall_singleton in He. destruct He as [Ha Hb].
    rewrite (proj2 (encode_tail_short a b Ha Hb)). done.
  - rewrite !Forall_cons in He. destruct He as (Ha & Hb & Hc & Hl).
    rewrite encodeChunk_cons, encode_tail_cons, <- app_assoc, IH by done. done.
Qed.

(** ** The decoder inverts the encoder *)

Lemma char_no_pad i : 0 <= i < 64 -> char i <> 61.
Proof. intros H. apply (char_facts i H). Qed.

Lemma index_of_pad_cons x l : x <> 61 -> index_of_pad (x :: l) = index_of_pad l + 1.
Proof.
  intros Hx. unfold index_of_pad. cbn. rewrite decide_False by done.
  destruct (list_find _ l) as [[i c]|]; cbn; [lia|]. apply len_cons.
Qed.

Lemma decode_quad_char i j k l s :
  0 <= i < 64 -> 0 <= j < 64 -> 0 <= k < 64 -> 0 <= l < 64 ->
  decode_quad (char i :: char j :: char k :: char l :: s) 0
  = [i * 4 + j / 16; j mod 16 * 16 + k / 4; k mod 4 * 64 + l].
Proof.
  intros. unfold decode_quad. at_index revLookup. rewrite !revLookup_char by done.
  rewrite !shl_small by lia. 
  rewrite (bor_add (i * _) _ 18), (bor_add _ (k * _) 12), (bor_add _ l 6) by zdm.
  rewrite !sar_div by lia. autorewrite with js_mask.
  repeat (apply (f_equal2 cons); [zdm|]). done.
Qed.

Lemma decode_rest_char i j k s :
  0 <= i < 64 -> 0 <= j < 64 -> 0 <= k < 64 ->
  decode_rest (char i :: char j :: s) 0 2 = [i * 4 + j / 16] /\
  decode_rest (char i :: char j :: char k :: s) 0 1 = [i * 4 + j / 16; j mod 16 * 16 + k / 4].
Proof.
  intros. unfold decode_rest. cbn [Z.eqb Pos.eqb]. at_index revLookup.
  rewrite !revLookup_char by done. rewrite !shl_small by lia.
  rewrite (sar_div j 4), (sar_div k 2) by lia. split.
  - rewrite (bor_add (i * _) _ 2) by zdm. autorewrite with js_mask. f_equal. zdm.
  - rewrite (bor_add (i * _) _ 10), (bor_add _ (k / _) 4) by zdm. rewrite sar_div by zdm.
    autorewrite with js_mask. repeat (apply (f_equal2 cons); [zdm|]). done.
Qed.

Lemma decode_quad_shift a b c d s f : 0 <= f ->
  decode_quad (a :: b :: c :: d :: s) (f + 4) = decode_quad s f.
Proof.
  intros. unfold decode_quad. rewrite !revLookup_cons by lia.
  replace (f + 4 - 1 - 1 - 1 - 1) with f by lia.
  replace (f + 4 + 1 - 1 - 1 - 1 - 1) with (f + 1) by lia.
  replace (f + 4 + 2 - 1 - 1 - 1 - 1) with (f + 2) by lia.
  by replace (f + 4 + 3 - 1 - 1 - 1 - 1) with (f + 3) by lia.
Qed.

Lemma decode_rest_shift w x y z s f a : 0 <= f ->
  decode_rest (w :: x :: y :: z :: s) (f + 4) a = decode_rest s f a.
Proof.
  intros. unfold decode_rest. rewrite !revLookup_cons by lia.
  replace (f + 4 - 1 - 1 - 1 - 1) with f by lia.
  replace (f + 4 + 1 - 1 - 1 - 1 - 1) with (f + 1) by lia.
  by replace (f + 4 + 2 - 1 - 1 - 1 - 1) with (f + 2) by lia.
Qed.

(** The bytes written for a text of [c] loop characters and [a] pads. *)
Definition decode_bytes (s : list Z) (c a : Z) : list Z :=
  concat (decode_quad s <$> for_range 0 c 4) ++ decode_rest s (loop_end c) a.

Lemma decode_bytes_cons i j k l s c a :
  0 <= i < 64 -> 0 <= j < 64 -> 0 <= k < 64 -> 0 <= l < 64 -> -4 < c ->
  decode_bytes (char i :: char j :: char k :: char l :: s) (c + 4) a
  = [i * 4 + j / 16; j mod 16 * 16 + k / 4; k mod 4 * 64 + l] ++ decode_bytes s c a.
Proof.
  intros. unfold decode_bytes.
  replace (loop_end (c + 4)) with (loop_end c + 4) by (unfold loop_end; zdm).
  rewrite decode_rest_shift by (unfold loop_end; lia).
  rewrite for_range_cons, (for_range_shift 0) by lia. cbn [fmap list_fmap concat].
  rewrite decode_quad_char by done. rewrite <- app_assoc. do 2 f_equal.
  rewrite <- list_fmap_compose. f_equal. apply list_fmap_ext. intros n u Hu. cbn.
  apply decode_quad_shift. apply list_lookup_fmap_Some in Hu as (x & -> & Hx%lookup_seqZ). lia.
Qed.

(** Loop characters and padding of the encoding of [n] bytes. *)
Definition pad_of (n : Z) : Z := (3 - n mod 3) mod 3.
Definition loop_of (n : Z) : Z := 4 * (n / 3) - pad_of n.

Lemma pad_of_3 n : pad_of (n + 1 + 1 + 1) = pad_of n.
Proof. unfold pad_of. zdm. Qed.
Lemma loop_of_3 n : loop_of (n + 1 + 1 + 1) = loop_of n + 4.
Proof. unfold loop_of. rewrite pad_of_3. zdm. Qed.

Lemma decode_bytes_encode e : bytes e -> decode_bytes (encode e) (loop_of (len e)) (pad_of (len e)) = e.
Proof.
  induction e as [|a|a b|a b c l IH] using list3_ind; intros He.
  - done.
  - rewrite Forall_singleton in He. change (len [a]) with 1. unfold decode_bytes. cbn [encode].
    change (loop_of 1) with (-2). change (pad_of 1) with 2. change (loop_end (-2)) with 0.
    rewrite for_range_nil by lia. cbn [fmap list_fmap concat app].
    rewrite (proj1 (decode_rest_char (a / 4) (a mod 4 * 16) 0 _ ltac:(zdm) ltac:(zdm) ltac:(zdm))).
    f_equal. zdm.
  - rewrite Forall_cons, Forall_singleton in He. destruct He as [Ha Hb].
    change (len [a; b]) with 2. unfold decode_bytes. cbn [encode].
    change (loop_of 2) with (-1). change (pad_of 2) with 1. change (loop_end (-1)) with 0.
    rewrite for_range_nil by lia. cbn [fmap list_fmap concat app].
    rewrite (proj2 (decode_rest_char (a / 4) (a mod 4 * 16 + b / 16) (b mod 16 * 4) [61]
      ltac:(zdm) ltac:(zdm) ltac:(zdm))).
    repeat (apply (f_equal2 cons); [zdm|]). done.
  - rewrite !Forall_cons in He. destruct He as (Ha & Hb & Hc & Hl).
    autorewrite with js_len. rewrite pad_of_3, loop_of_3. cbn [encode].
    rewrite decode_bytes_cons, IH by (unfold loop_of, pad_of; pose proof (len_nonneg l); zdm || done).
    cbn [app]. repeat (apply (f_equal2 cons); [zdm|]). done.
Qed.

Lemma index_of_pad_encode e : bytes e ->
  index_of_pad (encode e) = 4 * ((len e + 2) / 3) - pad_of (len e) /\
  len (encode e) = 4 * ((len e + 2) / 3).
Proof.
  unfold pad_of. induction e as [|a|a b|a b c l IH] using list3_ind; intros He; [done| | |];
    rewrite ?Forall_cons in He; decompose_Forall; destruct_and?; cbn [encode];
    rewrite ?index_of_pad_cons by (apply char_no_pad; zdm); autorewrite with js_len; [done|done|].
  destruct IH as [-> ->]; [done|]. split; zdm.
Qed.

Lemma getLens_encode e : bytes e ->
  getLens (encode e) = Ok (4 * ((len e + 2) / 3) - pad_of (len e), pad_of (len e)).
Proof.
  intros He. destruct (index_of_pad_encode e He) as [Hi Hl]. unfold getLens. rewrite Hi, Hl.
  destruct (Z.ltb_spec 0 ((4 * ((len e + 2) / 3)) mod 4)); [zdm|].
  do 2 f_equal. unfold pad_of.
  destruct (Z.eqb_spec (4 * ((len e + 2) / 3) - (3 - len e mod 3) mod 3) (4 * ((len e + 2) / 3))); zdm.
Qed.

Lemma toByteArray_encode e : bytes e -> toByteArray (encode e) = Ok e.
Proof.
  intros He. unfold toByteArray. rewrite getLens_encode by done. cbn [result_bind].
  pose proof (len_nonneg e). set (r := 4 * ((len e + 2) / 3) - pad_of (len e)).
  assert (En : 3 * (r + pad_of (len e)) / 4 - pad_of (len e) = len e) by (subst r; unfold pad_of; zdm).
  rewrite En. destruct (Z.ltb_spec (len e) 0); [lia|].
  assert (Ec : (if 0 <? pad_of (len e) then r - 4 else r) = loop_of (len e)).
  { subst r. unfold loop_of, pad_of. destruct (Z.ltb_spec 0 ((3 - len e mod 3) mod 3)); zdm. }
  rewrite Ec. fold (decode_bytes (encode e) (loop_of (len e)) (pad_of (len e))).
  rewrite decode_bytes_encode by done. f_equal. unfold len. rewrite Nat2Z.id. apply resize_all.
Qed.

Lemma toByteArray_length e u : toByteArray e = Ok u -> byteLength e = Ok (len u).
Proof.
  unfold toByteArray, byteLength. destruct (getLens e) as [[r a]|]; [|done]. cbn [result_bind].
  destruct (Z.ltb_spec (3 * (r + a) / 4 - a) 0); [done|]. intros [= <-]. f_equal.
  unfold len. rewrite length_resize. lia.
Qed.

(** ** Main results *)

(** C22. For every byte array, [fromByteArray] computes its RFC 4648 encoding
    (the chunked loop and the two padding cases included), [toByteArray] of
    that text gives the bytes back, and [byteLength] announces their number. *)
Theorem base64_roundtrip e : bytes e ->
  fromByteArray e = encode e /\ toByteArray (fromByteArray e) = Ok e /\
  byteLength (fromByteArray e) = Ok (len e).
Proof.
  intros He. rewrite fromByteArray_encode by done. split; [done|].
  pose proof (toByteArray_encode e He) as H. split; [done|]. by apply toByteArray_length.
Qed.

Lemma base64_roundtrip_witness :
  bytes [77; 97; 110; 255] /\ fromByteArray [77; 97; 110; 255] = js "TWFu/w==" /\
  toByteArray (fromByteArray [77; 97; 110; 255]) = Ok [77; 97; 110; 255].
Proof.
  assert (B : bytes [77; 97; 110; 255]) by (repeat constructor; lia).
  split; [exact B|]. split; [vm_compute; reflexivity|].
  exact (proj1 (proj2 (base64_roundtrip [77; 97; 110; 255] B))).
Defined.

End Base64.
