(* ===== verification/Buffer.v ===== *)
(** Model of the string side of the Buffer module of the bundle
    (client/docs/swagger-ui/swagger-ui-bundle.js, lines 3974-4667): the
    encoders and decoders of the six encodings, the block copies, [slice],
    [byteLength], [write], [toString], [Buffer.from] on strings, and the
    [btoa] helpers built on them.  A buffer is the list of its bytes; typed
    arrays are available (TYPED_ARRAY_SUPPORT), as in every browser that runs
    the page. *)

From stdpp Require Import base list list_numbers numbers strings gmap.
From Stdlib Require Import ZArith Lia.
From S2P Require Import Prelude Base64.

Module Buffer.
Import Base64.

(** ** Sizes *)

(** [a()] *)
Definition kMaxLength : Z := 2147483647.

(** [u(e, t)]: a zero-filled buffer. *)
Definition createBuffer (t : Z) : result (list Z) :=
  if kMaxLength <? t then Throw (RangeError (js "Invalid typed array length"))
  else if t <? 0 then Throw (RangeError (js "Invalid typed array length"))
  else Ok (replicate (Z.to_nat t) 0).

(** [d(e)] *)
Definition checked (e : Z) : result Z :=
  if kMaxLength <=? e then
    Throw (RangeError (js "Attempt to allocate Buffer larger than maximum size: 0x7fffffff bytes"))
  else Ok (0 .| e).

(** [p(e, t)]: a buffer with the low bytes of the elements of an array. *)
Definition fromArrayLike (t : list Z) : result (list Z) :=
  let! n := checked (len t) in
  let! _ := createBuffer n in
  Ok ((λ x, 255 .& x) <$> t).

(** [s.prototype.slice]: negative bounds count from the end. *)
Definition slice_bound (r e : Z) : Z :=
  if e <? 0 then (if e + r <? 0 then 0 else e + r) else if r <? e then r else e.

Definition subarray {A} (l : list A) (e t : Z) : list A :=
  take (Z.to_nat (t - e)) (drop (Z.to_nat e) l).

Definition slice (this : list Z) (e : Z) (t : option Z) : list Z :=
  let r := len this in
  let e := slice_bound r (Int32.to_int32 e) in
  let t := slice_bound r (match t with None => r | Some t => Int32.to_int32 t end) in
  let t := if t <? e then e else t in
  subarray this e t.

(** ** UTF-8 *)

(** [t = t || 1 / 0]: the bytes still allowed, [None] for Infinity. *)
Definition units := option Z.
Definition units_of (t : option Z) : units :=
  match t with Some 0 => None | t => t end.
Definition units_sub (t : units) (k : Z) : units := (λ x, x - k) <$> t.
Definition units_neg (t : units) : bool := match t with Some x => x <? 0 | None => false end.

(** [(t -= 3) > -1 && i.push(239, 191, 189)] *)
Definition push_replacement (t : units) (i : list Z) : units * list Z :=
  let t := units_sub t 3 in
  (t, if units_neg t then i else i ++ [239; 191; 189]).

(** The bytes of a code point and their number; [None]: not a code point. *)
Definition code_point_bytes (n : Z) : option (list Z) :=
  if n <? 128 then Some [n]
  else if n <? 2048 then Some [ (n .>> 6 .| 192); (63 .& n .| 128) ]
  else if n <? 65536 then Some [ (n .>> 12 .| 224); (n .>> 6 .& 63 .| 128); (63 .& n .| 128) ]
  else if n <? 1114112 then
    Some [ (n .>> 18 .| 240); (n .>> 12 .& 63 .| 128); (n .>> 6 .& 63 .| 128); (63 .& n .| 128) ]
  else None.

(** The loop of [F(e, t)]; [o] is the pending lead surrogate. *)
Fixpoint utf8_loop (e : list Z) (o : option Z) (t : units) (i : list Z) : result (list Z) :=
  match e with
  | [] => Ok i
  | n :: rest =>
      let emit (n : Z) (t : units) (i : list Z) :=
        match code_point_bytes n with
        | None => Throw (PlainError (js "Invalid code point"))
        | Some bs =>
            let t := units_sub t (len bs) in
            if units_neg t then Ok i else utf8_loop rest None t (i ++ bs)
        end in
      if (55295 <? n) && (n <? 57344) then
        match o with
        | None =>
            if 56319 <? n then
              let '(t, i) := push_replacement t i in utf8_loop rest None t i
            else match rest with
            | [] => let '(t, i) := push_replacement t i in utf8_loop rest None t i
            | _ => utf8_loop rest (Some n) t i
            end
        | Some l =>
            if n <? 56320 then
              let '(t, i) := push_replacement t i in utf8_loop rest (Some n) t i
            else emit (65536 + (l - 55296 .<< 10 .| n - 56320)) t i
        end
      else match o with
      | Some _ => let '(t, i) := push_replacement t i in emit n t i
      | None => emit n t i
      end
  end.

(** [F(e, t)] *)
Definition utf8ToBytes (e : list Z) (t : option Z) : result (list Z) :=
  utf8_loop e None (units_of t) [].

(** [128 == (192 & x)] *)
Definition is_cont (x : Z) : bool := (192 .& x) =? 128.

(** The code point at [o] of the bytes [e] when [f] bytes fit, [None] when the
    sequence is not well formed. *)
Definition decode_seq (e : list Z) (o f : Z) : option Z :=
  let l := num (arr_get e o) in
  let i := num (arr_get e (o + 1)) in
  let a := num (arr_get e (o + 2)) in
  let u := num (arr_get e (o + 3)) in
  if f =? 1 then (if l <? 128 then Some l else None)
  else if f =? 2 then
    let s := ((31 .& l) .<< 6 .| 63 .& i) in
    if is_cont i && (127 <? s) then Some s else None
  else if f =? 3 then
    let s := ((15 .& l) .<< 12 .| (63 .& i) .<< 6 .| 63 .& a) in
    if is_cont i && is_cont a && (2047 <? s) && ((s <? 55296) || (57343 <? s)) then Some s else None
  else
    let s := ((15 .& l) .<< 18 .| (63 .& i) .<< 12 .| (63 .& a) .<< 6 .| 63 .& u) in
    if is_cont i && is_cont a && is_cont u && (65535 <? s) && (s <? 1114112) then Some s else None.

Definition seq_length (l : Z) : Z :=
  if 239 <? l then 4 else if 223 <? l then 3 else if 191 <? l then 2 else 1.

(** One iteration of [C]: the code units pushed and the advance of [o]. *)
Definition decode_step (e : list Z) (o n : Z) : list Z * Z :=
  let f := seq_length (num (arr_get e o)) in
  match (if o + f <=? n then decode_seq e o f else None) with
  | None => ([65533], 1)
  | Some c =>
      if 65535 <? c then
        let c := c - 65536 in ([ (c .>>> 10 .& 1023 .| 55296); (56320 .| 1023 .& c) ], f)
      else ([c], f)
  end.

Fixpoint utf8_slice_loop (fuel : nat) (e : list Z) (o n : Z) : list Z :=
  match fuel with
  | O => []
  | S fuel =>
      if o <? n then
        let '(r, f) := decode_step e o n in r ++ utf8_slice_loop fuel e (o + f) n
      else []
  end.

(** [String.fromCharCode] on the code units, 4096 at a time. *)
Definition MAX_ARGUMENTS_LENGTH : Z := 4096.
Definition decodeCodePointsArray (e : list Z) : list Z :=
  if len e <=? MAX_ARGUMENTS_LENGTH then e
  else concat ((λ r, subarray e r (r + MAX_ARGUMENTS_LENGTH))
                 <$> for_range 0 (len e) MAX_ARGUMENTS_LENGTH).

(** [C(e, t, n)]; every iteration advances, so [n - t] of them are enough. *)
Definition utf8Slice (e : list Z) (t n : Z) : list Z :=
  let n := Z.min (len e) n in
  decodeCodePointsArray (utf8_slice_loop (Z.to_nat (n - t)) e t n).

Example utf8_euro : utf8ToBytes [8364] None = Ok [226; 130; 172].
Proof. vm_compute. reflexivity. Qed.
Example utf8_lone_pair : utf8ToBytes [55296; 55297] None = Ok [239; 191; 189].
Proof. vm_compute. reflexivity. Qed.
Example utf8_clef : utf8Slice [240; 157; 132; 158; 97] 0 5 = [55348; 56606; 97].
Proof. vm_compute. reflexivity. Qed.

(** ** UTF-8: correctness *)

(** Unicode scalar values and their UTF-16 form. *)
Definition is_scalar (c : Z) : Prop := 0 <= c < 55296 \/ 57344 <= c < 1114112.

Definition utf16_of (c : Z) : list Z :=
  if c <? 65536 then [c] else [55296 + (c - 65536) / 1024; 56320 + (c - 65536) mod 1024].

(** The UTF-8 form (RFC 3629). *)
Definition utf8_of (c : Z) : list Z :=
  if c <? 128 then [c]
  else if c <? 2048 then [192 + c / 64; 128 + c mod 64]
  else if c <? 65536 then [224 + c / 4096; 128 + c / 64 mod 64; 128 + c mod 64]
  else [240 + c / 262144; 128 + c / 4096 mod 64; 128 + c / 64 mod 64; 128 + c mod 64].

Ltac bool_cases :=
  repeat match goal with
  | |- context [Z.ltb ?a ?b] => destruct (Z.ltb_spec a b); try (exfalso; zdm)
  | |- context [Z.leb ?a ?b] => destruct (Z.leb_spec a b); try (exfalso; zdm)
  | |- context [Z.eqb ?a ?b] => destruct (Z.eqb_spec a b); try (exfalso; zdm)
  end.

(** The elements of a literal list are bytes. *)
Ltac all_bytes := repeat (apply Forall_cons_2; [cbn beta; zdm|]); apply Forall_nil_2.

Lemma code_point_bytes_scalar c : is_scalar c -> code_point_bytes c = Some (utf8_of c).
Proof.
  unfold is_scalar. intros Hc. unfold code_point_bytes, utf8_of. bool_cases; [done| | |];
  rewrite ?(bor_comm _ 192), ?(bor_comm _ 224), ?(bor_comm _ 240), ?(bor_comm _ 128);
  rewrite !sar_div by lia; autorewrite with js_mask;
  rewrite ?(bor_add 128 _ 6), ?(bor_add 192 _ 6), ?(bor_add 224 _ 5), ?(bor_add 240 _ 4) by zdm;
  f_equal; repeat (apply (f_equal2 cons); [zdm|]); done.
Qed.

Lemma utf8_loop_scalar c rest i t : is_scalar c -> units_neg (units_sub t (len (utf8_of c))) = false ->
  utf8_loop (utf16_of c ++ rest) None t i
  = utf8_loop rest None (units_sub t (len (utf8_of c))) (i ++ utf8_of c).
Proof.
  intros Hc Ht. pose proof (code_point_bytes_scalar c Hc) as E. unfold is_scalar in Hc.
  unfold utf16_of. destruct (Z.ltb_spec c 65536); cbn [app utf8_loop].
  - bool_cases; cbn [andb]; by rewrite E, Ht.
  - set (h := 55296 + _). set (w := 56320 + _).
    assert (Eh : (55295 <? h) && (h <? 57344) = true /\ (56319 <? h) = false) by (subst h; bool_cases; zdm || done).
    assert (Ew : (55295 <? w) && (w <? 57344) = true /\ (w <? 56320) = false) by (subst w; bool_cases; zdm || done).
    destruct Eh as [-> ->], Ew as [-> ->].
    assert (Ec : 65536 + (h - 55296 .<< 10 .| w - 56320) = c).
    { subst h w. rewrite shl_small, (bor_add _ _ 10) by zdm. zdm. }
    by rewrite Ec, E, Ht.
Qed.

(** The bytes of a text, when the budget [t] suffices. *)
Definition fits (t : units) (n : Z) : Prop := match t with Some k => n <= k | None => True end.

Lemma utf8_loop_text cs i t : Forall is_scalar cs -> fits t (len (concat (utf8_of <$> cs))) ->
  utf8_loop (concat (utf16_of <$> cs)) None t i = Ok (i ++ concat (utf8_of <$> cs)).
Proof.
  intros H. revert i t. induction H as [|c cs Hc _ IH]; intros i t; cbn [fmap list_fmap concat].
  - by rewrite app_nil_r.
  - rewrite len_app. pose proof (len_nonneg (concat (utf8_of <$> cs))). intros Ht.
    rewrite utf8_loop_scalar, IH, <- app_assoc; [done| |done|];
    destruct t as [k|]; cbn in *; try lia; done.
Qed.

Lemma is_cont_byte x : is_byte x -> is_cont x = (x / 64 =? 2).
Proof.
  intros Hx. assert (Hin : x ∈ seqZ 0 256) by (apply elem_of_seqZ; lia). revert x Hx Hin.
  assert (F : Forall (λ x, is_cont x = (x / 64 =? 2)) (seqZ 0 256)).
  { apply (bool_decide_unpack _). vm_compute. done. }
  rewrite Forall_forall in F. auto.
Qed.

Lemma is_cont_tail x : 0 <= x < 64 -> is_cont (128 + x) = true.
Proof. intros. rewrite is_cont_byte by lia. apply Z.eqb_eq. zdm. Qed.

(** Reading past a prefix. *)
Lemma decode_step_prefix p l o n : 0 <= o ->
  decode_step (p ++ l) (o + len p) (n + len p) = decode_step l o n.
Proof.
  intros. unfold decode_step, decode_seq.
  replace (o + len p + 1) with (o + 1 + len p) by lia.
  replace (o + len p + 2) with (o + 2 + len p) by lia.
  replace (o + len p + 3) with (o + 3 + len p) by lia.
  rewrite !arr_get_app_r by lia.
  set (f := seq_length _). replace (o + len p + f <=? n + len p) with (o + f <=? n); [done|].
  destruct (Z.leb_spec (o + f) n), (Z.leb_spec (o + len p + f) (n + len p)); done || lia.
Qed.

Lemma utf8_of_facts c : is_scalar c ->
  bytes (utf8_of c) /\ seq_length (num (arr_get (utf8_of c) 0)) = len (utf8_of c) /\ 0 < len (utf8_of c).
Proof.
  unfold is_scalar, utf8_of. intros. bool_cases; cbn [len length Z.of_nat];
  (split; [all_bytes|split; [arr_reads; unfold seq_length; bool_cases; done|done]]).
Qed.

Lemma decode_seq_scalar c l : is_scalar c -> decode_seq (utf8_of c ++ l) 0 (len (utf8_of c)) = Some c.
Proof.
  unfold is_scalar. intros Hc. unfold utf8_of. bool_cases; cbn [app]; unfold decode_seq; arr_reads.
  - change (len [c]) with 1. cbn [Z.eqb Pos.eqb]. bool_cases. done.
  - change (len [192 + c / 64; 128 + c mod 64]) with 2. cbn [Z.eqb Pos.eqb].
    autorewrite with js_mask. rewrite is_cont_tail by zdm. rewrite shl_small, (bor_add _ _ 6) by zdm.
    cbn [andb]. bool_cases. f_equal. zdm.
  - change (len [224 + c / 4096; 128 + c / 64 mod 64; 128 + c mod 64]) with 3. cbn [Z.eqb Pos.eqb].
    autorewrite with js_mask. rewrite !is_cont_tail by zdm. rewrite !shl_small by zdm.
    rewrite (bor_add (_ * 2^12) _ 12), (bor_add _ _ 6) by zdm.
    replace (_ + _ + _) with c by zdm. cbn [andb]. bool_cases; done.
  - change (len _) with 4. cbn [Z.eqb Pos.eqb].
    autorewrite with js_mask. rewrite !is_cont_tail by zdm. rewrite !shl_small by zdm.
    rewrite (bor_add (_ * 2^18) _ 18), (bor_add _ (_ * 2^6) 12), (bor_add _ _ 6) by zdm.
    replace (_ + _ + _ + _) with c by zdm. cbn [andb]. bool_cases; done.
Qed.

Lemma decode_step_scalar c l n : is_scalar c -> len (utf8_of c) <= n ->
  decode_step (utf8_of c ++ l) 0 n = (utf16_of c, len (utf8_of c)).
Proof.
  intros Hc Hn. destruct (utf8_of_facts c Hc) as (_ & Hf & Hpos). unfold decode_step.
  assert (E0 : arr_get (utf8_of c ++ l) 0 = arr_get (utf8_of c) 0).
  { destruct (utf8_of c); [unfold len in Hpos; cbn in Hpos; lia|done]. }
  rewrite E0, Hf. destruct (Z.leb_spec (0 + len (utf8_of c)) n); [|lia].
  rewrite decode_seq_scalar by done. unfold utf16_of. unfold is_scalar in Hc. bool_cases; [|done].
  rewrite shr_div by lia. autorewrite with js_mask. rewrite (bor_comm _ 55296).
  rewrite (bor_add 55296 _ 10), (bor_add 56320 _ 10) by zdm.
  f_equal. f_equal. zdm.
Qed.

Lemma utf8_slice_loop_text cs p fuel :
  Forall is_scalar cs -> (length (concat (utf8_of <$> cs)) <= fuel)%nat ->
  utf8_slice_loop fuel (p ++ concat (utf8_of <$> cs)) (len p) (len (p ++ concat (utf8_of <$> cs)))
  = concat (utf16_of <$> cs).
Proof.
  intros H. revert p fuel. induction H as [|c cs Hc _ IH]; intros p fuel; cbn [fmap list_fmap concat].
  - intros _. rewrite app_nil_r. destruct fuel; [done|]. cbn. by rewrite Z.ltb_irrefl.
  - intros Hf. destruct (utf8_of_facts c Hc) as (_ & _ & Hpos).
    pose proof (len_nonneg (concat (utf8_of <$> cs))).
    destruct fuel as [|fuel]; [rewrite length_app in Hf; unfold len in Hpos; lia|].
    cbn [utf8_slice_loop].
    destruct (Z.ltb_spec (len p) (len (p ++ utf8_of c ++ concat (utf8_of <$> cs))));
      [|rewrite !len_app in *; lia].
    pose proof (decode_step_prefix p (utf8_of c ++ concat (utf8_of <$> cs)) 0
      (len (utf8_of c ++ concat (utf8_of <$> cs))) ltac:(lia)) as E.
    rewrite Z.add_0_l, (Z.add_comm (len (_ ++ _))), <- len_app in E.
    rewrite E, decode_step_scalar by (done || (rewrite len_app; lia)).
    f_equal. rewrite app_assoc, <- len_app. apply IH.
    rewrite length_app in Hf. unfold len in Hpos. lia.
Qed.

Lemma decodeCodePointsArray_id e : decodeCodePointsArray e = e.
Proof.
  unfold decodeCodePointsArray, MAX_ARGUMENTS_LENGTH. destruct (Z.leb_spec (len e) 4096); [done|].
  assert (G : ∀ n (l : list Z) r, (Z.to_nat (len l - r) <= n)%nat -> 0 <= r ->
    concat ((λ r, subarray l r (r + 4096)) <$> for_range r (len l) 4096) = drop (Z.to_nat r) l).
  { clear. intros n. induction n as [|n IH]; intros l r Hn Hr.
    - rewrite for_range_nil by lia. cbn. rewrite drop_ge; [done|]. unfold len in Hn. lia.
    - destruct (Z.lt_ge_cases r (len l)).
      + rewrite for_range_cons by lia. cbn [fmap list_fmap concat]. rewrite IH by lia.
        unfold subarray. replace (Z.to_nat (r + 4096 - r)) with 4096%nat by lia.
        replace (Z.to_nat (r + 4096)) with (Z.to_nat r + 4096)%nat by lia.
        rewrite <- drop_drop. apply take_drop.
      + rewrite for_range_nil by lia. cbn. rewrite drop_ge; [done|]. unfold len in *. lia. }
  rewrite (G (Z.to_nat (len e))) by lia. done.
Qed.

(** ** The other encodings *)

(** [B(e, t, n, r)]: copy [e] into [t] at [n], at most [r] bytes; the number
    copied and the new contents of [t]. *)
Fixpoint blit_loop (fuel : nat) (e t : list Z) (n r o : Z) : Z * list Z :=
  match fuel with
  | O => (o, t)
  | S fuel =>
      if (o <? r) && negb ((len t <=? o + n) || (len e <=? o)) then
        blit_loop fuel e (arr_set t (o + n) (num (arr_get e o))) n r (o + 1)
      else (o, t)
  end.
Definition blitBuffer (e t : list Z) (n r : Z) : Z * list Z := blit_loop (length e) e t n r 0.

Definition asciiToBytes (e : list Z) : list Z := (λ c, 255 .& c) <$> e.

(** Two bytes per code unit, low byte first, while they fit. *)
Fixpoint utf16leToBytes (e : list Z) (t : Z) : list Z :=
  match e with
  | n :: e' =>
      let t := t - 2 in
      if t <? 0 then [] else n mod 256 :: (n .>> 8) :: utf16leToBytes e' t
  | [] => []
  end.

(** The characters [/[^+\/0-9A-Za-z-_]/g] keeps. *)
Definition base64_char (c : Z) : bool :=
  (c =? 43) || (c =? 47) || ((48 <=? c) && (c <=? 57)) || ((65 <=? c) && (c <=? 90))
  || ((97 <=? c) && (c <=? 122)) || (c =? 45) || (c =? 95).

Definition base64clean (e : list Z) : list Z :=
  let e := List.filter base64_char (trim e) in
  if len e <? 2 then []
  else e ++ replicate (Z.to_nat ((- len e) mod 4)) 61.

(** [z(e)] *)
Definition base64ToBytes (e : list Z) : result (list Z) := toByteArray (base64clean e).

Fixpoint hex_write_loop (fuel : nat) (e t : list Z) (n r a : Z) : Z * list Z :=
  match fuel with
  | O => (a, e)
  | S fuel =>
      if a <? r then
        match parseInt_16 (subarray t (2 * a) (2 * a + 2)) with
        | None => (a, e)
        | Some u => hex_write_loop fuel (arr_set e (n + a) (u mod 256)) t n r (a + 1)
        end
      else (a, e)
  end.

(** [y(e, t, n, r)] *)
Definition hexWrite (e t : list Z) (n r : Z) : result (Z * list Z) :=
  let o := len e - n in
  let r := if r =? 0 then o else if o <? r then o else r in
  let i := len t in
  if negb (i mod 2 =? 0) then Throw (TypeError (js "Invalid hex string"))
  else
    let r := if i / 2 <? r then i / 2 else r in
    Ok (hex_write_loop (Z.to_nat r) e t n r 0).

(** [b], [_], [w], [E], [x] *)
Definition utf8Write (e t : list Z) (n r : Z) : result (Z * list Z) :=
  let! bs := utf8ToBytes t (Some (len e - n)) in Ok (blitBuffer bs e n r).
Definition asciiWrite (e t : list Z) (n r : Z) : result (Z * list Z) :=
  Ok (blitBuffer (asciiToBytes t) e n r).
Definition latin1Write (e t : list Z) (n r : Z) : result (Z * list Z) := asciiWrite e t n r.
Definition base64Write (e t : list Z) (n r : Z) : result (Z * list Z) :=
  let! bs := base64ToBytes t in Ok (blitBuffer bs e n r).
Definition ucs2Write (e t : list Z) (n r : Z) : result (Z * list Z) :=
  Ok (blitBuffer (utf16leToBytes t (len e - n)) e n r).

(** [S(e, t, n)] *)
Definition base64Slice (e : list Z) (t n : Z) : list Z :=
  if (t =? 0) && (n =? len e) then fromByteArray e else fromByteArray (slice e t (Some n)).

(** [A], [O] *)
Definition asciiSlice (e : list Z) (t n : Z) : list Z :=
  (λ o, 127 .& num (arr_get e o)) <$> for_range t (Z.min (len e) n) 1.
Definition latin1Slice (e : list Z) (t n : Z) : list Z :=
  (λ o, num (arr_get e o)) <$> for_range t (Z.min (len e) n) 1.

(** [q(e)] *)
Definition toHex (e : Z) : list Z := [hex_char (e / 16); hex_char (e mod 16)].

(** [P(e, t, n)] *)
Definition hexSlice (e : list Z) (t n : Z) : list Z :=
  let r := len e in
  let t := if (t =? 0) || (t <? 0) then 0 else t in
  let n := if (n =? 0) || (n <? 0) || (r <? n) then r else n in
  concat ((λ i, toHex (num (arr_get e i))) <$> for_range t n 1).

(** [T(e, t, n)]; a missing high byte makes the sum NaN, which becomes the
    code unit 0. *)
Definition utf16leSlice (e : list Z) (t n : Z) : list Z :=
  let r := slice e t (Some n) in
  (λ i, match arr_get r i, arr_get r (i + 1) with
        | Some a, Some b => a + 256 * b
        | _, _ => 0
        end) <$> for_range 0 (len r) 2.

(** ** Dispatch on the encoding *)

Inductive encoding := Hex | Utf8 | Ascii | Latin1 | Base64Enc | Ucs2.

(** The cases of the [switch] statements. *)
Definition encoding_case (e : list Z) : option encoding :=
  if decide (e = js "hex") then Some Hex
  else if decide (e = js "utf8" \/ e = js "utf-8") then Some Utf8
  else if decide (e = js "ascii") then Some Ascii
  else if decide (e = js "latin1" \/ e = js "binary") then Some Latin1
  else if decide (e = js "base64") then Some Base64Enc
  else if decide (e = js "ucs2" \/ e = js "ucs-2" \/ e = js "utf16le" \/ e = js "utf-16le")
  then Some Ucs2
  else None.

(** The [for (;;) switch] loop: the name as given, then in lower case. *)
Definition resolve_encoding (e : list Z) : option encoding :=
  match encoding_case e with Some k => Some k | None => encoding_case (to_lower e) end.

(** [s.isEncoding] *)
Definition isEncoding (e : list Z) : bool :=
  match encoding_case (to_lower e) with Some _ => true | None => false end.

(** [h(e, t)] on a string *)
Definition byteLength (e : list Z) (t : option (list Z)) : result Z :=
  let n := len e in
  if n =? 0 then Ok 0
  else match (match t with None => Some Utf8 | Some t => resolve_encoding t end) with
  | Some Ascii | Some Latin1 => Ok n
  | Some Ucs2 => Ok (2 * n)
  | Some Hex => Ok (n .>>> 1)
  | Some Base64Enc => let! bs := base64ToBytes e in Ok (len bs)
  | Some Utf8 | None => let! bs := utf8ToBytes e None in Ok (len bs)
  end.

(** [r || "utf8"] *)
Definition encoding_or_utf8 (r : option (list Z)) : list Z :=
  match r with None | Some [] => js "utf8" | Some r => r end.

Definition unknown_encoding {A} (r : list Z) : result A :=
  Throw (TypeError (js "Unknown encoding: " ++ to_lower r)).

(** [s.prototype.write] once its arguments are sorted out: string, offset,
    length and encoding. *)
Definition write (this e : list Z) (t : Z) (n : option Z) (r : option (list Z)) : result (Z * list Z) :=
  let o := len this - t in
  let n := match n with None => o | Some n => if o <? n then o else n end in
  if ((0 <? len e) && ((n <? 0) || (t <? 0))) || (len this <? t) then
    Throw (RangeError (js "Attempt to write outside buffer bounds"))
  else
    let r := encoding_or_utf8 r in
    match resolve_encoding r with
    | Some Hex => hexWrite this e t n
    | Some Utf8 => utf8Write this e t n
    | Some Ascii => asciiWrite this e t n
    | Some Latin1 => latin1Write this e t n
    | Some Base64Enc => base64Write this e t n
    | Some Ucs2 => ucs2Write this e t n
    | None => unknown_encoding r
    end.

(** [s.prototype.toString] *)
Definition toString (this : list Z) (e : option (list Z)) (t n : option Z) : result (list Z) :=
  if len this =? 0 then Ok [] else
  let t := match t with None => 0 | Some t => if t <? 0 then 0 else t end in
  if len this <? t then Ok [] else
  let n := match n with None => len this | Some n => if len this <? n then len this else n end in
  if n <=? 0 then Ok [] else
  let n := (n .>>> 0) in
  let t := (t .>>> 0) in
  if n <=? t then Ok [] else
  let e := encoding_or_utf8 e in
  match resolve_encoding e with
  | Some Hex => Ok (hexSlice this t n)
  | Some Utf8 => Ok (utf8Slice this t n)
  | Some Ascii => Ok (asciiSlice this t n)
  | Some Latin1 => Ok (latin1Slice this t n)
  | Some Base64Enc => Ok (base64Slice this t n)
  | Some Ucs2 => Ok (utf16leSlice this t n)
  | None => unknown_encoding e
  end.

(** [Buffer.from(t, n)] for a string [t]. *)
Definition fromString (t : list Z) (n : option (list Z)) : result (list Z) :=
  let n := encoding_or_utf8 n in
  if negb (isEncoding n) then
    Throw (TypeError (34 :: js "encoding" ++ 34 :: js " must be a valid string encoding"))
  else
    let! b := byteLength t (Some n) in
    let r := (0 .| b) in
    let! e := createBuffer r in
    let! (o, e) := write e t 0 (Some (len e)) (Some n) in
    Ok (if o =? r then e else slice e 0 (Some o)).

(** [t.btoa] of the swagger-ui helpers. *)
Definition btoa (t : list Z) : result (list Z) :=
  let! b := fromString t (Some (js "utf-8")) in toString b (Some (js "base64")) None None.

(** The [btoa] module of swagger-client: the text as Latin-1 bytes. *)
Definition btoa_binary (t : list Z) : result (list Z) :=
  let! b := fromString t (Some (js "binary")) in toString b (Some (js "base64")) None None.

Example hex_roundtrip_ex : (let! b := fromString (js "00fF7a") (Some (js "HEX")) in
   toString b (Some (js "hex")) None None) = Ok (js "00ff7a").
Proof. vm_compute. reflexivity. Qed.
Example btoa_ex : btoa (js "user:pass") = Ok (js "dXNlcjpwYXNz").
Proof. vm_compute. reflexivity. Qed.
Example btoa_utf8 : btoa [8364] = Ok (js "4oKs").
Proof. vm_compute. reflexivity. Qed.
Example ucs2_ex : (let! b := fromString [97; 8364] (Some (js "ucs2")) in
   toString b (Some (js "utf-16le")) None None) = Ok [97; 8364].
Proof. vm_compute. reflexivity. Qed.
Example bad_enc : fromString [97] (Some (js "klingon")) = Throw (TypeError (34 :: js "encoding" ++ 34 :: js " must be a valid string encoding")).
Proof. vm_compute. reflexivity. Qed.

End Buffer.
