(* ===== verification/BufferText.v ===== *)
(** Correctness of the string side of the Buffer model: the block copy, the
    round trips of the six encodings and the two [btoa] helpers. *)

From stdpp Require Import base list list_numbers numbers strings gmap.
From Stdlib Require Import ZArith Lia.
From S2P Require Import Prelude Base64 Buffer.

Module BufferText.
Import Base64 Buffer.

(** ** Reads and writes of arrays *)

Lemma arr_get_Some_range {A} (l : list A) i x : arr_get l i = Some x -> 0 <= i < len l.
Proof.
  unfold arr_get, len. destruct (Z.leb_spec 0 i); [|done]. intros H1%lookup_lt_Some. lia.
Qed.

Lemma arr_get_ext {A} (l k : list A) : (∀ i, arr_get l i = arr_get k i) -> l = k.
Proof.
  intros H. apply list_eq. intros i. specialize (H (Z.of_nat i)). unfold arr_get in H.
  destruct (Z.leb_spec 0 (Z.of_nat i)); [|lia]. by rewrite !Nat2Z.id in H.
Qed.

Lemma len_arr_set {A} (l : list A) i x : len (arr_set l i x) = len l.
Proof. unfold len, arr_set. destruct (0 <=? i); by rewrite ?length_insert. Qed.

Lemma arr_get_set {A} (l : list A) i j x : 0 <= i < len l ->
  arr_get (arr_set l i x) j = if j =? i then Some x else arr_get l j.
Proof.
  intros Hi. unfold arr_get, arr_set, len in *. destruct (Z.leb_spec 0 i); [|lia].
  destruct (Z.leb_spec 0 j), (Z.eqb_spec j i) as [->|]; try lia; [| |done].
  - rewrite list_lookup_insert_eq by lia. done.
  - rewrite list_lookup_insert_ne by lia. done.
Qed.

Lemma arr_get_num (l : list Z) i : 0 <= i < len l -> arr_get l i = Some (num (arr_get l i)).
Proof.
  intros Hi. unfold arr_get, len in *. destruct (Z.leb_spec 0 i); [|lia].
  destruct (lookup_lt_is_Some_2 l (Z.to_nat i)) as [x Hx]; [lia|]. by rewrite Hx.
Qed.

(** ** The block copy *)

(** The number of bytes [blitBuffer] copies. *)
Definition blit_count (e t : list Z) (n r : Z) : Z :=
  Z.max 0 (Z.min r (Z.min (len t - n) (len e))).

Lemma blit_loop_spec fuel e t n r o : 0 <= n -> 0 <= o -> len e - o <= Z.of_nat fuel ->
  o <= blit_count e t n r ->
  let '(c, t') := blit_loop fuel e t n r o in
  c = blit_count e t n r /\ len t' = len t /\
  ∀ i, arr_get t' i = if (n + o <=? i) && (i <? n + c) then arr_get e (i - n) else arr_get t i.
Proof.
  revert t o. induction fuel as [|fuel IH]; intros t o Hn Ho Hf Hc; cbn [blit_loop].
  - unfold blit_count in *. split; [lia|]. split; [done|]. intros i. bool_cases; cbn; done.
  - destruct ((o <? r) && negb ((len t <=? o + n) || (len e <=? o))) eqn:E.
    + rewrite andb_true_iff, negb_true_iff, orb_false_iff, Z.ltb_lt, !Z.leb_gt in E.
      destruct E as (E1 & E2 & E3).
      assert (Ec : blit_count e (arr_set t (o + n) (num (arr_get e o))) n r = blit_count e t n r)
        by (unfold blit_count; by rewrite len_arr_set).
      specialize (IH (arr_set t (o + n) (num (arr_get e o))) (o + 1) Hn ltac:(lia) ltac:(lia)).
      rewrite Ec in IH. destruct (blit_loop _ _ _ _ _ _) as [c t'].
      destruct IH as (-> & Hl & Hg); [unfold blit_count in *; lia|].
      split; [done|]. split; [by rewrite Hl, len_arr_set|].
      intros i. rewrite Hg, arr_get_set by lia.
      destruct (Z.eqb_spec i (o + n)) as [->|]; bool_cases; cbn [andb]; try done.
      * replace (o + n - n) with o by lia. symmetry. apply arr_get_num. lia.
      * unfold blit_count in *. lia.
    + assert (o = blit_count e t n r) as <-.
      { rewrite andb_false_iff, negb_false_iff, orb_true_iff, Z.ltb_ge, !Z.leb_le in E.
        unfold blit_count in *. lia. }
      split; [done|]. split; [done|]. intros i. bool_cases; cbn; done.
Qed.

Lemma blitBuffer_spec e t n r : 0 <= n ->
  let '(c, t') := blitBuffer e t n r in
  c = blit_count e t n r /\ len t' = len t /\
  ∀ i, arr_get t' i = if (n <=? i) && (i <? n + c) then arr_get e (i - n) else arr_get t i.
Proof.
  intros Hn. pose proof (blit_loop_spec (length e) e t n r 0 Hn) as H. unfold blitBuffer.
  destruct (blit_loop _ _ _ _ _ _) as [c t']. rewrite Z.add_0_r in H.
  apply H; unfold blit_count, len; lia.
Qed.

(** A copy of a whole array into a buffer of its size. *)
Lemma blitBuffer_full e t : len t = len e -> blitBuffer e t 0 (len t) = (len e, e).
Proof.
  intros Hl. pose proof (blitBuffer_spec e t 0 (len t) ltac:(lia)) as H.
  destruct (blitBuffer e t 0 (len t)) as [c t']. destruct H as (-> & Hl' & Hg).
  unfold blit_count in *. pose proof (len_nonneg e).
  replace (Z.max 0 _) with (len e) in * by lia. f_equal. apply arr_get_ext. intros i. rewrite Hg.
  destruct ((0 <=? i) && (i <? 0 + len e)) eqn:E; [f_equal; lia|].
  destruct (arr_get t i) eqn:G; [apply arr_get_Some_range in G; lia|].
  destruct (arr_get e i) eqn:G'; [apply arr_get_Some_range in G'; lia|done].
Qed.

(** ** Building buffers from strings *)

Lemma replicate_len n : 0 <= n -> len (replicate (Z.to_nat n) 0) = n.
Proof. intros. unfold len. rewrite length_replicate. lia. Qed.

Lemma createBuffer_ok n : 0 <= n <= kMaxLength -> createBuffer n = Ok (replicate (Z.to_nat n) 0).
Proof. intros. unfold createBuffer. bool_cases. done. Qed.

Lemma resolve_known e k : encoding_case e = Some k -> resolve_encoding e = Some k.
Proof. unfold resolve_encoding. by intros ->. Qed.

(** When [byteLength] and the writer agree on a byte string that fits, the
    buffer made from the string holds exactly these bytes. *)
Lemma fromString_bytes t enc bs :
  isEncoding enc = true -> enc <> [] -> len bs <= kMaxLength ->
  byteLength t (Some enc) = Ok (len bs) ->
  (∀ e, len e = len bs -> write e t 0 (Some (len e)) (Some enc) = Ok (len bs, bs)) ->
  fromString t (Some enc) = Ok bs.
Proof.
  intros Henc Hne Hmax Hlen Hw. unfold fromString.
  assert (E : encoding_or_utf8 (Some enc) = enc) by (by destruct enc).
  rewrite E, Henc. cbn [negb]. rewrite Hlen. cbn [result_bind]. unfold kMaxLength in *.
  pose proof (len_nonneg bs). rewrite bor_comm, bor_0_r by lia.
  rewrite createBuffer_ok by (unfold kMaxLength; lia). cbn [result_bind].
  rewrite Hw by (rewrite replicate_len; lia). cbn [result_bind].
  by rewrite Z.eqb_refl.
Qed.

(** The guards of [write] at offset 0 with the whole length. *)
Lemma write_whole e t enc k : encoding_case enc = Some k ->
  write e t 0 (Some (len e)) (Some enc) =
  match k with
  | Hex => hexWrite e t 0 (len e) | Utf8 => utf8Write e t 0 (len e)
  | Ascii => asciiWrite e t 0 (len e) | Latin1 => latin1Write e t 0 (len e)
  | Base64Enc => base64Write e t 0 (len e) | Ucs2 => ucs2Write e t 0 (len e)
  end.
Proof.
  intros Hk. unfold write. pose proof (len_nonneg e). pose proof (len_nonneg t).
  assert (E : encoding_or_utf8 (Some enc) = enc) by (by destruct enc).
  rewrite E, (resolve_known _ _ Hk).
  replace (len e - 0 <? len e) with false by lia.
  replace ((0 <? len t) && ((len e <? 0) || (0 <? 0)) || (len e <? 0)) with false by lia.
  by destruct k.
Qed.

(** [toString] over the whole of a buffer of at most [kMaxLength] bytes. *)
Lemma toString_whole b enc k : encoding_case enc = Some k -> b <> [] -> len b <= kMaxLength ->
  toString b (Some enc) None None = Ok
  match k with
  | Hex => hexSlice b 0 (len b) | Utf8 => utf8Slice b 0 (len b)
  | Ascii => asciiSlice b 0 (len b) | Latin1 => latin1Slice b 0 (len b)
  | Base64Enc => base64Slice b 0 (len b) | Ucs2 => utf16leSlice b 0 (len b)
  end.
Proof.
  intros Hk Hb Hm. unfold toString, kMaxLength in *.
  assert (0 < len b) by (destruct b; [done|rewrite len_cons; pose proof (len_nonneg b); lia]).
  replace (len b =? 0) with false by lia. replace (len b <? 0) with false by lia.
  replace (len b <=? 0) with false by lia. rewrite !shr_div, !Z.div_1_r by lia.
  replace (len b <=? 0) with false by lia.
  assert (E : encoding_or_utf8 (Some enc) = enc) by (by destruct enc).
  rewrite E, (resolve_known _ _ Hk). by destruct k.
Qed.

Lemma toString_nil enc : toString [] enc None None = Ok [].
Proof. done. Qed.

Lemma for_range_1 b : (λ o, num (arr_get b o)) <$> for_range 0 (len b) 1 = b.
Proof.
  apply list_eq. intros i. rewrite list_lookup_fmap. unfold for_range, len.
  replace ((Z.of_nat (length b) - 0 + 1 - 1) / 1) with (Z.of_nat (length b)) by zdm.
  rewrite list_lookup_fmap. destruct (decide (i < length b)%nat) as [Hi|Hi].
  - rewrite lookup_seqZ_lt by lia. cbn [fmap option_fmap option_map].
    replace (0 + 1 * (0 + Z.of_nat i)) with (Z.of_nat i) by lia. unfold arr_get. destruct (Z.leb_spec 0 (Z.of_nat i)); [|lia].
    rewrite Nat2Z.id. destruct (lookup_lt_is_Some_2 b i Hi) as [x ->]. done.
  - rewrite lookup_seqZ_ge by lia. rewrite lookup_ge_None_2 by lia. done.
Qed.

Lemma for_range_1_fmap {B} (f : Z -> B) b :
  (λ o, f (num (arr_get b o))) <$> for_range 0 (len b) 1 = f <$> b.
Proof.
  transitivity (f <$> ((λ o, num (arr_get b o)) <$> for_range 0 (len b) 1)).
  - by rewrite <- list_fmap_compose.
  - by rewrite for_range_1.
Qed.

(** ** UTF-8 text *)

Abbreviation utf16_text cs := (concat (utf16_of <$> cs)).
Abbreviation utf8_text cs := (concat (utf8_of <$> cs)).

Lemma utf8ToBytes_text cs t : Forall is_scalar cs -> fits (units_of t) (len (utf8_text cs)) ->
  utf8ToBytes (utf16_text cs) t = Ok (utf8_text cs).
Proof. intros. unfold utf8ToBytes. by rewrite utf8_loop_text. Qed.

Lemma utf16_of_pos c : 0 < len (utf16_of c).
Proof. unfold utf16_of. by destruct (c <? 65536). Qed.

Lemma fromString_utf8 cs enc : Forall is_scalar cs -> len (utf8_text cs) <= kMaxLength ->
  encoding_case enc = Some Utf8 -> isEncoding enc = true ->
  fromString (utf16_text cs) (Some enc) = Ok (utf8_text cs).
Proof.
  intros Hcs Hm Hk He. apply fromString_bytes; [done|by intros ->|done| |].
  - unfold byteLength. rewrite (resolve_known _ _ Hk). destruct cs as [|c cs]; [done|].
    destruct (Z.eqb_spec (len (utf16_text (c :: cs))) 0) as [E|].
    { cbn in E. rewrite len_app in E. pose proof (utf16_of_pos c).
      pose proof (len_nonneg (utf16_text cs)). cbn in *. lia. }
    by rewrite utf8ToBytes_text.
  - intros e Hl. rewrite (write_whole _ _ _ _ Hk). unfold utf8Write.
    rewrite utf8ToBytes_text; [cbn [result_bind]; by rewrite blitBuffer_full|done|].
    rewrite Z.sub_0_r, Hl.
    destruct (len (utf8_text cs)); cbn; lia || done.
Qed.

Lemma utf8Slice_text cs : Forall is_scalar cs ->
  utf8Slice (utf8_text cs) 0 (len (utf8_text cs)) = utf16_text cs.
Proof.
  intros. unfold utf8Slice. rewrite Z.min_id, decodeCodePointsArray_id.
  apply (utf8_slice_loop_text cs [] _); [done|]. unfold len. lia.
Qed.

Lemma toString_utf8 cs enc : Forall is_scalar cs -> len (utf8_text cs) <= kMaxLength ->
  encoding_case enc = Some Utf8 ->
  toString (utf8_text cs) (Some enc) None None = Ok (utf16_text cs).
Proof.
  intros Hcs Hm Hk. destruct cs as [|c cs]; [done|].
  rewrite (toString_whole _ _ _ Hk); [by rewrite utf8Slice_text| |done].
  intros E. apply (f_equal len) in E. cbn in E. rewrite len_app in E.
  apply Forall_cons in Hcs as [Hc _]. destruct (utf8_of_facts c Hc) as (_ & _ & Hp).
  pose proof (len_nonneg (utf8_text cs)). cbn in *. change (len []) with 0 in E. lia.
Qed.

(** C23. Text survives a trip through a UTF-8 buffer: for every sequence of
    Unicode scalar values whose UTF-8 form fits in a buffer, [Buffer.from] of
    its UTF-16 string produces exactly the RFC 3629 bytes (the byte budget of
    [write] and the pre-computed [byteLength] included) and [toString]
    returns the original string, for every name of the encoding. *)
Theorem utf8_text_roundtrip cs enc : Forall is_scalar cs -> len (utf8_text cs) <= kMaxLength ->
  enc = js "utf8" \/ enc = js "utf-8" ->
  fromString (utf16_text cs) (Some enc) = Ok (utf8_text cs) /\
  toString (utf8_text cs) (Some enc) None None = Ok (utf16_text cs).
Proof.
  intros Hcs Hm [->| ->]; (split; [apply fromString_utf8|apply toString_utf8]); done.
Qed.

Lemma utf8_text_roundtrip_witness :
  Forall is_scalar [97; 8364; 119070] /\
  fromString [97; 8364; 55348; 56606] (Some (js "utf8")) = Ok [97; 226; 130; 172; 240; 157; 132; 158].
Proof.
  assert (S : Forall is_scalar [97; 8364; 119070]).
  { repeat (apply Forall_cons_2; [unfold is_scalar; lia|]). apply Forall_nil_2. }
  split; [exact S|].
  exact (proj1 (utf8_text_roundtrip [97; 8364; 119070] (js "utf8") S ltac:(vm_compute; discriminate)
    (or_introl eq_refl))).
Defined.

(** ** Hexadecimal *)

Lemma parse_toHex b : is_byte b -> parseInt_16 (toHex b) = Some b.
Proof.
  intros Hx. assert (Hin : b ∈ seqZ 0 256) by (apply elem_of_seqZ; lia). revert b Hx Hin.
  assert (F : Forall (λ x, parseInt_16 (toHex x) = Some x) (seqZ 0 256)).
  { apply (bool_decide_unpack _). vm_compute. done. }
  rewrite Forall_forall in F. auto.
Qed.

Abbreviation hex_text b := (concat (toHex <$> b)).

Lemma len_hex_text b : len (hex_text b) = 2 * len b.
Proof. induction b as [|x b IH]; [done|]. cbn [fmap list_fmap concat]. rewrite len_app, len_cons, IH. change (len (toHex x)) with 2. lia. Qed.

Lemma hexSlice_whole b : hexSlice b 0 (len b) = hex_text b.
Proof.
  unfold hexSlice. cbn [Z.eqb orb].
  destruct ((len b =? 0) || (len b <? 0) || (len b <? len b));
    apply (f_equal (@concat Z)), (for_range_1_fmap toHex).
Qed.

Lemma hex_text_at b a x : bytes b -> arr_get b a = Some x ->
  subarray (hex_text b) (2 * a) (2 * a + 2) = toHex x.
Proof.
  intros Hb Ha. pose proof (arr_get_Some_range _ _ _ Ha). unfold subarray.
  replace (Z.to_nat (2 * a + 2 - 2 * a)) with 2%nat by lia.
  revert a Ha H. induction Hb as [|y b Hy Hb IH]; intros a Ha Hr.
  { change (len []) with 0 in Hr. lia. }
  rewrite len_cons in Hr. destruct (decide (a = 0)) as [->|].
  - rewrite arr_get_0 in Ha. by injection Ha as ->.
  - rewrite arr_get_S in Ha by lia. replace (Z.to_nat (2 * a)) with (2 + Z.to_nat (2 * (a - 1)))%nat by lia.
    cbn [fmap list_fmap concat]. rewrite <- drop_drop. cbn [toHex app drop]. by apply IH; [|lia].
Qed.

Lemma hex_write_loop_text b fuel e a : bytes b -> len e = len b -> 0 <= a ->
  len b - a <= Z.of_nat fuel -> a <= len b ->
  (∀ i, i < a -> arr_get e i = arr_get b i) ->
  hex_write_loop fuel e (hex_text b) 0 (len b) a = (len b, b).
Proof.
  intros Hb. revert e a. induction fuel as [|fuel IH]; intros e a He Ha Hf Hle Heq; cbn [hex_write_loop].
  - assert (a = len b) as -> by lia. f_equal. apply arr_get_ext. intros i.
    destruct (Z.lt_ge_cases i (len b)); [by apply Heq|].
    destruct (arr_get e i) eqn:G; [apply arr_get_Some_range in G; lia|].
    destruct (arr_get b i) eqn:G'; [apply arr_get_Some_range in G'; lia|done].
  - destruct (Z.ltb_spec a (len b)).
    + pose proof (arr_get_num b a ltac:(lia)) as G. set (x := num (arr_get b a)) in *.
      assert (Hx : is_byte x).
      { unfold arr_get in G. destruct (0 <=? a); [|done]. exact (Forall_lookup_1 _ _ _ _ Hb G). }
      rewrite (hex_text_at b a x Hb G), parse_toHex by done.
      apply IH; rewrite ?len_arr_set; try lia. intros i Hi. rewrite arr_get_set by lia.
      destruct (Z.eqb_spec i (0 + a)) as [->|]; [|apply Heq; lia].
      rewrite Z.add_0_l, G, Z.mod_small by lia. done.
    + assert (a = len b) as -> by lia. f_equal. apply arr_get_ext. intros i.
      destruct (Z.lt_ge_cases i (len b)); [by apply Heq|].
      destruct (arr_get e i) eqn:G; [apply arr_get_Some_range in G; lia|].
      destruct (arr_get b i) eqn:G'; [apply arr_get_Some_range in G'; lia|done].
Qed.

Lemma hexWrite_text b e : bytes b -> len e = len b -> hexWrite e (hex_text b) 0 (len e) = Ok (len b, b).
Proof.
  intros Hb He. unfold hexWrite. pose proof (len_nonneg b). rewrite len_hex_text.
  replace (negb _) with false by zdm.
  replace (if len e =? 0 then len e - 0 else _) with (len e) by (bool_cases; lia).
  replace (2 * len b / 2) with (len b) by zdm.
  replace (if len b <? len e then len b else len e) with (len b) by (bool_cases; lia).
  rewrite hex_write_loop_text; done || lia || idtac.
  intros i Hi. unfold arr_get. destruct (Z.leb_spec 0 i); lia || done.
Qed.

Lemma fromString_hex b : bytes b -> len b <= kMaxLength ->
  fromString (hex_text b) (Some (js "hex")) = Ok b.
Proof.
  intros Hb Hm. apply fromString_bytes; [done|done|done| |].
  - unfold byteLength, kMaxLength in *. rewrite len_hex_text. pose proof (len_nonneg b).
    change (resolve_encoding (js "hex")) with (Some Hex).
    destruct (Z.eqb_spec (2 * len b) 0); [f_equal; lia|].
    rewrite shr_div by lia. f_equal. zdm.
  - intros e He. rewrite (write_whole _ _ _ Hex) by done. by apply hexWrite_text.
Qed.

(** ** Base64 *)

Lemma char_kept i : 0 <= i < 64 -> base64_char (char i) = true /\ is_white (char i) = false.
Proof.
  intros Hx. assert (Hin : i ∈ seqZ 0 64) by (apply elem_of_seqZ; lia). revert i Hx Hin.
  assert (F : Forall (λ i, base64_char (char i) = true /\ is_white (char i) = false) (seqZ 0 64)).
  { apply (bool_decide_unpack _). vm_compute. done. }
  rewrite Forall_forall in F. auto.
Qed.

Lemma trim_left_id s : Forall (λ c, is_white c = false) s -> trim_left s = s.
Proof. intros H. destruct H as [|c s Hc Hs]; [done|]. cbn. by rewrite Hc. Qed.

Lemma trim_id s : Forall (λ c, is_white c = false) s -> trim s = s.
Proof.
  intros H. unfold trim. rewrite (trim_left_id s H), trim_left_id by (by apply Forall_reverse).
  apply reverse_involutive.
Qed.

Lemma filter_encode b : bytes b ->
  Forall (λ c, is_white c = false) (encode b) /\
  List.filter base64_char (encode b) ++ replicate (Z.to_nat (pad_of (len b))) 61 = encode b /\
  len (List.filter base64_char (encode b)) = 4 * ((len b + 2) / 3) - pad_of (len b).
Proof.
  assert (K : ∀ i, 0 <= i < 64 -> ∀ l, List.filter base64_char (char i :: l) = char i :: List.filter base64_char l).
  { intros i Hi l. cbn. by rewrite (proj1 (char_kept i Hi)). }
  assert (W : ∀ i, 0 <= i < 64 -> is_white (char i) = false) by (intros i Hi; apply char_kept, Hi).
  induction b as [|x|x y|x y z l IH] using list3_ind; intros Hb.
  - done.
  - rewrite Forall_singleton in Hb. cbn [encode]. rewrite !K by zdm.
    split; [repeat (apply Forall_cons_2; [first [apply W; zdm|done]|]); apply Forall_nil_2|]. done.
  - rewrite Forall_cons, Forall_singleton in Hb. destruct Hb. cbn [encode]. rewrite !K by zdm.
    split; [repeat (apply Forall_cons_2; [first [apply W; zdm|done]|]); apply Forall_nil_2|]. done.
  - rewrite !Forall_cons in Hb. destruct Hb as (Hx & Hy & Hz & Hl).
    destruct (IH Hl) as (IH1 & IH2 & IH3). cbn [encode]. rewrite !K by zdm.
    split; [repeat (apply Forall_cons_2; [apply W; zdm|]); done|].
    autorewrite with js_len. rewrite pad_of_3, IH3. split; [cbn [app]; by rewrite IH2|zdm].
Qed.

Lemma base64ToBytes_encode b : bytes b -> base64ToBytes (encode b) = Ok b.
Proof.
  intros Hb. destruct (filter_encode b Hb) as (Hw & Hf & Hl). unfold base64ToBytes, base64clean.
  rewrite trim_id, Hl by done. pose proof (len_nonneg b).
  destruct b as [|x b']; [done|]. remember (x :: b') as b eqn:E.
  assert (0 < len b) by (subst; rewrite len_cons; pose proof (len_nonneg b'); lia).
  destruct (Z.ltb_spec (4 * ((len b + 2) / 3) - pad_of (len b)) 2); [unfold pad_of in *; zdm|].
  replace ((- (4 * ((len b + 2) / 3) - pad_of (len b))) mod 4) with (pad_of (len b)) by (unfold pad_of; zdm).
  rewrite Hf. by apply toByteArray_encode.
Qed.

Lemma base64Slice_whole b : base64Slice b 0 (len b) = fromByteArray b.
Proof. unfold base64Slice. by rewrite !Z.eqb_refl. Qed.

Lemma fromString_base64 b : bytes b -> len b <= kMaxLength ->
  fromString (fromByteArray b) (Some (js "base64")) = Ok b.
Proof.
  intros Hb Hm. rewrite fromByteArray_encode by done.
  apply fromString_bytes; [done|done|done| |].
  - unfold byteLength. change (resolve_encoding (js "base64")) with (Some Base64Enc).
    rewrite base64ToBytes_encode by done. cbn [result_bind].
    destruct (Z.eqb_spec (len (encode b)) 0) as [E|]; [|done].
    rewrite (proj2 (index_of_pad_encode b Hb)) in E. f_equal. pose proof (len_nonneg b). zdm.
  - intros e He. rewrite (write_whole _ _ _ Base64Enc) by done. unfold base64Write.
    rewrite base64ToBytes_encode by done. cbn [result_bind]. by rewrite blitBuffer_full.
Qed.

(** ** Latin-1 *)

Lemma asciiToBytes_id b : bytes b -> asciiToBytes b = b.
Proof.
  intros H. unfold asciiToBytes. rewrite <- (list_fmap_id b) at 2. apply Forall_fmap_ext_1.
  refine (Forall_impl _ _ _ H _). cbn. intros x Hx. rewrite band_255_l. apply Z.mod_small. lia.
Qed.

Lemma latin1Slice_whole b : latin1Slice b 0 (len b) = b.
Proof. unfold latin1Slice. rewrite Z.min_id. apply for_range_1. Qed.

Lemma fromString_latin1 b enc : bytes b -> len b <= kMaxLength ->
  encoding_case enc = Some Latin1 -> isEncoding enc = true ->
  fromString b (Some enc) = Ok b.
Proof.
  intros Hb Hm Hk He. apply fromString_bytes; [done|by intros ->|done| |].
  - unfold byteLength. rewrite (resolve_known _ _ Hk). destruct (Z.eqb_spec (len b) 0); [f_equal; lia|done].
  - intros e Hl. rewrite (write_whole _ _ _ _ Hk). unfold latin1Write, asciiWrite.
    rewrite asciiToBytes_id by done. by rewrite blitBuffer_full.
Qed.

(** Any bytes survive a trip through text in the three encodings meant for
    it: for a buffer of at most [kMaxLength] bytes, [Buffer.from] of its
    [toString] in hexadecimal, base64 or Latin-1 is the buffer itself. *)
Theorem bytes_text_roundtrip b enc : bytes b -> len b <= kMaxLength ->
  enc ∈ [js "hex"; js "base64"; js "latin1"; js "binary"] ->
  (let! s := toString b (Some enc) None None in fromString s (Some enc)) = Ok b.
Proof.
  intros Hb Hm Henc. destruct (decide (b = [])) as [->|Hne].
  { set_unfold in Henc. destruct_or! Henc; subst; done. }
  set_unfold in Henc. destruct_or! Henc; subst.
  - rewrite (toString_whole _ _ Hex) by done. cbn [result_bind].
    rewrite hexSlice_whole. by apply fromString_hex.
  - rewrite (toString_whole _ _ Base64Enc) by done. cbn [result_bind].
    rewrite base64Slice_whole. by apply fromString_base64.
  - rewrite (toString_whole _ _ Latin1) by done. cbn [result_bind].
    rewrite latin1Slice_whole. by apply fromString_latin1.
  - rewrite (toString_whole _ _ Latin1) by done. cbn [result_bind].
    rewrite latin1Slice_whole. by apply fromString_latin1.
Qed.

Lemma bytes_text_roundtrip_witness :
  toString [0; 255; 16] (Some (js "hex")) None None = Ok (js "00ff10") /\
  (let! s := toString [0; 255; 16] (Some (js "hex")) None None in fromString s (Some (js "hex")))
  = Ok [0; 255; 16].
Proof.
  split; [vm_compute; reflexivity|].
  apply (bytes_text_roundtrip [0; 255; 16] (js "hex")).
  - repeat (apply Forall_cons_2; [cbn beta; lia|]). apply Forall_nil_2.
  - vm_compute. discriminate.
  - apply list_elem_of_here.
Defined.

(** ** UTF-16LE *)

Abbreviation code_units s := (Forall (λ c, 0 <= c < 65536) s).
Definition le_pair (n : Z) : list Z := [n mod 256; n / 256].
Abbreviation le_text s := (concat (le_pair <$> s)).

Lemma len_le_text s : len (le_text s) = 2 * len s.
Proof.
  induction s as [|x s IH]; [done|]. cbn [fmap list_fmap concat].
  rewrite len_app, len_cons, IH. change (len (le_pair x)) with 2. lia.
Qed.

Lemma utf16leToBytes_text s t : code_units s -> 2 * len s <= t -> utf16leToBytes s t = le_text s.
Proof.
  intros H. revert t. induction H as [|n s Hn Hs IH]; intros t Ht; [done|].
  rewrite len_cons in Ht. pose proof (len_nonneg s). cbn [utf16leToBytes].
  destruct (Z.ltb_spec (t - 2) 0); [lia|]. rewrite IH, sar_div by lia. done.
Qed.

Lemma slice_whole b : len b <= kMaxLength -> slice b 0 (Some (len b)) = b.
Proof.
  unfold kMaxLength. intros. pose proof (len_nonneg b). unfold slice. rewrite !to_int32_id by lia.
  replace (slice_bound (len b) 0) with 0 by (unfold slice_bound; bool_cases; done).
  replace (slice_bound (len b) (len b)) with (len b) by (unfold slice_bound; bool_cases; lia).
  destruct (Z.ltb_spec (len b) 0); [lia|]. unfold subarray. rewrite Z.sub_0_r. cbn [Z.to_nat].
  rewrite drop_0. apply take_ge. unfold len. lia.
Qed.

Lemma utf16le_pairs s : code_units s ->
  (λ i, match arr_get (le_text s) i, arr_get (le_text s) (i + 1) with
        | Some a, Some b => a + 256 * b | _, _ => 0 end) <$> for_range 0 (2 * len s) 2 = s.
Proof.
  induction 1 as [|n s Hn Hs IH]; [done|]. rewrite len_cons.
  replace (2 * (len s + 1)) with (2 * len s + 2) by lia. pose proof (len_nonneg s).
  rewrite for_range_cons, (for_range_shift 0) by lia. cbn [fmap list_fmap concat le_pair app].
  arr_reads. f_equal; [zdm|]. etransitivity; [|exact IH].
  rewrite <- list_fmap_compose. apply list_fmap_ext. intros k u Hu. cbn.
  apply list_lookup_fmap_Some in Hu as (x & -> & Hx%lookup_seqZ).
  rewrite !arr_get_S by lia.
  replace (0 + 2 * x + 2 - 1 - 1) with (0 + 2 * x) by lia.
  by replace (0 + 2 * x + 2 + 1 - 1 - 1) with (0 + 2 * x + 1) by lia.
Qed.

(** Every JavaScript string, lone surrogates included, survives a trip
    through a UTF-16LE buffer of two bytes per code unit. *)
Theorem utf16le_roundtrip s enc : code_units s -> 2 * len s <= kMaxLength ->
  encoding_case enc = Some Ucs2 -> isEncoding enc = true ->
  fromString s (Some enc) = Ok (le_text s) /\
  toString (le_text s) (Some enc) None None = Ok s.
Proof.
  intros Hs Hm Hk He. pose proof (len_nonneg s). split.
  - apply fromString_bytes; [done|by intros ->|by rewrite len_le_text| |].
    + unfold byteLength. rewrite (resolve_known _ _ Hk), len_le_text.
      destruct (Z.eqb_spec (len s) 0); [f_equal; lia|done].
    + intros e Hl. rewrite (write_whole _ _ _ _ Hk). unfold ucs2Write.
      rewrite len_le_text in Hl. rewrite utf16leToBytes_text by (done || lia).
      by rewrite blitBuffer_full by (rewrite len_le_text; lia).
  - destruct (decide (s = [])) as [->|Hne]; [done|].
    rewrite (toString_whole _ _ _ Hk).
    + unfold utf16leSlice. rewrite slice_whole by (by rewrite len_le_text).
      by rewrite len_le_text, utf16le_pairs.
    + destruct s; done.
    + by rewrite len_le_text.
Qed.

Lemma utf16le_roundtrip_witness :
  fromString [55296; 97] (Some (js "ucs-2")) = Ok [0; 216; 97; 0] /\
  toString [0; 216; 97; 0] (Some (js "ucs-2")) None None = Ok [55296; 97].
Proof.
  apply (utf16le_roundtrip [55296; 97] (js "ucs-2")).
  - repeat (apply Forall_cons_2; [cbn beta; lia|]). apply Forall_nil_2.
  - vm_compute. discriminate.
  - vm_compute. reflexivity.
  - vm_compute. reflexivity.
Defined.

(** ** The two [btoa] helpers *)

Lemma utf8_text_bytes cs : Forall is_scalar cs -> bytes (utf8_text cs).
Proof.
  induction 1 as [|c cs Hc _ IH]; [done|]. cbn [fmap list_fmap concat].
  apply Forall_app. split; [apply (utf8_of_facts c Hc)|done].
Qed.

Lemma toString_base64 b : bytes b -> len b <= kMaxLength ->
  toString b (Some (js "base64")) None None = Ok (encode b).
Proof.
  intros Hb Hm. destruct (decide (b = [])) as [->|]; [done|].
  rewrite (toString_whole _ _ Base64Enc) by done.
  by rewrite base64Slice_whole, fromByteArray_encode.
Qed.

(** The [Authorization] helpers: [btoa] of swagger-ui is the base64 form
    of the UTF-8 bytes of the text, while the [btoa] module of swagger-client
    is the base64 form of the Latin-1 bytes; both never fail on such input. *)
Theorem btoa_correct cs b : Forall is_scalar cs -> len (utf8_text cs) <= kMaxLength ->
  bytes b -> len b <= kMaxLength ->
  btoa (utf16_text cs) = Ok (encode (utf8_text cs)) /\ btoa_binary b = Ok (encode b).
Proof.
  intros Hcs Hm Hb Hm'. unfold btoa, btoa_binary. split.
  - rewrite fromString_utf8 by done. cbn [result_bind]. apply toString_base64; [|done].
    by apply utf8_text_bytes.
  - rewrite fromString_latin1 by done. cbn [result_bind]. by apply toString_base64.
Qed.

Lemma btoa_correct_witness :
  btoa [8364] = Ok (js "4oKs") /\ btoa_binary (js "a:b") = Ok (js "YTpi").
Proof.
  apply (btoa_correct [8364] (js "a:b")).
  - apply Forall_cons_2; [unfold is_scalar; lia|apply Forall_nil_2].
  - vm_compute. discriminate.
  - repeat (apply Forall_cons_2; [cbn beta; vm_compute; split; discriminate || reflexivity|]). apply Forall_nil_2.
  - vm_compute. discriminate.
Defined.

End BufferText.
