(* ===== verification/BufferInt.v ===== *)
(** Model of the integer accessors of the Buffer module of the bundle
    (client/docs/swagger-ui/swagger-ui-bundle.js, lines 4420-4561), called
    without the optional [noAssert] argument, on integer values and offsets.
    Every write puts the two's complement bytes of its value in place, and the
    matching read returns the value; values and offsets out of range throw. *)

From stdpp Require Import base list list_numbers numbers strings gmap.
From Stdlib Require Import ZArith Lia.
From S2P Require Import Prelude Base64 Buffer BufferText.

Module BufferInt.
Import Base64 Buffer BufferText.

(** ** Range checks *)

(** [M(e, t, n)] *)
Definition checkOffset (e t n : Z) : result unit :=
  if e <? 0 then Throw (RangeError (js "offset is not uint"))
  else if n <? e + t then Throw (RangeError (js "Trying to access beyond buffer length"))
  else Ok tt.

(** [I(e, t, n, r, o, i)] *)
Definition checkInt (e : list Z) (t n r o i : Z) : result unit :=
  if (o <? t) || (t <? i) then
    Throw (RangeError (34 :: js "value" ++ 34 :: js " argument is out of bounds"))
  else if len e <? n + r then Throw (RangeError (js "Index out of range"))
  else Ok tt.

(** [this[e]] read as a number. *)
Definition byte_at (this : list Z) (e : Z) : Z := num (arr_get this e).

(** [this[i] = x]: a typed array keeps the low eight bits. *)
Definition store (this : list Z) (i x : Z) : list Z := arr_set this i (x mod 256).

(** ** Reads of 1 to 6 bytes *)

(** [for (r = this[e], o = 1, i = 0; ++i < t && (o *= 256);) r += this[e + i] * o]:
    the sum and the last multiplier. *)
Fixpoint read_le_loop (fuel : nat) (this : list Z) (e t r o i : Z) : Z * Z :=
  match fuel with
  | O => (r, o)
  | S fuel =>
      let i := i + 1 in
      if i <? t then
        let o := o * 256 in read_le_loop fuel this e t (r + byte_at this (e + i) * o) o i
      else (r, o)
  end.

Definition readUIntLE (this : list Z) (e t : Z) : result Z :=
  let e := (e .| 0) in let t := (t .| 0) in
  let! _ := checkOffset e t (len this) in
  Ok (fst (read_le_loop (Z.to_nat t) this e t (byte_at this e) 1 0)).

(** [for (r = this[e + --t], o = 1; t > 0 && (o *= 256);) r += this[e + --t] * o] *)
Fixpoint read_be_loop (fuel : nat) (this : list Z) (e t r o : Z) : Z * Z :=
  match fuel with
  | O => (r, o)
  | S fuel =>
      if 0 <? t then
        let o := o * 256 in
        let t := t - 1 in read_be_loop fuel this e t (r + byte_at this (e + t) * o) o
      else (r, o)
  end.

Definition readUIntBE (this : list Z) (e t : Z) : result Z :=
  let e := (e .| 0) in let t := (t .| 0) in
  let! _ := checkOffset e t (len this) in
  let t := t - 1 in
  Ok (fst (read_be_loop (Z.to_nat t) this e t (byte_at this (e + t)) 1)).

Definition readIntLE (this : list Z) (e t : Z) : result Z :=
  let e := (e .| 0) in let t := (t .| 0) in
  let! _ := checkOffset e t (len this) in
  let '(r, o) := read_le_loop (Z.to_nat t) this e t (byte_at this e) 1 0 in
  Ok (if o * 128 <=? r then r - 2 ^ (8 * t) else r).

Definition readIntBE (this : list Z) (e t : Z) : result Z :=
  let e := (e .| 0) in let t := (t .| 0) in
  let! _ := checkOffset e t (len this) in
  let r := t - 1 in
  let '(i, o) := read_be_loop (Z.to_nat r) this e r (byte_at this (e + r)) 1 in
  Ok (if o * 128 <=? i then i - 2 ^ (8 * t) else i).

(** ** Writes of 1 to 6 bytes *)

(** [for (this[t] = 255 & e; ++i < n && (o *= 256);) this[t + i] = e / o & 255] *)
Fixpoint write_le_loop (fuel : nat) (this : list Z) (e t n o i : Z) : list Z :=
  match fuel with
  | O => this
  | S fuel =>
      let i := i + 1 in
      if i <? n then
        let o := o * 256 in
        write_le_loop fuel (store this (t + i) (Z.quot e o .& 255)) e t n o i
      else this
  end.

Definition writeUIntLE (this : list Z) (e t n : Z) : result (Z * list Z) :=
  let t := (t .| 0) in let n := (n .| 0) in
  let! _ := checkInt this e t n (2 ^ (8 * n) - 1) 0 in
  Ok (t + n, write_le_loop (Z.to_nat n) (store this t (255 .& e)) e t n 1 0).

(** [for (this[t + o] = 255 & e; --o >= 0 && (i *= 256);) this[t + o] = e / i & 255] *)
Fixpoint write_be_loop (fuel : nat) (this : list Z) (e t o i : Z) : list Z :=
  match fuel with
  | O => this
  | S fuel =>
      let o := o - 1 in
      if 0 <=? o then
        let i := i * 256 in
        write_be_loop fuel (store this (t + o) (Z.quot e i .& 255)) e t o i
      else this
  end.

Definition writeUIntBE (this : list Z) (e t n : Z) : result (Z * list Z) :=
  let t := (t .| 0) in let n := (n .| 0) in
  let! _ := checkInt this e t n (2 ^ (8 * n) - 1) 0 in
  let o := n - 1 in
  Ok (t + n, write_be_loop (Z.to_nat n) (store this (t + o) (255 .& e)) e t o 1).

(** The loop of [writeIntLE]; [u] is the borrow of a negative value. *)
Fixpoint write_int_le_loop (fuel : nat) (this : list Z) (e t n i a u : Z) : list Z :=
  match fuel with
  | O => this
  | S fuel =>
      let i := i + 1 in
      if i <? n then
        let a := a * 256 in
        let u := if (e <? 0) && (u =? 0) && negb (byte_at this (t + i - 1) =? 0) then 1 else u in
        write_int_le_loop fuel (store this (t + i) ((Z.quot e a .>> 0) - u .& 255)) e t n i a u
      else this
  end.

Definition writeIntLE (this : list Z) (e t n : Z) : result (Z * list Z) :=
  let t := (t .| 0) in
  let o := 2 ^ (8 * n - 1) in
  let! _ := checkInt this e t n (o - 1) (- o) in
  Ok (t + n, write_int_le_loop (Z.to_nat n) (store this t (255 .& e)) e t n 0 1 0).

Fixpoint write_int_be_loop (fuel : nat) (this : list Z) (e t i a u : Z) : list Z :=
  match fuel with
  | O => this
  | S fuel =>
      let i := i - 1 in
      if 0 <=? i then
        let a := a * 256 in
        let u := if (e <? 0) && (u =? 0) && negb (byte_at this (t + i + 1) =? 0) then 1 else u in
        write_int_be_loop fuel (store this (t + i) ((Z.quot e a .>> 0) - u .& 255)) e t i a u
      else this
  end.

Definition writeIntBE (this : list Z) (e t n : Z) : result (Z * list Z) :=
  let t := (t .| 0) in
  let o := 2 ^ (8 * n - 1) in
  let! _ := checkInt this e t n (o - 1) (- o) in
  let i := n - 1 in
  Ok (t + n, write_int_be_loop (Z.to_nat n) (store this (t + i) (255 .& e)) e t i 1 0).

Example write_int_le_ex : (let! (_, b) := writeIntLE [0; 0; 0; 0] (-256) 0 3 in Ok b) = Ok [0; 255; 255; 0].
Proof. vm_compute. reflexivity. Qed.
Example write_int_be_ex : (let! (_, b) := writeIntBE [0; 0; 0; 0] (-65537) 1 3 in
   let! v := readIntBE b 1 3 in Ok (b, v)) = Ok ([0; 254; 255; 255], -65537).
Proof. vm_compute. reflexivity. Qed.

(** ** Fixed widths *)

Definition readUInt8 (this : list Z) (e : Z) : result Z :=
  let! _ := checkOffset e 1 (len this) in Ok (byte_at this e).
Definition readUInt16LE (this : list Z) (e : Z) : result Z :=
  let! _ := checkOffset e 2 (len this) in Ok (byte_at this e .| byte_at this (e + 1) .<< 8).
Definition readUInt16BE (this : list Z) (e : Z) : result Z :=
  let! _ := checkOffset e 2 (len this) in Ok (byte_at this e .<< 8 .| byte_at this (e + 1)).
Definition readUInt32LE (this : list Z) (e : Z) : result Z :=
  let! _ := checkOffset e 4 (len this) in
  Ok ((byte_at this e .| byte_at this (e + 1) .<< 8 .| byte_at this (e + 2) .<< 16)
      + 16777216 * byte_at this (e + 3)).
Definition readUInt32BE (this : list Z) (e : Z) : result Z :=
  let! _ := checkOffset e 4 (len this) in
  Ok (16777216 * byte_at this e
      + (byte_at this (e + 1) .<< 16 .| byte_at this (e + 2) .<< 8 .| byte_at this (e + 3))).
Definition readInt8 (this : list Z) (e : Z) : result Z :=
  let! _ := checkOffset e 1 (len this) in
  Ok (if negb ((128 .& byte_at this e) =? 0) then -1 * (255 - byte_at this e + 1) else byte_at this e).
Definition readInt16LE (this : list Z) (e : Z) : result Z :=
  let! _ := checkOffset e 2 (len this) in
  let n := (byte_at this e .| byte_at this (e + 1) .<< 8) in
  Ok (if negb ((32768 .& n) =? 0) then (4294901760 .| n) else n).
Definition readInt16BE (this : list Z) (e : Z) : result Z :=
  let! _ := checkOffset e 2 (len this) in
  let n := (byte_at this (e + 1) .| byte_at this e .<< 8) in
  Ok (if negb ((32768 .& n) =? 0) then (4294901760 .| n) else n).
Definition readInt32LE (this : list Z) (e : Z) : result Z :=
  let! _ := checkOffset e 4 (len this) in
  Ok (byte_at this e .| byte_at this (e + 1) .<< 8 .| byte_at this (e + 2) .<< 16
      .| byte_at this (e + 3) .<< 24).
Definition readInt32BE (this : list Z) (e : Z) : result Z :=
  let! _ := checkOffset e 4 (len this) in
  Ok (byte_at this e .<< 24 .| byte_at this (e + 1) .<< 16 .| byte_at this (e + 2) .<< 8
      .| byte_at this (e + 3)).

Definition writeUInt8 (this : list Z) (e t : Z) : result (Z * list Z) :=
  let t := (t .| 0) in
  let! _ := checkInt this e t 1 255 0 in Ok (t + 1, store this t (255 .& e)).
Definition writeUInt16LE (this : list Z) (e t : Z) : result (Z * list Z) :=
  let t := (t .| 0) in
  let! _ := checkInt this e t 2 65535 0 in
  Ok (t + 2, store (store this t (255 .& e)) (t + 1) (e .>>> 8)).
Definition writeUInt16BE (this : list Z) (e t : Z) : result (Z * list Z) :=
  let t := (t .| 0) in
  let! _ := checkInt this e t 2 65535 0 in
  Ok (t + 2, store (store this t (e .>>> 8)) (t + 1) (255 .& e)).
Definition writeUInt32LE (this : list Z) (e t : Z) : result (Z * list Z) :=
  let t := (t .| 0) in
  let! _ := checkInt this e t 4 4294967295 0 in
  Ok (t + 4, store (store (store (store this (t + 3) (e .>>> 24)) (t + 2) (e .>>> 16))
                      (t + 1) (e .>>> 8)) t (255 .& e)).
Definition writeUInt32BE (this : list Z) (e t : Z) : result (Z * list Z) :=
  let t := (t .| 0) in
  let! _ := checkInt this e t 4 4294967295 0 in
  Ok (t + 4, store (store (store (store this t (e .>>> 24)) (t + 1) (e .>>> 16))
                      (t + 2) (e .>>> 8)) (t + 3) (255 .& e)).
Definition writeInt8 (this : list Z) (e t : Z) : result (Z * list Z) :=
  let t := (t .| 0) in
  let! _ := checkInt this e t 1 127 (-128) in
  let e := if e <? 0 then 255 + e + 1 else e in Ok (t + 1, store this t (255 .& e)).
Definition writeInt16LE (this : list Z) (e t : Z) : result (Z * list Z) :=
  let t := (t .| 0) in
  let! _ := checkInt this e t 2 32767 (-32768) in
  Ok (t + 2, store (store this t (255 .& e)) (t + 1) (e .>>> 8)).
Definition writeInt16BE (this : list Z) (e t : Z) : result (Z * list Z) :=
  let t := (t .| 0) in
  let! _ := checkInt this e t 2 32767 (-32768) in
  Ok (t + 2, store (store this t (e .>>> 8)) (t + 1) (255 .& e)).
Definition writeInt32LE (this : list Z) (e t : Z) : result (Z * list Z) :=
  let t := (t .| 0) in
  let! _ := checkInt this e t 4 2147483647 (-2147483648) in
  Ok (t + 4, store (store (store (store this t (255 .& e)) (t + 1) (e .>>> 8))
                      (t + 2) (e .>>> 16)) (t + 3) (e .>>> 24)).
Definition writeInt32BE (this : list Z) (e t : Z) : result (Z * list Z) :=
  let t := (t .| 0) in
  let! _ := checkInt this e t 4 2147483647 (-2147483648) in
  let e := if e <? 0 then 4294967295 + e + 1 else e in
  Ok (t + 4, store (store (store (store this t (e .>>> 24)) (t + 1) (e .>>> 16))
                      (t + 2) (e .>>> 8)) (t + 3) (255 .& e)).

(** ** Positional notation in base 256 *)

(** Digit [j] of the two's complement form of [e]. *)
Definition digit (e j : Z) : Z := (e / 256 ^ j) mod 256.

(** The number with the digits [f 0 .. f (n - 1)]. *)
Fixpoint number (f : Z -> Z) (n : nat) : Z :=
  match n with O => 0 | S n => number f n + f (Z.of_nat n) * 256 ^ Z.of_nat n end.

Lemma number_ext f g n : (∀ j, 0 <= j < Z.of_nat n -> f j = g j) -> number f n = number g n.
Proof.
  induction n as [|n IH]; intros H; [done|]. cbn. rewrite IH, H by (intros; apply H || idtac; lia). done.
Qed.

Lemma number_1 f : number f (Z.to_nat 1) = f 0.
Proof. change (0 + f 0 * 1 = f 0). lia. Qed.

Lemma pow256_pos j : 0 <= j -> 0 < 256 ^ j.
Proof. intros. apply Z.pow_pos_nonneg; lia. Qed.

Lemma number_digit e n : number (digit e) n = e mod 256 ^ Z.of_nat n.
Proof.
  induction n as [|n IH]; [by rewrite Z.mod_1_r|]. cbn [number]. rewrite IH. unfold digit.
  rewrite Nat2Z.inj_succ, Z.pow_succ_r by lia. pose proof (pow256_pos (Z.of_nat n) ltac:(lia)).
  rewrite (Z.mul_comm 256), Z.rem_mul_r by lia. lia.
Qed.

Lemma digit_range e j : is_byte (digit e j).
Proof. unfold digit. zdm. Qed.

Lemma digit_0 e : digit e 0 = e mod 256.
Proof. unfold digit. by rewrite Z.pow_0_r, Z.div_1_r. Qed.

(** [b] holds the [n] digits of [e] at [off], least or most significant first. *)
Definition holds_le (b : list Z) (off n e : Z) : Prop :=
  ∀ j, 0 <= j < n -> arr_get b (off + j) = Some (digit e j).
Definition holds_be (b : list Z) (off n e : Z) : Prop :=
  ∀ j, 0 <= j < n -> arr_get b (off + n - 1 - j) = Some (digit e j).

(** [b'] is [b] outside of [n] bytes at [off]. *)
Definition same_outside (b b' : list Z) (off n : Z) : Prop :=
  len b' = len b /\ ∀ i, i < off \/ off + n <= i -> arr_get b' i = arr_get b i.

(** ** Reading *)

Lemma read_le_loop_spec fuel this e t r o i : 0 <= i -> o = 256 ^ i ->
  t - 1 - i <= Z.of_nat fuel -> i < t ->
  r = number (λ j, byte_at this (e + j)) (Z.to_nat (i + 1)) ->
  read_le_loop fuel this e t r o i = (number (λ j, byte_at this (e + j)) (Z.to_nat t), 256 ^ (t - 1)).
Proof.
  revert r o i. induction fuel as [|fuel IH]; intros r o i Hi -> Hf Ht ->; cbn [read_le_loop].
  - replace (i + 1) with t by lia. by replace (t - 1) with i by lia.
  - destruct (Z.ltb_spec (i + 1) t).
    + apply IH; try lia; [rewrite Z.pow_add_r by lia; lia|].
      replace (Z.to_nat (i + 1 + 1)) with (S (Z.to_nat (i + 1))) by lia. cbn [number].
      rewrite Z2Nat.id, Z.pow_add_r by lia. lia.
    + replace (i + 1) with t by lia. by replace (t - 1) with i by lia.
Qed.

Lemma read_be_loop_spec fuel this e n t r o : 0 <= t < n -> o = 256 ^ (n - 1 - t) ->
  t <= Z.of_nat fuel ->
  r = number (λ j, byte_at this (e + n - 1 - j)) (Z.to_nat (n - t)) ->
  read_be_loop fuel this e t r o
  = (number (λ j, byte_at this (e + n - 1 - j)) (Z.to_nat n), 256 ^ (n - 1)).
Proof.
  revert r o t. induction fuel as [|fuel IH]; intros r o t Ht -> Hf ->; cbn [read_be_loop].
  - assert (t = 0) as -> by lia. by rewrite !Z.sub_0_r.
  - destruct (Z.ltb_spec 0 t).
    + apply IH; try lia; replace (n - 1 - (t - 1)) with (n - 1 - t + 1) by lia;
        [rewrite Z.pow_add_r by lia; lia|].
      replace (Z.to_nat (n - (t - 1))) with (S (Z.to_nat (n - t))) by lia. cbn [number].
      rewrite Z2Nat.id by lia. replace (e + n - 1 - (n - t)) with (e + (t - 1)) by lia.
      assert (Ep : 256 ^ (n - t) = 256 * 256 ^ (n - 1 - t)).
      { rewrite <- Z.pow_succ_r by lia. f_equal. lia. }
      rewrite Ep. lia.
    + assert (t = 0) as -> by lia. by rewrite !Z.sub_0_r.
Qed.

(** The value of an [n]-byte field as an unsigned or a signed number. *)
Definition unsigned (n e : Z) : Z := e mod 256 ^ n.
Definition signed (n e : Z) : Z :=
  if 128 * 256 ^ (n - 1) <=? unsigned n e then unsigned n e - 256 ^ n else unsigned n e.

Lemma or0 z : is_int32 z -> (z .| 0) = z.
Proof. apply bor_0_r. Qed.

(** Offsets and widths of the field fit. *)
Definition in_range (b : list Z) (off n : Z) : Prop :=
  0 <= off /\ 0 < n <= 6 /\ off + n <= len b /\ len b <= kMaxLength.

Lemma checkOffset_ok b off n : in_range b off n -> checkOffset off n (len b) = Ok tt.
Proof. unfold in_range, checkOffset. intros. bool_cases. done. Qed.

Lemma pow_256_2 n : 0 <= n -> 2 ^ (8 * n) = 256 ^ n.
Proof. intros. by rewrite Z.pow_mul_r by lia. Qed.

Lemma read_le b off n e : in_range b off n -> holds_le b off n e ->
  readUIntLE b off n = Ok (unsigned n e) /\ readIntLE b off n = Ok (signed n e).
Proof.
  intros Hr Hh. pose proof Hr as (H1 & H2 & H3 & H4). unfold kMaxLength in *.
  unfold readUIntLE, readIntLE. rewrite !or0, checkOffset_ok by (done || lia). cbn [result_bind].
  rewrite (read_le_loop_spec _ b off n _ 1 0);
    [|lia|done|lia|lia|rewrite Z.add_0_l, number_1; f_equal; lia].
  assert (E : number (λ j, byte_at b (off + j)) (Z.to_nat n) = unsigned n e).
  { unfold unsigned. replace (256 ^ n) with (256 ^ Z.of_nat (Z.to_nat n)) by (f_equal; lia).
    rewrite <- number_digit. apply number_ext. intros j Hj. unfold byte_at. rewrite Hh by lia. done. }
  rewrite E, pow_256_2, Z.mul_comm by lia. done.
Qed.

Lemma read_be b off n e : in_range b off n -> holds_be b off n e ->
  readUIntBE b off n = Ok (unsigned n e) /\ readIntBE b off n = Ok (signed n e).
Proof.
  intros Hr Hh. pose proof Hr as (H1 & H2 & H3 & H4). unfold kMaxLength in *.
  unfold readUIntBE, readIntBE. rewrite !or0, checkOffset_ok by (done || lia). cbn [result_bind].
  rewrite (read_be_loop_spec _ b off n (n - 1) _ 1);
    [|lia|by replace (n - 1 - (n - 1)) with 0 by lia|lia
     |replace (n - (n - 1)) with 1 by lia; rewrite number_1; f_equal; lia].
  assert (E : number (λ j, byte_at b (off + n - 1 - j)) (Z.to_nat n) = unsigned n e).
  { unfold unsigned. replace (256 ^ n) with (256 ^ Z.of_nat (Z.to_nat n)) by (f_equal; lia).
    rewrite <- number_digit. apply number_ext. intros j Hj. unfold byte_at. rewrite Hh by lia. done. }
  rewrite E, pow_256_2, Z.mul_comm by lia. done.
Qed.

(** ** Writing *)

Lemma len_store b i x : len (store b i x) = len b.
Proof. apply len_arr_set. Qed.

Lemma store_get b i j x : 0 <= i < len b ->
  arr_get (store b i x) j = if j =? i then Some (x mod 256) else arr_get b j.
Proof. apply arr_get_set. Qed.

(** The borrow a negative number needs above its low [i] digits. *)
Definition borrow (e i : Z) : Z := if (e <? 0) && negb (e mod 256 ^ i =? 0) then 1 else 0.

Lemma borrow_step e i : 0 <= i ->
  (if (e <? 0) && (borrow e i =? 0) && negb (digit e i =? 0) then 1 else borrow e i) = borrow e (i + 1).
Proof.
  intros Hi. unfold borrow, digit. pose proof (pow256_pos i Hi).
  rewrite Z.pow_add_r, Z.pow_1_r, Z.rem_mul_r by lia.
  pose proof (Z.mod_pos_bound e (256 ^ i)). pose proof (Z.mod_pos_bound (e / 256 ^ i) 256).
  destruct (Z.ltb_spec e 0); cbn [andb]; [|done].
  destruct (Z.eqb_spec (e mod 256 ^ i) 0) as [E|]; cbn [negb andb Z.eqb].
  - rewrite E. destruct (Z.eqb_spec ((e / 256 ^ i) mod 256) 0) as [E'|]; cbn [negb].
    + rewrite E'. by rewrite Z.mul_0_r.
    + destruct (Z.eqb_spec (0 + 256 ^ i * ((e / 256 ^ i) mod 256)) 0); [nia|done].
  - destruct (Z.eqb_spec (e mod 256 ^ i + 256 ^ i * ((e / 256 ^ i) mod 256)) 0); [nia|done].
Qed.

(** Truncating division corrected by the borrow is flooring division. *)
Lemma quot_borrow e i : 0 <= i -> Z.quot e (256 ^ i) - borrow e i = e / 256 ^ i.
Proof.
  intros Hi. pose proof (pow256_pos i Hi). unfold borrow. destruct (Z.ltb_spec e 0); cbn [andb].
  - replace (Z.quot e (256 ^ i)) with (- ((- e) / 256 ^ i)).
    2:{ rewrite <- Z.quot_div_nonneg, Z.quot_opp_l by lia. lia. }
    rewrite <- (Z.opp_involutive e) at 2 3.
    destruct (Z.eqb_spec (- - e mod 256 ^ i) 0) as [E|E]; cbn [negb]; rewrite Z.opp_involutive in E.
    + rewrite (Z.div_opp_l_z (- e)); [lia|lia|]. apply Z.mod_opp_l_z in E; lia.
    + rewrite (Z.div_opp_l_nz (- e)); [lia|lia|]. intros E'. apply E.
      rewrite <- (Z.opp_involutive e). apply Z.mod_opp_l_z; lia.
  - rewrite Z.quot_div_nonneg by lia. lia.
Qed.

Lemma int_digit e i : 0 <= i -> ((Z.quot e (256 ^ i) .>> 0) - borrow e i .& 255) = digit e i.
Proof.
  intros Hi. rewrite band_255. unfold Int32.sar. change (Int32.shift_count 0) with 0.
  rewrite Z.shiftr_0_r. unfold digit. rewrite <- quot_borrow by done.
  rewrite Zminus_mod. change 256 with (2 ^ 8) at 2. rewrite to_int32_low by lia.
  change (2 ^ 8) with 256. by rewrite <- Zminus_mod.
Qed.

Lemma digit_mod e j : digit e j mod 256 = digit e j.
Proof. apply Z.mod_small, digit_range. Qed.

Lemma write_int_le_loop_spec fuel this e off n i u : 0 <= i < n -> 0 <= off -> off + n <= len this ->
  n - 1 - i <= Z.of_nat fuel -> u = borrow e i ->
  (∀ j, 0 <= j <= i -> arr_get this (off + j) = Some (digit e j)) ->
  let b' := write_int_le_loop fuel this e off n i (256 ^ i) u in
  holds_le b' off n e /\ same_outside this b' off n.
Proof.
  revert this i u. induction fuel as [|fuel IH]; intros this i u Hi Hoff Hl Hf -> Hh; cbn [write_int_le_loop].
  - split; [intros j Hj; apply Hh; lia|done].
  - destruct (Z.ltb_spec (i + 1) n).
    2:{ split; [intros j Hj; apply Hh; lia|done]. }
    unfold byte_at. replace (off + (i + 1) - 1) with (off + i) by lia.
    rewrite (Hh i), borrow_step by lia. cbn [num].
    replace (256 ^ i * 256) with (256 ^ (i + 1)) by (rewrite Z.pow_add_r by lia; lia).
    rewrite int_digit by lia. edestruct IH as [H1 H2]; [..|split; [exact H1|]].
    + lia.
    + done.
    + by rewrite len_store.
    + lia.
    + done.
    + intros j Hj. rewrite store_get by lia. destruct (Z.eqb_spec (off + j) (off + (i + 1))).
      * replace j with (i + 1) by lia. by rewrite digit_mod.
      * apply Hh. lia.
    + destruct H2 as [H2 H3]. split; [by rewrite H2, len_store|]. intros k Hk.
      rewrite H3, store_get by lia. destruct (Z.eqb_spec k (off + (i + 1))); [lia|done].
Qed.

Lemma write_int_be_loop_spec fuel this e off n i u : 0 <= i < n -> 0 <= off -> off + n <= len this ->
  i <= Z.of_nat fuel -> u = borrow e (n - 1 - i) ->
  (∀ j, 0 <= j <= n - 1 - i -> arr_get this (off + n - 1 - j) = Some (digit e j)) ->
  let b' := write_int_be_loop fuel this e off i (256 ^ (n - 1 - i)) u in
  holds_be b' off n e /\ same_outside this b' off n.
Proof.
  revert this i u. induction fuel as [|fuel IH]; intros this i u Hi Hoff Hl Hf -> Hh; cbn [write_int_be_loop].
  - split; [intros j Hj; apply Hh; lia|done].
  - destruct (Z.leb_spec 0 (i - 1)).
    2:{ split; [intros j Hj; apply Hh; lia|done]. }
    unfold byte_at. replace (off + (i - 1) + 1) with (off + n - 1 - (n - 1 - i)) by lia.
    rewrite (Hh (n - 1 - i)), borrow_step by lia. cbn [num].
    replace (n - 1 - i + 1) with (n - 1 - (i - 1)) by lia.
    replace (256 ^ (n - 1 - i) * 256) with (256 ^ (n - 1 - (i - 1))).
    2:{ replace (n - 1 - (i - 1)) with (n - 1 - i + 1) by lia. rewrite Z.pow_add_r by lia. lia. }
    rewrite int_digit by lia. edestruct IH as [H1 H2]; [..|split; [exact H1|]].
    + lia.
    + done.
    + by rewrite len_store.
    + lia.
    + done.
    + intros j Hj. rewrite store_get by lia. destruct (Z.eqb_spec (off + n - 1 - j) (off + (i - 1))).
      * replace j with (n - 1 - (i - 1)) by lia. by rewrite digit_mod.
      * apply Hh. lia.
    + destruct H2 as [H2 H3]. split; [by rewrite H2, len_store|]. intros k Hk.
      rewrite H3, store_get by lia. destruct (Z.eqb_spec k (off + (i - 1))); [lia|done].
Qed.

(** On non-negative values the unsigned loops are the signed ones. *)
Lemma write_le_loop_int fuel this e t n o i : 0 <= e ->
  write_le_loop fuel this e t n o i = write_int_le_loop fuel this e t n i o 0.
Proof.
  intros He. revert this o i. induction fuel as [|fuel IH]; intros this o i; [done|].
  cbn [write_le_loop write_int_le_loop]. destruct (Z.ltb_spec e 0); [lia|]. cbn [andb].
  destruct (i + 1 <? n); [|done]. rewrite IH. do 2 f_equal. rewrite Z.sub_0_r, !band_255.
  unfold Int32.sar. change (Int32.shift_count 0) with 0. rewrite Z.shiftr_0_r. symmetry.
  apply (to_int32_low _ 8). lia.
Qed.

Lemma write_be_loop_int fuel this e t o i : 0 <= e ->
  write_be_loop fuel this e t o i = write_int_be_loop fuel this e t o i 0.
Proof.
  intros He. revert this o i. induction fuel as [|fuel IH]; intros this o i; [done|].
  cbn [write_be_loop write_int_be_loop]. destruct (Z.ltb_spec e 0); [lia|]. cbn [andb].
  destruct (0 <=? o - 1); [|done]. rewrite IH. do 2 f_equal. rewrite Z.sub_0_r, !band_255.
  unfold Int32.sar. change (Int32.shift_count 0) with 0. rewrite Z.shiftr_0_r. symmetry.
  apply (to_int32_low _ 8). lia.
Qed.

Lemma checkInt_ok b e off n mx mn : in_range b off n -> mn <= e <= mx -> checkInt b e off n mx mn = Ok tt.
Proof. unfold in_range, checkInt. intros. bool_cases; cbn [orb]; done. Qed.

Lemma in_range_same b b' off n : in_range b off n -> same_outside b b' off n -> in_range b' off n.
Proof. unfold in_range, same_outside. intros ? [-> _]. done. Qed.

Lemma same_outside_store b b' off n i x : off <= i < off + n -> 0 <= i < len b ->
  same_outside (store b i x) b' off n -> same_outside b b' off n.
Proof.
  intros Hi Hl [H1 H2]. split; [by rewrite H1, len_store|]. intros k Hk.
  rewrite H2, store_get by done. destruct (Z.eqb_spec k i); [lia|done].
Qed.

Lemma int_le_written b off n e : in_range b off n ->
  let b' := write_int_le_loop (Z.to_nat n) (store b off (255 .& e)) e off n 0 1 0 in
  holds_le b' off n e /\ same_outside b b' off n.
Proof.
  intros (H1 & H2 & H3 & H4).
  destruct (write_int_le_loop_spec (Z.to_nat n) (store b off (255 .& e)) e off n 0 0) as [Hh Ho];
    rewrite ?len_store; try lia; [unfold borrow; rewrite Z.mod_1_r; by destruct (e <? 0)| |].
  - intros j Hj. assert (j = 0) as -> by lia. rewrite store_get by lia. rewrite Z.add_0_r, Z.eqb_refl.
    rewrite band_255_l, digit_0, Z.mod_mod by lia. done.
  - split; [exact Hh|]. eapply same_outside_store; [| |exact Ho]; lia.
Qed.

Lemma int_be_written b off n e : in_range b off n ->
  let b' := write_int_be_loop (Z.to_nat n) (store b (off + (n - 1)) (255 .& e)) e off (n - 1) 1 0 in
  holds_be b' off n e /\ same_outside b b' off n.
Proof.
  intros (H1 & H2 & H3 & H4).
  destruct (write_int_be_loop_spec (Z.to_nat n) (store b (off + (n - 1)) (255 .& e)) e off n (n - 1) 0)
    as [Hh Ho]; rewrite ?len_store; try lia;
    replace (n - 1 - (n - 1)) with 0 in * by lia;
    [unfold borrow; rewrite Z.mod_1_r; by destruct (e <? 0)| |].
  - intros j Hj. assert (j = 0) as -> by lia. rewrite store_get by lia.
    destruct (Z.eqb_spec (off + n - 1 - 0) (off + (n - 1))); [|lia].
    rewrite band_255_l, digit_0, Z.mod_mod by lia. done.
  - split; [exact Hh|]. eapply same_outside_store; [| |exact Ho]; lia.
Qed.

Lemma signed_id n e : 0 < n -> - 2 ^ (8 * n - 1) <= e < 2 ^ (8 * n - 1) -> signed n e = e.
Proof.
  intros Hn He. unfold signed, unsigned. pose proof (pow256_pos (n - 1) ltac:(lia)).
  assert (E1 : 2 ^ (8 * n - 1) = 128 * 256 ^ (n - 1)).
  { replace (8 * n - 1) with (7 + 8 * (n - 1)) by lia. rewrite Z.pow_add_r, pow_256_2 by lia. done. }
  assert (E2 : 256 ^ n = 256 * 256 ^ (n - 1)) by (rewrite <- Z.pow_succ_r by lia; f_equal; lia).
  rewrite E1 in He. rewrite E2. destruct (Z.lt_ge_cases e 0).
  - replace (e mod (256 * 256 ^ (n - 1))) with (e + 256 * 256 ^ (n - 1)).
    + destruct (Z.leb_spec (128 * 256 ^ (n - 1)) (e + 256 * 256 ^ (n - 1))); lia.
    + apply Z.mod_unique with (q := -1); lia.
  - rewrite Z.mod_small by lia. destruct (Z.leb_spec (128 * 256 ^ (n - 1)) e); lia.
Qed.

(** The unsigned accessors of 1 to 6 bytes are inverse to each other in
    both byte orders, and a write touches only its own bytes. *)
Theorem uint_roundtrip b off n e : in_range b off n -> 0 <= e < 256 ^ n ->
  ∃ b1 b2,
    writeUIntLE b e off n = Ok (off + n, b1) /\ readUIntLE b1 off n = Ok e /\ same_outside b b1 off n /\
    writeUIntBE b e off n = Ok (off + n, b2) /\ readUIntBE b2 off n = Ok e /\ same_outside b b2 off n.
Proof.
  intros Hr He. pose proof Hr as (H1 & H2 & H3 & H4). unfold kMaxLength in *.
  destruct (int_le_written b off n e Hr) as [L1 L2], (int_be_written b off n e Hr) as [B1 B2].
  assert (E : unsigned n e = e) by (apply Z.mod_small; lia).
  unfold writeUIntLE, writeUIntBE.
  rewrite !or0, !checkInt_ok by (done || (rewrite pow_256_2; lia) || lia). cbn [result_bind].
  rewrite write_le_loop_int, write_be_loop_int by lia. do 2 eexists.
  split_and!; [done| |exact L2|done| |exact B2].
  - by rewrite (proj1 (read_le _ _ _ _ (in_range_same _ _ _ _ Hr L2) L1)), E.
  - by rewrite (proj1 (read_be _ _ _ _ (in_range_same _ _ _ _ Hr B2) B1)), E.
Qed.

Lemma uint_roundtrip_witness :
  ∃ b1 b2,
    writeUIntLE [0; 0; 0; 0] 66051 0 3 = Ok (3, b1) /\ readUIntLE b1 0 3 = Ok 66051 /\
    same_outside [0; 0; 0; 0] b1 0 3 /\
    writeUIntBE [0; 0; 0; 0] 66051 0 3 = Ok (3, b2) /\ readUIntBE b2 0 3 = Ok 66051 /\
    same_outside [0; 0; 0; 0] b2 0 3.
Proof.
  apply (uint_roundtrip [0; 0; 0; 0] 0 3 66051).
  - unfold in_range, kMaxLength, len. cbn. lia.
  - lia.
Defined.

(** C25. The signed accessors of 1 to 6 bytes are inverse to each other in both
    byte orders for every value of the type, the negative ones that need the
    borrow of the write loop included, and a write touches only its bytes. *)
Theorem int_roundtrip b off n e : in_range b off n -> - 2 ^ (8 * n - 1) <= e < 2 ^ (8 * n - 1) ->
  ∃ b1 b2,
    writeIntLE b e off n = Ok (off + n, b1) /\ readIntLE b1 off n = Ok e /\ same_outside b b1 off n /\
    writeIntBE b e off n = Ok (off + n, b2) /\ readIntBE b2 off n = Ok e /\ same_outside b b2 off n.
Proof.
  intros Hr He. pose proof Hr as (H1 & H2 & H3 & H4). unfold kMaxLength in *.
  destruct (int_le_written b off n e Hr) as [L1 L2], (int_be_written b off n e Hr) as [B1 B2].
  pose proof (signed_id n e ltac:(lia) He) as E. unfold writeIntLE, writeIntBE.
  rewrite !or0, !checkInt_ok by (done || lia). cbn [result_bind]. do 2 eexists.
  split_and!; [done| |exact L2|done| |exact B2].
  - by rewrite (proj2 (read_le _ _ _ _ (in_range_same _ _ _ _ Hr L2) L1)), E.
  - by rewrite (proj2 (read_be _ _ _ _ (in_range_same _ _ _ _ Hr B2) B1)), E.
Qed.

Lemma int_roundtrip_witness :
  ∃ b1 b2,
    writeIntLE [0; 0; 0; 0] (-257) 1 3 = Ok (4, b1) /\ readIntLE b1 1 3 = Ok (-257) /\
    same_outside [0; 0; 0; 0] b1 1 3 /\
    writeIntBE [0; 0; 0; 0] (-257) 1 3 = Ok (4, b2) /\ readIntBE b2 1 3 = Ok (-257) /\
    same_outside [0; 0; 0; 0] b2 1 3.
Proof.
  apply (int_roundtrip [0; 0; 0; 0] 1 3 (-257)).
  - unfold in_range, kMaxLength, len. cbn. lia.
  - lia.
Defined.

(** ** Fixed widths: correctness *)

Inductive format := U8 | U16LE | U16BE | U32LE | U32BE | I8 | I16LE | I16BE | I32LE | I32BE.

Definition read_as (f : format) : list Z -> Z -> result Z :=
  match f with
  | U8 => readUInt8 | U16LE => readUInt16LE | U16BE => readUInt16BE | U32LE => readUInt32LE
  | U32BE => readUInt32BE | I8 => readInt8 | I16LE => readInt16LE | I16BE => readInt16BE
  | I32LE => readInt32LE | I32BE => readInt32BE
  end.
Definition write_as (f : format) : list Z -> Z -> Z -> result (Z * list Z) :=
  match f with
  | U8 => writeUInt8 | U16LE => writeUInt16LE | U16BE => writeUInt16BE | U32LE => writeUInt32LE
  | U32BE => writeUInt32BE | I8 => writeInt8 | I16LE => writeInt16LE | I16BE => writeInt16BE
  | I32LE => writeInt32LE | I32BE => writeInt32BE
  end.

Definition width (f : format) : Z :=
  match f with U8 | I8 => 1 | U16LE | U16BE | I16LE | I16BE => 2 | _ => 4 end.
Definition is_signed (f : format) : bool :=
  match f with U8 | U16LE | U16BE | U32LE | U32BE => false | _ => true end.
Definition least (f : format) : Z := if is_signed f then - 2 ^ (8 * width f - 1) else 0.
Definition greatest (f : format) : Z :=
  if is_signed f then 2 ^ (8 * width f - 1) - 1 else 2 ^ (8 * width f) - 1.
Definition big_endian (f : format) : bool :=
  match f with U16BE | U32BE | I16BE | I32BE => true | _ => false end.
Definition holds (f : format) (b : list Z) (off e : Z) : Prop :=
  if big_endian f then holds_be b off (width f) e else holds_le b off (width f) e.

Lemma shr_digit e j : 0 <= j < 4 -> (e .>>> (8 * j)) mod 256 = digit e j.
Proof.
  intros Hj. unfold Int32.shr, Int32.shift_count, digit. rewrite (Z.mod_small (8 * j)) by lia.
  rewrite Z.shiftr_div_pow2, pow_256_2 by lia. unfold Int32.to_uint32.
  assert (E : 2 ^ 32 = 256 ^ j * (256 * 256 ^ (3 - j))).
  { rewrite <- Z.pow_succ_r, <- Z.pow_add_r by lia. replace (j + Z.succ (3 - j)) with 4 by lia. done. }
  pose proof (pow256_pos j ltac:(lia)). pose proof (pow256_pos (3 - j) ltac:(lia)).
  rewrite E, Z.rem_mul_r, Z.add_comm, Z.mul_comm, Z.div_add_l by lia.
  rewrite (Z.div_small (e mod _)), Z.add_0_r by (apply Z.mod_pos_bound; lia).
  apply Z.mod_mod_divide. exists (256 ^ (3 - j)). lia.
Qed.

(** A shifted value read back through a stored byte. *)
Lemma shr_byte e :
  (e .>>> 8) mod 256 = digit e 1 /\ (e .>>> 16) mod 256 = digit e 2 /\ (e .>>> 24) mod 256 = digit e 3 /\
  (255 .& e) mod 256 = digit e 0.
Proof.
  split_and!; [apply (shr_digit e 1)|apply (shr_digit e 2)|apply (shr_digit e 3)|]; try lia.
  by rewrite band_255_l, digit_0, Z.mod_mod.
Qed.

Lemma digit_add e j m : 0 <= j < m -> digit (e + 256 ^ m) j = digit e j.
Proof.
  intros Hj. unfold digit. pose proof (pow256_pos j ltac:(lia)).
  replace (256 ^ m) with (256 ^ (m - j) * 256 ^ j) by (rewrite <- Z.pow_add_r by lia; f_equal; lia).
  rewrite Z.div_add by lia. replace (m - j) with (Z.succ (m - j - 1)) by lia.
  rewrite Z.pow_succ_r by lia. rewrite (Z.mul_comm 256), Z.mod_add by lia. done.
Qed.

Lemma same_outside_id b off n : same_outside b b off n.
Proof. done. Qed.

Ltac store_cases j :=
  repeat (rewrite store_get by (rewrite ?len_store; lia));
  repeat match goal with
  | |- context [Z.eqb ?a ?b] => destruct (Z.eqb_spec a b); try (exfalso; lia)
  end.

(** The wrapped form the signed writers store has the digits of the value. *)
Lemma wrapped_digit e j m c : 0 <= j < m -> c = 256 ^ m - 1 ->
  digit (if e <? 0 then c + e + 1 else e) j = digit e j.
Proof.
  intros Hj ->. destruct (e <? 0); [|done].
  replace (256 ^ m - 1 + e + 1) with (e + 256 ^ m) by lia. by apply digit_add.
Qed.

Lemma write_fixed f b off e : in_range b off (width f) -> least f <= e <= greatest f ->
  ∃ b', write_as f b e off = Ok (off + width f, b') /\ holds f b' off e /\
        same_outside b b' off (width f).
Proof.
  intros Hr He. pose proof Hr as (H1 & H2 & H3 & H4). unfold kMaxLength in *.
  destruct (shr_byte e) as (S1 & S2 & S3 & S0).
  destruct (shr_byte (if e <? 0 then 255 + e + 1 else e)) as (_ & _ & _ & T0).
  destruct (shr_byte (if e <? 0 then 4294967295 + e + 1 else e)) as (U1 & U2 & U3 & U0).
  rewrite (wrapped_digit e 0 1 255) in T0 by lia. rewrite (wrapped_digit e 0 4 4294967295) in U0 by lia.
  rewrite (wrapped_digit e 1 4 4294967295) in U1 by lia. rewrite (wrapped_digit e 2 4 4294967295) in U2 by lia.
  rewrite (wrapped_digit e 3 4 4294967295) in U3 by lia.
  destruct f; cbn [width] in *;
    unfold least, greatest in He; cbn [is_signed width] in He;
    unfold write_as, writeUInt8, writeUInt16LE, writeUInt16BE, writeUInt32LE, writeUInt32BE,
      writeInt8, writeInt16LE, writeInt16BE, writeInt32LE, writeInt32BE;
    rewrite or0, checkInt_ok by (done || lia); cbn [result_bind];
    (eexists; split; [reflexivity|]);
    (split; [|repeat (eapply same_outside_store; [| |first [apply same_outside_id|idtac]]); rewrite ?len_store; lia]);
    unfold holds, holds_le, holds_be; cbn [big_endian width]; intros j Hj; store_cases j; f_equal;
    first [ replace j with 0 by lia; first [exact S0|exact T0|exact U0]
          | replace j with 1 by lia; first [exact S1|exact U1]
          | replace j with 2 by lia; first [exact S2|exact U2]
          | replace j with 3 by lia; first [exact S3|exact U3] ].
Qed.

(** The sign bit. *)
Lemma band_sign_bit n k : 0 <= k < 31 -> 0 <= n < 2 ^ (k + 1) -> (2 ^ k .& n) = if 2 ^ k <=? n then 2 ^ k else 0.
Proof.
  intros Hk Hn. assert (2 ^ (k + 1) <= 2 ^ 31) by (apply Z.pow_le_mono_r; lia).
  rewrite Z.pow_add_r, Z.pow_1_r in * by lia. assert (0 < 2 ^ k) by (apply Z.pow_pos_nonneg; lia).
  unfold Int32.band. rewrite !to_int32_id by lia. rewrite Z.land_comm.
  assert (E : n = n mod 2 ^ k + (if 2 ^ k <=? n then 2 ^ k else 0)).
  { destruct (Z.leb_spec (2 ^ k) n); [|rewrite Z.mod_small; lia].
    replace (n mod 2 ^ k) with (n - 2 ^ k); [lia|]. apply Z.mod_unique with (q := 1); lia. }
  apply Z.bits_inj'. intros i Hi. rewrite Z.land_spec, Z.pow2_bits_eqb by lia.
  destruct (Z.eqb_spec k i) as [<-|].
  - rewrite andb_true_r. destruct (Z.leb_spec (2 ^ k) n) as [Hge|Hlt].
    + rewrite Z.pow2_bits_true by lia. apply Z.testbit_true; [lia|].
      replace (n / 2 ^ k) with 1; [done|]. apply Z.div_unique with (r := n - 2 ^ k); lia.
    + rewrite Z.bits_0. apply Z.testbit_false; [lia|]. by rewrite Z.div_small by lia.
  - rewrite andb_false_r. destruct (2 ^ k <=? n); [by rewrite Z.pow2_bits_false|by rewrite Z.bits_0].
Qed.

Lemma digits_2 e : e mod 65536 = digit e 0 + 256 * digit e 1.
Proof.
  pose proof (number_digit e 2) as H. change (0 + digit e 0 * 1 + digit e 1 * 256 = e mod 65536) in H. lia.
Qed.

Lemma digits_4 e : e mod 4294967296
  = digit e 0 + 256 * digit e 1 + 65536 * digit e 2 + 16777216 * digit e 3.
Proof.
  pose proof (number_digit e 4) as H.
  change (0 + digit e 0 * 1 + digit e 1 * 256 + digit e 2 * 65536 + digit e 3 * 16777216
          = e mod 4294967296) in H. lia.
Qed.

(** Bytes joined by [|]. *)
Lemma join2 x y : is_byte x -> is_byte y -> (x .| y .<< 8) = x + 256 * y /\ (y .<< 8 .| x) = x + 256 * y.
Proof.
  intros. rewrite shl_small by lia. rewrite (bor_comm x), (bor_add (y * 2 ^ 8) x 8) by zdm. lia.
Qed.

Lemma join3 x y z : is_byte x -> is_byte y -> is_byte z ->
  (x .| y .<< 8 .| z .<< 16) = x + 256 * y + 65536 * z /\
  (z .<< 16 .| y .<< 8 .| x) = x + 256 * y + 65536 * z.
Proof.
  intros. destruct (join2 x y) as [-> _]; [done..|]. rewrite !shl_small by lia.
  rewrite (bor_comm (x + _)), (bor_add (z * 2 ^ 16) (x + _) 16) by zdm.
  rewrite (bor_add (z * 2 ^ 16) (y * _) 16), (bor_add _ x 8) by zdm. lia.
Qed.

Lemma join4 x y z w : is_byte x -> is_byte y -> is_byte z -> is_byte w ->
  let v := x + 256 * y + 65536 * z + 16777216 * (if 128 <=? w then w - 256 else w) in
  (x .| y .<< 8 .| z .<< 16 .| w .<< 24) = v /\ (w .<< 24 .| z .<< 16 .| y .<< 8 .| x) = v.
Proof.
  intros Hx Hy Hz Hw v. destruct (join3 x y z) as [-> _]; [done..|].
  assert (Ew : (w .<< 24) = 16777216 * (if 128 <=? w then w - 256 else w)).
  { rewrite shl_mul by lia. destruct (Z.leb_spec 128 w).
    - rewrite <- (to_int32_id (16777216 * (w - 256))) by lia. apply to_int32_eqm. zdm.
    - rewrite to_int32_id by lia. lia. }
  rewrite Ew, !shl_small by lia. subst v.
  set (s := if 128 <=? w then w - 256 else w). assert (-128 <= s < 128) by (subst s; bool_cases; lia).
  rewrite (bor_comm (x + _ + _)), (bor_add (_ * s) (x + _ + _) 24) by zdm.
  rewrite (bor_add (_ * s) (z * _) 24), (bor_add _ (y * _) 16), (bor_add _ x 8) by zdm. lia.
Qed.

Lemma bor_sign16 n : 32768 <= n < 65536 -> (4294901760 .| n) = n - 65536.
Proof.
  intros. unfold Int32.bor. change (Int32.to_int32 4294901760) with (-65536).
  rewrite to_int32_id, (lor_add _ _ 16) by (done || lia). lia.
Qed.

(** Replaces the reads of the goal by the digits the field holds. *)
Ltac use_digit E :=
  match type of E with
  | arr_get ?b ?i = ?v =>
      repeat match goal with
      | |- context [arr_get b ?k] => replace (arr_get b k) with v by (rewrite <- E; f_equal; lia)
      end
  end.

Lemma read_fixed f b off e : in_range b off (width f) -> holds f b off e -> least f <= e <= greatest f ->
  read_as f b off = Ok e.
Proof.
  intros Hr Hh He. pose proof (digits_2 e) as D2. pose proof (digits_4 e) as D4.
  pose proof (digit_0 e) as D1.
  pose proof (digit_range e 0). pose proof (digit_range e 1).
  pose proof (digit_range e 2). pose proof (digit_range e 3).
  destruct (join2 (digit e 0) (digit e 1)) as [J2 J2']; [done..|].
  destruct (join3 (digit e 0) (digit e 1) (digit e 2)) as [J3 J3']; [done..|].
  destruct (join4 (digit e 0) (digit e 1) (digit e 2) (digit e 3)) as [J4 J4']; [done..|].
  destruct f; unfold least, greatest in He; cbn [is_signed width] in *;
    unfold holds in Hh; cbn [big_endian width] in Hh; unfold holds_le, holds_be in Hh;
    unfold read_as, readUInt8, readUInt16LE, readUInt16BE, readUInt32LE, readUInt32BE,
      readInt8, readInt16LE, readInt16BE, readInt32LE, readInt32BE;
    rewrite checkOffset_ok by done; cbn [result_bind]; unfold byte_at;
    use_digit (Hh 0 ltac:(lia)); try use_digit (Hh 1 ltac:(lia));
    try use_digit (Hh 2 ltac:(lia)); try use_digit (Hh 3 ltac:(lia)); cbn [num]; f_equal;
    rewrite ?J4, ?J4', ?J3, ?J3', ?J2, ?J2'; try (rewrite (band_sign_bit _ 7) by lia);
    try (rewrite (band_sign_bit _ 15) by lia); bool_cases; cbn [negb]; try lia;
    rewrite ?bor_sign16 by lia; zdm.
Qed.

(** All ten fixed-width accessors (8, 16 and 32 bits, signed and unsigned,
    both byte orders): a value of the type is written in its own bytes only,
    the returned offset is the end of the field, and the matching read gives
    the value back. *)
Theorem fixed_roundtrip f b off e : in_range b off (width f) -> least f <= e <= greatest f ->
  ∃ b', write_as f b e off = Ok (off + width f, b') /\ read_as f b' off = Ok e /\
        same_outside b b' off (width f).
Proof.
  intros Hr He. destruct (write_fixed f b off e Hr He) as (b' & H1 & H2 & H3).
  exists b'. split_and!; [done| |done]. apply read_fixed; [by eapply in_range_same|done|done].
Qed.

Lemma fixed_roundtrip_witness :
  ∃ b', write_as I32BE [9; 9; 9; 9; 9] (-2) 1 = Ok (5, b') /\ read_as I32BE b' 1 = Ok (-2) /\
        same_outside [9; 9; 9; 9; 9] b' 1 4.
Proof.
  apply (fixed_roundtrip I32BE [9; 9; 9; 9; 9] 1 (-2)).
  - unfold in_range, kMaxLength, len. cbn. lia.
  - unfold least, greatest. cbn. lia.
Defined.

Lemma store_frame b i j x : j <> i -> arr_get (store b i x) j = arr_get b j.
Proof.
  intros Hj. destruct (decide (0 <= i < len b)) as [Hi|Hi]; [rewrite store_get by done; by destruct (Z.eqb_spec j i)|].
  unfold store, arr_set, len in *. destruct (Z.leb_spec 0 i); [|done]. by rewrite list_insert_ge by lia.
Qed.
Lemma same_outside_stores b b' off n i x : off <= i < off + n -> same_outside (store b i x) b' off n -> same_outside b b' off n.
Proof.
  intros Hi [H1 H2]. split; [by rewrite H1, len_store|]. intros k Hk. rewrite H2, store_frame by (done || lia). done.
Qed.

(** C38. The accessors reject what does not fit: a value outside of the type is
    a RangeError whatever the offset, a value of the type is a RangeError when
    its field ends past the buffer, and so is a read there or at a negative
    offset; nothing is written or returned. A value of the type at a negative
    offset, whose field does not end past the buffer, is not refused: [checkInt]
    has no test for it, and the write changes at most the bytes of the field
    that the buffer has. *)
Theorem fixed_range_errors f b off e : is_int32 off -> 
  (e < least f \/ greatest f < e ->
     write_as f b e off = Throw (RangeError (34 :: js "value" ++ 34 :: js " argument is out of bounds"))) /\
  (least f <= e <= greatest f -> len b < off + width f ->
     write_as f b e off = Throw (RangeError (js "Index out of range"))) /\
  (0 <= off -> len b < off + width f ->
     read_as f b off = Throw (RangeError (js "Trying to access beyond buffer length"))) /\
  (off < 0 -> read_as f b off = Throw (RangeError (js "offset is not uint"))) /\
  (off < 0 -> least f <= e <= greatest f -> off + width f <= len b ->
     ∃ b', write_as f b e off = Ok (off + width f, b') /\ same_outside b b' off (width f)).
Proof.
  intros Hoff. unfold least, greatest. split_and!; intros; destruct f; cbn [is_signed width] in *;
    unfold write_as, writeUInt8, writeUInt16LE, writeUInt16BE, writeUInt32LE, writeUInt32BE,
      writeInt8, writeInt16LE, writeInt16BE, writeInt32LE, writeInt32BE,
      read_as, readUInt8, readUInt16LE, readUInt16BE, readUInt32LE, readUInt32BE,
      readInt8, readInt16LE, readInt16BE, readInt32LE, readInt32BE, checkInt, checkOffset;
    rewrite ?or0 by lia; bool_cases; cbn [orb];
    first [ done | exfalso; lia
          | eexists; split; [reflexivity|];
            repeat (eapply same_outside_stores; [|first [apply same_outside_id|idtac]]); lia ].
Qed.

Lemma fixed_range_errors_witness :
  write_as U8 [1; 2] 256 0 = Throw (RangeError (34 :: js "value" ++ 34 :: js " argument is out of bounds")) /\
  write_as U16LE [1; 2] 5 1 = Throw (RangeError (js "Index out of range")) /\
  read_as U16LE [1; 2] 1 = Throw (RangeError (js "Trying to access beyond buffer length")) /\
  ∃ b', write_as U16LE [1; 2] 772 (-1) = Ok (1, b') /\ same_outside [1; 2] b' (-1) 2.
Proof.
  destruct (fixed_range_errors U8 [1; 2] 0 256 ltac:(lia)) as (H1 & _).
  destruct (fixed_range_errors U16LE [1; 2] 1 5 ltac:(lia)) as (_ & H2 & H3 & _).
  split; [apply H1; right; vm_compute; reflexivity|].
  split; [apply H2; [vm_compute; split; discriminate|vm_compute; reflexivity]|].
  split; [apply H3; [lia|vm_compute; reflexivity]|].
  destruct (fixed_range_errors U16LE [1; 2] (-1) 772 ltac:(lia)) as (_ & _ & _ & _ & H5).
  apply H5; vm_compute; [reflexivity|split; discriminate|discriminate].
Defined.

End BufferInt.
