(* ===== verification/BufferOps.v ===== *)
(** Block operations of the Buffer module of the bundle
    (client/docs/swagger-ui/swagger-ui-bundle.js, lines 4087-4134, 4243-4298,
    4335-4354 and 4570-4603): searching, comparing, concatenating, copying,
    filling and byte swapping, with their correctness. *)

From stdpp Require Import base list list_numbers numbers strings gmap.
From Stdlib Require Import ZArith Lia.
From S2P Require Import Prelude Base64 Buffer BufferText.

Module BufferOps.
Import Base64 Buffer BufferText.

(** ** Searching *)

(** The forward loop of [g] on bytes: position [i], start [c] of the match
    under way or -1. *)
Fixpoint search_loop (fuel : nat) (e t : list Z) (i c : Z) : Z :=
  match fuel with
  | O => -1
  | S fuel =>
      if i <? len e then
        if bool_decide (arr_get e i = arr_get t (if c =? -1 then 0 else i - c)) then
          let c := if c =? -1 then i else c in
          if i - c + 1 =? len t then c else search_loop fuel e t (i + 1) c
        else
          let i := if negb (c =? -1) then i - (i - c) else i in
          search_loop fuel e t (i + 1) (-1)
      else -1
  end.

(** The comparison of the backward loop: [t] at [i], from its byte [p] on. *)
Fixpoint match_at (fuel : nat) (e t : list Z) (i p : Z) : bool :=
  match fuel with
  | O => true
  | S fuel =>
      if p <? len t then
        if bool_decide (arr_get e (i + p) = arr_get t p) then match_at fuel e t i (p + 1) else false
      else true
  end.

Fixpoint search_back (fuel : nat) (e t : list Z) (i : Z) : Z :=
  match fuel with
  | O => -1
  | S fuel => if 0 <=? i then (if match_at (length t) e t i 0 then i else search_back fuel e t (i - 1)) else -1
  end.

(** [g(e, t, n, r, o)] for an encoding other than UTF-16; every start is
    compared with at most [length t] bytes. *)
Definition arrayIndexOf (e t : list Z) (n : Z) (o : bool) : Z :=
  if o then search_loop (S (length e) * S (length t)) e t n (-1)
  else
    let n := if len e <? n + len t then len e - len t else n in
    search_back (S (length e)) e t n.

(** [m(e, t, n, r, o)] for a buffer [t] and a numeric or missing offset. *)
Definition bidirectionalIndexOf (e t : list Z) (n : option Z) (o : bool) : Z :=
  if len e =? 0 then -1 else
  let n := match n with
           | Some n => if 2147483647 <? n then 2147483647 else if n <? -2147483648 then -2147483648 else n
           | None => if o then 0 else len e - 1
           end in
  let n := if n <? 0 then len e + n else n in
  let go n := if len t =? 0 then -1 else arrayIndexOf e t n o in
  if len e <=? n then (if o then -1 else go (len e - 1))
  else if n <? 0 then (if o then go 0 else -1)
  else go n.

Definition indexOf (e t : list Z) (n : option Z) : Z := bidirectionalIndexOf e t n true.
Definition lastIndexOf (e t : list Z) (n : option Z) : Z := bidirectionalIndexOf e t n false.
Definition includes (e t : list Z) (n : option Z) : bool := negb (indexOf e t n =? -1).

(** ** Comparing *)

Fixpoint first_diff (e t : list Z) (n r : Z) : Z * Z :=
  match e, t with
  | x :: e, y :: t => if x =? y then first_diff e t n r else (x, y)
  | _, _ => (n, r)
  end.

(** [s.compare] *)
Definition compare (e t : list Z) : Z :=
  let '(n, r) := first_diff e t (len e) (len t) in
  if n <? r then -1 else if r <? n then 1 else 0.

Definition equals (this e : list Z) : bool := compare this e =? 0.

(** [s.prototype.compare] *)
Definition compare_range (this e : list Z) (t n r o : option Z) : result Z :=
  let t := default 0 t in
  let n := default (len e) n in
  let r := default 0 r in
  let o := default (len this) o in
  if (t <? 0) || (len e <? n) || (r <? 0) || (len this <? o) then Throw (RangeError (js "out of range index"))
  else if (o <=? r) && (n <=? t) then Ok 0
  else if o <=? r then Ok (-1)
  else if n <=? t then Ok 1
  else
    let '(i, a) := first_diff (slice this r (Some o)) (slice e t (Some n)) (o - r) (n - t) in
    Ok (if i <? a then -1 else if a <? i then 1 else 0).

(** ** Copying *)

(** The three ways to move [i] bytes; [same] tells that source and target are
    one buffer. *)
Fixpoint copy_up (k : nat) (same : bool) (src e : list Z) (t n o : Z) : list Z :=
  match k with
  | O => e
  | S k => copy_up k same src (arr_set e (o + t) (num (arr_get (if same then e else src) (o + n)))) t n (o + 1)
  end.
Fixpoint copy_down (k : nat) (e : list Z) (t n : Z) : list Z :=
  match k with
  | O => e
  | S k => let o := Z.of_nat k in copy_down k (arr_set e (o + t) (num (arr_get e (o + n)))) t n
  end.
(** [Uint8Array.prototype.set] *)
Definition typed_set (e l : list Z) (t : Z) : list Z :=
  take (Z.to_nat t) e ++ l ++ drop (Z.to_nat t + length l) e.

(** [s.prototype.copy]: the number of bytes copied and the target. *)
Definition copy (same : bool) (this e : list Z) (t n r : option Z) : result (Z * list Z) :=
  let n := default 0 n in
  let r := default (len this) r in
  let t := default 0 t in
  let t := if len e <=? t then len e else t in
  let r := if (0 <? r) && (r <? n) then n else r in
  if r =? n then Ok (0, e)
  else if (len e =? 0) || (len this =? 0) then Ok (0, e)
  else if t <? 0 then Throw (RangeError (js "targetStart out of bounds"))
  else if (n <? 0) || (len this <=? n) then Throw (RangeError (js "sourceStart out of bounds"))
  else if r <? 0 then Throw (RangeError (js "sourceEnd out of bounds"))
  else
    let r := if len this <? r then len this else r in
    let r := if len e - t <? r - n then len e - t + n else r in
    let i := r - n in
    Ok (i, if same && (n <? t) && (t <? r) then copy_down (Z.to_nat i) e t n
           else if i <? 1000 then copy_up (Z.to_nat i) same this e t n 0
           else typed_set e (subarray this n (n + i)) t).

(** [s.concat] *)
Fixpoint concat_loop (e : list (list Z)) (r : list Z) (o : Z) : result (list Z) :=
  match e with
  | [] => Ok r
  | a :: e => let! (_, r) := copy false a r (Some o) None None in concat_loop e r (o + len a)
  end.
Definition buffer_concat (e : list (list Z)) (t : option Z) : result (list Z) :=
  match e with
  | [] => createBuffer 0
  | _ =>
      let t := match t with Some t => t | None => foldr (λ b s, len b + s) 0 e end in
      let! r := createBuffer t in
      concat_loop e r 0
  end.

(** ** Filling and swapping *)

(** [s.prototype.fill] with a number. *)
Definition fill (this : list Z) (e : Z) (t n : option Z) : result (list Z) :=
  let e := (e .& 255) in
  let t := default 0 t in
  let n := default (len this) n in
  if (t <? 0) || (len this <? t) || (len this <? n) then Throw (RangeError (js "Out of range index"))
  else if n <=? t then Ok this
  else Ok (fold_left (λ b i, arr_set b i e) (for_range t n 1) this).

(** [v(e, t, n)] *)
Definition swap (e : list Z) (t n : Z) : list Z :=
  arr_set (arr_set e t (num (arr_get e n))) n (num (arr_get e t)).

Definition swap16 (e : list Z) : result (list Z) :=
  if negb (len e mod 2 =? 0) then Throw (RangeError (js "Buffer size must be a multiple of 16-bits"))
  else Ok (fold_left (λ e t, swap e t (t + 1)) (for_range 0 (len e) 2) e).
Definition swap32 (e : list Z) : result (list Z) :=
  if negb (len e mod 4 =? 0) then Throw (RangeError (js "Buffer size must be a multiple of 32-bits"))
  else Ok (fold_left (λ e t, swap (swap e t (t + 3)) (t + 1) (t + 2)) (for_range 0 (len e) 4) e).
Definition swap64 (e : list Z) : result (list Z) :=
  if negb (len e mod 8 =? 0) then Throw (RangeError (js "Buffer size must be a multiple of 64-bits"))
  else Ok (fold_left (λ e t, swap (swap (swap (swap e t (t + 7)) (t + 1) (t + 6)) (t + 2) (t + 5)) (t + 3) (t + 4))
             (for_range 0 (len e) 8) e).

Example index_ex : indexOf (js "aabaaabaab") (js "aab") (Some 1) = 4 /\ lastIndexOf (js "aabaaabaab") (js "aab") None = 7
  /\ indexOf (js "abc") (js "abcd") None = -1.
Proof. vm_compute. auto. Qed.
Example copy_ex : copy true (js "abcdef") (js "abcdef") (Some 2) (Some 0) (Some 4) = Ok (4, js "ababcd").
Proof. vm_compute. reflexivity. Qed.
Example concat_ex : buffer_concat [js "ab"; []; js "cde"] None = Ok (js "abcde")
  /\ buffer_concat [js "ab"; js "cde"] (Some 4) = Ok (js "abcd").
Proof. vm_compute. auto. Qed.
Example swap_ex : swap32 (js "abcdefgh") = Ok (js "dcbahgfe").
Proof. vm_compute. reflexivity. Qed.

(** ** Searching finds the first and the last match *)

Definition occurs (e t : list Z) (i : Z) : Prop :=
  0 <= i /\ ∀ p, 0 <= p < len t -> arr_get e (i + p) = arr_get t p.

Definition first_match (e t : list Z) (k r : Z) : Prop :=
  (r = -1 /\ ∀ i, k <= i -> ~ occurs e t i) \/ (k <= r /\ occurs e t r /\ ∀ i, k <= i < r -> ~ occurs e t i).
Definition last_match (e t : list Z) (k r : Z) : Prop :=
  (r = -1 /\ ∀ i, i <= k -> ~ occurs e t i) \/ (r <= k /\ occurs e t r /\ ∀ i, r < i <= k -> ~ occurs e t i).

Lemma occurs_inside e t i : t <> [] -> occurs e t i -> i + len t <= len e.
Proof.
  intros Ht [Hi H]. destruct t as [|x t]; [done|]. rewrite len_cons in *. pose proof (len_nonneg t).
  specialize (H (len t) ltac:(lia)). rewrite (arr_get_num (x :: t)) in H by (rewrite len_cons; lia).
  apply arr_get_Some_range in H. lia.
Qed.

(** The rounds the loop still takes. *)
Definition search_measure (e t : list Z) (i c : Z) : Z :=
  if c =? -1 then (len e - i) * (len t + 1) else (len e - c - 1) * (len t + 1) + (len t - (i - c)) + 1.

Lemma search_loop_ok fuel e t k i c : t <> [] -> 0 <= k <= i ->
  (c = -1 /\ (∀ j, k <= j < i -> ~ occurs e t j)
   \/ k <= c < i /\ i - c < len t /\ c < len e /\ (∀ p, 0 <= p < i - c -> arr_get e (c + p) = arr_get t p)
      /\ (∀ j, k <= j < c -> ~ occurs e t j)) ->
  search_measure e t i c < Z.of_nat fuel -> 0 <= search_measure e t i c \/ len e <= i ->
  first_match e t k (search_loop fuel e t i c).
Proof.
  intros Ht. assert (Hlt : 1 <= len t) by (destruct t; [done|rewrite len_cons; pose proof (len_nonneg t); lia]).
  revert i c. induction fuel as [|fuel IH]; intros i c Hk Hc Hm Hm0.
  { left. split; [done|]. intros j Hj Ho. pose proof (occurs_inside e t j Ht Ho). assert (len e <= i) by lia.
    destruct Hc as [[-> Hn]|(? & ? & ? & _ & Hn)]; [apply (Hn j); [lia|done]|].
    unfold search_measure in *. destruct (Z.eqb_spec c (-1)); nia. }
  cbn [search_loop]. destruct (Z.ltb_spec i (len e)) as [Hi|Hi].
  2: { left. split; [done|]. intros j Hj Ho. pose proof (occurs_inside e t j Ht Ho).
       destruct Hc as [[-> Hn]|(? & ? & ? & _ & Hn)]; [apply (Hn j); [lia|done]|].
       destruct (Z.lt_ge_cases j c); [apply (Hn j); [lia|done]|lia]. }
  unfold search_measure in Hm, Hm0.
  destruct Hc as [[-> Hn]|(Hci & Hlt' & Hce & Hp & Hn)].
  - change (-1 =? -1) with true in *. cbn iota zeta in *. cbn [negb]. case_bool_decide as E.
    + destruct (Z.eqb_spec (i - i + 1) (len t)) as [E1|E1].
      * right. split_and!; [lia| |done]. split; [lia|]. intros p Hp. replace p with 0 by lia. by rewrite Z.add_0_r.
      * apply IH; [lia| |unfold search_measure; destruct (Z.eqb_spec i (-1)); nia..].
        right. split_and!; [lia|lia|lia|lia| |done]. intros p Hp. replace p with 0 by lia. by rewrite Z.add_0_r.
    + apply IH; [lia| |unfold search_measure; change (-1 =? -1) with true; cbn iota; nia..].
      left. split; [done|]. intros j Hj Ho. destruct (Z.lt_ge_cases j i); [apply (Hn j); [lia|done]|]. destruct Ho as [_ Ho].
      replace j with i in Ho by lia. specialize (Ho 0 ltac:(lia)). by rewrite Z.add_0_r in Ho.
  - destruct (Z.eqb_spec c (-1)); [lia|]. cbn [negb]. case_bool_decide as E.
    + assert (Hp' : ∀ p, 0 <= p < i - c + 1 -> arr_get e (c + p) = arr_get t p).
      { intros p Hp'. destruct (Z.lt_ge_cases p (i - c)); [apply Hp; lia|]. replace p with (i - c) by lia.
        by replace (c + (i - c)) with i by lia. }
      destruct (Z.eqb_spec (i - c + 1) (len t)) as [E1|E1].
      * right. split_and!; [lia| |done]. split; [lia|]. intros p Hpp. apply Hp'. lia.
      * apply IH; [lia| |unfold search_measure; destruct (Z.eqb_spec c (-1)); nia..].
        right. split_and!; [lia|lia|lia|lia| |done]. intros p Hpp. apply Hp'. lia.
    + replace (i - (i - c)) with c by lia.
      apply IH; [lia| |unfold search_measure; change (-1 =? -1) with true; cbn iota; nia..].
      left. split; [done|]. intros j Hj Ho. destruct (Z.lt_ge_cases j c); [apply (Hn j); [lia|done]|].
      replace j with c in Ho by lia. destruct Ho as [_ Ho]. specialize (Ho (i - c) ltac:(lia)).
      by replace (c + (i - c)) with i in Ho by lia.
Qed.

Lemma match_at_ok fuel e t i p : 0 <= i -> 0 <= p -> len t - p <= Z.of_nat fuel ->
  (∀ q, 0 <= q < p -> q < len t -> arr_get e (i + q) = arr_get t q) ->
  match_at fuel e t i p = true <-> occurs e t i.
Proof.
  intros Hi. revert p. induction fuel as [|fuel IH]; intros p Hp Hf Hq; cbn [match_at].
  - split; [|done]. intros _. split; [done|]. intros q Hq'. apply Hq; lia.
  - destruct (Z.ltb_spec p (len t)).
    + case_bool_decide as E.
      * apply IH; [lia|lia|]. intros q Hq1 Hq2. destruct (Z.lt_ge_cases q p); [apply Hq; lia|]. by replace q with p by lia.
      * split; [done|]. intros [_ Ho]. destruct E. apply Ho. lia.
    + split; [|done]. intros _. split; [done|]. intros q Hq'. apply Hq; lia.
Qed.

Lemma search_back_ok fuel e t k i : i < Z.of_nat fuel -> i <= k -> (∀ j, i < j <= k -> ~ occurs e t j) ->
  last_match e t k (search_back fuel e t i).
Proof.
  revert i. induction fuel as [|fuel IH]; intros i Hf Hk Hn; cbn [search_back].
  - left. split; [done|]. intros j Hj Ho. destruct (Z.lt_ge_cases i j); [by apply (Hn j)|]. destruct Ho. lia.
  - destruct (Z.leb_spec 0 i).
    + destruct (match_at (length t) e t i 0) eqn:E.
      * apply match_at_ok in E; [|unfold len; lia..]. by right.
      * apply IH; [lia|lia|]. intros j Hj Ho. destruct (Z.lt_ge_cases i j); [apply (Hn j); [lia|done]|].
        replace j with i in Ho by lia. apply (match_at_ok (length t) e t i 0) in Ho; [congruence|unfold len; lia..].
    + left. split; [done|]. intros j Hj Ho. destruct (Z.lt_ge_cases i j); [by apply (Hn j)|]. destruct Ho. lia.
Qed.

Lemma forward_ok e t n : t <> [] -> 0 <= n < len e -> first_match e t n (arrayIndexOf e t n true).
Proof.
  intros Ht Hn. unfold arrayIndexOf. pose proof (len_nonneg t). apply search_loop_ok; [done|lia| | |].
  - left. split; [done|]. lia.
  - unfold search_measure, len in *. change (-1 =? -1) with true. cbn iota. nia.
  - left. unfold search_measure. change (-1 =? -1) with true. cbn iota. nia.
Qed.

Lemma backward_ok e t n k : t <> [] -> 0 <= n < len e -> (n = k \/ n = len e - 1 /\ n <= k) ->
  last_match e t k (arrayIndexOf e t n false).
Proof.
  intros Ht Hn Hk. assert (Hlt : 1 <= len t) by (destruct t; [done|rewrite len_cons; pose proof (len_nonneg t); lia]).
  unfold arrayIndexOf. destruct (Z.ltb_spec (len e) (n + len t)); (apply search_back_ok; [unfold len in *; lia|lia|]);
    intros j Hj Ho; pose proof (occurs_inside e t j Ht Ho); lia.
Qed.

(** Searching a buffer for a non-empty one: [indexOf] returns the first
    position at or after the offset where the bytes occur and [lastIndexOf]
    the last one at or before it, or -1 when there is none; a negative offset
    counts from the end, and a missing one searches the whole buffer. *)
Theorem search_correct e t n : e <> [] -> t <> [] -> is_int32 n ->
  let k := if n <? 0 then len e + n else n in
  first_match e t (Z.max 0 k) (indexOf e t (Some n)) /\ last_match e t k (lastIndexOf e t (Some n)) /\
  first_match e t 0 (indexOf e t None) /\ last_match e t (len e) (lastIndexOf e t None).
Proof.
  intros He Ht Hn k. unfold indexOf, lastIndexOf, bidirectionalIndexOf.
  assert (Hlt : 1 <= len t) by (destruct t; [done|rewrite len_cons; pose proof (len_nonneg t); lia]).
  assert (Hle : 1 <= len e) by (destruct e; [done|rewrite len_cons; pose proof (len_nonneg e); lia]).
  destruct (Z.eqb_spec (len e) 0), (Z.eqb_spec (len t) 0); try lia.
  destruct (Z.ltb_spec 2147483647 n), (Z.ltb_spec n (-2147483648)); try lia. fold k.
  split_and!.
  - destruct (Z.leb_spec (len e) k); [|destruct (Z.ltb_spec k 0)].
    + left. split; [done|]. intros i Hi Ho. pose proof (occurs_inside e t i Ht Ho). lia.
    + rewrite Z.max_l by lia. apply forward_ok; [done|lia].
    + rewrite Z.max_r by lia. apply forward_ok; [done|lia].
  - destruct (Z.leb_spec (len e) k); [|destruct (Z.ltb_spec k 0)].
    + apply backward_ok; [done|lia|lia].
    + left. split; [done|]. intros i Hi [Ho _]. lia.
    + apply backward_ok; [done|lia|lia].
  - cbn [Z.ltb Z.compare]. destruct (Z.leb_spec (len e) 0); [lia|]. apply forward_ok; [done|lia].
  - destruct (Z.ltb_spec (len e - 1) 0); [lia|]. destruct (Z.leb_spec (len e) (len e - 1)); [lia|].
    destruct (Z.ltb_spec (len e - 1) 0); [lia|]. apply backward_ok; [done|lia|lia].
Qed.

Lemma search_correct_witness : first_match (js "abcab") (js "ab") 1 (indexOf (js "abcab") (js "ab") (Some 1))
  /\ indexOf (js "abcab") (js "ab") (Some 1) = 3.
Proof.
  split; [|vm_compute; reflexivity].
  apply (search_correct (js "abcab") (js "ab") 1); [discriminate|discriminate|lia].
Defined.

(** ** Copying *)

(** [i] bytes of [src] from [n] on written over [e] at [t]. *)
Definition blit (src e : list Z) (t n i : Z) : list Z :=
  take (Z.to_nat t) e ++ subarray src n (n + i) ++ drop (Z.to_nat (t + i)) e.

Lemma subarray_at {A} (l : list A) n i j : 0 <= n -> 0 <= i -> n + i <= len l ->
  arr_get (subarray l n (n + i)) j = if (0 <=? j) && (j <? i) then arr_get l (n + j) else None.
Proof.
  intros Hn Hi Hl. unfold subarray, arr_get. destruct (Z.leb_spec 0 j); [|done]. cbn [andb].
  destruct (Z.ltb_spec j i).
  - rewrite lookup_take_lt by lia. rewrite lookup_drop. destruct (Z.leb_spec 0 (n + j)); [|lia]. f_equal. lia.
  - apply lookup_ge_None. rewrite length_take. lia.
Qed.

Lemma blit_at src e t n i j : 0 <= t -> 0 <= n -> 0 <= i -> n + i <= len src -> t + i <= len e ->
  arr_get (blit src e t n i) j = if (t <=? j) && (j <? t + i) then arr_get src (n + (j - t)) else arr_get e j.
Proof.
  intros Ht Hn Hi Hs He. unfold blit. assert (L1 : len (take (Z.to_nat t) e) = t) by (unfold len in *; rewrite length_take; lia).
  assert (L2 : len (subarray src n (n + i)) = i).
  { unfold subarray, len in *. rewrite length_take, length_drop. lia. }
  destruct (Z.lt_ge_cases j 0).
  { unfold arr_get. destruct (Z.leb_spec 0 j), (Z.leb_spec t j); done || lia. }
  destruct (Z.leb_spec t j); cbn [andb].
  - replace j with ((j - t) + len (take (Z.to_nat t) e)) at 1 by lia. rewrite arr_get_app_r by lia.
    destruct (Z.ltb_spec j (t + i)).
    + unfold arr_get at 1. destruct (Z.leb_spec 0 (j - t)); [|lia]. rewrite lookup_app_l by (unfold len in *; lia).
      assert (S := subarray_at src n i (j - t) Hn Hi Hs). destruct (Z.leb_spec 0 (j - t)), (Z.ltb_spec (j - t) i); try lia.
      cbn [andb] in S. rewrite <- S. unfold arr_get. by destruct (Z.leb_spec 0 (j - t)); [|lia].
    + replace (j - t) with ((j - t - i) + len (subarray src n (n + i))) by lia. rewrite arr_get_app_r by lia.
      unfold arr_get. destruct (Z.leb_spec 0 (j - t - i)), (Z.leb_spec 0 j); try lia. rewrite lookup_drop. f_equal. lia.
  - unfold arr_get. destruct (Z.leb_spec 0 j); [|lia]. rewrite lookup_app_l by (unfold len in *; lia).
    apply lookup_take_lt. lia.
Qed.

Lemma copy_up_ok k same src e e0 t n o : 0 <= t -> 0 <= n -> 0 <= o ->
  len e = len e0 -> n + o + Z.of_nat k <= len src -> t + o + Z.of_nat k <= len e0 ->
  (same = true -> src = e0 /\ (t <= n \/ n + o + Z.of_nat k <= t)) ->
  (∀ j, arr_get e j = if (t <=? j) && (j <? t + o) then arr_get src (n + (j - t)) else arr_get e0 j) ->
  ∀ j, arr_get (copy_up k same src e t n o) j
       = if (t <=? j) && (j <? t + (o + Z.of_nat k)) then arr_get src (n + (j - t)) else arr_get e0 j.
Proof.
  revert e o. induction k as [|k IH]; intros e o Ht Hn Ho Hl Hs He Hsame Hj j.
  { rewrite Z.add_0_r. apply Hj. }
  cbn [copy_up]. replace (o + Z.of_nat (S k)) with (o + 1 + Z.of_nat k) by lia. apply IH; clear j; try lia.
  - by rewrite len_arr_set.
  - intros E. destruct (Hsame E) as [-> ?]. split; [done|lia].
  - intros j. rewrite arr_get_set by lia.
    assert (Er : arr_get (if same then e else src) (o + n) = arr_get src (o + n)).
    { destruct same; [|done]. destruct (Hsame eq_refl) as [-> Hd]. rewrite Hj.
      destruct (Z.leb_spec t (o + n)), (Z.ltb_spec (o + n) (t + o)); try done. lia. }
    rewrite Er. destruct (Z.eqb_spec j (o + t)) as [->|Hne].
    + destruct (Z.leb_spec t (o + t)), (Z.ltb_spec (o + t) (t + (o + 1))); try lia. cbn [andb].
      rewrite <- arr_get_num by lia. f_equal. lia.
    + rewrite Hj. destruct (Z.leb_spec t j), (Z.ltb_spec j (t + o)), (Z.ltb_spec j (t + (o + 1))); done || lia.
Qed.

Lemma copy_down_ok k e e0 t n i : 0 <= n < t -> len e = len e0 -> 0 <= Z.of_nat k <= i -> t + i <= len e0 ->
  (∀ j, arr_get e j = if (t + Z.of_nat k <=? j) && (j <? t + i) then arr_get e0 (n + (j - t)) else arr_get e0 j) ->
  ∀ j, arr_get (copy_down k e t n) j = if (t <=? j) && (j <? t + i) then arr_get e0 (n + (j - t)) else arr_get e0 j.
Proof.
  intros Hn. revert e. induction k as [|k IH]; intros e Hl Hk He Hj j.
  { rewrite Z.add_0_r in Hj. apply Hj. }
  cbn [copy_down]. apply IH; clear j; try lia; [by rewrite len_arr_set|].
  intros j. rewrite arr_get_set by lia.
  assert (Er : arr_get e (Z.of_nat k + n) = arr_get e0 (Z.of_nat k + n)).
  { rewrite Hj. destruct (Z.leb_spec (t + Z.of_nat (S k)) (Z.of_nat k + n)); [lia|done]. }
  rewrite Er. destruct (Z.eqb_spec j (Z.of_nat k + t)) as [->|Hne].
  - destruct (Z.leb_spec (t + Z.of_nat k) (Z.of_nat k + t)), (Z.ltb_spec (Z.of_nat k + t) (t + i)); try lia. cbn [andb].
    rewrite <- arr_get_num by lia. f_equal. lia.
  - rewrite Hj. destruct (Z.leb_spec (t + Z.of_nat (S k)) j), (Z.leb_spec (t + Z.of_nat k) j), (Z.ltb_spec j (t + i)); done || lia.
Qed.

(** [copy] moves bytes as if through a temporary: for bounds inside the
    source and a start inside the target it copies as many of the [r - n]
    bytes as fit and leaves the rest of the target alone, also when source
    and target are the same buffer and overlap. *)
Theorem copy_moves same src e t n r : 0 <= t <= len e -> 0 <= n < r -> r <= len src -> 0 < len e ->
  (same = true -> e = src) ->
  let i := Z.min (r - n) (len e - t) in
  copy same src e (Some t) (Some n) (Some r) = Ok (i, blit src e t n i).
Proof.
  intros Ht Hn Hr He Hsame i. cbv beta zeta iota delta [copy from_option id].
  assert (Et : (if len e <=? t then len e else t) = t) by (destruct (Z.leb_spec (len e) t); lia). rewrite Et.
  destruct (Z.ltb_spec r n); [lia|]. rewrite andb_false_r.
  destruct (Z.eqb_spec r n), (Z.eqb_spec (len e) 0), (Z.eqb_spec (len src) 0), (Z.ltb_spec t 0), (Z.ltb_spec n 0),
    (Z.leb_spec (len src) n), (Z.ltb_spec r 0), (Z.ltb_spec (len src) r); try lia. cbn [orb].
  assert (Ei : (if len e - t <? r - n then len e - t + n else r) - n = i) by (destruct (Z.ltb_spec (len e - t) (r - n)); lia).
  set (r' := if len e - t <? r - n then len e - t + n else r) in *. rewrite Ei. do 2 f_equal.
  assert (G : ∀ l, (∀ j, arr_get l j = if (t <=? j) && (j <? t + i) then arr_get src (n + (j - t)) else arr_get e j) ->
    l = blit src e t n i).
  { intros l Hl. apply arr_get_ext. intros j. rewrite Hl, blit_at by lia. done. }
  destruct (same && (n <? t) && (t <? r')) eqn:Ed.
  - apply andb_prop in Ed as [Ed Hd2]. apply andb_prop in Ed as [-> Hd1].
    rewrite <- (Hsame eq_refl) in *. apply G.
    intros j. apply copy_down_ok; try lia. intros j'. rewrite Z2Nat.id by lia.
    destruct (Z.leb_spec (t + i) j'), (Z.ltb_spec j' (t + i)); done || lia.
  - destruct (Z.ltb_spec i 1000).
    + apply G. intros j. replace (t + i) with (t + (0 + Z.of_nat (Z.to_nat i))) by lia. apply copy_up_ok; try lia.
      * intros ->. split; [by rewrite Hsame|]. cbn in Ed. apply andb_false_iff in Ed. lia.
      * intros j'. destruct (Z.leb_spec t j'), (Z.ltb_spec j' (t + 0)); done || lia.
    + unfold typed_set, blit. do 3 f_equal. unfold subarray. rewrite length_take, length_drop. unfold len in *. lia.
Qed.

Lemma copy_moves_witness : copy true (js "abcdef") (js "abcdef") (Some 2) (Some 0) (Some 4) = Ok (4, js "ababcd").
Proof. apply (copy_moves true (js "abcdef") (js "abcdef") 2 0 4); try (vm_compute; intuition congruence). Defined.

(** ** Concatenation *)

(** The first [T] bytes of [l], filled up with zeros. *)
Definition padded (T : Z) (l : list Z) : list Z := take (Z.to_nat T) (l ++ replicate (Z.to_nat T) 0).

Lemma padded_at T l j : 0 <= T ->
  arr_get (padded T l) j = if (0 <=? j) && (j <? T) then (if j <? len l then arr_get l j else Some 0) else None.
Proof.
  intros HT. unfold padded, arr_get, len. destruct (Z.leb_spec 0 j); [|done]. cbn [andb].
  destruct (Z.ltb_spec j T).
  - rewrite lookup_take_lt by lia. destruct (Z.ltb_spec j (Z.of_nat (length l))).
    + by rewrite lookup_app_l by lia.
    + rewrite lookup_app_r by lia. apply lookup_replicate_2. lia.
  - apply lookup_ge_None. rewrite length_take. lia.
Qed.

Lemma len_padded T l : 0 <= T -> len (padded T l) = T.
Proof. intros HT. unfold padded, len. rewrite length_take, length_app, length_replicate. lia. Qed.

Lemma copy_padded T done a : 0 <= T ->
  ∃ i, copy false a (padded T done) (Some (len done)) None None = Ok (i, padded T (done ++ a)).
Proof.
  intros HT. assert (Hd := len_nonneg done). assert (Ha := len_nonneg a). assert (HL := len_padded T done HT).
  destruct (decide (a = [])) as [->|Hne].
  { exists 0. rewrite app_nil_r. done. }
  assert (0 < len a) by (destruct a; [done|rewrite len_cons; pose proof (len_nonneg a); lia]).
  destruct (decide (T = 0)) as [->|HT0].
  { exists 0. assert (E : ∀ l, padded 0 l = []) by done. rewrite !E. unfold copy. cbn.
    destruct (Z.ltb_spec (len a) 0); [lia|]. rewrite andb_false_r. by destruct (len a =? 0). }
  assert (Ec : copy false a (padded T done) (Some (len done)) None None
             = copy false a (padded T done) (Some (Z.min (len done) T)) (Some 0) (Some (len a))).
  { cbv beta zeta iota delta [copy from_option id]. rewrite HL.
    assert ((if T <=? len done then T else len done) = Z.min (len done) T) as -> by (destruct (Z.leb_spec T (len done)); lia).
    assert ((if T <=? Z.min (len done) T then T else Z.min (len done) T) = Z.min (len done) T) as ->
      by (destruct (Z.leb_spec T (Z.min (len done) T)); lia). done. }
  rewrite Ec, copy_moves by (rewrite ?HL; done || lia). eexists. f_equal. f_equal. apply arr_get_ext. intros j.
  rewrite HL, blit_at, !padded_at, len_app by (rewrite ?HL; lia).
  destruct (Z.leb_spec (Z.min (len done) T) j), (Z.ltb_spec j (Z.min (len done) T + Z.min (len a - 0) (T - Z.min (len done) T)));
    cbn [andb].
  - destruct (Z.leb_spec 0 j), (Z.ltb_spec j T), (Z.ltb_spec j (len done + len a)); try lia. cbn [andb].
    replace j with ((j - len done) + len done) at 2 by lia. rewrite arr_get_app_r by lia. f_equal. lia.
  - destruct (Z.leb_spec 0 j), (Z.ltb_spec j T); try done; cbn [andb].
    destruct (Z.ltb_spec j (len done)), (Z.ltb_spec j (len done + len a)); done || lia.
  - destruct (Z.leb_spec 0 j), (Z.ltb_spec j T); try done; cbn [andb].
    destruct (Z.ltb_spec j (len done)), (Z.ltb_spec j (len done + len a)); try lia.
    unfold arr_get. destruct (Z.leb_spec 0 j); [|done]. by rewrite lookup_app_l by (unfold len in *; lia).
  - lia.
Qed.

Lemma concat_loop_ok T e done : 0 <= T ->
  concat_loop e (padded T done) (len done) = Ok (padded T (done ++ concat e)).
Proof.
  intros HT. revert done. induction e as [|a e IH]; intros done; cbn [concat_loop concat]; [by rewrite app_nil_r|].
  destruct (copy_padded T done a HT) as [i ->]. cbn [result_bind]. by rewrite <- len_app, IH, <- app_assoc.
Qed.

(** [Buffer.concat] without a length is the concatenation of the buffers;
    with a length it is cut to it or filled up with zeros. *)
Theorem concat_correct e t : len (concat e) <= kMaxLength -> e <> [] -> 0 <= t <= kMaxLength ->
  buffer_concat e None = Ok (concat e) /\ buffer_concat e (Some t) = Ok (padded t (concat e)).
Proof.
  intros Hl He Ht. assert (Es : foldr (λ b s, len b + s) 0 e = len (concat e)).
  { clear. induction e as [|b e IH]; [done|]. cbn. rewrite IH, len_app. done. }
  assert (G : ∀ T, 0 <= T <= kMaxLength -> (let! r := createBuffer T in concat_loop e r 0) = Ok (padded T (concat e))).
  { intros T HT. rewrite createBuffer_ok by lia. cbn [result_bind].
    assert (E0 : replicate (Z.to_nat T) 0 = padded T []) by (unfold padded; cbn; rewrite take_ge by (rewrite length_replicate; lia); done).
    rewrite E0. apply (concat_loop_ok T e []). lia. }
  assert (Hp : padded (len (concat e)) (concat e) = concat e).
  { unfold padded, len. by rewrite Nat2Z.id, take_app_length. }
  unfold buffer_concat. destruct e as [|b e]; [done|]. rewrite Es, !G; [by rewrite Hp|lia|].
  pose proof (len_nonneg (concat (b :: e))). lia.
Qed.

Lemma concat_correct_witness : buffer_concat [js "ab"; js "c"] (Some 5) = Ok (js "abc" ++ [0; 0]).
Proof. apply (concat_correct [js "ab"; js "c"] 5); vm_compute; intuition congruence. Defined.

(** ** Comparison *)

(** Lexicographic order. *)
Fixpoint lex (e t : list Z) : comparison :=
  match e, t with
  | [], [] => Eq
  | [], _ => Lt
  | _, [] => Gt
  | x :: e, y :: t => match x ?= y with Eq => lex e t | c => c end
  end.

Lemma lex_Eq e t : lex e t = Eq <-> e = t.
Proof.
  revert t. induction e as [|x e IH]; intros [|y t]; cbn; try done.
  destruct (Z.compare_spec x y) as [->|H|H].
  - rewrite IH. split; [by intros ->|by intros [= ->]].
  - split; [done|]. intros [= -> ->]. lia.
  - split; [done|]. intros [= -> ->]. lia.
Qed.

Lemma first_diff_lex e t n r : len e - len t = n - r ->
  let '(x, y) := first_diff e t n r in
  (if x <? y then -1 else if y <? x then 1 else 0) = match lex e t with Lt => -1 | Eq => 0 | Gt => 1 end.
Proof.
  revert t. induction e as [|x e IH]; intros [|y t] H; cbn [first_diff lex]; autorewrite with js_len in H.
  - destruct (Z.ltb_spec n r), (Z.ltb_spec r n); lia.
  - pose proof (len_nonneg t). destruct (Z.ltb_spec n r), (Z.ltb_spec r n); lia.
  - pose proof (len_nonneg e). destruct (Z.ltb_spec n r), (Z.ltb_spec r n); lia.
  - destruct (Z.eqb_spec x y) as [->|Hn].
    + rewrite Z.compare_refl. apply IH. lia.
    + destruct (Z.compare_spec x y); [done| |]; destruct (Z.ltb_spec x y), (Z.ltb_spec y x); lia.
Qed.

Lemma slice_inside b r o : 0 <= r <= o -> o <= len b -> len b <= kMaxLength -> slice b r (Some o) = subarray b r o.
Proof.
  intros Hr Ho Hb. unfold kMaxLength in Hb. unfold slice, slice_bound. rewrite !to_int32_id by lia.
  destruct (Z.ltb_spec r 0), (Z.ltb_spec (len b) r), (Z.ltb_spec o 0), (Z.ltb_spec (len b) o), (Z.ltb_spec o r); done || lia.
Qed.

(** [Buffer.compare] is the lexicographic order of the bytes, [equals]
    is equality, and comparing ranges compares the bytes of the ranges. *)
Theorem compare_lexicographic e t r o n m : 0 <= r < o -> o <= len e -> 0 <= n < m -> m <= len t ->
  len e <= kMaxLength -> len t <= kMaxLength ->
  compare e t = match lex e t with Lt => -1 | Eq => 0 | Gt => 1 end /\
  (equals e t = true <-> e = t) /\
  compare_range e t (Some n) (Some m) (Some r) (Some o) = Ok (compare (subarray e r o) (subarray t n m)).
Proof.
  intros Hr Ho Hn Hm He Ht.
  assert (C : ∀ a b, compare a b = match lex a b with Lt => -1 | Eq => 0 | Gt => 1 end).
  { intros a b. unfold compare. assert (F := first_diff_lex a b (len a) (len b) eq_refl).
    by destruct (first_diff a b (len a) (len b)). }
  split_and!; [apply C| |].
  - unfold equals. rewrite C, <- lex_Eq. destruct (lex e t); split; done.
  - cbv beta zeta iota delta [compare_range from_option id].
    destruct (Z.ltb_spec n 0), (Z.ltb_spec (len t) m), (Z.ltb_spec r 0), (Z.ltb_spec (len e) o), (Z.leb_spec o r),
      (Z.leb_spec m n); try lia. cbn [orb andb]. rewrite !slice_inside by lia. unfold compare.
    assert (L : ∀ (l : list Z) a b, 0 <= a -> b <= len l -> a < b -> len (subarray l a b) = b - a).
    { intros l a b ? ? ?. unfold subarray, len in *. rewrite length_take, length_drop. lia. }
    rewrite !L by lia. by destruct (first_diff _ _ _ _).
Qed.

Lemma compare_lexicographic_witness : compare (js "abc") (js "abd") = -1 /\ 0 <= 0 < 1.
Proof.
  assert (C := compare_lexicographic (js "abc") (js "abd") 0 1 0 1 ltac:(lia) ltac:(discriminate) ltac:(lia)
    ltac:(discriminate) ltac:(discriminate) ltac:(discriminate)).
  split; [exact (proj1 C)|lia].
Defined.

(** ** Byte swapping *)

Lemma arr_set_app (p l : list Z) i x : 0 <= i -> arr_set (p ++ l) (len p + i) x = p ++ arr_set l i x.
Proof.
  intros Hi. unfold arr_set. destruct (Z.leb_spec 0 i), (Z.leb_spec 0 (len p + i)); try (unfold len in *; lia).
  rewrite insert_app_r_alt by (unfold len; lia). do 2 f_equal. unfold len. lia.
Qed.

Lemma swap_app p l i j : 0 <= i -> 0 <= j -> swap (p ++ l) (len p + i) (len p + j) = p ++ swap l i j.
Proof.
  intros Hi Hj. unfold swap. rewrite !(Z.add_comm (len p)), !arr_get_app_r by done.
  by rewrite !(Z.add_comm _ (len p)), !arr_set_app by done.
Qed.

Lemma swap_app_0 p l j : 0 <= j -> swap (p ++ l) (len p) (len p + j) = p ++ swap l 0 j.
Proof. intros Hj. rewrite <- (Z.add_0_r (len p)) at 1. by apply swap_app. Qed.

(** A loop that reverses each group of [k] bytes. *)
Lemma swap_groups (f : list Z -> Z -> list Z) k : 0 < k ->
  (∀ p g l, len g = k -> f (p ++ g ++ l) (len p) = p ++ reverse g ++ l) ->
  ∀ gs p, Forall (λ g, len g = k) gs ->
  fold_left f (for_range (len p) (len (p ++ concat gs)) k) (p ++ concat gs) = p ++ concat (reverse <$> gs).
Proof.
  intros Hk Hf gs p Hgs. revert p. induction Hgs as [|g gs Hg _ IH]; intros p.
  { cbn. by rewrite app_nil_r, for_range_nil by lia. }
  cbn [concat]. pose proof (len_nonneg (concat gs)). rewrite for_range_cons by (rewrite ?len_app; lia).
  cbn [fold_left]. rewrite Hf by done. assert (Hl : len (reverse g) = k) by (unfold len in *; by rewrite length_reverse).
  specialize (IH (p ++ reverse g)). rewrite <- !app_assoc in IH. rewrite !len_app, Hl in IH. rewrite !len_app, Hg.
  by rewrite IH.
Qed.

(** [swap16], [swap32] and [swap64] reverse the bytes of each group of 2,
    4 or 8, so that each undoes itself, and reject other lengths. *)
Theorem swap_reverses gs k : Forall (λ g : list Z, len g = k) gs -> k = 2 \/ k = 4 \/ k = 8 ->
  (if k =? 2 then swap16 else if k =? 4 then swap32 else swap64) (concat gs) = Ok (concat (reverse <$> gs)).
Proof.
  intros Hg Hk. assert (Hm : len (concat gs) mod k = 0).
  { clear -Hg Hk. induction Hg as [|g gs Hg _ IH]; [by destruct Hk as [->|[->| ->]]|].
    cbn. rewrite len_app, Hg, <- Zplus_mod_idemp_r, IH, Z.add_0_r. apply Z_mod_same_full. }
  assert (G : ∀ f, (∀ p g l, len g = k -> f (p ++ g ++ l) (len p) = p ++ reverse g ++ l) ->
    fold_left f (for_range 0 (len (concat gs)) k) (concat gs) = concat (reverse <$> gs)).
  { intros f Hf. apply (swap_groups f k ltac:(lia) Hf gs [] Hg). }
  destruct Hk as [->|[->| ->]]; cbn [Z.eqb Pos.eqb]; unfold swap16, swap32, swap64; rewrite Hm; cbn [negb Z.eqb]; f_equal;
    apply G; intros p g l Hl.
  - destruct g as [|a [|b [|]]]; try (unfold len in Hl; cbn in Hl; lia). by rewrite swap_app_0 by lia.
  - destruct g as [|a [|b [|c [|d [|]]]]]; try (unfold len in Hl; cbn in Hl; lia).
    by rewrite swap_app_0, swap_app by lia.
  - destruct g as [|a [|b [|c [|d [|a' [|b' [|c' [|d' [|]]]]]]]]]; try (unfold len in Hl; cbn in Hl; lia).
    by rewrite swap_app_0, !swap_app by lia.
Qed.

Lemma swap_reverses_witness : swap32 (js "abcdefgh") = Ok (js "dcbahgfe").
Proof.
  apply (swap_reverses [js "abcd"; js "efgh"] 4); [repeat constructor|right; left; reflexivity].
Defined.

End BufferOps.
