(* ===== verification/StringDecoder.v ===== *)
(** The streaming decoder of the bundle, [StringDecoder]
    (client/docs/swagger-ui/swagger-ui-bundle.js, lines 10563-10714): bytes
    arrive in chunks, incomplete characters are kept between chunks. *)

From stdpp Require Import base list list_numbers numbers strings gmap.
From Stdlib Require Import ZArith Lia.
From S2P Require Import Prelude Base64 Buffer BufferText BufferOps.

Module StringDecoder.
Import Base64 Buffer BufferText BufferOps.

(** The state of a decoder: its encoding, the number of bytes missing of the
    character kept, its total size and its bytes. *)
Record decoder := Dec {
  encoding : list Z;
  lastNeed : Z;
  lastTotal : Z;
  lastChar : list Z
}.

Definition set_need (d : decoder) (n : Z) : decoder := Dec (encoding d) n (lastTotal d) (lastChar d).
Definition set_last (d : decoder) (n t : Z) (c : list Z) : decoder := Dec (encoding d) n t c.

(** The inner [for (;;) switch]: the canonical name. *)
Definition normalize_case (e : list Z) : option (list Z) :=
  if decide (e = js "utf8" \/ e = js "utf-8") then Some (js "utf8")
  else if decide (e = js "ucs2" \/ e = js "ucs-2" \/ e = js "utf16le" \/ e = js "utf-16le") then Some (js "utf16le")
  else if decide (e = js "latin1" \/ e = js "binary") then Some (js "latin1")
  else if decide (e = js "base64" \/ e = js "ascii" \/ e = js "hex") then Some e
  else None.

Definition normalizeEncoding (e : option (list Z)) : result (list Z) :=
  match e with
  | None | Some [] => Ok (js "utf8")
  | Some e =>
      match normalize_case e with
      | Some t => Ok t
      | None =>
          match normalize_case (to_lower e) with
          | Some t => Ok t
          | None => Throw (PlainError (js "Unknown encoding: " ++ e))
          end
      end
  end.

(** [i(e)] *)
Definition make (e : option (list Z)) : result decoder :=
  let! enc := normalizeEncoding e in
  Ok (Dec enc 0 0
        (if decide (enc = js "utf16le" \/ enc = js "utf8") then replicate 4 0
         else if decide (enc = js "base64") then replicate 3 0 else [])).

(** [a(e)] *)
Definition utf8CheckByte (e : Z) : Z :=
  if e <=? 127 then 0
  else if (e .>> 5) =? 6 then 2
  else if (e .>> 4) =? 14 then 3
  else if (e .>> 3) =? 30 then 4
  else if (e .>> 6) =? 2 then -1
  else -2.

(** The check of the continuation bytes in [u]; [None]: all is well so far. *)
Definition utf8CheckExtraBytes (d : decoder) (t : list Z) : option decoder :=
  if negb ((192 .& num (arr_get t 0)) =? 128) then Some (set_need d 0)
  else if (1 <? lastNeed d) && (1 <? len t) then
    if negb ((192 .& num (arr_get t 1)) =? 128) then Some (set_need d 1)
    else if (2 <? lastNeed d) && (2 <? len t) && negb ((192 .& num (arr_get t 2)) =? 128)
    then Some (set_need d 2)
    else None
  else None.

(** The common end of [u] and [fillLast]: [None] when the character is still
    incomplete. *)
Definition fill_rest (d : decoder) (t : Z) (e : list Z) : result (option (list Z) * decoder) :=
  if lastNeed d <=? len e then
    let! (_, c) := copy false e (lastChar d) (Some t) (Some 0) (Some (lastNeed d)) in
    let d := set_last d (lastNeed d) (lastTotal d) c in
    let! s := toString c (Some (encoding d)) (Some 0) (Some (lastTotal d)) in
    Ok (Some s, d)
  else
    let! (_, c) := copy false e (lastChar d) (Some t) (Some 0) (Some (len e)) in
    Ok (None, set_last d (lastNeed d - len e) (lastTotal d) c).

Definition fillLast (d : decoder) (e : list Z) : result (option (list Z) * decoder) :=
  let t := lastTotal d - lastNeed d in
  if decide (encoding d = js "utf8") then
    match utf8CheckExtraBytes d e with
    | Some d => Ok (Some [65533], d)
    | None => fill_rest d t e
    end
  else fill_rest d t e.

(** The look at the last three bytes in [text]: the size of the character cut
    off at the end, and [lastNeed]. *)
Definition utf8CheckIncomplete (d : decoder) (t : list Z) (n : Z) : Z * decoder :=
  let r := len t - 1 in
  if r <? n then (0, d) else
  let o := utf8CheckByte (num (arr_get t r)) in
  if 0 <=? o then (o, if 0 <? o then set_need d (o - 1) else d) else
  let r := r - 1 in
  if (r <? n) || (o =? -2) then (0, d) else
  let o := utf8CheckByte (num (arr_get t r)) in
  if 0 <=? o then (o, if 0 <? o then set_need d (o - 2) else d) else
  let r := r - 1 in
  if (r <? n) || (o =? -2) then (0, d) else
  let o := utf8CheckByte (num (arr_get t r)) in
  if 0 <=? o then (if 0 <? o then (if o =? 2 then (0, d) else (o, set_need d (o - 3))) else (o, d))
  else (0, d).

(** [i.prototype.text] *)
Definition utf8Text (d : decoder) (e : list Z) (t : Z) : result (list Z * decoder) :=
  let '(n, d) := utf8CheckIncomplete d e t in
  if lastNeed d =? 0 then let! s := toString e (Some (js "utf8")) (Some t) None in Ok (s, d)
  else
    let d := set_last d (lastNeed d) n (lastChar d) in
    let r := len e - (n - lastNeed d) in
    let! (_, c) := copy false e (lastChar d) (Some 0) (Some r) None in
    let! s := toString e (Some (js "utf8")) (Some t) (Some r) in
    Ok (s, set_last d (lastNeed d) (lastTotal d) c).

(** [s(e, t)] *)
Definition utf16Text (d : decoder) (e : list Z) (t : Z) : result (list Z * decoder) :=
  if (len e - t) mod 2 =? 0 then
    let! n := toString e (Some (js "utf16le")) (Some t) None in
    let r := num (arr_get n (len n - 1)) in
    if negb (len n =? 0) && (55296 <=? r) && (r <=? 56319) then
      Ok (take (length n - 1) n,
          set_last d 2 4 (arr_set (arr_set (lastChar d) 0 (num (arr_get e (len e - 2)))) 1 (num (arr_get e (len e - 1)))))
    else Ok (n, d)
  else
    let! s := toString e (Some (js "utf16le")) (Some t) (Some (len e - 1)) in
    Ok (s, set_last d 1 2 (arr_set (lastChar d) 0 (num (arr_get e (len e - 1))))).

(** [c(e, t)] *)
Definition base64Text (d : decoder) (e : list Z) (t : Z) : result (list Z * decoder) :=
  let n := (len e - t) mod 3 in
  if n =? 0 then let! s := toString e (Some (js "base64")) (Some t) None in Ok (s, d)
  else
    let c := if n =? 1 then arr_set (lastChar d) 0 (num (arr_get e (len e - 1)))
             else arr_set (arr_set (lastChar d) 0 (num (arr_get e (len e - 2)))) 1 (num (arr_get e (len e - 1))) in
    let! s := toString e (Some (js "base64")) (Some t) (Some (len e - n)) in
    Ok (s, set_last d (3 - n) 3 c).

Definition text (d : decoder) (e : list Z) (t : Z) : result (list Z * decoder) :=
  if decide (encoding d = js "utf16le") then utf16Text d e t
  else if decide (encoding d = js "base64") then base64Text d e t
  else utf8Text d e t.

(** The encodings whose characters are single bytes: [write] is [p]. *)
Definition simple (d : decoder) : bool :=
  if decide (encoding d = js "utf16le" \/ encoding d = js "utf8" \/ encoding d = js "base64") then false else true.

(** [i.prototype.write] and [p] *)
Definition write (d : decoder) (e : list Z) : result (list Z * decoder) :=
  if simple d then let! s := toString e (Some (encoding d)) None None in Ok (s, d)
  else if len e =? 0 then Ok ([], d)
  else
    let! (t, n, d) :=
      (if lastNeed d =? 0 then Ok (Some [], 0, d)
       else let! (t, d) := fillLast d e in
            match t with
            | None => Ok (None, 0, d)
            | Some t => Ok (Some t, lastNeed d, set_need d 0)
            end) in
    match t with
    | None => Ok ([], d)
    | Some t =>
        if n <? len e then let! (s, d) := text d e n in Ok (t ++ s, d)
        else Ok (t, d)
    end.

(** [end]: [i.prototype.end], [l], [f] and [d] *)
Definition end_ (d : decoder) (e : list Z) : result (list Z * decoder) :=
  let! (t, d) := (if len e =? 0 then Ok ([], d) else write d e) in
  if simple d then Ok (t, d)
  else if lastNeed d =? 0 then Ok (t, d)
  else if decide (encoding d = js "utf16le") then
    let! s := toString (lastChar d) (Some (js "utf16le")) (Some 0) (Some (lastTotal d - lastNeed d)) in Ok (t ++ s, d)
  else if decide (encoding d = js "base64") then
    let! s := toString (lastChar d) (Some (js "base64")) (Some 0) (Some (3 - lastNeed d)) in Ok (t ++ s, d)
  else Ok (t ++ [65533], d).

(** A stream: the chunks written in turn, then [end()]. *)
Fixpoint write_all (d : decoder) (chunks : list (list Z)) : result (list Z * decoder) :=
  match chunks with
  | [] => Ok ([], d)
  | e :: chunks =>
      let! (s, d) := write d e in
      let! (s', d) := write_all d chunks in
      Ok (s ++ s', d)
  end.
Definition decode_stream (enc : option (list Z)) (chunks : list (list Z)) : result (list Z) :=
  let! d := make enc in
  let! (s, d) := write_all d chunks in
  let! (s', _) := end_ d [] in
  Ok (s ++ s').

Example stream_utf8 : decode_stream None [[226]; [130]; [172; 240; 157]; [132; 158; 97]] = Ok [8364; 55348; 56606; 97].
Proof. vm_compute. reflexivity. Qed.
Example stream_utf16 : decode_stream (Some (js "UCS-2")) [[97]; [0; 52]; [216; 30]; [221]] = Ok [97; 55348; 56606].
Proof. vm_compute. reflexivity. Qed.
Example stream_base64 : decode_stream (Some (js "base64")) [js "u"; js "ser:"; js "pass"] = Ok (js "dXNlcjpwYXNz").
Proof. vm_compute. reflexivity. Qed.
Example stream_cut : decode_stream None [[226; 130]] = Ok [65533].
Proof. vm_compute. reflexivity. Qed.

(** ** Reading parts of a buffer *)

Lemma toString_range b t n : 0 <= t <= n -> n <= len b -> len b <= kMaxLength ->
  toString b (Some (js "utf8")) (Some t) (Some n) = Ok (if t =? n then [] else utf8Slice b t n).
Proof.
  intros Ht Hn Hb. unfold toString, kMaxLength in *.
  destruct (Z.eqb_spec (len b) 0), (Z.ltb_spec t 0), (Z.ltb_spec (len b) t), (Z.ltb_spec (len b) n); try lia.
  { by replace t with n by lia; rewrite Z.eqb_refl. }
  destruct (Z.leb_spec n 0).
  { by replace t with n by lia; rewrite Z.eqb_refl. }
  rewrite !shr_div, !Z.div_1_r by lia. destruct (Z.leb_spec n t), (Z.eqb_spec t n); try done; lia.
Qed.

Lemma toString_rest b t : 0 <= t <= len b -> len b <= kMaxLength ->
  toString b (Some (js "utf8")) (Some t) None = toString b (Some (js "utf8")) (Some t) (Some (len b)).
Proof. intros Ht Hb. unfold toString. by rewrite Z.ltb_irrefl. Qed.

(** Decoding a text between other bytes. *)
Lemma utf8_slice_loop_between cs p s fuel : Forall is_scalar cs -> (length (utf8_text cs) <= fuel)%nat ->
  utf8_slice_loop fuel (p ++ utf8_text cs ++ s) (len p) (len p + len (utf8_text cs)) = utf16_text cs.
Proof.
  intros H. revert p fuel. induction H as [|c cs Hc _ IH]; intros p fuel; cbn [fmap list_fmap concat].
  - intros _. destruct fuel; [done|]. cbn. rewrite Z.add_0_r. by rewrite Z.ltb_irrefl.
  - intros Hf. destruct (utf8_of_facts c Hc) as (_ & _ & Hpos). pose proof (len_nonneg (utf8_text cs)).
    destruct fuel as [|fuel]; [rewrite length_app in Hf; unfold len in Hpos; lia|].
    cbn [utf8_slice_loop]. rewrite len_app.
    destruct (Z.ltb_spec (len p) (len p + (len (utf8_of c) + len (utf8_text cs)))); [|lia].
    pose proof (decode_step_prefix p ((utf8_of c ++ utf8_text cs) ++ s) 0 (len (utf8_of c) + len (utf8_text cs)) ltac:(lia)) as E.
    rewrite Z.add_0_l, (Z.add_comm _ (len p)) in E.
    rewrite E, <- app_assoc, decode_step_scalar by (done || lia).
    f_equal. specialize (IH (p ++ utf8_of c) fuel). rewrite len_app, <- app_assoc in IH. rewrite Z.add_assoc.
    apply IH. rewrite length_app in Hf. unfold len in Hpos. lia.
Qed.

Lemma toString_between cs p s : Forall is_scalar cs -> len (p ++ utf8_text cs ++ s) <= kMaxLength ->
  toString (p ++ utf8_text cs ++ s) (Some (js "utf8")) (Some (len p)) (Some (len p + len (utf8_text cs)))
  = Ok (utf16_text cs).
Proof.
  intros Hc Hm. pose proof (len_nonneg p). pose proof (len_nonneg (utf8_text cs)). pose proof (len_nonneg s).
  rewrite toString_range by (rewrite ?len_app in *; lia). f_equal. destruct (Z.eqb_spec (len p) (len p + len (utf8_text cs))).
  - destruct Hc as [|c cs Hc]; [done|]. destruct (utf8_of_facts c Hc) as (_ & _ & Hpos). cbn in *.
    rewrite len_app in *. pose proof (len_nonneg (utf8_text cs)). lia.
  - unfold utf8Slice. rewrite !len_app, Z.min_r, decodeCodePointsArray_id by lia.
    apply utf8_slice_loop_between; [done|]. unfold len. lia.
Qed.

(** ** The look at the end of a chunk *)

Lemma tail_read {A} (p l : list A) k : 0 <= k <= len l -> arr_get (p ++ l) (len (p ++ l) - k) = arr_get l (len l - k).
Proof. intros Hk. rewrite len_app. replace (len p + len l - k) with ((len l - k) + len p) by lia. apply arr_get_app_r. lia. Qed.

Lemma check_byte e : is_byte e -> utf8CheckByte e =
  if e <? 128 then 0 else if e <? 192 then -1 else if e <? 224 then 2 else if e <? 240 then 3 else if e <? 248 then 4 else -2.
Proof.
  intros He. unfold utf8CheckByte. rewrite !sar_div by lia.
  change (2 ^ 5) with 32. change (2 ^ 4) with 16. change (2 ^ 3) with 8. change (2 ^ 6) with 64.
  bool_cases; done || zdm.
Qed.

(** The bytes of a character: a lead byte that tells their number and
    continuation bytes. *)
Lemma utf8_of_shape c : is_scalar c ->
  ∃ b0 bs, utf8_of c = b0 :: bs /\ utf8CheckByte b0 = (if len bs =? 0 then 0 else len bs + 1) /\
    Forall (λ b, utf8CheckByte b = -1 /\ (192 .& b) = 128) bs /\ len bs <= 3.
Proof.
  intros Hc. destruct (utf8_of_facts c Hc) as (Hb & _ & _). unfold is_scalar in Hc.
  assert (Hcont : ∀ x, 0 <= x < 64 -> utf8CheckByte (128 + x) = -1 /\ (192 .& (128 + x)) = 128).
  { intros x Hx. split; [rewrite check_byte by lia; bool_cases; done|].
    assert (C := is_cont_tail x Hx). unfold is_cont in C. lia. }
  unfold utf8_of in *. bool_cases; eexists _, _; (split; [done|]); apply Forall_cons in Hb as [Hb0 _].
  all: split; [rewrite check_byte by done; cbn; bool_cases; done|].
  all: split; [|unfold len; cbn; lia].
  - apply Forall_nil_2.
  - apply Forall_singleton, Hcont. zdm.
  - repeat apply Forall_cons_2; try apply Forall_nil_2; apply Hcont; zdm.
  - repeat apply Forall_cons_2; try apply Forall_nil_2; apply Hcont; zdm.
Qed.

Lemma set_need_id d : lastNeed d = 0 -> set_need d 0 = d.
Proof. destruct d as [? n ? ?]. cbn. by intros ->. Qed.

Section incomplete.
Context (d : decoder) (p : list Z) (n : Z).
Hypothesis (Hn : 0 <= n <= len p).

Lemma incomplete_unfold l : l <> [] -> utf8CheckIncomplete d (p ++ l) n =
  let c k := utf8CheckByte (num (arr_get l (len l - k))) in
  if 0 <=? c 1 then (c 1, if 0 <? c 1 then set_need d (c 1 - 1) else d) else
  if (len (p ++ l) - 2 <? n) || (c 1 =? -2) then (0, d) else
  let c2 := utf8CheckByte (num (arr_get (p ++ l) (len (p ++ l) - 2))) in
  if 0 <=? c2 then (c2, if 0 <? c2 then set_need d (c2 - 2) else d) else
  if (len (p ++ l) - 3 <? n) || (c2 =? -2) then (0, d) else
  let c3 := utf8CheckByte (num (arr_get (p ++ l) (len (p ++ l) - 3))) in
  if 0 <=? c3 then (if 0 <? c3 then (if c3 =? 2 then (0, d) else (c3, set_need d (c3 - 3))) else (c3, d)) else (0, d).
Proof using Hn.
  intros Hl. assert (0 < len l) by (destruct l; [done|rewrite len_cons; pose proof (len_nonneg l); lia]).
  unfold utf8CheckIncomplete. cbv zeta. rewrite (tail_read p l 1) by lia. rewrite len_app.
  destruct (Z.ltb_spec (len p + len l - 1) n); [lia|].
  replace (len p + len l - 1 - 1) with (len p + len l - 2) by lia.
  replace (len p + len l - 2 - 1) with (len p + len l - 3) by lia. done.
Qed.

(** Evaluates the look at the end of [p ++ l] for a literal [l]. *)
Ltac look :=
  rewrite incomplete_unfold by done; cbv beta zeta;
  rewrite ?(tail_read p _ 2), ?(tail_read p _ 3) by (unfold len; cbn; lia); arr_reads;
  repeat match goal with
  | H : utf8CheckByte ?b = ?x |- context [utf8CheckByte ?b] => rewrite H; cbn [Z.leb Z.ltb Z.eqb Z.compare Pos.eqb orb]
  | |- context [?a - ?k <? n] =>
      replace (a - k <? n) with false by (symmetry; apply Z.ltb_ge; rewrite len_app; unfold len in *; cbn in *; lia)
  end.

(** After a complete character nothing is kept. *)
Lemma check_complete c : is_scalar c -> lastNeed d = 0 ->
  snd (utf8CheckIncomplete d (p ++ utf8_of c) n) = d.
Proof using Hn.
  intros Hc Hd. destruct (utf8_of_shape c Hc) as (b0 & bs & -> & H0 & Hbs & Hlen). assert (Hs := set_need_id d Hd).
  destruct bs as [|b1 [|b2 [|b3 [|]]]]; try (unfold len in Hlen; cbn in Hlen; lia);
    repeat match goal with H : Forall _ (_ :: _) |- _ => apply Forall_cons in H as [[? _] H] end; unfold len in H0; cbn [length] in H0; match type of H0 with _ = ?x => let y := eval vm_compute in x in change x with y in H0 end.
  - by look.
  - by look.
  - by look.
  - by look.
Qed.

(** After an incomplete one its size and the number of bytes missing are. *)
Lemma check_cut c q u : is_scalar c -> utf8_of c = q ++ u -> q <> [] -> u <> [] ->
  utf8CheckIncomplete d (p ++ q) n = (len (utf8_of c), set_need d (len (utf8_of c) - len q)).
Proof using Hn.
  intros Hc Hqu Hq Hu. destruct (utf8_of_shape c Hc) as (b0 & bs & E & H0 & Hbs & Hlen). rewrite E in *.
  destruct q as [|b q]; [done|]. injection Hqu as <- Hqu.
  destruct bs as [|b1 [|b2 [|b3 [|]]]]; try (unfold len in Hlen; cbn in Hlen; lia);
    repeat match goal with H : Forall _ (_ :: _) |- _ => apply Forall_cons in H as [[? _] H] end; unfold len in H0; cbn [length] in H0; match type of H0 with _ = ?x => let y := eval vm_compute in x in change x with y in H0 end.
  - by destruct q.
  - destruct q as [|x [|]]; [look; done|..]; injection Hqu as <- Hqu; by destruct u.
  - destruct q as [|x [|y [|]]]; [look; done|injection Hqu as <- Hqu; look; done|..].
    all: injection Hqu as <- <- Hqu; by destruct u.
  - destruct q as [|x [|y [|z [|]]]]; [look; done|injection Hqu as <- Hqu; look; done|injection Hqu as <- <- Hqu; look; done|..].
    all: injection Hqu as <- <- <- Hqu; by destruct u.
Qed.

End incomplete.

(** ** One chunk *)

(** A prefix of a text is whole characters and the beginning of one. *)
Lemma text_split cs e R : Forall is_scalar cs -> e ++ R = utf8_text cs ->
  ∃ done cs' q, cs = done ++ cs' /\ e = utf8_text done ++ q /\
    ((q = [] /\ R = utf8_text cs') \/
     ∃ c cs'' u, cs' = c :: cs'' /\ q <> [] /\ u <> [] /\ utf8_of c = q ++ u /\ R = u ++ utf8_text cs'').
Proof.
  intros H. revert e. induction H as [|c cs Hc _ IH]; intros e E; cbn [fmap list_fmap concat] in E.
  { apply app_eq_nil in E as [-> ->]. exists [], [], []. eauto 10. }
  destruct (app_eq_inv _ _ _ _ E) as [(k & -> & E')|(k & E1 & E2)].
  - destruct (IH k (eq_sym E')) as (dn & cs' & q & -> & -> & Hq). exists (c :: dn), cs', q.
    split_and!; [done| |done]. cbn. by rewrite app_assoc.
  - destruct (decide (e = [])) as [->|He].
    + exists [], (c :: cs), []. split_and!; [done|done|]. left. split; [done|]. cbn. by rewrite E1.
    + destruct (decide (k = [])) as [->|Hk].
      * exists [c], cs, []. split_and!; [done|cbn; by rewrite E1, !app_nil_r|]. left. by rewrite E2.
      * exists [], (c :: cs), e. split_and!; [done|done|]. right. by exists c, cs, k.
Qed.

(** What the decoder keeps: the bytes [q] of the next character of the rest
    [cs] of the text. *)
Definition kept (d : decoder) (q : list Z) (cs : list Z) : Prop :=
  encoding d = js "utf8" /\ len (lastChar d) = 4 /\
  ((q = [] /\ lastNeed d = 0) \/
   ∃ c cs' u, cs = c :: cs' /\ q <> [] /\ u <> [] /\ utf8_of c = q ++ u /\
     lastNeed d = len u /\ lastTotal d = len (utf8_of c) /\ take (length q) (lastChar d) = q).

Lemma len_pos {A} (l : list A) : l <> [] -> 0 < len l.
Proof. destruct l; [done|]. intros _. rewrite len_cons. pose proof (len_nonneg l). lia. Qed.

Lemma utf8_of_len4 c : is_scalar c -> len (utf8_of c) <= 4.
Proof. intros Hc. destruct (utf8_of_shape c Hc) as (b0 & bs & -> & _ & _ & ?). rewrite len_cons. lia. Qed.

Lemma utf8Text_ok d pre e R cs : encoding d = js "utf8" -> len (lastChar d) = 4 -> lastNeed d = 0 ->
  Forall is_scalar cs -> e <> [] -> e ++ R = utf8_text cs -> len (pre ++ e) <= kMaxLength ->
  ∃ done cs' q d', cs = done ++ cs' /\ utf8Text d (pre ++ e) (len pre) = Ok (utf16_text done, d') /\
    kept d' q cs' /\ q ++ R = utf8_text cs'.
Proof.
  intros Henc Hl4 Hn Hcs He HR Hm.
  destruct (text_split cs e R Hcs HR) as (dn & cs' & q & -> & -> & Hq). apply Forall_app in Hcs as [Hdn Hcs'].
  pose proof (len_nonneg pre). pose proof (len_nonneg (utf8_text dn)). pose proof (len_nonneg q).
  exists dn, cs', q. unfold utf8Text.
  destruct Hq as [[-> ->]|(c & cs'' & u & -> & Hq & Hu & Hc & ->)].
  - rewrite app_nil_r in *. exists d. split_and!; [done| |unfold kept; auto|done].
    destruct dn as [|c dn _] using rev_ind; [done|]. apply Forall_app in Hdn as [Hdn' Hc].
    apply Forall_cons in Hc as [Hc _].
    assert (Hck : snd (utf8CheckIncomplete d (pre ++ utf8_text (dn ++ [c])) (len pre)) = d).
    { rewrite fmap_app, concat_app. cbn. rewrite app_nil_r, app_assoc. refine (check_complete d _ _ _ c Hc Hn).
      rewrite len_app. pose proof (len_nonneg (utf8_text dn)). lia. }
    destruct (utf8CheckIncomplete _ _ _) as [m d']. cbn in Hck. subst d'. rewrite Hn. cbn [Z.eqb].
    rewrite toString_rest by (rewrite ?len_app in *; lia). rewrite len_app.
    rewrite <- (app_nil_r (utf8_text (dn ++ [c]))) at 1. rewrite toString_between; [done| |by rewrite app_nil_r].
    apply Forall_app. split; [done|by apply Forall_singleton].
  - apply Forall_cons in Hcs' as [Hsc _]. assert (L4 := utf8_of_len4 c Hsc). rewrite Hc, len_app in L4.
    assert (Hlq := len_pos q Hq). assert (Hlu := len_pos u Hu).
    rewrite app_assoc. rewrite (check_cut d (pre ++ utf8_text dn) (len pre) ltac:(rewrite len_app; lia) c q u) by done.
    rewrite Hc. replace (len (q ++ u) - len q) with (len u) by (rewrite len_app; lia).
    cbn [set_need set_last lastNeed lastTotal lastChar encoding].
    destruct (Z.eqb_spec (len u) 0); [lia|].
    replace (len ((pre ++ utf8_text dn) ++ q) - (len (q ++ u) - len u)) with (len (pre ++ utf8_text dn))
      by (rewrite !len_app; lia).
    change (copy false ?a ?b ?t ?n None) with (copy false a b t n (Some (len a))).
    rewrite copy_moves by (rewrite ?len_app in *; done || lia). cbn [result_bind].
    rewrite len_app, <- app_assoc, toString_between by done. cbn [result_bind].
    eexists. split_and!; [done|done| |by cbn; rewrite Hc, <- app_assoc].
    replace (Z.min _ _) with (len q) by (rewrite !len_app; lia).
    assert (Eb : blit (pre ++ utf8_text dn ++ q) (lastChar d) 0 (len pre + len (utf8_text dn)) (len q)
                 = q ++ drop (length q) (lastChar d)).
    { unfold blit. change (Z.to_nat 0) with 0%nat. rewrite take_0. cbn [app]. f_equal.
      - rewrite <- len_app. unfold subarray. rewrite app_assoc.
        replace (Z.to_nat (len (pre ++ utf8_text dn))) with (length (pre ++ utf8_text dn)) by (unfold len; lia).
        rewrite drop_app_length. apply take_ge. unfold len. lia.
      - f_equal. unfold len. lia. }
    rewrite Eb. unfold kept. cbn [set_last encoding lastNeed lastTotal lastChar]. split_and!; [done| |].
    + rewrite len_app. unfold len in *. rewrite length_drop. lia.
    + right. exists c, cs'', u. rewrite take_app_length, Hc. done.
Qed.

(** The continuation bytes of a character pass the check. *)
Lemma check_extra d c q u e R : is_scalar c -> utf8_of c = q ++ u -> q <> [] -> u <> [] -> lastNeed d = len u ->
  e <> [] -> e `prefix_of` u ++ R -> utf8CheckExtraBytes d e = None.
Proof.
  intros Hc Hqu Hq Hu Hn He [k Hk]. destruct (utf8_of_shape c Hc) as (b0 & bs & E & _ & Hbs & _).
  destruct q as [|b q]; [done|]. rewrite Hqu in E. injection E as -> E. rewrite <- E in Hbs. apply Forall_app in Hbs as [_ Hbs].
  assert (Hat : ∀ i, 0 <= i < len u -> i < len e -> (192 .& num (arr_get e i)) = 128).
  { intros i Hi Hie. assert (G : arr_get e i = arr_get u i).
    { unfold arr_get. destruct (Z.leb_spec 0 i); [|done]. rewrite <- (lookup_app_l e k) by (unfold len in *; lia).
      rewrite <- Hk. apply lookup_app_l. unfold len in *. lia. }
    rewrite G. unfold arr_get. destruct (Z.leb_spec 0 i); [|lia].
    destruct (u !! Z.to_nat i) as [x|] eqn:Ex; [|apply lookup_ge_None in Ex; unfold len in *; lia].
    cbn. by apply (Forall_lookup_1 _ _ _ _ Hbs Ex). }
  assert (Hlu := len_pos u Hu). assert (Hle := len_pos e He). unfold utf8CheckExtraBytes. rewrite Hn.
  rewrite (Hat 0) by lia. cbn [Z.eqb Pos.eqb negb].
  destruct (Z.ltb_spec 1 (len u)), (Z.ltb_spec 1 (len e)); cbn [andb]; try done.
  rewrite (Hat 1) by lia. cbn [Z.eqb Pos.eqb negb].
  destruct (Z.ltb_spec 2 (len u)), (Z.ltb_spec 2 (len e)); cbn [andb]; try done.
  by rewrite (Hat 2) by lia.
Qed.

Lemma toString_char c r : is_scalar c -> len r <= 4 ->
  toString (utf8_of c ++ r) (Some (js "utf8")) (Some 0) (Some (len (utf8_of c))) = Ok (utf16_of c).
Proof.
  intros Hc Hr. assert (L := utf8_of_len4 c Hc). assert (T := toString_between [c] [] r).
  cbn [fmap list_fmap concat app] in T. rewrite !app_nil_r in T. apply T; [by apply Forall_singleton|].
  rewrite len_app. unfold kMaxLength. lia.
Qed.

(** Completing the character kept. *)
Lemma fill_ok d c q u e : is_scalar c -> encoding d = js "utf8" -> len (lastChar d) = 4 ->
  utf8_of c = q ++ u -> q <> [] -> u <> [] -> lastNeed d = len u -> lastTotal d = len (utf8_of c) ->
  take (length q) (lastChar d) = q -> e <> [] ->
  (∀ e', e = u ++ e' -> ∃ l, fillLast d e = Ok (Some (utf16_of c), set_last d (len u) (lastTotal d) l) /\ len l = 4) /\
  (∀ u', u = e ++ u' -> u' <> [] ->
     ∃ l, fillLast d e = Ok (None, set_last d (len u') (lastTotal d) l) /\ len l = 4 /\ take (length (q ++ e)) l = q ++ e).
Proof.
  intros Hc Henc H4 Hqu Hq Hu Hn Ht Hk He. assert (L4 := utf8_of_len4 c Hc). rewrite Hqu, len_app in L4.
  assert (Hlq := len_pos q Hq). assert (Hlu := len_pos u Hu). assert (Hle := len_pos e He).
  assert (Eq : lastTotal d - lastNeed d = len q) by (rewrite Ht, Hn, Hqu, len_app; lia).
  assert (Tq : take (Z.to_nat (len q)) (lastChar d) = q) by (unfold len; by rewrite Nat2Z.id).
  unfold fillLast. rewrite decide_True by done. rewrite Eq. split.
  - intros e' ->. rewrite (check_extra d c q u (u ++ e') e') by (done || exists []; by rewrite app_nil_r).
    unfold fill_rest. rewrite Hn. destruct (Z.leb_spec (len u) (len (u ++ e'))); [|rewrite len_app in *; pose proof (len_nonneg e'); lia].
    rewrite copy_moves by (rewrite ?len_app; pose proof (len_nonneg e'); done || lia). cbn [result_bind].
    replace (Z.min (len u - 0) (len (lastChar d) - len q)) with (len u) by lia.
    assert (Eb : blit (u ++ e') (lastChar d) (len q) 0 (len u) = utf8_of c ++ drop (Z.to_nat (len q + len u)) (lastChar d)).
    { unfold blit. rewrite Tq, Hqu, <- app_assoc. do 2 f_equal. unfold subarray, len. rewrite drop_0.
      replace (Z.to_nat _) with (length u) by lia. by rewrite take_app_length. }
    rewrite Eb. cbn [set_last encoding lastTotal]. rewrite Ht, Henc. rewrite toString_char; [|done|unfold len in *; rewrite length_drop; lia].
    cbn [result_bind]. eexists. split; [done|]. rewrite Hqu, !len_app. unfold len in *. rewrite length_drop. lia.
  - intros u' -> Hu'. assert (Hlu' := len_pos u' Hu'). rewrite len_app in *.
    rewrite (check_extra d c q (e ++ u') e []) by (done || (rewrite ?len_app; done) || (exists u'; by rewrite app_nil_r)).
    unfold fill_rest. rewrite Hn, ?len_app. destruct (Z.leb_spec (len e + len u') (len e)); [lia|].
    rewrite copy_moves by (done || lia). cbn [result_bind].
    replace (Z.min (len e - 0) (len (lastChar d) - len q)) with (len e) by lia.
    replace (len e + len u' - len e) with (len u') by lia. eexists. split; [done|].
    assert (Eb : blit e (lastChar d) (len q) 0 (len e) = (q ++ e) ++ drop (Z.to_nat (len q + len e)) (lastChar d)).
    { unfold blit. rewrite Tq, <- app_assoc. do 2 f_equal. unfold subarray, len. rewrite drop_0. apply take_ge. lia. }
    rewrite Eb. split; [|by rewrite take_app_length]. rewrite !len_app. unfold len in *. rewrite length_drop. lia.
Qed.

Lemma write_ok d q e R cs : kept d q cs -> Forall is_scalar cs -> q ++ e ++ R = utf8_text cs -> len e <= kMaxLength ->
  ∃ done cs' q' d', cs = done ++ cs' /\ write d e = Ok (utf16_text done, d') /\ kept d' q' cs' /\
    q' ++ R = utf8_text cs'.
Proof.
  intros (Henc & H4 & Hk) Hcs HR Hm. unfold write, simple. rewrite decide_True by auto. cbn iota.
  destruct (decide (e = [])) as [->|He].
  { exists [], cs, q, d. split_and!; [done|done| |done]. unfold kept. auto. }
  assert (Hle := len_pos e He). destruct (Z.eqb_spec (len e) 0); [lia|].
  assert (Htext : ∀ d pre e' cs, encoding d = js "utf8" -> e = pre ++ e' -> e' <> [] -> len (lastChar d) = 4 ->
    lastNeed d = 0 -> Forall is_scalar cs -> e' ++ R = utf8_text cs ->
    ∃ done cs' q d', cs = done ++ cs' /\ text d e (len pre) = Ok (utf16_text done, d') /\
      kept d' q cs' /\ q ++ R = utf8_text cs').
  { intros d1 pre e' cs1 He1 -> ? ? ? ? ?. unfold text. rewrite He1. rewrite !decide_False by done. by apply utf8Text_ok. }
  destruct Hk as [[-> Hn]|(c & cs' & u & -> & Hq & Hu & Hqu & Hn & Ht & Hk)].
  - rewrite Hn. cbn [Z.eqb result_bind]. destruct (Z.ltb_spec 0 (len e)); [|lia].
    destruct (Htext d [] e cs) as (dn & cs' & q & d' & -> & E & Hk' & HR'); try done.
    change (len []) with 0 in E. rewrite E. cbn [result_bind app]. by exists dn, cs', q, d'.
  - assert (Hlu := len_pos u Hu). rewrite Hn. destruct (Z.eqb_spec (len u) 0); [lia|].
    apply Forall_cons in Hcs as [Hc Hcs]. cbn [fmap list_fmap concat] in HR. rewrite Hqu, <- app_assoc in HR.
    apply app_inv_head in HR. destruct (fill_ok d c q u e) as [Hfull Hpart]; try done.
    destruct (app_eq_inv _ _ _ _ HR) as [(k & Ee & E')|(k & Eu & E')].
    + destruct (Hfull k Ee) as (l & -> & Hl). cbn [result_bind]. unfold set_last, set_need. cbn [lastNeed encoding lastTotal lastChar].
      destruct (decide (k = [])) as [->|Hk0].
      * rewrite app_nil_r in Ee. subst e. rewrite Z.ltb_irrefl.
        eexists [c], cs', [], _. split_and!; [done|cbn; by rewrite app_nil_r| |done]. unfold kept. cbn. auto.
      * assert (Hlk := len_pos k Hk0). destruct (Z.ltb_spec (len u) (len e)); [|subst e; rewrite len_app in *; lia].
        destruct (Htext (Dec (encoding d) 0 (lastTotal d) l) u k cs') as (dn & cs2 & q' & d' & -> & E2 & Hk' & HR'); try done.
        rewrite E2. cbn [result_bind]. exists (c :: dn), cs2, q', d'. done.
    + destruct (decide (k = [])) as [->|Hk0].
      * rewrite app_nil_r in Eu. subst e. destruct (Hfull [] ltac:(by rewrite app_nil_r)) as (l & -> & Hl).
        cbn [result_bind]. unfold set_last, set_need. cbn [lastNeed encoding lastTotal lastChar]. rewrite Z.ltb_irrefl.
        eexists [c], cs', [], _. split_and!; [done|cbn; by rewrite app_nil_r| |done]. unfold kept. cbn. auto.
      * destruct (Hpart k Eu Hk0) as (l & -> & Hl & Htk). cbn [result_bind].
        eexists [], (c :: cs'), (q ++ e), _. split_and!; [done|done| |].
        -- unfold kept. cbn [set_last lastNeed encoding lastTotal lastChar]. split_and!; [done|done|]. right.
           exists c, cs', k. split_and!; try done; [by destruct q|]. by rewrite Hqu, Eu, app_assoc.
        -- cbn. by rewrite Hqu, Eu, E', <- !app_assoc.
Qed.

Lemma write_all_ok chunks d q cs : kept d q cs -> Forall is_scalar cs -> q ++ concat chunks = utf8_text cs ->
  len (concat chunks) <= kMaxLength ->
  ∃ d', write_all d chunks = Ok (utf16_text cs, d') /\ kept d' [] [].
Proof.
  revert d q cs. induction chunks as [|e chunks IH]; intros d q cs Hk Hcs HR Hm; cbn [concat] in *.
  - exists d. assert (q = [] /\ cs = []) as [-> ->].
    { rewrite app_nil_r in HR. destruct Hk as (_ & _ & [[-> _]|(c & cs' & u & -> & Hq & Hu & Hqu & _)]).
      - split; [done|]. destruct cs as [|c cs]; [done|]. apply Forall_cons in Hcs as [Hc _].
        destruct (utf8_of_facts c Hc) as (_ & _ & Hp). cbn in HR. symmetry in HR. apply app_eq_nil in HR as [E _].
        rewrite E in Hp. done.
      - exfalso. cbn in HR. rewrite Hqu, <- app_assoc in HR. apply (f_equal length) in HR. rewrite !length_app in HR.
        destruct u; [done|]. cbn in HR. lia. }
    done.
  - pose proof (len_nonneg e). pose proof (len_nonneg (concat chunks)). rewrite len_app in Hm.
    destruct (write_ok d q e (concat chunks) cs Hk Hcs HR ltac:(lia)) as (dn & cs' & q' & d' & -> & E & Hk' & HR').
    apply Forall_app in Hcs as [_ Hcs']. destruct (IH d' q' cs' Hk' Hcs' HR' ltac:(lia)) as (d'' & E' & Hk'').
    exists d''. split; [|done]. cbn [write_all]. rewrite E. cbn [result_bind]. rewrite E'. cbn [result_bind].
    by rewrite fmap_app, concat_app.
Qed.

(** C24. Streaming UTF-8: however the UTF-8 bytes of a text are cut into
    chunks, also in the middle of characters, writing the chunks to a decoder
    and ending it returns exactly the text. *)
Theorem utf8_stream enc cs chunks : Forall is_scalar cs -> concat chunks = utf8_text cs ->
  len (utf8_text cs) <= kMaxLength -> enc = None \/ enc = Some (js "utf8") \/ enc = Some (js "utf-8") ->
  decode_stream enc chunks = Ok (utf16_text cs).
Proof.
  intros Hcs HR Hm Henc. unfold decode_stream.
  assert (E : make enc = Ok (Dec (js "utf8") 0 0 (replicate 4 0))).
  { destruct Henc as [->|[->| ->]]; vm_compute; reflexivity. }
  rewrite E. cbn [result_bind].
  assert (H0 : kept (Dec (js "utf8") 0 0 (replicate 4 0)) [] cs) by (unfold kept; cbn; auto).
  destruct (write_all_ok chunks _ [] cs H0 Hcs HR ltac:(by rewrite HR)) as (d' & -> & Hk).
  cbn [result_bind]. destruct Hk as (He & _ & [[_ Hn]|(? & ? & ? & [=] & _)]).
  unfold end_. change (len (@nil Z) =? 0) with true. cbn [result_bind].
  assert (Hs : simple d' = false) by (unfold simple; by rewrite decide_True by auto).
  rewrite Hs, Hn. cbn [Z.eqb result_bind]. by rewrite app_nil_r.
Qed.

Lemma utf8_stream_witness :
  decode_stream None [[226]; [130]; [172; 240; 157]; [132; 158; 97]] = Ok [8364; 55348; 56606; 97].
Proof.
  apply (utf8_stream None [8364; 119070; 97]).
  - repeat (apply Forall_cons_2; [unfold is_scalar; lia|]). apply Forall_nil_2.
  - vm_compute. reflexivity.
  - vm_compute. discriminate.
  - left. reflexivity.
Defined.

End StringDecoder.
