(* ===== verification/ImmHash.v ===== *)
(** Hashing and bit counting of Immutable.js as bundled
    (client/docs/swagger-ui/swagger-ui-bundle.js, lines 403-411, 614-700 and
    922-924): the value equality and hash of map keys, the string hash cache
    and the population count that indexes the nodes of the hash trie. *)

From stdpp Require Import base list list_numbers numbers strings gmap.
From Stdlib Require Import ZArith Lia Eqdep_dec.
From S2P Require Import Prelude.

Module ImmHash.

(** ** Keys *)

(** A number that is a 32-bit integer. *)
Record int32 := Int { int_val : Z; int_ok : (-2147483648 <=? int_val) && (int_val <? 2147483648) = true }.

#[global] Instance int32_eq_dec : EqDecision int32.
Proof.
  refine (λ a b, match decide (int_val a = int_val b) with left e => left _ | right n => right _ end).
  - destruct a as [x p], b as [y q]. cbn in e. subst y. f_equal. apply UIP_dec, bool_dec.
  - congruence.
Defined.

(** The primitive values used as keys of the state maps. *)
Inductive key :=
  | KUndefined
  | KNull
  | KBool (b : bool)
  | KNum (n : int32)
  | KStr (s : list Z).

#[global] Instance key_eq_dec : EqDecision key.
Proof. solve_decision. Defined.

Definition key_code (k : key) : unit + unit + bool + Z + list Z :=
  match k with
  | KUndefined => inl (inl (inl (inl tt)))
  | KNull => inl (inl (inl (inr tt)))
  | KBool b => inl (inl (inr b))
  | KNum n => inl (inr (int_val n))
  | KStr s => inr s
  end.

#[global] Instance key_countable : Countable key.
Proof.
  apply (inj_countable key_code (λ c,
    match c with
    | inl (inl (inl (inl _))) => Some KUndefined
    | inl (inl (inl (inr _))) => Some KNull
    | inl (inl (inr b)) => Some (KBool b)
    | inl (inr z) =>
        match bool_dec ((-2147483648 <=? z) && (z <? 2147483648)) true with
        | left p => Some (KNum (Int z p))
        | right _ => None
        end
    | inr s => Some (KStr s)
    end)).
  intros [| | |[z p]|]; cbn; try done. destruct (bool_dec _ true) as [q|q]; [|done].
  do 3 f_equal. apply UIP_dec, bool_dec.
Defined.

(** [he(e, t)], [Immutable.is]: on primitive values other than NaN, [e === t]
    decides. *)
Definition immutable_is (e t : key) : bool := bool_decide (e = t).

(** ** Hashes *)

(** [Se(e)]: the top bit replaced by the bit below it. *)
Definition smi (e : Z) : Z := (e .>>> 1 .& 1073741824 .| 3221225471 .& e).

(** [ke(e)]: [t = 31 * t + e.charCodeAt(n) | 0] over the code units. *)
Definition hashString (e : list Z) : Z :=
  smi (fold_left (λ t c, (31 * t + c .| 0)) e 0).

Definition STRING_HASH_CACHE_MIN_STRLEN : Z := 16.
Definition STRING_HASH_CACHE_MAX_SIZE : Z := 255.

(** [De] and [Re]: the hashes of long strings and their number. *)
Record hash_cache := Cache { stringHashCache : gmap (list Z) Z; stringHashCacheSize : Z }.
Definition empty_cache : hash_cache := Cache ∅ 0.

(** The cache is a plain object, so a lookup also finds what
    [Object.prototype] has: of its properties one has a name longer than 16
    characters.  The method found there is used as the hash; it is [===] only
    to itself and counts as 0 in bit operations, like the number [FUNCTION]
    that stands for it. *)
Definition FUNCTION : Z := 2 ^ 32.
Definition inherited (e : list Z) : option Z :=
  if decide (e = js "propertyIsEnumerable") then Some FUNCTION else None.

Definition cachedHashString (c : hash_cache) (e : list Z) : Z * hash_cache :=
  match union (stringHashCache c !! e) (inherited e) with
  | Some t => (t, c)
  | None =>
      let t := hashString e in
      let c := if stringHashCacheSize c =? STRING_HASH_CACHE_MAX_SIZE then Cache ∅ 0 else c in
      (t, Cache (<[e := t]> (stringHashCache c)) (stringHashCacheSize c + 1))
  end.

(** [Ce(e)] on a key, with the cache it reads and updates. *)
Definition hash_cached (c : hash_cache) (e : key) : Z * hash_cache :=
  match e with
  | KUndefined | KNull | KBool false => (0, c)
  | KBool true => (1, c)
  | KNum n => (smi (0 .| int_val n), c)
  | KStr s =>
      if STRING_HASH_CACHE_MIN_STRLEN <? len s then cachedHashString c s else (hashString s, c)
  end.

(** The hash of a key, without the cache. *)
Definition hash (e : key) : Z :=
  match e with
  | KUndefined | KNull | KBool false => 0
  | KBool true => 1
  | KNum n => smi (0 .| int_val n)
  | KStr s => default (hashString s) (inherited s)
  end.

(** ** Population count *)

(** [ut(e)] *)
Definition popCount (e : Z) : Z :=
  let e := e - (e .>> 1 .& 1431655765) in
  let e := (858993459 .& e) + (e .>> 2 .& 858993459) in
  let e := (e + (e .>> 4) .& 252645135) in
  let e := e + (e .>> 8) in
  let e := e + (e .>> 16) in
  (127 .& e).

Example hash_ab : hash (KStr (js "ab")) = 3105.
Proof. vm_compute. reflexivity. Qed.
(** The one string whose hash is not a number. *)
Example hash_inherited : fst (hash_cached empty_cache (KStr (js "propertyIsEnumerable"))) = FUNCTION.
Proof. vm_compute. reflexivity. Qed.
Example pop_ex : popCount 1431655765 = 16.
Proof. vm_compute. reflexivity. Qed.

(** ** The cache is transparent *)

(** Every cached hash is the hash of its string, and the cache never holds
    more than its maximum. *)
Definition cache_ok (c : hash_cache) : Prop :=
  (∀ s t, stringHashCache c !! s = Some t -> t = hash (KStr s)) /\
  Z.of_nat (size (stringHashCache c)) = stringHashCacheSize c /\
  stringHashCacheSize c <= STRING_HASH_CACHE_MAX_SIZE.

Lemma empty_cache_ok : cache_ok empty_cache.
Proof. done. Qed.

Lemma cachedHashString_ok c e : cache_ok c ->
  fst (cachedHashString c e) = hash (KStr e) /\ cache_ok (snd (cachedHashString c e)).
Proof.
  intros (Hc & Hs & Hm). unfold cachedHashString. cbn [hash]. destruct (stringHashCache c !! e) as [t|] eqn:E.
  { replace (union (Some t) (inherited e)) with (Some t) by (by destruct (inherited e)). cbn. split; [by apply Hc|done]. }
  rewrite (left_id_L None union). destruct (inherited e) as [t|] eqn:Ei; cbn [fst snd]; [done|].
  split; [done|]. unfold cache_ok, STRING_HASH_CACHE_MAX_SIZE in *.
  assert (He : hashString e = hash (KStr e)) by (cbn [hash]; by rewrite Ei).
  destruct (Z.eqb_spec (stringHashCacheSize c) 255); cbn [stringHashCache stringHashCacheSize].
  - split_and!; [|by rewrite map_size_insert_None, map_size_empty by done|lia].
    intros s t. rewrite lookup_insert_Some. by intros [[<- <-]|[_ H]].
  - split_and!; [|rewrite map_size_insert_None by done; lia|lia].
    intros s t. rewrite lookup_insert_Some. intros [[<- <-]|[_ H]]; [done|by apply Hc].
Qed.

Lemma hash_cached_ok c e : cache_ok c ->
  fst (hash_cached c e) = hash e /\ cache_ok (snd (hash_cached c e)).
Proof.
  intros Hc. destruct e as [| |[]| |s]; try done. cbn [hash_cached].
  destruct (Z.ltb_spec STRING_HASH_CACHE_MIN_STRLEN (len s)); [by apply cachedHashString_ok|].
  cbn. split; [|done]. unfold inherited. by destruct (decide (s = _)) as [->|].
Qed.

(** Hashing a sequence of keys through the cache. *)
Fixpoint hash_all (c : hash_cache) (ks : list key) : list Z * hash_cache :=
  match ks with
  | [] => ([], c)
  | k :: ks =>
      let '(h, c) := hash_cached c k in
      let '(hs, c) := hash_all c ks in (h :: hs, c)
  end.

(** The string hash cache is invisible: starting from the empty cache,
    hashing any sequence of keys returns the uncached hash of each, and after
    every one the cache holds only correct hashes, its counter is its size and
    it never exceeds 255 entries.  (The uncached hash of
    ["propertyIsEnumerable"] is the method inherited by the cache.) *)
Theorem hash_cache_transparent ks :
  let '(hs, c) := hash_all empty_cache ks in hs = hash <$> ks /\ cache_ok c.
Proof.
  assert (G : ∀ c, cache_ok c -> let '(hs, c') := hash_all c ks in hs = hash <$> ks /\ cache_ok c').
  { induction ks as [|k ks IH]; intros c Hc; [done|]. cbn.
    destruct (hash_cached_ok c k Hc) as [H1 H2]. destruct (hash_cached c k) as [h c1].
    specialize (IH c1 H2). destruct (hash_all c1 ks) as [hs c2]. destruct IH as [-> ?].
    cbn in H1. by subst. }
  apply G, empty_cache_ok.
Qed.

(** ** The population count counts bits *)

(** The number of set bits below position [n]. *)
Fixpoint rank (b : Z) (n : nat) : nat :=
  match n with O => 0 | S n => (rank b n + (if Z.testbit b (Z.of_nat n) then 1 else 0))%nat end.

Lemma rank_sum b n : Z.of_nat (rank b n) = foldr Z.add 0 ((λ i, Z.b2z (Z.testbit b (Z.of_nat i))) <$> seq 0 n).
Proof.
  induction n as [|n IH]; [done|]. rewrite seq_S, fmap_app, foldr_app. cbn [rank].
  rewrite Nat2Z.inj_add, IH. cbn [fmap list_fmap foldr Nat.add].
  generalize ((λ i, Z.b2z (Z.testbit b (Z.of_nat i))) <$> seq 0 n) as l. intros l.
  destruct (Z.testbit b (Z.of_nat n)); cbn; induction l as [|x l IHl]; cbn in *; lia.
Qed.

(** Masks that select digits. *)
Lemma land_digits k ds ms : 0 <= k -> Forall (λ d, 0 <= d < 2 ^ k) ds -> Forall (λ d, 0 <= d < 2 ^ k) ms ->
  length ds = length ms ->
  Z.land (of_digits k ds) (of_digits k ms) = of_digits k (zip_with Z.land ds ms).
Proof.
  intros Hk Hd. revert ms. induction Hd as [|d ds Hd _ IH]; intros [|m ms] Hm Hl; try done.
  apply Forall_cons in Hm as [Hm Hms]. cbn [of_digits zip_with].
  rewrite land_join by done. rewrite IH by (done || (cbn in Hl; lia)). done.
Qed.

Lemma shiftr_digit k d ds : 0 <= k -> 0 <= d < 2 ^ k -> Z.shiftr (of_digits k (d :: ds)) k = of_digits k ds.
Proof.
  intros Hk Hd. rewrite Z.shiftr_div_pow2 by done. cbn [of_digits].
  rewrite Z.add_comm, Z.mul_comm, Z.div_add_l, Z.div_small by lia. lia.
Qed.

(** One stage of the count adds neighbouring digits. *)
Fixpoint pairs (l : list Z) : list Z :=
  match l with a :: b :: l => (a + b) :: pairs l | _ => [] end.

Lemma list2_ind {A} (P : list A -> Prop) :
  P [] -> (∀ a, P [a]) -> (∀ a b l, P l -> P (a :: b :: l)) -> ∀ l, P l.
Proof. intros H0 H1 H2. fix IH 1. intros [|a [|b l]]; [done..|]. apply H2, IH. Qed.

Lemma pairs_ok m l : Forall (λ d, 0 <= d <= m) l -> Forall (λ d, 0 <= d <= 2 * m) (pairs l).
Proof.
  induction l as [| |a b l IH] using list2_ind; cbn; rewrite ?Forall_cons; try done.
  intros (? & ? & ?). split; [lia|auto].
Qed.

Lemma pairs_length n l : length l = (2 * n)%nat -> length (pairs l) = n.
Proof.
  revert n. induction l as [| |a b l IH] using list2_ind; cbn; intros [|n] H; try lia.
  by rewrite (IH n) by lia.
Qed.

Lemma pairs_sum n l : length l = (2 * n)%nat -> foldr Z.add 0 (pairs l) = foldr Z.add 0 l.
Proof.
  revert n. induction l as [| |a b l IH] using list2_ind; cbn; intros [|n] H; try lia.
  rewrite (IH n) by lia. lia.
Qed.

(** Splitting a list of known length into its elements. *)
Tactic Notation "elements" ident(l) integer(n) :=
  do n (destruct l as [|? l]; [done|]); destruct l; [|done];
  repeat match goal with H : Forall _ (_ :: _) |- _ => apply Forall_cons in H as [? H] end;
  repeat match goal with H : Forall _ [] |- _ => clear H end.

Ltac pows := change (2 ^ 1) with 2 in *; change (2 ^ 2) with 4 in *; change (2 ^ 4) with 16 in *;
  change (2 ^ 8) with 256 in *; change (2 ^ 16) with 65536 in *.

Ltac all_digits := repeat (apply Forall_cons_2; [cbn beta; pows; lia|]); apply Forall_nil_2.

Lemma stage1 l : Forall (λ b, 0 <= b <= 1) l -> length l = 32%nat -> nth 31 l 0 = 0 ->
  of_digits 1 l - (of_digits 1 l .>> 1 .& 1431655765) = of_digits 2 (pairs l).
Proof.
  intros Hb Hl H31. elements l 32. cbn in H31. subst. clear Hl.
  set (l := [_; _; _; _;_; _; _; _;_; _; _; _;_; _; _; _;_; _; _; _;_; _; _; _;_; _; _; _;_; _; _; _]).
  assert (0 <= of_digits 1 l < 2147483648) by (subst l; cbn [of_digits]; pows; lia).
  rewrite sar_div, <- Z.shiftr_div_pow2 by lia. subst l. rewrite shiftr_digit by lia.
  unfold Int32.band. rewrite !to_int32_id by (cbn [of_digits]; pows; lia).
  replace 1431655765 with (of_digits 1 [1;0;1;0;1;0;1;0;1;0;1;0;1;0;1;0;1;0;1;0;1;0;1;0;1;0;1;0;1;0;1]) by done.
  rewrite land_digits; [|lia|all_digits|all_digits|done].
  cbn [zip_with]. rewrite !Z.land_0_r. change 1 with (Z.ones 1).
  rewrite !Z.land_ones by lia. change (2 ^ Z.ones 1) with 2. change (Z.ones 1) with 1. pows. rewrite !Z.mod_small by lia.
  cbn [pairs of_digits]. pows. lia.
Qed.

Lemma stage2 l : Forall (λ d, 0 <= d <= 2) l -> length l = 16%nat -> nth 15 l 0 <= 1 ->
  (858993459 .& of_digits 2 l) + (of_digits 2 l .>> 2 .& 858993459) = of_digits 4 (pairs l).
Proof.
  intros Hb Hl H31. elements l 16. cbn in H31. clear Hl.
  set (l := [_; _; _; _;_; _; _; _;_; _; _; _;_; _; _; _]).
  assert (0 <= of_digits 2 l < 2147483648) by (subst l; cbn [of_digits]; pows; lia).
  rewrite sar_div, <- Z.shiftr_div_pow2 by lia. subst l. rewrite shiftr_digit by (pows; lia).
  rewrite band_comm. unfold Int32.band. rewrite !to_int32_id by (cbn [of_digits]; pows; lia).
  replace 858993459 with (of_digits 2 [3;0;3;0;3;0;3;0;3;0;3;0;3;0;3;0]) at 1 by done.
  replace 858993459 with (of_digits 2 [3;0;3;0;3;0;3;0;3;0;3;0;3;0;3]) by done.
  rewrite !land_digits; [|lia|all_digits|all_digits|done|lia|all_digits|all_digits|done].
  cbn [zip_with]. rewrite !Z.land_0_r. change 3 with (Z.ones 2).
  rewrite !(Z.land_ones _ 2) by lia. pows. rewrite !Z.mod_small by lia.
  cbn [pairs of_digits]. pows. lia.
Qed.

Lemma stage3 l : Forall (λ d, 0 <= d <= 4) l -> length l = 8%nat ->
  (of_digits 4 l + (of_digits 4 l .>> 4) .& 252645135) = of_digits 8 (pairs l).
Proof.
  intros Hb Hl. elements l 8. clear Hl.
  set (l := [_; _; _; _;_; _; _; _]).
  assert (0 <= of_digits 4 l < 2147483648) by (subst l; cbn [of_digits]; pows; lia).
  rewrite sar_div, <- Z.shiftr_div_pow2 by lia. subst l. rewrite shiftr_digit by (pows; lia).
  unfold Int32.band. rewrite !to_int32_id by (cbn [of_digits]; pows; lia).
  replace (of_digits 4 _ + _) with (of_digits 4 [z + z0; z0 + z1; z1 + z2; z2 + z3; z3 + z4; z4 + z5; z5 + z6; z6])
    by (cbn [of_digits]; pows; lia).
  replace 252645135 with (of_digits 4 [15;0;15;0;15;0;15;0]) by done.
  rewrite !land_digits; [|lia|all_digits|all_digits|done].
  cbn [zip_with]. rewrite !Z.land_0_r. change 15 with (Z.ones 4).
  rewrite !(Z.land_ones _ 4) by lia. pows. rewrite !Z.mod_small by lia.
  cbn [pairs of_digits]. pows. lia.
Qed.

Lemma stage4 l : Forall (λ d, 0 <= d <= 8) l -> length l = 4%nat ->
  let e := of_digits 8 l + (of_digits 8 l .>> 8) in
  (127 .& e + (e .>> 16)) = foldr Z.add 0 l.
Proof.
  intros Hb Hl. elements l 4. clear Hl. cbv zeta. cbn [of_digits foldr]. pows.
  rewrite band_comm. change 127 with (Z.ones 7).
  rewrite band_ones, !(sar_div _ 8) by lia. rewrite sar_div by zdm. pows. change (2^7) with 128. zdm.
Qed.


(** [ut(e)] is the number of set bits of [e]. *)
Lemma popCount_rank e : 0 <= e < 2147483648 -> popCount e = Z.of_nat (rank e 32).
Proof.
  intros He. rewrite rank_sum. set (l := _ <$> seq 0 32).
  assert (El : e = of_digits 1 l) by (apply (of_bits 32); lia).
  assert (Hl : Forall (λ b, 0 <= b <= 1) l).
  { apply Forall_fmap, Forall_true. intros i. cbn. destruct (Z.testbit e _); cbn; lia. }
  assert (Hn : length l = 32%nat) by done.
  assert (Hz : nth 31 l 0 = 0).
  { change (nth 31 l 0) with (Z.b2z (Z.testbit e 31)).
    rewrite <- (Z.mod_small e (2 ^ 31)), Z.mod_pow2_bits_high by lia. done. }
  assert (H1 := pairs_ok 1 l Hl). assert (H2 := pairs_ok _ _ H1). assert (H3 := pairs_ok _ _ H2).
  assert (N1 := pairs_length 16 l Hn). assert (N2 := pairs_length 8 _ N1). assert (N3 := pairs_length 4 _ N2).
  assert (T : nth 15 (pairs l) 0 <= 1).
  { change (nth 15 (pairs l) 0) with (nth 30 l 0 + nth 31 l 0). rewrite Hz.
    change (nth 30 l 0) with (Z.b2z (Z.testbit e 30)). destruct (Z.testbit e 30); cbn; lia. }
  clearbody l. unfold popCount. rewrite El, (stage1 l), (stage2 (pairs l)), stage3, stage4 by done.
  by rewrite (pairs_sum 4), (pairs_sum 8), (pairs_sum 16) by done.
Qed.
End ImmHash.
