(* ===== verification/ImmMap.v ===== *)
(** The persistent hash map of Immutable.js as bundled
    (client/docs/swagger-ui/swagger-ui-bundle.js, lines 706-1071): the five
    node types of the hash array mapped trie, their [get], [update],
    [iterate], the iterator and the operations of [Map] on top of them.  The
    nodes are the ones of persistent maps: no node is owned by a mutable
    copy ([ownerID] is undefined), so every update copies its path. *)

From stdpp Require Import base list list_numbers numbers strings gmap.
From Stdlib Require Import ZArith Lia.
From S2P Require Import Prelude ImmHash.
Import ImmHash.

(** Values compared with [===]: values that are [===] are the same. *)
Class StrictEq (V : Type) := {
  same : V -> V -> bool;
  same_eq : ∀ a b, same a b = true -> a = b
}.

(** [l[i]] passed to [f]; [d] when there is no such element. *)
Definition pick {A B} (f : A -> B) (d : B) : list A -> nat -> B :=
  fix go l i :=
    match l, i with
    | [], _ => d
    | x :: _, O => f x
    | _ :: l, S i => go l i
    end.

Lemma pick_lookup {A B} (f : A -> B) d l i :
  pick f d l i = match l !! i with Some x => f x | None => d end.
Proof. revert i. induction l as [|x l IH]; intros [|i]; cbn; done || apply IH. Qed.

#[local] Set Warnings "-register-all".

#[global] Instance StrictEq_Z : StrictEq Z := {| same := Z.eqb; same_eq := λ a b, proj1 (Z.eqb_eq a b) |}.

Module ImmMap.
Section map.
Context {V : Type} `{StrictEq V}.

Abbreviation entry := (key * V)%type.

(** ** Nodes *)

Inductive node :=
  | ArrayMapNode (entries : list entry)
  | BitmapIndexedNode (bitmap : Z) (nodes : list node)
  | HashArrayMapNode (count : Z) (nodes : list (option node))
  | HashCollisionNode (keyHash : Z) (entries : list entry)
  | ValueNode (keyHash : Z) (e : entry).

Definition SHIFT : Z := 5.
Definition SIZE : Z := 32.
Definition MASK : Z := 31.
Definition MAX_ARRAY_MAP_SIZE : Z := SIZE / 4.
Definition MAX_BITMAP_INDEXED_SIZE : Z := SIZE / 2.
Definition MIN_HASH_ARRAY_MAP_SIZE : Z := SIZE / 4.

(** [tt(e)] *)
Definition isLeafNode (n : node) : bool :=
  match n with ValueNode _ _ | HashCollisionNode _ _ => true | _ => false end.

(** [(0 === shift ? keyHash : keyHash >>> shift) & MASK] *)
Definition hash_index (shift keyHash : Z) : Z :=
  ((if 0 =? shift then keyHash else keyHash .>>> shift) .& MASK).

(** The index of the first entry with key [k]. *)
Fixpoint find_index (k : key) (es : list entry) : option nat :=
  match es with
  | [] => None
  | (k', _) :: es => if immutable_is k k' then Some 0%nat else S <$> find_index k es
  end.

Fixpoint entries_get (k : key) (es : list entry) (notSet : option V) : option V :=
  match es with
  | [] => notSet
  | (k', v) :: es => if immutable_is k k' then Some v else entries_get k es notSet
  end.

(** ** Lookup: the [get] methods of the nodes *)

Fixpoint node_get (n : node) (shift : Z) (keyHash : option Z) (k : key) (notSet : option V) : option V :=
  match n with
  | ArrayMapNode es => entries_get k es notSet
  | BitmapIndexedNode bitmap nodes =>
      let h := default (hash k) keyHash in
      let bit := (1 .<< hash_index shift h) in
      if (bitmap .& bit) =? 0 then notSet
      else pick (λ c, node_get c (shift + SHIFT) (Some h) k notSet) notSet nodes
             (Z.to_nat (popCount (bitmap .& bit - 1)))
  | HashArrayMapNode _ nodes =>
      let h := default (hash k) keyHash in
      pick (λ c, match c with Some c => node_get c (shift + SHIFT) (Some h) k notSet | None => notSet end)
        notSet nodes (Z.to_nat (hash_index shift h))
  | HashCollisionNode _ es => entries_get k es notSet
  | ValueNode _ (k', v) => if immutable_is k k' then Some v else notSet
  end.

(** ** Update *)

(** What [update] returns: the node itself, nothing or another node. *)
Inductive outcome := Same | Gone | New (n : node).

(** The outcome with the two flags it sets: [didChangeSize] and [didAlter]. *)
Definition updated : Type := outcome * bool * bool.

(** [nt(e, t, n, r, o)]: joins a leaf and a new entry of another hash below a
    chain of nodes; [fuel] bounds the chain. *)
Fixpoint mergeIntoNode (fuel : nat) (n : node) (nodeHash shift keyHash : Z) (e : entry) : node :=
  match fuel with
  | O => n
  | S fuel =>
      let idx1 := hash_index shift nodeHash in
      let idx2 := hash_index shift keyHash in
      BitmapIndexedNode (1 .<< idx1 .| 1 .<< idx2)
        (if idx1 =? idx2 then [mergeIntoNode fuel n nodeHash (shift + SHIFT) keyHash e]
         else let i := ValueNode keyHash e in if idx1 <? idx2 then [n; i] else [i; n])
  end.

(** The levels of a trie over 32 bits in steps of 5. *)
Definition LEVELS : nat := 7.

(** [nt] on a value node, where the hashes may be equal. *)
Definition mergeValue (h : Z) (e : entry) (shift keyHash : Z) (e' : entry) : node :=
  if h =? keyHash then HashCollisionNode keyHash [e; e']
  else mergeIntoNode LEVELS (ValueNode h e) h shift keyHash e'.

(** The entries after the one at [l] is removed: the last one takes its
    place. *)
Definition entries_remove (es : list entry) (l : nat) : list entry :=
  if Z.of_nat l =? len es - 1 then take (length es - 1) es
  else match last es with
       | Some e => <[l := e]> (take (length es - 1) es)
       | None => es
       end.

(** The new entries: found or not, removed or set. *)
Definition entries_update (es : list entry) (found : option nat) (k : key) (ov : option V) : list entry :=
  match found, ov with
  | Some l, None => entries_remove es l
  | Some l, Some v => <[l := (k, v)]> es
  | None, Some v => es ++ [(k, v)]
  | None, None => es
  end.

(** [f ? s[l][1] === o : u]: nothing to do. *)
Definition no_change (es : list entry) (found : option nat) (ov : option V) : bool :=
  match found with
  | Some l =>
      match es !! l, ov with Some (_, v'), Some v => same v' v | _, _ => false end
  | None => match ov with None => true | Some _ => false end
  end.

(** [u || !f] *)
Definition size_change (found : option nat) (ov : option V) : bool :=
  match ov, found with None, _ => true | _, None => true | _, _ => false end.

(** The array with [x] put in at [t], and the one without the element at
    [t]. *)
Definition spliceIn {A} (l : list A) (t : nat) (x : A) : list A := take t l ++ x :: drop t l.
Definition spliceOut {A} (l : list A) (t : nat) : list A := take t l ++ drop (S t) l.

(** The slots of a bitmap node spread over an array of [m] slots. *)
Fixpoint expand_slots (m : nat) (n : Z) (t : list node) : list (option node) :=
  match m with
  | O => []
  | S m =>
      if (1 .& n) =? 0 then None :: expand_slots m (n .>>> 1) t
      else match t with
           | x :: t => Some x :: expand_slots m (n .>>> 1) t
           | [] => None :: expand_slots m (n .>>> 1) []
           end
  end.

Definition expandNodes (t : list node) (bitmap : Z) (idx : Z) (x : node) : node :=
  HashArrayMapNode (len t + 1) (<[Z.to_nat idx := Some x]> (expand_slots (Z.to_nat SIZE) bitmap t)).

(** The slots of an array node other than [r], compressed: the bitmap and the
    nodes, from slot [u] with bit [s] on. *)
Fixpoint pack_slots (t : list (option node)) (u s r o : Z) : Z * list node :=
  match t with
  | [] => (o, [])
  | c :: t =>
      match c with
      | Some c =>
          if u =? r then pack_slots t (u + 1) (s .<< 1) r o
          else let '(o, a) := pack_slots t (u + 1) (s .<< 1) r (o .| s) in (o, c :: a)
      | None => pack_slots t (u + 1) (s .<< 1) r o
      end
  end.

Definition packNodes (t : list (option node)) (r : Z) : node :=
  let '(o, a) := pack_slots t 0 1 r 0 in BitmapIndexedNode o a.

(** [et] on a missing child. *)
Definition updateMissing (keyHash : Z) (k : key) (ov : option V) : updated :=
  match ov with
  | None => (Same, false, false)
  | Some v => (New (ValueNode keyHash (k, v)), true, true)
  end.

(** [He.prototype.update] after the child's update. *)
Definition bitmap_update (bitmap : Z) (nodes : list node) (idx : Z) (o : outcome) : outcome :=
  let bit := (1 .<< idx) in
  let exists_ := negb ((bitmap .& bit) =? 0) in
  let f := popCount (bitmap .& bit - 1) in
  let other := arr_get nodes (1 .^ f) in
  match o with
  | Same => Same
  | New c =>
      if negb exists_ && (MAX_BITMAP_INDEXED_SIZE <=? len nodes) then New (expandNodes nodes bitmap idx c)
      else if exists_ && (len nodes =? 1) && isLeafNode c then New c
      else if exists_ then New (BitmapIndexedNode bitmap (<[Z.to_nat f := c]> nodes))
      else New (BitmapIndexedNode (bitmap .| bit) (spliceIn nodes (Z.to_nat f) c))
  | Gone =>
      match other with
      | Some c' =>
          if (len nodes =? 2) && isLeafNode c' then New c'
          else New (BitmapIndexedNode (bitmap .^ bit) (spliceOut nodes (Z.to_nat f)))
      | None => New (BitmapIndexedNode (bitmap .^ bit) (spliceOut nodes (Z.to_nat f)))
      end
  end.

(** [We.prototype.update] after the child's update. *)
Definition array_update (count : Z) (nodes : list (option node)) (idx : Z) (o : outcome) : outcome :=
  match o with
  | Same => Same
  | New c =>
      match mjoin (arr_get nodes idx) with
      | Some _ => New (HashArrayMapNode count (<[Z.to_nat idx := Some c]> nodes))
      | None => New (HashArrayMapNode (count + 1) (<[Z.to_nat idx := Some c]> nodes))
      end
  | Gone =>
      if count - 1 <? MIN_HASH_ARRAY_MAP_SIZE then New (packNodes nodes idx)
      else New (HashArrayMapNode (count - 1) (<[Z.to_nat idx := None]> nodes))
  end.

(** The [update] methods of the nodes; [create] is what an array map node does
    when it is full. *)
Fixpoint node_update (create : list entry -> key -> V -> node)
    (n : node) (shift : Z) (keyHash : option Z) (k : key) (ov : option V) : updated :=
  match n with
  | ArrayMapNode es =>
      let found := find_index k es in
      if no_change es found ov then (Same, false, false)
      else
        let change := size_change found ov in
        match ov with
        | None => if len es =? 1 then (Gone, change, true)
                  else (New (ArrayMapNode (entries_update es found k ov)), change, true)
        | Some v =>
            match found with
            | None => if MAX_ARRAY_MAP_SIZE <=? len es then (New (create es k v), change, true)
                      else (New (ArrayMapNode (entries_update es found k ov)), change, true)
            | Some _ => (New (ArrayMapNode (entries_update es found k ov)), change, true)
            end
        end
  | BitmapIndexedNode bitmap nodes =>
      let h := default (hash k) keyHash in
      let idx := hash_index shift h in
      let bit := (1 .<< idx) in
      let exists_ := negb ((bitmap .& bit) =? 0) in
      match exists_, ov with
      | false, None => (Same, false, false)
      | _, _ =>
          let f := Z.to_nat (popCount (bitmap .& bit - 1)) in
          let '(o, change, alter) :=
            if exists_
            then pick (λ c, node_update create c (shift + SHIFT) (Some h) k ov) (updateMissing h k ov) nodes f
            else updateMissing h k ov in
          (bitmap_update bitmap nodes idx o, change, alter)
      end
  | HashArrayMapNode count nodes =>
      let h := default (hash k) keyHash in
      let idx := hash_index shift h in
      let '(o, change, alter) :=
        pick (λ c, match c with
                   | Some c => node_update create c (shift + SHIFT) (Some h) k ov
                   | None => updateMissing h k ov
                   end) (updateMissing h k ov) nodes (Z.to_nat idx) in
      (array_update count nodes idx o, change, alter)
  | HashCollisionNode hc es =>
      let h := default (hash k) keyHash in
      if negb (h =? hc) then
        match ov with
        | None => (Same, false, false)
        | Some v => (New (mergeIntoNode LEVELS (HashCollisionNode hc es) hc shift h (k, v)), true, true)
        end
      else
        let found := find_index k es in
        if no_change es found ov then (Same, false, false)
        else
          let change := size_change found ov in
          match ov, found, len es =? 2 with
          | None, Some l, true =>
              match arr_get es (1 .^ Z.of_nat l) with
              | Some e => (New (ValueNode hc e), change, true)
              | None => (Gone, change, true)
              end
          | _, _, _ => (New (HashCollisionNode hc (entries_update es found k ov)), change, true)
          end
  | ValueNode hv (k', v') =>
      match immutable_is k k', ov with
      | true, Some v =>
          if same v v' then (Same, false, false) else (New (ValueNode hv (k, v)), false, true)
      | true, None => (Gone, true, true)
      | false, None => (Same, false, false)
      | false, Some v => (New (mergeValue hv (k', v') shift (hash k) (k, v)), true, true)
      end
  end.

(** A full array map node becomes a trie: the new entry first, then the old
    ones. *)
Definition node_set (n : node) (e : entry) : node :=
  match node_update (λ es k v, ArrayMapNode (es ++ [(k, v)])) n 0 None (fst e) (Some (snd e)) with
  | (New n', _, _) => n'
  | (_, _, _) => n
  end.

Definition createNodes (es : list entry) (k : key) (v : V) : node :=
  fold_left node_set es (ValueNode (hash k) (k, v)).

Definition update (n : node) (k : key) (ov : option V) : updated := node_update createNodes n 0 None k ov.

(** ** Maps *)

Record pmap := Map { size : Z; root : option node }.

(** [Xe()] *)
Definition emptyMap : pmap := Map 0 None.

(** [Ue.prototype.get] *)
Definition get (m : pmap) (k : key) (notSet : option V) : option V :=
  match root m with Some n => node_get n 0 None k notSet | None => notSet end.

(** [Qe(e, t, n)] *)
Definition updateMap (m : pmap) (k : key) (ov : option V) : pmap :=
  match root m with
  | Some n =>
      match update n k ov with
      | (_, _, false) => m
      | (o, change, true) =>
          let s := size m + (if change then match ov with None => -1 | Some _ => 1 end else 0) in
          match o with
          | New r => Map s (Some r)
          | Same => Map s (Some n)
          | Gone => emptyMap
          end
      end
  | None =>
      match ov with
      | None => m
      | Some v => Map 1 (Some (ArrayMapNode [(k, v)]))
      end
  end.

Definition set (m : pmap) (k : key) (v : V) : pmap := updateMap m k (Some v).
Definition remove (m : pmap) (k : key) : pmap := updateMap m k None.
Definition clear (m : pmap) : pmap := if size m =? 0 then m else emptyMap.
Definition has (m : pmap) (k : key) : bool := match get m k None with Some _ => true | None => false end.

(** [Ue(seq)] and [merge] of one sequence of entries. *)
Definition set_all (m : pmap) (es : list entry) : pmap := fold_left (λ m e, set m (fst e) (snd e)) es m.
Definition fromEntries (es : list entry) : pmap := set_all emptyMap es.

(** ** Iteration *)

(** The entries in the order [iterate] passes them on; [rev] iterates
    backwards. *)
Fixpoint node_iterate (rev : bool) (n : node) : list entry :=
  match n with
  | ArrayMapNode es | HashCollisionNode _ es => if rev then reverse es else es
  | BitmapIndexedNode _ nodes =>
      let ls := (λ c, node_iterate rev c) <$> nodes in concat (if rev then reverse ls else ls)
  | HashArrayMapNode _ nodes =>
      let ls := (λ c, match c with Some c => node_iterate rev c | None => [] end) <$> nodes in
      concat (if rev then reverse ls else ls)
  | ValueNode _ e => [e]
  end.

(** [Ue.prototype.__iterate]: the entries of a map. *)
Definition iterate (rev : bool) (m : pmap) : list entry :=
  match root m with Some n => node_iterate rev n | None => [] end.

(** ** The iterator *)

(** [r.nodes] of a branch. *)
Definition nodes_of (n : node) : list (option node) :=
  match n with
  | BitmapIndexedNode _ nodes => Some <$> nodes
  | HashArrayMapNode _ nodes => nodes
  | _ => []
  end.

(** [a[this._reverse ? n - o : o]], with [n] the last index. *)
Definition directed {A} (rev : bool) (l : list A) (o : nat) : option A :=
  if rev then (if (o <? length l)%nat then l !! (length l - 1 - o)%nat else None) else l !! o.

Inductive next_result := Yield (e : entry) (s : list (node * nat)) | Done | OutOfFuel.

(** [Ke.prototype.next] on the stack of nodes with their next index; [fuel] bounds the rounds of its loop. *)
Fixpoint next (fuel : nat) (rev : bool) (s : list (node * nat)) : next_result :=
  match fuel with
  | O => OutOfFuel
  | S fuel =>
      match s with
      | [] => Done
      | (r, o) :: prev =>
          match r with
          | ValueNode _ e => if (o =? 0)%nat then Yield e ((r, S o) :: prev) else next fuel rev prev
          | ArrayMapNode es | HashCollisionNode _ es =>
              match directed rev es o with
              | Some e => Yield e ((r, S o) :: prev)
              | None => next fuel rev prev
              end
          | BitmapIndexedNode _ _ | HashArrayMapNode _ _ =>
              match directed rev (nodes_of r) o with
              | Some (Some (ValueNode _ e)) => Yield e ((r, S o) :: prev)
              | Some (Some c) => next fuel rev ((c, 0%nat) :: (r, S o) :: prev)
              | Some None => next fuel rev ((r, S o) :: prev)
              | None => next fuel rev prev
              end
          end
      end
  end.

(** [Ke(e, t, n)]: the iterator of a map. *)
Definition iterator (m : pmap) : list (node * nat) :=
  match root m with Some n => [(n, 0%nat)] | None => [] end.

(** The entries returned by calling [next] until it is done. *)
Fixpoint drain (calls fuel : nat) (rev : bool) (s : list (node * nat)) : option (list entry) :=
  match calls with
  | O => None
  | S calls =>
      match next fuel rev s with
      | Yield e s' => (λ l, e :: l) <$> drain calls fuel rev s'
      | Done => Some []
      | OutOfFuel => None
      end
  end.

End map.

(** Two strings with the same hash, below a trie of 40 other keys. *)
Definition sample : @pmap Z :=
  set_all (fromEntries ((λ i, (KStr (js "k" ++ [i]), i)) <$> seqZ 48 40)) [(KStr (js "Aa"), 1); (KStr (js "BB"), 2)].

Example sample_collision : hash (KStr (js "Aa")) = hash (KStr (js "BB")).
Proof. vm_compute. reflexivity. Qed.
Example sample_ok :
  size sample = 42 /\ get sample (KStr (js "Aa")) None = Some 1 /\ get sample (KStr (js "BB")) None = Some 2
  /\ get sample (KStr (js "k" ++ [60])) None = Some 60
  /\ get (remove sample (KStr (js "Aa"))) (KStr (js "BB")) None = Some 2
  /\ length (iterate true sample) = 42%nat /\ root (fold_left remove (fst <$> iterate false sample) sample) = None.
Proof. vm_compute. auto 10. Qed.

End ImmMap.
