(* ===== verification/ImmMapOk.v ===== *)
(** Correctness of the persistent hash map of [ImmMap]: a map refines a
    finite map from keys to values under every sequence of operations. *)

From stdpp Require Import base list list_numbers numbers strings gmap.
From Stdlib Require Import ZArith Lia.
From S2P Require Import Prelude ImmHash ImmMap.
Import ImmHash ImmMap.

Module ImmMapOk.

(** ** Bits of 32-bit integers *)

Abbreviation bit b i := (Z.testbit b (Z.of_nat i)).

Lemma to_int32_bit z i : (i < 32)%nat -> bit (Int32.to_int32 z) i = bit z i.
Proof.
  intros Hi. rewrite <- (Z.mod_pow2_bits_low (Int32.to_int32 z) 32), <- (Z.mod_pow2_bits_low z 32) by lia.
  by rewrite to_int32_mod.
Qed.

Lemma one_bit i j : (i < 32)%nat -> (j < 32)%nat -> bit (1 .<< Z.of_nat i) j = bool_decide (i = j).
Proof.
  intros Hi Hj. rewrite shl_mul, Z.mul_1_l, to_int32_bit by lia.
  destruct (decide (i = j)) as [->|Hn]; [|rewrite (bool_decide_eq_false_2 _ Hn)].
  - rewrite bool_decide_true by done. apply Z.pow2_bits_true. lia.
  - apply Z.pow2_bits_false. lia.
Qed.

Lemma bor_bit a b i : (i < 32)%nat -> bit (a .| b) i = bit a i || bit b i.
Proof. intros. unfold Int32.bor. by rewrite Z.lor_spec, !to_int32_bit by done. Qed.
Lemma bxor_bit a b i : (i < 32)%nat -> bit (a .^ b) i = xorb (bit a i) (bit b i).
Proof. intros. unfold Int32.bxor. by rewrite Z.lxor_spec, !to_int32_bit by done. Qed.
Lemma band_bit a b i : (i < 32)%nat -> bit (a .& b) i = bit a i && bit b i.
Proof. intros. unfold Int32.band. by rewrite Z.land_spec, !to_int32_bit by done. Qed.

(** Bits from 31 on repeat bit 31. *)
Lemma int32_high z i : is_int32 z -> 31 <= i -> Z.testbit z i = Z.testbit z 31.
Proof.
  intros Hz Hi. rewrite !Z.testbit_odd, !Z.shiftr_div_pow2 by lia.
  assert (2 ^ 31 <= 2 ^ i) by (apply Z.pow_le_mono_r; lia). destruct (Z.lt_ge_cases z 0).
  - rewrite <- (Z.div_unique z (2 ^ i) (-1) (z + 2 ^ i)), <- (Z.div_unique z (2 ^ 31) (-1) (z + 2 ^ 31)) by lia. done.
  - rewrite !Z.div_small by lia. done.
Qed.

Lemma bit_test b i : (i < 32)%nat -> ((b .& 1 .<< Z.of_nat i) =? 0) = negb (bit b i).
Proof.
  intros Hi. destruct (bit b i) eqn:E; cbn.
  - apply Z.eqb_neq. intros E0. assert (B := band_bit b (1 .<< Z.of_nat i) i Hi).
    rewrite E0, E, one_bit, bool_decide_true, Z.bits_0 in B by done. done.
  - apply Z.eqb_eq, Z.bits_inj'. intros j Hj. rewrite Z.bits_0.
    assert (G : ∀ j, (j < 32)%nat -> bit (b .& 1 .<< Z.of_nat i) j = false).
    { intros j' Hj'. rewrite band_bit, one_bit by done. case_bool_decide; [subst; by rewrite E|apply andb_false_r]. }
    destruct (Z.lt_ge_cases j 32).
    + rewrite <- (Z2Nat.id j) by lia. apply G. lia.
    + specialize (G 31%nat ltac:(lia)). unfold Int32.band in *. rewrite Z.land_spec in *.
      rewrite !(int32_high _ j) by (apply to_int32_range || lia). exact G.
Qed.

Lemma mask_below b i : (i < 32)%nat -> (b .& (1 .<< Z.of_nat i) - 1) = b mod 2 ^ Z.of_nat i.
Proof.
  intros Hi. rewrite shl_mul by lia. rewrite <- band_ones by lia. unfold Int32.band. f_equal.
  apply to_int32_eqm. rewrite Z.mul_1_l, <- Zminus_mod_idemp_l, to_int32_mod, Zminus_mod_idemp_l.
  by rewrite Z.ones_equiv, <- Z.sub_1_r.
Qed.

Lemma rank_ext a b n : (∀ i, (i < n)%nat -> bit a i = bit b i) -> rank a n = rank b n.
Proof. induction n as [|n IH]; intros E; [done|]. cbn. rewrite IH by auto. by rewrite E by lia. Qed.

Lemma rank_high b n m : (n <= m)%nat -> (∀ i, (n <= i < m)%nat -> bit b i = false) -> rank b m = rank b n.
Proof.
  intros Hm H. induction Hm as [|m Hm IH]; [done|]. cbn. rewrite IH by (intros; apply H; lia).
  rewrite H by lia. lia.
Qed.

(** The index of a child is the number of occupied slots below its own. *)
Lemma popCount_below b i : (i < 32)%nat -> popCount (b .& (1 .<< Z.of_nat i) - 1) = Z.of_nat (rank b i).
Proof.
  intros Hi. rewrite mask_below by done.
  assert (2 ^ Z.of_nat i <= 2 ^ 31) by (apply Z.pow_le_mono_r; lia).
  assert (0 < 2 ^ Z.of_nat i) by (apply Z.pow_pos_nonneg; lia).
  pose proof (Z.mod_pos_bound b (2 ^ Z.of_nat i) ltac:(lia)). rewrite popCount_rank by lia. f_equal.
  rewrite (rank_high _ i 32) by (try lia; intros j Hj; rewrite Z.mod_pow2_bits_high by lia; done).
  apply rank_ext. intros j Hj. apply Z.mod_pow2_bits_low. lia.
Qed.

Lemma bor_range a b : is_int32 (a .| b).
Proof.
  assert (I : ∀ z, is_int32 z <-> z / 2 ^ 31 = 0 \/ z / 2 ^ 31 = -1) by (intros; zdm).
  assert (Ha := to_int32_range a). assert (Hb := to_int32_range b). apply I in Ha, Hb. apply I. unfold Int32.bor.
  rewrite <- !Z.shiftr_div_pow2 in * by lia. rewrite Z.shiftr_lor.
  destruct Ha as [-> | ->], Hb as [-> | ->]; auto.
Qed.

(** Keys whose hash is a number. *)
Definition ordinary (k : key) : Prop := k <> KStr (js "propertyIsEnumerable").

Lemma hash_range k : ordinary k -> is_int32 (hash k).
Proof.
  intros Hk. destruct k as [| |[]| |s]; cbn [hash]; try lia; try apply bor_range.
  unfold inherited. rewrite decide_False by (intros ->; by apply Hk). apply bor_range.
Qed.

(** ** Slots of a hash *)

Definition slot (d : nat) (h : Z) : nat := Z.to_nat (Int32.to_uint32 h / 2 ^ (5 * Z.of_nat d) mod 32).

Lemma slot_lt d h : (slot d h < 32)%nat.
Proof.
  unfold slot. pose proof (Z.mod_pos_bound (Int32.to_uint32 h / 2 ^ (5 * Z.of_nat d)) 32). lia.
Qed.

Lemma hash_index_slot d h : (d <= 6)%nat -> hash_index (5 * Z.of_nat d) h = Z.of_nat (slot d h).
Proof.
  intros Hd. unfold hash_index, slot, MASK. rewrite band_31.
  rewrite Z2Nat.id by (apply Z.mod_pos_bound; lia). destruct (Z.eqb_spec 0 (5 * Z.of_nat d)) as [E|E].
  - rewrite <- E. change (2 ^ 0) with 1. rewrite Z.div_1_r. unfold Int32.to_uint32.
    by rewrite (Z.mod_mod_divide h (2 ^ 32) 32) by (exists (2 ^ 27); done).
  - unfold Int32.shr, Int32.shift_count. rewrite (Z.mod_small (5 * _) 32), Z.shiftr_div_pow2 by lia. done.
Qed.

(** Different hashes differ in one of the seven slots. *)
Lemma slots_eq h h' : is_int32 h -> is_int32 h' -> (∀ d, (d < 7)%nat -> slot d h = slot d h') -> h = h'.
Proof.
  intros Hh Hh' E. rewrite <- (to_int32_id h), <- (to_int32_id h') by done.
  rewrite <- (to_int32_uint32 h), <- (to_int32_uint32 h'). f_equal.
  pose proof (to_uint32_range h). pose proof (to_uint32_range h').
  unfold slot in E. set (a := Int32.to_uint32 h) in *. set (b := Int32.to_uint32 h') in *. clearbody a b.
  assert (E' : ∀ d, (d < 7)%nat -> a / 2 ^ (5 * Z.of_nat d) mod 32 = b / 2 ^ (5 * Z.of_nat d) mod 32).
  { intros d Hd. specialize (E d Hd).
    pose proof (Z.mod_pos_bound (a / 2 ^ (5 * Z.of_nat d)) 32). pose proof (Z.mod_pos_bound (b / 2 ^ (5 * Z.of_nat d)) 32). lia. }
  assert (S : ∀ n d, (d + n = 7)%nat -> a / 2 ^ (5 * Z.of_nat d) = b / 2 ^ (5 * Z.of_nat d)).
  { induction n as [|n IH]; intros d Hd.
    - replace d with 7%nat by lia. change (2 ^ _) with 34359738368. by rewrite !Z.div_small by lia.
    - specialize (E' d ltac:(lia)). specialize (IH (S d) ltac:(lia)).
      replace (5 * Z.of_nat (S d)) with (5 * Z.of_nat d + 5) in IH by lia.
      rewrite Z.pow_add_r, <- !Z.div_div in IH by (try apply Z.pow_nonzero; lia).
      change (2 ^ 5) with 32 in IH. zdm. }
  specialize (S 7%nat 0%nat eq_refl). change (2 ^ _) with 1 in S. by rewrite !Z.div_1_r in S.
Qed.

Section ok.
Context {V : Type} `{StrictEq V}.
Abbreviation entry := (key * V)%type.
Implicit Types (n c : @node V) (ch : list (option (@node V))) (e : entry) (es : list entry).

(** ** Slots of a node *)

(** The children of a bitmap node are its occupied slots in order. *)
Abbreviation occupied ch := (omap id ch).
Definition taken ch (i : nat) : bool := match ch !! i with Some (Some _) => true | _ => false end.
Definition bits_ok (b : Z) ch : Prop := ∀ i, (i < 32)%nat -> bit b i = taken ch i.

Lemma omap_take_S {A B} (f : A -> option B) (l : list A) i :
  omap f (take (S i) l) = omap f (take i l) ++ match l !! i with Some x => option_list (f x) | None => [] end.
Proof.
  destruct (l !! i) as [x|] eqn:E.
  - rewrite (take_S_r _ _ _ E), omap_app. cbn. by destruct (f x).
  - apply lookup_ge_None in E. rewrite !take_ge by lia. by rewrite app_nil_r.
Qed.

Lemma rank_occupied b ch i : bits_ok b ch -> (i <= 32)%nat -> rank b i = length (occupied (take i ch)).
Proof.
  intros Hb. induction i as [|i IH]; intros Hi; [done|].
  cbn [rank]. rewrite omap_take_S, length_app, IH, Hb by lia. unfold taken.
  destruct (ch !! i) as [[?|]|]; done.
Qed.

Lemma occupied_split ch i x : ch !! i = Some x ->
  occupied ch = occupied (take i ch) ++ option_list x ++ occupied (drop (S i) ch).
Proof. intros E. rewrite <- (take_drop_middle ch i x E) at 1. rewrite omap_app. cbn. by destruct x. Qed.

Lemma occupied_insert_split ch i x y : ch !! i = Some x ->
  occupied (<[i := y]> ch) = occupied (take i ch) ++ option_list y ++ occupied (drop (S i) ch).
Proof.
  intros E. apply lookup_lt_Some in E. rewrite insert_take_drop, omap_app by done. cbn. by destruct y.
Qed.

Section one_slot.
Context (ch : list (option (@node V))) (i : nat).
Let r := length (occupied (take i ch)).

Lemma occupied_lookup c : ch !! i = Some (Some c) -> occupied ch !! r = Some c.
Proof. intros E. rewrite (occupied_split _ _ _ E). apply list_lookup_middle. done. Qed.

Lemma occupied_set c c' : ch !! i = Some (Some c) -> <[r := c']> (occupied ch) = occupied (<[i := Some c']> ch).
Proof.
  intros E. rewrite (occupied_insert_split _ _ _ _ E), (occupied_split _ _ _ E). unfold r.
  by rewrite insert_app_r_alt, Nat.sub_diag by lia.
Qed.

Lemma occupied_in c' : ch !! i = Some None -> spliceIn (occupied ch) r c' = occupied (<[i := Some c']> ch).
Proof.
  intros E. rewrite (occupied_insert_split _ _ _ _ E), (occupied_split _ _ _ E). unfold r, spliceIn.
  rewrite take_app_length, drop_app_length. done.
Qed.

Lemma occupied_out c : ch !! i = Some (Some c) -> spliceOut (occupied ch) r = occupied (<[i := None]> ch).
Proof.
  intros E. rewrite (occupied_insert_split _ _ _ _ E), (occupied_split _ _ _ E). unfold r, spliceOut.
  rewrite take_app_length, <- Nat.add_1_r, <- drop_drop, drop_app_length. done.
Qed.

End one_slot.

Lemma taken_insert ch i x j : (i < length ch)%nat ->
  taken (<[i := x]> ch) j = if decide (i = j) then bool_decide (is_Some x) else taken ch j.
Proof.
  intros Hi. unfold taken. destruct (decide (i = j)) as [->|Hn].
  - rewrite list_lookup_insert_eq by done. by destruct x.
  - by rewrite list_lookup_insert_ne by done.
Qed.

Lemma taken_Some ch i c : ch !! i = Some (Some c) -> taken ch i = true.
Proof. unfold taken. by intros ->. Qed.

(** ** Well-formed tries *)

Abbreviation elems := (node_iterate false).

Lemma array_elems k ch : elems (HashArrayMapNode k ch) = concat (elems <$> occupied ch).
Proof. cbn. induction ch as [|[c|] ch IH]; cbn; [done| |done]. by rewrite IH. Qed.

Lemma elem_of_occupied ch c : c ∈ occupied ch <-> ∃ i, ch !! i = Some (Some c).
Proof.
  rewrite list_elem_of_omap. split.
  - intros ([x|] & Hx & Hi); [|done]. injection Hi as <-. by apply list_elem_of_lookup.
  - intros [i E]. exists (Some c). split; [by eapply list_elem_of_lookup_2|done].
Qed.

Lemma elem_of_slots ch e :
  e ∈ concat (elems <$> occupied ch) <-> ∃ i c, ch !! i = Some (Some c) /\ e ∈ elems c.
Proof.
  rewrite elem_of_concat. split.
  - intros (l & He & Hl). apply list_elem_of_fmap in Hl as (c & -> & Hc).
    apply elem_of_occupied in Hc as [i E]. eauto.
  - intros (i & c & E & He). exists (elems c). split; [done|]. apply list_elem_of_fmap.
    exists c. split; [done|]. apply elem_of_occupied. eauto.
Qed.

(** A trie at depth [d]: leaves hold entries of one hash, a branch holds in
    slot [i] the entries whose hash has [i] as digit [d], bitmap nodes have at
    most 16 children, array nodes at least 8, and no branch has a single
    leaf. *)
Inductive wf : nat -> node -> Prop :=
  | wf_value d k v : is_int32 (hash k) -> wf d (ValueNode (hash k) (k, v))
  | wf_collision d h es :
      (2 <= length es)%nat -> NoDup es.*1 -> (∀ e, e ∈ es -> hash (fst e) = h) -> is_int32 h ->
      wf d (HashCollisionNode h es)
  | wf_bitmap d b ch :
      (d <= 6)%nat -> length ch = 32%nat -> bits_ok b ch ->
      (∀ i c, ch !! i = Some (Some c) -> wf (S d) c) ->
      (∀ i c e, ch !! i = Some (Some c) -> e ∈ elems c -> slot d (hash (fst e)) = i) ->
      (1 <= length (occupied ch) <= 16)%nat ->
      (∀ c, occupied ch = [c] -> isLeafNode c = false) ->
      wf d (BitmapIndexedNode b (occupied ch))
  | wf_array d k ch :
      (d <= 6)%nat -> length ch = 32%nat ->
      (∀ i c, ch !! i = Some (Some c) -> wf (S d) c) ->
      (∀ i c e, ch !! i = Some (Some c) -> e ∈ elems c -> slot d (hash (fst e)) = i) ->
      k = len (occupied ch) -> (8 <= length (occupied ch))%nat ->
      wf d (HashArrayMapNode k ch).

Lemma wf_leaf d d' n : isLeafNode n = true -> wf d n -> wf d' n.
Proof. intros Hl Hw. revert Hl. destruct Hw; intros Hl; [by apply wf_value|by apply wf_collision|done|done]. Qed.

Lemma wf_nonempty d n : wf d n -> elems n <> [].
Proof.
  assert (G : ∀ ch, (1 <= length (occupied ch))%nat ->
    (∀ i c, ch !! i = Some (Some c) -> elems c <> []) -> concat (elems <$> occupied ch) <> []).
  { intros ch Hl Hc. destruct (occupied ch) as [|c l] eqn:E; [cbn in Hl; lia|].
    assert (Hin : c ∈ occupied ch) by (rewrite E; left). apply elem_of_occupied in Hin as [i Hi].
    specialize (Hc i c Hi). cbn. by destruct (elems c). }
  induction 1 as [|d h es Hl ? ? ?| d b ch ? ? ? _ IH| d k ch ? ? _ IH].
  - done.
  - cbn. intros ->. cbn in Hl. lia.
  - cbn. apply G; [lia|done].
  - rewrite array_elems. apply G; [lia|done].
Qed.

Lemma slots_NoDup (sl : key -> nat) o ch :
  (∀ i c, ch !! i = Some (Some c) -> NoDup (elems c).*1) ->
  (∀ i c e, ch !! i = Some (Some c) -> e ∈ elems c -> sl (fst e) = (o + i)%nat) ->
  NoDup (concat (elems <$> occupied ch)).*1.
Proof.
  revert o. induction ch as [|x ch IH]; intros o Hn Hs; [constructor|].
  assert (IH' : NoDup (concat (elems <$> occupied ch)).*1).
  { apply (IH (S o)); intros i c; [apply (Hn (S i))|]. intros e E He. rewrite (Hs (S i) c e E He). lia. }
  destruct x as [c|]; [|done]. cbn. rewrite fmap_app, NoDup_app. split_and!; [by apply (Hn 0%nat)| |done].
  intros k Hk Hk'. apply list_elem_of_fmap in Hk as (e & -> & He), Hk' as (e' & E & He').
  apply elem_of_slots in He' as (i & c' & Hi & He'). specialize (Hs 0%nat c e eq_refl He) as H0.
  specialize (Hs (S i) c' e' Hi He'). rewrite E in H0. lia.
Qed.

Lemma wf_NoDup d n : wf d n -> NoDup (elems n).*1.
Proof.
  induction 1 as [|d h es Hl ? ? ?| d b ch ? ? ? _ IH Hs| d k ch ? ? _ IH Hs].
  - cbn. apply NoDup_singleton.
  - done.
  - cbn. by apply (slots_NoDup (λ k, slot d (hash k)) 0).
  - rewrite array_elems. by apply (slots_NoDup (λ k, slot d (hash k)) 0).
Qed.

(** ** Entry lists *)

(** [es'] is [es] with the value of [k] set ([Some v]) or removed ([None]). *)
Definition upd (k : key) (ov : option V) es es' : Prop :=
  ∀ e, e ∈ es' <-> (fst e <> k /\ e ∈ es) \/ (fst e = k /\ ov = Some (snd e)).

Definition present (k : key) es : Prop := ∃ v, (k, v) ∈ es.

(** The update is not one to a value that is there already. *)
Definition fresh (k : key) (ov : option V) es : Prop :=
  ∀ v, ov = Some v -> (k, v) ∈ es -> same v v = false.

Lemma fresh_absent k ov es : ~ present k es -> fresh k ov es.
Proof. intros Hp v _ Hv. exfalso. apply Hp. by exists v. Qed.

Lemma fresh_None k es : fresh k None es.
Proof. by intros v [=]. Qed.

Lemma find_index_Some k es l : find_index k es = Some l -> ∃ v, es !! l = Some (k, v).
Proof.
  revert l. induction es as [|[k' v] es IH]; intros l Hl; cbn in Hl; [done|].
  unfold immutable_is in Hl. case_bool_decide; [injection Hl as <-; subst; by exists v|].
  destruct (find_index k es) as [l'|]; [|done]. injection Hl as <-. by apply IH.
Qed.

Lemma find_index_None k es : find_index k es = None -> ~ present k es.
Proof.
  induction es as [|[k' v] es IH]; cbn; [intros _ [v Hv]; by apply not_elem_of_nil in Hv|].
  unfold immutable_is. case_bool_decide as E; [done|]. intros Hf [v' Hv].
  destruct (find_index k es); [done|]. apply elem_of_cons in Hv as [Hv|Hv]; [congruence|].
  by apply IH; [|exists v'].
Qed.

Lemma entries_get_in k v es ns : NoDup es.*1 -> (k, v) ∈ es -> entries_get k es ns = Some v.
Proof.
  induction es as [|[k' v'] es IH]; cbn; intros Hn Hin; [by apply not_elem_of_nil in Hin|].
  apply NoDup_cons in Hn as [Hk Hn]. unfold immutable_is. apply elem_of_cons in Hin as [E|Hin].
  - injection E as -> ->. by rewrite bool_decide_true.
  - rewrite bool_decide_false; [by apply IH|]. intros ->. apply Hk.
    apply list_elem_of_fmap. by exists (k', v).
Qed.

Lemma entries_get_notin k es ns : ~ present k es -> entries_get k es ns = ns.
Proof.
  induction es as [|[k' v'] es IH]; cbn; [done|]. intros Hp. unfold immutable_is. rewrite bool_decide_false.
  - apply IH. intros [v Hv]. apply Hp. exists v. by right.
  - intros ->. apply Hp. exists v'. left.
Qed.

Lemma not_present_upd k v es es' : ~ present k es -> es' ≡ₚ (k, v) :: es -> upd k (Some v) es es'.
Proof.
  intros Hp E [k' v']. rewrite E, elem_of_cons. cbn. split.
  - intros [[= -> ->]|Hin]; [by right|]. left. split; [|done]. intros ->. apply Hp. by exists v'.
  - intros [[_ ?]|[-> [= ->]]]; auto.
Qed.

Lemma present_upd k v0 ov es es' rest : NoDup es.*1 -> es ≡ₚ (k, v0) :: rest ->
  es' ≡ₚ match ov with Some v => (k, v) :: rest | None => rest end ->
  upd k ov es es' /\ NoDup es'.*1.
Proof.
  intros Hn E E'. rewrite E in Hn. apply NoDup_cons in Hn as [Hk Hn]. split.
  - intros [k' v']. rewrite E', E, elem_of_cons. cbn.
    assert (D : (k', v') ∈ rest -> k' <> k).
    { intros Hin ->. apply Hk, list_elem_of_fmap. by exists (k, v'). }
    destruct ov as [v|]; rewrite ?elem_of_cons; naive_solver.
  - rewrite E'. destruct ov; [|done]. by apply NoDup_cons.
Qed.

Lemma insert_Permutation {A} (l : list A) i x : (i < length l)%nat -> <[i := x]> l ≡ₚ x :: delete i l.
Proof. intros Hi. rewrite insert_take_drop, delete_take_drop by done. symmetry. apply Permutation_middle. Qed.

Lemma entries_remove_Permutation es l : (l < length es)%nat -> entries_remove es l ≡ₚ delete l es.
Proof.
  intros Hl. unfold entries_remove, len. destruct es as [|z es _] using rev_ind; [cbn in Hl; lia|].
  rewrite length_app in *. cbn [length] in *. replace (length es + 1 - 1)%nat with (length es) by lia.
  rewrite take_app_length, last_snoc. destruct (Z.eqb_spec (Z.of_nat l) (Z.of_nat (length es + 1) - 1)) as [E|E].
  - rewrite delete_take_drop, drop_ge by (rewrite length_app; cbn; lia). rewrite app_nil_r.
    by rewrite take_app_le, take_ge by lia.
  - rewrite insert_Permutation by lia. rewrite !delete_take_drop, take_app_le, drop_app_le by lia.
    rewrite app_assoc. apply Permutation_cons_append.
Qed.

Lemma NoDup_fst_functional es k v v' : NoDup es.*1 -> (k, v) ∈ es -> (k, v') ∈ es -> v = v'.
Proof.
  intros Hn Hv Hv'. assert (E := entries_get_in k v es None Hn Hv).
  rewrite (entries_get_in k v' es None Hn Hv') in E. by injection E.
Qed.

(** The new entries of an array map or collision node. *)
Lemma entries_update_ok k ov es found : NoDup es.*1 -> find_index k es = found -> no_change es found ov = false ->
  upd k ov es (entries_update es found k ov) /\ NoDup (entries_update es found k ov).*1
  /\ length (entries_update es found k ov)
     = match ov, found with None, _ => (length es - 1)%nat | _, None => S (length es) | _, _ => length es end
  /\ match ov with None => present k es | Some _ => True end
  /\ (size_change found ov = true <-> ov = None \/ ~ present k es) /\ fresh k ov es.
Proof.
  intros Hn <- Hc. destruct (find_index k es) as [l|] eqn:E.
  - apply find_index_Some in E as [v0 E]. assert (Hl := lookup_lt_Some _ _ _ E).
    assert (P : present k es) by (exists v0; by eapply list_elem_of_lookup_2).
    assert (Hp : es ≡ₚ (k, v0) :: delete l es) by (by apply delete_Permutation).
    destruct ov as [v|]; cbn [entries_update size_change].
    + split_and!; [..|rewrite length_insert; done|done| |].
      1,2: apply (present_upd k v0 (Some v) es _ (delete l es)); [done|done|by apply insert_Permutation].
      * split; [done|]. by intros [?|?].
      * intros v' [= <-] Hv. cbn in Hc. rewrite E in Hc.
        assert (v0 = v) as ->; [|done]. apply list_elem_of_lookup in Hv as [l' Hl'].
        apply (NoDup_fst_functional es k); [done| |]; by eapply list_elem_of_lookup_2.
    + split_and!; [..|done|tauto|apply fresh_None].
      1,2: apply (present_upd k v0 None es _ (delete l es)); [done|done|by apply entries_remove_Permutation].
      rewrite entries_remove_Permutation by done. apply length_delete. by rewrite E.
  - destruct ov as [v|]; [|done]. cbn [entries_update size_change].
    apply find_index_None in E. assert (P : es ++ [(k, v)] ≡ₚ (k, v) :: es) by (symmetry; apply Permutation_cons_append).
    split_and!; [by apply not_present_upd| |rewrite length_app; cbn; lia|done|tauto|by apply fresh_absent].
    rewrite P. cbn. apply NoDup_cons. split; [|done]. intros Hin. apply E.
    apply list_elem_of_fmap in Hin as ([k' v'] & -> & ?). by exists v'.
Qed.

(** When an update is declined there is nothing to update. *)
Lemma no_change_ok k ov es : NoDup es.*1 -> no_change es (find_index k es) ov = true ->
  match ov with Some v => (k, v) ∈ es | None => ~ present k es end.
Proof.
  intros Hn Hc. destruct (find_index k es) as [l|] eqn:E; cbn in Hc.
  - apply find_index_Some in E as [v0 E]. rewrite E in Hc. destruct ov as [v|]; [|done].
    apply same_eq in Hc as ->. by eapply list_elem_of_lookup_2.
  - destruct ov; [done|]. by apply find_index_None.
Qed.

(** ** Lookup *)

Lemma shift_S d : 5 * Z.of_nat d + SHIFT = 5 * Z.of_nat (S d).
Proof. unfold SHIFT. lia. Qed.

(** The child a branch looks up is the one in the slot of the hash. *)
Lemma bitmap_child {B} (f : node -> B) x b ch i : bits_ok b ch -> (i < 32)%nat ->
  (if (b .& 1 .<< Z.of_nat i) =? 0 then x
   else pick f x (occupied ch) (Z.to_nat (popCount (b .& (1 .<< Z.of_nat i) - 1))))
  = match ch !! i with Some (Some c) => f c | _ => x end.
Proof.
  intros Hb Hi. rewrite bit_test, Hb by done. unfold taken.
  destruct (ch !! i) as [[c|]|] eqn:E; [|done..]. cbn [negb].
  rewrite popCount_below, Nat2Z.id, (rank_occupied b ch) by (done || lia).
  by rewrite pick_lookup, (occupied_lookup _ _ _ E).
Qed.

Lemma array_child {B} (f : node -> B) x ch i :
  pick (λ o, match o with Some c => f c | None => x end) x ch i
  = match ch !! i with Some (Some c) => f c | _ => x end.
Proof. rewrite pick_lookup. by destruct (ch !! i) as [[c|]|]. Qed.

Lemma slot_of_entry d ch i c e k :
  (∀ i c e, ch !! i = Some (Some c) -> e ∈ elems c -> slot d (hash (fst e)) = i) ->
  ch !! i = Some (Some c) -> e ∈ elems c -> fst e = k -> i = slot d (hash k).
Proof. intros Hs E He <-. by rewrite (Hs i c e E He). Qed.

Lemma node_get_ok d n oh k ns : wf d n -> default (hash k) oh = hash k ->
  (∀ v, (k, v) ∈ elems n -> node_get n (5 * Z.of_nat d) oh k ns = Some v)
  /\ (~ present k (elems n) -> node_get n (5 * Z.of_nat d) oh k ns = ns).
Proof.
  intros Hw. revert oh.
  induction Hw as [d k' v' Hr|d h es Hl Hn Hh Hr|d b ch Hd Hl Hb _ IH Hs|d kk ch Hd Hl _ IH Hs]; intros oh Ho.
  - cbn. unfold immutable_is. split.
    + intros v Hv. apply list_elem_of_singleton in Hv as [= -> ->]. by rewrite bool_decide_true.
    + intros Hp. rewrite bool_decide_false; [done|]. intros ->. apply Hp. exists v'. left.
  - cbn. split; [intros v; by apply entries_get_in|apply entries_get_notin].
  - cbn [node_get node_iterate]. rewrite Ho, hash_index_slot, bitmap_child, shift_S by (done || apply slot_lt).
    split.
    + intros v Hv. apply elem_of_slots in Hv as (i & c & E & He).
      rewrite <- (slot_of_entry d ch i c _ k Hs E He eq_refl), E. by apply (IH i c E (Some (hash k))).
    + intros Hp. destruct (ch !! _) as [[c|]|] eqn:E; [|done..].
      apply (IH _ c E (Some (hash k))); [done|]. intros [v Hv]. apply Hp. exists v. apply elem_of_slots. eauto.
  - rewrite array_elems. cbn [node_get]. rewrite Ho, hash_index_slot, Nat2Z.id, array_child, shift_S by done.
    split.
    + intros v Hv. apply elem_of_slots in Hv as (i & c & E & He).
      rewrite <- (slot_of_entry d ch i c _ k Hs E He eq_refl), E. by apply (IH i c E (Some (hash k))).
    + intros Hp. destruct (ch !! _) as [[c|]|] eqn:E; [|done..].
      apply (IH _ c E (Some (hash k))); [done|]. intros [v Hv]. apply Hp. exists v. apply elem_of_slots. eauto.
Qed.

(** ** Joining a leaf and an entry of another hash *)

Lemma bits_join_two a b i : (a < 32)%nat -> (b < 32)%nat -> (i < 32)%nat ->
  bit (1 .<< Z.of_nat a .| 1 .<< Z.of_nat b) i = bool_decide (a = i) || bool_decide (b = i).
Proof. intros. by rewrite bor_bit, !one_bit by done. Qed.

(** The slots with [x] at [a], and with [y] at [b] as well. *)
Definition one_slot (a : nat) n : list (option node) := <[a := Some n]> (replicate 32 None).
Definition two_slots (a b : nat) n c : list (option node) := <[a := Some n]> (one_slot b c).

Lemma occupied_replicate m : occupied (replicate m (@None (@node V))) = [].
Proof. by induction m. Qed.

Lemma occupied_one a n : (a < 32)%nat -> occupied (one_slot a n) = [n].
Proof.
  intros Ha. unfold one_slot. rewrite (occupied_insert_split _ _ None) by (by apply lookup_replicate_2).
  by rewrite take_replicate, drop_replicate, !occupied_replicate.
Qed.

Lemma one_slot_lookup a n i c : (a < 32)%nat -> one_slot a n !! i = Some (Some c) -> i = a /\ c = n.
Proof.
  unfold one_slot. intros Ha E. apply list_lookup_insert_Some in E as [(-> & [= ->] & _)|[Hn E]]; [done|].
  apply lookup_replicate in E as [? _]. done.
Qed.

Lemma two_slots_lookup a b n m i c : (a < 32)%nat -> (b < 32)%nat -> a <> b ->
  two_slots a b n m !! i = Some (Some c) -> (i = a /\ c = n) \/ (i = b /\ c = m).
Proof.
  intros Ha Hb Hab E. unfold two_slots in E. apply list_lookup_insert_Some in E as [(-> & [= ->] & _)|[Hn E]]; [auto|].
  right. by apply one_slot_lookup in E.
Qed.

Lemma occupied_two a b n c : (a < 32)%nat -> (b < 32)%nat -> a <> b ->
  occupied (two_slots a b n c) = if (a <? b)%nat then [n; c] else [c; n].
Proof.
  intros Ha Hb Hn. unfold two_slots.
  assert (E : one_slot b c !! a = Some None).
  { unfold one_slot. rewrite list_lookup_insert_ne by done. by apply lookup_replicate_2. }
  rewrite (occupied_insert_split _ _ _ _ E). unfold one_slot. destruct (Nat.ltb_spec a b).
  - rewrite take_insert_ge by lia. rewrite take_replicate, occupied_replicate.
    rewrite drop_insert_ge by lia. rewrite drop_replicate.
    rewrite (occupied_insert_split _ _ None) by (apply lookup_replicate_2; lia).
    by rewrite take_replicate, drop_replicate, !occupied_replicate.
  - rewrite drop_insert_lt by lia. rewrite drop_replicate, occupied_replicate.
    rewrite take_insert_lt by lia. rewrite take_replicate.
    rewrite (occupied_insert_split _ _ None) by (apply lookup_replicate_2; lia).
    by rewrite take_replicate, drop_replicate, !occupied_replicate.
Qed.

Lemma taken_one a n i : (a < 32)%nat -> taken (one_slot a n) i = bool_decide (a = i).
Proof.
  intros Ha. unfold one_slot. rewrite taken_insert by (rewrite length_replicate; lia).
  destruct (decide (a = i)); [by rewrite !bool_decide_true by eauto|]. rewrite bool_decide_false by done.
  unfold taken. destruct (replicate 32 None !! i) as [x|] eqn:E; [|done].
  by apply lookup_replicate in E as [-> _].
Qed.

Lemma taken_two a b n c i : (a < 32)%nat -> (b < 32)%nat ->
  taken (two_slots a b n c) i = bool_decide (a = i) || bool_decide (b = i).
Proof.
  intros Ha Hb. unfold two_slots. rewrite taken_insert by (unfold one_slot; rewrite length_insert, length_replicate; lia).
  destruct (decide (a = i)); [by rewrite !bool_decide_true by eauto|]. by rewrite bool_decide_false, taken_one.
Qed.

Lemma one_slot_length a n : length (one_slot a n) = 32%nat.
Proof. unfold one_slot. by rewrite length_insert. Qed.

Lemma mergeIntoNode_ok fuel d n hn k v : isLeafNode n = true -> wf d n ->
  (∀ e, e ∈ elems n -> hash (fst e) = hn) -> is_int32 hn -> is_int32 (hash k) -> hn <> hash k ->
  (∀ j, (j < d)%nat -> slot j hn = slot j (hash k)) -> (7 <= fuel + d)%nat ->
  let m := mergeIntoNode fuel n hn (5 * Z.of_nat d) (hash k) (k, v) in
  wf d m /\ isLeafNode m = false /\ (∀ e, e ∈ elems m <-> e = (k, v) \/ e ∈ elems n).
Proof.
  intros Hleaf Hw Hh Hr Hk Hne. revert d Hw. induction fuel as [|fuel IH]; intros d Hw Hj Hf.
  { exfalso. apply Hne, slots_eq; [done|done|]. intros j Hj'. apply Hj. lia. }
  assert (Hd : (d <= 6)%nat).
  { destruct (decide (d <= 6)%nat); [done|]. exfalso. apply Hne, slots_eq; [done|done|].
    intros j Hj'. apply Hj. lia. }
  cbn [mergeIntoNode]. rewrite !hash_index_slot, shift_S by done.
  set (a := slot d hn). set (b := slot d (hash k)).
  assert (Ha : (a < 32)%nat) by apply slot_lt. assert (Hb : (b < 32)%nat) by apply slot_lt.
  destruct (Z.eqb_spec (Z.of_nat a) (Z.of_nat b)) as [E|E].
  - assert (E' : a = b) by lia.
    assert (Hj' : ∀ j, (j < S d)%nat -> slot j hn = slot j (hash k)).
    { intros j ?. destruct (decide (j = d)) as [->|]; [done|apply Hj; lia]. }
    destruct (IH (S d) (wf_leaf _ _ _ Hleaf Hw) Hj' ltac:(lia)) as (Hw' & Hl & He).
    set (m := mergeIntoNode _ _ _ _ _ _) in *. rewrite <- (occupied_one a m) by done. split_and!; [|done|].
    + apply wf_bitmap; rewrite ?occupied_one; try done; [apply one_slot_length| | | |cbn; lia|by intros ? [= <-]].
      * intros i Hi. rewrite bits_join_two, taken_one by done. rewrite <- E'. by destruct (bool_decide _).
      * intros i c Hi. by apply one_slot_lookup in Hi as [-> ->].
      * intros i c e Hi He'. apply one_slot_lookup in Hi as [-> ->]; [|done].
        apply He in He' as [->|He']; [by rewrite E'|by rewrite (Hh e He')].
    + intros e. cbn [node_iterate]. rewrite occupied_one by done. cbn. by rewrite app_nil_r.
  - assert (E' : a <> b) by lia. set (i := ValueNode (hash k) (k, v)).
    assert (Eo : (if Z.of_nat a <? Z.of_nat b then [n; i] else [i; n]) = occupied (two_slots a b n i)).
    { rewrite occupied_two by done. destruct (Z.ltb_spec (Z.of_nat a) (Z.of_nat b)), (Nat.ltb_spec a b); done || lia. }
    rewrite Eo. split_and!; [|done|].
    + apply wf_bitmap; rewrite <- ?Eo; try done.
      * unfold two_slots. rewrite length_insert. apply one_slot_length.
      * intros j Hj'. by rewrite bits_join_two, taken_two by done.
      * intros j c Hc. apply two_slots_lookup in Hc as [[-> ->]|[-> ->]]; try done; [by eapply wf_leaf|by apply wf_value].
      * intros j c e Hc He. apply two_slots_lookup in Hc as [[-> ->]|[-> ->]]; try done; [by rewrite (Hh e He)|].
        apply list_elem_of_singleton in He as ->. done.
      * destruct (_ <? _); cbn; lia.
      * destruct (_ <? _); by intros ? [=].
    + intros e. cbn [node_iterate]. rewrite <- Eo. destruct (_ <? _); cbn; rewrite ?app_nil_r; set_solver.
Qed.

(** ** Branches *)

Definition slot_elems (o : option (@node V)) : list entry := match o with Some c => elems c | None => [] end.

Abbreviation slots_wf d ch := (∀ i c, ch !! i = Some (Some c) -> wf (S d) c).
Abbreviation slots_at d ch :=
  (∀ i c e, ch !! i = Some (Some c) -> e ∈ elems c -> slot d (hash (fst e)) = i).

Section branch.
Context (d : nat) (k : key) (ov : option V) (ch : list (option (@node V))) (x0 : option (@node V)).
Let i := slot d (hash k).
Hypothesis (Hwf : slots_wf d ch) (Hat : slots_at d ch) (Hx0 : ch !! i = Some x0).

Lemma slots_in v : (k, v) ∈ concat (elems <$> occupied ch) -> (k, v) ∈ slot_elems x0.
Proof using Hat Hx0.
  intros Hv. apply elem_of_slots in Hv as (j & c & E & He).
  rewrite (slot_of_entry d ch j c _ k Hat E He eq_refl) in E. fold i in E. rewrite Hx0 in E. by injection E as ->.
Qed.

Lemma in_slots v : (k, v) ∈ slot_elems x0 -> (k, v) ∈ concat (elems <$> occupied ch).
Proof using Hx0.
  intros Hv. destruct x0 as [c|]; [|by apply not_elem_of_nil in Hv]. apply elem_of_slots. eauto.
Qed.

Lemma present_slots : present k (concat (elems <$> occupied ch)) <-> present k (slot_elems x0).
Proof using Hat Hx0.
  unfold present. split; intros [v Hv]; exists v.
  - by apply slots_in.
  - by apply in_slots.
Qed.

Context (x : option (@node V)).
Hypothesis (Hx : upd k ov (slot_elems x0) (slot_elems x)) (Hxw : ∀ c, x = Some c -> wf (S d) c).
Let ch' := <[i := x]> ch.

Lemma slots_set_lookup j c : ch' !! j = Some (Some c) <-> (j = i /\ x = Some c) \/ (j <> i /\ ch !! j = Some (Some c)).
Proof using Hx0.
  clear Hwf Hat Hx Hxw. unfold ch'. apply lookup_lt_Some in Hx0. destruct (decide (j = i)) as [->|Hn].
  - rewrite list_lookup_insert_eq by done. naive_solver.
  - rewrite list_lookup_insert_ne by done. naive_solver.
Qed.

Lemma slots_set_wf : slots_wf d ch'.
Proof using Hwf Hx0 Hxw. intros j c E. apply slots_set_lookup in E as [[-> E]|[_ E]]; eauto. Qed.

Lemma slots_set_at : slots_at d ch'.
Proof using Hat Hx Hx0.
  clear Hxw Hwf. intros j c e E He. apply slots_set_lookup in E as [[-> E]|[_ E]]; [|by eapply Hat].
  subst x. apply Hx in He as [[Hne He]|[<- _]]; [|done].
  destruct x0 as [c0|]; [|by apply not_elem_of_nil in He]. by eapply Hat.
Qed.

Lemma slots_set_upd : upd k ov (concat (elems <$> occupied ch)) (concat (elems <$> occupied ch')).
Proof using Hat Hx Hx0.
  clear Hxw Hwf. intros e. rewrite !elem_of_slots. split.
  - intros (j & c & E & He). apply slots_set_lookup in E as [[-> E]|[Hn E]].
    + subst x. apply Hx in He as [[Hne He]|He]; [left|by right].
      destruct x0 as [c0|]; [|by apply not_elem_of_nil in He]. split; [done|]. eauto.
    + left. split; [|eauto]. intros <-. apply Hn. symmetry. by eapply Hat.
  - intros Ho. assert (G : (∃ c, x = Some c /\ e ∈ elems c) \/ ∃ j c, j <> i /\ ch !! j = Some (Some c) /\ e ∈ elems c).
    { destruct Ho as [[Hne (j & c & E & He)]|He].
      - destruct (decide (j = i)) as [->|]; [|right; eauto]. left. rewrite Hx0 in E. injection E as ->.
        assert (e ∈ slot_elems x) as He' by (apply Hx; left; done). destruct x; [eauto|by apply not_elem_of_nil in He'].
      - left. assert (e ∈ slot_elems x) as He' by (apply Hx; by right). destruct x; [eauto|by apply not_elem_of_nil in He']. }
    destruct G as [(c & E & He)|(j & c & Hn & E & He)].
    + exists i, c. split; [apply slots_set_lookup; auto|done].
    + exists j, c. split; [apply slots_set_lookup; auto|done].
Qed.

Lemma slots_set_length : length ch' = length ch.
Proof. apply length_insert. Qed.

End branch.

(** What an update of a node at depth [d] must return. *)
Definition update_spec (d : nat) n (k : key) (ov : option V) (r : updated) : Prop :=
  match r with
  | (Same, c, a) =>
      c = false /\ a = false /\ match ov with Some v => (k, v) ∈ elems n | None => ~ present k (elems n) end
  | (Gone, c, a) => c = true /\ a = true /\ ov = None /\ isLeafNode n = true /\ ∃ v, elems n = [(k, v)]
  | (New n', c, a) =>
      a = true /\ wf d n' /\ upd k ov (elems n) (elems n') /\ (ov = None -> present k (elems n)) /\
      (c = true <-> ov = None \/ ~ present k (elems n)) /\ fresh k ov (elems n)
  end.

(** The same for the child in a slot. *)
Definition child_spec (d : nat) (x0 : option node) (k : key) (ov : option V) (r : updated) : Prop :=
  match x0 with
  | Some c => update_spec d c k ov r
  | None => r = updateMissing (hash k) k ov
  end.

(** The slot after the child's update. *)
Definition slot_after (x0 : option (@node V)) (o : outcome) : option (@node V) :=
  match o with Same => x0 | Gone => None | New c => Some c end.

Lemma child_spec_upd d x0 k ov o cs a : is_int32 (hash k) -> child_spec d x0 k ov (o, cs, a) -> o <> Same ->
  upd k ov (slot_elems x0) (slot_elems (slot_after x0 o)) /\
  (∀ n, slot_after x0 o = Some n -> wf d n) /\ a = true /\
  (ov = None -> present k (slot_elems x0)) /\ (cs = true <-> ov = None \/ ~ present k (slot_elems x0)) /\
  fresh k ov (slot_elems x0).
Proof.
  intros Hk Hc Ho. destruct x0 as [c0|]; cbn in Hc.
  - destruct o as [| |n']; [done| |].
    + destruct Hc as (-> & -> & -> & _ & v & E). cbn. rewrite E. split_and!; try done.
      * intros [k' v']. rewrite list_elem_of_singleton. cbn. split; [by intros ?%not_elem_of_nil|].
        intros [[Hn [= -> ->]]|[_ [=]]]. done.
      * intros _. exists v. left.
      * tauto.
    + destruct Hc as (-> & Hw & Hu & Hp & Hcc & Hf). cbn. split_and!; try done. by intros ? [= <-].
  - destruct ov as [v|]; [|by injection Hc as ->]. injection Hc as -> -> ->. cbn. split_and!; try done.
    + intros [k' v']. rewrite list_elem_of_singleton. cbn. split.
      * intros [= -> ->]. by right.
      * intros [[_ ?%not_elem_of_nil]|[-> [= ->]]]; done.
    + intros n [= <-]. by apply wf_value.
    + split; [|done]. intros _. right. intros [v' Hv]. by apply not_elem_of_nil in Hv.
    + by intros v' _ ?%not_elem_of_nil.
Qed.

(** ** Spreading and packing the slots *)

Lemma shr1_bit z i : (S i < 32)%nat -> bit (z .>>> 1) i = bit z (S i).
Proof.
  intros Hi. unfold Int32.shr, Int32.shift_count, Int32.to_uint32. change (1 mod 32) with 1.
  rewrite Z.shiftr_spec, Z.mod_pow2_bits_low by lia. f_equal. lia.
Qed.

Lemma band_1_bit z : ((1 .& z) =? 0) = negb (bit z 0).
Proof. rewrite band_comm. apply (bit_test z 0). lia. Qed.

Lemma expand_slots_ok b ch : (length ch <= 32)%nat -> (∀ i, (i < length ch)%nat -> bit b i = taken ch i) ->
  expand_slots (length ch) b (occupied ch) = ch.
Proof.
  revert b. induction ch as [|x ch IH]; intros b Hl Hb; [done|]. cbn [length] in *.
  assert (H0 := Hb 0%nat ltac:(lia)). cbn [expand_slots]. rewrite band_1_bit, H0.
  assert (E : expand_slots (length ch) (b .>>> 1) (occupied ch) = ch).
  { apply IH; [lia|]. intros i Hi. rewrite shr1_bit by lia. apply (Hb (S i)). lia. }
  destruct x as [c|]; cbn; by rewrite E.
Qed.

(** The slots of [t], with slot [r] emptied, starting from slot [u]. *)
Definition emptied (r u : nat) (t : list (option (@node V))) : list (option node) :=
  imap (λ i x, if decide (u + i = r)%nat then None else x) t.

Lemma emptied_cons r u x t :
  emptied r u (x :: t) = (if decide (u = r) then None else x) :: emptied r (S u) t.
Proof.
  unfold emptied. cbn. rewrite Nat.add_0_r. f_equal. apply imap_ext. intros i y _. cbn.
  by rewrite Nat.add_succ_r.
Qed.

Lemma emptied_insert r t : emptied r 0 t = <[r := None]> t.
Proof.
  apply list_eq. intros i. unfold emptied. rewrite list_lookup_imap. cbn. destruct (decide (i = r)) as [->|Hn].
  - destruct (decide (r < length t)%nat).
    + rewrite list_lookup_insert_eq by done. by apply lookup_lt_is_Some_2 in l as [x ->].
    + rewrite list_insert_ge by lia. by rewrite lookup_ge_None_2 by lia.
  - rewrite list_lookup_insert_ne by done. by destruct (t !! i).
Qed.

Lemma pack_slots_ok t u r o : (u + length t <= 32)%nat ->
  let '(o', l) := pack_slots t (Z.of_nat u) (1 .<< Z.of_nat u) (Z.of_nat r) o in
  l = occupied (emptied r u t) /\
  ∀ i, (i < 32)%nat -> bit o' i = bit o i || ((u <=? i)%nat && taken (emptied r u t) (i - u)).
Proof.
  revert u o. induction t as [|x t IH]; intros u o Hu.
  { cbn. split; [done|]. intros i Hi. by rewrite andb_false_r, orb_false_r. }
  cbn [length] in Hu. cbn [pack_slots]. rewrite emptied_cons.
  assert (Es : ∀ oo, pack_slots t (Z.of_nat u + 1) (1 .<< Z.of_nat u .<< 1) (Z.of_nat r) oo
             = pack_slots t (Z.of_nat (S u)) (1 .<< Z.of_nat (S u)) (Z.of_nat r) oo).
  { intros oo. destruct t as [|y t]; [done|]. cbn [length] in Hu. f_equal; [lia|].
    rewrite !shl_mul by lia. apply to_int32_eqm. rewrite <- Zmult_mod_idemp_l, to_int32_mod, Zmult_mod_idemp_l.
    f_equal. rewrite Nat2Z.inj_succ, Z.pow_succ_r by lia. lia. }
  assert (Ht : ∀ y i, (i < 32)%nat -> (u <=? i)%nat && taken (y :: emptied r (S u) t) (i - u)
    = (bool_decide (u = i) && bool_decide (is_Some y)) || ((S u <=? i)%nat && taken (emptied r (S u) t) (i - S u))).
  { intros y i Hi. destruct (Nat.leb_spec u i), (Nat.leb_spec (S u) i); try lia; cbn.
    - rewrite (bool_decide_false (u = i)) by lia. replace (i - u)%nat with (S (i - S u)) by lia. done.
    - replace i with u by lia. rewrite Nat.sub_diag, bool_decide_true by done. cbn. rewrite orb_false_r. by destruct y.
    - by rewrite (bool_decide_false (u = i)) by lia. }
  specialize (IH (S u)).
  destruct x as [c|]; [destruct (Z.eqb_spec (Z.of_nat u) (Z.of_nat r)) as [E|E]|]; rewrite Es.
  - rewrite decide_True by lia. specialize (IH o ltac:(lia)). destruct (pack_slots _ _ _ _ _) as [o' l].
    destruct IH as [-> IH]. split; [done|]. intros i Hi. rewrite Ht, IH by done.
    rewrite (bool_decide_false (is_Some None)) by (by intros [? ?]). by rewrite andb_false_r.
  - rewrite decide_False by lia. specialize (IH (o .| 1 .<< Z.of_nat u) ltac:(lia)).
    destruct (pack_slots _ _ _ _ _) as [o' l]. destruct IH as [-> IH]. split; [done|]. intros i Hi.
    rewrite Ht, IH, bor_bit, one_bit by lia. rewrite (bool_decide_true (is_Some _)) by eauto.
    by rewrite andb_true_r, orb_assoc.
  - replace (if decide (u = r) then None else None) with (@None (@node V)) by (by destruct (decide (u = r))).
    specialize (IH o ltac:(lia)). destruct (pack_slots _ _ _ _ _) as [o' l].
    destruct IH as [-> IH]. split; [done|]. intros i Hi. rewrite Ht, IH by done.
    rewrite (bool_decide_false (is_Some None)) by (by intros [? ?]). by rewrite andb_false_r.
Qed.

Lemma packNodes_ok ch i : length ch = 32%nat ->
  ∃ b, packNodes ch (Z.of_nat i) = BitmapIndexedNode b (occupied (<[i := None]> ch)) /\ bits_ok b (<[i := None]> ch).
Proof.
  intros Hl. unfold packNodes. assert (P := pack_slots_ok ch 0 i 0 ltac:(lia)).
  change (Z.of_nat 0) with 0 in P. change (1 .<< 0) with 1 in P. destruct (pack_slots _ _ _ _ _) as [b l].
  destruct P as [-> P]. rewrite emptied_insert in *. exists b. split; [done|].
  intros j Hj. rewrite P, Z.bits_0, Nat.sub_0_r by done. done.
Qed.

(** ** Updating a branch *)

Lemma occupied_count ch i x0 x : ch !! i = Some x0 ->
  (length (occupied (<[i := x]> ch)) + length (option_list x0) = length (occupied ch) + length (option_list x))%nat.
Proof.
  intros E. rewrite (occupied_insert_split _ _ _ _ E), (occupied_split _ _ _ E), !length_app. lia.
Qed.

(** A branch whose slot was updated meets the specification of an update. *)
Lemma branch_update_spec d n ch k ov x0 o cs a n' : is_int32 (hash k) ->
  (∀ e, e ∈ elems n <-> e ∈ concat (elems <$> occupied ch)) -> slots_at d ch ->
  ch !! slot d (hash k) = Some x0 -> child_spec (S d) x0 k ov (o, cs, a) -> o <> Same ->
  wf d n' ->
  (∀ e, e ∈ elems n' <-> e ∈ concat (elems <$> occupied (<[slot d (hash k) := slot_after x0 o]> ch))) ->
  update_spec d n k ov (New n', cs, a).
Proof.
  intros Hk Hn Hat Hx0 Hc Ho Hw' Hn'. destruct (child_spec_upd _ _ _ _ _ _ _ Hk Hc Ho) as (Hu & Hxw & -> & Hp & Hcs & Hf).
  assert (P : present k (elems n) <-> present k (slot_elems x0)).
  { rewrite <- (present_slots d k ch x0 Hat Hx0). unfold present. by setoid_rewrite Hn. }
  cbn. split_and!; [done|done| |by rewrite P|by rewrite P|].
  - intros e. rewrite Hn', Hn. by apply (slots_set_upd d k ov ch x0).
  - intros v Ev Hv. apply Hf; [done|]. by apply (slots_in d k ch x0), Hn.
Qed.

Lemma branch_same_spec d n ch k ov x0 cs a :
  (∀ e, e ∈ elems n <-> e ∈ concat (elems <$> occupied ch)) -> slots_at d ch ->
  ch !! slot d (hash k) = Some x0 -> child_spec (S d) x0 k ov (Same, cs, a) ->
  update_spec d n k ov (Same, cs, a).
Proof.
  intros Hn Hat Hx0 Hc. assert (P : present k (elems n) <-> present k (slot_elems x0)).
  { rewrite <- (present_slots d k ch x0 Hat Hx0). unfold present. by setoid_rewrite Hn. }
  destruct x0 as [c|]; cbn in Hc |- *.
  - destruct Hc as (-> & -> & Hc). split_and!; [done|done|]. destruct ov as [v|].
    + rewrite Hn. by apply (in_slots d k ch (Some c) Hx0).
    + by rewrite P.
  - destruct ov; [done|]. injection Hc as -> ->. split_and!; [done|done|]. rewrite P.
    intros [v Hv]. by apply not_elem_of_nil in Hv.
Qed.

Lemma bits_ok_set b ch i x0 c : (i < 32)%nat -> length ch = 32%nat -> bits_ok b ch -> ch !! i = Some x0 ->
  bits_ok (if taken ch i then b else (b .| 1 .<< Z.of_nat i)) (<[i := Some c]> ch).
Proof.
  intros Hi Hl Hb Hx j Hj. rewrite taken_insert by lia. rewrite (bool_decide_true (is_Some _)) by eauto.
  destruct (taken ch i) eqn:E.
  - rewrite Hb by done. destruct (decide (i = j)) as [<-|]; done.
  - rewrite bor_bit, one_bit, Hb by done.
    destruct (decide (i = j)) as [<-|]; [by rewrite bool_decide_true, orb_true_r by done|].
    by rewrite bool_decide_false, orb_false_r by done.
Qed.

Lemma bits_ok_unset b ch i : (i < 32)%nat -> length ch = 32%nat -> bits_ok b ch -> taken ch i = true ->
  bits_ok (b .^ 1 .<< Z.of_nat i) (<[i := None]> ch).
Proof.
  intros Hi Hl Hb Ht j Hj. rewrite taken_insert, bxor_bit, one_bit, Hb by lia.
  destruct (decide (i = j)) as [<-|].
  - by rewrite Ht, bool_decide_true by done.
  - by rewrite bool_decide_false, xorb_false_r by done.
Qed.

(** The other child of a node with two. *)
Lemma other_child (l : list (@node V)) r c : length l = 2%nat -> l !! r = Some c ->
  ∃ c', arr_get l (1 .^ Z.of_nat r) = Some c' /\ spliceOut l r = [c'] /\ c' ∈ l.
Proof.
  intros Hl E. destruct l as [|x [|y [|]]]; try done. destruct r as [|[|r]]; [| |done].
  - exists y. cbn. split_and!; [done|done|set_solver].
  - exists x. cbn. split_and!; [done|done|set_solver].
Qed.

Section bitmap_update.
Context (d : nat) (b : Z) (ch : list (option (@node V))) (k : key) (ov : option V) (x0 : option (@node V)).
Let i := slot d (hash k).
Hypothesis (Hk : is_int32 (hash k)) (Hd : (d <= 6)%nat) (Hl : length ch = 32%nat) (Hb : bits_ok b ch) (Hw : slots_wf d ch)
  (Hat : slots_at d ch) (Hsz : (1 <= length (occupied ch) <= 16)%nat)
  (H1 : ∀ c, occupied ch = [c] -> isLeafNode c = false) (Hx : ch !! i = Some x0).

Let Hi : (i < 32)%nat := slot_lt d (hash k).

(** The slots after the child's update form a bitmap node again. *)
Lemma bitmap_node_ok b' o cs a : child_spec (S d) x0 k ov (o, cs, a) -> o <> Same ->
  let ch' := <[i := slot_after x0 o]> ch in
  bits_ok b' ch' -> (1 <= length (occupied ch') <= 16)%nat ->
  (∀ c, occupied ch' = [c] -> isLeafNode c = false) ->
  update_spec d (BitmapIndexedNode b (occupied ch)) k ov (New (BitmapIndexedNode b' (occupied ch')), cs, a).
Proof using Hk Hd Hl Hw Hat Hx.
  intros Hc Ho ch' Hb' Hsz' H1'. eapply branch_update_spec; [done|done|done|done|done|done| |done].
  destruct (child_spec_upd _ _ _ _ _ _ _ Hk Hc Ho) as (Hu & Hxw & _).
  apply wf_bitmap; try done.
  - unfold ch'. by rewrite length_insert.
  - by eapply slots_set_wf.
  - by eapply slots_set_at.
Qed.

Lemma bitmap_gone_ok cs a : child_spec (S d) x0 k ov (Gone, cs, a) ->
  update_spec d (BitmapIndexedNode b (occupied ch)) k ov
    (bitmap_update b (occupied ch) (Z.of_nat i) Gone, cs, a).
Proof using Hk Hd Hl Hb Hw Hat Hsz H1 Hx Hi.
  intros Hc. unfold bitmap_update. cbv zeta. rewrite popCount_below, Nat2Z.id, (rank_occupied b ch) by (done || lia).
  assert (∃ c0, x0 = Some c0 /\ isLeafNode c0 = true) as (c0 & E0 & Hleaf).
  { destruct x0 as [c0|]; [|by destruct ov]. destruct Hc as (_ & _ & _ & ? & _). eauto. }
  assert (Hx' : ch !! i = Some (Some c0)) by (by rewrite Hx, E0).
  assert (Ht : taken ch i = true) by (by eapply taken_Some).
  assert (Hcount := occupied_count ch i _ None Hx'). cbn in Hcount.
  assert (Hlook := occupied_lookup ch i c0 Hx'). assert (Hout := occupied_out ch i c0 Hx').
  set (r := length (occupied (take i ch))) in *.
  assert (Hsz' : (2 <= length (occupied ch))%nat).
  { destruct (decide (length (occupied ch) = 1%nat)) as [E1|]; [|lia].
    destruct (occupied ch) as [|c [|]] eqn:Eo; try done. destruct r; [|done]. injection Hlook as ->.
    rewrite (H1 c0 eq_refl) in Hleaf. done. }
  unfold len. destruct (Z.eqb_spec (Z.of_nat (length (occupied ch))) 2) as [E2|E2].
  - destruct (other_child (occupied ch) r c0 ltac:(lia) Hlook) as (c' & -> & Eo & Hin). rewrite Eo in Hout. cbn [andb].
    destruct (isLeafNode c') eqn:El'.
    + eapply (branch_update_spec d _ ch k ov x0 Gone); [done|done|done|done|done|done| |].
      * apply elem_of_occupied in Hin as [j Hj]. eapply wf_leaf; [done|by eapply Hw].
      * intros e. cbn [slot_after]. fold i. rewrite <- Hout. cbn. by rewrite app_nil_r.
    + rewrite Eo, Hout. apply (bitmap_node_ok _ Gone); [done|done|by apply bits_ok_unset|cbn [slot_after]; lia|].
      intros c. cbn [slot_after]. rewrite <- Hout. by intros [= <-].
  - rewrite Hout. destruct (arr_get (occupied ch) (1 .^ Z.of_nat r)); cbn [andb].
    all: apply (bitmap_node_ok _ Gone); [done|done|by apply bits_ok_unset|cbn [slot_after]; lia|].
    all: intros c E; cbn [slot_after] in E; rewrite E in Hcount; cbn in Hcount; lia.
Qed.

Lemma bitmap_new_ok c cs a : child_spec (S d) x0 k ov (New c, cs, a) ->
  update_spec d (BitmapIndexedNode b (occupied ch)) k ov
    (bitmap_update b (occupied ch) (Z.of_nat i) (New c), cs, a).
Proof using Hk Hd Hl Hb Hw Hat Hsz H1 Hx Hi.
  intros Hc. unfold bitmap_update. cbv zeta. rewrite !bit_test, !Hb, !negb_involutive, !popCount_below by done.
  rewrite Nat2Z.id, (rank_occupied b ch) by (done || lia). unfold MAX_BITMAP_INDEXED_SIZE, SIZE, len.
  change (32 / 2) with 16. assert (Hcount := occupied_count ch i _ (Some c) Hx). cbn in Hcount.
  assert (Hbits := bits_ok_set b ch i _ c Hi Hl Hb Hx).
  assert ((∃ c0, x0 = Some c0) \/ x0 = None) as [[c0 E0]|E0] by (destruct x0; eauto);
    assert (Hx' := Hx); rewrite E0 in Hx', Hcount; cbn in Hcount.
  - assert (Ht : taken ch i = true) by (by eapply taken_Some). rewrite Ht in *. cbn [negb andb].
    destruct (Z.eqb_spec (Z.of_nat (length (occupied ch))) 1) as [E1|E1]; cbn [andb].
    destruct (isLeafNode c) eqn:El.
    2,3: rewrite (occupied_set _ _ c0) by done; apply (bitmap_node_ok _ (New c)); [done|done|done|cbn [slot_after]; lia|].
    + destruct (child_spec_upd _ _ _ _ _ _ _ Hk Hc ltac:(done)) as (Hu & Hxw & _).
      eapply (branch_update_spec d _ ch k ov x0 (New c)); [done|done|done|done|done|done|eapply wf_leaf; [done|by apply Hxw]|].
      intros e. cbn [slot_after]. fold i. rewrite <- (occupied_set ch i c0) by done.
      assert (Hlook := occupied_lookup ch i c0 Hx'). destruct (occupied ch) as [|c1 [|]]; try (cbn in E1; lia).
      destruct (length (occupied (take i ch))) as [|[|]]; try done. cbn. by rewrite app_nil_r.
    + intros c'. cbn [slot_after]. intros E. rewrite <- (occupied_set ch i c0) in E by done.
      destruct (occupied ch) as [|c1 [|]] eqn:Eo; try (cbn in E1; lia).
      assert (Hlook := occupied_lookup ch i c0 Hx'). rewrite Eo in Hlook.
      destruct (length (occupied (take i ch))) as [|[|]]; try done. by injection E as <-.
    + intros c' E. cbn [slot_after] in E. rewrite E in Hcount. cbn in Hcount. lia.
  - assert (Ht : taken ch i = false) by (unfold taken; by rewrite Hx'). rewrite Ht in *. cbn [negb andb].
    destruct (Z.leb_spec 16 (Z.of_nat (length (occupied ch)))).
    + destruct (child_spec_upd _ _ _ _ _ _ _ Hk Hc ltac:(done)) as (Hu & Hxw & _).
      assert (Ee : expandNodes (occupied ch) b (Z.of_nat i) c
                   = HashArrayMapNode (len (occupied ch) + 1) (<[i := Some c]> ch)).
      { unfold expandNodes. rewrite Nat2Z.id. do 2 f_equal. change (Z.to_nat SIZE) with 32%nat.
        rewrite <- Hl. apply expand_slots_ok; [lia|]. intros j Hj. apply Hb. lia. }
      rewrite Ee. eapply (branch_update_spec d _ ch k ov x0 (New c)); [done|done|done|done|done|done| |].
      2: { intros e. by rewrite array_elems. }
      apply wf_array; [done|by rewrite length_insert|..|unfold len; lia|lia].
      * by eapply (slots_set_wf d k ch x0 Hw Hx (Some c)).
      * by eapply (slots_set_at d k ov ch x0 Hat Hx (Some c)).
    + rewrite occupied_in by done.
      apply (bitmap_node_ok _ (New c)); [done|done|done|cbn [slot_after]; lia|].
      intros c' E. cbn [slot_after] in E. rewrite E in Hcount. cbn in Hcount. lia.
Qed.

End bitmap_update.

Lemma array_update_ok d m ch k ov x0 o cs a : is_int32 (hash k) ->
  (d <= 6)%nat -> length ch = 32%nat -> slots_wf d ch -> slots_at d ch ->
  m = len (occupied ch) -> (8 <= length (occupied ch))%nat ->
  ch !! slot d (hash k) = Some x0 -> child_spec (S d) x0 k ov (o, cs, a) ->
  update_spec d (HashArrayMapNode m ch) k ov (array_update m ch (Z.of_nat (slot d (hash k))) o, cs, a).
Proof.
  intros Hk Hd Hl Hw Hat -> Hsz Hx Hc. set (i := slot d (hash k)) in *. assert (Hi : (i < 32)%nat) by apply slot_lt.
  assert (He : ∀ e, e ∈ elems (HashArrayMapNode (len (occupied ch)) ch) <-> e ∈ concat (elems <$> occupied ch))
    by (intros e; by rewrite array_elems).
  unfold array_update. assert (o = Same \/ o <> Same) as [->|Ho] by (destruct o; auto); [by eapply branch_same_spec|].
  destruct (child_spec_upd _ _ _ _ _ _ _ Hk Hc Ho) as (Hu & Hxw & _).
  assert (Hw' := slots_set_wf d k ch x0 Hw Hx _ Hxw). assert (Ha' := slots_set_at d k ov ch x0 Hat Hx _ Hu).
  fold i in Hw', Ha'. assert (Hcount := occupied_count ch i _ (slot_after x0 o) Hx).
  assert (Hl' : length (<[i := slot_after x0 o]> ch) = 32%nat) by (by rewrite length_insert).
  rewrite Nat2Z.id. destruct o as [| |c]; [done| |].
  - assert (∃ c0, x0 = Some c0) as [c0 ->]. { destruct x0; [eauto|]. by destruct ov. } cbn in Hcount.
    unfold MIN_HASH_ARRAY_MAP_SIZE, SIZE. change (32 / 4) with 8. destruct (Z.ltb_spec (len (occupied ch) - 1) 8).
    + destruct (packNodes_ok ch i Hl) as (b & Ep & Hb). rewrite Ep. unfold len in *.
      eapply (branch_update_spec d _ ch k ov _ Gone); [done|done|done|done|done|done| |done].
      apply wf_bitmap; try done; [lia|]. intros c E. cbn in Hcount. rewrite E in Hcount. cbn in Hcount. lia.
    + eapply (branch_update_spec d _ ch k ov _ Gone); [done|done|done|done|done|done| |].
      * apply wf_array; try done; unfold len in *; lia.
      * intros e. by rewrite array_elems.
  - assert (E : mjoin (arr_get ch (Z.of_nat i)) = x0).
    { unfold arr_get. rewrite Nat2Z.id, Hx. by destruct (Z.leb_spec 0 (Z.of_nat i)); [|lia]. }
    rewrite E. destruct x0 as [c0|]; cbn in Hcount.
    all: eapply (branch_update_spec d _ ch k ov _ (New c)); [done|done|done|done|done|done| |intros e; by rewrite array_elems].
    all: apply wf_array; try done; unfold len in *; cbn in *; lia.
Qed.

(** ** Updating a node *)

(** The entries of a subtrie at depth [d] agree with [k] on the digits above. *)
Definition agree (d : nat) (k : key) es : Prop :=
  ∀ e j, e ∈ es -> (j < d)%nat -> slot j (hash (fst e)) = slot j (hash k).

Lemma agree_child d k ch i c : slots_at d ch -> i = slot d (hash k) -> ch !! i = Some (Some c) ->
  agree d k (concat (elems <$> occupied ch)) -> agree (S d) k (elems c).
Proof.
  intros Hat -> E Ha e j He Hj. destruct (decide (j = d)) as [->|]; [by eapply Hat|].
  apply Ha; [|lia]. apply elem_of_slots. eauto.
Qed.

Section update.
Context (create : list entry -> key -> V -> @node V).

Lemma value_update_ok d k0 v0 oh k ov : is_int32 (hash k0) -> is_int32 (hash k) -> agree d k [(k0, v0)] -> (d <= 7)%nat ->
  update_spec d (ValueNode (hash k0) (k0, v0)) k ov
    (node_update create (ValueNode (hash k0) (k0, v0)) (5 * Z.of_nat d) oh k ov).
Proof.
  intros Hk0 Hk Ha Hd. cbn [node_update]. unfold immutable_is. destruct (decide (k = k0)) as [->|Hn].
  - rewrite bool_decide_true by done. destruct ov as [v|].
    + destruct (same v v0) eqn:E.
      * apply same_eq in E as ->. cbn. split_and!; [done|done|left].
      * cbn. split_and!; [done|by apply wf_value| |done| |].
        -- intros [k' v']. rewrite !list_elem_of_singleton. cbn. naive_solver.
        -- split; [done|]. intros [?|Hp]; [done|]. exfalso. apply Hp. exists v0. left.
        -- intros v' [= <-] Hv. by apply list_elem_of_singleton in Hv as [= ->].
    + cbn. split_and!; try done. by exists v0.
  - rewrite bool_decide_false by done. assert (Hp : ~ present k [(k0, v0)]).
    { intros [v Hv]. apply list_elem_of_singleton in Hv. congruence. }
    destruct ov as [v|]; [|done]. cbn [update_spec]. unfold mergeValue.
    destruct (Z.eqb_spec (hash k0) (hash k)) as [E|E].
    + cbn [node_iterate]. split_and!; [done| | |done|cbn; tauto|by apply fresh_absent].
      * rewrite <- E. apply wf_collision; [cbn; lia|cbn; apply NoDup_ListNoDup; repeat constructor; set_solver|..].
        -- intros e He. apply elem_of_cons in He as [->|He]; [done|]. by apply list_elem_of_singleton in He as ->.
        -- done.
      * apply not_present_upd; [done|]. apply Permutation_swap.
    + destruct (mergeIntoNode_ok LEVELS d (ValueNode (hash k0) (k0, v0)) (hash k0) k v) as (Hw & _ & He); try done.
      * by apply wf_value.
      * intros e He. by apply list_elem_of_singleton in He as ->.
      * intros j Hj. apply (Ha (k0, v0)); [left|done].
      * unfold LEVELS. lia.
      * split_and!; [done|done| |done|cbn; tauto|by apply fresh_absent]. intros [k' v']. rewrite He. cbn. rewrite !list_elem_of_singleton.
        naive_solver.
Qed.

Lemma collision_update_ok d h es oh k ov : (2 <= length es)%nat -> NoDup es.*1 -> (∀ e, e ∈ es -> hash (fst e) = h) -> is_int32 h ->
  is_int32 (hash k) -> default (hash k) oh = hash k -> agree d k es -> (d <= 7)%nat ->
  update_spec d (HashCollisionNode h es) k ov (node_update create (HashCollisionNode h es) (5 * Z.of_nat d) oh k ov).
Proof.
  intros Hl Hn Hh Hr Hk Ho Ha Hd. cbn [node_update]. rewrite Ho.
  assert (He0 : ∃ e0, e0 ∈ es) by (destruct es as [|e0 es]; [cbn in Hl; lia|exists e0; left]).
  destruct He0 as [e0 He0]. destruct (Z.eqb_spec (hash k) h) as [E|E]; cbn [negb].
  - destruct (no_change es (find_index k es) ov) eqn:Ec.
    { cbn. split_and!; [done|done|]. by apply no_change_ok. }
    destruct (entries_update_ok k ov es _ Hn eq_refl Ec) as (Hu & Hn' & Hl' & Hp & Hs & Hf).
    assert (G : (2 <= length (entries_update es (find_index k es) k ov))%nat ->
      update_spec d (HashCollisionNode h es) k ov
        (New (HashCollisionNode h (entries_update es (find_index k es) k ov)), size_change (find_index k es) ov, true)).
    { intros Hl2. cbn [update_spec node_iterate]. split_and!; [done| |done|by intros ->|done|done].
      apply wf_collision; [done|done| |done]. intros e He. apply Hu in He as [[_ He]|[-> _]]; auto. }
    unfold len. destruct ov as [v|]; [apply G; rewrite Hl'; destruct (find_index k es); lia|].
    destruct (find_index k es) as [l|] eqn:El; [|done].
    destruct (Z.eqb_spec (Z.of_nat (length es)) 2) as [E2|E2]; [|apply G; lia].
    apply find_index_Some in El as [v0 El].
    destruct es as [|x [|y [|]]]; try (cbn in E2; lia). clear G.
    assert (Hxy : ∃ x', arr_get [x; y] (1 .^ Z.of_nat l) = Some x' /\ [x; y] ≡ₚ [(k, v0); x'] /\ x' ∈ [x; y]).
    { destruct l as [|[|]]; [| |done]; injection El as ->.
      - exists y. cbn. split_and!; [done|done|set_solver].
      - exists x. cbn. split_and!; [done|apply Permutation_swap|set_solver]. }
    destruct Hxy as (x' & -> & Hperm & Hx'). cbn [update_spec node_iterate].
    destruct (present_upd k v0 None [x; y] [x'] [x'] Hn Hperm) as [Hu' _]; [done|].
    split_and!; [done| |done|done|done|done]. destruct x' as [k' v']. rewrite <- (Hh (k', v') Hx'). apply wf_value.
    by rewrite <- (Hh (k', v') Hx') in Hr.
  - assert (Hp : ~ present k es). { intros [v Hv]. apply E. by apply (Hh (k, v)). }
    destruct ov as [v|]; [|done].
    destruct (mergeIntoNode_ok LEVELS d (HashCollisionNode h es) h k v) as (Hw & _ & He); try done.
    + by apply wf_collision.
    + intros j Hj. rewrite <- (Hh e0 He0). by apply Ha.
    + unfold LEVELS. lia.
    + cbn [update_spec]. split_and!; [done|done| |done|cbn; tauto|by apply fresh_absent]. intros [k' v']. rewrite He. cbn.
      split; [|naive_solver]. intros [[= -> ->]|Hin]; [by right|]. left. split; [|done]. intros ->. apply Hp. by exists v'.
Qed.

Lemma node_update_ok d n oh k ov : is_int32 (hash k) -> wf d n -> (d <= 7)%nat -> default (hash k) oh = hash k -> agree d k (elems n) ->
  update_spec d n k ov (node_update create n (5 * Z.of_nat d) oh k ov).
Proof.
  intros Hk Hw. revert oh.
  induction Hw as [d k0 v0 Hr|d h es Hl Hn Hh Hr|d b ch Hd Hl Hb Hw IH Hat Hsz H1|d m ch Hd Hl Hw IH Hat Hm Hsz];
    intros oh Hd7 Ho Ha.
  - by apply value_update_ok.
  - by apply collision_update_ok.
  - assert (Hi := slot_lt d (hash k)). destruct (ch !! slot d (hash k)) as [x0|] eqn:Hx;
      [|apply lookup_ge_None in Hx; lia].
    cbn [node_update]. cbv zeta. rewrite Ho, hash_index_slot, !bit_test, !negb_involutive, !Hb by done.
    assert (Hc : child_spec (S d) x0 k ov
      (if taken ch (slot d (hash k))
       then pick (λ c, node_update create c (5 * Z.of_nat d + SHIFT) (Some (hash k)) k ov) (updateMissing (hash k) k ov)
              (occupied ch) (Z.to_nat (popCount (b .& (1 .<< Z.of_nat (slot d (hash k))) - 1)))
       else updateMissing (hash k) k ov)).
    { rewrite popCount_below, Nat2Z.id, (rank_occupied b ch), pick_lookup, shift_S by (done || lia).
      unfold taken. rewrite Hx. destruct x0 as [c|]; [|done]. rewrite (occupied_lookup _ _ _ Hx).
      eapply IH; [done|lia|done|by eapply agree_child]. }
    destruct (if taken ch (slot d (hash k)) then _ else _) as [[o cs] a] eqn:Er.
    assert (U : update_spec d (BitmapIndexedNode b (occupied ch)) k ov
      (bitmap_update b (occupied ch) (Z.of_nat (slot d (hash k))) o, cs, a)).
    { destruct o as [| |c]; [by eapply branch_same_spec|by eapply bitmap_gone_ok|by eapply bitmap_new_ok]. }
    destruct (taken ch (slot d (hash k))) eqn:Et, ov as [v|]; try exact U.
    injection Er as <- <- <-. exact U.
  - assert (Hi := slot_lt d (hash k)). destruct (ch !! slot d (hash k)) as [x0|] eqn:Hx;
      [|apply lookup_ge_None in Hx; lia].
    cbn [node_update]. rewrite Ho, hash_index_slot, Nat2Z.id, array_child, Hx, shift_S by done.
    destruct (match x0 with Some _ => _ | None => _ end) as [[o cs] a] eqn:Er. eapply array_update_ok; try done.
    rewrite <- Er. destruct x0 as [c|]; [|done]. rewrite array_elems in Ha.
    eapply IH; [done|lia|done|by eapply agree_child].
Qed.

End update.

(** ** Roots *)

(** The root of a map: a short list of entries or a trie. *)
Inductive root_ok : @node V -> Prop :=
  | root_entries es : (1 <= length es <= 8)%nat -> NoDup es.*1 -> (∀ e, e ∈ es -> is_int32 (hash (fst e))) -> root_ok (ArrayMapNode es)
  | root_trie n : wf 0 n -> root_ok n.

Lemma root_NoDup n : root_ok n -> NoDup (elems n).*1.
Proof. destruct 1; [done|by eapply wf_NoDup]. Qed.

Lemma agree_0 k es : agree 0 k es.
Proof. intros e j _ Hj. lia. Qed.

Lemma node_set_ok n k v : is_int32 (hash k) -> wf 0 n -> ~ present k (elems n) ->
  wf 0 (node_set n (k, v)) /\ ∀ e, e ∈ elems (node_set n (k, v)) <-> e = (k, v) \/ e ∈ elems n.
Proof.
  intros Hk Hw Hp. unfold node_set. cbn [fst snd].
  assert (U := node_update_ok (λ es k v, ArrayMapNode (es ++ [(k, v)])) 0 n None k (Some v) Hk Hw ltac:(lia) eq_refl (agree_0 _ _)).
  cbn [Z.of_nat Z.mul] in U. destruct (node_update _ _ _ _ _ _) as [[[| |n'] cs] a]; cbn in U.
  - exfalso. apply Hp. exists v. tauto.
  - by destruct U as (_ & _ & ? & _).
  - destruct U as (-> & Hw' & Hu & _). split; [done|]. intros [k' v']. rewrite (Hu (k', v')). cbn.
    split; [naive_solver|]. intros [[= -> ->]|Hin]; [by right|]. left. split; [|done]. intros ->. apply Hp. by exists v'.
Qed.

Lemma createNodes_ok es k v : is_int32 (hash k) -> (∀ e, e ∈ es -> is_int32 (hash (fst e))) -> NoDup es.*1 -> ~ present k es ->
  wf 0 (createNodes es k v) /\ ∀ e, e ∈ elems (createNodes es k v) <-> e = (k, v) \/ e ∈ es.
Proof.
  intros Hk Hr Hn Hp. unfold createNodes.
  assert (G : ∀ n, wf 0 n -> (∀ e, e ∈ es -> ~ present (fst e) (elems n)) ->
    wf 0 (fold_left node_set es n) /\ ∀ e, e ∈ elems (fold_left node_set es n) <-> e ∈ elems n \/ e ∈ es).
  { clear Hp. induction es as [|[k1 v1] es IH]; intros n Hw Hd; [set_solver|]. cbn [fold_left].
    apply NoDup_cons in Hn as [Hk1 Hn].
    destruct (node_set_ok n k1 v1 (Hr (k1, v1) ltac:(left)) Hw) as [Hw' He]; [apply (Hd (k1, v1)); left|].
    destruct (IH (λ e He, Hr e (list_elem_of_further _ _ _ He)) Hn (node_set n (k1, v1)) Hw') as [Hw'' He''].
    - intros [k2 v2] Hin [v' Hv]. apply He in Hv as [[= -> _]|Hv].
      + apply Hk1, list_elem_of_fmap. by exists (k1, v2).
      + apply (Hd (k2, v2)); [by right|by exists v'].
    - split; [done|]. intros e. rewrite He'', He. set_solver. }
  destruct (G (ValueNode (hash k) (k, v)) (wf_value _ _ _ Hk)) as [Hw He].
  - intros [k2 v2] Hin [v' Hv]. apply list_elem_of_singleton in Hv as [= -> ->]. apply Hp. by exists v2.
  - split; [done|]. intros e. rewrite He. cbn. set_solver.
Qed.

Lemma update_ok n k ov : is_int32 (hash k) -> root_ok n ->
  match update n k ov with
  | (Same, c, a) =>
      a = false /\ match ov with Some v => (k, v) ∈ elems n | None => ~ present k (elems n) end
  | (Gone, c, a) => c = true /\ a = true /\ ov = None /\ ∃ v, elems n = [(k, v)]
  | (New n', c, a) =>
      a = true /\ root_ok n' /\ upd k ov (elems n) (elems n') /\ (ov = None -> present k (elems n)) /\
      (c = true <-> ov = None \/ ~ present k (elems n)) /\ fresh k ov (elems n)
  end.
Proof.
  intros Hk [es Hl Hn Hr|n' Hw].
  - unfold update. cbn [node_update node_iterate]. destruct (no_change es (find_index k es) ov) eqn:Ec.
    { split; [done|]. by apply no_change_ok. }
    destruct (entries_update_ok k ov es _ Hn eq_refl Ec) as (Hu & Hn' & Hl' & Hp & Hs & Hf).
    assert (G : (1 <= length (entries_update es (find_index k es) k ov) <= 8)%nat ->
      root_ok (ArrayMapNode (entries_update es (find_index k es) k ov))).
    { intros Hl2. constructor; [done|done|]. intros e He. apply Hu in He as [[_ He]|[-> _]]; auto. }
    unfold len, MAX_ARRAY_MAP_SIZE, SIZE. change (32 / 4) with 8. destruct ov as [v|].
    + destruct (find_index k es) as [l|] eqn:El; [split_and!; try done; apply G; lia|].
      destruct (Z.leb_spec 8 (Z.of_nat (length es))); [|split_and!; try done; apply G; lia].
      apply find_index_None in El. destruct (createNodes_ok es k v Hk Hr Hn El) as [Hw He].
      split_and!; [done|by constructor| |done|done|done]. intros [k' v']. rewrite He. cbn.
      split; [|naive_solver]. intros [[= -> ->]|Hin]; [by right|]. left. split; [|done]. intros ->. apply El. by exists v'.
    + destruct (Z.eqb_spec (Z.of_nat (length es)) 1).
      * destruct es as [|[k0 v0] [|]]; try (cbn in *; lia). split_and!; try done.
        destruct Hp as [v Hv]. apply list_elem_of_singleton in Hv as [= -> ->]. by exists v0.
      * split_and!; try done. apply G. lia.
  - assert (U := node_update_ok createNodes 0 n' None k ov Hk Hw ltac:(lia) eq_refl (agree_0 _ _)).
    unfold update. cbn [Z.of_nat Z.mul] in U. destruct (node_update _ _ _ _ _ _) as [[[| |n''] cs] a]; cbn in U.
    + tauto.
    + tauto.
    + destruct U as (? & Hw' & ?). split_and!; try tauto. by constructor.
Qed.

(** ** Maps *)

(** The invariant of a map: a well-formed root and the number of its entries. *)
Definition map_ok (m : @pmap V) : Prop :=
  match root m with Some n => root_ok n | None => True end /\ ImmMap.size m = len (iterate false m).

(** The finite map a map stands for. *)
Definition to_map (m : @pmap V) : gmap key V := list_to_map (iterate false m).

Lemma iterate_NoDup m : map_ok m -> NoDup (iterate false m).*1.
Proof. unfold map_ok, iterate. destruct (root m); [|constructor]. intros [Hr _]. by apply root_NoDup. Qed.

Lemma to_map_lookup m k v : map_ok m -> to_map m !! k = Some v <-> (k, v) ∈ iterate false m.
Proof.
  intros Hm. unfold to_map. symmetry. apply elem_of_list_to_map. by apply iterate_NoDup.
Qed.

Lemma to_map_None m k : map_ok m -> to_map m !! k = None <-> ~ present k (iterate false m).
Proof.
  intros Hm. rewrite eq_None_not_Some. unfold present, is_Some. by setoid_rewrite (to_map_lookup m k _ Hm).
Qed.

Lemma to_map_size m : map_ok m -> ImmMap.size m = Z.of_nat (base.size (to_map m)).
Proof.
  intros Hm. rewrite (proj2 Hm). unfold to_map, len. f_equal. symmetry.
  rewrite map_size_list_to_map by (by apply iterate_NoDup). done.
Qed.

Lemma get_ok m k ns : map_ok m -> get m k ns = match to_map m !! k with Some v => Some v | None => ns end.
Proof.
  intros Hm. unfold get. destruct (to_map m !! k) as [v|] eqn:E.
  - apply (to_map_lookup m k v Hm) in E. unfold iterate in E. destruct Hm as [Hr _].
    destruct (root m) as [n|]; [|by apply not_elem_of_nil in E].
    destruct Hr as [es Hl Hn _|n Hw]; [by apply entries_get_in|]. by apply (node_get_ok 0 n None k ns Hw eq_refl).
  - apply (to_map_None m k Hm) in E. unfold iterate in E. destruct Hm as [Hr _]. destruct (root m) as [n|]; [|done].
    destruct Hr as [es Hl Hn _|n Hw]; [by apply entries_get_notin|]. by apply (node_get_ok 0 n None k ns Hw eq_refl).
Qed.

Lemma upd_to_map m m' k ov : map_ok m -> NoDup (iterate false m').*1 -> upd k ov (iterate false m) (iterate false m') ->
  to_map m' = partial_alter (λ _, ov) k (to_map m).
Proof.
  intros Hm Hn' Hu. apply map_eq. intros k'. apply option_eq. intros v'. unfold to_map at 1.
  rewrite <- elem_of_list_to_map by done. rewrite (Hu (k', v')). cbn. destruct (decide (k' = k)) as [->|Hk].
  - rewrite lookup_partial_alter_eq. naive_solver.
  - rewrite lookup_partial_alter_ne by done. rewrite (to_map_lookup m) by done. naive_solver.
Qed.

Lemma emptyMap_ok : map_ok emptyMap.
Proof. done. Qed.

(** The number of entries after an update. *)
Lemma size_after (M : gmap key V) k ov : 
  Z.of_nat (base.size (partial_alter (λ _, ov) k M))
  = Z.of_nat (base.size M) + match ov, M !! k with
                             | Some _, None => 1 | None, Some _ => -1 | _, _ => 0 end.
Proof.
  destruct ov as [v|].
  - change (partial_alter (λ _, Some v) k M) with (<[k := v]> M). rewrite map_size_insert.
    destruct (M !! k); cbn; lia.
  - change (partial_alter (λ _, None) k M) with (delete k M). rewrite map_size_delete.
    destruct (M !! k) eqn:E; cbn; [|lia]. assert (base.size M <> 0%nat); [|lia].
    apply map_size_non_empty_iff. intros ->. by rewrite lookup_empty in E.
Qed.

Lemma updateMap_ok m k ov : is_int32 (hash k) -> map_ok m ->
  map_ok (updateMap m k ov) /\ to_map (updateMap m k ov) = partial_alter (λ _, ov) k (to_map m).
Proof.
  intros Hk Hm. assert (Hn := to_map_None m k Hm). assert (Hl := λ v, to_map_lookup m k v Hm).
  assert (Hs := to_map_size m Hm). assert (HSA := size_after (to_map m) k ov). unfold updateMap.
  destruct (root m) as [n|] eqn:Er.
  - assert (Ei : iterate false m = elems n) by (unfold iterate; by rewrite Er).
    assert (Hr : root_ok n) by (destruct Hm as [Hr _]; by rewrite Er in Hr).
    assert (U := update_ok n k ov Hk Hr). rewrite Ei in *.
    destruct (update n k ov) as [[[| |n'] cs] a].
    + destruct U as [-> U]. split; [done|]. destruct ov as [v|].
      * apply Hl in U. symmetry. by apply partial_alter_id.
      * apply Hn in U. symmetry. by apply partial_alter_id.
    + destruct U as (-> & -> & -> & v & E). split; [apply emptyMap_ok|].
      symmetry. unfold to_map at 1. rewrite Ei, E. change (delete k (<[k := v]> (∅ : gmap key V)) = ∅). by apply delete_insert_id.
    + destruct U as (-> & Hr' & Hu & Hp & Hc & Hf).
      set (s := ImmMap.size m + _). set (m' := Map s (Some n')).
      assert (Ei' : iterate false m' = elems n') by done.
      assert (Hn' := root_NoDup n' Hr'). rewrite <- Ei' in Hn', Hu. rewrite <- Ei in Hu.
      assert (EM := upd_to_map m m' k ov Hm Hn' Hu). split; [|done]. split; [done|].
      cbn [ImmMap.size m']. unfold len.
      assert (El : Z.of_nat (length (iterate false m')) = Z.of_nat (base.size (to_map m'))).
      { unfold to_map. by rewrite map_size_list_to_map. }
      rewrite El, EM, HSA, <- Hs. unfold s. f_equal. destruct ov as [v|].
      * destruct (to_map m !! k) as [v0|] eqn:E0; destruct cs; try done.
        -- destruct Hc as [Hc _]. destruct (Hc eq_refl) as [?|Hc']; [done|]. exfalso. apply Hc'. exists v0. by apply Hl.
        -- destruct Hc as [_ Hc]. enough (false = true) by done. apply Hc. right. by apply Hn.
      * destruct Hc as [_ Hc]. rewrite Hc by auto. destruct (to_map m !! k) eqn:E0; [done|].
        exfalso. apply (proj1 Hn eq_refl). auto.
  - assert (E0 : to_map m = ∅) by (unfold to_map, iterate; by rewrite Er).
    destruct ov as [v|].
    + split; [split; [|done]|].
      * constructor; [cbn; lia|apply NoDup_singleton|]. intros e He. by apply list_elem_of_singleton in He as ->.
      * rewrite E0. done.
    + split; [done|]. rewrite E0. symmetry. change (delete k (∅ : gmap key V) = ∅). apply delete_empty.
Qed.

Lemma clear_ok m : map_ok m -> map_ok (clear m) /\ to_map (clear m) = ∅.
Proof.
  intros Hm. unfold clear. destruct (Z.eqb_spec (ImmMap.size m) 0) as [E|E]; [|done]. split; [done|].
  rewrite (to_map_size m Hm) in E. apply map_size_empty_inv. lia.
Qed.

(** ** Histories *)

Inductive op := OSet (k : key) (v : V) | ORemove (k : key) | OClear.

Definition apply_op (m : @pmap V) (o : op) : pmap :=
  match o with OSet k v => set m k v | ORemove k => remove m k | OClear => clear m end.

(** The same operations on a finite map. *)
Definition spec_op (M : gmap key V) (o : op) : gmap key V :=
  match o with OSet k v => <[k := v]> M | ORemove k => delete k M | OClear => ∅ end.

Definition op_ordinary (o : op) : Prop :=
  match o with OSet k _ | ORemove k => ordinary k | OClear => True end.

Lemma apply_op_ok m o : op_ordinary o -> map_ok m ->
  map_ok (apply_op m o) /\ to_map (apply_op m o) = spec_op (to_map m) o.
Proof.
  intros Ho Hm. destruct o as [k v|k|]; cbn in *; [| |by apply clear_ok]; apply updateMap_ok; auto using hash_range.
Qed.

Lemma history_ok ops m : Forall op_ordinary ops -> map_ok m ->
  map_ok (fold_left apply_op ops m) /\ to_map (fold_left apply_op ops m) = fold_left spec_op ops (to_map m).
Proof.
  intros Ho. revert m. induction Ho as [|o ops Ho _ IH]; intros m Hm; [done|]. cbn.
  destruct (apply_op_ok m o Ho Hm) as [Hm' E]. rewrite <- E. by apply IH.
Qed.

(** C1. A persistent map is a finite map: after any history of [set],
    [remove] and [clear] the trie satisfies its invariant, [get] returns for
    every key what the finite map built by the same history holds (or the
    given default), [has] tells whether it holds the key, and [size] is its
    number of keys.  The one key excluded is the string whose hash is not a
    number. *)
Theorem map_refinement ops : Forall op_ordinary ops ->
  let m := fold_left apply_op ops emptyMap in
  let M := fold_left spec_op ops ∅ in
  map_ok m /\ ImmMap.size m = Z.of_nat (base.size M) /\
  (∀ k ns, get m k ns = match M !! k with Some v => Some v | None => ns end) /\
  (∀ k, has m k = bool_decide (is_Some (M !! k))).
Proof.
  intros Ho. destruct (history_ok ops emptyMap Ho emptyMap_ok) as [Hm E]. cbv zeta.
  change (to_map emptyMap) with (∅ : gmap key V) in E. set (m := fold_left apply_op ops emptyMap) in *. rewrite <- E.
  split_and!; [done|by apply to_map_size|intros; by apply get_ok|].
  intros k. unfold has. rewrite get_ok by done. by destruct (to_map m !! k).
Qed.

(** Updates that change nothing return the same map: setting a key to
    the value it has, and removing a key that is absent. *)
Theorem update_noop ops k : Forall op_ordinary ops -> ordinary k ->
  let m := fold_left apply_op ops emptyMap in
  (∀ v, get m k None = Some v -> same v v = true -> set m k v = m) /\
  (get m k None = None -> remove m k = m).
Proof.
  intros Ho Hk%hash_range. destruct (history_ok ops emptyMap Ho emptyMap_ok) as [Hm _].
  cbv zeta. set (m := fold_left _ _ _) in *. clearbody m.
  rewrite get_ok by done. unfold set, remove, updateMap. split.
  - intros v E Hs. destruct (to_map m !! k) as [v'|] eqn:El; [|done]. injection E as ->.
    apply to_map_lookup in El; [|done]. unfold iterate in El. destruct Hm as [Hr _].
    destruct (root m) as [n|]; [|by apply not_elem_of_nil in El]. assert (U := update_ok n k (Some v) Hk Hr).
    destruct (update n k (Some v)) as [[[| |n'] cs] a]; [by destruct U as [-> _]|by destruct U as (_ & _ & ? & _)|].
    destruct U as (_ & _ & _ & _ & _ & Hf). by rewrite (Hf v) in Hs.
  - intros E. destruct (to_map m !! k) as [v'|] eqn:El; [done|]. apply to_map_None in El; [|done].
    unfold iterate in El. destruct Hm as [Hr _]. destruct (root m) as [n|]; [|done]. assert (U := update_ok n k None Hk Hr).
    destruct (update n k None) as [[[| |n'] cs] a]; [by destruct U as [-> _]| |].
    + destruct U as (_ & _ & _ & v & Ev). exfalso. apply El. exists v. rewrite Ev. left.
    + destruct U as (_ & _ & _ & Hp & _). by destruct El; apply Hp.
Qed.

End ok.

Lemma map_refinement_witness :
  let ops := [OSet KNull 7; OSet (KBool true) 8; ORemove KNull] in
  get (fold_left apply_op ops emptyMap) (KBool true) None = Some 8.
Proof.
  cbv zeta. destruct (map_refinement [OSet KNull 7; OSet (KBool true) 8; ORemove KNull]) as (_ & _ & G & _).
  - repeat constructor; discriminate.
  - rewrite G. vm_compute. reflexivity.
Defined.

Lemma update_noop_witness :
  let m := fold_left apply_op [OSet KNull 7; OSet (KBool true) 8] emptyMap in
  get m KNull None = Some 7 /\ set m KNull 7 = m /\ remove m KUndefined = m.
Proof.
  cbv zeta. split; [reflexivity|]. split.
  - apply (proj1 (update_noop [OSet KNull 7; OSet (KBool true) 8] KNull
      ltac:(repeat constructor; discriminate) ltac:(discriminate))); reflexivity.
  - apply (proj2 (update_noop [OSet KNull 7; OSet (KBool true) 8] KUndefined
      ltac:(repeat constructor; discriminate) ltac:(discriminate))). reflexivity.
Defined.

(** ** The key whose hash is not a number *)

Lemma slot_zero d h : h mod 2 ^ 32 = 0 -> slot d h = 0%nat.
Proof.
  intros E. unfold slot, Int32.to_uint32. by rewrite E, Z.div_0_l by (apply Z.pow_nonzero; lia).
Qed.

Lemma hash_index_zero shift h : h mod 2 ^ 32 = 0 -> hash_index shift h = 0.
Proof.
  intros E. unfold hash_index, MASK. rewrite band_31. destruct (0 =? shift).
  - rewrite <- (Z.mod_mod_divide h (2 ^ 32) 32), E by (exists (2 ^ 27); done). done.
  - unfold Int32.shr, Int32.to_uint32. by rewrite E, Z.shiftr_0_l.
Qed.

Fixpoint chain {V} (fuel : nat) (n : @node V) : node :=
  match fuel with O => n | S fuel => BitmapIndexedNode 1 [chain fuel n] end.

(** C39. The string ["propertyIsEnumerable"] hashes to a method instead of a
    number; next to a key of hash 0 (such as the empty string) joining the two
    leaves never separates them: however many levels are allowed, the join
    uses them all for single-child nodes and does not add the new entry, so
    the recursion of the source does not end. *)
Theorem merge_diverges fuel (v w : Z) :
  let k := KStr (js "propertyIsEnumerable") in
  mergeIntoNode fuel (ValueNode (hash (KStr [])) (KStr [], v)) (hash (KStr [])) 0 (hash k) (k, w)
  = chain fuel (ValueNode (hash (KStr [])) (KStr [], v)).
Proof.
  cbv zeta. set (n := ValueNode _ _). set (k := KStr (js "propertyIsEnumerable")).
  assert (G : ∀ shift, mergeIntoNode fuel n (hash (KStr [])) shift (hash k) (k, w) = chain fuel n); [|apply G].
  induction fuel as [|fuel IH]; intros shift; [done|].
  cbn [mergeIntoNode chain]. rewrite !hash_index_zero by (vm_compute; reflexivity). by rewrite <- (IH (shift + SHIFT)).
Qed.

End ImmMapOk.
