(* ===== verification/ImmIter.v ===== *)
(** The iterator of the persistent map of [ImmMap]: the stack machine of
    [next] returns the entries in the order of the recursive [iterate]. *)

From stdpp Require Import base list list_numbers numbers strings gmap.
From Stdlib Require Import ZArith Lia.
From S2P Require Import Prelude ImmHash ImmMap ImmMapOk.
Import ImmHash ImmMap ImmMapOk.

Module ImmIter.
Section iter.
Context {V : Type} `{StrictEq V}.
Abbreviation entry := (key * V)%type.
Implicit Types (n c : @node V) (e : entry) (es : list entry).

Definition oriented {A} (rev : bool) (l : list A) : list A := if rev then reverse l else l.

Lemma directed_lookup {A} rev (l : list A) o : directed rev l o = oriented rev l !! o.
Proof.
  unfold directed, oriented. destruct rev; [|done]. destruct (Nat.ltb_spec o (length l)) as [Ho|Ho].
  - rewrite reverse_lookup by done. by replace (length l - 1 - o)%nat with (length l - S o)%nat by lia.
  - symmetry. apply lookup_ge_None. rewrite length_reverse. lia.
Qed.

Lemma oriented_fmap {A B} (f : A -> B) rev l : oriented rev (f <$> l) = f <$> oriented rev l.
Proof. destruct rev; cbn; [symmetry; apply fmap_reverse|done]. Qed.

Lemma oriented_Permutation {A} rev (l : list A) : oriented rev l ≡ₚ l.
Proof. destruct rev; cbn; [apply reverse_Permutation|done]. Qed.

(** What the loop visits in a node: entries or children. *)
Inductive task := Entry (e : entry) | Child (o : option (@node V)).

Definition tasks (rev : bool) n : list task :=
  match n with
  | ArrayMapNode es | HashCollisionNode _ es => Entry <$> oriented rev es
  | BitmapIndexedNode _ _ | HashArrayMapNode _ _ => Child <$> oriented rev (nodes_of n)
  | ValueNode _ e => [Entry e]
  end.

Definition task_entries (rev : bool) (t : task) : list entry :=
  match t with Entry e => [e] | Child (Some c) => node_iterate rev c | Child None => [] end.

(** The rounds of the loop a node takes. *)
Fixpoint rounds n : nat :=
  match n with
  | ArrayMapNode es | HashCollisionNode _ es => S (length es)
  | BitmapIndexedNode _ l => S (sum_list ((λ c, S (rounds c)) <$> l))
  | HashArrayMapNode _ l => S (sum_list ((λ o, match o with Some c => S (rounds c) | None => 1%nat end) <$> l))
  | ValueNode _ _ => 2
  end.

Definition task_rounds (t : task) : nat :=
  match t with Child (Some c) => S (rounds c) | _ => 1%nat end.

Lemma iterate_tasks rev n : node_iterate rev n = concat (task_entries rev <$> tasks rev n).
Proof.
  assert (E : ∀ l, concat (task_entries rev <$> (Entry <$> l)) = l).
  { intros l. induction l as [|x l IH]; [done|]. cbn. f_equal. exact IH. }
  destruct n as [es|b l|m l|h es|h e]; cbn [node_iterate tasks nodes_of].
  - by rewrite E.
  - rewrite oriented_fmap, <- !list_fmap_compose. f_equal. by rewrite <- oriented_fmap.
  - rewrite <- !list_fmap_compose. f_equal. by rewrite <- oriented_fmap.
  - by rewrite E.
  - done.
Qed.

Lemma sum_list_Permutation (l k : list nat) : l ≡ₚ k -> sum_list l = sum_list k.
Proof. induction 1; cbn; lia. Qed.

Lemma rounds_tasks rev n : rounds n = S (sum_list (task_rounds <$> tasks rev n)).
Proof.
  assert (E : ∀ l, sum_list (task_rounds <$> (Entry <$> l)) = length l).
  { intros l. induction l as [|x l IH]; [done|]. cbn. f_equal. exact IH. }
  destruct n as [es|b l|m l|h es|h e]; cbn [rounds tasks nodes_of]; f_equal.
  - rewrite E. symmetry. by rewrite oriented_Permutation.
  - rewrite oriented_fmap, <- !list_fmap_compose. apply sum_list_Permutation. by rewrite oriented_Permutation.
  - rewrite <- !list_fmap_compose. apply sum_list_Permutation. rewrite oriented_Permutation.
    apply reflexive_eq, list_fmap_ext. by intros ? [].
  - rewrite E. symmetry. by rewrite oriented_Permutation.
Qed.

(** What a frame and a stack have still to return, and the rounds it takes. *)
Definition pending (rev : bool) (s : list (@node V * nat)) : list entry :=
  concat ((λ f, concat (task_entries rev <$> drop (snd f) (tasks rev (fst f)))) <$> s).
Definition stack_rounds (rev : bool) (s : list (@node V * nat)) : nat :=
  sum_list ((λ f, S (sum_list (task_rounds <$> drop (snd f) (tasks rev (fst f))))) <$> s).

Lemma next_task fuel rev r o s : next (S fuel) rev ((r, o) :: s) =
  match tasks rev r !! o with
  | Some (Entry e) | Some (Child (Some (ValueNode _ e))) => Yield e ((r, S o) :: s)
  | Some (Child (Some c)) => next fuel rev ((c, 0%nat) :: (r, S o) :: s)
  | Some (Child None) => next fuel rev ((r, S o) :: s)
  | None => next fuel rev s
  end.
Proof.
  destruct r as [es|b l|m l|h es|h e]; cbn [next tasks]; rewrite ?directed_lookup, ?list_lookup_fmap.
  - by destruct (oriented rev es !! o).
  - by destruct (oriented rev _ !! o) as [[[]|]|].
  - by destruct (oriented rev _ !! o) as [[[]|]|].
  - by destruct (oriented rev es !! o).
  - by destruct o.
Qed.

(** A call of [next] returns the first pending entry. *)
Lemma next_ok fuel rev s : (stack_rounds rev s < fuel)%nat ->
  match next fuel rev s with
  | Yield e s' => pending rev s = e :: pending rev s' /\ (stack_rounds rev s' < stack_rounds rev s)%nat
  | Done => pending rev s = []
  | OutOfFuel => False
  end.
Proof.
  revert s. induction fuel as [|fuel IH]; intros s Hf; [lia|]. destruct s as [|[r o] s]; [done|].
  assert (Hgo : ∀ s', pending rev s' = pending rev ((r, o) :: s) ->
    (stack_rounds rev s' < stack_rounds rev ((r, o) :: s))%nat ->
    match next fuel rev s' with
    | Yield e s'' => pending rev ((r, o) :: s) = e :: pending rev s''
        /\ (stack_rounds rev s'' < stack_rounds rev ((r, o) :: s))%nat
    | Done => pending rev ((r, o) :: s) = []
    | OutOfFuel => False
    end).
  { intros s' <- Hr. assert (Hs' : (stack_rounds rev s' < fuel)%nat) by lia. specialize (IH s' Hs').
    destruct (next fuel rev s'); [|done|done].
    destruct IH. split; [done|lia]. }
  rewrite next_task. destruct (tasks rev r !! o) as [t|] eqn:E.
  - assert (Ed := drop_S _ _ _ E).
    assert (Hp : pending rev ((r, o) :: s) = task_entries rev t ++ pending rev ((r, S o) :: s)).
    { unfold pending. cbn [fmap list_fmap fst snd concat]. rewrite Ed. cbn. by rewrite app_assoc. }
    assert (Hr : stack_rounds rev ((r, o) :: s) = (task_rounds t + stack_rounds rev ((r, S o) :: s))%nat).
    { unfold stack_rounds. cbn [fmap list_fmap fst snd sum_list]. rewrite Ed. cbn. lia. }
    assert (Hc : ∀ c, t = Child (Some c) ->
      pending rev ((c, 0%nat) :: (r, S o) :: s) = pending rev ((r, o) :: s) /\
      stack_rounds rev ((c, 0%nat) :: (r, S o) :: s) = (rounds c + stack_rounds rev ((r, S o) :: s))%nat).
    { intros c ->. rewrite Hp. cbn [task_entries]. rewrite iterate_tasks, (rounds_tasks rev c). done. }
    destruct t as [e|[c|]].
    + rewrite Hp, Hr. cbn [task_entries task_rounds app]. split; [done|lia].
    + destruct (Hc c eq_refl) as [Hc1 Hc2]. cbn [task_rounds] in Hr.
      destruct c; try (apply Hgo; [done|lia]). rewrite Hp. cbn [task_entries node_iterate app]. split; [done|lia].
    + apply Hgo; [done|]. rewrite Hr. cbn [task_rounds]. lia.
  - apply lookup_ge_None in E. apply Hgo.
    + unfold pending. cbn [fmap list_fmap fst snd concat]. by rewrite drop_ge.
    + unfold stack_rounds. cbn. lia.
Qed.

Lemma drain_ok fuel rev s calls : (stack_rounds rev s < fuel)%nat -> (length (pending rev s) < calls)%nat ->
  drain calls fuel rev s = Some (pending rev s).
Proof.
  revert s. induction calls as [|calls IH]; intros s Hf Hc; [lia|]. cbn [drain].
  assert (N := next_ok fuel rev s Hf). destruct (next fuel rev s) as [e s'| |]; [|by rewrite N|done].
  destruct N as [E Hr]. rewrite E in Hc |- *. cbn in Hc. rewrite IH by lia. done.
Qed.

Lemma iterator_start rev m : pending rev (iterator m) = iterate rev m /\
  stack_rounds rev (iterator m) = match root m with Some n => rounds n | None => 0%nat end.
Proof.
  unfold iterator, iterate. destruct (root m) as [n|]; [|done]. unfold pending, stack_rounds. cbn. rewrite !drop_0.
  rewrite app_nil_r, <- iterate_tasks. split; [done|]. rewrite (rounds_tasks rev). lia.
Qed.

(** Backwards the same entries come in the opposite order. *)
Lemma iterate_rev n : node_iterate true n = reverse (node_iterate false n).
Proof.
  assert (R : ∀ ls : list (list entry), concat (reverse (reverse <$> ls)) = reverse (concat ls)).
  { induction ls as [|l ls IH]; [done|]. cbn [concat]. rewrite fmap_cons, reverse_cons, concat_app, IH, reverse_app. cbn.
    by rewrite app_nil_r. }
  revert n. fix IH 1. intros [es|b l|m l|h es|h e]; cbn [node_iterate]; [done| | |done|done].
  - rewrite <- R. do 2 f_equal. induction l as [|c l IHl]; [done|]. cbn. f_equal; [apply IH|apply IHl].
  - rewrite <- R. do 2 f_equal. induction l as [|[c|] l IHl]; [done| |].
    + cbn. f_equal; [apply IH|apply IHl].
    + cbn. f_equal. apply IHl.
Qed.

(** C32. Iterating a map: for the map after any history, calling the
    iterator's [next] until it is done returns, in either direction, exactly
    the entries [iterate] passes on (so the calls end, within one call more
    than there are entries); the entries are those of the finite map, each
    key once, and the reverse order is the opposite one. *)
Theorem iterator_iterate ops rev : Forall op_ordinary ops ->
  let m := fold_left apply_op ops emptyMap in
  let M := fold_left spec_op ops (∅ : gmap key V) in
  (∀ calls fuel, (base.size M < calls)%nat ->
     (match root m with Some n => rounds n | None => 0%nat end < fuel)%nat ->
     drain calls fuel rev (iterator m) = Some (iterate rev m)) /\
  iterate false m ≡ₚ map_to_list M /\ iterate true m = reverse (iterate false m).
Proof.
  intros Ho. destruct (history_ok ops emptyMap Ho emptyMap_ok) as [Hm E]. cbv zeta.
  change (to_map emptyMap) with (∅ : gmap key V) in E. set (m := fold_left apply_op ops emptyMap) in *. rewrite <- E.
  destruct (iterator_start rev m) as [Ep Er].
  assert (Hrev : iterate true m = reverse (iterate false m)).
  { unfold iterate. destruct (root m); [apply iterate_rev|done]. }
  assert (Hperm : iterate false m ≡ₚ map_to_list (to_map m)).
  { symmetry. apply map_to_list_to_map. by apply iterate_NoDup. }
  split_and!; [|done|done]. intros calls fuel Hc Hf. rewrite <- Ep. apply drain_ok; [by rewrite Er|]. rewrite Ep.
  assert (El : length (iterate rev m) = length (iterate false m)) by (destruct rev; [rewrite Hrev; apply length_reverse|done]).
  rewrite El, Hperm. by rewrite length_map_to_list.
Qed.

End iter.

Lemma iterator_iterate_witness :
  let m := fold_left apply_op [OSet KNull 7; OSet (KBool true) 8] emptyMap in
  drain 3 4 true (iterator m) = Some (iterate true m).
Proof.
  cbv zeta. apply (iterator_iterate [OSet KNull 7; OSet (KBool true) 8] true); [repeat constructor; discriminate|vm_compute; lia..].
Defined.

End ImmIter.
