(* ===== verification/ImmList.v ===== *)
(** The persistent list of Immutable.js as bundled
    (client/docs/swagger-ui/swagger-ui-bundle.js, lines 1073-1319): a vector
    trie with 32 slots per node whose last block, the tail, is kept outside of
    the tree, and a window [origin, capacity) of the positions of the tree that
    belong to the list.

    The nodes are immutable values. A mutable copy (made by [withMutations], as
    in [push] and [unshift]) writes into the nodes that it made itself, which no
    other list can reach, so what it computes is what the copies made here are.
    [undefined] is [None] as an element and [Hole] in an array. *)

From stdpp Require Import base list list_numbers numbers strings gmap.
From Stdlib Require Import ZArith Lia.
From S2P Require Import Prelude ImmMap.

#[local] Set Warnings "-register-all".

Module ImmList.
Section list.
Context {V : Type} `{StrictEq V}.

(** ** Nodes *)

(** What an array of a node holds: nothing, an element (at level 0) or a node
    (above). A [VNode] is its array; [_root] and [_tail] are slots as well. *)
Inductive slot :=
  | Hole
  | Elem (v : V)
  | VNode (array : list slot).

Definition SHIFT : Z := 5.
Definition SIZE : Z := 32.
Definition MASK : Z := 31.

(** [n && ...]: whether there is a node. *)
Definition is_node (n : slot) : bool := match n with VNode _ => true | _ => false end.
(** [n.array], and the array of the copy that [editableVNode] makes of it. *)
Definition array (n : slot) : list slot := match n with VNode a => a | _ => [] end.
(** [a[i]] *)
Definition item (a : list slot) (i : Z) : slot := default Hole (arr_get a i).
(** [a[i] = x], which makes the array longer where it has to be. *)
Definition put (a : list slot) (i : Z) (x : slot) : list slot :=
  if i <? len a then arr_set a i x else a ++ replicate (Z.to_nat (i - len a)) Hole ++ [x].

Definition of_value (o : option V) : slot := match o with Some v => Elem v | None => Hole end.
Definition value_of (s : slot) : option V := match s with Elem v => Some v | _ => None end.
(** [s === o] *)
Definition same_slot (s : slot) (o : option V) : bool :=
  match s, o with Hole, None => true | Elem a, Some b => same a b | _, _ => false end.

(** The index of position [p] in a node of level [l]. *)
Definition index_at (l p : Z) : Z := (p .>>> l .& MASK).

(** ** The list *)

Record plist := PList { origin : Z; capacity : Z; level : Z; root : slot; tail : slot }.

Definition size (e : plist) : Z := capacity e - origin e.
Definition emptyList : plist := PList 0 0 SHIFT Hole Hole.

(** The position of the first element of the tail. *)
Definition getTailOffset (e : Z) : Z := if e <? SIZE then 0 else (e - 1 .>>> SHIFT .<< SHIFT).

(** [wrapIndex] of a number *)
Definition wrapIndex (e : plist) (t : Z) : Z := if t <? 0 then size e + t else t.

(** The loop of [listNodeFor]. *)
Fixpoint descend (fuel : nat) (n : slot) (r t : Z) : slot :=
  match fuel with
  | O => n
  | S fuel => if is_node n && (0 <? r) then descend fuel (item (array n) (index_at r t)) (r - SHIFT) t else n
  end.
Definition listNodeFor (e : plist) (t : Z) : slot :=
  if getTailOffset (capacity e) <=? t then tail e
  else if t <? (1 .<< level e + SHIFT) then descend (Z.to_nat (level e)) (root e) (level e) t
  else Hole.

Definition get (e : plist) (i : Z) (t : option V) : option V :=
  let i := wrapIndex e i in
  if (0 <=? i) && (i <? size e) then
    let i := i + origin e in
    let n := listNodeFor e i in
    if is_node n then value_of (item (array n) (i .& MASK)) else None
  else t.

(** ** Updates of one position *)

(** [updateVNode]; the flag says whether the node is a new one, which is when
    [didAlter] is set. *)
Fixpoint updateVNode (fuel : nat) (e : slot) (n r : Z) (o : option V) : slot * bool :=
  let u := index_at n r in
  let s := is_node e && (u <? len (array e)) in
  if negb s && match o with None => true | Some _ => false end then (e, false)
  else if 0 <? n then
    match fuel with
    | O => (e, false)
    | S fuel =>
        let l := if is_node e then item (array e) u else Hole in
        let '(c, altered) := updateVNode fuel l (n - SHIFT) r o in
        if altered then (VNode (put (array e) u c), true) else (e, false)
    end
  else if s && same_slot (item (array e) u) o then (e, false)
  else (VNode (match o with
               | None => if u =? len (array e) - 1 then take (Z.to_nat u) (array e) else put (array e) u Hole
               | Some v => put (array e) u (Elem v)
               end), true).

(** [updateList] at an index of the list. *)
Definition set_within (e : plist) (t : Z) (n : option V) : plist :=
  let t := t + origin e in
  if getTailOffset (capacity e) <=? t then
    let '(r, altered) := updateVNode 0 (tail e) 0 t n in
    if altered then PList (origin e) (capacity e) (level e) (root e) r else e
  else
    let '(o, altered) := updateVNode (Z.to_nat (level e)) (root e) (level e) t n in
    if altered then PList (origin e) (capacity e) (level e) o (tail e) else e.

(** ** Removal of the positions before or after one *)

(** [removeBefore] and [removeAfter], on the array of a node; the flag says
    whether the answer is a new node. *)
Fixpoint removeBefore (fuel : nat) (a : list slot) (t n : Z) : list slot * bool :=
  if (if n =? t then negb ((1 .<< t) =? 0) else 0 =? len a) then (a, false)
  else
    let r := index_at t n in
    if len a <=? r then ([], true)
    else
      let i := 0 =? r in
      (** [o], and whether it is [a[r]] *)
      let '(o, kept) :=
        if 0 <? t then
          match fuel, item a r with
          | S fuel, VNode c => let '(c', fresh) := removeBefore fuel c (t - SHIFT) n in (VNode c', negb fresh)
          | _, x => (x, true)
          end
        else (Hole, false) in
      if (0 <? t) && kept && i then (a, false)
      else if i && negb (is_node o) then (a, false)
      else
        let u := if i then a else replicate (Z.to_nat r) Hole ++ drop (Z.to_nat r) a in
        (if is_node o then put u r o else u, true).

Fixpoint removeAfter (fuel : nat) (a : list slot) (t n : Z) : list slot * bool :=
  if (n =? (if t =? 0 then 0 else (1 .<< t))) || (0 =? len a) then (a, false)
  else
    let o := index_at t (n - 1) in
    if len a <=? o then (a, false)
    else
      let '(r, kept) :=
        if 0 <? t then
          match fuel, item a o with
          | S fuel, VNode c => let '(c', fresh) := removeAfter fuel c (t - SHIFT) n in (VNode c', negb fresh)
          | _, x => (x, true)
          end
        else (Hole, false) in
      if (0 <? t) && kept && (o =? len a - 1) then (a, false)
      else
        let a := take (Z.to_nat (o + 1)) a in
        (if is_node r then put a o r else a, true).

(** [n && n.removeBefore(...)], [n && n.removeAfter(...)] *)
Definition before (n : slot) (t p : Z) : slot :=
  match n with VNode a => VNode (removeBefore (Z.to_nat t) a t p).1 | _ => n end.
Definition after (n : slot) (t p : Z) : slot :=
  match n with VNode a => VNode (removeAfter (Z.to_nat t) a t p).1 | _ => n end.

(** ** The window *)

Definition clear (e : plist) : plist := if size e =? 0 then e else emptyList.

(** The most levels a list with positions below 2^30 has. *)
Definition LEVELS : nat := 7.

(** New roots above the old one, until position [a] is not negative: the old
    root is the second child. *)
Fixpoint raise_left (fuel : nat) (l : slot) (s c a : Z) : slot * Z * Z :=
  match fuel with
  | O => (l, s, c)
  | S fuel =>
      if a + c <? 0 then
        let l := VNode (if is_node l && negb (len (array l) =? 0) then [Hole; l] else []) in
        let s := s + SHIFT in
        raise_left fuel l s (c + (1 .<< s)) a
      else (l, s, c)
  end.
(** New roots, until position [p] fits: the old root is the first child. *)
Fixpoint raise_right (fuel : nat) (l : slot) (s p : Z) : slot * Z :=
  match fuel with
  | O => (l, s)
  | S fuel =>
      if (1 .<< s + SHIFT) <=? p then
        raise_right fuel (VNode (if is_node l && negb (len (array l) =? 0) then [l] else [])) (s + SHIFT) p
      else (l, s)
  end.
(** The old tail becomes the block at [f] of the tree. *)
Fixpoint store_tail (fuel : nat) (m : slot) (y f : Z) (d : slot) : slot :=
  match fuel with
  | O => m
  | S fuel =>
      if SHIFT <? y then
        let b := index_at y f in
        VNode (put (array m) b (store_tail fuel (item (array m) b) (y - SHIFT) f d))
      else VNode (put (array m) (index_at SHIFT f) d)
  end.
(** The root goes down as long as [a] and [p] are below the same child. *)
Fixpoint narrow (fuel : nat) (l : slot) (s c a p : Z) : slot * Z * Z :=
  match fuel with
  | O => (l, s, c)
  | S fuel =>
      if is_node l then
        let i := index_at s a in
        if negb (i =? index_at s p) then (l, s, c)
        else narrow fuel (item (array l) i) (s - SHIFT) (if i =? 0 then c else c + (1 .<< s) * i) a p
      else (l, s, c)
  end.

(** The end of [setListBounds]: what is before [a] or after [u] goes, from the
    tail [h] and from the tree [l] of level [s]; the window was [o, i) and its
    tail began at [f]. *)
Definition cut (l h : slot) (s a o u i f p : Z) : plist :=
  let h := if u <? i then after h 0 u else h in
  if p <=? a then PList (a - p) (u - p) SHIFT Hole (before h 0 (a - p))
  else if (o <? a) || (p <? f) then
    let '(l, s, c) := narrow (Z.to_nat s) l s 0 a p in
    let l := if o <? a then before l s (a - c) else l in
    let l := if p <? f then after l s (p - c) else l in
    PList (a - c) (u - c) s l h
  else PList a u s l h.

Definition setListBounds (e : plist) (t : Z) (n : option Z) : plist :=
  let t := (t .| 0) in
  let n := (λ n, (n .| 0)) <$> n in
  let o := origin e in
  let i := capacity e in
  let a := o + t in
  let u := match n with None => i | Some n => if n <? 0 then i + n else o + n end in
  if (a =? o) && (u =? i) then e
  else if u <=? a then clear e
  else
    let '(l, s, c) := raise_left LEVELS (root e) (level e) 0 a in
    let a := a + c in
    let o := o + c in
    let u := u + c in
    let i := i + c in
    let f := getTailOffset i in
    let p := getTailOffset u in
    let '(l, s) := raise_right LEVELS l s p in
    let d := tail e in
    let h := if p <? f then listNodeFor e (u - 1) else if f <? p then VNode [] else d in
    let l := if is_node d && (f <? p) && (a <? i) && negb (len (array d) =? 0)
             then store_tail (Z.to_nat s) l s f d else l in
    cut l h s a o u i f p.

(** ** Operations *)

(** [set]; outside of the list it makes the list longer and sets again. *)
Fixpoint set_again (fuel : nat) (e : plist) (t : Z) (n : option V) : plist :=
  let t := wrapIndex e t in
  if (size e <=? t) || (t <? 0) then
    match fuel with
    | O => e
    | S fuel => if t <? 0 then set_again fuel (setListBounds e t None) 0 n
                else set_again fuel (setListBounds e 0 (Some (t + 1))) t n
    end
  else set_within e t n.
Definition set (e : plist) (t : Z) (n : option V) : plist := set_again 1 e t n.

(** The loops of [push] and [unshift]: sets the elements from index [t] on. *)
Fixpoint set_all (e : plist) (t : Z) (vs : list (option V)) : plist :=
  match vs with [] => e | v :: vs => set_all (set e t v) (t + 1) vs end.

Definition push (e : plist) (vs : list (option V)) : plist :=
  set_all (setListBounds e 0 (Some (size e + len vs))) (size e) vs.
Definition pop (e : plist) : plist := setListBounds e 0 (Some (-1)).
Definition unshift (e : plist) (vs : list (option V)) : plist :=
  set_all (setListBounds e (- len vs) None) 0 vs.
Definition shift (e : plist) : plist := setListBounds e 1 None.
Definition setSize (e : plist) (n : Z) : plist := setListBounds e 0 (Some n).

(** [wholeSlice], and [resolveIndex] for the begin and the end of a slice *)
Definition wholeSlice (b : Z) (e : option Z) (n : Z) : bool :=
  ((b =? 0) || (b <=? - n)) && match e with None => true | Some e => n <=? e end.
Definition resolveIndex (e : option Z) (t n : Z) : Z :=
  match e with None => n | Some e => if e <? 0 then Z.max 0 (t + e) else Z.min t e end.
Definition slice (e : plist) (b : Z) (n : option Z) : plist :=
  if wholeSlice b n (size e) then e
  else setListBounds e (resolveIndex (Some b) (size e) 0) (Some (resolveIndex n (size e) (size e))).

(** [List(values)] *)
Definition of_array (vs : list (option V)) : plist :=
  let r := len vs in
  if r =? 0 then emptyList
  else if (0 <? r) && (r <? SIZE) then PList 0 r SHIFT Hole (VNode (of_value <$> vs))
  else set_all (setSize emptyList r) 0 vs.

(** ** Iteration *)

(** The numbers a counter runs through until it meets its end, upwards or, for
    [t], downwards from the end; [None] when they never meet. *)
Definition counted (t : bool) (s l : Z) : option (list Z) :=
  if s <=? l then Some (let r := seqZ s (l - s) in if t then reverse r else r) else None.

(** What the closures of [iterateList] return until they are done. *)
Fixpoint collect (fuel : nat) (e : plist) (t : bool) (n : slot) (u s : Z) : option (list (option V)) :=
  if u =? 0 then
    let arr := if s =? getTailOffset (capacity e) then array (tail e) else array n in
    let b := if origin e <? s then 0 else origin e - s in
    let l := Z.min SIZE (capacity e - s) in
    map (λ i, value_of (item arr i)) <$> counted t b l
  else
    match fuel with
    | O => None
    | S fuel =>
        let l := if origin e <? s then 0 else (origin e - s .>> u) in
        let c := Z.min SIZE (1 + (capacity e - s .>> u)) in
        r ← counted t l c;
        @concat _ <$> mapM (M := option) (λ i : Z, collect fuel e t (item (array n) i) (u - SHIFT) (s + (i .<< u))) r
    end.
(** The elements that [__iterate] visits, and [__iterator] returns. *)
Definition iterate (e : plist) (t : bool) : option (list (option V)) :=
  collect (Z.to_nat (level e)) e t (root e) (level e) 0.

End list.
Arguments slot : clear implicits.
Arguments plist : clear implicits.

(** *** Evaluation *)

Definition upto (n : Z) : list (option Z) := Some <$> seqZ 0 n.

Example list_ex :
  let e := push emptyList (upto 1100) in
  let e' := shift (unshift (pop (slice e 40 (Some (-3)))) [Some (-1); Some (-2)]) in
  size e = 1100 /\ level e = 10 /\ get e 1077 None = Some 1077 /\ get e (-1) None = Some 1099 /\ get e 1100 (Some 7) = Some 7 /\
  iterate e false = Some (upto 1100) /\ iterate e' false = Some (Some (-2) :: (Some <$> seqZ 40 1056)) /\
  iterate (of_array (upto 70)) true = Some (reverse (upto 70)).
Proof. vm_compute. repeat split. Qed.

End ImmList.
