(* ===== verification/ImmListOk.v ===== *)
(** The list of Immutable.js refines a list: proofs about ImmList. *)

From stdpp Require Import base list list_numbers numbers strings gmap.
From Stdlib Require Import ZArith Lia.
From S2P Require Import Prelude ImmMap ImmList.

Module ImmListOk.
Import ImmList.

(** ** Positions and digits *)

(** The number of positions below a node [k] levels above the leaves. *)
Fixpoint span (k : nat) : Z := match k with O => 32 | S k => 32 * span k end.
Definition lv (k : nat) : Z := 5 * Z.of_nat k.
(** The index of a position at level [k]. *)
Definition digit (k : nat) (p : Z) : Z := match k with O => p mod 32 | S k => (p / span k) mod 32 end.

Lemma span_pos k : 32 <= span k.
Proof. induction k; cbn [span]; lia. Qed.
Lemma span_pow k : span k = 2 ^ (lv k + 5).
Proof. induction k as [|k IH]; [done|]. cbn [span]. rewrite IH. unfold lv. replace (5 * Z.of_nat (S k) + 5) with (5 + (5 * Z.of_nat k + 5)) by lia. by rewrite (Z.pow_add_r 2 5) by lia. Qed.
Lemma span_mono j k : (j <= k)%nat -> span j <= span k.
Proof. induction 1; [done|]. cbn [span]. pose proof (span_pos m). lia. Qed.
Lemma span_5 : span 5 = 2 ^ 30.
Proof. done. Qed.
Lemma span_le k : (k <= 5)%nat -> span k <= 1073741824.
Proof. intros Hk%span_mono. exact Hk. Qed.
Lemma span_32 k : ∃ z, span k = 32 * z /\ 0 < z.
Proof. destruct k as [|k]; [by exists 1|]. exists (span k). split; [done|]. pose proof (span_pos k). lia. Qed.

Lemma digit_bounds k p : 0 <= digit k p < 32.
Proof. destruct k; cbn [digit]; apply Z.mod_pos_bound; lia. Qed.

Lemma index_at_digit k p : (k <= 6)%nat -> is_uint32 p -> index_at (lv k) p = digit k p.
Proof.
  intros Hk Hp. unfold index_at, MASK. rewrite band_31, shr_div by (unfold lv; lia).
  destruct k as [|k]; cbn [digit].
  - change (lv 0) with 0. by rewrite Z.div_1_r.
  - rewrite span_pow. do 3 f_equal. unfold lv. lia.
Qed.

Lemma div_span_S k p : p / span (S k) = p / span k / 32.
Proof. cbn [span]. pose proof (span_pos k). rewrite (Z.mul_comm 32), Z.div_div; lia. Qed.
(** The block of a node is one of the blocks of the node above. *)
Lemma block_split k p : p / span k = 32 * (p / span (S k)) + digit (S k) p.
Proof. rewrite div_span_S. cbn [digit]. apply Z.div_mod. lia. Qed.
Lemma same_child k p q : p / span (S k) = q / span (S k) -> digit (S k) p = digit (S k) q -> p / span k = q / span k.
Proof. intros Hb Hd. rewrite (block_split k p), (block_split k q), Hb, Hd. done. Qed.
Lemma same_position p q : p / span 0 = q / span 0 -> digit 0 p = digit 0 q -> p = q.
Proof. cbn [span digit]. intros. zdm. Qed.
Lemma digit_le k p q : p <= q -> p / span (S k) = q / span (S k) -> digit (S k) p <= digit (S k) q.
Proof.
  intros Hle Hb. assert (p / span k <= q / span k) by (apply Z.div_le_mono; [pose proof (span_pos k); lia|done]).
  pose proof (block_split k p). pose proof (block_split k q). lia.
Qed.
Lemma digit_le_0 p q : p <= q -> p / span 0 = q / span 0 -> digit 0 p <= digit 0 q.
Proof. cbn [span digit]. intros. zdm. Qed.
Lemma block_0 k p : 0 <= p < span k -> p / span k = 0.
Proof. intros. by apply Z.div_small. Qed.

Lemma digit_block k p q : p / 32 = q / 32 -> digit (S k) p = digit (S k) q.
Proof. intros E. cbn [digit]. destruct (span_32 k) as (z & -> & Hz). by rewrite <- !Z.div_div, E by lia. Qed.

Lemma tail_offset x : 0 <= x <= 2147483648 -> getTailOffset x = if x =? 0 then 0 else 32 * ((x - 1) / 32).
Proof.
  intros Hx. unfold getTailOffset, SIZE, SHIFT. destruct (Z.ltb_spec x 32).
  - destruct (Z.eqb_spec x 0); [done|]. rewrite Z.div_small; lia.
  - destruct (Z.eqb_spec x 0); [lia|]. rewrite shr_div by lia. change (2 ^ 5) with 32. rewrite shl_small; change (2 ^ 5) with 32; zdm.
Qed.

(** ** Arrays *)

Section list.
Context {V : Type} `{StrictEq V}.
Implicit Types (a : list (slot V)) (n l : slot V) (e : plist V).

Lemma item_lookup a i : 0 <= i -> item a i = default Hole (a !! Z.to_nat i).
Proof. intros. unfold item, arr_get. by rewrite (proj2 (Z.leb_le 0 i)). Qed.
Lemma item_nil i : @item V [] i = Hole.
Proof. unfold item, arr_get. by destruct (0 <=? i). Qed.
Lemma item_out a i : len a <= i -> item a i = Hole.
Proof. intros. unfold len in *. rewrite item_lookup, lookup_ge_None_2 by lia. done. Qed.
Lemma item_put a i j x : 0 <= i -> 0 <= j -> item (put a i x) j = if j =? i then x else item a j.
Proof.
  intros Hi Hj. unfold put, len. rewrite !(item_lookup _ j) by done. destruct (Z.ltb_spec i (Z.of_nat (length a))).
  - unfold arr_set. rewrite (proj2 (Z.leb_le 0 i)) by done. destruct (Z.eqb_spec j i) as [->|].
    + rewrite list_lookup_insert_eq by lia. done.
    + rewrite list_lookup_insert_ne by lia. done.
  - destruct (Z.eqb_spec j i) as [->|].
    + rewrite lookup_app_r by lia. rewrite lookup_app_r by (rewrite length_replicate; lia). rewrite length_replicate.
      by replace (_ - _ - _)%nat with O by lia.
    + destruct (decide (Z.to_nat j < length a)%nat); [by rewrite lookup_app_l by lia|]. rewrite lookup_app_r by lia.
      rewrite (lookup_ge_None_2 a) by lia. destruct (decide (j < i)).
      * rewrite lookup_app_l by (rewrite length_replicate; lia). by rewrite lookup_replicate_2 by lia.
      * rewrite lookup_app_r by (rewrite length_replicate; lia). rewrite length_replicate, lookup_ge_None_2; [done|cbn; lia].
Qed.
Lemma item_take a m j : 0 <= m -> 0 <= j -> item (take (Z.to_nat m) a) j = if j <? m then item a j else Hole.
Proof.
  intros. rewrite !item_lookup by done. destruct (Z.ltb_spec j m); [by rewrite lookup_take_lt by lia|by rewrite lookup_take_ge by lia].
Qed.
Lemma item_blank a m j : 0 <= m <= len a -> 0 <= j -> item (replicate (Z.to_nat m) Hole ++ drop (Z.to_nat m) a) j = if j <? m then Hole else item a j.
Proof.
  intros Hm Hj. unfold len in Hm. rewrite !item_lookup by done. destruct (Z.ltb_spec j m).
  - rewrite lookup_app_l by (rewrite length_replicate; lia). by rewrite lookup_replicate_2 by lia.
  - rewrite lookup_app_r by (rewrite length_replicate; lia). rewrite length_replicate, lookup_drop. do 2 f_equal. lia.
Qed.

(** ** Reading a tree *)

(** The slot of a position, in a tree of [k] levels above the leaves. *)
Fixpoint look (k : nat) n (p : Z) : slot V :=
  match k with O => item (array n) (digit 0 p) | S k' => look k' (item (array n) (digit k p)) p end.

Lemma look_none k n p : is_node n = false -> look k n p = Hole.
Proof.
  revert n. induction k as [|k IH]; intros n Hn; cbn [look]; replace (array n) with (@nil (slot V)) by (by destruct n); rewrite item_nil; [done|by apply IH].
Qed.
Lemma look_empty k n p : array n = [] -> look k n p = Hole.
Proof. intros Ha. destruct k; cbn [look]; rewrite Ha, item_nil; [done|by apply look_none]. Qed.

Lemma look_period k n p z : look k n (p + span k * z) = look k n p.
Proof.
  revert n z. induction k as [|k IH]; intros n z; cbn [look digit].
  - cbn [span]. f_equal. zdm.
  - pose proof (span_pos k). cbn [span]. replace (p + 32 * span k * z) with (p + span k * (z * 32)) by lia. rewrite IH. do 2 f_equal.
    rewrite (Z.mul_comm (span k)), Z.div_add by lia. by rewrite Z_mod_plus_full.
Qed.

Lemma descend_look fuel k n p q : (k <= fuel)%nat -> (k <= 6)%nat -> is_uint32 p -> q / 32 = p / 32 ->
  look k n q = item (array (descend fuel n (lv k) p)) (digit 0 q).
Proof.
  revert k n. induction fuel as [|fuel IH]; intros k n Hf Hk Hp Hb.
  - by replace k with O by lia.
  - cbn [descend]. destruct (is_node n) eqn:En; cbn [andb]; [|rewrite look_none by done; destruct n; try done; by rewrite item_nil].
    destruct k as [|k]; [done|]. replace (0 <? lv (S k)) with true by (symmetry; apply Z.ltb_lt; unfold lv; lia).
    rewrite index_at_digit by done. replace (lv (S k) - SHIFT) with (lv k) by (unfold lv, SHIFT; lia). cbn [look].
    rewrite (digit_block k q p) by done. apply IH; lia || done.
Qed.

(** ** Updating a position *)

Lemma not_node_array n : is_node n = false -> array n = [].
Proof. by destruct n. Qed.
Lemma item_there n u : is_node n && (u <? len (array n)) = false -> item (array n) u = Hole.
Proof. intros [En|Hu%Z.ltb_ge]%andb_false_iff; [by rewrite not_node_array, item_nil|by apply item_out]. Qed.
Lemma same_slot_ok (x : slot V) o : same_slot x o = true -> x = of_value o.
Proof. destruct x, o; cbn; try done. by intros ->%same_eq. Qed.
Lemma item_child n u : (if is_node n then item (array n) u else Hole) = item (array n) u.
Proof. destruct n; cbn; try done; by rewrite item_nil. Qed.

Lemma update_kept fuel n s p o : (updateVNode fuel n s p o).2 = false -> (updateVNode fuel n s p o).1 = n.
Proof.
  destruct fuel as [|fuel]; cbn [updateVNode]; repeat (case_match; try done).
Qed.

Lemma update_leaf fuel n p o q : is_uint32 p -> q / span 0 = p / span 0 ->
  look 0 (updateVNode fuel n 0 p o).1 q = if q =? p then of_value o else look 0 n q.
Proof.
  intros Hp Hb. set (u := digit 0 p). assert (Hu : index_at 0 p = u) by (apply (index_at_digit 0); [lia|done]).
  assert (Hq : (q =? p) = (digit 0 q =? u)).
  { destruct (Z.eqb_spec (digit 0 q) u) as [E|E]; [apply Z.eqb_eq; by apply same_position|apply Z.eqb_neq; by intros ->]. }
  rewrite Hq. pose proof (digit_bounds 0 q). pose proof (digit_bounds 0 p : 0 <= u < 32).
  assert (E : updateVNode fuel n 0 p o = updateVNode 0 n 0 p o) by (by destruct fuel). rewrite E. cbn [updateVNode look]. rewrite Hu. cbn [Z.ltb].
  destruct (is_node n && (u <? len (array n))) eqn:Es; cbn [negb andb]; [|apply item_there in Es].
  - change (0 <? 0) with false. cbn iota. destruct (same_slot (item (array n) u) o) eqn:Eo; cbn [fst].
    + apply same_slot_ok in Eo. by destruct (Z.eqb_spec (digit 0 q) u) as [->|].
    + destruct o as [v|]; cbn [of_value array]; [by rewrite item_put by lia|]. destruct (Z.eqb_spec u (len (array n) - 1)) as [Eu|]; [|by rewrite item_put by lia].
      rewrite item_take by lia. destruct (Z.eqb_spec (digit 0 q) u), (Z.ltb_spec (digit 0 q) u); try done; [lia|]. by rewrite item_out by lia.
  - change (0 <? 0) with false. cbn iota. destruct o as [v|]; cbn [fst of_value array].
    + by rewrite item_put by lia.
    + by destruct (Z.eqb_spec (digit 0 q) u) as [->|].
Qed.

Lemma update_look fuel k n p o q : (k <= fuel)%nat -> (k <= 6)%nat -> is_uint32 p -> q / span k = p / span k ->
  look k (updateVNode fuel n (lv k) p o).1 q = if q =? p then of_value o else look k n q.
Proof.
  revert k n. induction fuel as [|fuel IH]; intros k n Hf Hk Hp Hb.
  - replace k with O in * by lia. by apply update_leaf.
  - destruct k as [|k]; [by apply update_leaf|]. cbn [updateVNode]. rewrite index_at_digit by done. set (u := digit (S k) p).
    replace (0 <? lv (S k)) with true by (symmetry; apply Z.ltb_lt; unfold lv; lia). replace (lv (S k) - SHIFT) with (lv k) by (unfold lv, SHIFT; lia).
    rewrite item_child. pose proof (digit_bounds (S k) p). pose proof (digit_bounds (S k) q).
    specialize (IH k (item (array n) u) ltac:(lia) ltac:(lia) Hp). pose proof (update_kept fuel (item (array n) u) (lv k) p o) as Hkept.
    assert (Hne : digit (S k) q <> u -> q <> p) by (by intros Hd ->).
    destruct (negb _ && _) eqn:Es; cbn [fst].
    + apply andb_true_iff in Es as [Es%negb_true_iff Eo]. destruct o; [done|]. apply item_there in Es. destruct (Z.eqb_spec q p) as [->|]; [|done].
      cbn [look]. fold u. rewrite Es. by apply look_none.
    + destruct (updateVNode fuel (item (array n) u) (lv k) p o) as [c alt] eqn:Ec. cbn [fst snd] in *.
      destruct (decide (digit (S k) q = u)) as [Hd|Hd].
      * specialize (IH (same_child _ _ _ Hb Hd)). cbn [look]. rewrite Hd, <- IH. destruct alt; cbn [fst array]; [by rewrite item_put, Z.eqb_refl by lia|]. by rewrite Hkept.
      * rewrite (proj2 (Z.eqb_neq q p)) by auto. destruct alt; cbn [fst look array]; [|done]. rewrite item_put, (proj2 (Z.eqb_neq _ _) Hd) by lia. done.
Qed.

(** ** Growing and cutting a tree *)

Lemma lv_S k : lv (S k) - SHIFT = lv k.
Proof. unfold lv, SHIFT. lia. Qed.
Lemma lv_pos k : (0 <? lv (S k)) = true.
Proof. apply Z.ltb_lt. unfold lv. lia. Qed.
Lemma shl_lv k : (k <= 5)%nat -> (1 .<< lv (S k)) = span k.
Proof. intros Hk. rewrite span_pow. replace (lv k + 5) with (lv (S k)) by (unfold lv; lia). 
  assert (2 ^ lv (S k) <= 2 ^ 30) by (apply Z.pow_le_mono_r; unfold lv; lia). assert (0 < 2 ^ lv (S k)) by (apply Z.pow_pos_nonneg; unfold lv; lia).
  rewrite shl_small; unfold lv in *; lia. Qed.

Lemma store_look fuel k m f d q : (S k <= fuel)%nat -> (k <= 5)%nat -> is_uint32 f -> q / span (S k) = f / span (S k) ->
  look (S k) (store_tail fuel m (lv (S k)) f d) q = if q / 32 =? f / 32 then item (array d) (q mod 32) else look (S k) m q.
Proof.
  revert k m. induction fuel as [|fuel IH]; intros k m Hf Hk Hp Hb; [lia|]. cbn [store_tail].
  pose proof (digit_bounds (S k) f). pose proof (digit_bounds (S k) q). destruct k as [|k].
  - change (SHIFT <? lv 1) with false. cbn iota. change SHIFT with (lv 1). rewrite index_at_digit by (lia || done). cbn [look array]. rewrite item_put by lia.
    destruct (Z.eqb_spec (digit 1 q) (digit 1 f)) as [E|E].
    + apply (same_child 0) in E; [|done]. cbn [span] in E. rewrite E, Z.eqb_refl. done.
    + destruct (Z.eqb_spec (q / 32) (f / 32)) as [E'|]; [|done]. destruct E. by apply digit_block.
  - replace (SHIFT <? lv (S (S k))) with true by (symmetry; apply Z.ltb_lt; unfold lv, SHIFT; lia). rewrite lv_S, index_at_digit by (lia || done).
    remember (S k) as j. cbn [look array]. rewrite item_put by lia. destruct (Z.eqb_spec (digit (S j) q) (digit (S j) f)) as [E|E].
    + subst j. rewrite IH; [|lia|lia|done|by apply same_child]. by rewrite E.
    + destruct (Z.eqb_spec (q / 32) (f / 32)) as [E'|]; [|done]. destruct E. by apply digit_block.
Qed.

Lemma raised_empty l : is_node l && negb (len (array l) =? 0) = false -> array l = [].
Proof. intros [E|E%negb_false_iff%Z.eqb_eq]%andb_false_iff; [by apply not_node_array|]. by apply length_zero_iff_nil, Nat2Z.inj. Qed.

Lemma raise_right_look k l q : 0 <= q < span k ->
  look (S k) (VNode (if is_node l && negb (len (array l) =? 0) then [l] else [])) q = look k l q.
Proof.
  intros Hq. destruct (is_node l && _) eqn:E; [|apply raised_empty in E; by rewrite !look_empty].
  cbn [look array digit]. by rewrite Z.div_small by done.
Qed.
Lemma raise_right_ok fuel k l p : (5 - k < fuel)%nat -> (k <= 5)%nat -> p < span 5 ->
  ∃ k' l', raise_right fuel l (lv k) p = (l', lv k') /\ (k <= k' <= 5)%nat /\ p < span k' /\ ∀ q, 0 <= q < span k -> look k' l' q = look k l q.
Proof.
  revert k l. induction fuel as [|fuel IH]; intros k l Hf Hk Hp; [lia|]. cbn [raise_right].
  replace (lv k + SHIFT) with (lv (S k)) by (unfold lv, SHIFT; lia). rewrite shl_lv by done. destruct (Z.leb_spec (span k) p).
  - assert (k <> 5%nat) by (by intros ->; lia). edestruct (IH (S k)) as (k' & l' & E & Hk' & Hp' & Hl); [lia|lia|done|]. exists k', l'.
    split_and!; [exact E|lia|lia|done|]. intros q Hq. rewrite Hl by (cbn [span]; lia). by apply raise_right_look.
  - exists k, l. by split_and!; try lia.
Qed.

Lemma raise_left_look k l q : 0 <= q < span k ->
  look (S k) (VNode (if is_node l && negb (len (array l) =? 0) then [Hole; l] else [])) (q + span k) = look k l q.
Proof.
  intros Hq. destruct (is_node l && _) eqn:E; [|apply raised_empty in E; by rewrite !look_empty].
  cbn [look array digit]. replace (q + span k) with (q + 1 * span k) by lia. rewrite Z.div_add, Z.div_small by lia.
  change ((0 + 1) mod 32) with 1. rewrite Z.mul_comm. apply look_period.
Qed.
(** The roots added on the left: position [q] becomes [q + c']. *)
Lemma raise_left_ok fuel k l c (a : Z) : (5 - k < fuel)%nat -> (k <= 5)%nat -> 0 <= c -> 16 * c <= span k -> c mod 32 = 0 ->
  - span 4 <= a -> (k = 5%nat -> 0 <= a + c) ->
  ∃ k' l' c', raise_left fuel l (lv k) c a = (l', lv k', c') /\ (k <= k' <= 5)%nat /\ c <= c' /\ 16 * c' <= span k' /\ c' mod 32 = 0 /\ 0 <= a + c' /\
    (0 <= a + c -> k' = k /\ c' = c) /\ (a + c < 0 -> span k + c' <= span k') /\ ∀ q, 0 <= q < span k -> look k' l' (q + (c' - c)) = look k l q.
Proof.
  revert k l c. induction fuel as [|fuel IH]; intros k l c Hf Hk Hc Hc16 Hc32 Ha Ha5; [lia|]. cbn [raise_left]. destruct (Z.ltb_spec (a + c) 0).
  - assert (k <> 5%nat) by (intros E; specialize (Ha5 E); lia). replace (lv k + SHIFT) with (lv (S k)) by (unfold lv, SHIFT; lia). rewrite shl_lv by lia.
    pose proof (span_pos k). edestruct (IH (S k)) as (k' & l' & c' & E & Hk' & Hcc & Hc' & Hm & Hge & Hz & Hs & Hl);
      [lia|lia| | | |exact Ha| |exists k', l', c'; split; [exact E|]; split_and!; try lia].
    + lia.
    + cbn [span]. lia.
    + destruct (span_32 k) as (z & -> & _). rewrite Z.mul_comm, Z_mod_plus_full. done.
    + intros E. replace k with 4%nat by lia. lia.
    + intros q Hq. replace (q + (c' - c)) with (q + span k + (c' - (c + span k))) by lia. rewrite Hl by (cbn [span]; lia). by apply raise_left_look.
  - exists k, l, c. split_and!; try done; try lia. intros q Hq. f_equal. lia.
Qed.

(** Cutting keeps what is on the other side. *)
Lemma kept_items a r q : 0 <= r < len a -> r <= q ->
  item (if 0 =? r then a else replicate (Z.to_nat r) Hole ++ drop (Z.to_nat r) a) q = item a q.
Proof.
  intros Hr Hq. destruct (Z.eqb_spec 0 r); [done|]. rewrite item_blank by lia. by rewrite (proj2 (Z.ltb_ge _ _)) by lia.
Qed.
Lemma before_array fuel k a (n q : Z) : (k <= fuel)%nat -> (k <= 5)%nat -> 0 <= n <= q -> is_uint32 n -> q / span k = n / span k ->
  look k (VNode (removeBefore fuel a (lv k) n).1) q = look k (VNode a) q.
Proof.
  revert k a. induction fuel as [|fuel IH]; intros k a Hf Hk Hn Hu Hb.
  - replace k with O in * by lia. cbn [removeBefore]. case_match; [done|]. change (lv 0) with 0. rewrite (index_at_digit 0) by (lia || done).
    pose proof (digit_bounds 0 n). pose proof (digit_bounds 0 q). pose proof (digit_le_0 n q). cbn [look array].
    destruct (Z.leb_spec (len a) (digit 0 n)); [cbn [fst]; by rewrite item_nil, item_out by lia|]. change (0 <? 0) with false. cbn [andb is_node negb].
    destruct (Z.eqb_spec 0 (digit 0 n)); [done|]. cbn [andb fst]. rewrite item_blank by lia. by rewrite (proj2 (Z.ltb_ge _ _)) by lia.
  - destruct k as [|k].
    { (* the same as without fuel *) assert (E : removeBefore (S fuel) a (lv 0) n = removeBefore fuel a (lv 0) n) by (by destruct fuel). rewrite E. by apply IH; lia. }
    cbn [removeBefore]. case_match; [done|]. rewrite lv_pos, lv_S, index_at_digit by (lia || done). clear H0.
    pose proof (digit_bounds (S k) n). pose proof (digit_bounds (S k) q). assert (Hd := digit_le k n q ltac:(lia) ltac:(done)).
    destruct (Z.leb_spec (len a) (digit (S k) n)); [cbn [fst look array]; by rewrite item_nil, item_out by lia|].
    destruct (item a (digit (S k) n)) as [|v|c] eqn:Ea.
    1,2: cbn [andb is_node negb]; destruct (Z.eqb_spec 0 (digit (S k) n)) as [E0|E0]; [done|]; cbn [andb fst look array]; rewrite item_blank by lia;
      by rewrite (proj2 (Z.ltb_ge _ _)) by lia.
    specialize (IH k c ltac:(lia) ltac:(lia) Hn Hu). destruct (removeBefore fuel c (lv k) n) as [c' fresh]. cbn [fst] in IH.
    destruct (true && negb fresh && (0 =? digit (S k) n)); [done|]. cbn [is_node negb]. rewrite andb_false_r. cbn [fst look array].
    rewrite item_put by lia. rewrite kept_items by lia.
    destruct (Z.eqb_spec (digit (S k) q) (digit (S k) n)) as [E|E]; [|done]. rewrite E, Ea. apply IH. by apply same_child.
Qed.

Lemma after_array fuel k a (n q : Z) : (k <= fuel)%nat -> (k <= 5)%nat -> 0 <= q < n -> is_uint32 n -> q / span k = (n - 1) / span k ->
  look k (VNode (removeAfter fuel a (lv k) n).1) q = look k (VNode a) q.
Proof.
  revert k a. induction fuel as [|fuel IH]; intros k a Hf Hk Hn Hu Hb.
  - replace k with O in * by lia. cbn [removeAfter]. case_match; [done|]. change (lv 0) with 0. rewrite (index_at_digit 0) by lia.
    pose proof (digit_bounds 0 (n - 1)). pose proof (digit_bounds 0 q). pose proof (digit_le_0 q (n - 1)). cbn [look array].
    destruct (Z.leb_spec (len a) (digit 0 (n - 1))); [done|]. change (0 <? 0) with false. cbn [andb is_node fst].
    rewrite item_take by lia. by rewrite (proj2 (Z.ltb_lt _ _)) by lia.
  - destruct k as [|k].
    { assert (E : removeAfter (S fuel) a (lv 0) n = removeAfter fuel a (lv 0) n) by (by destruct fuel). rewrite E. by apply IH; lia. }
    cbn [removeAfter]. case_match; [done|]. rewrite lv_pos, lv_S, index_at_digit by lia. clear H0. set (o := digit (S k) (n - 1)).
    pose proof (digit_bounds (S k) (n - 1) : 0 <= o < 32). pose proof (digit_bounds (S k) q). assert (Hd := digit_le k q (n - 1) ltac:(lia) ltac:(done)). fold o in Hd.
    destruct (Z.leb_spec (len a) o); [done|].
    assert (Ht : item (take (Z.to_nat (o + 1)) a) (digit (S k) q) = item a (digit (S k) q)) by (rewrite item_take by lia; by rewrite (proj2 (Z.ltb_lt _ _)) by lia).
    destruct (item a o) as [|v|c] eqn:Ea.
    1,2: destruct (true && true && _); [done|]; cbn [is_node fst look array]; by rewrite Ht.
    specialize (IH k c ltac:(lia) ltac:(lia) Hn Hu). destruct (removeAfter fuel c (lv k) n) as [c' fresh]. cbn [fst] in IH.
    destruct (true && negb fresh && _); [done|]. cbn [is_node fst look array]. rewrite item_put by lia. rewrite Ht.
    destruct (Z.eqb_spec (digit (S k) q) o) as [E|E]; [|done]. rewrite E, Ea. apply IH. by apply same_child.
Qed.

(** The same for a tree that may be missing. *)
Lemma before_look k n (p q : Z) : (k <= 5)%nat -> 0 <= p <= q -> q < span k -> look k (before n (lv k) p) q = look k n q.
Proof.
  intros Hk Hp Hq. pose proof (span_le k Hk). destruct n as [| |a]; try done. cbn [before]. apply before_array; [unfold lv; lia|done|done|lia|]. by rewrite !Z.div_small by lia.
Qed.
Lemma after_look k n (p q : Z) : (k <= 5)%nat -> 0 <= q < p -> p <= span k -> look k (after n (lv k) p) q = look k n q.
Proof.
  intros Hk Hp Hq. pose proof (span_le k Hk). destruct n as [| |a]; try done. cbn [after]. apply after_array; [unfold lv; lia|done|done|lia|]. by rewrite !Z.div_small by lia.
Qed.

Lemma digit_period k p z : digit k (p - span k * z) = digit k p.
Proof.
  destruct k as [|k]; cbn [digit span]; [zdm|]. pose proof (span_pos k). replace (p - 32 * span k * z) with (p + (- z * 32) * span k) by lia.
  rewrite Z.div_add by lia. apply Z_mod_plus_full.
Qed.
Lemma look_back k n p z : look k n (p - span k * z) = look k n p.
Proof. replace (p - span k * z) with (p + span k * (- z)) by lia. apply look_period. Qed.

Lemma narrow_ok fuel k l (c a p z : Z) : (k <= fuel)%nat -> (1 <= k <= 5)%nat -> c = span k * z -> 0 <= c <= a -> a < p -> p - c < span k ->
  p mod 32 = 0 -> is_uint32 p ->
  ∃ k' l' c', narrow fuel l (lv k) c a p = (l', lv k', c') /\ (1 <= k' <= 5)%nat /\ c <= c' <= a /\ p - c' < span k' /\ c' mod 32 = 0 /\
    ∀ q, a <= q < p -> look k' l' (q - c') = look k l (q - c).
Proof.
  revert k l c z. induction fuel as [|fuel IH]; intros k l c z Hf Hk Hz Hc Hap Hp Hm Hu; [lia|].
  assert (Hstop : ∃ k' l' c', (l, lv k, c) = (l', lv k', c') /\ (1 <= k' <= 5)%nat /\ c <= c' <= a /\ p - c' < span k' /\ c' mod 32 = 0 /\
    ∀ q, a <= q < p -> look k' l' (q - c') = look k l (q - c)).
  { exists k, l, c. split_and!; try done; try lia. subst c. destruct (span_32 k) as (y & -> & _). rewrite <- Z.mul_assoc, Z.mul_comm. apply Z_mod_mult. }
  cbn [narrow]. destruct (is_node l); [|done]. rewrite !index_at_digit by lia. destruct (Z.eqb_spec (digit k a) (digit k p)) as [Hd|]; [|done]. cbn [negb].
  destruct k as [|k]; [lia|]. pose proof (span_pos k). pose proof (span_pos (S k)).
  assert (Hblock : ∀ q, a <= q <= p -> q / span (S k) = z).
  { intros q Hq. symmetry. apply (Z.div_unique _ _ _ (q - c)); lia. }
  assert (Hda : a / span k = 32 * z + digit (S k) a) by (rewrite block_split, Hblock by lia; done).
  assert (Hdp : p / span k = 32 * z + digit (S k) a) by (rewrite block_split, Hblock by lia; by rewrite Hd).
  assert (Hk0 : k <> O) by (intros ->; cbn [span] in *; zdm).
  set (i := digit (S k) a) in *. rewrite lv_S, shl_lv by lia.
  assert (Hc' : (if i =? 0 then c else c + span k * i) = span k * (32 * z + i)) by (subst c; cbn [span]; destruct (Z.eqb_spec i 0) as [->|]; lia).
  rewrite Hc'. assert (Hi : 0 <= i) by apply digit_bounds. assert (Hcc : span k * (32 * z + i) = c + span k * i) by (subst c; cbn [span]; lia).
  assert (Ea : span k * (a / span k) <= a) by (apply Z.mul_div_le; lia). rewrite Hda in Ea.
  assert (Ep : p < span k * Z.succ (p / span k)) by (apply Z.mul_succ_div_gt; lia). rewrite Hdp in Ep.
  assert (0 <= span k * i) by (apply Z.mul_nonneg_nonneg; lia).
  destruct (IH k (item (array l) i) (span k * (32 * z + i)) (32 * z + i) ltac:(lia) ltac:(lia) eq_refl ltac:(lia) Hap ltac:(lia) Hm Hu)
    as (k' & l' & c' & E & Hk' & Hcb & Hpb & Hmb & Hq).
  exists k', l', c'. split_and!; try done; try lia. intros q Hq'. rewrite Hq by done. rewrite look_back. cbn [look]. subst c. rewrite digit_period.
  cbn [span]. replace (q - 32 * span k * z) with (q - span k * (32 * z)) by lia. rewrite look_back. f_equal. f_equal.
  assert (Hqk : q / span k = 32 * z + digit (S k) q) by (rewrite block_split, Hblock by lia; done).
  assert (a / span k <= q / span k) by (apply Z.div_le_mono; lia). assert (q / span k <= p / span k) by (apply Z.div_le_mono; lia). lia.
Qed.

(** ** The window *)

(** The slot of a position of a list with [k] levels. *)
Definition slot_at (k : nat) e (x : Z) : slot V :=
  if getTailOffset (capacity e) <=? x then item (array (tail e)) (x mod 32) else look k (root e) x.

(** A list of [k] levels, at most five: its tree has room for the positions
    before the tail. *)
Definition core (k : nat) e : Prop :=
  level e = lv k /\ (1 <= k <= 5)%nat /\ 0 <= origin e <= capacity e /\ capacity e <= 2147483648 /\
  getTailOffset (capacity e) < span k.

Lemma core_bound k e : core k e -> capacity e <= span k + 32.
Proof.
  intros (_ & _ & Ho & Hc & Ht). rewrite tail_offset in Ht by lia. destruct (Z.eqb_spec (capacity e) 0); [pose proof (span_pos k); lia|]. zdm.
Qed.

Lemma cut_ok k l h (a o u i f p : Z) (c : Z -> slot V) :
  (1 <= k <= 5)%nat -> 0 <= a < u -> u <= 2147483648 -> p = 32 * ((u - 1) / 32) -> p < span k ->
  (∀ x, Z.max a o <= x < Z.min u i -> x < p -> look k l x = c x) ->
  (∀ x, Z.max a o <= x < Z.min u i -> p <= x -> item (array h) (x mod 32) = c x) ->
  let e := cut l h (lv k) a o u i f p in
  ∃ k', core k' e /\ size e = u - a /\ ∀ x, Z.max a o <= x < Z.min u i -> slot_at k' e (x - a + origin e) = c x.
Proof.
  intros Hk Ha Hu Hp Hps Hl Hh. unfold cut. set (h' := if u <? i then after h 0 u else h).
  assert (Hh' : ∀ x, Z.max a o <= x < Z.min u i -> p <= x -> item (array h') (x mod 32) = c x).
  { intros x Hx Hpx. rewrite <- (Hh x Hx Hpx). unfold h'. destruct (u <? i); [|done]. destruct h as [| |b]; try done. cbn [after].
    apply (after_array _ 0 b u x); cbn [span]; try lia. zdm. }
  assert (Hpu : 0 <= p < u /\ u <= p + 32) by zdm. pose proof (span_le k ltac:(lia)). assert (Hto : ∀ c, 0 <= c <= p -> c mod 32 = 0 -> getTailOffset (u - c) = p - c).
  { intros d Hd Hm. rewrite tail_offset by lia. destruct (Z.eqb_spec (u - d) 0); zdm. }
  destruct (Z.leb_spec p a); [|destruct ((o <? a) || (p <? f))].
  - exists 1%nat. unfold core, size, slot_at. cbn [level origin capacity root tail]. rewrite Hto by (lia || zdm). rewrite Z.sub_diag.
    split_and!; try done; try lia. intros x Hx. rewrite (proj2 (Z.leb_le _ _)) by lia. rewrite <- Hh' by lia.
    replace (x - a + (a - p)) with (x - p) by lia. pose proof (before_look 0 h' (a - p) (x - p)) as Hb. cbn [span look digit] in Hb. change (lv 0) with 0 in Hb.
    rewrite Hb by zdm. f_equal. zdm.
  - destruct (narrow_ok (Z.to_nat (lv k)) k l 0 a p 0) as (k' & l' & d & -> & Hk' & Hd & Hpd & Hm & Hq); try done; try lia; try (unfold lv; lia); try zdm.
    exists k'. unfold core, size, slot_at. cbn [level origin capacity root tail]. rewrite Hto by lia. split_and!; try done; try lia.
    intros x Hx. replace (x - a + (a - d)) with (x - d) by lia. destruct (Z.leb_spec (p - d) (x - d)).
    + rewrite <- Hh' by lia. f_equal. zdm.
    + rewrite <- Hl, <- (Z.sub_0_r x), <- Hq, Z.sub_0_r by lia.
      transitivity (look k' (if o <? a then before l' (lv k') (a - d) else l') (x - d)); [destruct (p <? f); [apply after_look; lia|done]|].
      destruct (o <? a); [apply before_look; lia|done].
  - exists k. unfold core, size, slot_at. cbn [level origin capacity root tail]. pose proof (Hto 0 ltac:(zdm) eq_refl) as Ht. rewrite !Z.sub_0_r in Ht. rewrite Ht.
    split_and!; try done; try lia. intros x Hx. replace (x - a + a) with x by lia. destruct (Z.leb_spec p x); [by apply Hh'|by apply Hl].
Qed.

(** The end of the window that [setListBounds] is asked for. *)
Definition bound_end e (n : option Z) : Z :=
  match n with None => capacity e | Some n => if n <? 0 then capacity e + n else origin e + n end.

(** A list that may grow by up to 2^25 elements. *)
Definition roomy (k : nat) : Prop := (k <= 4)%nat.

(** The tree and the tail that are cut, in the positions of the raised tree. *)
Lemma grown_tree k e k2 l2 (c a u : Z) : core k e -> (1 <= k2 <= 5)%nat -> 0 <= c -> c mod 32 = 0 ->
  let f := getTailOffset (capacity e + c) in let p := 32 * ((u - 1) / 32) in
  (origin e < capacity e -> array (tail e) <> []) -> 0 <= a -> p < span k2 ->
  (∀ q, 0 <= q < getTailOffset (capacity e) -> look k2 l2 (q + c) = look k (root e) q) ->
  let l3 := if is_node (tail e) && (f <? p) && (a <? capacity e + c) && negb (len (array (tail e)) =? 0)
            then store_tail (Z.to_nat (lv k2)) l2 (lv k2) f (tail e) else l2 in
  capacity e + c <= 2147483648 ->
  ∀ x, Z.max a (origin e + c) <= x < Z.min u (capacity e + c) -> x < p -> look k2 l3 x = slot_at k e (x - c).
Proof.
  intros (_ & _ & Ho & Hc31 & Hts) Hk2 Hc Hm f p Hne Ha Hp Hl l3 Hcb x Hx Hxp.
  assert (Hf : getTailOffset (capacity e) = f - c /\ f = 32 * ((capacity e + c - 1) / 32) /\ 0 <= f - c).
  { unfold f. rewrite !tail_offset by lia. destruct (Z.eqb_spec (capacity e) 0); [lia|]. destruct (Z.eqb_spec (capacity e + c) 0); [lia|]. zdm. }
  destruct Hf as (Hf & Hf32 & Hf0). assert (Hlow : x < f -> look k2 l2 x = slot_at k e (x - c)).
  { intros Hxf. unfold slot_at. rewrite Hf. rewrite (proj2 (Z.leb_gt _ _)) by lia. rewrite <- Hl by lia. f_equal. lia. }
  unfold l3. destruct (Z.ltb_spec f p) as [Hfp|]; [|rewrite andb_false_r; cbn [andb]; apply Hlow; lia].
  assert (Hd : array (tail e) <> []) by (apply Hne; lia). rewrite (proj2 (Z.ltb_lt a _)) by lia.
  replace (is_node (tail e)) with true by (by destruct (tail e)). replace (len (array (tail e)) =? 0) with false by (symmetry; apply Z.eqb_neq; unfold len; by destruct (array (tail e))).
  cbn [andb negb]. destruct k2 as [|j]; [lia|]. pose proof (span_le (S j) ltac:(lia)).
  rewrite store_look by first [unfold lv; lia|lia|rewrite !Z.div_small by lia; done].
  destruct (Z.eqb_spec (x / 32) (f / 32)); [|apply Hlow; zdm]. unfold slot_at. rewrite Hf, (proj2 (Z.leb_le _ _)) by zdm. f_equal. zdm.
Qed.

Lemma bounds_ok k e (t : Z) (n : option Z) : core k e -> (origin e < capacity e -> array (tail e) <> []) ->
  let u := bound_end e n in let a := origin e + t in
  a < u -> (0 <= t /\ u <= capacity e \/ roomy k /\ (0 <= t \/ n = None) /\ - span 4 <= t /\ u <= capacity e + span 4) ->
  is_int32 t -> match n with None => True | Some n => is_int32 n end ->
  let e' := setListBounds e t n in
  ∃ k', core k' e' /\ size e' = u - a /\ ∀ x, Z.max a (origin e) <= x < Z.min u (capacity e) -> slot_at k' e' (x - a + origin e') = slot_at k e x.
Proof.
  intros Hcore Hne u a Hau Hfit Ht Hn. assert (Hb := core_bound k e Hcore). pose proof Hcore as (Hlv & Hk & Ho & Hc31 & Hts).
  unfold setListBounds. rewrite (bor_0_r t) by done. replace ((λ n : Z, n .| 0) <$> n) with n by (destruct n; cbn; [by rewrite bor_0_r|done]).
  fold (bound_end e n). fold u a. destruct (_ && _) eqn:Esame.
  { apply andb_true_iff in Esame as [Ea%Z.eqb_eq Eu%Z.eqb_eq]. exists k. split_and!; [done|unfold size; lia|]. intros x Hx. f_equal. lia. }
  rewrite (proj2 (Z.leb_gt u a)) by done. assert (Hs4 : span 4 = 33554432) by done. pose proof (span_mono k 5 ltac:(lia)) as Hs5. rewrite span_5 in Hs5.
  destruct (raise_left_ok LEVELS k (root e) 0 a) as (k1 & l1 & c & E1 & Hk1 & Hc0 & Hc16 & Hcm & Hac & Hz & Hs & Hl1);
    [unfold LEVELS; lia|lia|lia|pose proof (span_pos k); lia|done|lia|unfold roomy in Hfit; lia|]. rewrite Z.add_0_r in Hz, Hs.
  rewrite <- Hlv in E1. rewrite E1. pose proof (span_mono k1 5 ltac:(lia)). rewrite span_5 in H0.
  assert (Hu31 : u + c <= 2147483648 /\ capacity e + c <= 2147483648 /\ 32 * ((u + c - 1) / 32) < span 5 /\ (u < capacity e -> c = 0)).
  { rewrite span_5. destruct Hfit as [[Ht0 Hu]|(Hr & Htn & Ht4 & Hu)].
    - destruct Hz as [_ ->]; [lia|]. split_and!; [lia|lia| |done]. rewrite tail_offset in Hts by lia. destruct (Z.eqb_spec (capacity e) 0); zdm.
    - pose proof (span_mono k 4 Hr). split_and!; [lia|lia|zdm|]. intros Huc. destruct Htn as [Ht0| ->]; [by destruct Hz; [lia|]|unfold u in Huc; cbn in Huc; lia]. }
  destruct Hu31 as (Hu31 & Hi31 & Hp5 & Hcz). set (p := getTailOffset (u + c)).
  assert (Hp : p = 32 * ((u + c - 1) / 32)) by (unfold p; rewrite tail_offset by lia; destruct (Z.eqb_spec (u + c) 0); zdm).
  destruct (raise_right_ok LEVELS k1 l1 p) as (k2 & l2 & -> & Hk2 & Hp2 & Hl2); [unfold LEVELS; lia|lia|lia|].
  assert (Hl : ∀ q, 0 <= q < getTailOffset (capacity e) -> look k2 l2 (q + c) = look k (root e) q).
  { intros q Hq. rewrite <- Hl1, Z.sub_0_r by lia. apply Hl2. destruct (Z.lt_ge_cases a 0) as [Hneg|Hpos]; [specialize (Hs Hneg); lia|].
    destruct (Hz Hpos) as [-> ->]. lia. }
  match goal with |- context [cut ?l ?h _ _ _ _ _ ?f _] =>
    destruct (cut_ok k2 l h (a + c) (origin e + c) (u + c) (capacity e + c) f p (λ x, slot_at k e (x - c))) as (k' & Hc' & Hsz & Hx') end;
    [lia|lia|lia|exact Hp|exact Hp2| | |].
  - rewrite Hp. apply (grown_tree k e k2 l2 c (a + c) (u + c)); try done; lia.
  - intros x Hx Hpx. assert (Hf : getTailOffset (capacity e + c) = getTailOffset (capacity e) + c /\ getTailOffset (capacity e + c) = 32 * ((capacity e + c - 1) / 32)).
    { rewrite !tail_offset by lia. destruct (Z.eqb_spec (capacity e) 0), (Z.eqb_spec (capacity e + c) 0); zdm. }
    destruct Hf as [Hf Hf32]. unfold slot_at. destruct (Z.ltb_spec p (getTailOffset (capacity e + c))) as [Hpf|Hpf].
    + assert (c = 0) by (apply Hcz; zdm). subst c. rewrite !Z.add_0_r, Z.sub_0_r in *. unfold listNodeFor.
      rewrite (proj2 (Z.leb_gt _ (u - 1))), (proj2 (Z.leb_gt _ x)) by zdm. rewrite Hlv. replace (lv k + SHIFT) with (lv (S k)) by (unfold lv, SHIFT; lia). rewrite shl_lv by lia.
      rewrite (proj2 (Z.ltb_lt _ _)) by zdm. symmetry. apply descend_look; [unfold lv; lia|lia|lia|zdm].
    + rewrite (proj2 (Z.leb_le _ _)) by lia. destruct (Z.ltb_spec (getTailOffset (capacity e + c)) p); [zdm|]. f_equal. zdm.
  - exists k'. split_and!; [exact Hc'|rewrite Hsz; lia|]. intros x Hx. specialize (Hx' (x + c) ltac:(lia)). cbn beta in Hx'. rewrite Z.add_simpl_r in Hx'.
    rewrite <- Hx'. f_equal. lia.
Qed.

(** ** One position *)

Lemma core_tail k e x : core k e -> getTailOffset (capacity e) <= x < capacity e -> x / 32 = getTailOffset (capacity e) / 32.
Proof. intros (_ & _ & Ho & Hc & _) Hx. rewrite tail_offset in * by lia. destruct (Z.eqb_spec (capacity e) 0); [lia|]. zdm. Qed.

Lemma list_get_ok k e i (d : option V) : core k e ->
  get e i d = let i := wrapIndex e i in if (0 <=? i) && (i <? size e) then value_of (slot_at k e (origin e + i)) else d.
Proof.
  intros Hcore. pose proof Hcore as (Hlv & Hk & Ho & Hc & Ht). unfold get. cbn zeta. set (j := wrapIndex e i).
  destruct (Z.leb_spec 0 j); [|done]. destruct (Z.ltb_spec j (size e)); [|done]. cbn [andb]. unfold size in *. unfold slot_at, listNodeFor, MASK. rewrite band_31, (Z.add_comm j).
  destruct (Z.leb_spec (getTailOffset (capacity e)) (origin e + j)); [destruct (tail e); cbn [is_node array]; by rewrite ?item_nil|].
  rewrite Hlv. replace (lv k + SHIFT) with (lv (S k)) by (unfold lv, SHIFT; lia). rewrite shl_lv, (proj2 (Z.ltb_lt _ _)) by lia.
  rewrite (descend_look (Z.to_nat (lv k)) k (root e) (origin e + j)) by first [unfold lv; lia|lia|done]. cbn [digit].
  destruct (descend _ _ _ _); cbn [is_node array]; by rewrite ?item_nil.
Qed.

Lemma set_within_ok k e (t : Z) o : core k e -> 0 <= t < size e -> let e' := set_within e t o in
  core k e' /\ origin e' = origin e /\ capacity e' = capacity e /\
  ∀ x, origin e <= x < capacity e -> slot_at k e' x = if x =? origin e + t then of_value o else slot_at k e x.
Proof.
  intros Hcore Ht. pose proof Hcore as (Hlv & Hk & Ho & Hc & Hts). unfold set_within, size in *. rewrite (Z.add_comm t). set (p := origin e + t).
  destruct (Z.leb_spec (getTailOffset (capacity e)) p) as [Hp|Hp].
  - pose proof (update_kept 0 (tail e) 0 p o) as Hkept. pose proof (λ q, update_leaf 0 (tail e) p o q ltac:(lia)) as Hup.
    destruct (updateVNode 0 (tail e) 0 p o) as [r alt]. cbn [fst snd look digit span] in *.
    assert (Hs : ∀ x, origin e <= x < capacity e -> (if getTailOffset (capacity e) <=? x then item (array r) (x mod 32) else look k (root e) x) =
      if x =? p then of_value o else slot_at k e x).
    { intros x Hx. unfold slot_at. destruct (Z.leb_spec (getTailOffset (capacity e)) x); [|by rewrite (proj2 (Z.eqb_neq x p)) by lia].
      rewrite Hup; [done|]. by rewrite (core_tail k e x), (core_tail k e p) by (done || lia). }
    destruct alt; [done|]. rewrite Hkept in Hs by done. done.
  - rewrite Hlv. pose proof (update_kept (Z.to_nat (lv k)) (root e) (lv k) p o) as Hkept. pose proof (span_le k ltac:(lia)).
    pose proof (λ q, update_look (Z.to_nat (lv k)) k (root e) p o q ltac:(unfold lv; lia) ltac:(lia) ltac:(lia)) as Hup.
    destruct (updateVNode (Z.to_nat (lv k)) (root e) (lv k) p o) as [r alt]. cbn [fst snd] in *.
    assert (Hs : ∀ x, origin e <= x < capacity e -> (if getTailOffset (capacity e) <=? x then item (array (tail e)) (x mod 32) else look k r x) =
      if x =? p then of_value o else slot_at k e x).
    { intros x Hx. unfold slot_at. destruct (Z.leb_spec (getTailOffset (capacity e)) x); [by rewrite (proj2 (Z.eqb_neq x p)) by lia|].
      rewrite Hup; [done|]. by rewrite !Z.div_small by lia. }
    destruct alt; [done|]. rewrite Hkept in Hs by done. done.
Qed.

(** ** Lists with the elements that are known *)

(** [e] is a list as long as [l] with the elements that [l] gives. *)
Definition shows (k : nat) e (l : list (option V)) : Prop :=
  core k e /\ size e = len l /\ ∀ j v, l !! j = Some (Some v) -> slot_at k e (origin e + Z.of_nat j) = Elem v.

Lemma shows_set k e (l : list (option V)) (t : Z) v : shows k e l -> 0 <= t < len l -> shows k (set e t (Some v)) (<[Z.to_nat t := Some v]> l).
Proof.
  intros (Hc & Hs & Hl) Ht. assert (E : set e t (Some v) = set_within e t (Some v)).
  { unfold set. cbn [set_again]. unfold wrapIndex. rewrite (proj2 (Z.ltb_ge t 0)), (proj2 (Z.leb_gt _ _)) by lia. cbn [orb]. by rewrite (proj2 (Z.ltb_ge t 0)) by lia. }
  rewrite E. destruct (set_within_ok k e t (Some v) Hc ltac:(lia)) as (Hc' & Ho & Hcap & Hx). split; [done|]. unfold size in *. unfold len in *. rewrite length_insert, Ho, Hcap.
  split; [done|]. intros j w Hj. assert (Hjl : (j < length l)%nat) by (apply lookup_lt_Some in Hj; by rewrite length_insert in Hj).
  rewrite Hx by lia. destruct (Z.eqb_spec (origin e + Z.of_nat j) (origin e + t)).
  - replace (Z.to_nat t) with j in Hj by lia. rewrite list_lookup_insert_eq in Hj by done. by injection Hj as ->.
  - rewrite list_lookup_insert_ne in Hj by lia. by apply Hl.
Qed.

Lemma shows_set_all k e (l1 l2 l3 : list (option V)) (vs : list V) : shows k e (l1 ++ l2 ++ l3) -> length l2 = length vs ->
  shows k (set_all e (len l1) (Some <$> vs)) (l1 ++ (Some <$> vs) ++ l3).
Proof.
  revert e l1 l2. induction vs as [|v vs IH]; intros e l1 l2 He Hlen; [by destruct l2|]. destruct l2 as [|x l2]; [done|].
  cbn [set_all fmap list_fmap app]. apply (shows_set _ _ _ (len l1) v) in He; [|unfold len; rewrite length_app; cbn; lia].
  unfold len in He at 2. rewrite Nat2Z.id in He. rewrite insert_app_r_alt in He by done. rewrite Nat.sub_diag in He. cbn [insert list_insert app] in He.
  specialize (IH (set e (len l1) (Some v)) (l1 ++ [Some v]) l2). rewrite <- !(assoc_L (++)) in IH. cbn [app] in IH.
  replace (len l1 + 1) with (len (l1 ++ [Some v])) by (unfold len; rewrite length_app; cbn; lia). apply IH; [done|]. cbn in Hlen. lia.
Qed.

Lemma shows_bounds k e (l : list (option V)) (t : Z) (n : option Z) (l' : list (option V)) : shows k e l -> (origin e < capacity e -> array (tail e) <> []) ->
  let u := bound_end e n in let a := origin e + t in
  (0 <= t /\ u <= capacity e \/ roomy k /\ (0 <= t \/ n = None) /\ - span 4 <= t /\ u <= capacity e + span 4) ->
  is_int32 t -> match n with None => True | Some n => is_int32 n end ->
  len l' = u - a -> l' <> [] -> (∀ j v, l' !! j = Some (Some v) -> 0 <= Z.of_nat j + t /\ l !! Z.to_nat (Z.of_nat j + t) = Some (Some v)) ->
  ∃ k', shows k' (setListBounds e t n) l'.
Proof.
  intros (Hc & Hs & Hl) Hne u a Hfit Ht Hn Hlen Hl'0 Hl'. assert (Hpos : 0 < len l') by (unfold len; destruct l'; [done|cbn; lia]).
  destruct (bounds_ok k e t n Hc Hne ltac:(lia) Hfit Ht Hn) as (k' & Hc' & Hsz & Hx). exists k'. split_and!; [done|lia|].
  intros j v Hj. pose proof (lookup_lt_Some _ _ _ Hj). destruct (Hl' j v Hj) as [Hp Hj']. pose proof (lookup_lt_Some _ _ _ Hj').
  rewrite <- (Hl _ _ Hj'), <- Hx.
  - f_equal. unfold a. lia.
  - unfold a, size, len in *. fold u a in Hsz. lia.
Qed.

(** ** Operations *)

(** [e] is the list [l]. *)
Definition rep e (l : list V) : Prop := (∃ k, shows k e (Some <$> l)) /\ (l = [] -> e = emptyList).

Lemma len_fmap {A B} (f : A -> B) (l : list A) : len (f <$> l) = len l.
Proof. unfold len. by rewrite length_fmap. Qed.
Lemma shows_tail k e (l : list V) : shows k e (Some <$> l) -> origin e < capacity e -> array (tail e) <> [].
Proof.
  intros (Hc & Hs & Hl) Hlt Ha. pose proof Hc as (_ & _ & Ho & Hc31 & _). rewrite len_fmap in Hs. unfold size, len in Hs.
  destruct (lookup_lt_is_Some_2 l (length l - 1)) as [v Hv]; [lia|].
  assert (E := Hl (length l - 1)%nat v). rewrite list_lookup_fmap, Hv in E. specialize (E eq_refl). unfold slot_at in E.
  rewrite (proj2 (Z.leb_le _ _)) in E; [by rewrite Ha, item_nil in E|]. rewrite tail_offset by lia. destruct (Z.eqb_spec (capacity e) 0); [lia|]. zdm.
Qed.
Lemma rep_empty : rep emptyList [].
Proof.
  split; [|done]. exists 1%nat. split_and!; [|done|done]. unfold core. cbn. split_and!; try lia; done.
Qed.
Lemma clear_rep e (l : list V) : rep e l -> clear e = emptyList.
Proof.
  intros [[k (_ & Hs & _)] He]. unfold clear. rewrite Hs, len_fmap. destruct (Z.eqb_spec (len l) 0) as [E|]; [|done].
  apply He. by apply length_zero_iff_nil, Nat2Z.inj.
Qed.
Lemma rep_size e (l : list V) : rep e l -> size e = len l.
Proof. intros [[k (_ & Hs & _)] _]. by rewrite len_fmap in Hs. Qed.

(** A part of the list. *)
Lemma rep_window e (l : list V) (b z : Z) (n : option Z) : rep e l -> 0 <= b -> z <= len l -> bound_end e n = origin e + z ->
  is_int32 b -> match n with None => True | Some n => is_int32 n end ->
  rep (setListBounds e b n) (take (Z.to_nat (z - b)) (drop (Z.to_nat b) l)).
Proof.
  intros Hr Hb Hz Hu Hbi Hni. pose proof (rep_size _ _ Hr) as Hsz. pose proof Hr as [[k Hs] He].
  set (l' := take _ _). assert (Hlen : length l' = Z.to_nat (Z.min (z - b) (len l - b))) by (unfold l', len; rewrite length_take, length_drop; lia).
  destruct (Z.le_gt_cases z b) as [Hzb|Hzb].
  - assert (l' = []) as -> by (unfold l'; by replace (Z.to_nat (z - b)) with O by lia).
    assert (setListBounds e b n = emptyList) as ->; [|apply rep_empty].
    unfold setListBounds. rewrite bor_0_r by done. replace ((λ n : Z, n .| 0) <$> n) with n by (destruct n; cbn; [by rewrite bor_0_r|done]).
    fold (bound_end e n). rewrite Hu. unfold size in Hsz. destruct (_ && _) eqn:E.
    + apply andb_true_iff in E as [E1%Z.eqb_eq E2%Z.eqb_eq]. apply He. apply length_zero_iff_nil. unfold len in *. lia.
    + rewrite (proj2 (Z.leb_le _ _)) by lia. by apply (clear_rep e l).
  - unfold size in Hsz. assert (Hpos : (0 < length l')%nat) by lia. destruct (shows_bounds k e (Some <$> l) b n (Some <$> l') Hs (shows_tail _ _ _ Hs)) as (k' & Hk'); try done.
    + left. lia.
    + rewrite len_fmap. unfold len in *. lia.
    + intros E%fmap_nil_inv. rewrite E in Hpos. cbn in Hpos. lia.
    + intros j v Hj. split; [lia|]. rewrite list_lookup_fmap in *. unfold l' in Hj. destruct (decide (j < Z.to_nat (z - b))%nat); [|by rewrite lookup_take_ge in Hj by lia].
      rewrite lookup_take_lt, lookup_drop in Hj by done. by replace (Z.to_nat (Z.of_nat j + b)) with (Z.to_nat b + j)%nat by lia.
    + split; [by exists k'|]. intros E. rewrite E in Hpos. cbn in Hpos. lia.
Qed.

(** Lists that can grow. *)
Definition has_room e : bool := level e <=? 20.
Lemma has_room_ok k e : core k e -> has_room e = true -> roomy k.
Proof. intros (Hlv & _) Hr%Z.leb_le. rewrite Hlv in Hr. unfold roomy, lv in *. lia. Qed.
Definition MAX_GROWTH : Z := 33554432.


Lemma rep_small k e (l : list V) : shows k e (Some <$> l) -> 0 <= len l <= 1073741856 /\ (roomy k -> len l <= 33554464).
Proof.
  intros (Hc & Hs & _). pose proof (core_bound _ _ Hc) as Hb. destruct Hc as (_ & Hk & Ho & _). pose proof (span_le k ltac:(lia)). rewrite len_fmap in Hs. unfold size in Hs.
  split; [lia|]. intros Hr%span_mono. change (span 4) with 33554432 in Hr. lia.
Qed.
Lemma bounds_same e (n : option Z) : bound_end e n = capacity e -> match n with None => True | Some n => is_int32 n end -> setListBounds e 0 n = e.
Proof.
  intros Hu Hn. unfold setListBounds. rewrite (bor_0_r 0) by lia. replace ((λ n : Z, n .| 0) <$> n) with n by (destruct n; cbn; [by rewrite bor_0_r|done]).
  fold (bound_end e n). rewrite Hu, Z.add_0_r, !Z.eqb_refl. done.
Qed.
Lemma lookup_unknown m j (v : V) : replicate m None !! j = Some (Some v) -> False.
Proof. by intros [? _]%lookup_replicate_1. Qed.

Lemma push_rep e (l vs : list V) : rep e l -> has_room e = true -> len vs <= MAX_GROWTH -> rep (push e (Some <$> vs)) (l ++ vs).
Proof.
  intros Hr Hroom Hm. pose proof (rep_size _ _ Hr) as Hsz. pose proof Hr as [[k Hs] He]. unfold push. rewrite len_fmap, Hsz.
  pose proof (has_room_ok k e (proj1 Hs) Hroom) as Hk. destruct (rep_small k e l Hs) as [_ Hl]. specialize (Hl Hk). unfold MAX_GROWTH, size in *.
  assert (0 <= len vs) by (unfold len; lia). assert (0 <= len l) by (unfold len; lia).
  assert (Hu : bound_end e (Some (len l + len vs)) = origin e + (len l + len vs)) by (cbn [bound_end]; by rewrite (proj2 (Z.ltb_ge _ _)) by lia).
  destruct (decide (vs = [])) as [->|Hvs].
  { rewrite app_nil_r. cbn [fmap list_fmap set_all]. rewrite bounds_same; [done| |lia]. rewrite Hu. change (len []) with 0. lia. }
  destruct (shows_bounds k e (Some <$> l) 0 (Some (len l + len vs)) ((Some <$> l) ++ replicate (length vs) None) Hs (shows_tail _ _ _ Hs)) as (k' & Hk'); try lia.
  - right. change (span 4) with 33554432. split_and!; [done|by left|lia|lia].
  - rewrite Hu. unfold len. rewrite length_app, length_fmap, length_replicate. lia.
  - intros [_ E]%app_nil. by destruct vs.
  - intros j v. rewrite Z.add_0_r, Nat2Z.id. rewrite lookup_app. destruct ((Some <$> l) !! j) as [x|] eqn:E; [intros [= ->]; split; [lia|done]|]. by intros ?%lookup_unknown.
  - rewrite <- (app_nil_r (_ ++ _)), <- (assoc_L (++)) in Hk'. apply (shows_set_all k' _ _ _ _ vs) in Hk'; [|by rewrite length_replicate].
    rewrite len_fmap, app_nil_r, <- fmap_app in Hk'. split; [by exists k'|]. by intros [_ ?]%app_nil.
Qed.

Lemma unshift_rep e (l vs : list V) : rep e l -> has_room e = true -> len vs <= MAX_GROWTH -> rep (unshift e (Some <$> vs)) (vs ++ l).
Proof.
  intros Hr Hroom Hm. pose proof (rep_size _ _ Hr) as Hsz. pose proof Hr as [[k Hs] He]. unfold unshift. rewrite len_fmap.
  pose proof (has_room_ok k e (proj1 Hs) Hroom) as Hk. unfold MAX_GROWTH, size in *. assert (0 <= len vs) by (unfold len; lia).
  destruct (decide (vs = [])) as [->|Hvs]; [cbn [fmap list_fmap set_all app]; change (- len []) with 0; by rewrite bounds_same|].
  destruct (shows_bounds k e (Some <$> l) (- len vs) None (replicate (length vs) None ++ (Some <$> l)) Hs (shows_tail _ _ _ Hs)) as (k' & Hk'); try lia.
  - right. change (span 4) with 33554432. cbn [bound_end]. split_and!; [done|by right|lia|lia].
  - cbn [bound_end]. unfold len in *. rewrite length_app, length_fmap, length_replicate. lia.
  - intros [E _]%app_nil. by destruct vs.
  - intros j v. rewrite lookup_app. destruct (replicate (length vs) None !! j) as [x|] eqn:E; [intros [= ->]; by apply lookup_unknown in E|].
    apply lookup_replicate_None in E. rewrite length_replicate. intros Hj. unfold len. split; [lia|]. rewrite <- Hj. f_equal. lia.
  - rewrite <- (app_nil_l (_ ++ _)) in Hk'. apply (shows_set_all k' _ _ _ _ vs) in Hk'; [|by rewrite length_replicate].
    cbn [app] in Hk'. rewrite <- fmap_app in Hk'. split; [by exists k'|]. by intros [? _]%app_nil.
Qed.

Lemma set_again_in fuel e (i : Z) (o : option V) : 0 <= i < size e -> set_again fuel e i o = set_within e i o.
Proof.
  intros Hi. destruct fuel; cbn [set_again]; unfold wrapIndex; rewrite (proj2 (Z.ltb_ge i 0)), (proj2 (Z.leb_gt _ _)) by lia; cbn [orb]; by rewrite (proj2 (Z.ltb_ge i 0)) by lia.
Qed.

(** Setting an element, or one just outside of the list. *)
Lemma set_rep e (l : list V) (i : Z) v : rep e l -> 0 <= i < len l -> rep (set e i (Some v)) (<[Z.to_nat i := v]> l).
Proof.
  intros [[k Hs] He] Hi. split.
  - exists k. rewrite list_fmap_insert. apply shows_set; [done|]. by rewrite len_fmap.
  - intros E%(f_equal length). rewrite length_insert in E. unfold len in Hi. cbn in E. lia.
Qed.
Lemma set_push e (l : list V) v : rep e l -> has_room e = true -> set e (len l) (Some v) = push e [Some v].
Proof.
  intros Hr Hroom. pose proof (rep_size _ _ Hr) as Hsz. pose proof Hr as [[k Hs] _]. assert (0 <= len l) by (unfold len; lia).
  assert (E1 : set e (len l) (Some v) = set_again 0 (setListBounds e 0 (Some (len l + 1))) (len l) (Some v)).
  { unfold set. cbn [set_again]. unfold wrapIndex. rewrite !(proj2 (Z.ltb_ge (len l) 0)) by lia. by rewrite Hsz, Z.leb_refl. }
  assert (Hs1 : size (setListBounds e 0 (Some (len l + 1))) = len l + 1).
  { destruct (rep_small k e l Hs) as [Hl _]. assert (Hu : bound_end e (Some (len l + 1)) = origin e + (len l + 1)) by (cbn [bound_end]; by rewrite (proj2 (Z.ltb_ge _ _)) by lia).
    destruct (bounds_ok k e 0 (Some (len l + 1)) (proj1 Hs) (shows_tail _ _ _ Hs)) as (k' & _ & E & _); try lia.
    right. change (span 4) with 33554432. unfold size in Hsz. pose proof (has_room_ok k e (proj1 Hs) Hroom). split_and!; [done|by left|lia|lia]. }
  rewrite E1. unfold push. rewrite Hsz. cbn [set_all]. change (len [Some v]) with 1. unfold set. by rewrite !set_again_in by lia.
Qed.
Lemma set_unshift e (l : list V) v : rep e l -> has_room e = true -> set e (- len l - 1) (Some v) = unshift e [Some v].
Proof.
  intros Hr Hroom. pose proof (rep_size _ _ Hr) as Hsz. pose proof Hr as [[k Hs] _]. assert (0 <= len l) by (unfold len; lia).
  assert (E1 : set e (- len l - 1) (Some v) = set_again 0 (setListBounds e (-1) None) 0 (Some v)).
  { unfold set. cbn [set_again]. unfold wrapIndex. rewrite (proj2 (Z.ltb_lt (- len l - 1) 0)), Hsz by lia. replace (len l + (- len l - 1)) with (-1) by lia. by rewrite orb_true_r. }
  assert (Hs1 : size (setListBounds e (-1) None) = len l + 1).
  { destruct (bounds_ok k e (-1) None (proj1 Hs) (shows_tail _ _ _ Hs)) as (k' & _ & E & _); try lia; cbn [bound_end] in *; unfold size in Hsz; try lia.
    right. change (span 4) with 33554432. pose proof (has_room_ok k e (proj1 Hs) Hroom). split_and!; [done|by right|lia|lia]. }
  rewrite E1. unfold unshift. cbn [set_all]. change (- len [Some v]) with (-1). unfold set. by rewrite !set_again_in by lia.
Qed.

Lemma of_array_rep (vs : list V) : len vs <= MAX_GROWTH -> rep (of_array (Some <$> vs)) vs.
Proof.
  intros Hm. unfold of_array. rewrite len_fmap. destruct (Z.eqb_spec (len vs) 0) as [E|E].
  { assert (vs = []) as -> by (by apply length_zero_iff_nil, Nat2Z.inj). apply rep_empty. }
  assert (0 <= len vs) by (unfold len; lia). rewrite (proj2 (Z.ltb_lt 0 _)) by lia. unfold SIZE. cbn [andb]. destruct (Z.ltb_spec (len vs) 32).
  - split; [|by intros ->]. exists 1%nat. assert (Ht : getTailOffset (len vs) = 0) by (unfold getTailOffset, SIZE; by rewrite (proj2 (Z.ltb_lt _ _)) by lia).
    split_and!; [unfold core; cbn [level origin capacity]; rewrite Ht; split_and!; try done; lia|unfold size; cbn [origin capacity]; rewrite len_fmap; lia|].
    intros j v Hj. pose proof (lookup_lt_Some _ _ _ Hj) as Hl. rewrite length_fmap in Hl. unfold slot_at, len in *. cbn [capacity origin tail array]. rewrite Ht.
    rewrite (proj2 (Z.leb_le _ _)), Z.add_0_l, Z.mod_small, item_lookup, Nat2Z.id, list_lookup_fmap, Hj by lia. done.
  - change (set_all (setSize emptyList (len vs)) 0 (Some <$> vs)) with (set_all (setListBounds emptyList 0 (Some (size (@emptyList V) + len vs))) (size (@emptyList V)) (Some <$> vs)).
    rewrite <- (len_fmap Some vs). apply (push_rep emptyList [] vs); [apply rep_empty|done|done].
Qed.

Lemma get_rep e (l : list V) i d : rep e l -> get e i d = let i := if i <? 0 then len l + i else i in if (0 <=? i) && (i <? len l) then arr_get l i else d.
Proof.
  intros Hr. pose proof (rep_size _ _ Hr) as Hsz. destruct Hr as [[k (Hc & Hs & Hl)] _]. rewrite (list_get_ok k) by done. cbn zeta. unfold wrapIndex. rewrite Hsz.
  set (j := if i <? 0 then len l + i else i). destruct (Z.leb_spec 0 j) as [H0|]; [|done]. destruct (Z.ltb_spec j (len l)); [|done]. cbn [andb].
  unfold arr_get. rewrite (proj2 (Z.leb_le 0 j)) by done. destruct (lookup_lt_is_Some_2 l (Z.to_nat j)) as [v Hv]; [unfold len in *; lia|]. rewrite Hv.
  assert (Hj := Hl (Z.to_nat j) v). rewrite list_lookup_fmap, Hv, Z2Nat.id in Hj by done. by rewrite Hj.
Qed.

(** ** Iteration *)

Definition direct {A} (t : bool) (l : list A) : list A := if t then reverse l else l.

Lemma direct_fmap {A B} t (f : A -> B) (l : list A) : f <$> direct t l = direct t (f <$> l).
Proof. destruct t; cbn; [by rewrite fmap_reverse|done]. Qed.
Lemma direct_concat {A} t (l : list (list A)) : concat (direct t (direct t <$> l)) = direct t (concat l).
Proof.
  destruct t; cbn; [|by rewrite list_fmap_id]. induction l as [|x l IH]; [done|]. cbn [fmap list_fmap concat]. rewrite reverse_cons, reverse_app, concat_app, IH. cbn. by rewrite app_nil_r.
Qed.
Lemma concat_directs {A B C} t (f : B -> C) (g : A -> list B) (r : list A) :
  concat ((λ i, direct t (f <$> g i)) <$> direct t r) = direct t (f <$> concat (g <$> r)).
Proof.
  rewrite direct_fmap. transitivity (concat (direct t (direct t <$> ((λ i, f <$> g i) <$> r)))); [by rewrite <- list_fmap_compose|].
  rewrite direct_concat. f_equal. induction r as [|x r IH]; [done|]. cbn. by rewrite fmap_app, IH.
Qed.
Lemma mapM_all {A B} (f : A -> option B) (g : A -> B) (l : list A) : (∀ x, x ∈ l -> f x = Some (g x)) -> mapM f l = Some (g <$> l).
Proof.
  induction l as [|x l IH]; intros Hf; [done|]. cbn. rewrite Hf by left. cbn. rewrite IH; [done|]. intros y Hy. apply Hf. by right.
Qed.
Lemma elem_direct {A} t (l : list A) x : x ∈ direct t l -> x ∈ l.
Proof. destruct t; cbn; [by rewrite elem_of_reverse|done]. Qed.

(** The positions of [o, c) from [b] to [z]. *)
Definition positions (o c b z : Z) : list Z := seqZ (Z.max b o) (Z.min z c - Z.max b o).
Lemma positions_split o c b m z : b <= m <= z -> o < m -> m <= c -> positions o c b z = positions o c b m ++ positions o c m z.
Proof.
  intros. unfold positions. replace (Z.max m o) with (Z.max b o + (Z.min m c - Z.max b o)) by lia. rewrite <- seqZ_app by lia. f_equal. lia.
Qed.
Lemma positions_blocks o c s w i m : 0 < w -> 0 <= i -> o < s + (i + 1) * w -> (m = O \/ s + (i + Z.of_nat m - 1) * w <= c) -> (m = O -> c <= s + i * w) ->
  concat ((λ j, positions o c (s + j * w) (s + (j + 1) * w)) <$> seqZ i (Z.of_nat m)) = positions o c (s + i * w) (s + (i + Z.of_nat m) * w).
Proof.
  intros Hw Hi Ho Hm Hm0. revert i Hi Ho Hm Hm0. induction m as [|m IH]; intros i Hi Ho Hm Hm0.
  - rewrite (seqZ_nil i (Z.of_nat 0)) by lia. cbn [Z.of_nat fmap list_fmap concat]. unfold positions. rewrite Z.add_0_r, seqZ_nil; [done|]. specialize (Hm0 eq_refl). lia.
  - rewrite seqZ_cons by lia. replace (Z.pred (Z.of_nat (S m))) with (Z.of_nat m) by lia. cbn [fmap list_fmap concat].
    destruct m as [|m]; [cbn [Z.of_nat seqZ]; rewrite seqZ_nil by lia; cbn; by rewrite app_nil_r|].
    rewrite IH; [|lia|nia|right; nia|lia]. rewrite <- (Z.add_1_r i). replace (i + 1 + Z.of_nat (S m)) with (i + Z.of_nat (S (S m))) by lia.
    symmetry. apply positions_split; nia.
Qed.

Lemma counted_ok t s z : s <= z -> counted t s z = Some (direct t (seqZ s (z - s))).
Proof. intros Hs. unfold counted. by rewrite (proj2 (Z.leb_le _ _)). Qed.

(** What is collected below a node: the elements in its block. *)
Abbreviation collected K e t s z := (Some (direct t ((λ x, value_of (slot_at K e x)) <$> positions (origin e) (capacity e) s z))).

Lemma collect_leaf K e t fuel n (s : Z) : core K e -> 0 <= s <= capacity e -> s mod 32 = 0 -> origin e < s + 32 ->
  (∀ x, s <= x < s + 32 -> x < getTailOffset (capacity e) -> look 0 n x = look K (root e) x) ->
  collect fuel e t n 0 s = collected K e t s (s + 32).
Proof.
  intros Hc Hs Hm Ho Hl. pose proof Hc as (_ & _ & Hoc & Hc31 & _). assert (Hto := tail_offset (capacity e) ltac:(lia)).
  assert (E : collect fuel e t n 0 s = collect 0 e t n 0 s) by (by destruct fuel). rewrite E. cbn [collect]. change (0 =? 0) with true. cbn iota. unfold SIZE.
  set (b := if origin e <? s then 0 else origin e - s). assert (Hb : b = Z.max s (origin e) - s) by (unfold b; destruct (Z.ltb_spec (origin e) s); lia).
  rewrite counted_ok by lia. cbn. f_equal. change (map ?f ?l) with (f <$> l). rewrite direct_fmap. f_equal. unfold positions.
  replace (Z.max s (origin e)) with (s + b) by lia. replace (Z.min (s + 32) (capacity e) - (s + b)) with (Z.min 32 (capacity e - s) - b) by lia.
  rewrite <- (fmap_add_seqZ s), <- list_fmap_compose. apply list_fmap_ext. intros j x Hj. apply lookup_seqZ in Hj as [-> Hj]. cbn. f_equal. unfold slot_at.
  destruct (Z.leb_spec (getTailOffset (capacity e)) (s + (b + Z.of_nat j))) as [Ht|Ht].
  - assert (s = getTailOffset (capacity e)) as Es by (rewrite Hto in *; destruct (Z.eqb_spec (capacity e) 0); zdm).
    rewrite (proj2 (Z.eqb_eq _ _) Es). f_equal. zdm.
  - rewrite (proj2 (Z.eqb_neq s _)) by lia. rewrite <- Hl by lia. cbn [look digit]. f_equal. zdm.
Qed.

Lemma collect_ok K e t fuel k n (s : Z) : core K e -> (k <= fuel)%nat -> (k <= 5)%nat -> 0 <= s <= capacity e -> s mod span k = 0 -> origin e < s + span k ->
  (∀ x, s <= x < s + span k -> x < getTailOffset (capacity e) -> look k n x = look K (root e) x) ->
  collect fuel e t n (lv k) s = collected K e t s (s + span k).
Proof.
  intros Hc. pose proof Hc as (_ & HK & Hoc & Hc31 & _). assert (Hcb := core_bound _ _ Hc). pose proof (span_le K ltac:(lia)).
  revert k n s. induction fuel as [|fuel IH]; intros k n s Hf Hk Hs Hm Ho Hl.
  - replace k with O in * by lia. by apply collect_leaf.
  - destruct k as [|k]; [by apply collect_leaf|]. cbn [collect]. rewrite lv_S. replace (lv (S k) =? 0) with false by (symmetry; apply Z.eqb_neq; unfold lv; lia).
    cbn [span] in Hm, Ho, Hl |- *. pose proof (span_pos k) as Hw. set (w := span k) in *.
    assert (Hsar : ∀ x, 0 <= x <= capacity e -> (x .>> lv (S k)) = x / w).
    { intros x Hx. rewrite sar_div by (unfold lv; lia). unfold w. rewrite span_pow. do 2 f_equal. unfold lv. lia. }
    set (b := if origin e <? s then 0 else (origin e - s .>> lv (S k))). assert (Hb : b = (Z.max s (origin e) - s) / w).
    { unfold b. destruct (Z.ltb_spec (origin e) s); [rewrite Z.max_l, Z.sub_diag, Z.div_0_l by lia; done|]. rewrite Hsar by lia. do 2 f_equal. lia. }
    rewrite Hsar by lia. unfold SIZE. set (z := Z.min 32 (1 + (capacity e - s) / w)).
    pose proof (span_le (S k) Hk) as H30. cbn [span] in H30. fold w in H30.
    assert (Hbw : b * w <= Z.max s (origin e) - s < (b + 1) * w) by (rewrite Hb; pose proof (Z.mul_div_le (Z.max s (origin e) - s) w); pose proof (Z.mul_succ_div_gt (Z.max s (origin e) - s) w); lia).
    assert (Hzw : (capacity e - s) / w * w <= capacity e - s < ((capacity e - s) / w + 1) * w) by (pose proof (Z.mul_div_le (capacity e - s) w); pose proof (Z.mul_succ_div_gt (capacity e - s) w); lia).
    assert (Hb0 : 0 <= b) by (rewrite Hb; apply Z.div_pos; lia). assert (Hz32 : z <= 32) by lia.
    assert (Hb1 : b <= (capacity e - s) / w) by (rewrite Hb; apply Z.div_le_mono; lia).
    assert (Hbz : b < z) by (assert (b < 32) by (rewrite Hb; apply Z.div_lt_upper_bound; lia); lia).
    rewrite counted_ok by lia. cbn [mbind option_bind].
    assert (Hs32 : s = 32 * w * (s / (32 * w))) by (pose proof (Z.div_mod s (32 * w)); lia).
    rewrite (mapM_all _ (λ i, direct t ((λ x, value_of (slot_at K e x)) <$> positions (origin e) (capacity e) (s + i * w) (s + (i + 1) * w)))).
    + cbn. f_equal. rewrite concat_directs. do 2 f_equal.
      rewrite <- (Z2Nat.id (z - b)) by lia.
      rewrite positions_blocks; rewrite ?Z2Nat.id by lia; [|lia|lia|lia| |lia].
      2: { right. assert ((b + (z - b) - 1) * w <= (capacity e - s) / w * w) by (apply Z.mul_le_mono_nonneg_r; lia). lia. }
      replace (b + (z - b)) with z by lia. assert (0 <= b * w) by lia. assert (32 * w = z * w \/ capacity e - s < z * w /\ z * w <= 32 * w).
      { destruct (Z.min_spec 32 (1 + (capacity e - s) / w)) as [[_ E]|[E1 E2]]; fold z in E || fold z in E2; [left; by rewrite E|right]. rewrite E2. split; [lia|].
        apply Z.mul_le_mono_nonneg_r; lia. }
      unfold positions. f_equal; lia.
    + intros i Hi%elem_direct%elem_of_seqZ. assert (Hi1 : b * w <= i * w) by (apply Z.mul_le_mono_nonneg_r; lia).
      assert (Hi2 : i * w <= (capacity e - s) / w * w) by (apply Z.mul_le_mono_nonneg_r; lia). assert (Hi3 : i * w <= 31 * w) by (apply Z.mul_le_mono_nonneg_r; lia).
      assert (0 <= b * w) by (apply Z.mul_nonneg_nonneg; lia). assert (Hiw : (i .<< lv (S k)) = i * w).
      { unfold w. rewrite span_pow. replace (lv k + 5) with (lv (S k)) by (unfold lv; lia). apply shl_small; [unfold lv; lia|].
        replace (lv (S k)) with (lv k + 5) by (unfold lv; lia). rewrite <- span_pow. fold w. assert (0 <= i * w) by (apply Z.mul_nonneg_nonneg; lia). lia. }
      rewrite Hiw. replace (s + (i + 1) * w) with (s + i * w + w) by lia. apply IH; fold w; try lia.
      * rewrite Hs32. replace (32 * w * _ + i * w) with ((32 * (s / (32 * w)) + i) * w) by lia. apply Z_mod_mult.
      * intros x Hx Hxt. rewrite <- Hl by lia. cbn [look digit]. fold w. f_equal. f_equal.
        assert (x / w = 32 * (s / (32 * w)) + i) as -> by (symmetry; apply (Z.div_unique _ _ _ (x - (s + i * w))); lia). zdm.
Qed.

Lemma iterate_rep e (l : list V) t : rep e l -> iterate e t = Some (Some <$> direct t l).
Proof.
  intros Hr. pose proof (rep_size _ _ Hr) as Hsz. destruct Hr as [[k (Hc & _ & Hl)] He]. pose proof Hc as (Hlv & Hk & Ho & Hc31 & Ht). unfold iterate. rewrite Hlv.
  assert (Hcs : capacity e <= span k).
  { rewrite tail_offset in Ht by lia. destruct (span_32 k) as (y & Hy & _). destruct (Z.eqb_spec (capacity e) 0); [lia|]. zdm. }
  assert (Hos : origin e < span k).
  { unfold size in Hsz. destruct l as [|x l]; [rewrite He by done; pose proof (span_pos k); cbn; lia|unfold len in Hsz; cbn in Hsz; lia]. }
  rewrite (collect_ok k); try done; try lia; [|unfold lv; lia]. rewrite Z.add_0_l, (direct_fmap t Some). do 2 f_equal.
  unfold positions. rewrite Z.max_r, Z.min_r by lia. fold (size e). rewrite Hsz. apply list_eq. intros j. rewrite !list_lookup_fmap.
  destruct (l !! j) as [v|] eqn:Ej.
  - rewrite lookup_seqZ_lt by (apply lookup_lt_Some in Ej; unfold len; lia). cbn. rewrite (Hl j v); [done|]. by rewrite list_lookup_fmap, Ej.
  - rewrite lookup_seqZ_ge; [done|]. apply lookup_ge_None in Ej. unfold len. lia.
Qed.

(** ** Histories *)

Inductive op :=
  | SetAt (i : Z) (v : V)
  | Push (vs : list V)
  | Pop
  | Unshift (vs : list V)
  | Shift
  | Slice (b : Z) (n : option Z)
  | Clear.

Definition apply_op e (o : op) : plist V :=
  match o with
  | SetAt i v => set e i (Some v)
  | Push vs => push e (Some <$> vs)
  | Pop => pop e
  | Unshift vs => unshift e (Some <$> vs)
  | Shift => shift e
  | Slice b n => slice e b n
  | Clear => clear e
  end.

(** What the operations are on lists. *)
Definition from_end (n i : Z) : Z := if i <? 0 then Z.max 0 (n + i) else Z.min n i.
Definition spec_op (l : list V) (o : op) : list V :=
  match o with
  | SetAt i v => let j := if i <? 0 then len l + i else i in
      if j <? 0 then v :: l else if j <? len l then <[Z.to_nat j := v]> l else l ++ [v]
  | Push vs => l ++ vs
  | Pop => take (length l - 1) l
  | Unshift vs => vs ++ l
  | Shift => drop 1 l
  | Slice b n => let b := from_end (len l) b in let z := from_option (from_end (len l)) (len l) n in
      take (Z.to_nat (z - b)) (drop (Z.to_nat b) l)
  | Clear => []
  end.

(** Growing needs room, by at most 2^25 elements at a time; [set] grows by one
    element, at either end. *)
Definition allowed e (o : op) : bool :=
  match o with
  | SetAt i _ => let j := wrapIndex e i in
      (0 <=? j) && (j <? size e) || has_room e && ((j =? size e) || (j =? -1))
  | Push vs | Unshift vs => has_room e && (len vs <=? MAX_GROWTH)
  | _ => true
  end.

Fixpoint run e (os : list op) : plist V := match os with [] => e | o :: os => run (apply_op e o) os end.
Fixpoint all_allowed e (os : list op) : bool := match os with [] => true | o :: os => allowed e o && all_allowed (apply_op e o) os end.

Lemma slice_rep e (l : list V) (b : Z) (n : option Z) : rep e l -> rep (slice e b n) (spec_op l (Slice b n)).
Proof.
  intros Hr. pose proof (rep_size _ _ Hr) as Hsz. cbn [spec_op]. unfold slice. rewrite Hsz. assert (0 <= len l) by (unfold len; lia).
  change (resolveIndex (Some b) (len l) 0) with (from_end (len l) b).
  replace (resolveIndex n (len l) (len l)) with (from_option (from_end (len l)) (len l) n) by (by destruct n).
  set (x := from_end (len l) b). set (z := from_option (from_end (len l)) (len l) n).
  assert (Hx : 0 <= x <= len l) by (unfold x, from_end; destruct (Z.ltb_spec b 0); lia).
  assert (Hz : 0 <= z <= len l) by (unfold z; destruct n as [n|]; cbn; [unfold from_end; destruct (Z.ltb_spec n 0); lia|lia]).
  destruct (wholeSlice b n (len l)) eqn:Ew.
  - apply andb_true_iff in Ew as [Eb En]. assert (x = 0) as ->.
    { apply orb_true_iff in Eb as [->%Z.eqb_eq | ?%Z.leb_le]; unfold x, from_end; [destruct (Z.ltb_spec 0 0)|destruct (Z.ltb_spec b 0)]; lia. }
    assert (z = len l) as -> by (unfold z; destruct n as [n|]; cbn; [apply Z.leb_le in En; unfold from_end; destruct (Z.ltb_spec n 0); lia|done]).
    rewrite Z.sub_0_r, drop_0. unfold len. rewrite Nat2Z.id, firstn_all. done.
  - destruct Hr as [[k Hs] He]. destruct (rep_small k e l Hs) as [Hl _]. apply rep_window; [by split; [exists k|]|lia|lia| |lia|lia].
    cbn [bound_end]. by rewrite (proj2 (Z.ltb_ge z 0)) by lia.
Qed.

Lemma op_rep e (l : list V) o : rep e l -> allowed e o = true -> rep (apply_op e o) (spec_op l o).
Proof.
  intros Hr Ha. pose proof (rep_size _ _ Hr) as Hsz. destruct o as [i v|vs| |vs| |b n|]; cbn [apply_op allowed] in *.
  - cbn [spec_op]. unfold wrapIndex in Ha. rewrite Hsz in Ha. assert (Hw : set e i (Some v) = set e (if i <? 0 then len l + i else i) (Some v) \/ (if i <? 0 then len l + i else i) < 0 /\ i < 0).
    { destruct (Z.ltb_spec i 0); [|by left]. destruct (Z.lt_ge_cases (len l + i) 0); [by right|left].
      assert (E : wrapIndex e (len l + i) = wrapIndex e i) by (unfold wrapIndex; by rewrite (proj2 (Z.ltb_ge (len l + i) 0)), (proj2 (Z.ltb_lt i 0)), Hsz by lia).
      unfold set. cbn [set_again]. by rewrite E. }
    set (j := if i <? 0 then len l + i else i) in *. apply orb_true_iff in Ha as [[H0%Z.leb_le Hlt%Z.ltb_lt]%andb_true_iff | [Hroom Hj]%andb_true_iff].
    + rewrite (proj2 (Z.ltb_ge j 0)), (proj2 (Z.ltb_lt j _)) by lia. destruct Hw as [-> |]; [|lia]. by apply set_rep.
    + assert (0 <= len l) by (unfold len; lia). apply orb_true_iff in Hj as [Hj%Z.eqb_eq | Hj%Z.eqb_eq].
      * rewrite (proj2 (Z.ltb_ge j 0)), (proj2 (Z.ltb_ge j (len l))) by lia. destruct Hw as [-> |]; [|lia]. rewrite Hj, (set_push e l) by done. by apply (push_rep e l [v]).
      * rewrite (proj2 (Z.ltb_lt j 0)) by lia. replace i with (- len l - 1) by (unfold j in Hj; destruct (Z.ltb_spec i 0); lia).
        rewrite (set_unshift e l) by done. by apply (unshift_rep e l [v]).
  - apply andb_true_iff in Ha as [Hroom ?%Z.leb_le]. by apply push_rep.
  - cbn [spec_op]. assert (Hw := rep_window e l 0 (len l - 1) (Some (-1)) Hr). cbn [drop] in Hw. rewrite Z.sub_0_r in Hw.
    replace (Z.to_nat (len l - 1)) with (length l - 1)%nat in Hw by (unfold len; lia). apply Hw; try lia. cbn. unfold size in Hsz. lia.
  - apply andb_true_iff in Ha as [Hroom ?%Z.leb_le]. by apply unshift_rep.
  - cbn [spec_op]. assert (Hw := rep_window e l 1 (len l) None Hr). rewrite (take_ge (drop _ l)) in Hw by (rewrite length_drop; unfold len; lia).
    apply Hw; try lia. cbn. unfold size in Hsz. lia.
  - by apply slice_rep.
  - rewrite (clear_rep e l Hr). apply rep_empty.
Qed.

Lemma run_rep e (l : list V) os : rep e l -> all_allowed e os = true -> rep (run e os) (foldl spec_op l os).
Proof.
  revert e l. induction os as [|o os IH]; intros e l Hr Ha; [done|]. cbn in *. apply andb_true_iff in Ha as [Ho Ha]. apply IH; [by apply op_rep|done].
Qed.

(** C3. The persistent list is a list: whatever it was made from and whatever was
    then set, pushed, popped, unshifted, shifted, sliced or cleared, its size is
    the length of the list that the same operations give, [get] reads the
    element of that list at an index (from the end for a negative one, the
    default outside), and iterating visits its elements once each, in order or
    backwards, and ends. This holds of the histories that [allowed] describes:
    the elements are defined values; [set] writes inside of the list or directly
    next to it, at either end (further out it can bring dropped elements back,
    see [set_stale] and [undefined_stale] below); and a list that grows is made
    from, or grows by, at most 2^25 elements at a time and has room for them. *)
Theorem list_refinement (vs : list V) os : len vs <= MAX_GROWTH -> all_allowed (of_array (Some <$> vs)) os = true ->
  let e := run (of_array (Some <$> vs)) os in let l := foldl spec_op vs os in
  size e = len l /\
  (∀ i d, get e i d = let i := if i <? 0 then len l + i else i in if (0 <=? i) && (i <? len l) then arr_get l i else d) /\
  (∀ t, iterate e t = Some (Some <$> direct t l)).
Proof.
  intros Hm Ha e l. assert (Hr : rep e l) by (by apply run_rep, Ha; apply of_array_rep).
  split_and!; [by apply rep_size|intros; by apply get_rep|intros; by apply iterate_rep].
Qed.

End list.

Lemma list_refinement_witness :
  let os := [Push (seqZ 70 40); Unshift [1; 2]; Slice 40 (Some (-3)); Pop; Shift; SetAt (-1) 7; SetAt 67 9; SetAt 0 5] in
  let e := run (of_array (Some <$> seqZ 0 70)) os in
  iterate e false = Some (Some <$> 5 :: seqZ 40 65 ++ [7; 9]).
Proof.
  intros os e. destruct (list_refinement (seqZ 0 70) os) as (_ & _ & Hi); [vm_compute; done|vm_compute; reflexivity|].
  exact (Hi false).
Defined.

(** *** Positions outside of the list *)

(** A cut leaves elements in the tree when its position is the level of a node
    ([removeBefore]) or the first position of the second child ([removeAfter]),
    and an empty tail does not replace the block it was taken from. They come
    back when the list grows over them. *)
Example setSize_stale :
  let e := setSize (setSize (of_array (upto 100)) 40) 100 in get e 50 None = None /\ get e 70 None = Some 70.
Proof. vm_compute. done. Qed.
Example set_stale :
  let e := slice (of_array (upto 100)) 5 None in get (set e (-97) (Some 7)) 1 None = Some 4.
Proof. vm_compute. done. Qed.
Example undefined_stale :
  let e := foldl (λ e i, set e i None) (pop (of_array (upto 65))) (reverse (seqZ 32 32)) in
  get e 40 None = None /\ get (push e [Some 7]) 40 None = Some 40.
Proof. vm_compute. done. Qed.

End ImmListOk.
