(* ===== verification/ImmOrdered.v ===== *)
(** The ordered map of Immutable.js as bundled
    (client/docs/swagger-ui/swagger-ui-bundle.js, lines 1321-1360 and
    1717-1744): a persistent map (ImmMap) from the keys to positions of a
    persistent list (ImmList) of entries, which gives the order. The position of
    a removed entry stays empty until half of the list is.

    An entry is a new array whenever it is stored, so no two of them are the same
    for [===]. Mutable copies are as in ImmList. *)

From stdpp Require Import base list list_numbers numbers strings gmap.
From Stdlib Require Import ZArith Lia.
From S2P Require Import Prelude ImmHash ImmMap ImmMapOk ImmList ImmListOk.

Module ImmOrdered.
Import ImmHash (key, KStr, KNum).

#[global, refine] Instance StrictEq_entry {V} : StrictEq (key * V) := {| same := λ _ _, false |}.
Proof. done. Defined.
#[global, refine] Instance StrictEq_index : StrictEq Z := {| same := Z.eqb |}.
Proof. intros a b. apply Z.eqb_eq. Defined.

Section ordered.
Context {V : Type} `{StrictEq V}.

Record orderedMap := OrderedMap { _map : @ImmMap.pmap Z; _list : ImmList.plist (key * V) }.

Definition size (e : orderedMap) : Z := ImmMap.size (_map e).
Definition emptyOrderedMap : orderedMap := OrderedMap ImmMap.emptyMap ImmList.emptyList.

(** [this._list.get(n)[1]] *)
Definition entry_value (a : ImmList.plist (key * V)) (n : Z) : result V :=
  match ImmList.get a n None with
  | Some x => Ok x.2
  | None => Throw (TypeError (js "Cannot read properties of undefined"))
  end.
Definition get (e : orderedMap) (k : key) (t : option V) : result (option V) :=
  match ImmMap.get (_map e) k None with
  | Some n => let! v := entry_value (_list e) n in Ok (Some v)
  | None => Ok t
  end.

(** [List] of a sequence whose size is not known: the elements are set one by
    one. *)
Definition of_seq (es : list (key * V)) : ImmList.plist (key * V) := ImmList.set_all ImmList.emptyList 0 (Some <$> es).
(** What is left of the list without the empty positions and position [u]. *)
Definition compacted (a : ImmList.plist (key * V)) (u : Z) : list (key * V) :=
  match ImmList.iterate a false with
  | Some l => omap (λ x, x) (imap (λ i x, if Z.of_nat i =? u then None else x) l)
  | None => []
  end.
(** The map from the keys to their positions. *)
Definition positions (es : list (key * V)) : @ImmMap.pmap Z := ImmMap.fromEntries (imap (λ i e, (e.1, Z.of_nat i)) es).

(** [updateOrderedMap]; [None] is the removal. *)
Definition updateOrderedMap (e : orderedMap) (t : key) (n : option V) : result orderedMap :=
  let i := _map e in
  let a := _list e in
  match n, ImmMap.get i t None with
  | None, None => Ok e
  | None, Some u =>
      Ok (if (ImmList.SIZE <=? ImmList.size a) && (2 * ImmMap.size i <=? ImmList.size a) then
            let o := compacted a u in OrderedMap (positions o) (of_seq o)
          else OrderedMap (ImmMap.remove i t) (if u =? ImmList.size a - 1 then ImmList.pop a else ImmList.set a u None))
  | Some n, Some u =>
      let! v := entry_value a u in
      Ok (if same n v then e else OrderedMap i (ImmList.set a u (Some (t, n))))
  | Some n, None => Ok (OrderedMap (ImmMap.set i t (ImmList.size a)) (ImmList.set a (ImmList.size a) (Some (t, n))))
  end.
Definition set (e : orderedMap) (k : key) (v : V) : result orderedMap := updateOrderedMap e k (Some v).
Definition remove (e : orderedMap) (k : key) : result orderedMap := updateOrderedMap e k None.
Definition clear (e : orderedMap) : orderedMap := if size e =? 0 then e else emptyOrderedMap.

(** The entries that [__iterate] visits. *)
Definition iterate (e : orderedMap) (rev : bool) : list (key * V) :=
  match ImmList.iterate (_list e) rev with Some l => omap (λ x, x) l | None => [] end.

(** A history. *)
Inductive op := OSet (k : key) (v : V) | ORemove (k : key) | OClear.
Definition apply_op (e : orderedMap) (o : op) : result orderedMap :=
  match o with OSet k v => set e k v | ORemove k => remove e k | OClear => Ok (clear e) end.
Definition run (e : orderedMap) (os : list op) : result orderedMap := foldR apply_op e os.

End ordered.
(** *** Evaluation *)

Definition num_key (z : Z) : key := KStr [z].
Definition sets (l : list Z) : list (@op Z) := (λ z, OSet (num_key z) z) <$> l.
Definition removes (l : list Z) : list (@op Z) := (λ z, ORemove (num_key z)) <$> l.

Example ordered_ex :
  let m := run emptyOrderedMap (sets [5; 3; 9] ++ [ORemove (num_key 3); OSet (num_key 4) 4; OSet (num_key 5) 6; OSet (num_key 3) 3]) in
  match m with
  | Ok m => size m = 4 /\ iterate m false = [(num_key 5, 6); (num_key 9, 9); (num_key 4, 4); (num_key 3, 3)] /\ get m (num_key 5) None = Ok (Some 6)
  | Throw _ => False
  end.
Proof. vm_compute. repeat split. Qed.

(** Entries that were removed come back: the second block of the list is emptied
    from its end, partly while it is in the tree and partly when it is the tail,
    so that its array is empty when the list grows again, and what the removal of
    the last entry left in the tree shows. Two removals later the list is
    compacted, and the map has the removed keys again. *)
Example removed_reappear :
  let os := sets (seqZ 0 65) ++ removes (reverse (seqZ 48 16)) ++ [ORemove (num_key 64)] ++ removes (reverse (seqZ 32 16)) ++ sets [70] in
  match run emptyOrderedMap os with
  | Ok m => size m = 33 /\ (iterate m false).*2 = seqZ 0 48 ++ [70] /\ get m (num_key 40) None = Ok None /\
      match run m (removes [0; 1]) with
      | Ok m => size m = 47 /\ get m (num_key 40) None = Ok (Some 40)
      | Throw _ => False
      end
  | Throw _ => False
  end.
Proof. vm_compute. repeat split. Qed.

End ImmOrdered.
