(* ===== verification/ImmOrderedOk.v ===== *)
(** The ordered map of Immutable.js is an association list in the order of
    insertion, as long as its list is not cut back across a block of 32 (see
    [ImmOrdered.removed_reappear] for what happens then).

    First the persistent list with empty positions: [exact]. *)

From stdpp Require Import base list list_numbers numbers strings gmap.
From Stdlib Require Import ZArith Lia.
From S2P Require Import Prelude ImmHash ImmMap ImmMapOk ImmList ImmListOk ImmOrdered.

Module ImmOrderedOk.
Import ImmList ImmListOk.

Section list.
Context {V : Type} `{StrictEq V}.
Local Abbreviation plist := (plist V).

(** ** Lists with empty positions *)

(** The array of the tail has [d] slots, or the tree has nothing in the block of
    the tail, so that no old elements can show. *)
Definition no_stale (k : nat) (e : plist) (d : Z) : Prop :=
  d <= len (array (tail e)) \/ ∀ x, getTailOffset (capacity e) <= x < getTailOffset (capacity e) + 32 -> look k (root e) x = Hole.

(** A list from position 0 with exactly these elements and empty positions. *)
Definition exact (e : plist) (l : list (option V)) : Prop :=
  origin e = 0 /\ capacity e = len l /\ (l = [] -> e = emptyList) /\ has_room e = true /\
  ∃ k, core k e /\ (∀ j x, l !! j = Some x -> slot_at k e (Z.of_nat j) = of_value x) /\ no_stale k e (capacity e - getTailOffset (capacity e)).

Lemma exact_size e l : exact e l -> size e = len l.
Proof. intros (Ho & Hc & _). unfold size. lia. Qed.

Lemma exact_empty : exact emptyList [].
Proof.
  split_and!; try done. exists 1%nat. split_and!; [unfold core; cbn; split_and!; try lia; done|done|]. left. done.
Qed.

Lemma tail_block c : 0 < c <= 2147483648 -> getTailOffset c = 32 * ((c - 1) / 32) /\ getTailOffset c < c <= getTailOffset c + 32.
Proof. intros Hc. rewrite tail_offset by lia. destruct (Z.eqb_spec c 0); [lia|]. zdm. Qed.

Lemma block_in_tree k c : getTailOffset c < span k -> 0 < c <= 2147483648 -> getTailOffset c + 32 <= span k.
Proof. intros Ht Hc. destruct (tail_block c Hc) as [E _]. destruct (span_32 k) as (z & Hz & _). lia. Qed.

Lemma len_put (a : list (slot V)) i x : 0 <= i -> len a <= len (put a i x) /\ i + 1 <= len (put a i x).
Proof.
  intros Hi. unfold put, len. destruct (Z.ltb_spec i (Z.of_nat (length a))).
  - unfold arr_set. rewrite (proj2 (Z.leb_le 0 i)) by done. rewrite length_insert. lia.
  - rewrite !length_app, length_replicate. cbn. lia.
Qed.

(** Setting one position keeps the slots of the tail, unless its last one is
    emptied. *)
Lemma set_within_no_stale k (e : plist) (t d : Z) o : core k e -> origin e = 0 -> 0 <= t < capacity e -> no_stale k e d -> (o = None -> t + 1 < getTailOffset (capacity e) + d) ->
  no_stale k (set_within e t o) d /\ (getTailOffset (capacity e) <= t -> o <> None -> no_stale k (set_within e t o) (Z.max d (t - getTailOffset (capacity e) + 1))).
Proof.
  intros Hc Ho Ht Hs Hd. pose proof Hc as (Hlv & Hk & Hoc & Hc31 & Hts). destruct (tail_block (capacity e) ltac:(lia)) as [Et Hte].
  assert (Hb := block_in_tree k (capacity e) Hts ltac:(lia)). unfold set_within. rewrite Ho, Z.add_0_r.
  destruct (Z.leb_spec (getTailOffset (capacity e)) t) as [Hin|Hout].
  - assert (Hu : index_at 0 t = t - getTailOffset (capacity e)).
    { rewrite (index_at_digit 0) by lia. cbn [digit]. zdm. }
    cbn [updateVNode]. rewrite Hu. set (u := t - getTailOffset (capacity e)) in *. change (0 <? 0) with false. cbn iota.
    destruct (negb _ && _) eqn:E1; [split; [done|intros _ Hn; destruct o; [by rewrite andb_false_r in E1|done]]|].
    destruct (_ && same_slot _ _) eqn:E2.
    { split; [done|]. intros _ _. destruct Hs as [Hs|Hs]; [left|by right]. apply andb_true_iff in E2 as [[_ E2%Z.ltb_lt]%andb_true_iff _]. lia. }
    unfold no_stale. cbn [tail root capacity array]. destruct o as [v|].
    + pose proof (len_put (array (tail e)) u (Elem v) ltac:(lia)). split; [|intros _ _]; destruct Hs as [Hs|Hs]; try (by right); left; lia.
    + split; [|done]. specialize (Hd eq_refl). destruct Hs as [Hs|Hs]; [left|by right]. destruct (Z.eqb_spec u (len (array (tail e)) - 1)); [lia|].
      pose proof (len_put (array (tail e)) u Hole ltac:(lia)). lia.
  - split; [|lia]. destruct Hs as [Hs|Hs]; [left; by destruct (updateVNode _ _ _ _ _) as [r []]|right].
    pose proof (span_le k ltac:(lia)).
    assert (Hup : ∀ x, getTailOffset (capacity e) <= x < getTailOffset (capacity e) + 32 -> look k (updateVNode (Z.to_nat (level e)) (root e) (level e) t o).1 x = Hole).
    { intros x Hx. rewrite Hlv, update_look; [|unfold lv; lia|lia|lia|by rewrite !Z.div_small by lia]. rewrite (proj2 (Z.eqb_neq _ _)) by lia. by apply Hs. }
    destruct (updateVNode _ _ _ _ _) as [r []]; cbn [fst capacity root] in *; done.
Qed.

(** Setting a position; the last one is not emptied. *)
Lemma set_within_level (e : plist) t o : level (set_within e t o) = level e.
Proof. unfold set_within. destruct (_ <=? _); destruct (updateVNode _ _ _ _ _) as [r []]; done. Qed.
Lemma exact_set (e : plist) l (t : Z) o : exact e l -> 0 <= t < len l -> (o = None -> t <> len l - 1) -> exact (set e t o) (<[Z.to_nat t := o]> l).
Proof.
  intros (Ho & Hcap & He & Hroom & k & Hc & Hl & Hs) Ht Hn. pose proof Hc as (_ & _ & _ & Hc31 & _).
  assert (E : set e t o = set_within e t o) by (unfold set; apply set_again_in; unfold size; lia). rewrite E.
  destruct (set_within_ok k e t o Hc) as (Hc' & Ho' & Hcap' & Hx); [unfold size; lia|].
  destruct (set_within_no_stale k e t (capacity e - getTailOffset (capacity e)) o Hc Ho ltac:(lia) Hs) as [Hs' _]; [intros Hnone; specialize (Hn Hnone); lia|].
  split_and!; [lia|unfold len in *; rewrite length_insert; lia| | |].
  - intros E'%(f_equal length). rewrite length_insert in E'. unfold len in Ht. cbn in E'. lia.
  - unfold has_room. by rewrite set_within_level.
  - exists k. split_and!; [done| |by rewrite Hcap'].
    intros j x Hj. pose proof (lookup_lt_Some _ _ _ Hj) as Hjl. rewrite length_insert in Hjl. unfold len in *. rewrite Hx, Ho by lia.
    destruct (Z.eqb_spec (Z.of_nat j) (0 + t)).
    + replace (Z.to_nat t) with j in Hj by lia. rewrite list_lookup_insert_eq in Hj by done. by injection Hj as ->.
    + rewrite list_lookup_insert_ne in Hj by lia. by apply Hl.
Qed.

(** *** Growing by one position *)

Lemma bounds_from_0 (e : plist) (n : Z) : origin e = 0 -> is_int32 n -> let u := if n <? 0 then capacity e + n else n in 0 < u -> u <> capacity e ->
  setListBounds e 0 (Some n) =
    let f := getTailOffset (capacity e) in let p := getTailOffset u in
    let '(l, s) := raise_right LEVELS (root e) (level e) p in
    let h := if p <? f then listNodeFor e (u - 1) else if f <? p then VNode [] else tail e in
    let l := if is_node (tail e) && (f <? p) && (0 <? capacity e) && negb (len (array (tail e)) =? 0)
             then store_tail (Z.to_nat s) l s f (tail e) else l in
    cut l h s 0 0 u (capacity e) f p.
Proof.
  intros Ho Hn u Hu Hne. unfold setListBounds. rewrite (bor_0_r 0) by lia. cbn [fmap option_fmap option_map]. rewrite bor_0_r, Ho by done. rewrite !Z.add_0_l.
  fold u. rewrite (proj2 (Z.eqb_neq u (capacity e))), (proj2 (Z.leb_gt u 0)) by done. cbn [andb Z.eqb].
  cbn [LEVELS raise_left]. change (0 + 0 <? 0) with false. cbn iota. rewrite !Z.add_0_r. done.
Qed.

Lemma raise_right_room fuel k (l : slot V) p l' s : (k <= 4)%nat -> p < span 4 -> raise_right fuel l (lv k) p = (l', s) -> s <= 20.
Proof.
  revert k l. induction fuel as [|fuel IH]; intros k l Hk Hp; cbn [raise_right]; [intros [= _ <-]; unfold lv; lia|].
  replace (lv k + SHIFT) with (lv (S k)) by (unfold lv, SHIFT; lia). rewrite shl_lv by lia. destruct (Z.leb_spec (span k) p); [|intros [= _ <-]; unfold lv; lia].
  apply IH; [|done]. destruct (decide (k = 4%nat)) as [->|]; [lia|lia].
Qed.

(** The list after it was made longer by one, before the element is set. *)
Lemma grown_ok k (e : plist) : core k e -> origin e = 0 -> roomy k -> capacity e < MAX_GROWTH -> no_stale k e (capacity e - getTailOffset (capacity e)) ->
  let e' := setListBounds e 0 (Some (capacity e + 1)) in
  origin e' = 0 /\ capacity e' = capacity e + 1 /\ has_room e' = true /\
  ∃ k', core k' e' /\ (∀ x, 0 <= x < capacity e -> slot_at k' e' x = slot_at k e x) /\ no_stale k' e' (capacity e - getTailOffset (capacity e + 1)).
Proof.
  intros Hc Ho Hr Hmax Hs e'. pose proof Hc as (Hlv & Hk & Hoc & Hc31 & Hts). pose proof (core_bound k e Hc) as Hcb.
  pose proof (span_mono k 4 Hr) as Hs4. change (span 4) with 33554432 in Hs4. set (c := capacity e) in *.
  destruct (tail_block (c + 1) ltac:(lia)) as [Ep Hp]. assert (Hb : 0 < c -> getTailOffset c + 32 <= span k) by (intros; apply block_in_tree; [done|lia]).
  assert (Hf : getTailOffset c = if c =? 0 then 0 else 32 * ((c - 1) / 32)) by (apply tail_offset; lia).
  unfold e'. rewrite bounds_from_0; [|done|lia| |]; rewrite ?(proj2 (Z.ltb_ge (c + 1) 0)) by lia; [|lia|fold c; lia]. cbv zeta. fold c. set (p := getTailOffset (c + 1)) in *. set (f := getTailOffset c) in *.
  destruct (raise_right_ok LEVELS k (root e) p) as (k2 & l2 & E2 & Hk2 & Hp2 & Hl2); [unfold LEVELS; lia|lia|rewrite span_5; lia|]. rewrite Hlv, E2.
  assert (Hrm : lv k2 <= 20) by (apply (raise_right_room LEVELS k (root e) p l2); [exact Hr|change (span 4) with MAX_GROWTH; lia|done]).
  assert (Hpf : p = f \/ p = f + 32 /\ p = c /\ 0 < c) by (destruct (Z.eqb_spec c 0); zdm).
  rewrite (proj2 (Z.ltb_ge p f)) by lia. unfold cut. rewrite (proj2 (Z.ltb_ge (c + 1) c)) by lia.
  destruct (Z.leb_spec p 0) as [Hp0|Hp0].
  - assert (p = 0) as Ep0 by lia. assert (f = 0) as Ef0 by lia. rewrite Ep0, Ef0. change (0 <? 0) with false. cbn iota. rewrite !Z.sub_0_r. cbn [origin capacity]. split_and!; [done|done|done|].
    exists 1%nat. unfold core, slot_at, no_stale. cbn [level origin capacity root tail]. fold p c f. rewrite Ep0, Ef0. split_and!; try done; try lia.
    + intros x Hx. rewrite (proj2 (Z.leb_le 0 x)) by lia. pose proof (before_look 0 (tail e) 0 x) as Hbl. cbn [span look digit] in Hbl. apply Hbl; lia.
    + right. intros x Hx. by apply look_none.
  - change ((0 <? 0) || (p <? f)) with (p <? f). rewrite (proj2 (Z.ltb_ge p f)) by lia. cbn [origin capacity]. split_and!; [done|done|by apply Z.leb_le|].
    exists k2. unfold core, slot_at, no_stale. cbn [level origin capacity root tail]. fold p c f.
    destruct Hpf as [Epf|(Epf & Epc & Hc0)].
    + rewrite Epf, Z.ltb_irrefl, andb_false_r. cbn [andb]. split_and!; try done; try lia.
      * intros x Hx. destruct (Z.leb_spec f x); [done|]. apply Hl2. lia.
      * destruct Hs as [Hs|Hs]; [by left|right]. intros x Hx. fold c f in Hs. rewrite Hl2 by lia. by apply Hs.
    + rewrite (proj2 (Z.ltb_lt f p)), (proj2 (Z.ltb_lt 0 c)) by lia. split_and!; try done; try lia; [|left; change (len (array (@VNode V []))) with 0; lia].
      intros x Hx. rewrite (proj2 (Z.leb_gt p x)) by lia. rewrite andb_true_r. cbn [andb]. rewrite andb_true_r.
      destruct (is_node (tail e) && negb (len (array (tail e)) =? 0)) eqn:En.
      * destruct k2 as [|j]; [lia|]. pose proof (span_le (S j) ltac:(lia)). rewrite store_look by first [unfold lv; lia|lia|rewrite !Z.div_small by lia; done].
        destruct (Z.eqb_spec (x / 32) (f / 32)); [rewrite (proj2 (Z.leb_le f x)) by zdm; done|]. rewrite (proj2 (Z.leb_gt f x)) by zdm. apply Hl2. lia.
      * apply raised_empty in En. destruct (Z.leb_spec f x) as [Hfx|Hfx]; [|apply Hl2; lia]. rewrite En, item_nil, Hl2 by lia.
        destruct Hs as [Hs|Hs]; [rewrite En in Hs; fold c f in Hs; change (len (@nil (slot V))) with 0 in Hs; lia|]. apply Hs. fold c f. lia.
Qed.

Lemma exact_push (e : plist) l v : exact e l -> len l < MAX_GROWTH -> exact (set e (len l) (Some v)) (l ++ [Some v]).
Proof.
  intros (Ho & Hcap & He & Hroom & k & Hc & Hl & Hs) Hmax. pose proof (has_room_ok k e Hc Hroom) as Hr. pose proof Hc as (Hlv & Hk & Hoc & Hc31 & Hts).
  destruct (grown_ok k e Hc Ho Hr ltac:(lia) Hs) as (Ho1 & Hc1 & Hrm & k1 & Hcore1 & Hx1 & Hs1). rewrite Hcap in *. set (e1 := setListBounds e 0 (Some (len l + 1))) in *.
  assert (0 <= len l) by (unfold len; lia).
  assert (E : set e (len l) (Some v) = set_within e1 (len l) (Some v)).
  { unfold set. cbn [set_again]. unfold wrapIndex. rewrite !(proj2 (Z.ltb_ge (len l) 0)) by lia. unfold size at 1. rewrite Ho, Hcap, Z.sub_0_r, Z.leb_refl. cbn [orb].
    fold e1. by rewrite (proj2 (Z.leb_gt (size e1) (len l))) by (unfold size; lia). }
  rewrite E. destruct (set_within_ok k1 e1 (len l) (Some v) Hcore1) as (Hc' & Ho' & Hcap' & Hx); [unfold size; lia|].
  pose proof Hcore1 as (_ & _ & _ & Hc31' & _). destruct (tail_block (len l + 1) ltac:(lia)) as [Et Ht].
  destruct (set_within_no_stale k1 e1 (len l) _ (Some v) Hcore1 Ho1 ltac:(lia) Hs1) as [_ Hs']; [done|]. rewrite Hc1 in Hs'. specialize (Hs' ltac:(lia) ltac:(done)).
  split_and!; [lia|rewrite Hcap', Hc1; unfold len; rewrite length_app; cbn; lia|by intros [_ ?]%app_nil|unfold has_room; by rewrite set_within_level|].
  exists k1. split_and!; [done| |].
  - intros j x Hj. pose proof (lookup_lt_Some _ _ _ Hj) as Hjl. rewrite length_app in Hjl. cbn in Hjl. unfold len in *. rewrite Hx, Ho1 by lia.
    destruct (Z.eqb_spec (Z.of_nat j) (0 + Z.of_nat (length l))) as [Ej|Ej].
    + replace j with (length l) in Hj by lia. rewrite list_lookup_middle in Hj by done. by injection Hj as <-.
    + rewrite lookup_app_l in Hj by lia. rewrite Hx1 by lia. by apply Hl.
  - rewrite Hcap', Hc1. by replace (len l + 1 - getTailOffset (len l + 1)) with (Z.max (len l - getTailOffset (len l + 1)) (len l - getTailOffset (len l + 1) + 1)) by lia.
Qed.

(** *** Removing the last position *)

(** The last position is not the only one of a block after the second. *)
Definition within_block (c : Z) : bool := (c <=? 33) || negb (c mod 32 =? 1).

Lemma len_after (n : slot V) (u d : Z) : 0 < u <= 2147483648 -> d <= len (array n) -> d <= (u - 1) mod 32 + 1 -> d <= len (array (after n 0 u)).
Proof.
  intros Hu Hd Hdu. destruct n as [| |a]; try done. cbn [after array] in *. change (Z.to_nat 0) with O. cbn [removeAfter]. change (0 =? 0) with true. change (0 <? 0) with false. cbn iota. cbn [andb].
  destruct ((u =? 0) || (0 =? len a)); [done|]. rewrite (index_at_digit 0) by lia. cbn [digit]. destruct (Z.leb_spec (len a) ((u - 1) mod 32)); [done|]. cbn [fst is_node array].
  pose proof (Z.mod_pos_bound (u - 1) 32 ltac:(lia)). unfold len in *. rewrite length_take. lia.
Qed.

Lemma popped_ok k (e : plist) : core k e -> has_room e = true -> origin e = 0 -> 1 < capacity e -> within_block (capacity e) = true -> no_stale k e (capacity e - getTailOffset (capacity e)) ->
  let e' := setListBounds e 0 (Some (-1)) in
  origin e' = 0 /\ capacity e' = capacity e - 1 /\ has_room e' = true /\
  ∃ k', core k' e' /\ (∀ x, 0 <= x < capacity e - 1 -> slot_at k' e' x = slot_at k e x) /\ no_stale k' e' (capacity e' - getTailOffset (capacity e')).
Proof.
  intros Hc Hroom Ho H1 Hw Hs e'. pose proof (has_room_ok k e Hc Hroom) as Hr. pose proof Hc as (Hlv & Hk & Hoc & Hc31 & Hts). pose proof (core_bound k e Hc) as Hcb.
  pose proof (span_le k ltac:(lia)) as Hsp. set (c := capacity e) in *. assert (Hw' : c <= 33 \/ c mod 32 <> 1).
  { unfold within_block in Hw. apply orb_true_iff in Hw as [?%Z.leb_le | ?%negb_true_iff%Z.eqb_neq]; [by left|by right]. }
  destruct (tail_block (c - 1) ltac:(lia)) as [Ep Hp]. destruct (tail_block c ltac:(lia)) as [Ef Hf].
  assert (Hb := block_in_tree k c Hts ltac:(lia)). unfold e'. rewrite bounds_from_0; [|done|lia| |]; change (-1 <? 0) with true; cbn iota; fold c; [|lia|lia].
  replace (c + -1) with (c - 1) by lia. cbv zeta. set (p := getTailOffset (c - 1)) in *. set (f := getTailOffset c) in *.
  destruct (raise_right_ok LEVELS k (root e) p) as (k2 & l2 & E2 & Hk2 & Hp2 & Hl2); [unfold LEVELS; lia|lia|rewrite span_5; lia|]. rewrite Hlv, E2.
  assert (Hrm : lv k2 <= 20) by (apply (raise_right_room LEVELS k (root e) p l2); [exact Hr|pose proof (span_mono k 4 Hr); zdm|done]).
  rewrite (proj2 (Z.ltb_ge f p)) by zdm. rewrite andb_false_r. cbn [andb]. unfold cut. rewrite (proj2 (Z.ltb_lt (c - 1) c)) by lia.
  destruct (Z.leb_spec p 0) as [Hp0|Hp0].
  - set (h := if p <? f then listNodeFor e (c - 1 - 1) else tail e).
    assert (Hh : ∀ x, 0 <= x < c - 1 -> item (array h) (x mod 32) = slot_at k e x).
    { intros x Hx. unfold slot_at, h. fold c f. destruct (Z.ltb_spec p f).
      - unfold listNodeFor. fold c f. rewrite (proj2 (Z.leb_gt f (c - 1 - 1))), (proj2 (Z.leb_gt f x)), Hlv by zdm.
        replace (lv k + SHIFT) with (lv (S k)) by (unfold lv, SHIFT; lia). rewrite shl_lv, (proj2 (Z.ltb_lt _ _)) by lia. symmetry.
        apply descend_look; [unfold lv; lia|lia|lia|zdm].
      - by rewrite (proj2 (Z.leb_le f x)) by lia. }
    assert (Ep0 : p = 0) by lia. rewrite Ep0, !Z.sub_0_r. cbn [origin capacity]. split_and!; [done|done|done|].
    exists 1%nat. unfold core, slot_at at 1, no_stale. cbn [level origin capacity root tail]. replace (getTailOffset (c - 1)) with 0 by (symmetry; exact Ep0). split_and!; try done; try lia.
    + intros x Hx. rewrite (proj2 (Z.leb_le 0 x)), <- Hh by lia. pose proof (before_look 0 (after h 0 (c - 1)) 0 x) as Hbl. cbn [span look digit] in Hbl. change (lv 0) with 0 in Hbl. rewrite Hbl by lia.
      pose proof (after_look 0 h (c - 1) x) as Hal. cbn [span look digit] in Hal. apply Hal; lia.
    + right. intros x Hx. by apply look_none.
  - assert (Epf : p = f) by (destruct Hw'; zdm). change ((0 <? 0) || (p <? f)) with (p <? f). rewrite Epf, Z.ltb_irrefl. cbn [origin capacity]. split_and!; [done|done|by apply Z.leb_le|].
    exists k2. unfold core, slot_at, no_stale. cbn [level origin capacity root tail]. fold p c f. rewrite Epf. split_and!; try done; try lia.
    + intros x Hx. destruct (Z.leb_spec f x) as [Hfx|Hfx]; [|apply Hl2; lia]. destruct (tail e) as [| |a] eqn:Et; try done. cbn [after].
      pose proof (after_array (Z.to_nat 0) 0 a (c - 1) x) as Hal. cbn [span look digit array] in Hal |- *. change (lv 0) with 0 in Hal. apply Hal; [lia|lia|lia|lia|zdm].
    + destruct Hs as [Hs|Hs]; [left|right]; fold c f in Hs.
      * apply len_after; [lia|lia|]. zdm.
      * intros x Hx. rewrite Hl2 by lia. by apply Hs.
Qed.

Lemma exact_pop (e : plist) l : exact e l -> l <> [] -> within_block (len l) = true -> exact (pop e) (take (length l - 1) l).
Proof.
  intros (Ho & Hcap & He & Hroom & k & Hc & Hl & Hs) Hne Hw. pose proof Hc as (_ & _ & _ & Hc31 & _). unfold pop.
  assert (Hpos : 0 < len l) by (unfold len; destruct l; [done|cbn; lia]). destruct (decide (len l = 1)) as [E1|E1].
  - assert (take (length l - 1) l = []) as -> by (replace (length l - 1)%nat with O by (unfold len in E1; lia); done).
    assert (setListBounds e 0 (Some (-1)) = emptyList) as ->; [|apply exact_empty].
    unfold setListBounds. rewrite (bor_0_r 0) by lia. cbn [fmap option_fmap option_map]. rewrite bor_0_r, Ho, Hcap, E1 by lia. change (-1 <? 0) with true. cbn [andb Z.eqb Z.add Z.leb].
    unfold clear, size. by rewrite Ho, Hcap, E1.
  - destruct (popped_ok k e Hc Hroom Ho ltac:(lia) ltac:(by rewrite Hcap) Hs) as (Ho' & Hc' & Hrm & k' & Hcore' & Hx & Hs'). split_and!; [done| | |done|].
    + rewrite Hc', Hcap. unfold len in *. rewrite length_take. lia.
    + intros E%(f_equal length). rewrite length_take in E. unfold len in *. cbn in E. lia.
    + exists k'. split_and!; [done| |done]. intros j x Hj. pose proof (lookup_lt_Some _ _ _ Hj) as Hjl. rewrite length_take in Hjl.
      rewrite lookup_take_lt in Hj by lia. unfold len in *. rewrite Hx by lia. by apply Hl.
Qed.

(** *** Reading *)

Lemma exact_get (e : plist) l i : exact e l -> 0 <= i -> get e i None = match l !! Z.to_nat i with Some x => x | None => None end.
Proof.
  intros He Hi. pose proof (exact_size _ _ He) as Hs. destruct He as (Ho & Hcap & _ & _ & k & Hc & Hl & _). rewrite (list_get_ok k) by done. cbn zeta. unfold wrapIndex.
  rewrite (proj2 (Z.ltb_ge i 0)), (proj2 (Z.leb_le 0 i)), Hs, Ho by done. cbn [andb]. destruct (Z.ltb_spec i (len l)) as [Hlt|Hge].
  - destruct (lookup_lt_is_Some_2 l (Z.to_nat i)) as [x Hx]; [unfold len in Hlt; lia|]. rewrite Hx. specialize (Hl _ _ Hx). rewrite Z2Nat.id in Hl by done.
    rewrite Z.add_0_l, Hl. by destruct x.
  - by rewrite lookup_ge_None_2 by (unfold len in Hge; lia).
Qed.

Lemma exact_iterate (e : plist) l t : exact e l -> iterate e t = Some (direct t l).
Proof.
  intros He. pose proof (exact_size _ _ He) as Hsz. destruct He as (Ho & Hcap & _ & _ & k & Hc & Hl & _). pose proof Hc as (Hlv & Hk & Hoc & Hc31 & Ht). unfold iterate. rewrite Hlv.
  assert (Hcs : capacity e <= span k) by (pose proof (span_pos k); destruct (decide (capacity e = 0)); [lia|]; pose proof (block_in_tree k (capacity e) Ht ltac:(lia)); destruct (tail_block (capacity e)); lia).
  rewrite (collect_ok k); try done; try lia; [|unfold lv; lia|pose proof (span_pos k); lia]. rewrite Z.add_0_l. do 2 f_equal.
  unfold ImmListOk.positions. rewrite Ho, Z.max_r, Z.min_r, Z.sub_0_r, Hcap by lia. apply list_eq. intros j. rewrite !list_lookup_fmap.
  destruct (l !! j) as [x|] eqn:Ej.
  - rewrite lookup_seqZ_lt by (apply lookup_lt_Some in Ej; unfold len; lia). cbn [fmap option_fmap option_map]. rewrite Z.add_0_l, (Hl j x Ej). by destruct x.
  - rewrite lookup_seqZ_ge; [done|]. apply lookup_ge_None in Ej. unfold len. lia.
Qed.

(** A list made by setting its elements one after the other. *)
Lemma exact_seq (vs : list V) : ∀ e l, exact e l -> len l + len vs <= MAX_GROWTH -> exact (set_all e (len l) (Some <$> vs)) (l ++ (Some <$> vs)).
Proof.
  induction vs as [|v vs IH]; intros e l He Hm; [by rewrite app_nil_r|]. cbn [fmap list_fmap set_all]. assert (Hlen : len (v :: vs) = 1 + len vs) by (unfold len; cbn; lia).
  assert (0 <= len vs) by (unfold len; lia). replace (len l + 1) with (len (l ++ [Some v])) by (unfold len; rewrite length_app; cbn; lia).
  replace (l ++ Some v :: (Some <$> vs)) with ((l ++ [Some v]) ++ (Some <$> vs)) by (by rewrite <- app_assoc). apply IH; [apply exact_push; [done|lia]|].
  assert (len (l ++ [Some v]) = len l + 1) by (unfold len; rewrite length_app; cbn; lia). lia.
Qed.

End list.
(** ** The ordered map *)

Section ordered.
Import ImmHash (key, KStr).
Import ImmMapOk (ordinary, map_ok, to_map).
Context {V : Type} `{StrictEq V}.
Local Abbreviation entry := (key * V)%type.
Import ImmOrdered.
Local Abbreviation orderedMap := (@ImmOrdered.orderedMap V).
Local Abbreviation op := (@ImmOrdered.op V).

(** *** The abstract map: entries in the order in which their keys came *)

Fixpoint spec_get (s : list entry) (k : key) : option V :=
  match s with [] => None | (k', v) :: s => if decide (k = k') then Some v else spec_get s k end.
Fixpoint spec_set (s : list entry) (k : key) (v : V) : list entry :=
  match s with [] => [(k, v)] | (k', v') :: s => if decide (k = k') then (k, v) :: s else (k', v') :: spec_set s k v end.
Definition spec_remove (s : list entry) (k : key) : list entry := filter (λ e, e.1 ≠ k) s.
Definition spec_op (s : list entry) (o : op) : list entry :=
  match o with OSet k v => spec_set s k v | ORemove k => spec_remove s k | OClear => [] end.

Lemma spec_middle s1 s2 k v : k ∉ s1.*1 -> k ∉ s2.*1 ->
  spec_get (s1 ++ (k, v) :: s2) k = Some v /\ (∀ w, spec_set (s1 ++ (k, v) :: s2) k w = s1 ++ (k, w) :: s2) /\
  spec_remove (s1 ++ (k, v) :: s2) k = s1 ++ s2.
Proof.
  intros H1 H2. assert (Hid : ∀ s : list entry, k ∉ s.*1 -> spec_remove s k = s).
  { intros s Hs. unfold spec_remove. induction s as [|[k' x] s IH]; [done|]. cbn in Hs. apply not_elem_of_cons in Hs as [Hk Hs].
    rewrite filter_cons_True by (by cbn). by rewrite IH. }
  split_and!.
  - induction s1 as [|[k' x] s1 IH]; cbn; [by rewrite decide_True|]. cbn in H1. apply not_elem_of_cons in H1 as [Hk H1]. rewrite decide_False by done. by apply IH.
  - intros w. induction s1 as [|[k' x] s1 IH]; cbn; [by rewrite decide_True|]. cbn in H1. apply not_elem_of_cons in H1 as [Hk H1]. rewrite decide_False by done. by rewrite IH.
  - unfold spec_remove. rewrite filter_app. fold (spec_remove s1 k). rewrite Hid by done. f_equal. rewrite filter_cons_False by (cbn; auto). by apply Hid.
Qed.
Lemma spec_absent s k : k ∉ s.*1 -> spec_get s k = None /\ (∀ v, spec_set s k v = s ++ [(k, v)]) /\ spec_remove s k = s.
Proof.
  intros Hs. split_and!.
  - induction s as [|[k' x] s IH]; [done|]. cbn in *. apply not_elem_of_cons in Hs as [Hk Hs]. rewrite decide_False by done. by apply IH.
  - intros v. induction s as [|[k' x] s IH]; [done|]. cbn in *. apply not_elem_of_cons in Hs as [Hk Hs]. rewrite decide_False by done. by rewrite IH.
  - unfold spec_remove. induction s as [|[k' x] s IH]; [done|]. cbn in Hs. apply not_elem_of_cons in Hs as [Hk Hs]. rewrite filter_cons_True by (by cbn). by rewrite IH.
Qed.

(** *** The entries of a list with empty positions *)

Definition entries (l : list (option entry)) : list entry := omap (λ x, x) l.

Lemma entries_app l1 l2 : entries (l1 ++ l2) = entries l1 ++ entries l2.
Proof. apply omap_app. Qed.
Lemma entries_some s : entries (Some <$> s) = s.
Proof. induction s as [|x s IH]; [done|]. cbn. by f_equal. Qed.
Lemma entries_in l k : k ∈ (entries l).*1 <-> ∃ j v, l !! j = Some (Some (k, v)).
Proof.
  split.
  - intros ([k' v] & -> & (x & Hx & Ex)%list_elem_of_omap)%list_elem_of_fmap. subst x. apply list_elem_of_lookup_1 in Hx as [j Hj]. by exists j, v.
  - intros (j & v & Hj%list_elem_of_lookup_2). apply list_elem_of_fmap. exists (k, v). split; [done|]. apply list_elem_of_omap. by exists (Some (k, v)).
Qed.

(** A position that holds an entry. *)
Lemma entries_at l j k v : l !! j = Some (Some (k, v)) -> NoDup (entries l).*1 ->
  spec_get (entries l) k = Some v /\ (∀ w, entries (<[j := Some (k, w)]> l) = spec_set (entries l) k w) /\
  entries (<[j := None]> l) = spec_remove (entries l) k.
Proof.
  intros Hj Hn. pose proof (take_drop_middle _ _ _ Hj) as Hl. rewrite <- Hl in Hn |- *. set (l1 := take j l). set (l2 := drop (S j) l). fold l1 l2 in Hn, Hl.
  assert (Hlen : j = length l1) by (unfold l1; rewrite length_take; apply lookup_lt_Some in Hj; lia).
  rewrite entries_app in Hn |- *. cbn [entries omap list_omap] in Hn |- *. fold (entries l2) in Hn |- *. rewrite fmap_app in Hn. cbn in Hn.
  apply NoDup_app in Hn as (_ & Hd & [H2 _]%NoDup_cons). destruct (spec_middle (entries l1) (entries l2) k v) as (Hg & Hs & Hr); [|done|].
  { intros H1. apply (Hd k H1). left. }
  split_and!; [done| |].
  - intros w. rewrite Hs, Hlen, insert_app_r_alt, Nat.sub_diag by lia. cbn. by rewrite entries_app.
  - rewrite Hr, Hlen, insert_app_r_alt, Nat.sub_diag by lia. cbn. by rewrite entries_app.
Qed.

(** *** The positions *)

(** The map says where the entries are. *)
Definition indexes (m : @ImmMap.pmap Z) (l : list (option entry)) : Prop :=
  ∀ k i, to_map m !! k = Some i <-> ∃ j v, i = Z.of_nat j /\ l !! j = Some (Some (k, v)).

Lemma map_set_ok (m : @ImmMap.pmap Z) k i : ordinary k -> map_ok m -> map_ok (ImmMap.set m k i) /\ to_map (ImmMap.set m k i) = <[k := i]> (to_map m).
Proof. intros. apply (ImmMapOk.updateMap_ok m k (Some i)); [by apply ImmMapOk.hash_range|done]. Qed.
Lemma map_remove_ok (m : @ImmMap.pmap Z) k : ordinary k -> map_ok m -> map_ok (ImmMap.remove m k) /\ to_map (ImmMap.remove m k) = delete k (to_map m).
Proof. intros. apply (ImmMapOk.updateMap_ok m k None); [by apply ImmMapOk.hash_range|done]. Qed.

(** A position where the key occurs is the only one. *)
Lemma indexes_inj m l k i j v : indexes m l -> to_map m !! k = Some i -> l !! j = Some (Some (k, v)) -> i = Z.of_nat j.
Proof. intros Hi Hk Hj. assert (to_map m !! k = Some (Z.of_nat j)) by (apply Hi; eauto). congruence. Qed.

Lemma indexes_size m l : map_ok m -> indexes m l -> NoDup (entries l).*1 -> ImmMap.size m = len (entries l).
Proof.
  intros Hm Hi Hn. rewrite ImmMapOk.to_map_size by done. unfold len. f_equal. rewrite <- (length_fmap fst (entries l)), <- size_dom.
  rewrite <- (size_list_to_set (C := gset key) (entries l).*1) by done. f_equal. apply set_eq. intros k. rewrite elem_of_dom, elem_of_list_to_set, entries_in. split.
  - intros [i (j & v & _ & Hj)%Hi]. eauto.
  - intros (j & v & Hj). exists (Z.of_nat j). apply Hi. eauto.
Qed.

Lemma indexes_set m l k v j w : indexes m l -> l !! j = Some (Some (k, v)) -> indexes m (<[j := Some (k, w)]> l).
Proof.
  intros Hi Hj k' i. rewrite (Hi k' i). split; intros (j' & v' & -> & Hj'); exists j'.
  - destruct (decide (j' = j)) as [->|Hne]; [|exists v'; by rewrite list_lookup_insert_ne by done].
    rewrite Hj in Hj'. injection Hj' as <- <-. exists w. split; [done|]. apply list_lookup_insert_eq. by eapply lookup_lt_Some.
  - destruct (decide (j' = j)) as [->|Hne]; [|exists v'; by rewrite list_lookup_insert_ne in Hj' by done].
    rewrite list_lookup_insert_eq in Hj' by (by eapply lookup_lt_Some). injection Hj' as <- <-. by exists v.
Qed.
Lemma indexes_push m l k v : map_ok m -> ordinary k -> indexes m l -> to_map m !! k = None -> indexes (ImmMap.set m k (len l)) (l ++ [Some (k, v)]).
Proof.
  intros Hm Hk Hi Hnone k' i. rewrite (proj2 (map_set_ok m k (len l) Hk Hm)). destruct (decide (k' = k)) as [->|Hne].
  - rewrite lookup_insert_eq. split.
    + intros [= <-]. exists (length l), v. split; [done|]. by apply list_lookup_middle.
    + intros (j & w & -> & Hj). f_equal. apply lookup_app_Some in Hj as [Hj|[Hge Hj]].
      * assert (to_map m !! k = Some (Z.of_nat j)) by (apply Hi; eauto). congruence.
      * apply list_lookup_singleton_Some in Hj as [Hz _]. unfold len. f_equal. lia.
  - rewrite lookup_insert_ne by done. rewrite (Hi k' i). split; intros (j & w & -> & Hj); exists j, w; (split; [done|]).
    + by apply lookup_app_l_Some.
    + apply lookup_app_Some in Hj as [Hj|[Hge Hj]]; [done|]. apply list_lookup_singleton_Some in Hj as [_ Hz]. congruence.
Qed.
Lemma indexes_remove m l l' k j v : map_ok m -> ordinary k -> indexes m l -> l !! j = Some (Some (k, v)) ->
  (∀ j' x, l' !! j' = Some (Some x) <-> j' <> j /\ l !! j' = Some (Some x)) -> indexes (ImmMap.remove m k) l'.
Proof.
  intros Hm Hk Hi Hj Hl' k' i. rewrite (proj2 (map_remove_ok m k Hk Hm)), lookup_delete_Some, (Hi k' i). split.
  - intros (Hne & j' & v' & -> & Hj'). exists j', v'. split; [done|]. apply Hl'. split; [|done]. intros ->. congruence.
  - intros (j' & v' & -> & [Hne Hj']%Hl'). split; [|eauto]. intros <-. apply Hne. assert (E : Z.of_nat j = Z.of_nat j'); [|lia].
    eapply (indexes_inj m l k); [done| |done]. apply Hi. eauto.
Qed.

Lemma positions_ok (es : list entry) : NoDup es.*1 -> Forall ordinary es.*1 -> map_ok (positions es) /\ indexes (positions es) (Some <$> es).
Proof.
  induction es as [|[k v] es IH] using rev_ind; intros Hn Ho.
  - split; [apply ImmMapOk.emptyMap_ok|]. intros k i. change (to_map (positions [])) with (∅ : gmap key Z). rewrite lookup_empty. split; [done|by intros (? & ? & _ & ?)].
  - rewrite fmap_app in Hn, Ho. apply NoDup_app in Hn as (Hn & Hd & _). apply Forall_app in Ho as [Ho Hk]. cbn in Hk. apply Forall_cons in Hk as [Hk _].
    destruct (IH Hn Ho) as [Hm Hi]. assert (E : positions (es ++ [(k, v)]) = ImmMap.set (positions es) k (len (Some <$> es))).
    { unfold positions, ImmMap.fromEntries, ImmMap.set_all. rewrite imap_app, fold_left_app. cbn. by rewrite len_fmap, Nat.add_0_r. }
    rewrite E. split; [exact (proj1 (map_set_ok _ _ _ Hk Hm))|]. rewrite fmap_app. apply indexes_push; [done|done|done|].
    destruct (to_map (positions es) !! k) as [i|] eqn:Ek; [|done]. apply Hi in Ek as (j & w & _ & Hj).
    exfalso. apply (Hd k); [|by left]. rewrite list_lookup_fmap in Hj. destruct (es !! j) as [x|] eqn:Ej; [|done]. injection Hj as ->.
    apply list_elem_of_fmap. exists (k, w). split; [done|]. by eapply list_elem_of_lookup_2.
Qed.

(** *** The invariant *)

Definition inv (m : orderedMap) (l : list (option entry)) : Prop :=
  exact (_list m) l /\ map_ok (_map m) /\ indexes (_map m) l /\ NoDup (entries l).*1 /\ Forall ordinary (entries l).*1 /\ len l <= MAX_GROWTH.

Lemma inv_empty : inv emptyOrderedMap [].
Proof.
  split_and!; [apply exact_empty|apply ImmMapOk.emptyMap_ok| |apply NoDup_nil_2|apply Forall_nil_2|done].
  intros k i. change (to_map (_map emptyOrderedMap)) with (∅ : gmap key Z). rewrite lookup_empty. split; [done|by intros (? & ? & _ & ?)].
Qed.

Lemma inv_lookup m l k : inv m l ->
  match ImmMap.get (_map m) k None with
  | Some u => ∃ j v, u = Z.of_nat j /\ l !! j = Some (Some (k, v)) /\ entry_value (_list m) u = Ok v
  | None => to_map (_map m) !! k = None /\ k ∉ (entries l).*1
  end.
Proof.
  intros (He & Hm & Hi & _). rewrite ImmMapOk.get_ok by done. destruct (to_map (_map m) !! k) as [u|] eqn:E.
  - apply Hi in E as (j & v & -> & Hj). exists j, v. split_and!; [done|done|]. unfold entry_value. rewrite (exact_get _ l) by (done || lia). by rewrite Nat2Z.id, Hj.
  - split; [done|]. intros (j & v & Hj)%entries_in. assert (to_map (_map m) !! k = Some (Z.of_nat j)) by (apply Hi; eauto). congruence.
Qed.

(** The same keys, or fewer. *)
Lemma keys_set (s : list entry) k v : (spec_set s k v).*1 = if decide (k ∈ s.*1) then s.*1 else s.*1 ++ [k].
Proof.
  induction s as [|[k' x] s IH]; cbn; [by rewrite decide_False by (apply not_elem_of_nil)|].
  destruct (decide (k = k')) as [<-|Hne]; cbn; [by rewrite decide_True by left|]. rewrite IH.
  destruct (decide (k ∈ s.*1)); [rewrite decide_True by (by right)|rewrite decide_False by (by intros [?|?]%elem_of_cons)]; done.
Qed.
Lemma keys_set_ok (s : list entry) k v : ordinary k -> NoDup s.*1 -> Forall ordinary s.*1 -> NoDup (spec_set s k v).*1 /\ Forall ordinary (spec_set s k v).*1.
Proof.
  intros Hk Hn Ho. rewrite keys_set. case_decide; [done|]. split.
  - apply NoDup_app. split_and!; [done| |apply NoDup_singleton]. intros x Hx ->%list_elem_of_singleton. done.
  - apply Forall_app. split; [done|by apply Forall_singleton].
Qed.
Lemma keys_remove_ok (s : list entry) k : NoDup s.*1 -> Forall ordinary s.*1 -> NoDup (spec_remove s k).*1 /\ Forall ordinary (spec_remove s k).*1.
Proof.
  intros Hn Ho. assert (Hsub : (spec_remove s k).*1 `sublist_of` s.*1) by (apply fmap_sublist, sublist_filter). split; [by eapply sublist_NoDup|].
  rewrite Forall_forall in Ho |- *. intros x Hx. apply Ho. by eapply sublist_subseteq.
Qed.

Lemma set_ok m l k v : inv m l -> ordinary k -> ImmList.size (_list m) < MAX_GROWTH ->
  ∃ m' l', set m k v = Ok m' /\ inv m' l' /\ entries l' = spec_set (entries l) k v.
Proof.
  intros Hinv Hk Hmax. pose proof (inv_lookup m l k Hinv) as Hlk. pose proof Hinv as (He & Hm & Hi & Hn & Ho & Hl). rewrite (exact_size _ _ He) in Hmax.
  destruct (keys_set_ok (entries l) k v Hk Hn Ho) as [Hn' Ho']. unfold set, updateOrderedMap. destruct (ImmMap.get (_map m) k None) as [u|].
  - destruct Hlk as (j & w & -> & Hj & Hv). rewrite Hv. cbn [result_bind]. destruct (entries_at l j k w Hj Hn) as (_ & Hs & _).
    pose proof (lookup_lt_Some _ _ _ Hj) as Hjl. eexists _, (<[j := Some (k, v)]> l). split; [done|]. split; [|by apply Hs].
    destruct (same v w) eqn:Esame; [apply same_eq in Esame as ->; by rewrite list_insert_id by done|].
    split_and!; rewrite ?Hs; [|done|by eapply indexes_set|done|done|by unfold len in *; rewrite length_insert]. cbn [_list].
    rewrite <- (Nat2Z.id j) at 2. apply exact_set; [done|unfold len; lia|done].
  - destruct Hlk as [Hnone Hnin]. rewrite (exact_size _ _ He). eexists _, (l ++ [Some (k, v)]). split; [done|].
    assert (E : entries (l ++ [Some (k, v)]) = spec_set (entries l) k v) by (rewrite entries_app; symmetry; by apply spec_absent). split; [|done].
    split_and!; rewrite ?E; cbn [_map _list]; [by apply exact_push|by apply map_set_ok|by apply indexes_push|done|done|].
    unfold len in *. rewrite length_app. cbn. unfold MAX_GROWTH in *. lia.
Qed.

(** Removing does not cut the list back across a block. *)
Definition steady (m : orderedMap) (o : op) : bool :=
  match o with
  | OSet _ _ => ImmList.size (_list m) <? MAX_GROWTH
  | ORemove k =>
      match ImmMap.get (_map m) k None with
      | Some u =>
          let n := ImmList.size (_list m) in
          (SIZE <=? n) && (2 * ImmMap.size (_map m) <=? n) || negb (u =? n - 1) || within_block n
      | None => true
      end
  | OClear => true
  end.
Definition op_ordinary (o : op) : Prop := match o with OSet k _ | ORemove k => ordinary k | OClear => True end.

Lemma compacted_ok a l j : exact a l -> compacted a (Z.of_nat j) = entries (<[j := None]> l).
Proof.
  intros Ha. unfold compacted. rewrite (exact_iterate a l false Ha). cbn [direct]. unfold entries. f_equal. apply list_eq. intros i. rewrite list_lookup_imap.
  destruct (decide (i = j)) as [->|Hne].
  - destruct (l !! j) as [x|] eqn:E; cbn [fmap option_fmap option_map].
    + rewrite Z.eqb_refl, list_lookup_insert_eq; [done|]. by eapply lookup_lt_Some.
    + rewrite lookup_ge_None_2; [done|]. rewrite length_insert. by apply lookup_ge_None_1.
  - rewrite list_lookup_insert_ne by done. destruct (l !! i); cbn; [|done]. by rewrite (proj2 (Z.eqb_neq _ _)) by lia.
Qed.

Lemma entries_len l : len (entries l) <= len l.
Proof. unfold len, entries. induction l as [|[x|] l IH]; [done|cbn [omap list_omap length]; lia..]. Qed.

Lemma remove_ok m l k : inv m l -> ordinary k -> steady m (ORemove k) = true ->
  ∃ m' l', remove m k = Ok m' /\ inv m' l' /\ entries l' = spec_remove (entries l) k.
Proof.
  intros Hinv Hk Hst. pose proof (inv_lookup m l k Hinv) as Hlk. pose proof Hinv as (He & Hm & Hi & Hn & Ho & Hl).
  destruct (keys_remove_ok (entries l) k Hn Ho) as [Hn' Ho']. unfold remove, updateOrderedMap. cbn [steady] in Hst. destruct (ImmMap.get (_map m) k None) as [u|].
  2: { destruct Hlk as [_ Hnin]. exists m, l. split_and!; [done|done|]. symmetry. by apply spec_absent. }
  destruct Hlk as (j & w & -> & Hj & Hv). destruct (entries_at l j k w Hj Hn) as (_ & _ & Hr). pose proof (lookup_lt_Some _ _ _ Hj) as Hjl.
  rewrite (exact_size _ _ He) in Hst |- *. destruct (_ && _).
  - rewrite (compacted_ok _ l) by done. rewrite Hr. set (o := spec_remove (entries l) k) in *. eexists _, (Some <$> o). split; [done|]. split; [|apply entries_some].
    destruct (positions_ok o Hn' Ho') as [Hpm Hpi].
    assert (Hlo : len o <= MAX_GROWTH) by (rewrite <- Hr; pose proof (entries_len (<[j := None]> l)) as Hle; unfold len in *; rewrite length_insert in Hle; lia).
    split_and!; rewrite ?entries_some; cbn [_map _list]; try done; [apply (exact_seq o emptyList [] exact_empty); done|by rewrite len_fmap].
  - cbn [orb] in Hst. destruct (Z.eqb_spec (Z.of_nat j) (len l - 1)) as [Elast|Elast].
    + cbn [negb orb] in Hst. assert (Ej : j = (length l - 1)%nat) by (unfold len in Elast; lia).
      assert (Hl' : entries (take (length l - 1) l) = spec_remove (entries l) k).
      { rewrite <- Hr. rewrite <- (take_drop_middle l j _ Hj) at 3. rewrite Ej, drop_ge by lia. rewrite insert_app_r_alt, length_take by (rewrite length_take; lia).
        replace (length l - 1 - min (length l - 1) (length l))%nat with O by lia. cbn. rewrite entries_app. cbn. by rewrite app_nil_r. }
      eexists _, (take (length l - 1) l). split; [done|]. split; [|done].
      split_and!; rewrite ?Hl'; cbn [_map _list]; [apply exact_pop; [done|by intros ->|done]|by apply map_remove_ok| |done|done|unfold len in *; rewrite length_take; lia].
      eapply (indexes_remove _ l _ k j w); try done. intros j' x. destruct (decide (j' < length l - 1)%nat).
      * rewrite lookup_take_lt by done. split; [intros; split; [lia|done]|tauto].
      * rewrite lookup_take_ge by lia. split; [done|]. intros [Hne Hx%lookup_lt_Some]. lia.
    + eexists _, (<[j := None]> l). split; [done|]. split; [|done].
      split_and!; rewrite ?Hr; cbn [_map _list]; [rewrite <- (Nat2Z.id j) at 2; apply exact_set; [done|unfold len; lia|done]|by apply map_remove_ok| |done|done|by unfold len in *; rewrite length_insert].
      eapply (indexes_remove _ l _ k j w); try done. intros j' x. destruct (decide (j' = j)) as [->|Hne].
      * rewrite list_lookup_insert_eq by done. split; [done|]. by intros [? _].
      * rewrite list_lookup_insert_ne by done. tauto.
Qed.

Lemma ordered_clear_ok m l : inv m l -> ∃ l', inv (clear m) l' /\ entries l' = [].
Proof.
  intros Hinv. pose proof Hinv as (_ & Hm & Hi & Hn & _). unfold clear, size. destruct (Z.eqb_spec (ImmMap.size (_map m)) 0) as [E|E].
  - exists l. split; [done|]. rewrite (indexes_size _ _ Hm Hi Hn) in E. by apply length_zero_iff_nil, Nat2Z.inj.
  - exists []. split; [apply inv_empty|done].
Qed.

Lemma op_ok m l o : inv m l -> op_ordinary o -> steady m o = true -> ∃ m' l', apply_op m o = Ok m' /\ inv m' l' /\ entries l' = spec_op (entries l) o.
Proof.
  intros Hinv Ho Hs. destruct o as [k v|k|]; cbn [apply_op spec_op op_ordinary] in *.
  - apply set_ok; [done|done|]. by apply Z.ltb_lt.
  - by apply remove_ok.
  - destruct (ordered_clear_ok m l Hinv) as (l' & Hl' & E). by exists (clear m), l'.
Qed.

Fixpoint all_steady (m : orderedMap) (os : list op) : bool :=
  match os with
  | [] => true
  | o :: os => steady m o && match apply_op m o with Ok m => all_steady m os | Throw _ => true end
  end.

Lemma run_ok os : ∀ m l, inv m l -> Forall op_ordinary os -> all_steady m os = true ->
  ∃ m' l', run m os = Ok m' /\ inv m' l' /\ entries l' = foldl spec_op (entries l) os.
Proof.
  induction os as [|o os IH]; intros m l Hinv Ho Hs; [by exists m, l|]. apply Forall_cons in Ho as [Ho1 Ho]. cbn [all_steady] in Hs. apply andb_true_iff in Hs as [Hs1 Hs].
  destruct (op_ok m l o Hinv Ho1 Hs1) as (m1 & l1 & E1 & H1 & El1). unfold run. cbn [foldR]. rewrite E1 in *. cbn [result_bind].
  destruct (IH m1 l1 H1 Ho Hs) as (m' & l' & E' & H' & El'). exists m', l'. split_and!; [exact E'|done|]. cbn [foldl]. by rewrite El', El1.
Qed.

Lemma inv_get m l k d : inv m l -> get m k d = Ok (match spec_get (entries l) k with Some v => Some v | None => d end).
Proof.
  intros Hinv. pose proof (inv_lookup m l k Hinv) as Hlk. destruct Hinv as (_ & _ & _ & Hn & _). unfold get. destruct (ImmMap.get (_map m) k None) as [u|].
  - destruct Hlk as (j & v & -> & Hj & ->). cbn [result_bind]. by rewrite (proj1 (entries_at l j k v Hj Hn)).
  - destruct Hlk as [_ Hnin]. by rewrite (proj1 (spec_absent _ k Hnin)).
Qed.
Lemma omap_direct t (l : list (option entry)) : omap (λ x, x) (direct t l) = direct t (entries l).
Proof.
  destruct t; [|done]. cbn [direct]. unfold entries. induction l as [|x l IH]; [done|]. rewrite reverse_cons, omap_app, IH.
  destruct x; cbn [omap list_omap]; [by rewrite reverse_cons|by rewrite app_nil_r].
Qed.

(** C4. The ordered map is an association list in the order of insertion: after
    any history of [set], [remove] and [clear] that does not cut its list of
    entries back across a block of 32, [size] is the number of entries, [get]
    returns the value of a key or the default, and iterating visits the entries
    once each, in the order in which their keys were first set, or backwards. No
    call throws. *)
Theorem ordered_refinement (os : list op) : Forall op_ordinary os -> all_steady emptyOrderedMap os = true ->
  ∃ m, run emptyOrderedMap os = Ok m /\
    let s := foldl spec_op [] os in
    size m = len s /\ (∀ k d, get m k d = Ok (match spec_get s k with Some v => Some v | None => d end)) /\
    (∀ t, iterate m t = direct t s).
Proof.
  intros Ho Hs. destruct (run_ok os emptyOrderedMap [] inv_empty Ho Hs) as (m & l & E & Hinv & El). change (entries []) with (@nil entry) in El. exists m. split; [done|].
  cbv zeta. rewrite <- El. pose proof Hinv as (He & Hm & Hi & Hn & _). split_and!.
  - by apply indexes_size.
  - intros k d. by apply inv_get.
  - intros t. unfold iterate. rewrite (exact_iterate _ l t He). apply omap_direct.
Qed.

End ordered.

(** A history with a compaction. *)
Definition sample_ops : list (@ImmOrdered.op Z) :=
  ImmOrdered.sets (seqZ 0 40) ++ ImmOrdered.removes (seqZ 5 25) ++ [ImmOrdered.OSet (ImmOrdered.num_key 3) 99] ++ ImmOrdered.sets [7; 41].

Lemma ordinary_num z : ImmMapOk.ordinary (ImmOrdered.num_key z).
Proof. intros [=]. Qed.
Lemma ordered_refinement_witness :
  ∃ m, ImmOrdered.run ImmOrdered.emptyOrderedMap sample_ops = Ok m /\
    let s := foldl spec_op [] sample_ops in
    ImmOrdered.size m = len s /\ (∀ k d, ImmOrdered.get m k d = Ok (match spec_get s k with Some v => Some v | None => d end)) /\
    (∀ t, ImmOrdered.iterate m t = direct t s).
Proof.
  apply (ordered_refinement sample_ops); [|vm_compute; reflexivity].
  unfold sample_ops, ImmOrdered.sets, ImmOrdered.removes. repeat (apply Forall_app; split); try (apply Forall_fmap, Forall_true; intros z; apply ordinary_num).
  apply Forall_cons; split; [apply ordinary_num|apply Forall_nil_2].
Defined.

(** The history that brings removed entries back is not one of these. *)
Example not_steady :
  all_steady ImmOrdered.emptyOrderedMap (ImmOrdered.sets (seqZ 0 65) ++ ImmOrdered.removes (reverse (seqZ 48 16)) ++ [ImmOrdered.ORemove (ImmOrdered.num_key 64)]) = false.
Proof. vm_compute. reflexivity. Qed.

End ImmOrderedOk.
