(* ===== verification/NextTick.v ===== *)
(** The browser shim of [process.nextTick] in the bundle
    (client/docs/swagger-ui/swagger-ui-bundle.js, lines 4702-4747): a queue of
    callbacks drained by timers, as a state machine.  Callbacks may schedule
    further callbacks and may throw. *)

From stdpp Require Import base list list_numbers numbers sets.
From Stdlib Require Import ZArith Lia.
From S2P Require Import Prelude.

Module NextTick.

(** Timers that are set: one that will call [d] or one that will call [p]. *)
Inductive timer := Drain | CleanUp (id : nat).

(** Where the program is: in the event loop, in the loop of [d] with bound
    [t] and timer [e], or inside a callback called from there. *)
Inductive control :=
  | Idle
  | Loop (t : Z) (e : nat)
  | Callback (t : Z) (e : nat).

(** The variables of the module ([l], [s], [c], [f]), the timers, the next
    timer id, and two ghost logs: the callbacks scheduled and those run, in
    order. *)
Record state := State {
  queue : list nat;
  currentQueue : option (list nat);
  draining : bool;
  queueIndex : Z;
  timers : list timer;
  nextId : nat;
  ctl : control;
  scheduled : list nat;
  ran : list nat
}.

Definition init : state := State [] None false (-1) [] 0 Idle [] [].

(** [o.nextTick(cb)] *)
Definition nextTick (x : nat) (st : state) : state :=
  let l := queue st ++ [x] in
  State l (currentQueue st) (draining st) (queueIndex st)
    (if negb (len l =? 1) || draining st then timers st else Drain :: timers st)
    (nextId st) (ctl st) (scheduled st ++ [x]) (ran st).

(** The head of the [for] loop of [d]: start on the queue, or end. *)
Definition loop_head (e : nat) (st : state) : state :=
  let t := len (queue st) in
  if t =? 0 then
    State (queue st) None false (queueIndex st)
      (List.filter (λ x, match x with CleanUp i => negb (i =? e)%nat | Drain => true end) (timers st))
      (nextId st) Idle (scheduled st) (ran st)
  else
    State [] (Some (queue st)) (draining st) (queueIndex st) (timers st) (nextId st) (Loop t e)
      (scheduled st) (ran st).

(** [d()] *)
Definition drainQueue (st : state) : state :=
  if draining st then st
  else
    let e := nextId st in
    loop_head e (State (queue st) (currentQueue st) true (queueIndex st) (CleanUp e :: timers st) (S e)
                   (ctl st) (scheduled st) (ran st)).

(** [p()] *)
Definition cleanUpNextTick (st : state) : state :=
  match draining st, currentQueue st with
  | true, Some s =>
      let l := if negb (len s =? 0) then s ++ queue st else queue st in
      let f := if negb (len s =? 0) then queueIndex st else -1 in
      let st := State l (currentQueue st) false f (timers st) (nextId st) (ctl st) (scheduled st) (ran st) in
      if negb (len l =? 0) then drainQueue st else st
  | _, _ => st
  end.

(** One round of the inner loop: [++f < t] and the call of [s[f].run()]. *)
Definition loop_round (t : Z) (e : nat) (st : state) : state :=
  let f := queueIndex st + 1 in
  if f <? t then
    match currentQueue st ≫= (λ s, arr_get s f) with
    | Some x => State (queue st) (currentQueue st) (draining st) f (timers st) (nextId st) (Callback t e)
                  (scheduled st) (ran st ++ [x])
    | None => State (queue st) (currentQueue st) (draining st) f (timers st) (nextId st) (Loop t e)
                (scheduled st) (ran st)
    end
  else
    loop_head e (State (queue st) (currentQueue st) (draining st) (-1) (timers st) (nextId st) Idle
                   (scheduled st) (ran st)).

Definition set_ctl (st : state) (k : control) : state :=
  State (queue st) (currentQueue st) (draining st) (queueIndex st) (timers st) (nextId st) k (scheduled st) (ran st).
Definition set_timers (st : state) (ts : list timer) : state :=
  State (queue st) (currentQueue st) (draining st) (queueIndex st) ts (nextId st) (ctl st) (scheduled st) (ran st).

(** The steps: code outside or inside a callback calls [nextTick], the
    callback returns or throws, the event loop fires a timer. *)
Inductive step : state -> state -> Prop :=
  | step_tick x st : (∀ t e, ctl st <> Loop t e) -> step st (nextTick x st)
  | step_round t e st : ctl st = Loop t e -> step st (loop_round t e st)
  | step_return t e st : ctl st = Callback t e -> step st (set_ctl st (Loop t e))
  | step_throw t e st : ctl st = Callback t e -> step st (set_ctl st Idle)
  | step_drain ts1 ts2 st : ctl st = Idle -> timers st = ts1 ++ Drain :: ts2 ->
      step st (drainQueue (set_timers st (ts1 ++ ts2)))
  | step_cleanup i ts1 ts2 st : ctl st = Idle -> timers st = ts1 ++ CleanUp i :: ts2 ->
      step st (cleanUpNextTick (set_timers st (ts1 ++ ts2))).

Inductive reachable : state -> Prop :=
  | reach_init : reachable init
  | reach_step st st' : reachable st -> step st st' -> reachable st'.

(** ** Every callback runs once, in order *)

(** The callbacks still to run. *)
Definition pending (st : state) : list nat :=
  match currentQueue st with
  | Some s => drop (Z.to_nat (queueIndex st + 1)) s
  | None => []
  end ++ queue st.

(** The invariant. *)
Definition ok (st : state) : Prop :=
  scheduled st = ran st ++ pending st /\ -1 <= queueIndex st /\
  match ctl st with
  | Idle =>
      if draining st then
        (∃ s, currentQueue st = Some s /\ 0 <= queueIndex st < len s) /\ (∃ i, CleanUp i ∈ timers st)
      else currentQueue st = None /\ queueIndex st = -1 /\ (queue st <> [] -> Drain ∈ timers st)
  | Loop t e =>
      draining st = true /\ (∃ s, currentQueue st = Some s /\ t = len s /\ queueIndex st < t) /\ CleanUp e ∈ timers st
  | Callback t e =>
      draining st = true /\ (∃ s, currentQueue st = Some s /\ t = len s /\ 0 <= queueIndex st < t) /\ CleanUp e ∈ timers st
  end.

Lemma nextTick_ok x st : (∀ t e, ctl st <> Loop t e) -> ok st -> ok (nextTick x st).
Proof.
  intros Hc (Hs & Hf & Hk). unfold ok, nextTick, pending in *. cbn.
  split_and!; [by rewrite Hs, <- !app_assoc|done|]. destruct (ctl st) as [|t e|t e].
  - destruct (draining st); cbn.
    + rewrite orb_true_r. done.
    + rewrite orb_false_r. destruct Hk as (? & ? & Hk). split_and!; [done|done|]. intros _.
      unfold len. rewrite length_app. cbn. destruct (Z.eqb_spec (Z.of_nat (length (queue st) + 1)) 1); [left|].
      cbn. apply Hk. intros E. rewrite E in n. cbn in n. lia.
  - by destruct (Hc t e).
  - destruct Hk as (-> & ? & ?). rewrite orb_true_r. done.
Qed.

Lemma drop_arr_get {A} (l : list A) i x : arr_get l i = Some x -> 0 <= i -> drop (Z.to_nat i) l = x :: drop (Z.to_nat (i + 1)) l.
Proof.
  unfold arr_get. intros E Hi. destruct (Z.leb_spec 0 i); [|lia]. replace (Z.to_nat (i + 1)) with (S (Z.to_nat i)) by lia.
  by apply drop_S.
Qed.

(** The head of the loop, when the batch under way is finished or there is
    none. *)
Lemma loop_head_ok e st : scheduled st = ran st ++ queue st -> queueIndex st = -1 -> draining st = true ->
  CleanUp e ∈ timers st -> ok (loop_head e st).
Proof.
  intros Hs Hf Hd Ht. unfold loop_head. destruct (Z.eqb_spec (len (queue st)) 0) as [E|E].
  - destruct (queue st) eqn:Eq; [|unfold len in E; cbn in E; lia]. unfold ok, pending. cbn. rewrite Hf. done.
  - unfold ok, pending. cbn. rewrite Hf. change (Z.to_nat (-1 + 1)) with 0%nat. rewrite drop_0, app_nil_r.
    split_and!; [done|lia|done| |done]. eexists. split_and!; [done|done|]. pose proof (len_nonneg (queue st)). lia.
Qed.

Lemma loop_round_ok t e st : ctl st = Loop t e -> ok st -> ok (loop_round t e st).
Proof.
  intros Hc (Hs & Hf & Hk). rewrite Hc in Hk. destruct Hk as (Hd & (s & Es & -> & Ht) & Hi).
  unfold loop_round. destruct (Z.ltb_spec (queueIndex st + 1) (len s)) as [Hlt|Hge].
  - rewrite Es. cbn. destruct (arr_get s (queueIndex st + 1)) as [x|] eqn:Ex.
    + unfold ok, pending in *. cbn. rewrite Es in *. rewrite (drop_arr_get _ _ _ Ex) in Hs by lia.
      split_and!; [by rewrite Hs, <- app_assoc|lia|done| |done]. eexists. split_and!; [done|done|lia|lia].
    + unfold arr_get in Ex. destruct (Z.leb_spec 0 (queueIndex st + 1)); [|lia]. apply lookup_ge_None in Ex.
      unfold len in *. lia.
  - apply loop_head_ok; cbn; [|done|done|done]. rewrite Hs. unfold pending. rewrite Es, drop_ge; [done|]. unfold len in *. lia.
Qed.

Lemma drain_queue_ok ts1 ts2 st : ctl st = Idle -> timers st = ts1 ++ Drain :: ts2 -> ok st ->
  ok (drainQueue (set_timers st (ts1 ++ ts2))).
Proof.
  intros Hc Ht (Hs & Hf & Hk). rewrite Hc in Hk. unfold drainQueue. cbn. destruct (draining st) eqn:Hd.
  - unfold ok, set_timers, pending in *. cbn. rewrite Hc, Hd. split_and!; [done|done|tauto|].
    destruct Hk as [_ [i Hi]]. exists i. rewrite Ht in Hi. set_solver.
  - destruct Hk as (En & Ef & _). apply loop_head_ok; cbn; [|done|done|set_solver].
    unfold pending in Hs. by rewrite En in Hs.
Qed.

Lemma cleanup_ok i ts1 ts2 st : ctl st = Idle -> timers st = ts1 ++ CleanUp i :: ts2 -> ok st ->
  ok (cleanUpNextTick (set_timers st (ts1 ++ ts2))).
Proof.
  intros Hc Ht (Hs & Hf & Hk). rewrite Hc in Hk. unfold cleanUpNextTick. cbn. destruct (draining st) eqn:Hd.
  - destruct Hk as [(s & Es & Hi) _]. rewrite Es. destruct (Z.eqb_spec (len s) 0); [lia|]. cbn.
    destruct (Z.eqb_spec (len (s ++ queue st)) 0); [rewrite len_app in *; pose proof (len_nonneg (queue st)); lia|].
    cbn. unfold drainQueue, loop_head. cbn. destruct (Z.eqb_spec (len (s ++ queue st)) 0); [done|].
    unfold ok, pending in *. cbn. rewrite Es in Hs. split_and!; [|done|done| |set_solver].
    + rewrite app_nil_r, drop_app_le by (unfold len in *; lia). done.
    + eexists. split_and!; [done|done|]. rewrite len_app. pose proof (len_nonneg (queue st)). lia.
  - destruct Hk as (En & Ef & Hq). unfold ok, set_timers, pending in *. cbn. rewrite Hc, Hd. split_and!; try done.
    intros Hne. specialize (Hq Hne). rewrite Ht in Hq. set_solver.
Qed.

Lemma reachable_ok st : reachable st -> ok st.
Proof.
  induction 1 as [|st st' _ IH Hstep].
  - unfold ok. cbn. split_and!; done.
  - destruct Hstep as [x st Hc|t e st Hc|t e st Hc|t e st Hc|ts1 ts2 st Hc Ht|i ts1 ts2 st Hc Ht].
    + by apply nextTick_ok.
    + by apply loop_round_ok.
    + destruct IH as (Hs & Hf & Hk). rewrite Hc in Hk. unfold ok, set_ctl, pending in *. cbn.
      split_and!; [done|done|tauto| |tauto]. destruct Hk as (_ & (s & ? & ? & ?) & _). exists s. split_and!; [done|done|lia].
    + destruct IH as (Hs & Hf & Hk). rewrite Hc in Hk. unfold ok, set_ctl, pending in *. cbn.
      destruct Hk as (-> & (s & ? & -> & ?) & ?). split_and!; eauto.
    + by apply drain_queue_ok.
    + by apply (cleanup_ok i).
Qed.

(** C13. No callback is lost, repeated or overtaken: in every reachable state
    the callbacks run so far followed by those still pending are exactly the
    ones scheduled, in order, also when callbacks schedule others or throw;
    and whenever callbacks are pending in the event loop a timer is set whose
    firing runs the first of them. *)
Theorem nextTick_fifo st : reachable st ->
  scheduled st = ran st ++ pending st /\
  (∀ x rest, ctl st = Idle -> pending st = x :: rest ->
     ∃ ts1 tm ts2, timers st = ts1 ++ tm :: ts2 /\
       let fired := match tm with Drain => drainQueue | CleanUp _ => cleanUpNextTick end (set_timers st (ts1 ++ ts2)) in
       step st fired /\ ∃ st', step fired st' /\ ran st' = ran st ++ [x]).
Proof.
  intros H. apply reachable_ok in H as Hok. assert (Hok' := Hok). destruct Hok' as (Hs & Hf & Hk). split; [done|].
  intros x rest Hc Hp. rewrite Hc in Hk. destruct (draining st) eqn:Hd.
  - destruct Hk as [(s & Es & Hi) [i Hin]]. apply list_elem_of_split in Hin as (ts1 & ts2 & Ht).
    exists ts1, (CleanUp i), ts2. split; [done|]. cbv zeta. split; [by apply (step_cleanup i)|].
    assert (Hnext : pending st = drop (Z.to_nat (queueIndex st + 1)) (s ++ queue st)).
    { unfold pending. rewrite Es, drop_app_le by (unfold len in *; lia). done. }
    unfold cleanUpNextTick. cbn. rewrite Hd, Es. destruct (Z.eqb_spec (len s) 0); [lia|]. cbn.
    destruct (Z.eqb_spec (len (s ++ queue st)) 0); [rewrite len_app in *; pose proof (len_nonneg (queue st)); lia|].
    cbn. unfold drainQueue, loop_head. cbn. destruct (Z.eqb_spec (len (s ++ queue st)) 0); [done|].
    rewrite Hp in Hnext. eexists. split; [by eapply step_round|]. unfold loop_round. cbn.
    assert (Eg : arr_get (s ++ queue st) (queueIndex st + 1) = Some x).
    { unfold arr_get. destruct (Z.leb_spec 0 (queueIndex st + 1)); [|lia].
      rewrite <- (Nat.add_0_r (Z.to_nat _)), <- lookup_drop, <- Hnext. done. }
    assert (queueIndex st + 1 < len (s ++ queue st)).
    { unfold arr_get in Eg. destruct (Z.leb_spec 0 (queueIndex st + 1)); [|lia]. apply lookup_lt_Some in Eg. unfold len. lia. }
    destruct (Z.ltb_spec (queueIndex st + 1) (len (s ++ queue st))); [|lia]. rewrite Eg. done.
  - destruct Hk as (En & Ef & Hq). unfold pending in Hp. rewrite En in Hp. cbn in Hp.
    assert (Hin : Drain ∈ timers st) by (apply Hq; by rewrite Hp). apply list_elem_of_split in Hin as (ts1 & ts2 & Ht).
    exists ts1, Drain, ts2. split; [done|]. cbv zeta. split; [by apply step_drain|].
    unfold drainQueue. cbn. rewrite Hd. unfold loop_head. cbn. rewrite Hp.
    destruct (Z.eqb_spec (len (x :: rest)) 0) as [E|E]; [rewrite len_cons in E; pose proof (len_nonneg rest); lia|].
    eexists. split; [by eapply step_round|]. unfold loop_round. cbn. rewrite Ef. cbn.
    destruct (Z.ltb_spec 0 (len (x :: rest))) as [|E']; [done|]. rewrite len_cons in E'. pose proof (len_nonneg rest). lia.
Qed.

Lemma nextTick_fifo_witness :
  let st := loop_round 1 0 (drainQueue (set_timers (nextTick 7 init) [])) in
  scheduled st = ran st ++ pending st /\ ran st = [7%nat].
Proof.
  cbv zeta. split; [|reflexivity]. apply nextTick_fifo.
  eapply reach_step; [|apply step_round; reflexivity].
  eapply reach_step; [|apply (step_drain [] []); reflexivity].
  eapply reach_step; [apply reach_init|apply step_tick; discriminate].
Defined.

End NextTick.
