(* ===== verification/Debounce.v ===== *)
(** lodash.debounce as bundled (client/docs/swagger-ui/swagger-ui-bundle.js,
    lines 41598-41687), which the page uses for the fields of its forms: calls
    are collected, and the function is called when there was no call for [wait]
    milliseconds (or, with [maxWait], when it was delayed for long enough).

    The state is the closure's variables; the world adds the clock, the timers
    that are set and the calls that were made of the function. A timer fires at
    any time after it is due, or never; the clock does not go back. The function
    does not call the debounced function in turn. *)

From stdpp Require Import base list list_numbers numbers strings gmap.
From Stdlib Require Import ZArith Lia.
From S2P Require Import Prelude.

Module Debounce.
Section debounce.
(** The arguments, the results and the function that is debounced; [None] for a
    call without arguments. *)
Context {A B : Type} (func : option A -> B).

(** ** Options *)

Record options := Options { opt_leading : bool; opt_maxWait : option Z; opt_trailing : option bool }.

Record config := Config { wait : Z; leading : bool; maxing : bool; maxWait : Z; trailing : bool }.

(** The options, for a wait that is a number; [r] may be missing. *)
Definition configure (t : Z) (r : option options) : config :=
  match r with
  | None => Config t false false 0 true
  | Some r => Config t (opt_leading r) (match opt_maxWait r with Some _ => true | None => false end)
                (match opt_maxWait r with Some m => Z.max m t | None => 0 end) (default true (opt_trailing r))
  end.

(** ** State *)

Record state := State {
  lastArgs : option A;
  result : option B;
  lastCallTime : option Z;
  lastInvokeTime : Z;
  timerId : option nat
}.

Record world := World {
  st : state;
  now : Z;
  timers : list (nat * Z);          (* the timers that are set, and when they are due *)
  fresh_id : nat;
  log : list (Z * option A)         (* the calls of the function *)
}.

Definition initial : world := World (State None None None 0 None) 0 [] 0 [].

Definition set_st (w : world) (s : state) : world := World s (now w) (timers w) (fresh_id w) (log w).

(** [s = setTimeout(timerExpired, d)] *)
Definition set_timer (w : world) (d : Z) : world :=
  World (State (lastArgs (st w)) (result (st w)) (lastCallTime (st w)) (lastInvokeTime (st w)) (Some (fresh_id w)))
    (now w) (timers w ++ [(fresh_id w, now w + Z.max 0 d)]) (S (fresh_id w)) (log w).
(** [clearTimeout(id)] *)
Definition clear_timer (w : world) (id : nat) : world :=
  World (st w) (now w) (filter (λ x, x.1 <> id) (timers w)) (fresh_id w) (log w).

Section configured.
Variable c : config.

(** ** The functions of the closure *)

Definition invokeFunc (w : world) (t : Z) : world * option B :=
  let n := lastArgs (st w) in
  let u := Some (func n) in
  (World (State None u (lastCallTime (st w)) t (timerId (st w))) (now w) (timers w) (fresh_id w) (log w ++ [(t, n)]), u).

Definition shouldInvoke (w : world) (e : Z) : bool :=
  match lastCallTime (st w) with
  | None => true
  | Some l => let n := e - l in
      (wait c <=? n) || (n <? 0) || (maxing c && (maxWait c <=? e - lastInvokeTime (st w)))
  end.

Definition remainingWait (w : world) (e : Z) : Z :=
  let n := wait c - (e - default 0 (lastCallTime (st w))) in
  if maxing c then Z.min n (maxWait c - (e - lastInvokeTime (st w))) else n.

Definition no_timer (s : state) : state := State (lastArgs s) (result s) (lastCallTime s) (lastInvokeTime s) None.
Definition no_args (s : state) : state := State None (result s) (lastCallTime s) (lastInvokeTime s) (timerId s).

Definition trailingEdge (w : world) (e : Z) : world * option B :=
  let w := set_st w (no_timer (st w)) in
  match lastArgs (st w) with
  | Some _ => if trailing c then invokeFunc w e else (set_st w (no_args (st w)), result (st w))
  | None => (set_st w (no_args (st w)), result (st w))
  end.

Definition timerExpired (w : world) : world :=
  let e := now w in
  if shouldInvoke w e then (trailingEdge w e).1 else set_timer w (remainingWait w e).

Definition leadingEdge (w : world) (e : Z) : world * option B :=
  let s := st w in
  let w := set_timer (set_st w (State (lastArgs s) (result s) (lastCallTime s) e (timerId s))) (wait c) in
  if leading c then invokeFunc w e else (w, result (st w)).

Definition debounced (w : world) (a : A) : world * option B :=
  let e := now w in
  let n := shouldInvoke w e in
  let w := set_st w (State (Some a) (result (st w)) (Some e) (lastInvokeTime (st w)) (timerId (st w))) in
  let rest := match timerId (st w) with
              | None => let w := set_timer w (wait c) in (w, result (st w))
              | Some _ => (w, result (st w))
              end in
  if n then
    match timerId (st w) with
    | None => leadingEdge w e
    | Some _ => if maxing c then invokeFunc (set_timer w (wait c)) e else rest
    end
  else rest.

Definition cancel (w : world) : world :=
  let w := match timerId (st w) with Some id => clear_timer w id | None => w end in
  set_st w (State None (result (st w)) None 0 None).

Definition flush (w : world) : world * option B :=
  match timerId (st w) with None => (w, result (st w)) | Some _ => trailingEdge w (now w) end.

(** ** Steps *)

Inductive event := Call (a : A) | Cancel | Flush | Tick (d : Z) | Fire (id : nat).

Definition due (w : world) (id : nat) : bool := existsb (λ x, bool_decide (x.1 = id) && (x.2 <=? now w)) (timers w).

Definition step (w : world) (ev : event) : option world :=
  match ev with
  | Call a => Some (debounced w a).1
  | Cancel => Some (cancel w)
  | Flush => Some (flush w).1
  | Tick d => if 0 <=? d then Some (World (st w) (now w + d) (timers w) (fresh_id w) (log w)) else None
  | Fire id => if due w id then Some (timerExpired (clear_timer w id)) else None
  end.

Fixpoint run (w : world) (es : list event) : option world :=
  match es with [] => Some w | ev :: es => match step w ev with Some w => run w es | None => None end end.

Inductive reachable : world -> Prop :=
  | reachable_initial : reachable initial
  | reachable_next w ev w' : reachable w -> step w ev = Some w' -> reachable w'.


(** ** The invariant *)

(** The timers: each once, and due at most [wait] from now. *)
Definition timers_ok (w : world) : Prop :=
  NoDup (timers w).*1 /\ Forall (λ x, (x.1 < fresh_id w)%nat /\ x.2 <= now w + wait c) (timers w).

(** The timer of the closure is set; arguments that wait have a timer that is
    due at most [wait] after the last call. *)
Definition inv (w : world) : Prop :=
  timers_ok w /\ (∀ id, timerId (st w) = Some id -> id ∈ (timers w).*1) /\ (∀ l, lastCallTime (st w) = Some l -> l <= now w) /\
  (lastArgs (st w) <> None -> ∃ l id d, lastCallTime (st w) = Some l /\ timerId (st w) = Some id /\ (id, d) ∈ timers w /\ d <= l + wait c).

Hypothesis wait_nonneg : 0 <= wait c.

Lemma initial_inv : inv initial.
Proof. unfold inv, timers_ok. cbn. split_and!; try done. apply NoDup_nil_2. Qed.

Lemma fresh_timer w : timers_ok w -> fresh_id w ∉ (timers w).*1.
Proof. intros [_ Hf] Hin. apply list_elem_of_fmap in Hin as ([id d] & E & Hin). rewrite Forall_forall in Hf. specialize (Hf _ Hin). cbn in *. lia. Qed.

(** Setting a timer, when nothing is due later than it may be. *)
Lemma set_timer_ok w x : timers_ok w -> x <= wait c -> timers_ok (set_timer w x).
Proof.
  intros Hok Hx. pose proof (fresh_timer w Hok). destruct Hok as [Hn Hf]. unfold timers_ok, set_timer. cbn. split.
  - rewrite fmap_app. apply NoDup_app. split_and!; [done| |cbn; apply NoDup_singleton].
    intros id Hin Hin'. cbn in Hin'. apply list_elem_of_singleton in Hin'. by subst id.
  - apply Forall_app. split; [|apply Forall_singleton; cbn; lia]. eapply Forall_impl; [exact Hf|]. cbn. lia.
Qed.
Lemma set_timer_inv w x l : timers_ok w -> lastCallTime (st w) = Some l -> l <= now w -> 0 <= x -> now w + x <= l + wait c -> inv (set_timer w x).
Proof.
  intros Hok Hl Hlt Hx Hd. unfold inv. split; [apply set_timer_ok; [done|lia]|]. cbn. split_and!.
  - intros id [= <-]. rewrite fmap_app. apply elem_of_app. right. cbn. by apply list_elem_of_singleton.
  - intros l'. rewrite Hl. by intros [= <-].
  - intros _. exists l, (fresh_id w), (now w + Z.max 0 x). split_and!; [done|done|apply elem_of_app; right; by apply list_elem_of_singleton|lia].
Qed.

(** Nothing is waiting. *)
Lemma idle_inv w : timers_ok w -> (∀ id, timerId (st w) = Some id -> id ∈ (timers w).*1) ->
  (∀ l, lastCallTime (st w) = Some l -> l <= now w) -> lastArgs (st w) = None -> inv w.
Proof. intros ? ? ? Ha. unfold inv. by split_and!. Qed.
Lemma invoke_inv w t : inv w -> inv (invokeFunc w t).1.
Proof. intros (Hok & Hid & Hl & _). by apply idle_inv. Qed.
Lemma trailing_inv w e : timers_ok w -> (∀ l, lastCallTime (st w) = Some l -> l <= now w) -> inv (trailingEdge w e).1.
Proof.
  intros Hok Hl. unfold trailingEdge. cbn [lastArgs st set_st no_timer]. destruct (lastArgs (st w)); [destruct (trailing c)|]; by apply idle_inv.
Qed.

Lemma clear_timer_ok w id : timers_ok w -> timers_ok (clear_timer w id).
Proof.
  intros [Hn Hf]. split; [|rewrite Forall_forall in *; intros x [_ Hx]%list_elem_of_filter; by apply Hf]. clear Hf. cbn. induction (timers w) as [|[i d] ts IH]; [done|]. cbn [fmap list_fmap fst] in Hn.
  apply NoDup_cons in Hn as [Hi Hn]. rewrite filter_cons. destruct (decide _); [|by apply IH]. cbn. apply NoDup_cons. split; [|by apply IH].
  intros Hin. apply Hi. apply list_elem_of_fmap in Hin as (y & Ey & Hy%list_elem_of_filter). apply list_elem_of_fmap. exists y. tauto.
Qed.
Lemma tick_ok w d : 0 <= d -> timers_ok w -> timers_ok (World (st w) (now w + d) (timers w) (fresh_id w) (log w)).
Proof. intros Hd [Hn Hf]. split; [done|]. cbn. eapply Forall_impl; [exact Hf|]. cbn. lia. Qed.

Lemma not_due w e l : lastCallTime (st w) = Some l -> l <= e -> shouldInvoke w e = false ->
  0 <= remainingWait w e /\ e + remainingWait w e <= l + wait c.
Proof.
  intros Hl Hle. unfold shouldInvoke, remainingWait. rewrite Hl. change (default 0 (Some l)) with l. rewrite !orb_false_iff, andb_false_iff.
  intros [[H1%Z.leb_gt _] H2]. destruct (maxing c); [|lia]. destruct H2 as [|H2%Z.leb_gt]; [done|lia].
Qed.

Lemma call_inv w a : inv w -> inv (debounced w a).1.
Proof.
  intros (Hok & Hid & Hl & Ha). unfold debounced. set (w1 := set_st w _).
  assert (Hset : inv (set_timer w1 (wait c))) by (apply (set_timer_inv w1 _ (now w)); cbn; done || lia).
  assert (Hrest : ∀ id, timerId (st w) = Some id -> inv w1).
  { intros id Ht. unfold inv. cbn. split_and!; [done|done|intros l [= <-]; lia|]. intros _. specialize (Hid id Ht).
    apply list_elem_of_fmap in Hid as ([id' d] & -> & Hin). exists (now w), id', d. split_and!; try done.
    destruct Hok as [_ Hf]. rewrite Forall_forall in Hf. by destruct (Hf _ Hin). }
  cbn [timerId st set_st w1]. destruct (timerId (st w)) as [id|] eqn:Et.
  - specialize (Hrest id eq_refl). destruct (shouldInvoke w (now w)), (maxing c); cbn [fst]; try done. by apply invoke_inv.
  - destruct (shouldInvoke w (now w)); [|done]. unfold leadingEdge. set (w2 := set_timer _ _).
    assert (H2 : inv w2) by (apply (set_timer_inv _ _ (now w)); cbn; done || lia). destruct (leading c); [by apply invoke_inv|done].
Qed.

Lemma fire_inv w id : inv w -> inv (timerExpired (clear_timer w id)).
Proof.
  intros (Hok & Hid & Hl & Ha). unfold timerExpired. pose proof (clear_timer_ok w id Hok) as Hok'. destruct (shouldInvoke _ _) eqn:E; [by apply trailing_inv|].
  destruct (lastCallTime (st w)) as [l|] eqn:El; [|unfold shouldInvoke in E; cbn in E; by rewrite El in E].
  specialize (Hl l eq_refl). destruct (not_due (clear_timer w id) (now w) l El Hl E). apply (set_timer_inv _ _ l); cbn; done || lia.
Qed.

Lemma step_inv w ev w' : inv w -> step w ev = Some w' -> inv w'.
Proof.
  intros Hw H. pose proof Hw as (Hok & Hid & Hl & Ha). destruct ev as [a| | |d|id]; cbn [step] in H.
  - injection H as <-. by apply call_inv.
  - injection H as <-. unfold cancel. apply idle_inv; try done. destruct (timerId (st w)); [by apply (clear_timer_ok w)|done].
  - injection H as <-. unfold flush. destruct (timerId (st w)); [by apply trailing_inv|done].
  - destruct (Z.leb_spec 0 d); [|done]. injection H as <-. split_and!; [by apply tick_ok|done| |done]. cbn. intros l E. specialize (Hl l E). lia.
  - destruct (due w id); [|done]. injection H as <-. by apply fire_inv.
Qed.
Lemma reachable_inv w : reachable w -> inv w.
Proof. induction 1; [apply initial_inv|by eapply step_inv]. Qed.

(** ** When the function is called *)

(** Steps of the clock and the timers. *)
Definition passive (ev : event) : bool := match ev with Tick _ | Fire _ => true | _ => false end.

Lemma should_invoke_due w e l : lastCallTime (st w) = Some l -> l <= e -> maxing c = false -> shouldInvoke w e = true -> l + wait c <= e.
Proof.
  intros Hl Hle Hm. unfold shouldInvoke. rewrite Hl, Hm. cbn [andb]. rewrite orb_false_r, orb_true_iff. intros [?%Z.leb_le | ?%Z.ltb_lt]; lia.
Qed.
Lemma overdue w l : lastCallTime (st w) = Some l -> l + wait c <= now w -> shouldInvoke w (now w) = true.
Proof. intros Hl Hle. unfold shouldInvoke. rewrite Hl, (proj2 (Z.leb_le (wait c) _)) by lia. done. Qed.

(** With nothing waiting, nothing happens. *)
Lemma idle_step w ev w' : lastArgs (st w) = None -> passive ev = true -> step w ev = Some w' -> lastArgs (st w') = None /\ log w' = log w.
Proof.
  intros Ha Hp H. destruct ev as [| | |d|id]; try done; cbn [step] in H.
  - destruct (0 <=? d); [|done]. by injection H as <-.
  - destruct (due w id); [|done]. injection H as <-. unfold timerExpired. destruct (shouldInvoke _ _); [|done].
    unfold trailingEdge. cbn [lastArgs st set_st no_timer clear_timer]. by rewrite Ha.
Qed.
Lemma idle_run w ps w' : lastArgs (st w) = None -> forallb passive ps = true -> run w ps = Some w' -> lastArgs (st w') = None /\ log w' = log w.
Proof.
  revert w. induction ps as [|ev ps IH]; intros w Ha Hp H; cbn in *; [by injection H as <-|]. apply andb_true_iff in Hp as [Hev Hp].
  destruct (step w ev) as [w1|] eqn:E; [|done]. destruct (idle_step w ev w1 Ha Hev E) as [Ha1 <-]. by apply IH.
Qed.

(** With arguments waiting, they wait on or are answered now. *)
Lemma waiting_step w ev w' a : trailing c = true -> lastArgs (st w) = Some a -> passive ev = true -> step w ev = Some w' ->
  now w <= now w' /\
  (lastArgs (st w') = Some a /\ lastCallTime (st w') = lastCallTime (st w) /\ log w' = log w \/
   lastArgs (st w') = None /\ now w' = now w /\ log w' = log w ++ [(now w, Some a)]).
Proof.
  intros Ht Ha Hp H. destruct ev as [| | |d|id]; try done; cbn [step] in H.
  - destruct (Z.leb_spec 0 d); [|done]. injection H as <-. cbn. split; [lia|]. by left.
  - destruct (due w id); [|done]. injection H as <-. unfold timerExpired. destruct (shouldInvoke _ _); [|by split; [done|left]].
    unfold trailingEdge. cbn [lastArgs st set_st no_timer clear_timer]. rewrite Ha, Ht. cbn. split; [done|]. right. by rewrite Ha.
Qed.
Lemma waiting_run w ps w' a : trailing c = true -> lastArgs (st w) = Some a -> forallb passive ps = true -> run w ps = Some w' ->
  now w <= now w' /\
  (lastArgs (st w') = Some a /\ lastCallTime (st w') = lastCallTime (st w) /\ log w' = log w \/
   lastArgs (st w') = None /\ ∃ t, now w <= t <= now w' /\ log w' = log w ++ [(t, Some a)]).
Proof.
  intros Ht. revert w. induction ps as [|ev ps IH]; intros w Ha Hp H; cbn in *; [injection H as <-; split; [done|by left]|].
  apply andb_true_iff in Hp as [Hev Hp]. destruct (step w ev) as [w1|] eqn:E; [|done].
  destruct (waiting_step w ev w1 a Ht Ha Hev E) as [Hle [(Ha1 & Hl1 & Hg1)|(Ha1 & Hn & Hg1)]].
  - destruct (IH w1 Ha1 Hp H) as [Hle' [(Ha2 & Hl2 & Hg2)|(Ha2 & t & Ht2 & Hg2)]]; (split; [lia|]).
    + left. split_and!; [done|congruence|congruence].
    + right. split; [done|]. exists t. split; [lia|congruence].
  - destruct (idle_run w1 ps w' Ha1 Hp H) as [Ha2 Hg2]. assert (Hle' : now w1 <= now w').
    { clear -Hp H. revert w1 H. induction ps as [|ev ps IH]; intros w1 H; cbn in *; [by injection H as <-|]. apply andb_true_iff in Hp as [Hev Hp].
      destruct (step w1 ev) as [w2|] eqn:E; [|done]. assert (now w1 <= now w2); [|specialize (IH Hp w2 H); lia]. destruct ev as [| | |d|id]; try done; cbn [step] in E.
      - destruct (Z.leb_spec 0 d); [|done]. injection E as <-. cbn. lia.
      - destruct (due w1 id); [|done]. injection E as <-. unfold timerExpired. destruct (shouldInvoke _ _); [|done]. unfold trailingEdge.
        destruct (lastArgs _); [destruct (trailing c)|]; done. }
    split; [lia|]. right. split; [done|]. exists (now w). split; [lia|congruence].
Qed.

Lemma filter_absent (ts : list (nat * Z)) (id : nat) : id ∉ ts.*1 -> filter (λ x, x.1 <> id) ts = ts.
Proof.
  induction ts as [|[i d] ts IH]; intros Hid; [done|]. cbn [fmap list_fmap fst] in Hid. apply not_elem_of_cons in Hid as [Hne Hid].
  rewrite filter_cons, decide_True by (cbn; congruence). by rewrite IH.
Qed.
(** The timers run out once they are all due. *)
Lemma drain w : NoDup (timers w).*1 -> (∀ x, x ∈ timers w -> x.2 <= now w) -> (∀ l, lastCallTime (st w) = Some l -> l + wait c <= now w) ->
  ∃ w', run w (Fire <$> (timers w).*1) = Some w' /\ timers w' = [].
Proof.
  remember (timers w) as ts eqn:Ets. revert w Ets. induction ts as [|[id d] ts IH]; intros w Ets Hn Hd Hl; [by exists w|].
  cbn [fmap list_fmap fst] in *. apply NoDup_cons in Hn as [Hid Hn]. cbn [run step].
  assert (Hdue : due w id = true).
  { unfold due. rewrite <- Ets. cbn [existsb fst snd]. rewrite bool_decide_true by done. by rewrite (proj2 (Z.leb_le d (now w)) (Hd (id, d) ltac:(left))). }
  rewrite Hdue. set (w0 := clear_timer w id).
  assert (Ht0 : timers w0 = ts).
  { cbn. rewrite <- Ets, filter_cons. rewrite decide_False by naive_solver. by apply filter_absent. }
  assert (Hs : shouldInvoke w0 (now w0) = true).
  { destruct (lastCallTime (st w)) as [l|] eqn:El; [by apply (overdue w0 l El), Hl|]. unfold shouldInvoke. cbn. by rewrite El. }
  unfold timerExpired. rewrite Hs. set (w1 := (trailingEdge w0 (now w0)).1).
  assert (E1 : timers w1 = ts /\ now w1 = now w /\ lastCallTime (st w1) = lastCallTime (st w)).
  { rewrite <- Ht0. unfold w1, trailingEdge. destruct (lastArgs _); [destruct (trailing c)|]; done. }
  destruct E1 as (Et1 & En1 & El1). apply (IH w1); [done|done| |by rewrite El1, En1]. rewrite En1. intros x Hx. apply Hd. by right.
Qed.

(** C34. A call of a debounced function is answered: the timers that are set can
    always run out, and once [wait] has passed since the call and no timer is
    left to fire, the function has been called exactly once since, with the
    arguments of that call, whatever was waiting before, however late the
    timers fired and whichever options are set (with [trailing] on). *)
Theorem debounce_answers w a : reachable w -> trailing c = true -> let w1 := (debounced w a).1 in
  (∃ ps w', forallb passive ps = true /\ run w1 ps = Some w' /\ timers w' = []) /\
  ∀ ps w', forallb passive ps = true -> run w1 ps = Some w' -> now w + wait c <= now w' -> (∀ x, x ∈ timers w' -> now w' < x.2) ->
    lastArgs (st w') = None /\ ∃ t, now w <= t <= now w' /\ log w' = log w ++ [(t, Some a)].
Proof.
  intros Hw%reachable_inv Ht w1. pose proof (call_inv w a Hw) as Hw1. pose proof Hw1 as ([Hn Hf] & _ & Hl1 & Ha1). fold w1 in Hn, Hf, Hl1, Ha1.
  assert (Hnow : now w1 = now w /\ lastCallTime (st w1) = Some (now w) /\
    (lastArgs (st w1) = Some a /\ log w1 = log w \/ lastArgs (st w1) = None /\ log w1 = log w ++ [(now w, Some a)])).
  { unfold w1, debounced, leadingEdge. cbn [timerId st set_st]. destruct (timerId (st w)), (shouldInvoke w (now w)), (maxing c), (leading c); cbn; auto 6. }
  destruct Hnow as (Hnow & Hcall & Hans). split.
  - destruct (drain (World (st w1) (now w1 + wait c) (timers w1) (fresh_id w1) (log w1))) as (w' & Hr & Ht'); cbn [timers now st]; [done| | |].
    + rewrite Forall_forall in Hf. intros x Hx. by apply Hf.
    + intros l E. rewrite Hcall in E. injection E as <-. lia.
    + exists (Tick (wait c) :: (Fire <$> (timers w1).*1)), w'. split_and!; [|by cbn; rewrite (proj2 (Z.leb_le 0 _))|done].
      cbn. clear. induction (timers w1).*1; cbn; done.
  - intros ps w' Hps Hr Hwait Hdue. destruct Hans as [[Ha Hg]|[Ha Hg]].
    + assert (Hinv' : inv w').
      { clear -Hw1 Hr wait_nonneg. fold w1 in Hw1. revert Hw1 Hr. generalize w1. induction ps as [|ev ps IH]; intros w0 H0 Hr; cbn in Hr; [by injection Hr as <-|].
        destruct (step w0 ev) as [w2|] eqn:E; [|done]. by apply (IH w2); [eapply step_inv|]. }
      destruct (waiting_run w1 ps w' a Ht Ha Hps Hr) as [Hle [(Ha' & Hl' & _)|(Ha' & t & Ht' & Hg')]].
      * destruct Hinv' as (_ & _ & _ & Hpend). destruct Hpend as (l & id & d & El & _ & Hin & Hd); [by rewrite Ha'|].
        rewrite Hl', Hcall in El. injection El as <-. specialize (Hdue _ Hin). cbn in Hdue. lia.
      * split; [done|]. exists t. split; [lia|]. by rewrite Hg', Hg.
    + destruct (idle_run w1 ps w' Ha Hps Hr) as [Ha' Hg']. split; [done|]. exists (now w). split; [lia|]. by rewrite Hg', Hg.
Qed.


(** C35. Without [leading] and [maxWait], the function is called only when
    [flush] asks for it or when at least [wait] has passed since the last call,
    by a timer; it gets the arguments of the last call, each once. *)
Theorem debounce_quiet w ev w' : reachable w -> leading c = false -> maxing c = false -> step w ev = Some w' ->
  log w' = log w \/
  ∃ a, lastArgs (st w) = Some a /\ log w' = log w ++ [(now w, Some a)] /\ lastArgs (st w') = None /\
    (ev = Flush \/ ∃ id l, ev = Fire id /\ lastCallTime (st w) = Some l /\ l + wait c <= now w).
Proof.
  intros (_ & _ & Hl & Hwait)%reachable_inv Hlead Hmax H. destruct ev as [a| | |d|id]; cbn [step] in H.
  - injection H as <-. left. unfold debounced, leadingEdge. cbn [timerId st set_st]. rewrite Hlead, Hmax. by destruct (timerId (st w)), (shouldInvoke w (now w)).
  - injection H as <-. left. unfold cancel. by destruct (timerId (st w)).
  - injection H as <-. unfold flush, trailingEdge. destruct (timerId (st w)); [|by left]. cbn [lastArgs st set_st no_timer]. destruct (lastArgs (st w)) as [a|] eqn:Ea; [|by left].
    destruct (trailing c); [|by left]. right. exists a. cbn. rewrite ?Ea. split_and!; try done. by left.
  - destruct (0 <=? d); [|done]. injection H as <-. by left.
  - destruct (due w id); [|done]. injection H as <-. unfold timerExpired. destruct (shouldInvoke _ _) eqn:E; [|by left]. unfold trailingEdge. cbn [lastArgs st set_st no_timer clear_timer].
    destruct (lastArgs (st w)) as [a|] eqn:Ea; [|by left]. destruct (trailing c); [|by left]. right. exists a. cbn. rewrite ?Ea. split_and!; try done. right.
    destruct Hwait as (l & _ & _ & Hlc & _); [by rewrite ?Ea|]. exists id, l. split_and!; try done. by apply (should_invoke_due (clear_timer w id) (now w) l Hlc (Hl l Hlc) Hmax).
Qed.

End configured.
End debounce.
Arguments Options : clear implicits.

Example debounce_ex :
  let c := configure 100 None in
  let run := run (A := Z) (B := unit) (λ _, tt) c initial in
  log <$> run [Call 1; Tick 50; Call 2; Tick 50; Fire 0; Tick 60; Fire 1] = Some [(160, Some 2)] /\
  log <$> run [Call 1; Cancel; Tick 200] = Some [] /\ run [Call 1; Tick 99; Fire 0] = None /\
  log <$> run [Call 1; Tick 10; Flush; Tick 90; Fire 0] = Some [(10, Some 1)].
Proof. vm_compute. repeat split. Qed.

(** The page waits for 100 milliseconds; a call at 0 is waiting at 60. *)
Definition sample_config : config := configure 100 None.
Definition sample_world : @world Z unit := default initial (run (λ _, tt) sample_config initial [Call 1; Tick 60]).
Lemma sample_reachable : reachable (λ _, tt) sample_config sample_world.
Proof.
  apply (reachable_next _ _ (default initial (run (λ _, tt) sample_config initial [Call 1])) (Tick 60)); [|done].
  apply (reachable_next _ _ initial (Call 1)); [constructor|done].
Qed.

Lemma debounce_answers_witness :
  let w' := default initial (run (λ _, tt) sample_config (debounced (λ _, tt) sample_config sample_world 2).1 [Tick 100; Fire 0]) in
  log w' = [(160, Some 2)] /\ lastArgs (st w') = None /\ ∃ t, 60 <= t <= 160 /\ log w' = [] ++ [(t, Some 2)].
Proof.
  split; [done|]. apply (debounce_answers (λ _, tt) sample_config ltac:(done) sample_world 2 sample_reachable eq_refl) with (ps := [Tick 100; Fire 0]); [done|done|done|].
  intros x Hx. by apply not_elem_of_nil in Hx.
Defined.

Lemma debounce_quiet_witness :
  let w := default initial (run (λ _, tt) sample_config sample_world [Tick 40]) in
  let w' := default initial (run (λ _, tt) sample_config sample_world [Tick 40; Fire 0]) in
  log w' = log w \/ ∃ a, lastArgs (st w) = Some a /\ log w' = log w ++ [(now w, Some a)] /\ lastArgs (st w') = None /\
    (@Fire Z 0 = Flush \/ ∃ id l, @Fire Z 0 = Fire id /\ lastCallTime (st w) = Some l /\ l + 100 <= now w).
Proof.
  intros w w'. apply (debounce_quiet (λ _, tt) sample_config ltac:(done) w (Fire 0) w'); try done.
  apply (reachable_next _ _ sample_world (Tick 40)); [apply sample_reachable|done].
Defined.

End Debounce.
