(* ===== verification/Reselect.v ===== *)
(** Memoized selectors of the bundle, [reselect]
    (client/docs/swagger-ui/swagger-ui-bundle.js, lines 4764-4838). *)

From stdpp Require Import base list list_numbers numbers.
From Stdlib Require Import ZArith Lia.
From S2P Require Import Prelude ImmHash ImmMap.

Module Reselect.
Section reselect.
Context {A R S : Type} `{StrictEq A}.

(** The variables [n] and [o] of a memoized function: the last arguments and
    their result, both null until the first call returns. *)
Definition memo : Type := option (list A * R).
Definition fresh_memo : memo := None.

(** [n.length === i.length && i.every((e, r) => t(e, n[r]))] *)
Fixpoint every_same (i n : list A) : bool :=
  match i, n with
  | [], [] => true
  | e :: i, e' :: n => same e e' && every_same i n
  | _, _ => false
  end.

Definition hit (m : memo) (i : list A) : option R :=
  match m with Some (n, o) => if every_same i n then Some o else None | None => None end.

(** A call of [defaultMemoize(e)]; [e] may throw, and then nothing is
    stored.  The flag tells whether [e] was called. *)
Definition memoized (e : list A -> result R) (m : memo) (i : list A) : result R * memo * bool :=
  match hit m i with
  | Some o => (Ok o, Some (i, o), false)
  | None =>
      match e i with
      | Ok o => (Ok o, Some (i, o), true)
      | Throw x => (Throw x, m, true)
      end
  end.

(** A selector: its memo and its count [i] of recomputations. *)
Record selector := Selector { cache : memo; recomputations : Z }.
Definition createSelector : selector := Selector fresh_memo 0.

(** A call of the selector on the state [s] with input selectors [u] and
    result function [a]. *)
Definition select (u : list (S -> A)) (a : list A -> result R) (l : selector) (s : S) : result R * selector :=
  let i := (λ n, n s) <$> u in
  let '(r, m, called) := memoized a (cache l) i in
  (r, Selector m (if called then recomputations l + 1 else recomputations l)).

Definition resetRecomputations (l : selector) : selector := Selector (cache l) 0.

(** [createStructuredSelector]: the object with the values under the keys. *)
Definition structured_result (n : list (list Z)) (t : list A) : result (list (list Z * A)) := Ok (zip n t).

(** A sequence of calls. *)
Fixpoint select_all (u : list (S -> A)) (a : list A -> result R) (l : selector) (ss : list S) : list (result R) * selector :=
  match ss with
  | [] => ([], l)
  | s :: ss =>
      let '(r, l) := select u a l s in
      let '(rs, l) := select_all u a l ss in
      (r :: rs, l)
  end.

(** ** Memoization is transparent *)

Lemma every_same_eq i n : every_same i n = true -> i = n.
Proof.
  revert n. induction i as [|e i IH]; intros [|e' n]; cbn; try done.
  intros [E1 E2]%andb_prop. apply same_eq in E1 as ->. f_equal. auto.
Qed.

(** The memo holds the result of its arguments. *)
Definition memo_ok (a : list A -> result R) (m : memo) : Prop :=
  match m with None => True | Some (i, o) => a i = Ok o end.

Lemma memoized_ok a m i : memo_ok a m ->
  let '(r, m', called) := memoized a m i in
  r = a i /\ memo_ok a m' /\ called = negb (match fst <$> m with Some n => every_same i n | None => false end) /\
  fst <$> m' = match a i with Ok _ => Some i | Throw _ => fst <$> m end.
Proof.
  intros Hm. unfold memoized, hit. destruct m as [[n o]|]; cbn.
  - destruct (every_same i n) eqn:E; [apply every_same_eq in E as ->; cbn in Hm; by rewrite Hm|].
    destruct (a i) as [o'|x] eqn:Ea; done.
  - destruct (a i) as [o'|x] eqn:Ea; done.
Qed.

(** The number of recomputations of a sequence of inputs: a call recomputes
    unless its inputs are the ones last stored. *)
Fixpoint misses (a : list A -> result R) (last : option (list A)) (ins : list (list A)) : Z :=
  match ins with
  | [] => 0
  | i :: ins =>
      (if match last with Some n => every_same i n | None => false end then 0 else 1)
      + misses a (match a i with Ok _ => Some i | Throw _ => last end) ins
  end.

Lemma select_all_ok u a l ss : memo_ok a (cache l) ->
  let '(rs, l') := select_all u a l ss in
  rs = (λ s, a ((λ n, n s) <$> u)) <$> ss /\
  recomputations l' = recomputations l + misses a (fst <$> cache l) ((λ s, (λ n, n s) <$> u) <$> ss).
Proof.
  revert l. induction ss as [|s ss IH]; intros l Hl; cbn [select_all]; [split; [done|cbn; lia]|].
  unfold select. assert (M := memoized_ok a (cache l) ((λ n, n s) <$> u) Hl).
  destruct (memoized a (cache l) _) as [[r m] called]. destruct M as (-> & Hm & -> & El).
  set (l1 := Selector m _). specialize (IH l1 Hm). destruct (select_all u a l1 ss) as [rs l'].
  destruct IH as [-> E]. split; [done|]. rewrite E. cbn [cache recomputations l1]. rewrite El, fmap_cons. cbn [misses].
  destruct (match fst <$> cache l with Some n => every_same _ n | None => false end); cbn [negb]; lia.
Qed.

(** A memoized selector is indistinguishable from the function it
    memoizes: every call returns (or throws) what the result function gives on
    the inputs of the state it is called with, and the result function is
    called once for each call whose inputs differ from the ones stored last. *)
Theorem selector_transparent u a ss :
  let '(rs, l) := select_all u a createSelector ss in
  rs = (λ s, a ((λ n, n s) <$> u)) <$> ss /\
  recomputations l = misses a None ((λ s, (λ n, n s) <$> u) <$> ss).
Proof. assert (G := select_all_ok u a createSelector ss I). by destruct (select_all u a createSelector ss). Qed.

End reselect.

Example select_ex :
  let '(rs, l) := select_all [fst; snd] (λ i, match i with [x; y] => Ok (x + y) | _ => Ok 0 end) createSelector
    [(1, 2); (1, 2); (2, 1); (2, 1)] in rs = [Ok 3; Ok 3; Ok 3; Ok 3] /\ recomputations l = 2.
Proof. vm_compute. auto. Qed.

End Reselect.
