(* ===== verification/Redux.v ===== *)
(** The Redux store of the bundle (client/docs/swagger-ui/swagger-ui-bundle.js,
    lines 9819-9910, 9937-9948, 23110-23160 and 23230-23241): subscriptions
    and dispatch with the two listener arrays that may be one and the same
    object, [compose], and the two [combineReducers]. *)

From stdpp Require Import base list list_numbers numbers strings gmap.
From Stdlib Require Import ZArith Lia.
From S2P Require Import Prelude ImmHash ImmMap ImmMapOk.
Import ImmHash ImmMap ImmMapOk.

Module Redux.

Section store.
Context {St P L : Type} `{EqDecision L}.

(** An action object. *)
Record action := Action { plain : bool; type : option (list Z); payload : option P }.
Definition INIT : list Z := js "@@redux/INIT".
Definition init_action : action := Action true (Some INIT) None.

Definition reducer : Type := St -> action -> result St.

(** The variables of a store: the reducer [s], the state [l], the arrays
    allocated so far, which of them [c] and [f] are, the flag [p], and for
    each subscription its listener and its flag [t]. *)
Record store := Store {
  currentReducer : reducer;
  currentState : St;
  arrays : list (list L);
  currentListeners : nat;
  nextListeners : nat;
  isDispatching : bool;
  subscriptions : list (L * bool)
}.

Definition array (st : store) (r : nat) : list L := default [] (arrays st !! r).

Definition set_arrays (st : store) (a : list (list L)) (f : nat) : store :=
  Store (currentReducer st) (currentState st) a (currentListeners st) f (isDispatching st) (subscriptions st).

(** [d()]: copy the array when [c] and [f] are the same. *)
Definition ensureCanMutateNextListeners (st : store) : store :=
  if (nextListeners st =? currentListeners st)%nat
  then set_arrays st (arrays st ++ [array st (currentListeners st)]) (length (arrays st))
  else st.

Definition write_next (st : store) (l : list L) : store :=
  set_arrays st (<[nextListeners st := l]> (arrays st)) (nextListeners st).

(** [v(e)]: the subscription is known by its number. *)
Definition subscribe (st : store) (e : L) : store :=
  let st := ensureCanMutateNextListeners st in
  let st := write_next st (array st (nextListeners st) ++ [e]) in
  Store (currentReducer st) (currentState st) (arrays st) (currentListeners st) (nextListeners st) (isDispatching st)
    (subscriptions st ++ [(e, true)]).

(** [f.indexOf(e)], -1 when there is none. *)
Fixpoint index_of (l : list L) (e : L) : Z :=
  match l with
  | [] => -1
  | x :: l => if decide (x = e) then 0 else let n := index_of l e in if n =? -1 then -1 else n + 1
  end.

(** [f.splice(n, 1)]: a negative [n] counts from the end. *)
Definition splice_1 (l : list L) (n : Z) : list L :=
  let n := if n <? 0 then Z.max 0 (len l + n) else n in
  delete (Z.to_nat n) l.

(** The function returned by [v]. *)
Definition unsubscribe (st : store) (k : nat) : store :=
  match subscriptions st !! k with
  | Some (e, true) =>
      let st := ensureCanMutateNextListeners st in
      let n := index_of (array st (nextListeners st)) e in
      let st := write_next st (splice_1 (array st (nextListeners st)) n) in
      Store (currentReducer st) (currentState st) (arrays st) (currentListeners st) (nextListeners st) (isDispatching st)
        (<[k := (e, false)]> (subscriptions st))
  | _ => st
  end.

(** [m(e)] up to the notification: the checks, the reducer and [c = f]. *)
Definition begin_dispatch (st : store) (e : action) : result store :=
  if negb (plain e) then
    Throw (PlainError (js "Actions must be plain objects. Use custom middleware for async actions."))
  else match type e with
  | None => Throw (PlainError (js "Actions may not have an undefined " ++ 34 :: js "type" ++ 34 :: js " property. Have you misspelled a constant?"))
  | Some _ =>
      if isDispatching st then Throw (PlainError (js "Reducers may not dispatch actions."))
      else
        let! l := currentReducer st (currentState st) e in
        Ok (Store (currentReducer st) l (arrays st) (nextListeners st) (nextListeners st) false (subscriptions st))
  end.

(** What comes of a call: the listeners called, the store after it, and whether
    it threw. *)
Record outcome := Outcome { called : list L; after : store; thrown : result unit }.

(** The loop over the array [t]; the call of a listener changes the store and may
    throw, which ends the loop. [None] when [fuel] is used up. *)
Fixpoint notify_loop (notify : L -> store -> store * result unit) (fuel : nat) (t n : nat) (st : store) : option outcome :=
  match fuel with
  | O => None
  | S fuel =>
      match array st t !! n with
      | Some o =>
          match notify o st with
          | (st, Ok _) =>
              match notify_loop notify fuel t (S n) st with
              | Some r => Some (Outcome (o :: called r) (after r) (thrown r))
              | None => None
              end
          | (st, Throw x) => Some (Outcome [o] st (Throw x))
          end
      | None => Some (Outcome [] st (Ok tt))
      end
  end.

(** [m(e)], with what each listener does. *)
Definition dispatch (notify : L -> store -> store * result unit) (fuel : nat) (st : store) (e : action) : option outcome :=
  match begin_dispatch st e with
  | Ok st => notify_loop notify fuel (currentListeners st) 0 st
  | Throw x => Some (Outcome [] st (Throw x))
  end.

Definition set_reducer (st : store) (e : reducer) : store :=
  Store e (currentState st) (arrays st) (currentListeners st) (nextListeners st) (isDispatching st) (subscriptions st).

(** [replaceReducer] *)
Definition replaceReducer (notify : L -> store -> store * result unit) (fuel : nat) (st : store) (e : reducer) :=
  dispatch notify fuel (set_reducer st e) init_action.

(** [createStore(t, n)] *)
Definition createStore (t : reducer) (n : St) : result store :=
  begin_dispatch (Store t n [[]] 0 0 false []) init_action.

(** ** What the calls do to the arrays *)

(** Everything a listener can do to the store goes through its methods; the
    notification of a nested dispatch consists of further such steps. *)
Inductive api_step : store -> store -> Prop :=
  | api_subscribe st e : api_step st (subscribe st e)
  | api_unsubscribe st k : api_step st (unsubscribe st k)
  | api_dispatch st st' a : begin_dispatch st a = Ok st' -> api_step st st'
  | api_replace st r : api_step st (set_reducer st r).

Definition api : relation store := rtc api_step.

(** The listeners of the subscriptions not yet cancelled. *)
Definition active (st : store) : list L := fst <$> filter (λ p, snd p = true) (subscriptions st).

(** The invariant of a store: [c] and [f] are arrays, and the listeners in [f]
    are those of the active subscriptions. *)
Definition store_ok (st : store) : Prop :=
  (currentListeners st < length (arrays st))%nat /\ (nextListeners st < length (arrays st))%nat /\
  array st (nextListeners st) ≡ₚ active st /\ isDispatching st = false.

(** The array [t] is not one that will be written. *)
Definition frozen (t : nat) (st : store) : Prop :=
  (t < length (arrays st))%nat /\ (nextListeners st = t -> currentListeners st = t).

Lemma array_write_ne st l t : t <> nextListeners st -> array (write_next st l) t = array st t.
Proof. intros Hn. unfold array, write_next. cbn. by rewrite list_lookup_insert_ne. Qed.

Lemma array_write_eq st l : (nextListeners st < length (arrays st))%nat ->
  array (write_next st l) (nextListeners st) = l.
Proof. intros Hl. unfold array, write_next. cbn. by rewrite list_lookup_insert_eq. Qed.

Lemma ensure_ok st : store_ok st ->
  let st' := ensureCanMutateNextListeners st in
  store_ok st' /\ nextListeners st' <> currentListeners st' /\ subscriptions st' = subscriptions st /\
  currentListeners st' = currentListeners st /\ array st' (nextListeners st') = array st (nextListeners st) /\
  (∀ t, frozen t st -> frozen t st' /\ array st' t = array st t /\ nextListeners st' <> t).
Proof.
  intros (Hc & Hn & Hp & Hd). unfold ensureCanMutateNextListeners.
  destruct (Nat.eqb_spec (nextListeners st) (currentListeners st)) as [E|E].
  - assert (Ea : array (set_arrays st (arrays st ++ [array st (currentListeners st)]) (length (arrays st))) (length (arrays st))
                 = array st (nextListeners st)).
    { unfold array at 1. cbn. rewrite lookup_app_r, Nat.sub_diag by lia. cbn. by rewrite E. }
    cbn zeta. split_and!; cbn; try done; try lia.
    + unfold store_ok. cbn. rewrite length_app. cbn. split_and!; [lia|lia| |done]. by rewrite Ea.
    + intros t [Ht Hf]. unfold frozen, array. cbn. rewrite length_app, lookup_app_l by done. cbn.
      split_and!; [lia|intros; lia|done|lia].
  - cbn zeta. split_and!; try done. intros t [Ht Hf]. split_and!; try done. intros <-. by specialize (Hf eq_refl).
Qed.

Lemma subscribe_frozen st e t : store_ok st -> frozen t st ->
  frozen t (subscribe st e) /\ array (subscribe st e) t = array st t.
Proof.
  intros Hok Hf. destruct (ensure_ok st Hok) as ((Hc & Hn & _) & Hne & _ & _ & _ & Hfr).
  destruct (Hfr t Hf) as ([Ht Hf'] & Ea & Hnt). unfold subscribe.
  set (st' := ensureCanMutateNextListeners st) in *. split.
  - split; cbn; [by rewrite length_insert|done].
  - rewrite <- Ea. by apply array_write_ne.
Qed.

Lemma subscribe_ok st e : store_ok st -> store_ok (subscribe st e).
Proof.
  intros Hok. destruct (ensure_ok st Hok) as ((Hc & Hn & Hp & Hd) & Hne & Hs & _ & _ & _).
  unfold subscribe. set (st' := ensureCanMutateNextListeners st) in *. unfold store_ok. cbn. rewrite !length_insert.
  split_and!; [done|done| |done].
  change (array (write_next st' (array st' (nextListeners st') ++ [e])) (nextListeners st')
          ≡ₚ fst <$> filter (λ p, snd p = true) (subscriptions st' ++ [(e, true)])).
  rewrite array_write_eq by done. rewrite filter_app, fmap_app, Hp. done.
Qed.

(** Removing the first occurrence. *)
Lemma array_index_of_found (l : list L) e : e ∈ l -> 0 <= index_of l e /\ l !! Z.to_nat (index_of l e) = Some e.
Proof.
  induction l as [|x l IH]; [by intros ?%not_elem_of_nil|]. cbn [index_of]. intros He.
  destruct (decide (x = e)) as [->|Hne]; [done|]. apply elem_of_cons in He as [->|He]; [done|].
  destruct (IH He) as [H0 Hl]. destruct (Z.eqb_spec (index_of l e) (-1)); [lia|]. split; [lia|].
  replace (Z.to_nat (index_of l e + 1)) with (S (Z.to_nat (index_of l e))) by lia. done.
Qed.

Lemma splice_found (l : list L) e : e ∈ l -> l ≡ₚ e :: splice_1 l (index_of l e).
Proof.
  intros He. destruct (array_index_of_found l e He) as [H0 Hl]. unfold splice_1.
  destruct (Z.ltb_spec (index_of l e) 0); [lia|]. by apply delete_Permutation.
Qed.

Lemma active_remove (subs : list (L * bool)) k e : subs !! k = Some (e, true) ->
  fst <$> filter (λ p, snd p = true) subs ≡ₚ e :: (fst <$> filter (λ p, snd p = true) (<[k := (e, false)]> subs)).
Proof.
  intros E. rewrite insert_take_drop by (by eapply lookup_lt_Some). rewrite <- (take_drop_middle subs k _ E) at 1.
  rewrite !filter_app, !filter_cons_True, !filter_cons_False, !fmap_app by done. cbn. symmetry. apply Permutation_middle.
Qed.

Lemma unsubscribe_ok st k : store_ok st -> store_ok (unsubscribe st k).
Proof.
  intros Hok. unfold unsubscribe. destruct (subscriptions st !! k) as [[e []]|] eqn:E; [|done..].
  destruct (ensure_ok st Hok) as ((Hc & Hn & Hp & Hd) & Hne & Hs & _ & _ & _).
  set (st' := ensureCanMutateNextListeners st) in *. rewrite <- Hs in E. unfold store_ok. cbn. rewrite !length_insert.
  split_and!; [done|done| |done]. set (l := array st' (nextListeners st')) in *.
  change (array (write_next st' (splice_1 l (index_of l e))) (nextListeners st')
          ≡ₚ fst <$> filter (λ p, snd p = true) (<[k := (e, false)]> (subscriptions st'))).
  rewrite array_write_eq by done. assert (A := active_remove _ _ _ E). unfold active in Hp. rewrite A in Hp.
  assert (He : e ∈ l) by (rewrite Hp; left). rewrite (splice_found l e He) in Hp. by apply Permutation_cons_inv in Hp.
Qed.

Lemma unsubscribe_frozen st k t : store_ok st -> frozen t st ->
  frozen t (unsubscribe st k) /\ array (unsubscribe st k) t = array st t.
Proof.
  intros Hok Hf. unfold unsubscribe. destruct (subscriptions st !! k) as [[e []]|]; [|done..].
  destruct (ensure_ok st Hok) as ((Hc & Hn & _) & Hne & _ & _ & _ & Hfr).
  destruct (Hfr t Hf) as ([Ht Hf'] & Ea & Hnt). set (st' := ensureCanMutateNextListeners st) in *. split.
  - split; cbn; [by rewrite length_insert|done].
  - rewrite <- Ea. by apply array_write_ne.
Qed.

Lemma begin_dispatch_Ok st a st' : begin_dispatch st a = Ok st' ->
  ∃ l, currentReducer st (currentState st) a = Ok l /\
    st' = Store (currentReducer st) l (arrays st) (nextListeners st) (nextListeners st) false (subscriptions st).
Proof.
  unfold begin_dispatch. destruct (plain a); [|done]. destruct (type a) as [ty|]; [|done]. destruct (isDispatching st); [done|].
  cbn. destruct (currentReducer st (currentState st) a) as [l|]; [|done]. cbn. intros [= <-]. by exists l.
Qed.

Lemma api_step_ok st st' : api_step st st' -> store_ok st ->
  store_ok st' /\ ∀ t, frozen t st -> frozen t st' /\ array st' t = array st t.
Proof.
  intros Hs Hok. destruct Hs as [st e|st k|st st' a Hb|st r].
  - split; [by apply subscribe_ok|]. intros t Ht. by apply subscribe_frozen.
  - split; [by apply unsubscribe_ok|]. intros t Ht. by apply unsubscribe_frozen.
  - apply begin_dispatch_Ok in Hb as (l & _ & ->). destruct Hok as (Hc & Hn & Hp & Hd). split; [done|].
    intros t [Ht Hf]. split; [|done]. split; [done|]. done.
  - split; [done|]. intros t Ht. done.
Qed.

Lemma api_ok st st' : api st st' -> store_ok st ->
  store_ok st' /\ ∀ t, frozen t st -> frozen t st' /\ array st' t = array st t.
Proof.
  induction 1 as [st|st st1 st' Hs _ IH]; intros Hok; [done|]. destruct (api_step_ok _ _ Hs Hok) as [Hok1 Hf1].
  destruct (IH Hok1) as [Hok' Hf']. split; [done|]. intros t Ht. destruct (Hf1 t Ht) as [Ht1 <-]. by apply Hf'.
Qed.

(** ** Dispatch *)

(** The calls of a list of listeners, one after the other, until one throws: the
    listeners called, the store after the last one and how it ended. *)
Inductive calls (notify : L -> store -> store * result unit) : list L -> store -> outcome -> Prop :=
  | calls_done st : calls notify [] st (Outcome [] st (Ok tt))
  | calls_next o l st st' r : notify o st = (st', Ok tt) -> calls notify l st' r ->
      calls notify (o :: l) st (Outcome (o :: called r) (after r) (thrown r))
  | calls_thrown o l st st' x : notify o st = (st', Throw x) -> calls notify (o :: l) st (Outcome [o] st' (Throw x)).

Lemma calls_prefix notify l st r : calls notify l st r ->
  called r `prefix_of` l /\ (thrown r = Ok tt -> called r = l).
Proof.
  induction 1 as [st|o l st st' r _ _ [IH1 IH2]|o l st st' x _]; cbn; [done| |].
  - split; [by apply prefix_cons|]. intros E. by rewrite IH2.
  - split; [|done]. apply (prefix_cons o), prefix_nil.
Qed.

Section notify.
Context (notify : L -> store -> store * result unit).
(** Listeners act on the store only through its methods. *)
Hypothesis notify_api : ∀ o st, api st (notify o st).1.

Lemma notify_loop_ok fuel t n st : store_ok st -> frozen t st -> (length (array st t) - n < fuel)%nat ->
  ∃ r, notify_loop notify fuel t n st = Some r /\ calls notify (drop n (array st t)) st r /\ api st (after r).
Proof.
  revert n st. induction fuel as [|fuel IH]; intros n st Hok Hf Hl; [lia|]. cbn [notify_loop].
  destruct (array st t !! n) as [o|] eqn:E.
  - rewrite (drop_S _ _ _ E). pose proof (notify_api o st) as Hst. destruct (notify o st) as [st' [[]|x]] eqn:En; cbn [fst] in Hst.
    + destruct (api_ok _ _ Hst Hok) as [Hok' Hfr]. destruct (Hfr t Hf) as [Hf' Ea].
      assert (n < length (array st t))%nat by (by eapply lookup_lt_Some).
      destruct (IH (S n) st' Hok' Hf') as (r & E' & Hc & Ha); [rewrite Ea; lia|].
      rewrite E'. eexists. split_and!; [done| |cbn [after]; unfold api in *; etrans; [exact Hst|exact Ha]].
      eapply calls_next; [exact En|]. by rewrite <- Ea.
    + eexists. split_and!; [done|by apply calls_thrown|done].
  - apply lookup_ge_None in E. rewrite drop_ge by done. eexists. split_and!; [done|apply calls_done|apply rtc_refl].
Qed.

(** C14. Dispatching an action: the reducer is applied once to the state, and
    then the listeners subscribed when the notification starts are called, in
    the order of subscription and each on the store that the one before left,
    whatever they do to the store through its methods (subscribe, unsubscribe,
    dispatch again): the array being walked is never written.  All of them are
    called unless one throws, which ends the dispatch with its exception and
    with the store as that listener left it.  A reducer that throws leaves the
    store as it was, and the listeners in the store are always those of the
    active subscriptions. *)
Theorem dispatch_snapshot st a fuel : store_ok st -> plain a = true -> is_Some (type a) ->
  (length (array st (nextListeners st)) < fuel)%nat ->
  match currentReducer st (currentState st) a with
  | Ok l =>
      ∃ st1 r, begin_dispatch st a = Ok st1 /\ currentState st1 = l /\
        dispatch notify fuel st a = Some r /\ calls notify (array st (nextListeners st)) st1 r /\
        called r `prefix_of` array st (nextListeners st) /\
        (thrown r = Ok tt -> called r = array st (nextListeners st)) /\
        api st1 (after r) /\ store_ok (after r) /\ array (after r) (nextListeners (after r)) ≡ₚ active (after r)
  | Throw x => dispatch notify fuel st a = Some (Outcome [] st (Throw x))
  end.
Proof.
  intros Hok Hp [ty Ht] Hf. assert (Hok' := Hok). destruct Hok' as (Hc & Hn & Hperm & Hd).
  unfold dispatch, begin_dispatch. rewrite Hp, Ht, Hd. cbn [negb].
  destruct (currentReducer st (currentState st) a) as [l|x] eqn:Er; [|done]. cbn [result_bind].
  set (st1 := Store _ l _ _ _ _ _). assert (Hok1 : store_ok st1) by done.
  destruct (notify_loop_ok fuel (nextListeners st) 0 st1 Hok1) as (r & E & Hr & Ha); [done|by rewrite Nat.sub_0_r|].
  rewrite drop_0 in Hr. destruct (api_ok _ _ Ha Hok1) as [Hok2 _]. destruct (calls_prefix _ _ _ _ Hr) as [P1 P2].
  exists st1, r. split_and!; try done. apply Hok2.
Qed.

End notify.

End store.

(** A listener that cancels the second subscription, one that adds a listener,
    and one that throws. *)
Definition sample_notify (o : nat) (st : @store Z unit nat) : @store Z unit nat * result unit :=
  if (o =? 1)%nat then (unsubscribe st 1, Ok tt)
  else if (o =? 2)%nat then (subscribe st 5%nat, Ok tt)
  else (unsubscribe st 0, Throw (PlainError (js "listener"))).
Definition sample_store : @store Z unit nat :=
  foldl subscribe (Store (λ s _, Ok (s + 1)) 10 [[]] 0 0 false []) [1; 2; 3; 4]%nat.

Lemma dispatch_snapshot_witness :
  ∃ r, dispatch sample_notify 5 sample_store init_action = Some r /\ called r = [1; 2; 3]%nat /\
    thrown r = Throw (PlainError (js "listener")) /\ active (after r) = [3; 4; 5]%nat.
Proof.
  assert (Hn : ∀ o st, api st (sample_notify o st).1).
  { intros o st. apply rtc_once. unfold sample_notify. destruct (o =? 1)%nat; [constructor|]. destruct (o =? 2)%nat; constructor. }
  assert (D := dispatch_snapshot sample_notify Hn sample_store init_action 5).
  destruct D as (st1 & r & _ & _ & E & _).
  - vm_compute. repeat split; auto with arith.
  - reflexivity.
  - eexists. reflexivity.
  - vm_compute. lia.
  - exists r. split; [exact E|]. vm_compute in E. injection E as <-. repeat split; reflexivity.
Defined.

(** ** Composition *)

(** [compose(f1, ..., fn)] on one argument. *)
Definition compose {A} (fs : list (A -> A)) : A -> A :=
  match fs with
  | [] => λ x, x
  | [f] => f
  | f :: fs => fold_left (λ e t x, e (t x)) fs f
  end.

Lemma compose_foldr {A} (fs : list (A -> A)) x : compose fs x = foldr (λ f y, f y) x fs.
Proof.
  assert (G : ∀ fs (f : A -> A), fold_left (λ e t x, e (t x)) fs f x = f (foldr (λ f y, f y) x fs)).
  { clear. induction fs as [|g fs IH]; intros f; [done|]. cbn. by rewrite IH. }
  destruct fs as [|f [|g fs]]; [done|done|]. cbn. by rewrite (G fs (λ x, f (g x))).
Qed.

(** ** combineReducers *)

Section combine.
Context {V A : Type} `{StrictEq V}.

(** A slice reducer; [None] is [undefined]. *)
Abbreviation slice_reducer := (option V -> A -> result (option V)).

(** [p !== f] *)
Definition changed (p : V) (f : option V) : bool := match f with Some f => negb (same p f) | None => true end.

(** The loop of [combination]: the next state and whether it changed. *)
Fixpoint combine_loop (rs : list (key * slice_reducer)) (e : gmap key V) (t : A) (undef : key -> exn)
    (i : gmap key V) (r : bool) : result (gmap key V * bool) :=
  match rs with
  | [] => Ok (i, r)
  | (l, c) :: rs =>
      let f := e !! l in
      let! p := c f t in
      match p with
      | None => Throw (undef l)
      | Some p => combine_loop rs e t undef (<[l := p]> i) (r || changed p f)
      end
  end.

(** The reducer made by [combineReducers] when its reducers passed the
    checks. *)
Definition combination (rs : list (key * slice_reducer)) (undef : key -> exn) (e : gmap key V) (t : A) : result (gmap key V) :=
  let! (i, r) := combine_loop rs e t undef ∅ false in
  Ok (if r then i else e).

Lemma combine_loop_ok rs e t undef i r i' r' : NoDup rs.*1 ->
  combine_loop rs e t undef i r = Ok (i', r') ->
  (∀ l c, (l, c) ∈ rs -> ∃ p, c (e !! l) t = Ok (Some p) /\ i' !! l = Some p /\ (r' = false -> e !! l = Some p)) /\
  (∀ l, l ∉ rs.*1 -> i' !! l = i !! l) /\ (r' = false -> r = false).
Proof.
  revert i r. induction rs as [|[l c] rs IH]; intros i r Hn E.
  { injection E as <- <-. split_and!; [by intros ? ? ?%not_elem_of_nil|done|done]. }
  cbn in E. destruct (c (e !! l) t) as [[p|]|] eqn:Ec; cbn in E; try done.
  apply NoDup_cons in Hn as [Hl Hn]. destruct (IH _ _ Hn E) as (H1 & H2 & H3).
  assert (Hr : r' = false -> r = false /\ e !! l = Some p).
  { intros Hr. apply H3, orb_false_iff in Hr as [? Hc]. split; [done|]. unfold changed in Hc.
    destruct (e !! l) as [f|]; [|done]. apply negb_false_iff, same_eq in Hc as ->. done. }
  split_and!.
  - intros l' c' [[= -> ->]|Hin]%elem_of_cons; [|by apply H1]. exists p. split_and!; [done| |naive_solver].
    rewrite H2 by done. by rewrite lookup_insert_eq.
  - intros l' [Hne Hnin]%not_elem_of_cons. rewrite H2 by done. by rewrite lookup_insert_ne.
  - naive_solver.
Qed.

(** A combined reducer gives every slice to its reducer: when it returns,
    each key holds what its own reducer made of the old slice, and when no
    slice changed the state returned is the old one itself.  It throws when a
    reducer throws or returns undefined. *)
Theorem combine_correct rs undef e t : NoDup rs.*1 ->
  match combination rs undef e t with
  | Ok e' => ∀ l c, (l, c) ∈ rs -> ∃ p, c (e !! l) t = Ok (Some p) /\ e' !! l = Some p
  | Throw _ => ∃ l c, (l, c) ∈ rs /\ ∀ p, c (e !! l) t <> Ok (Some p)
  end /\
  ((∀ l c, (l, c) ∈ rs -> ∃ p, c (e !! l) t = Ok (Some p) /\ e !! l = Some p /\ same p p = true) ->
   combination rs undef e t = Ok e).
Proof.
  intros Hn. unfold combination. split.
  - destruct (combine_loop rs e t undef ∅ false) as [[i r]|x] eqn:E; cbn.
    + destruct (combine_loop_ok _ _ _ _ _ _ _ _ Hn E) as (H1 & _ & _). intros l c Hin.
      destruct (H1 l c Hin) as (p & Ec & Ei & Er). exists p. split; [done|]. destruct r; [done|by apply Er].
    + clear Hn. revert E. generalize (∅ : gmap key V) as i, false as r.
      induction rs as [|[l c] rs IH]; intros i r E; [done|]. cbn in E.
      destruct (c (e !! l) t) as [[p|]|x'] eqn:Ec; cbn in E.
      * destruct (IH _ _ E) as (l' & c' & Hin & Hp). exists l', c'. split; [by right|done].
      * exists l, c. split; [left|]. by rewrite Ec.
      * exists l, c. split; [left|]. by rewrite Ec.
  - intros Hs. assert (G : ∀ i, ∃ i', combine_loop rs e t undef i false = Ok (i', false)).
    { clear Hn. induction rs as [|[l c] rs IH]; intros i; [by exists i|].
      destruct (Hs l c) as (p & Ec & Ee & Hsame); [left|]. cbn. rewrite Ec, Ee. cbn. rewrite Hsame. cbn.
      apply IH. intros l' c' Hin. apply Hs. by right. }
    destruct (G ∅) as [i' ->]. done.
Qed.

(** [combineReducers] of redux-immutable: the slices are entries of a
    persistent map. *)
Fixpoint combine_map (rs : list (key * slice_reducer)) (r : A) (undef : key -> exn) (n : @pmap V) : result pmap :=
  match rs with
  | [] => Ok n
  | (t, f) :: rs =>
      let! o := f (get n t None) r in
      match o with
      | None => Throw (undef t)
      | Some o => combine_map rs r undef (set n t o)
      end
  end.

Lemma combine_map_ok rs r undef n n' : map_ok n -> NoDup rs.*1 -> Forall (λ p, ordinary p.1) rs ->
  combine_map rs r undef n = Ok n' ->
  map_ok n' /\
  (∀ t f, (t, f) ∈ rs -> ∃ o, f (get n t None) r = Ok (Some o) /\ get n' t None = Some o) /\
  (∀ t, t ∉ rs.*1 -> get n' t None = get n t None).
Proof.
  revert n. induction rs as [|[t f] rs IH]; intros n Hn Hd Ho E.
  { injection E as <-. split_and!; [done|by intros ? ? ?%not_elem_of_nil|done]. }
  cbn in E. destruct (f (get n t None) r) as [[o|]|] eqn:Ef; cbn in E; try done.
  apply NoDup_cons in Hd as [Ht Hd]. apply Forall_cons in Ho as [Hot Ho].
  destruct (updateMap_ok n t (Some o) (hash_range _ Hot) Hn) as [Hn1 E1].
  assert (Hset : ∀ k, get (set n t o) k None = if decide (k = t) then Some o else get n k None).
  { intros k. unfold set. rewrite !get_ok, E1 by done. destruct (decide (k = t)) as [->|Hne].
    - by rewrite lookup_partial_alter_eq.
    - by rewrite lookup_partial_alter_ne. }
  destruct (IH (set n t o) Hn1 Hd Ho E) as (Hok & H1 & H2). split_and!; [done| |].
  - intros t' f' [[= -> ->]|Hin]%elem_of_cons.
    + exists o. split; [done|]. rewrite H2, Hset by done. by rewrite decide_True.
    + destruct (H1 t' f' Hin) as (o' & Eo & Eg). exists o'. rewrite Hset, decide_False in Eo; [done|].
      intros ->. apply Ht. apply list_elem_of_fmap. by exists (t, f').
  - intros k [Hne Hnin]%not_elem_of_cons. rewrite H2, Hset by done. by rewrite decide_False.
Qed.

(** The combined reducer of the page's state, on a persistent map: each
    reducer gets the value of its own key (never one already updated) and its
    result is stored there, every other key is untouched, and the new map is
    well formed. *)
Theorem combine_map_correct ops rs r undef n' : Forall op_ordinary ops -> NoDup rs.*1 ->
  Forall (λ p, ordinary p.1) rs ->
  let n := fold_left apply_op ops emptyMap in
  combine_map rs r undef n = Ok n' ->
  map_ok n' /\
  (∀ t f, (t, f) ∈ rs -> ∃ o, f (get n t None) r = Ok (Some o) /\ get n' t None = Some o) /\
  (∀ t, t ∉ rs.*1 -> get n' t None = get n t None).
Proof.
  intros Ho Hd Hk n. apply combine_map_ok; [|done|done]. by apply (history_ok ops emptyMap Ho emptyMap_ok).
Qed.

End combine.

Lemma combine_correct_witness :
  combination [(KNull, λ s (_ : unit), Ok (Some (default 1 s)))] (λ _, PlainError []) {[KNull := 3]} tt = Ok {[KNull := 3]}.
Proof.
  apply (combine_correct [(KNull, λ s (_ : unit), Ok (Some (default 1 s)))] (λ _, PlainError []) {[KNull := 3]} tt).
  - apply NoDup_singleton.
  - intros l c Hin. apply list_elem_of_singleton in Hin. injection Hin as -> ->. exists 3. split_and!; reflexivity.
Defined.

Lemma combine_map_correct_witness :
  let n := fold_left apply_op [OSet KNull 3; OSet (KBool true) 4] emptyMap in
  ∃ n', combine_map [(KNull, λ s (_ : unit), Ok (Some (default 1 s + 1)))] tt (λ _, PlainError []) n = Ok n'
    /\ get n' (KBool true) None = Some 4.
Proof.
  cbv zeta. eexists. split; [reflexivity|].
  destruct (combine_map_correct [OSet KNull 3; OSet (KBool true) 4] [(KNull, λ s (_ : unit), Ok (Some (default 1 s + 1)))] tt
    (λ _, PlainError []) _ ltac:(repeat constructor; discriminate) ltac:(apply NoDup_singleton)
    ltac:(repeat constructor; discriminate) eq_refl) as (_ & _ & H).
  rewrite H; [reflexivity|]. change (KBool true ∉ [KNull]). rewrite list_elem_of_singleton. discriminate.
Defined.

End Redux.
