(* ===== verification/Events.v ===== *)
(** The event emitter of the bundle (client/docs/swagger-ui/swagger-ui-bundle.js,
    lines 7131-7223).  Listeners are arbitrary code: what calling one does to
    the emitter is a parameter.  Listener calls nest, so the depth of the call
    stack bounds the recursion, as it does in the program. *)

From stdpp Require Import base list list_numbers numbers strings gmap.
From Stdlib Require Import ZArith Lia.
From S2P Require Import Prelude.

Module Events.

(** A listener: a function, or the wrapper [o] made by [once] for the function
    [t] on the event [e]; [k] tells wrappers apart. *)
Inductive listener := Fn (id : nat) | OnceFn (k : nat) (e : list Z) (t : nat).

#[global] Instance listener_eq_dec : EqDecision listener.
Proof. solve_decision. Defined.

(** [l.listener] *)
Definition listener_target (l : listener) : option nat := match l with Fn _ => None | OnceFn _ _ t => Some t end.

(** [this._events[e]]: a function or an array. *)
Inductive handlers := One (l : listener) | Many (ls : list listener) (warned : bool).

Inductive arg := AName (e : list Z) | AListener (l : listener) | AVal (v : Z).

Record emitter := Emitter {
  events : gmap (list Z) handlers;
  maxListeners : option Z;
  fired : gset nat;
  wrappers : nat;
  warnings : nat
}.

Definition newEmitter : emitter := Emitter ∅ None ∅ 0 0.
Definition defaultMaxListeners : Z := 10.

Definition set_events (st : emitter) (ev : gmap (list Z) handlers) : emitter :=
  Emitter ev (maxListeners st) (fired st) (wrappers st) (warnings st).

Definition setMaxListeners (st : emitter) (e : Z) : result emitter :=
  if e <? 0 then Throw (TypeError (js "n must be a positive number"))
  else Ok (Emitter (events st) (Some e) (fired st) (wrappers st) (warnings st)).

(** [n.prototype.listeners] *)
Definition listeners (st : emitter) (e : list Z) : list listener :=
  match events st !! e with Some (One l) => [l] | Some (Many ls _) => ls | None => [] end.
Definition listenerCount (st : emitter) (e : list Z) : Z :=
  match events st !! e with Some (One _) => 1 | Some (Many ls _) => len ls | None => 0 end.

Definition unhandled : exn := PlainError (js "Uncaught, unspecified " ++ 34 :: js "error" ++ 34 :: js " event.").

(** [n.prototype.emit], given how a listener is run. *)
Definition emit_with (run : listener -> list arg -> emitter -> result emitter)
    (e : list Z) (args : list arg) (st : emitter) : result (bool * emitter) :=
  if decide (e = js "error" /\ listeners st e = []) then Throw unhandled
  else match events st !! e with
  | None => Ok (false, st)
  | Some (One l) => let! st := run l args st in Ok (true, st)
  | Some (Many ls _) =>
      let! st := fold_left (λ r l, let! st := r in run l args st) ls (Ok st) in Ok (true, st)
  end.

(** The index of the last listener that is [t] or wraps it. *)
Definition is_listener (t l : listener) : bool :=
  bool_decide (l = t) || match t with Fn id => bool_decide (listener_target l = Some id) | OnceFn _ _ _ => false end.
Fixpoint last_index (t : listener) (ls : list listener) : option nat :=
  match ls with
  | [] => None
  | l :: ls => match last_index t ls with
               | Some i => Some (S i)
               | None => if is_listener t l then Some 0%nat else None
               end
  end.

(** [this._events.removeListener && this.emit("removeListener", e, t)] *)
Definition announce (run : listener -> list arg -> emitter -> result emitter)
    (name e : list Z) (t : listener) (st : emitter) : result emitter :=
  match events st !! name with
  | Some _ => let! (_, st) := emit_with run name [AName e; AListener t] st in Ok st
  | None => Ok st
  end.

(** [n.prototype.removeListener] *)
Definition removeListener_with (run : listener -> list arg -> emitter -> result emitter)
    (e : list Z) (t : listener) (st : emitter) : result emitter :=
  match events st !! e with
  | None => Ok st
  | Some (One l) =>
      if is_listener t l then announce run (js "removeListener") e t (set_events st (delete e (events st)))
      else Ok st
  | Some (Many ls w) =>
      match last_index t ls with
      | None => Ok st
      | Some i =>
          announce run (js "removeListener") e t
            (set_events st (if len ls =? 1 then delete e (events st)
                            else <[e := Many (delete i ls) w]> (events st)))
      end
  end.

(** The warning about many listeners. *)
Definition warn_check (st : emitter) (e : list Z) : emitter :=
  match events st !! e with
  | Some (Many ls false) =>
      let a := match maxListeners st with None => defaultMaxListeners | Some a => a end in
      if (0 <? a) && (a <? len ls)
      then Emitter (<[e := Many ls true]> (events st)) (maxListeners st) (fired st) (wrappers st) (S (warnings st))
      else st
  | _ => st
  end.

(** [n.prototype.addListener] *)
Definition addListener_with (run : listener -> list arg -> emitter -> result emitter)
    (e : list Z) (t : listener) (st : emitter) : result emitter :=
  let! st := announce run (js "newListener") e (match t with OnceFn _ _ id => Fn id | Fn _ => t end) st in
  let ev := events st in
  Ok (warn_check (set_events st
        (<[e := match ev !! e with
                | Some (Many ls w) => Many (ls ++ [t]) w
                | Some (One l) => Many [l; t] false
                | None => One t
                end]> ev)) e).

(** [n.prototype.once] *)
Definition once_with (run : listener -> list arg -> emitter -> result emitter)
    (e : list Z) (t : nat) (st : emitter) : result emitter :=
  let k := wrappers st in
  addListener_with run e (OnceFn k e t) (Emitter (events st) (maxListeners st) (fired st) (S k) (warnings st)).

Section run.
(** Calling a function registered as a listener. *)
Context (call : nat -> list arg -> emitter -> result emitter).

Definition stack_overflow : exn := RangeError (js "Maximum call stack size exceeded").

(** Running a listener with [depth] frames left: the wrapper [o] of [once]
    removes itself and calls its function unless it was called before. *)
Fixpoint run (depth : nat) (l : listener) (args : list arg) (st : emitter) : result emitter :=
  match depth with
  | O => Throw stack_overflow
  | S depth =>
      match l with
      | Fn id => call id args st
      | OnceFn k e t =>
          let! st := removeListener_with (run depth) e l st in
          if decide (k ∈ fired st) then Ok st
          else call t args (Emitter (events st) (maxListeners st) ({[k]} ∪ fired st) (wrappers st) (warnings st))
      end
  end.

Definition emit (depth : nat) := emit_with (run depth).
Definition addListener (depth : nat) := addListener_with (run depth).
Definition removeListener (depth : nat) := removeListener_with (run depth).
Definition once (depth : nat) := once_with (run depth).

(** ** Listener lists *)

Definition quiet (st : emitter) : Prop :=
  events st !! js "newListener" = None /\ events st !! js "removeListener" = None.

Lemma listeners_set st e h e' : listeners (set_events st (<[e := h]> (events st))) e' =
  if decide (e' = e) then match h with One l => [l] | Many ls _ => ls end else listeners st e'.
Proof.
  unfold listeners. cbn. destruct (decide (e' = e)) as [->|Hn].
  - rewrite lookup_insert_eq. by destruct h.
  - by rewrite lookup_insert_ne.
Qed.

Lemma listeners_delete st e e' : listeners (set_events st (delete e (events st))) e' =
  if decide (e' = e) then [] else listeners st e'.
Proof.
  unfold listeners. cbn. destruct (decide (e' = e)) as [->|Hn]; [by rewrite lookup_delete_eq|by rewrite lookup_delete_ne].
Qed.

Lemma warn_check_listeners st e e' : listeners (warn_check st e) e' = listeners st e'.
Proof.
  unfold warn_check. destruct (events st !! e) as [[l|ls []]|] eqn:E; try done. destruct (_ && _); [|done].
  unfold listeners. cbn. destruct (decide (e' = e)) as [->|Hn]; [by rewrite lookup_insert_eq, E|by rewrite lookup_insert_ne].
Qed.

(** What removing [t] does to a list: the last listener that is [t] or wraps
    it goes. *)
Definition remove_last (t : listener) (ls : list listener) : list listener :=
  match last_index t ls with Some i => delete i ls | None => ls end.

(** The emitter keeps, for every event, a list of listeners under its two
    representations: adding appends to the list of that event, removing takes
    out the last listener that is the given function or a [once] wrapper of
    it, no other event is affected, and the counts agree (when no listener
    listens to the bookkeeping events themselves). *)
Theorem listener_lists depth e t st : quiet st ->
  (∃ st', addListener depth e t st = Ok st' /\ listeners st' e = listeners st e ++ [t] /\
     (∀ e', e' <> e -> listeners st' e' = listeners st e')) /\
  (∃ st', removeListener depth e t st = Ok st' /\ listeners st' e = remove_last t (listeners st e) /\
     (∀ e', e' <> e -> listeners st' e' = listeners st e')) /\
  listenerCount st e = len (listeners st e).
Proof.
  intros [Hq1 Hq2]. split_and!.
  - unfold addListener, addListener_with, announce. rewrite Hq1. cbn [result_bind]. eexists. split; [done|].
    rewrite warn_check_listeners, listeners_set, decide_True by done. split.
    + unfold listeners. by destruct (events st !! e) as [[]|].
    + intros e' Hn. by rewrite warn_check_listeners, listeners_set, decide_False.
  - unfold removeListener, removeListener_with, announce.
    assert (Hrm : ∀ ev, ev = delete e (events st) \/ (∃ h, ev = <[e := h]> (events st)) ->
      (∀ h, events st !! e = Some h -> e <> js "removeListener") -> events st !! e <> None ->
      ev !! js "removeListener" = None).
    { intros ev Hev He Hne. destruct (events st !! e) as [h|] eqn:Eh; [|done]. specialize (He h eq_refl).
      destruct Hev as [->|[h' ->]]; [by rewrite lookup_delete_ne|by rewrite lookup_insert_ne]. }
    assert (He : ∀ h, events st !! e = Some h -> e <> js "removeListener") by (intros h Eh ->; congruence).
    destruct (events st !! e) as [[l|ls w]|] eqn:E.
    + destruct (is_listener t l) eqn:Ei.
      * cbn [events set_events]. rewrite Hrm by (done || auto). eexists. split; [done|].
        rewrite listeners_delete, decide_True by done. split.
        -- unfold listeners, remove_last. rewrite E. cbn. by rewrite Ei.
        -- intros e' Hn. by rewrite listeners_delete, decide_False.
      * eexists. split; [done|]. split; [|done]. unfold listeners, remove_last. rewrite E. cbn. by rewrite Ei.
    + destruct (last_index t ls) as [i|] eqn:Ei.
      * assert (Hi : (i < length ls)%nat).
        { clear -Ei. revert i Ei. induction ls as [|l ls IH]; intros i Ei; [done|]. cbn in Ei.
          destruct (last_index t ls) as [j|]; [injection Ei as <-; specialize (IH j eq_refl); cbn; lia|].
          destruct (is_listener t l); [injection Ei as <-; cbn; lia|done]. }
        cbn [events set_events]. destruct (Z.eqb_spec (len ls) 1) as [E1|E1]; rewrite Hrm by (done || eauto);
          (eexists; split; [done|]).
        -- rewrite listeners_delete, decide_True by done. split.
           ++ unfold listeners, remove_last. rewrite E, Ei. destruct ls as [|x [|]]; try (unfold len in E1; cbn in E1; lia).
              by destruct i as [|[|]]; cbn in Hi; [|lia|lia].
           ++ intros e' Hn. by rewrite listeners_delete, decide_False.
        -- rewrite listeners_set, decide_True by done. split.
           ++ unfold listeners, remove_last. by rewrite E, Ei.
           ++ intros e' Hn. by rewrite listeners_set, decide_False.
      * eexists. split; [done|]. split; [|done]. unfold listeners, remove_last. by rewrite E, Ei.
    + eexists. split; [done|]. split; [|done]. unfold listeners. by rewrite E.
  - unfold listenerCount, listeners. by destruct (events st !! e) as [[]|].
Qed.

(** ** Once *)

Section monotone.
(** Calling a function does not forget which wrappers were called. *)
Hypothesis call_fired : ∀ id args st st', call id args st = Ok st' -> fired st ⊆ fired st'.

Lemma announce_fired r name e t st st' : (∀ l a s s', r l a s = Ok s' -> fired s ⊆ fired s') ->
  announce r name e t st = Ok st' -> fired st ⊆ fired st'.
Proof.
  intros Hr. unfold announce, emit_with. destruct (events st !! name) as [[l|ls w]|]; [| |by intros [= <-]].
  all: destruct (decide _); [done|]; cbn.
  - destruct (r l _ st) as [s1|] eqn:E; [|done]. cbn. intros [= <-]. by eapply Hr.
  - intros E. assert (G : ∀ ls s0 s1, fold_left (λ r0 l, let! s := r0 in r l [AName e; AListener t] s) ls (Ok s0) = Ok s1 ->
      fired s0 ⊆ fired s1).
    { clear -Hr. intros ls. induction ls as [|l ls IH]; intros s0 s1 E; cbn in E; [by injection E as <-|].
      destruct (r l _ s0) as [s2|] eqn:E2.
      - apply Hr in E2. etrans; [exact E2|by apply IH].
      - exfalso. clear -E. induction ls as [|l ls IH]; cbn in E; [done|by apply IH]. }
    destruct (fold_left _ ls (Ok st)) as [s1|] eqn:E1; [|done]. cbn in E. injection E as <-. by eapply G.
Qed.

Lemma removeListener_fired r e t st st' : (∀ l a s s', r l a s = Ok s' -> fired s ⊆ fired s') ->
  removeListener_with r e t st = Ok st' -> fired st ⊆ fired st'.
Proof.
  intros Hr. unfold removeListener_with. destruct (events st !! e) as [[l|ls w]|]; [| |by intros [= <-]].
  - destruct (is_listener t l); [|by intros [= <-]]. intros E. by apply announce_fired in E.
  - destruct (last_index t ls); [|by intros [= <-]]. intros E. by apply announce_fired in E.
Qed.

Lemma run_fired depth l args st st' : run depth l args st = Ok st' -> fired st ⊆ fired st'.
Proof using call_fired.
  revert l args st st'. induction depth as [|depth IH]; intros l args st st' E; [done|]. cbn in E. destruct l as [id|k e t].
  - by eapply call_fired.
  - destruct (removeListener_with (run depth) e (OnceFn k e t) st) as [s1|] eqn:E1; [|done].
    apply removeListener_fired in E1; [|done]. cbn in E. destruct (decide (k ∈ fired s1)).
    + by injection E as <-.
    + apply call_fired in E. cbn in E. set_solver.
Qed.

(** A listener added with [once] is called at most once: after its wrapper
    ran, running it again (because it was still in a snapshot being emitted)
    only tries to remove it and never calls the function. *)
Theorem once_called_once k e t depth args st st' : run depth (OnceFn k e t) args st = Ok st' ->
  k ∈ fired st' /\
  ∀ depth' args' st2, fired st' ⊆ fired st2 ->
    run (S depth') (OnceFn k e t) args' st2 = removeListener_with (run depth') e (OnceFn k e t) st2.
Proof using call_fired.
  intros E. assert (Hk : k ∈ fired st').
  { destruct depth as [|depth]; [done|]. cbn in E.
    destruct (removeListener_with (run depth) e (OnceFn k e t) st) as [s1|]; [|done]. cbn in E.
    destruct (decide (k ∈ fired s1)); [by injection E as <-|]. apply call_fired in E. cbn in E. set_solver. }
  split; [done|]. intros depth' args' st2 Hs. cbn.
  destruct (removeListener_with (run depth') e (OnceFn k e t) st2) as [s1|] eqn:E1; [|done]. cbn.
  apply removeListener_fired in E1; [|intros; by eapply run_fired]. by rewrite decide_True by set_solver.
Qed.

End monotone.

End run.

Lemma listener_lists_witness :
  ∃ st', addListener (λ _ _ st, Ok st) 3 (js "a") (Fn 1) newEmitter = Ok st' /\ listeners st' (js "a") = [Fn 1].
Proof.
  destruct (listener_lists (λ _ _ st, Ok st) 3 (js "a") (Fn 1) newEmitter (conj eq_refl eq_refl)) as ((st' & E & El & _) & _).
  exists st'. split; [exact E|exact El].
Defined.

Lemma once_called_once_witness :
  run (λ _ _ st, Ok st) 2 (OnceFn 0 (js "a") 7) [] (Emitter ∅ None {[0%nat]} 1 0)
  = removeListener_with (run (λ _ _ st, Ok st) 1) (js "a") (OnceFn 0 (js "a") 7) (Emitter ∅ None {[0%nat]} 1 0).
Proof.
  apply (once_called_once (λ _ _ st, Ok st) ltac:(intros ? ? ? ? [= <-]; reflexivity) 0 (js "a") 7 2 []
    (Emitter ∅ None ∅ 1 0) (Emitter ∅ None {[0%nat]} 1 0)); reflexivity.
Defined.

(** A [once] listener is called once. *)
Example once_ex :
  (let! st := once (λ id _ st, Ok (Emitter (events st) (Some (Z.of_nat id)) (fired st) (wrappers st) (S (warnings st)))) 5
      (js "a") 7 newEmitter in
   let! (b, st) := emit (λ id _ st, Ok (Emitter (events st) (Some (Z.of_nat id)) (fired st) (wrappers st) (S (warnings st)))) 5
      (js "a") [] st in
   let! (b', st) := emit (λ id _ st, Ok (Emitter (events st) (Some (Z.of_nat id)) (fired st) (wrappers st) (S (warnings st)))) 5
      (js "a") [] st in
   Ok (b, b', warnings st)) = Ok (true, false, 1%nat).
Proof. vm_compute. reflexivity. Qed.

End Events.
