(* ===== verification/Uri.v ===== *)
(** Percent encoding and the formats built on it in the bundle
    (client/docs/swagger-ui/swagger-ui-bundle.js): the [encode] and [decode]
    helpers of qs (lines 15523-15527 and 15553-15566), [querystring]
    (32008-32070) and [cookie] (33287-33363), over the language's
    [encodeURIComponent] and [decodeURIComponent]. *)

From stdpp Require Import base list list_numbers numbers strings gmap.
From Stdlib Require Import ZArith Lia.
From S2P Require Import Prelude Base64 Buffer BufferText.

Module Uri.
Import Base64 Buffer BufferText.

(** ** encodeURIComponent and decodeURIComponent *)

Definition alnum (c : Z) : bool :=
  ((48 <=? c) && (c <=? 57)) || ((65 <=? c) && (c <=? 90)) || ((97 <=? c) && (c <=? 122)).

(** Letters, digits and [- _ . ! ~ * ' ( )]. *)
Definition uri_unreserved (c : Z) : bool :=
  alnum c || bool_decide (c ∈ [45; 95; 46; 33; 126; 42; 39; 40; 41]).

(** [%XX] *)
Definition upper_hex (d : Z) : Z := if d <? 10 then 48 + d else 55 + d.
Definition percent (b : Z) : list Z := [37; upper_hex (b / 16); upper_hex (b mod 16)].

Definition uri_error : exn := URIError (js "URI malformed").

Fixpoint encodeURIComponent (s : list Z) : result (list Z) :=
  match s with
  | [] => Ok []
  | c :: s' =>
      if uri_unreserved c then let! r := encodeURIComponent s' in Ok (c :: r)
      else if (56320 <=? c) && (c <=? 57343) then Throw uri_error
      else if (55296 <=? c) && (c <=? 56319) then
        match s' with
        | k :: s'' =>
            if (56320 <=? k) && (k <=? 57343) then
              let! r := encodeURIComponent s'' in
              Ok (concat (percent <$> utf8_of ((c - 55296) * 1024 + (k - 56320) + 65536)) ++ r)
            else Throw uri_error
        | [] => Throw uri_error
        end
      else let! r := encodeURIComponent s' in Ok (concat (percent <$> utf8_of c) ++ r)
  end.

Definition octet (s : list Z) : option (Z * list Z) :=
  match s with
  | 37 :: a :: b :: s => match hex_digit a, hex_digit b with Some x, Some y => Some (16 * x + y, s) | _, _ => None end
  | _ => None
  end.
Fixpoint octets (n : nat) (s : list Z) : option (list Z * list Z) :=
  match n with
  | O => Some ([], s)
  | S n => match octet s with
           | Some (b, s) => match octets n s with Some (bs, s) => Some (b :: bs, s) | None => None end
           | None => None
           end
  end.

(** The characters of [s]; [fuel] is at least its length. *)
Fixpoint uri_decode (fuel : nat) (s : list Z) : result (list Z) :=
  match fuel with
  | O => Ok []
  | S fuel =>
      match s with
      | [] => Ok []
      | c :: s' =>
          if negb (c =? 37) then let! r := uri_decode fuel s' in Ok (c :: r)
          else match octet s with
          | None => Throw uri_error
          | Some (b, s1) =>
              if b <? 128 then let! r := uri_decode fuel s1 in Ok (b :: r)
              else
                let n := seq_length b in
                if (n =? 1) || (247 <? b) then Throw uri_error
                else match octets (Z.to_nat (n - 1)) s1 with
                | None => Throw uri_error
                | Some (bs, s2) =>
                    match decode_seq (b :: bs) 0 n with
                    | None => Throw uri_error
                    | Some c => let! r := uri_decode fuel s2 in Ok (utf16_of c ++ r)
                    end
                end
          end
      end
  end.
Definition decodeURIComponent (s : list Z) : result (list Z) := uri_decode (length s) s.

(** ** The helpers of qs *)

(** The table [o]. *)
Definition hexTable (i : Z) : list Z := percent i.

Definition qs_unreserved (c : Z) : bool := bool_decide (c ∈ [45; 46; 95; 126]) || alnum c.

(** The last branch of [t.encode]: the code unit [i] and the one after it, [k]
    ([NaN] past the end, which counts as 0). *)
Definition surrogate_bytes (i k : Z) : list Z :=
  let i := 65536 + ((1023 .& i) .<< 10 .| 1023 .& k) in
  hexTable (240 .| i .>> 18) ++ hexTable (128 .| i .>> 12 .& 63) ++ hexTable (128 .| i .>> 6 .& 63)
    ++ hexTable (128 .| 63 .& i).

(** [t.encode] *)
Fixpoint qs_encode (t : list Z) : list Z :=
  match t with
  | [] => []
  | i :: t' =>
      if qs_unreserved i then i :: qs_encode t'
      else if i <? 128 then hexTable i ++ qs_encode t'
      else if i <? 2048 then hexTable (192 .| i .>> 6) ++ hexTable (128 .| 63 .& i) ++ qs_encode t'
      else if (i <? 55296) || (57344 <=? i) then
        hexTable (224 .| i .>> 12) ++ hexTable (128 .| i .>> 6 .& 63) ++ hexTable (128 .| 63 .& i) ++ qs_encode t'
      else
        match t' with
        | k :: t'' => surrogate_bytes i k ++ qs_encode t''
        | [] => surrogate_bytes i 0
        end
  end.

(** [e.replace(/\+/g, " ")] *)
Definition plus_to_space (s : list Z) : list Z := (λ c, if c =? 43 then 32 else c) <$> s.

(** [t.decode] *)
Definition qs_decode (e : list Z) : list Z :=
  match decodeURIComponent (plus_to_space e) with Ok s => s | Throw _ => e end.

Example uri_ex : encodeURIComponent [97; 32; 8364; 55348; 56606] = Ok (js "a%20%E2%82%AC%F0%9D%84%9E")
  /\ decodeURIComponent (js "a%20%e2%82%ac%F0%9D%84%9E+") = Ok [97; 32; 8364; 55348; 56606; 43]
  /\ decodeURIComponent (js "%C0%80") = Throw uri_error /\ encodeURIComponent [55348] = Throw uri_error.
Proof. vm_compute. auto. Qed.
Example qs_ex : qs_encode [97; 43; 32; 8364; 55348; 56606; 40] = js "a%2B%20%E2%82%AC%F0%9D%84%9E%28"
  /\ qs_decode (js "a+b%2Bc%zz") = js "a+b%2Bc%zz" /\ qs_decode (js "a+b%2Bc") = js "a b+c".
Proof. vm_compute. auto. Qed.

(** ** Round trips *)

Lemma hex_upper d : 0 <= d < 16 -> hex_digit (upper_hex d) = Some d.
Proof. intros Hd. unfold upper_hex, hex_digit. bool_cases; cbn [andb]; f_equal; lia. Qed.

Lemma octet_percent b s : is_byte b -> octet (percent b ++ s) = Some (b, s).
Proof.
  intros Hb. cbn. rewrite !hex_upper by zdm. do 2 f_equal. zdm.
Qed.

Lemma octets_percent bs s : bytes bs -> octets (length bs) (concat (percent <$> bs) ++ s) = Some (bs, s).
Proof.
  induction 1 as [|b bs Hb _ IH]; [done|]. cbn [length octets fmap list_fmap concat].
  rewrite <- app_assoc, octet_percent by done. by rewrite IH.
Qed.

(** The encoding of one character: itself or its escaped UTF-8 bytes. *)
Definition escaped (free : Z -> bool) (c : Z) : list Z := if free c then [c] else concat (percent <$> utf8_of c).

Lemma length_percents bs : length (concat (percent <$> bs)) = (3 * length bs)%nat.
Proof. induction bs as [|b bs IH]; [done|]. cbn in *. lia. Qed.

Lemma uri_decode_escaped free c s fuel : is_scalar c -> (free c = true -> 0 <= c < 128 /\ c <> 37) ->
  (length (escaped free c ++ s) <= fuel)%nat ->
  ∃ fuel', uri_decode fuel (escaped free c ++ s) = (let! r := uri_decode fuel' s in Ok (utf16_of c ++ r)) /\
    (length s <= fuel')%nat.
Proof.
  intros Hc Hf Hl. unfold escaped in *. destruct (free c).
  - destruct (Hf eq_refl) as [? ?]. destruct fuel as [|fuel]; [cbn in Hl; lia|]. exists fuel. split; [|cbn in Hl; lia].
    cbn [app uri_decode]. destruct (Z.eqb_spec c 37); [done|]. cbn [negb].
    unfold utf16_of. destruct (Z.ltb_spec c 65536); [done|lia].
  - destruct (utf8_of_facts c Hc) as (Hb & Hs & Hpos). rewrite length_app, length_percents in Hl.
    destruct fuel as [|fuel]; [unfold len in Hpos; lia|]. exists fuel. split; [|unfold len in Hpos; lia].
    assert (Hd := decode_seq_scalar c [] Hc). rewrite app_nil_r in Hd. unfold utf16_of. unfold is_scalar in Hc.
    destruct (utf8_of c) as [|b bs] eqn:Eu; [done|]. apply Forall_cons in Hb as [Hb Hbs].
    cbn [fmap list_fmap concat]. rewrite <- app_assoc.
    change (uri_decode (S fuel) (percent b ++ concat (percent <$> bs) ++ s)) with
      (if negb (37 =? 37) then let! r := uri_decode fuel ([upper_hex (b / 16); upper_hex (b mod 16)] ++ concat (percent <$> bs) ++ s) in Ok (37 :: r)
       else match octet (percent b ++ concat (percent <$> bs) ++ s) with
          | None => Throw uri_error
          | Some (b, s1) =>
              if b <? 128 then let! r := uri_decode fuel s1 in Ok (b :: r)
              else
                let n := seq_length b in
                if (n =? 1) || (247 <? b) then Throw uri_error
                else match octets (Z.to_nat (n - 1)) s1 with
                | None => Throw uri_error
                | Some (bs, s2) =>
                    match decode_seq (b :: bs) 0 n with
                    | None => Throw uri_error
                    | Some c => let! r := uri_decode fuel s2 in Ok (utf16_of c ++ r)
                    end
                end
          end).
    cbn [Z.eqb Pos.eqb negb]. rewrite octet_percent by done. cbn [arr_get] in Hs. change (num (arr_get (b :: bs) 0)) with b in Hs.
    cbv zeta. rewrite Hs. unfold utf8_of in Eu.
    destruct (Z.ltb_spec c 128).
    { injection Eu as <- <-. destruct (Z.ltb_spec c 128); [|lia]. cbn [fmap list_fmap concat app].
      destruct (Z.ltb_spec c 65536); [done|lia]. }
    assert (Hrange : 192 <= b <= 247).
    { destruct (c <? 2048) eqn:E1; [injection Eu as <- _; zdm|]. destruct (c <? 65536) eqn:E2; injection Eu as <- _; zdm. }
    assert (Hlen : len bs <> 0).
    { destruct (c <? 2048); [injection Eu as _ <-; done|]. destruct (c <? 65536); injection Eu as _ <-; done. }
    rewrite len_cons in *. pose proof (len_nonneg bs).
    destruct (Z.ltb_spec b 128), (Z.eqb_spec (len bs + 1) 1), (Z.ltb_spec 247 b); try lia. cbn [orb].
    replace (Z.to_nat (len bs + 1 - 1)) with (length bs) by (unfold len; lia). rewrite octets_percent by done.
    rewrite Hd. done.
Qed.

Lemma uri_decode_text free cs fuel : Forall is_scalar cs -> (∀ c, free c = true -> 0 <= c < 128 /\ c <> 37) ->
  (length (concat (escaped free <$> cs)) <= fuel)%nat ->
  uri_decode fuel (concat (escaped free <$> cs)) = Ok (utf16_text cs).
Proof.
  intros H Hf. revert fuel. induction H as [|c cs Hc _ IH]; intros fuel Hl; cbn [fmap list_fmap concat] in *.
  { by destruct fuel. }
  destruct (uri_decode_escaped free c (concat (escaped free <$> cs)) fuel Hc (Hf c) Hl) as (fuel' & -> & Hl').
  by rewrite IH.
Qed.

Lemma alnum_ascii c : alnum c = true -> 0 <= c < 128 /\ c <> 37 /\ c <> 43.
Proof. unfold alnum. lia. Qed.

Lemma uri_free c : uri_unreserved c = true -> 0 <= c < 128 /\ c <> 37 /\ c <> 43.
Proof.
  unfold uri_unreserved. intros [E|E]%orb_prop; [by apply alnum_ascii|]. apply bool_decide_eq_true in E.
  repeat (apply elem_of_cons in E as [->|E]; [lia|]). by apply not_elem_of_nil in E.
Qed.
Lemma qs_free c : qs_unreserved c = true -> 0 <= c < 128 /\ c <> 37 /\ c <> 43.
Proof.
  unfold qs_unreserved. intros [E|E]%orb_prop; [|by apply alnum_ascii]. apply bool_decide_eq_true in E.
  repeat (apply elem_of_cons in E as [->|E]; [lia|]). by apply not_elem_of_nil in E.
Qed.

Lemma encodeURIComponent_text cs : Forall is_scalar cs ->
  encodeURIComponent (utf16_text cs) = Ok (concat (escaped uri_unreserved <$> cs)).
Proof.
  induction 1 as [|c cs Hc _ IH]; [done|]. cbn [fmap list_fmap concat]. unfold escaped at 1, utf16_of at 1.
  unfold is_scalar in Hc. destruct (Z.ltb_spec c 65536).
  - cbn [app encodeURIComponent]. rewrite IH. destruct (uri_unreserved c); [done|].
    destruct (Z.leb_spec 56320 c), (Z.leb_spec c 57343), (Z.leb_spec 55296 c), (Z.leb_spec c 56319); cbn [andb]; try lia; done.
  - cbn [app encodeURIComponent]. set (h := 55296 + _). set (w := 56320 + _).
    assert (Hh : 55296 <= h <= 56319) by (subst h; zdm). assert (Hw : 56320 <= w <= 57343) by (subst w; zdm).
    assert (Hu : ∀ x, 128 <= x -> uri_unreserved x = false).
    { intros x Hx. destruct (uri_unreserved x) eqn:E; [apply uri_free in E; lia|done]. }
    rewrite !Hu by lia.
    destruct (Z.leb_spec 56320 h), (Z.leb_spec h 57343), (Z.leb_spec 55296 h), (Z.leb_spec h 56319); try lia. cbn [andb].
    destruct (Z.leb_spec 56320 w), (Z.leb_spec w 57343); try lia. cbn [andb]. rewrite IH. cbn [result_bind].
    replace ((h - 55296) * 1024 + (w - 56320) + 65536) with c by (subst h w; zdm). done.
Qed.

Lemma qs_bytes c : is_scalar c -> 128 <= c ->
  concat (percent <$> utf8_of c) =
    if c <? 2048 then hexTable (192 .| c .>> 6) ++ hexTable (128 .| 63 .& c)
    else if c <? 65536 then hexTable (224 .| c .>> 12) ++ hexTable (128 .| c .>> 6 .& 63) ++ hexTable (128 .| 63 .& c)
    else hexTable (240 .| c .>> 18) ++ hexTable (128 .| c .>> 12 .& 63) ++ hexTable (128 .| c .>> 6 .& 63)
          ++ hexTable (128 .| 63 .& c).
Proof.
  intros Hc Hl. assert (E := code_point_bytes_scalar c Hc). unfold code_point_bytes in E.
  assert (Hm : (c <? 1114112) = true) by (unfold is_scalar in Hc; lia). rewrite Hm in E.
  destruct (Z.ltb_spec c 128); [lia|].
  destruct (c <? 2048); [|destruct (c <? 65536)]; injection E as <-; cbn [fmap list_fmap concat]; unfold hexTable;
    rewrite ?(bor_comm _ 192), ?(bor_comm _ 224), ?(bor_comm _ 240), ?(bor_comm _ 128), ?app_nil_r; done.
Qed.

Lemma qs_encode_text cs : Forall is_scalar cs -> qs_encode (utf16_text cs) = concat (escaped qs_unreserved <$> cs).
Proof.
  induction 1 as [|c cs Hc _ IH]; [done|]. cbn [fmap list_fmap concat]. unfold escaped at 1, utf16_of at 1.
  assert (Hb := qs_bytes c Hc). assert (Hu : ∀ x, 128 <= x -> qs_unreserved x = false).
  { intros x Hx. destruct (qs_unreserved x) eqn:E; [apply qs_free in E; lia|done]. }
  unfold is_scalar in Hc. destruct (Z.ltb_spec c 65536).
  - cbn [app qs_encode]. rewrite IH. destruct (qs_unreserved c); [done|]. destruct (Z.ltb_spec c 128).
    + unfold utf8_of. destruct (Z.ltb_spec c 128); [|lia]. done.
    + rewrite Hb by done. destruct (Z.ltb_spec c 2048); [by rewrite <- app_assoc|].
      destruct (Z.ltb_spec c 65536); [|lia]. destruct (Z.ltb_spec c 55296), (Z.leb_spec 57344 c); try lia; cbn [orb];
      by rewrite <- !app_assoc.
  - rewrite (Hu c) by lia. cbn [app qs_encode]. set (h := 55296 + _). set (w := 56320 + _).
    assert (Hh : 55296 <= h <= 56319) by (subst h; zdm). assert (Hw : 56320 <= w <= 57343) by (subst w; zdm).
    rewrite (Hu h) by lia.
    destruct (Z.ltb_spec h 128), (Z.ltb_spec h 2048), (Z.ltb_spec h 55296), (Z.leb_spec 57344 h); try lia. cbn [orb].
    assert (Ec : 65536 + ((1023 .& h) .<< 10 .| 1023 .& w) = c).
    { autorewrite with js_mask. rewrite shl_small, (bor_add _ _ 10) by (subst h w; zdm). subst h w. zdm. }
    unfold surrogate_bytes. cbv zeta. rewrite Ec, IH, Hb by lia. destruct (Z.ltb_spec c 2048), (Z.ltb_spec c 65536); try lia. by rewrite <- !app_assoc.
Qed.

Lemma plus_free l : Forall (λ c, c <> 43) l -> plus_to_space l = l.
Proof.
  induction 1 as [|c l Hc _ IH]; [done|]. unfold plus_to_space in *. cbn. rewrite IH. by destruct (Z.eqb_spec c 43).
Qed.

Lemma percent_plus b : is_byte b -> Forall (λ c, c <> 43) (percent b).
Proof. intros Hb. unfold percent, upper_hex. bool_cases; repeat (apply Forall_cons_2; [cbn beta; zdm|]); apply Forall_nil_2. Qed.

Lemma escaped_plus free c : is_scalar c -> (free c = true -> c <> 43) -> Forall (λ c, c <> 43) (escaped free c).
Proof.
  intros Hc Hf. unfold escaped. destruct (free c); [apply Forall_singleton; auto|].
  destruct (utf8_of_facts c Hc) as (Hb & _ & _). induction Hb as [|b bs Hb _ IH]; [apply Forall_nil_2|]. cbn [fmap list_fmap concat].
  apply Forall_app. split; [by apply percent_plus|done].
Qed.

Lemma qs_decode_encode cs : Forall is_scalar cs -> qs_decode (qs_encode (utf16_text cs)) = utf16_text cs.
Proof.
  intros Hcs. rewrite qs_encode_text by done. unfold qs_decode. rewrite plus_free.
  - unfold decodeURIComponent. rewrite uri_decode_text; [done|done| |done]. intros c Hc. apply qs_free in Hc. lia.
  - induction Hcs as [|c cs Hc _ IH]; [apply Forall_nil_2|]. cbn [fmap list_fmap concat]. apply Forall_app. split; [|done].
    apply escaped_plus; [done|]. intros E. apply qs_free in E. lia.
Qed.

(** Percent encoding loses nothing: for every well-formed text
    [decodeURIComponent] inverts [encodeURIComponent], which escapes the UTF-8
    bytes of every character outside its set, and the [decode] of qs inverts
    its hand-written [encode], which escapes the same UTF-8 bytes. *)
Theorem uri_roundtrip cs : Forall is_scalar cs ->
  encodeURIComponent (utf16_text cs) = Ok (concat (escaped uri_unreserved <$> cs)) /\
  decodeURIComponent (concat (escaped uri_unreserved <$> cs)) = Ok (utf16_text cs) /\
  qs_encode (utf16_text cs) = concat (escaped qs_unreserved <$> cs) /\
  qs_decode (qs_encode (utf16_text cs)) = utf16_text cs.
Proof.
  intros Hcs. split_and!.
  - by apply encodeURIComponent_text.
  - apply uri_decode_text; [done| |done]. intros c Hc. apply uri_free in Hc. lia.
  - by apply qs_encode_text.
  - by apply qs_decode_encode.
Qed.

Lemma uri_roundtrip_witness : qs_decode (qs_encode [97; 43; 8364; 55348; 56606]) = [97; 43; 8364; 55348; 56606].
Proof.
  apply (uri_roundtrip [97; 43; 8364; 119070]).
  repeat (apply Forall_cons_2; [unfold is_scalar; lia|]). apply Forall_nil_2.
Defined.

End Uri.
