(* ===== verification/Json.v ===== *)
(** JavaScript values as the data modules of the bundle see them: primitives,
    arrays and plain objects, with the operators and built-ins the modules use
    ([typeof], truthiness, [===], property reads and writes, [Object.keys],
    [String], [JSON.parse(JSON.stringify(v))], [split], [join], [indexOf]).

    A number is an integer (the modules only make array indexes, limits and
    the numbers of their input). An object is the list of its own properties in
    the order [Object.keys] gives: array indexes in ascending order, then the
    other names in the order they were added. *)

From stdpp Require Import base list list_numbers numbers strings gmap.
From Stdlib Require Import ZArith Lia.
From S2P Require Import Prelude.

Module Json.

#[warnings="-register-all"]
Inductive jval :=
  | JUndef
  | JNull
  | JBool (b : bool)
  | JNum (z : Z)
  | JStr (s : list Z)
  | JArr (l : list jval)
  | JObj (o : list (list Z * jval)).

Abbreviation jobj := (list (list Z * jval)) (only parsing).

Lemma jval_ind' (P : jval -> Prop) :
  P JUndef -> P JNull -> (∀ b, P (JBool b)) -> (∀ z, P (JNum z)) -> (∀ s, P (JStr s)) ->
  (∀ l, Forall P l -> P (JArr l)) -> (∀ o, Forall (λ kv, P kv.2) o -> P (JObj o)) -> ∀ v, P v.
Proof.
  intros H1 H2 H3 H4 H5 H6 H7. fix IH 1. intros [| |b|z|s|l|o].
  - exact H1.
  - exact H2.
  - apply H3.
  - apply H4.
  - apply H5.
  - apply H6. induction l as [|v l IHl]; constructor; [apply IH|exact IHl].
  - apply H7. induction o as [|[k v] o IHo]; constructor; [apply IH|exact IHo].
Qed.

#[global] Instance jval_eq_dec : EqDecision jval.
Proof.
  unfold EqDecision, RelDecision, Decision. fix IH 1. intros x y. destruct x, y;
    try (right; discriminate); try (left; reflexivity).
  - destruct (decide (b = b0)); [left|right]; congruence.
  - destruct (decide (z = z0)); [left|right]; congruence.
  - destruct (decide (s = s0)); [left|right]; congruence.
  - assert (D : {l = l0} + {l ≠ l0}) by (revert l0; induction l as [|a l IHl]; intros [|b l0];
      [by left|by right|by right|]; destruct (IH a b), (IHl l0); [left|right|right|right]; congruence).
    destruct D; [left|right]; congruence.
  - assert (D : {o = o0} + {o ≠ o0}) by (revert o0; induction o as [|[k a] l IHl]; intros [|[k' b] o0];
      [by left|by right|by right|]; destruct (decide (k = k')), (IH a b), (IHl o0);
      [left|right|right|right|right|right|right|right]; congruence).
    destruct D; [left|right]; congruence.
Defined.

(** ** Decimal numbers *)

Fixpoint dec_loop (fuel : nat) (n : Z) (acc : list Z) : list Z :=
  match fuel with
  | O => acc
  | S fuel => if n <? 10 then 48 + n :: acc else dec_loop fuel (n / 10) (48 + n mod 10 :: acc)
  end.
Definition dec (n : Z) : list Z := dec_loop (S (Z.to_nat (Z.log2 n))) n [].

(** [String(z)] *)
Definition num_to_string (z : Z) : list Z := if z <? 0 then 45 :: dec (- z) else dec z.

Definition digit (c : Z) : bool := (48 <=? c) && (c <=? 57).

Fixpoint dec_value (s : list Z) (acc : Z) : Z :=
  match s with c :: s => dec_value s (10 * acc + (c - 48)) | [] => acc end.

(** The number a string of digits denotes. *)
Definition parse_dec (s : list Z) : option Z :=
  match s with [] => None | _ => if forallb digit s then Some (dec_value s 0) else None end.

(** The array index a property name is: its canonical decimal form. *)
Definition array_index (k : list Z) : option Z :=
  match parse_dec k with
  | Some n => if bool_decide (dec n = k) && (n <? 4294967295) then Some n else None
  | None => None
  end.

(** ** Property reads and writes *)

Section objects.
(** An object: its own properties in their order, with values of a type [A]. *)
Context {A : Type}.
Local Abbreviation object := (list (list Z * A)) (only parsing).

(** [hasOwnProperty] and [o[k]] on own properties. *)
Fixpoint obj_get (o : object) (k : list Z) : option A :=
  match o with (k', v) :: o => if decide (k = k') then Some v else obj_get o k | [] => None end.
Definition obj_keys (o : object) : list (list Z) := fst <$> o.

(** The place of a new property: before the names that are larger indexes or
    no indexes when it is an index itself, at the end otherwise. *)
Definition key_before (k k' : list Z) : bool :=
  match array_index k, array_index k' with
  | Some n, Some m => n <? m
  | Some _, None => true
  | None, _ => false
  end.
Fixpoint obj_insert (o : object) (k : list Z) (v : A) : object :=
  match o with
  | (k', v') :: o' => if key_before k k' then (k, v) :: o else (k', v') :: obj_insert o' k v
  | [] => [(k, v)]
  end.
Fixpoint obj_update (o : object) (k : list Z) (v : A) : object :=
  match o with
  | (k', v') :: o' => if decide (k = k') then (k, v) :: o' else (k', v') :: obj_update o' k v
  | [] => []
  end.
(** [o[k] = v] *)
Definition obj_set (o : object) (k : list Z) (v : A) : object :=
  match obj_get o k with Some _ => obj_update o k v | None => obj_insert o k v end.
(** [delete o[k]] *)
Fixpoint obj_delete (o : object) (k : list Z) : object :=
  match o with
  | (k', v') :: o' => if decide (k = k') then o' else (k', v') :: obj_delete o' k
  | [] => []
  end.

End objects.

(** [a[i] = v] for an index: the array grows with holes. *)
Definition arr_put (l : list jval) (i : Z) (v : jval) : list jval :=
  if i <? len l then arr_set l i v else l ++ replicate (Z.to_nat (i - len l)) JUndef ++ [v].

(** [Array.isArray] and [typeof] *)
Definition is_array (v : jval) : bool := match v with JArr _ => true | _ => false end.
Definition is_object (v : jval) : bool := match v with JArr _ | JObj _ | JNull => true | _ => false end.
Definition truthy (v : jval) : bool :=
  match v with
  | JUndef | JNull => false
  | JBool b => b
  | JNum z => negb (z =? 0)
  | JStr s => match s with [] => false | _ => true end
  | JArr _ | JObj _ => true
  end.

(** ** Text *)

(** [l.join(sep)] *)
Fixpoint join (sep : list Z) (l : list (list Z)) : list Z :=
  match l with
  | [] => []
  | [s] => s
  | s :: l => s ++ sep ++ join sep l
  end.

Fixpoint prefix_at (p s : list Z) : bool :=
  match p, s with
  | [], _ => true
  | a :: p, b :: s => (a =? b) && prefix_at p s
  | _ :: _, [] => false
  end.

(** [s.split(sep)] with a separator that is not empty; [skip] counts the code
    units of a separator that are still to pass. *)
Fixpoint split_go (sep s : list Z) (skip : nat) : list (list Z) :=
  match s with
  | [] => [[]]
  | x :: s' =>
      match skip with
      | S skip => split_go sep s' skip
      | O => if prefix_at sep s then [] :: split_go sep s' (length sep - 1)
             else match split_go sep s' O with h :: t => (x :: h) :: t | [] => [[x]] end
      end
  end.
Definition split (sep s : list Z) : list (list Z) := split_go sep s O.

(** [s.indexOf(p)] *)
Fixpoint index_from (p s : list Z) (i : Z) : Z :=
  if prefix_at p s then i else match s with [] => -1 | _ :: s => index_from p s (i + 1) end.
Definition index_of (p s : list Z) : Z := index_from p s 0.

(** [String(v)] of the values the modules convert. *)
Fixpoint to_string (v : jval) : list Z :=
  match v with
  | JUndef => js "undefined"
  | JNull => js "null"
  | JBool b => if b then js "true" else js "false"
  | JNum z => num_to_string z
  | JStr s => s
  | JArr l => join [44] ((λ v, match v with JUndef | JNull => [] | _ => to_string v end) <$> l)
  | JObj _ => js "[object Object]"
  end.

(** The names every plain object inherits. *)
Definition object_prototype : list (list Z) :=
  js <$> ["constructor"; "__defineGetter__"; "__defineSetter__"; "hasOwnProperty"; "__lookupGetter__";
          "__lookupSetter__"; "isPrototypeOf"; "propertyIsEnumerable"; "toString"; "valueOf"; "__proto__";
          "toLocaleString"]%string.

(** [JSON.parse(JSON.stringify(v))] of an array or object: undefined members
    are dropped, undefined elements become [null]. *)
Fixpoint json_clone (v : jval) : jval :=
  match v with
  | JArr l => JArr ((λ v, match v with JUndef => JNull | _ => json_clone v end) <$> l)
  | JObj o => JObj (omap (λ kv, match kv with (_, JUndef) => None | (k, v) => Some (k, json_clone v) end) o)
  | v => v
  end.

Example json_ex :
  to_string (JArr [JNum 12; JNull; JStr [97]; JNum (-305)]) = js "12,,a,-305"
  /\ obj_keys (obj_set (obj_set (obj_set [] (js "b") JNull) (js "10") JNull) (js "2") JNull) = [js "2"; js "10"; js "b"]
  /\ split [38] (js "a&&b") = [js "a"; []; js "b"] /\ index_of (js "]=") (js "a[b]=c") = 3
  /\ array_index (js "01") = None /\ array_index (js "4294967294") = Some 4294967294.
Proof. vm_compute. repeat split. Qed.

(** * Lemmas *)

(** ** Decimal numbers *)

Lemma dec_value_app s t a : dec_value (s ++ t) a = dec_value t (dec_value s a).
Proof. revert a. induction s as [|c s IH]; intros a; [done|]. cbn. apply IH. Qed.

(** [dec_loop] writes the digits of [n] before [acc]. *)
Lemma dec_loop_spec fuel n acc : 0 <= n -> n < 2 ^ Z.of_nat fuel ->
  ∃ ds, dec_loop fuel n acc = ds ++ acc /\ Forall (λ c, 48 <= c <= 57) ds /\ dec_value ds 0 = n /\
    (fuel <> O -> ds <> []).
Proof.
  revert n acc. induction fuel as [|fuel IH]; intros n acc Hn Hf.
  { exists []. split_and!; [done|apply Forall_nil_2|cbn in *; lia|done]. }
  cbn [dec_loop]. destruct (Z.ltb_spec n 10).
  { exists [48 + n]. split_and!; [done|apply Forall_singleton; lia|cbn; lia|done]. }
  destruct (IH (n / 10) (48 + n mod 10 :: acc)) as (ds & -> & Hd & Hv & _); [zdm| |].
  { rewrite Nat2Z.inj_succ, Z.pow_succ_r in Hf by lia. zdm. }
  exists (ds ++ [48 + n mod 10]). split_and!.
  - by rewrite <- app_assoc.
  - apply Forall_app. split; [done|]. apply Forall_singleton. zdm.
  - rewrite dec_value_app, Hv. cbn. zdm.
  - destruct ds; done.
Qed.

Lemma dec_spec n : 0 <= n -> Forall (λ c, 48 <= c <= 57) (dec n) /\ dec_value (dec n) 0 = n /\ dec n <> [].
Proof.
  intros Hn. unfold dec. destruct (dec_loop_spec (S (Z.to_nat (Z.log2 n))) n [] Hn) as (ds & -> & Hd & Hv & Hne).
  - destruct (decide (n = 0)) as [->|]; [done|]. rewrite Nat2Z.inj_succ, Z2Nat.id by apply Z.log2_nonneg.
    apply Z.log2_spec. lia.
  - rewrite app_nil_r. auto.
Qed.

Lemma parse_dec_dec n : 0 <= n -> parse_dec (dec n) = Some n.
Proof.
  intros Hn. destruct (dec_spec n Hn) as (Hd & Hv & Hne). unfold parse_dec. destruct (dec n) as [|c s] eqn:E; [done|].
  rewrite <- E in *. assert (Hb : forallb digit (dec n) = true); [|by rewrite Hb, Hv].
  unfold digit. clear -Hd.
  induction Hd as [|c s Hc _ IH]; [done|]. cbn. rewrite IH.
  destruct (Z.leb_spec 48 c), (Z.leb_spec c 57); try lia; done.
Qed.

Lemma dec_inj n m : 0 <= n -> 0 <= m -> dec n = dec m -> n = m.
Proof. intros Hn Hm E. apply parse_dec_dec in Hn, Hm. congruence. Qed.

Lemma array_index_dec n : 0 <= n < 4294967295 -> array_index (dec n) = Some n.
Proof.
  intros Hn. unfold array_index. rewrite parse_dec_dec by lia. rewrite bool_decide_true by done.
  destruct (Z.ltb_spec n 4294967295); [done|lia].
Qed.

Lemma array_index_Some k n : array_index k = Some n -> k = dec n.
Proof.
  unfold array_index. destruct (parse_dec k) as [m|]; [|done]. case_bool_decide; [|done].
  destruct (m <? 4294967295); [|done]. cbn. by intros [= <-].
Qed.

(** ** Objects *)

Section object_lemmas.
Context {A : Type}.
Implicit Types o : list (list Z * A).

Lemma obj_get_insert o k v k' : obj_get o k = None ->
  obj_get (obj_insert o k v) k' = if decide (k' = k) then Some v else obj_get o k'.
Proof.
  induction o as [|[j w] o IH]; cbn; [done|]. destruct (decide (k = j)) as [->|Hk]; [done|]. intros Hn.
  destruct (key_before k j); cbn; [done|]. rewrite IH by done. destruct (decide (k' = j)), (decide (k' = k)); congruence.
Qed.

Lemma obj_get_update o k v k' :
  obj_get (obj_update o k v) k' = if decide (k' = k) then match obj_get o k with Some _ => Some v | None => None end else obj_get o k'.
Proof.
  induction o as [|[j w] o IH]; cbn; [by destruct (decide _)|]. destruct (decide (k = j)) as [->|Hk]; cbn.
  - by destruct (decide (k' = j)).
  - rewrite IH. destruct (decide (k' = j)), (decide (k' = k)); congruence.
Qed.

Lemma obj_get_set o k v k' : obj_get (obj_set o k v) k' = if decide (k' = k) then Some v else obj_get o k'.
Proof.
  unfold obj_set. destruct (obj_get o k) eqn:E; [|by apply obj_get_insert].
  rewrite obj_get_update, E. done.
Qed.

Lemma obj_get_delete o k k' : NoDup (obj_keys o) ->
  obj_get (obj_delete o k) k' = if decide (k' = k) then None else obj_get o k'.
Proof.
  induction o as [|[j w] o IH]; cbn; [by destruct (decide _)|]. intros [Hj Hn]%NoDup_cons. destruct (decide (k = j)) as [->|Hk].
  - destruct (decide (k' = j)) as [->|]; [|done]. destruct (obj_get o j) eqn:E; [|done]. destruct Hj.
    clear -E. induction o as [|[i w] o IH]; cbn in *; [done|]. destruct (decide (j = i)); set_solver.
  - cbn. rewrite IH by done. destruct (decide (k' = j)), (decide (k' = k)); congruence.
Qed.

Lemma obj_get_None o k : obj_get o k = None <-> k ∉ obj_keys o.
Proof.
  induction o as [|[j w] o IH]; cbn; [set_solver|]. destruct (decide (k = j)); set_solver.
Qed.
Lemma obj_get_elem o k v : obj_get o k = Some v -> (k, v) ∈ o.
Proof. induction o as [|[j w] o IH]; cbn; [done|]. destruct (decide (k = j)); set_solver. Qed.
Lemma obj_get_in o k v : NoDup (obj_keys o) -> (k, v) ∈ o -> obj_get o k = Some v.
Proof.
  induction o as [|[j w] o IH]; [set_solver|]. cbn. intros [Hj Hn]%NoDup_cons [[= <- <-]|Hin]%elem_of_cons.
  - by rewrite decide_True.
  - rewrite decide_False; [auto|]. intros ->. apply Hj, list_elem_of_fmap. by exists (j, v).
Qed.
Lemma obj_get_app o o' k : obj_get (o ++ o') k = match obj_get o k with Some v => Some v | None => obj_get o' k end.
Proof. induction o as [|[j w] o IH]; cbn; [done|]. by destruct (decide (k = j)). Qed.

(** The order of the own property names. *)
Definition keys_ordered (ks : list (list Z)) : Prop :=
  ∀ i j k k', ks !! i = Some k -> ks !! j = Some k' -> (i < j)%nat -> key_before k' k = false.

(** An object literal of the language: distinct names in their order. *)
Definition obj_ok (o : list (list Z * A)) : Prop := NoDup (obj_keys o) /\ keys_ordered (obj_keys o).

Fixpoint keys_orderedb (ks : list (list Z)) : bool :=
  match ks with [] => true | k :: ks => forallb (λ k', negb (key_before k' k)) ks && keys_orderedb ks end.
Definition obj_okb (o : list (list Z * A)) : bool := bool_decide (NoDup (obj_keys o)) && keys_orderedb (obj_keys o).

Lemma obj_okb_ok o : obj_okb o = true -> obj_ok o.
Proof.
  unfold obj_okb. intros [Hn%bool_decide_eq_true Ho]%andb_prop. split; [done|]. clear Hn.
  induction (obj_keys o) as [|x ks IH]; [intros i j k k' Hi; done|]. cbn in Ho. apply andb_prop in Ho as [Hx Hks].
  intros [|i] [|j] k k' Hi Hj Hij; cbn in *; try lia; [|by apply (IH Hks i j); [..|lia]].
  injection Hi as <-. rewrite forallb_forall in Hx. apply list_elem_of_lookup_2, list_elem_of_In, Hx in Hj.
  by destruct (key_before k' x).
Qed.

Lemma obj_insert_last o k v : (∀ k', k' ∈ obj_keys o -> key_before k k' = false) -> obj_insert o k v = o ++ [(k, v)].
Proof.
  induction o as [|[j w] o IH]; intros H; cbn; [done|]. rewrite H by (cbn; set_solver). f_equal. apply IH. set_solver.
Qed.

Lemma obj_set_last o k v : obj_ok (o ++ [(k, v)]) -> obj_set o k v = o ++ [(k, v)].
Proof.
  intros [Hn Ho]. unfold obj_set, obj_keys in *. rewrite fmap_app in *. cbn in *.
  rewrite (proj2 (obj_get_None o k)).
  - apply obj_insert_last. intros k' (i & Hi)%list_elem_of_lookup. eapply (Ho i (length o)).
    + by apply lookup_app_l_Some.
    + rewrite lookup_app_r by (rewrite length_fmap; lia). by rewrite length_fmap, Nat.sub_diag.
    + apply lookup_lt_Some in Hi. unfold obj_keys in Hi. rewrite length_fmap in Hi. lia.
  - apply NoDup_app in Hn as (_ & Hd & _). intros Hin. apply (Hd k Hin). set_solver.
Qed.

Lemma obj_ok_app_l o o' : obj_ok (o ++ o') -> obj_ok o.
Proof.
  unfold obj_ok, obj_keys. rewrite fmap_app. intros [Hn Ho]. split; [by apply NoDup_app in Hn as (? & _)|].
  intros i j k k' Hi Hj. by apply (Ho i j); apply lookup_app_l_Some.
Qed.

Lemma obj_update_last o k w v : k ∉ obj_keys o -> obj_update (o ++ [(k, w)]) k v = o ++ [(k, v)].
Proof.
  induction o as [|[j x] o IH]; intros H; cbn; [by rewrite decide_True|].
  rewrite decide_False by (intros ->; apply H; cbn; set_solver). f_equal. apply IH. set_solver.
Qed.

End object_lemmas.

(** ** Text *)

Lemma split_free c s : Forall (λ x, x <> c) s -> split [c] s = [s].
Proof.
  unfold split. induction 1 as [|x s Hx _ IH]; [done|]. cbn. destruct (Z.eqb_spec c x); [done|]. cbn. by rewrite IH.
Qed.

Lemma split_app c s t : Forall (λ x, x <> c) s -> split [c] (s ++ c :: t) = s :: split [c] t.
Proof.
  unfold split. induction 1 as [|x s Hx _ IH]; cbn; [by rewrite Z.eqb_refl|].
  destruct (Z.eqb_spec c x); [done|]. cbn. by rewrite IH.
Qed.

(** Splitting a text joined with a separator that is in none of its parts. *)
Lemma split_join c l : l <> [] -> Forall (Forall (λ x, x <> c)) l -> split [c] (join [c] l) = l.
Proof.
  intros Hne H. induction H as [|s l Hs Hl IH]; [done|]. destruct l as [|s' l].
  - by apply split_free.
  - change (join [c] (s :: s' :: l)) with (s ++ c :: join [c] (s' :: l)). rewrite split_app by done. by rewrite IH.
Qed.

Lemma index_from_free c s t i : Forall (λ x, x <> c) s -> index_from [c] (s ++ c :: t) i = i + len s.
Proof.
  intros H. revert i. induction H as [|x s Hx _ IH]; intros i; cbn.
  - rewrite Z.eqb_refl. cbn [andb]. rewrite len_nil. lia.
  - destruct (Z.eqb_spec c x); [congruence|]. cbn. rewrite IH, len_cons. lia.
Qed.
Lemma index_of_free c s t : Forall (λ x, x <> c) s -> index_of [c] (s ++ c :: t) = len s.
Proof. intros. unfold index_of. rewrite index_from_free by done. lia. Qed.

(** [-1]: the text does not occur. *)
Lemma index_from_absent c p s i : Forall (λ x, x <> c) s -> index_from (c :: p) s i = -1.
Proof.
  intros H. revert i. induction H as [|x s Hx _ IH]; intros i; cbn; [done|].
  destruct (Z.eqb_spec c x); [congruence|]. apply IH.
Qed.

End Json.
