(* ===== verification/Punycode.v ===== *)
(** punycode 1.3.2 as bundled (client/docs/swagger-ui/swagger-ui-bundle.js, lines
    31874-31988): the encoding of Unicode domain names in ASCII that the URL
    parser of the page uses.

    Strings are lists of UTF-16 code units. [Math.floor] of a quotient of
    integers is the division of integers, which is exact in doubles for the
    sizes that occur (both are below 2^53 and the divisor is below 2^31). *)

From stdpp Require Import base list list_numbers numbers strings gmap.
From Stdlib Require Import ZArith Lia.
From S2P Require Import Prelude Json.

Module Punycode.

(** ** Parameters and errors *)

Definition maxInt : Z := 2147483647.
Definition base : Z := 36.
Definition tMin : Z := 1.
Definition tMax : Z := 26.
Definition skew : Z := 38.
Definition damp : Z := 700.
Definition initialBias : Z := 72.
Definition initialN : Z := 128.
Definition delimiter : Z := 45.

Definition overflow : exn := RangeError (js "Overflow: input needs wider integers to process").
Definition not_basic : exn := RangeError (js "Illegal input >= 0x80 (not a basic code point)").
Definition invalid_input : exn := RangeError (js "Invalid input").

(** [String.fromCharCode] *)
Definition fromCharCode (c : Z) : Z := c mod 65536.

(** ** UTF-16 *)

Fixpoint ucs2decode (e : list Z) : list Z :=
  match e with
  | [] => []
  | t :: e' =>
      if (55296 <=? t) && (t <=? 56319) then
        match e' with
        | n :: e'' => if 56320 =? (64512 .& n) then ((1023 .& t) .<< 10) + (1023 .& n) + 65536 :: ucs2decode e'' else t :: ucs2decode e'
        | [] => [t]
        end
      else t :: ucs2decode e'
  end.

Definition encode_point (e : Z) : list Z :=
  if 65535 <? e then
    let e := e - 65536 in
    [ fromCharCode (e .>>> 10 .& 1023 .| 55296); fromCharCode (56320 .| 1023 .& e) ]
  else [fromCharCode e].
Definition ucs2encode (e : list Z) : list Z := concat (encode_point <$> e).

(** ** Digits and bias *)

Definition digitToBasic (e t : Z) : Z :=
  e + 22 + 75 * (if e <? 26 then 1 else 0) - ((if t =? 0 then 0 else 1) .<< 5).

(** The digit of a code unit; [base] for what is none. *)
Definition basicToDigit (y : Z) : Z :=
  if y - 48 <? 10 then y - 22 else if y - 65 <? 26 then y - 65 else if y - 97 <? 26 then y - 97 else base.

Definition threshold (k bias : Z) : Z := if k <=? bias then tMin else if bias + tMax <=? k then tMax else k - bias.

(** The loop of [adapt]: [e] and [r] at its end. *)
Fixpoint adapt_loop (fuel : nat) (e r : Z) : Z * Z :=
  match fuel with
  | O => (e, r)
  | S fuel => if ((base - tMin) * tMax .>> 1) <? e then adapt_loop fuel (e / (base - tMin)) (r + base) else (e, r)
  end.
(** [-Infinity], as a bias, is below everything it is compared with. *)
Definition minus_infinity : Z := -2 ^ 60.
Definition adapt (delta numPoints : Z) (firstTime : bool) : Z :=
  let e := if firstTime then delta / damp else (delta .>> 1) in
  let e := e + e / numPoints in
  let '(e, r) := adapt_loop 16 e 0 in
  if e + skew =? 0 then minus_infinity else r + (base - tMin + 1) * e / (e + skew).

(** ** Decoding *)

(** One integer: [w] plus the digits of [es], least significant first. *)
Fixpoint decode_int (es : list Z) (w a k bias : Z) : result (Z * list Z) :=
  match es with
  | [] => Throw invalid_input
  | y :: es =>
      let p := basicToDigit y in
      if (base <=? p) || ((maxInt - w) / a <? p) then Throw overflow
      else
        let w := w + p * a in
        let d := threshold k bias in
        if p <? d then Ok (w, es)
        else if maxInt / (base - d) <? a then Throw overflow
        else decode_int es w (a * (base - d)) (k + base) bias
  end.

(** [b.splice(w, 0, x)] *)
Definition splice_in (b : list Z) (w x : Z) : list Z :=
  let i := Z.to_nat (if w <? 0 then Z.max 0 (len b + w) else w) in take i b ++ x :: drop i b.

(** The main loop; at least one code unit is read in each round. *)
Fixpoint decode_loop (fuel : nat) (es b : list Z) (x w bias : Z) : result (list Z) :=
  match fuel with
  | O => Ok b
  | S fuel =>
      match es with
      | [] => Ok b
      | _ =>
          let i := w in
          let! p := decode_int es w 1 base bias in
          let '(w, es) := p in
          let t := len b + 1 in
          let bias := adapt (w - i) t (0 =? i) in
          if maxInt - x <? w / t then Throw overflow
          else
            let x := x + w / t in
            let w := Z.rem w t in
            decode_loop fuel es (splice_in b w x) x (w + 1) bias
      end
  end.

(** [e.lastIndexOf("-")], and 0 when there is none. *)
Definition last_delimiter (e : list Z) : Z :=
  let n := Json.index_of [delimiter] (reverse e) in if n <? 0 then 0 else len e - 1 - n.

Definition decode (e : list Z) : result (list Z) :=
  let n := last_delimiter e in
  let basic := take (Z.to_nat n) e in
  if existsb (λ c, 128 <=? c) basic then Throw not_basic
  else
    let! b := decode_loop (length e) (if 0 <? n then drop (Z.to_nat (n + 1)) e else e) basic initialN 0 initialBias in
    Ok (ucs2encode b).

(** ** Encoding *)

(** The digits of one integer. *)
Fixpoint encode_int (fuel : nat) (p k bias : Z) : list Z :=
  match fuel with
  | O => []
  | S fuel =>
      let g := threshold k bias in
      if p <? g then [fromCharCode (digitToBasic p 0)]
      else
        let c := p - g in
        let w := base - g in
        fromCharCode (digitToBasic (g + c mod w) 0) :: encode_int fuel (c / w) (k + base) bias
  end.
Definition DIGITS : nat := 32.

(** The state of the encoder: what it has written, delta, bias and the number
    of code points handled. *)
Record encoder := Encoder { out : list Z; delta : Z; bias : Z; handled : Z }.

(** One round over the input, for the code point [t]: [plus] is the number of
    code points handled before it, plus one. *)
Fixpoint encode_round (cps : list Z) (t plus basicLength : Z) (s : encoder) : result encoder :=
  match cps with
  | [] => Ok s
  | y :: cps =>
      let n := if y <? t then delta s + 1 else delta s in
      if (y <? t) && (maxInt <? n) then Throw overflow
      else if y =? t then
        encode_round cps t plus basicLength
          (Encoder (out s ++ encode_int DIGITS n base (bias s)) 0 (adapt n plus (handled s =? basicLength)) (handled s + 1))
      else encode_round cps t plus basicLength (Encoder (out s) n (bias s) (handled s))
  end.

(** The least code point that is at least [t]. *)
Definition next_point (cps : list Z) (t : Z) : Z := foldl (λ u y, if (t <=? y) && (y <? u) then y else u) maxInt cps.

(** The rounds; each handles at least one code point. *)
Fixpoint encode_loop (fuel : nat) (cps : list Z) (t basicLength : Z) (s : encoder) : result (list Z) :=
  match fuel with
  | O => Ok (out s)
  | S fuel =>
      if handled s <? len cps then
        let u := next_point cps t in
        let plus := handled s + 1 in
        if (maxInt - delta s) / plus <? u - t then Throw overflow
        else
          let! s := encode_round cps u plus basicLength (Encoder (out s) (delta s + (u - t) * plus) (bias s) (handled s)) in
          encode_loop fuel cps (u + 1) basicLength (Encoder (out s) (delta s + 1) (bias s) (handled s))
      else Ok (out s)
  end.

Definition encode (e : list Z) : result (list Z) :=
  let cps := ucs2decode e in
  let basic := fromCharCode <$> filter (λ y, y < 128) cps in
  let o := len basic in
  encode_loop (length cps) cps initialN o
    (Encoder (if o =? 0 then basic else basic ++ [delimiter]) 0 initialBias o).

(** ** Domain names *)

(** [map(l, f)], which starts at the end. *)
Definition map_labels (f : list Z -> result (list Z)) (l : list (list Z)) : result (list (list Z)) :=
  let! r := mapR f (reverse l) in Ok (reverse r).

(** The separators of labels: full stops, also ideographic ones. *)
Definition is_dot (c : Z) : bool := (c =? 46) || (c =? 12290) || (c =? 65294) || (c =? 65377).

Definition mapDomain (e : list Z) (f : list Z -> result (list Z)) : result (list Z) :=
  let '(r, e) := match Json.split [64] e with a :: b :: _ => (a ++ [64], b) | _ => ([], e) end in
  let! ls := map_labels f (Json.split [46] ((λ c, if is_dot c then 46 else c) <$> e)) in
  Ok (r ++ Json.join [46] ls).

Definition toASCII (e : list Z) : result (list Z) :=
  mapDomain e (λ e, if existsb (λ c, (c <? 32) || (126 <? c)) e then let! p := encode e in Ok (js "xn--" ++ p) else Ok e).

(** [lower] is [toLowerCase]. *)
Definition toUnicode (lower : list Z -> list Z) (e : list Z) : result (list Z) :=
  mapDomain e (λ e, if Json.prefix_at (js "xn--") e then decode (lower (drop 4 e)) else Ok e).

Example punycode_ex :
  encode [98; 252; 99; 104; 101; 114] = Ok (js "bcher-kva") /\ decode (js "bcher-kva") = Ok [98; 252; 99; 104; 101; 114] /\
  encode [9731; 45; 8984] = Ok (js "--dqo34k") /\ decode (js "--dqo34k") = Ok [9731; 45; 8984] /\
  encode [55357; 56489] = Ok (js "ls8h") /\ decode (js "ls8h") = Ok [55357; 56489] /\
  encode (js "abc") = Ok (js "abc-") /\ decode (js "abc-") = Ok (js "abc") /\ encode [] = Ok [] /\ decode [] = Ok [] /\
  toASCII (js "b." ++ [252] ++ js ".de") = Ok (js "b.xn--tda.de") /\ toUnicode to_lower (js "u@xn--TDA.de") = Ok (js "u@" ++ [252] ++ js ".de") /\
  decode (js "a-b-") = Ok (js "a-b") /\ decode (js "99999999") = Throw overflow /\ decode (js "bb") = Throw invalid_input.
Proof. vm_compute. repeat split. Qed.

(** Code units below [0], and those between the ranges of the digits, count as
    digits as well, with a negative value where they are below [A] or [a]. *)
Example foreign_digits : decode (js "bcher- va") = decode (js "bcher-kva") /\ decode (js "a-:a") = Ok (js "||a").
Proof. vm_compute. done. Qed.

End Punycode.
