(* ===== verification/PunycodeOk.v ===== *)
(** Decoding undoes encoding: proofs about Punycode. *)

From stdpp Require Import base list list_numbers numbers strings gmap.
From Stdlib Require Import ZArith Lia.
From S2P Require Import Prelude Json Punycode.

Module PunycodeOk.
Import Punycode.

(** ** UTF-16 *)

Definition is_unit (c : Z) : Prop := 0 <= c < 65536.
Definition is_point (c : Z) : Prop := 0 <= c < 1114112.

Lemma low_surrogate n : is_unit n -> (56320 =? (64512 .& n)) = (56320 <=? n) && (n <=? 57343).
Proof.
  unfold is_unit. intros Hn. assert (E : (64512 .& n) = 1024 * (n / 1024)).
  { unfold Int32.band. rewrite !to_int32_id by lia. rewrite (Z.div_mod n 1024) at 1 by lia. rewrite Z.add_comm.
    change 64512 with (0 + 2 ^ 10 * 63). change 1024 with (2 ^ 10). rewrite land_join by (change (2 ^ 10) with 1024; zdm). change 63 with (Z.ones 6).
    rewrite Z.land_0_l, (Z.land_comm (Z.ones 6)), Z.land_ones by lia. change (2 ^ 10) with 1024. change (2 ^ 6) with 64. rewrite Z.mod_small by zdm. lia. }
  rewrite E. destruct (Z.eqb_spec 56320 (1024 * (n / 1024))), (Z.leb_spec 56320 n), (Z.leb_spec n 57343); cbn [andb]; try done; zdm.
Qed.

Lemma pair_point t n : 55296 <= t <= 56319 -> 56320 <= n <= 57343 ->
  ((1023 .& t) .<< 10) + (1023 .& n) + 65536 = (t - 55296) * 1024 + (n - 56320) + 65536.
Proof. intros Ht Hn. rewrite !band_1023_l. rewrite shl_small by (lia || zdm). change (2 ^ 10) with 1024. zdm. Qed.

Lemma encode_pair t n : 55296 <= t <= 56319 -> 56320 <= n <= 57343 -> encode_point ((t - 55296) * 1024 + (n - 56320) + 65536) = [t; n].
Proof.
  intros Ht Hn. unfold encode_point. rewrite (proj2 (Z.ltb_lt _ _)) by lia. set (e := _ - 65536). assert (He : 0 <= e < 1048576) by (unfold e; lia).
  rewrite shr_div by lia. rewrite band_1023, band_1023_l. change (2 ^ 10) with 1024.
  rewrite (bor_comm _ 55296), (bor_add 55296 _ 10), (bor_add 56320 _ 10) by zdm. unfold fromCharCode, e. repeat f_equal; zdm.
Qed.
Lemma encode_unit t : is_unit t -> encode_point t = [t].
Proof. intros Ht. unfold encode_point, fromCharCode, is_unit in *. rewrite (proj2 (Z.ltb_ge _ _)) by lia. by rewrite Z.mod_small. Qed.

(** Code points, and the units they came from. *)
Lemma ucs2_ok e : Forall is_unit e -> ucs2encode (ucs2decode e) = e /\ Forall is_point (ucs2decode e) /\ (length (ucs2decode e) <= length e)%nat.
Proof.
  remember (length e) as m eqn:Em. assert (Hm : (length e <= m)%nat) by lia. clear Em. revert e Hm. induction m as [|m IH]; intros e Hm He; [by destruct e; [|cbn in Hm; lia]|].
  destruct e as [|t e]; [done|]. apply Forall_cons in He as [Ht He]. cbn [length] in Hm. cbn [ucs2decode].
  assert (Hone : ucs2encode (t :: ucs2decode e) = t :: e /\ Forall is_point (t :: ucs2decode e) /\ (length (t :: ucs2decode e) <= S m)%nat).
  { destruct (IH e ltac:(lia) He) as (E & Hp & Hl). unfold ucs2encode in *. cbn [fmap list_fmap concat length]. rewrite encode_unit, E by done.
    split_and!; [done| |lia]. apply Forall_cons. split; [unfold is_unit, is_point in *; lia|done]. }
  destruct ((55296 <=? t) && (t <=? 56319)) eqn:Eh; [|done]. apply andb_true_iff in Eh as [?%Z.leb_le ?%Z.leb_le]. destruct e as [|n e]; [done|].
  pose proof He as [Hn He']%Forall_cons. rewrite low_surrogate by done. destruct ((56320 <=? n) && (n <=? 57343)) eqn:El; [|done].
  apply andb_true_iff in El as [?%Z.leb_le ?%Z.leb_le]. rewrite pair_point by done. cbn [length] in Hm. destruct (IH e ltac:(lia) He') as (E & Hp & Hl).
  unfold ucs2encode in *. cbn [fmap list_fmap concat length]. rewrite encode_pair, E by done. split_and!; [done| |lia]. apply Forall_cons. split; [unfold is_point; lia|done].
Qed.

(** ** Integers *)

(** The characters of the digits: a to z and 0 to 9. *)
Definition is_digit_char (c : Z) : Prop := 97 <= c <= 122 \/ 48 <= c <= 57.

Lemma digit_roundtrip d : 0 <= d < 36 -> basicToDigit (fromCharCode (digitToBasic d 0)) = d /\ is_digit_char (fromCharCode (digitToBasic d 0)).
Proof.
  intros Hd. unfold is_digit_char, digitToBasic, basicToDigit, fromCharCode. change ((if 0 =? 0 then 0 else 1) .<< 5) with 0. destruct (Z.ltb_spec d 26).
  - rewrite Z.mod_small by lia. rewrite !(proj2 (Z.ltb_ge _ _)) by lia. rewrite (proj2 (Z.ltb_lt _ _)) by lia. lia.
  - rewrite Z.mod_small by lia. rewrite (proj2 (Z.ltb_lt _ _)) by lia. lia.
Qed.

Lemma threshold_range k b : 1 <= threshold k b <= 26.
Proof. unfold threshold, tMin, tMax. destruct (Z.leb_spec k b), (Z.leb_spec (b + 26) k); lia. Qed.

(** The integers that are written are below 35^6. *)
Definition LIMIT : Z := 35 ^ 6.

Lemma encode_int_digits fuel q k b : 0 <= q -> Forall is_digit_char (encode_int fuel q k b).
Proof.
  revert q k. induction fuel as [|fuel IH]; intros q k Hq; [apply Forall_nil_2|]. cbn [encode_int]. pose proof (threshold_range k b). unfold base.
  destruct (Z.ltb_spec q (threshold k b)).
  - apply Forall_singleton. apply digit_roundtrip. lia.
  - apply Forall_cons. split; [apply digit_roundtrip; zdm|]. apply IH. apply Z.div_pos; lia.
Qed.

Lemma decode_encode_int fuel q k b w a rest (j : nat) : 0 <= q < 10 ^ Z.of_nat fuel -> 0 <= w -> 1 <= a -> w + q * a < LIMIT ->
  (k < b + 36 -> a = 35 ^ Z.of_nat j) ->
  decode_int (encode_int (S fuel) q k b ++ rest) w a k b = Ok (w + q * a, rest).
Proof.
  revert q k w a j. induction fuel as [|fuel IH]; intros q k w a j Hq Hw Ha HN Hj;
    pose proof (threshold_range k b) as Hg; set (g := threshold k b) in *; unfold LIMIT in HN; change (35 ^ 6) with 1838265625 in HN.
  - assert (q = 0) as -> by (cbn in Hq; lia). cbn [encode_int]. fold g. rewrite (proj2 (Z.ltb_lt 0 g)) by lia. cbn [app decode_int].
    destruct (digit_roundtrip 0) as [-> _]; [lia|]. fold g. rewrite (proj2 (Z.ltb_lt 0 g)) by lia. cbn [orb]. rewrite (proj2 (Z.ltb_ge _ 0)); [done|].
    unfold base, maxInt. apply Z.div_pos; lia.
  - set (f := S fuel) in *. cbn [encode_int]. fold g. unfold base. destruct (Z.ltb_spec q g) as [Hlt|Hge].
    + cbn [app decode_int]. destruct (digit_roundtrip q) as [-> _]; [lia|]. fold g. unfold base, maxInt. rewrite (proj2 (Z.leb_gt 36 q)) by lia. cbn [orb].
      rewrite (proj2 (Z.ltb_ge _ q)) by (apply Z.div_le_lower_bound; lia). by rewrite (proj2 (Z.ltb_lt q g)).
    + set (c := q - g). set (p := g + c mod (36 - g)). assert (Hc : c = (36 - g) * (c / (36 - g)) + c mod (36 - g)) by (apply Z.div_mod; lia).
      assert (Hm : 0 <= c mod (36 - g) < 36 - g) by (apply Z.mod_pos_bound; lia). assert (Hd : 0 <= c / (36 - g)) by (apply Z.div_pos; lia).
      assert (Hp : g <= p <= q) by nia. cbn [app decode_int]. destruct (digit_roundtrip p) as [-> _]; [lia|]. fold g. unfold base, maxInt. rewrite (proj2 (Z.leb_gt 36 p)) by lia.
      cbn [orb]. rewrite (proj2 (Z.ltb_ge _ p)) by (apply Z.div_le_lower_bound; nia). rewrite (proj2 (Z.ltb_ge p g)) by lia.
      assert (Hnext : a * (36 - g) <= 1838265625).
      { destruct (Z.lt_ge_cases k (b + 36)) as [Hk|Hk].
        - specialize (Hj Hk). assert (Hj6 : Z.of_nat j < 6) by (apply (Z.pow_lt_mono_r_iff 35); [lia|lia|]; change (35 ^ 6) with 1838265625; nia).
          assert (a <= 35 ^ 5) by (rewrite Hj; apply Z.pow_le_mono_r; lia). change (35 ^ 5) with 52521875 in *. nia.
        - assert (g = 26) by (unfold g, threshold, tMax; rewrite (proj2 (Z.leb_gt k b)), (proj2 (Z.leb_le (b + 26) k)) by lia; done). nia. }
      rewrite (proj2 (Z.ltb_ge _ a)) by (apply Z.div_le_lower_bound; lia).
      rewrite (IH _ _ _ _ (S j)); [do 2 f_equal; nia| |nia|nia|unfold LIMIT; change (35 ^ 6) with 1838265625; nia|].
      * split; [lia|]. unfold f in Hq. rewrite Nat2Z.inj_succ, Z.pow_succ_r in Hq by lia. nia.
      * intros Hk. rewrite Nat2Z.inj_succ, Z.pow_succ_r by lia. rewrite Hj by lia. assert (g = 1) as -> by (unfold g, threshold, tMin; by rewrite (proj2 (Z.leb_le k b)) by lia). lia.
Qed.


(** ** Bias *)

(** The loop of [adapt] ends within its fuel. *)
Lemma adapt_loop_ends e r : e < 2 ^ 53 -> (adapt_loop 16 e r).1 <= 455.
Proof.
  intros He. assert (G : ∀ n e r, e < 456 * 35 ^ Z.of_nat n -> (adapt_loop n e r).1 <= 455).
  { induction n as [|n IH]; intros e' r' He'; [cbn in *; lia|]. cbn [adapt_loop]. change ((base - tMin) * tMax .>> 1) with 455. destruct (Z.ltb_spec 455 e'); [|cbn; lia].
    apply IH. rewrite Nat2Z.inj_succ, Z.pow_succ_r in He' by lia. apply Z.div_lt_upper_bound; unfold base, tMin; lia. }
  apply G. assert (2 ^ 53 < 456 * 35 ^ Z.of_nat 16) by done. lia.
Qed.

(** The number of points does not matter when delta is small. *)
Lemma adapt_small d p p' : 0 <= d < p -> p <= p' -> d < 2147483648 -> adapt d p false = adapt d p' false.
Proof.
  intros Hd Hp Hm. unfold adapt. rewrite sar_div by lia. change (2 ^ 1) with 2. rewrite (Z.div_small (d / 2) p), (Z.div_small (d / 2) p') by zdm. done.
Qed.

(** ** Steps of the decoder *)

Record decoder := Decoder { todo : list Z; built : list Z; point : Z; pos : Z; dbias : Z }.

(** One round of the main loop. *)
Definition dec_step (d d' : decoder) : Prop :=
  ∃ w, decode_int (todo d) (pos d) 1 base (dbias d) = Ok (w, todo d') /\
    let t := len (built d) + 1 in
    w / t <= maxInt - point d /\ built d' = splice_in (built d) (Z.rem w t) (point d + w / t) /\ point d' = point d + w / t /\
    pos d' = Z.rem w t + 1 /\ dbias d' = adapt (w - pos d) t (0 =? pos d).

Lemma decode_int_shorter es w a k b w' es' : decode_int es w a k b = Ok (w', es') -> (length es' < length es)%nat.
Proof.
  revert w a k. induction es as [|y es IH]; intros w a k H; [done|]. cbn [decode_int] in H. cbn [length].
  repeat (case_match; try done); [injection H as <- <-; lia|]. apply IH in H. lia.
Qed.

Lemma loop_reaches d d' fuel : rtc dec_step d d' -> todo d' = [] -> (length (todo d) <= fuel)%nat ->
  decode_loop fuel (todo d) (built d) (point d) (pos d) (dbias d) = Ok (built d').
Proof.
  intros Hr Hd'. revert fuel. induction Hr as [d|d d1 d' Hs Hr IH]; intros fuel Hf; [destruct fuel; cbn; by rewrite ?Hd'|].
  destruct Hs as (w & Hi & Hs). cbn zeta in Hs. destruct Hs as (Hm & Hb & Hp & Hpos & Hbias). pose proof (decode_int_shorter _ _ _ _ _ _ _ Hi) as Hl.
  destruct fuel as [|fuel]; [lia|]. cbn [decode_loop]. destruct (todo d) as [|y es] eqn:E; [done|]. rewrite Hi. cbn [result_bind].
  rewrite (proj2 (Z.ltb_ge _ _)) by lia. rewrite <- Hb, <- Hbias, <- Hpos, <- Hp. apply IH; [done|lia].
Qed.

(** ** The encoder and the decoder *)

Section rounds.
Variables (cps : list Z) (o : Z).
Hypothesis points : Forall is_point cps.
Hypothesis short : len cps <= 1600.

(** The code points handled at the code point [t], when [pre] has been visited
    in this round and [suf] has not; [inserted] of them are in [pre]. *)
Definition inserted (t : Z) (pre : list Z) : list Z := filter (λ y, y <= t) pre.
Definition pending (t : Z) (suf : list Z) : list Z := filter (λ y, y < t) suf.

(** The decoder has read what the encoder has written: it has built the code
    points handled, and delta counts the way to the next place. *)
Definition agree (t : Z) (pre suf : list Z) (s : encoder) (d : decoder) : Prop :=
  built d = inserted t pre ++ pending t suf /\ handled s = len (built d) /\ bias s = dbias d /\
  delta s + pos d = (t - point d) * (len (built d) + 1) + len (inserted t pre) /\
  0 <= delta s /\ 0 <= point d <= t /\ (pos d = 0 /\ handled s = o \/ 1 <= pos d /\ o < handled s).

(** The encoder adapts with the number of points at the start of its round. *)
Definition same_adapt (t plus : Z) (suf : list Z) (s : encoder) (d : decoder) : Prop :=
  plus = len (built d) + 1 \/ plus <= len (built d) + 1 /\ o < handled s /\ delta s + len (pending t suf) < plus.

Definition with_todo (d : decoder) (es : list Z) : decoder := Decoder es (built d) (point d) (pos d) (dbias d).

Lemma filter_len P `{∀ x : Z, Decision (P x)} (l : list Z) : len (filter P l) <= len l.
Proof. unfold len. induction l as [|x l IH]; [done|]. rewrite filter_cons. destruct (decide (P x)); cbn; lia. Qed.

Lemma inserted_snoc t pre y : inserted t (pre ++ [y]) = inserted t pre ++ (if decide (y <= t) then [y] else []).
Proof. unfold inserted. rewrite filter_app, filter_cons, filter_nil. done. Qed.
Lemma pending_cons t y suf : pending t (y :: suf) = (if decide (y < t) then [y] else []) ++ pending t suf.
Proof. unfold pending. rewrite filter_cons. by destruct (decide _). Qed.

(** Positions stay below the limit. *)
Lemma agree_bound t pre suf s d : agree t pre suf s d -> len (inserted t pre) + len (pending t suf) < len cps -> t < 1114112 ->
  delta s + pos d < LIMIT /\ 0 <= pos d.
Proof.
  intros (Hb & _ & _ & Hd & Hn & Hp & Hf) Hl Ht. rewrite Hb, len_app in Hd. pose proof (len_nonneg (inserted t pre)). pose proof (len_nonneg (pending t suf)).
  split; [|lia]. unfold LIMIT. change (35 ^ 6) with 1838265625. rewrite Hd. nia.
Qed.

(** A code point that is written is inserted. *)
Lemma insert_step t pre suf plus s d : pre ++ t :: suf = cps -> agree t pre (t :: suf) s d -> same_adapt t plus (t :: suf) s d -> 0 <= plus ->
  let es := encode_int DIGITS (delta s) base (bias s) in
  let s' := Encoder (out s ++ es) 0 (adapt (delta s) plus (handled s =? o)) (handled s + 1) in
  let d' := Decoder [] (inserted t (pre ++ [t]) ++ pending t suf) t (len (inserted t pre) + 1) (bias s') in
  agree t (pre ++ [t]) suf s' d' /\ ∀ rest, dec_step (with_todo d (es ++ rest)) (with_todo d' rest).
Proof.
  intros Hc Ha Hsa Hplus es s' d'. pose proof Ha as (Hb & Hh & Hbi & Hd & Hn & Hp & Hf).
  assert (Ht : is_point t) by (rewrite <- Hc in points; by apply Forall_app in points as [_ [Ht _]%Forall_cons]). unfold is_point in Ht.
  rewrite pending_cons, decide_False in Hb by lia. cbn [app] in Hb. assert (Hins : inserted t (pre ++ [t]) = inserted t pre ++ [t]) by (by rewrite inserted_snoc, decide_True by lia).
  pose proof (len_nonneg (inserted t pre)) as H0. pose proof (len_nonneg (pending t suf)) as H1.
  assert (Hl : len (inserted t pre) + len (pending t suf) < len cps).
  { rewrite <- Hc, len_app, len_cons. pose proof (filter_len (λ y, y <= t) pre : len (inserted t pre) <= _). pose proof (filter_len (λ y, y < t) suf : len (pending t suf) <= _). lia. }
  destruct (agree_bound t pre (t :: suf) s d Ha) as [Hlim Hpos]; [rewrite pending_cons, decide_False by lia; done|lia|].
  assert (Hlb : len (built d) = len (inserted t pre) + len (pending t suf)) by (by rewrite Hb, len_app).
  set (L := len (built d) + 1) in *. assert (Hq : (delta s + pos d) / L = t - point d) by (symmetry; apply (Z.div_unique _ _ _ (len (inserted t pre))); lia).
  assert (Hr : Z.rem (delta s + pos d) L = len (inserted t pre)).
  { rewrite Z.rem_mod_nonneg by lia. symmetry. apply (Z.mod_unique _ _ (t - point d)); lia. }
  split.
  - unfold agree. cbn. rewrite Hins, !len_app. change (len [t]) with 1. rewrite Hh, Hb, len_app in *. split_and!; try done; try lia.
  - intros rest. exists (pos d + delta s). cbn [todo built point pos dbias with_todo]. fold L. rewrite (Z.add_comm (pos d)), Hq, Hr. split_and!.
    + rewrite Z.add_comm, <- (Z.mul_1_r (delta s)). unfold es. rewrite <- Hbi. apply (decode_encode_int 31 (delta s) base (bias s) (pos d) 1 rest 0); [|lia|lia|lia|done].
      split; [lia|]. unfold LIMIT in Hlim. change (35 ^ 6) with 1838265625 in Hlim. assert (1838265625 < 10 ^ Z.of_nat 31) by done. lia.
    + unfold maxInt. lia.
    + replace (point d + (t - point d)) with t by lia. unfold splice_in. rewrite (proj2 (Z.ltb_ge _ _)) by lia. unfold len at 1 2. rewrite Nat2Z.id, Hb.
      rewrite take_app_length, drop_app_length. cbn [built d']. by rewrite Hins, <- app_assoc.
    + cbn; lia.
    + done.
    + change (dbias d') with (adapt (delta s) plus (handled s =? o)). replace (delta s + pos d - pos d) with (delta s) by lia. replace (0 =? pos d) with (handled s =? o).
      2: { destruct Hf as [[-> ->]|[? ?]]; [by rewrite Z.eqb_refl|]. rewrite (proj2 (Z.eqb_neq (handled s) o)), (proj2 (Z.eqb_neq 0 (pos d))) by lia. done. }
      destruct Hsa as [-> | (Hple & Ho & Hds)]; [done|]. rewrite (proj2 (Z.eqb_neq (handled s) o)) by lia. apply adapt_small; [|done|unfold LIMIT in Hlim; change (35 ^ 6) with 1838265625 in Hlim; lia].
      pose proof (len_nonneg (pending t (t :: suf))). lia.
Qed.

Lemma built_len t pre suf d s : pre ++ suf = cps -> agree t pre suf s d -> len (built d) <= len cps /\ len (inserted t pre) <= len (built d).
Proof.
  intros Hc (Hb & _). rewrite Hb, len_app, <- Hc, len_app.
  pose proof (filter_len (λ y, y <= t) pre : len (inserted t pre) <= _). pose proof (filter_len (λ y, y < t) suf : len (pending t suf) <= _). pose proof (len_nonneg (pending t suf)). lia.
Qed.
Lemma delta_bound t pre suf s d : pre ++ suf = cps -> agree t pre suf s d -> t < 1114112 -> 0 <= pos d /\ delta s + 1 <= maxInt.
Proof.
  intros Hc Ha Ht. destruct (built_len _ _ _ _ _ Hc Ha) as [H0 H1]. pose proof Ha as (_ & _ & _ & Hd & Hn & Hp & Hf). pose proof (len_nonneg (inserted t pre)).
  split; [lia|]. unfold maxInt. nia.
Qed.

(** Moving past a code point that is not written. *)
Lemma agree_skip t pre y suf s d : agree t pre (y :: suf) s d -> y <> t ->
  agree t (pre ++ [y]) suf (Encoder (out s) (if y <? t then delta s + 1 else delta s) (bias s) (handled s)) d.
Proof.
  intros (Hb & Hh & Hbi & Hd & Hn & Hp & Hf) Hy. unfold agree. cbn. rewrite inserted_snoc. rewrite pending_cons in Hb.
  destruct (Z.ltb_spec y t).
  - rewrite decide_True in Hb by lia. rewrite decide_True by lia. rewrite <- app_assoc, len_app. cbn [app] in *. change (len [y]) with 1. split_and!; try done; lia.
  - rewrite decide_False in Hb by lia. rewrite decide_False by lia. rewrite app_nil_r. split_and!; done || lia.
Qed.
Lemma same_adapt_skip t plus y suf s d : same_adapt t plus (y :: suf) s d -> y <> t ->
  same_adapt t plus suf (Encoder (out s) (if y <? t then delta s + 1 else delta s) (bias s) (handled s)) d.
Proof.
  intros [->|(Hp & Ho & Hd)] Hy; [by left|]. right. cbn. split_and!; [done|done|]. rewrite pending_cons in Hd. destruct (Z.ltb_spec y t).
  - rewrite decide_True, len_app in Hd by lia. change (len [y]) with 1 in Hd. lia.
  - rewrite decide_False in Hd by lia. done.
Qed.

Lemma round_ok t plus suf pre s d : pre ++ suf = cps -> agree t pre suf s d -> same_adapt t plus suf s d -> plus = len (pending t cps) + 1 -> t < 1114112 ->
  ∃ s' es d', encode_round suf t plus o s = Ok s' /\ out s' = out s ++ es /\ Forall is_digit_char es /\ agree t cps [] s' d' /\
    (∀ rest, rtc dec_step (with_todo d (es ++ rest)) (with_todo d' rest)) /\
    handled s <= handled s' /\ (t ∈ suf -> handled s < handled s').
Proof.
  revert pre s d. induction suf as [|y suf IH]; intros pre s d Hc Ha Hsa Hplus Ht.
  { rewrite app_nil_r in Hc. subst pre. exists s, [], d. rewrite app_nil_r. split_and!; try done. by intros ?%not_elem_of_nil. }
  cbn [encode_round]. destruct (delta_bound t pre (y :: suf) s d Hc Ha Ht) as [Hpos Hdb].
  assert (E : (y <? t) && (maxInt <? (if y <? t then delta s + 1 else delta s)) = false).
  { destruct (y <? t); [|done]. cbn [andb]. apply Z.ltb_ge. lia. }
  rewrite E. clear E. rewrite cons_middle, app_assoc in Hc. destruct (Z.eqb_spec y t) as [->|Hy].
  - rewrite Z.ltb_irrefl. rewrite <- app_assoc in Hc. cbn [app] in Hc.
    destruct (insert_step t pre suf plus s d Hc Ha Hsa) as [Ha' Hstep]; [pose proof (len_nonneg (pending t cps)); lia|].
    match type of Ha' with agree _ _ _ ?x ?z => set (s1 := x) in *; set (d1 := z) in * end.
    destruct (IH (pre ++ [t]) s1 d1) as (s' & es & d' & Hr & Ho & Hes & Ha2 & Hsteps & Hle & Hmore); [by rewrite <- app_assoc|done| |done|done|].
    { right. cbn [handled s1 delta built d1]. split_and!.
      - destruct Hsa as [-> | (Hp & _)]; pose proof Ha as (Hb & _); destruct Ha' as (Hb' & _); rewrite Hb in *; rewrite pending_cons, decide_False in * by lia;
          cbn [app] in *; rewrite inserted_snoc, decide_True by lia; rewrite !len_app in *; change (len [t]) with 1; lia.
      - destruct Ha as (_ & Hh & _ & _ & _ & _ & Hf). lia.
      - rewrite Hplus, <- Hc. unfold pending. rewrite filter_app, filter_cons, decide_False by lia. rewrite len_app. pose proof (len_nonneg (filter (λ y, y < t) pre)). lia. }
    exists s', (encode_int DIGITS (delta s) base (bias s) ++ es), d'. split_and!; [exact Hr|rewrite Ho; unfold s1; cbn [out]; by rewrite <- app_assoc| |done| | |].
    + apply Forall_app. split; [apply encode_int_digits; by destruct Ha as (_ & _ & _ & _ & Hn & _)|done].
    + intros rest. rewrite <- app_assoc. eapply rtc_l; [apply Hstep|apply Hsteps].
    + cbn in Hle. lia.
    + cbn in Hle. lia.
  - destruct (IH (pre ++ [y]) _ d Hc (agree_skip _ _ _ _ _ _ Ha Hy) (same_adapt_skip _ _ _ _ _ _ Hsa Hy) Hplus Ht) as (s' & es & d' & Hr & Ho & Hes & Ha2 & Hsteps & Hle & Hmore).
    exists s', es, d'. split_and!; try done. intros Hin. apply Hmore. by apply elem_of_cons in Hin as [->|].
Qed.

(** The next code point is the least one that is left. *)
Lemma next_point_ok (l : list Z) t : (∃ y, y ∈ l /\ t <= y) -> Forall is_point l ->
  next_point l t ∈ l /\ t <= next_point l t /\ ∀ y, y ∈ l -> t <= y -> next_point l t <= y.
Proof.
  assert (G : ∀ l u, Forall is_point l -> let r := foldl (λ u y, if (t <=? y) && (y <? u) then y else u) u l in
    r <= u /\ (r = u \/ r ∈ l /\ t <= r) /\ ∀ y, y ∈ l -> t <= y -> r <= y).
  { clear. induction l as [|z l IH]; intros u Hl; cbn; [split_and!; [done|by left|by intros y ?%not_elem_of_nil]|]. apply Forall_cons in Hl as [Hz Hl].
    set (u' := if (t <=? z) && (z <? u) then z else u). assert (Hu : u' <= u /\ (u' = u \/ u' = z /\ t <= z) /\ (t <= z -> u' <= z)).
    { unfold u'. destruct (Z.leb_spec t z), (Z.ltb_spec z u); cbn [andb]; split_and!; auto; lia. }
    destruct (IH u' Hl) as (H1 & H2 & H3). destruct Hu as (Hu1 & Hu2 & Hu3). split_and!; [lia| |].
    - destruct H2 as [->|[Hin Hle]]; [|right; split; [by right|done]]. destruct Hu2 as [->|[-> ?]]; [by left|right; split; [left|done]].
    - intros y [->|Hy]%elem_of_cons Hty; [specialize (Hu3 Hty); lia|by apply H3]. }
  intros (y & Hy & Hty) Hl. destruct (G l maxInt Hl) as (H1 & H2 & H3). fold (next_point l t) in *. specialize (H3 y Hy Hty) as Hyu.
  assert (is_point y) by (rewrite Forall_forall in Hl; by apply Hl). destruct H2 as [E|[Hin Hle]]; [unfold is_point, maxInt in *; lia|]. done.
Qed.

Lemma pending_all t (l : list Z) : len (pending t l) = len l -> pending t l = l.
Proof.
  unfold pending, len. induction l as [|x l IH]; [done|]. rewrite filter_cons. destruct (decide (x < t)); cbn.
  - intros E. rewrite IH; [done|lia].
  - pose proof (filter_len (λ y, y < t) l). unfold len in *. lia.
Qed.
Lemma pending_left t (l : list Z) : len (pending t l) < len l -> ∃ y, y ∈ l /\ t <= y.
Proof.
  unfold pending, len. induction l as [|x l IH]; [cbn; lia|]. rewrite filter_cons. destruct (decide (x < t)); cbn.
  - intros E. destruct IH as (y & Hy & Hty); [lia|]. exists y. split; [by right|done].
  - intros _. exists x. split; [left|lia].
Qed.
Lemma pending_same t u (l : list Z) : t <= u -> (∀ y, y ∈ l -> t <= y -> u <= y) -> pending u l = pending t l.
Proof.
  intros Htu Hl. unfold pending. induction l as [|x l IH]; [done|]. rewrite !filter_cons, IH by (intros y Hy; apply Hl; by right).
  specialize (Hl x ltac:(left)). destruct (decide (x < u)), (decide (x < t)); done || lia.
Qed.
Lemma inserted_pending u (l : list Z) : inserted u l = pending (u + 1) l.
Proof. unfold inserted, pending. induction l as [|x l IH]; [done|]. rewrite !filter_cons, IH. destruct (decide (x <= u)), (decide (x < u + 1)); done || lia. Qed.

Lemma loop_ok fuel t s d : agree t [] cps s d -> len cps - handled s <= Z.of_nat fuel ->
  ∃ es d', encode_loop fuel cps t o s = Ok (out s ++ es) /\ Forall is_digit_char es /\ built d' = cps /\
    ∀ rest, rtc dec_step (with_todo d (es ++ rest)) (with_todo d' rest).
Proof.
  revert t s d. induction fuel as [|fuel IH]; intros t s d Ha Hf; pose proof Ha as (Hb & Hh & Hbi & Hd & Hn & Hp & Hfi); cbn [inserted filter app] in Hb;
    change (inserted t []) with (@nil Z) in *; cbn [app] in Hb; change (len []) with 0 in Hd.
  all: assert (Hdone : len cps <= handled s -> ∃ es d', Ok (out s) = Ok (out s ++ es) /\ Forall is_digit_char es /\ built d' = cps /\
    ∀ rest, rtc dec_step (with_todo d (es ++ rest)) (with_todo d' rest)).
  1,3: intros Hge; exists [], d; rewrite app_nil_r; split_and!; [done|apply Forall_nil_2| |done]; rewrite Hb; apply pending_all; rewrite <- Hb, <- Hh;
    pose proof (filter_len (λ y, y < t) cps : len (pending t cps) <= _) as Hle; rewrite <- Hb in Hle; lia.
  - cbn [encode_loop]. apply Hdone. lia.
  - cbn [encode_loop]. destruct (Z.ltb_spec (handled s) (len cps)) as [Hlt|Hge]; [|by apply Hdone].
    set (u := next_point cps t). destruct (next_point_ok cps t) as (Hin & Htu & Hmin); [apply pending_left; by rewrite <- Hb, <- Hh|done|]. fold u in Hin, Htu, Hmin.
    assert (Hu : is_point u) by (rewrite Forall_forall in points; by apply points). unfold is_point in Hu.
    assert (Hpu : pending u cps = built d) by (by rewrite Hb, (pending_same t u)).
    set (s1 := Encoder (out s) (delta s + (u - t) * (handled s + 1)) (bias s) (handled s)). pose proof (len_nonneg (built d)) as Hlen.
    assert (Ha1 : agree u [] cps s1 d).
    { unfold agree. change (inserted u []) with (@nil Z). cbn [app s1 delta bias handled]. change (len []) with 0. rewrite Hpu. split_and!; try done; try nia. }
    destruct (delta_bound u [] cps s1 d eq_refl Ha1 ltac:(lia)) as [Hpos Hdb]. cbn [delta s1] in Hdb.
    rewrite (proj2 (Z.ltb_ge _ (u - t))) by (apply Z.div_le_lower_bound; lia).
    destruct (round_ok u (handled s + 1) cps [] s1 d eq_refl Ha1) as (s2 & es & d2 & Hr & Ho & Hes & Ha2 & Hsteps & _ & Hmore); [left; by rewrite Hh|by rewrite Hpu, Hh|lia|].
    rewrite Hr. cbn [result_bind]. set (s3 := Encoder (out s2) (delta s2 + 1) (bias s2) (handled s2)).
    assert (Ha3 : agree (u + 1) [] cps s3 d2).
    { destruct Ha2 as (Hb2 & Hh2 & Hbi2 & Hd2 & Hn2 & Hp2 & Hfi2). change (pending u []) with (@nil Z) in Hb2. rewrite app_nil_r in Hb2.
      unfold agree. change (inserted (u + 1) []) with (@nil Z). cbn [app s3 delta bias handled]. change (len []) with 0. rewrite <- inserted_pending. rewrite <- Hb2 in Hd2. split_and!; try done; try lia. }
    destruct (IH (u + 1) s3 d2 Ha3) as (es' & d' & He & Hes' & Hb' & Hsteps'); [specialize (Hmore Hin); cbn [handled s3]; cbn in Hmore; lia|].
    exists (es ++ es'), d'. rewrite He. cbn [out s3]. rewrite Ho. cbn [out s1]. split_and!; [by rewrite <- app_assoc|by apply Forall_app|done|].
    intros rest. rewrite <- app_assoc. etransitivity; [apply Hsteps|apply Hsteps'].
Qed.
End rounds.


(** ** The whole *)

Lemma not_delimiter c : is_digit_char c -> c <> delimiter.
Proof. unfold is_digit_char, delimiter. lia. Qed.

Lemma no_delimiter es : Forall is_digit_char es -> Forall (λ c, c <> delimiter) (reverse es).
Proof. intros Hes. apply Forall_reverse. eapply Forall_impl; [exact Hes|]. apply not_delimiter. Qed.
Lemma last_delimiter_app a es : Forall is_digit_char es -> last_delimiter (a ++ delimiter :: es) = len a.
Proof.
  intros Hes. unfold last_delimiter. rewrite reverse_app, reverse_cons, <- app_assoc. cbn [app]. rewrite Json.index_of_free by (by apply no_delimiter).
  unfold len. rewrite length_reverse, length_app. cbn [length]. destruct (Z.ltb_spec (Z.of_nat (length es)) 0); lia.
Qed.
Lemma last_delimiter_none es : Forall is_digit_char es -> last_delimiter es = 0.
Proof. intros Hes. unfold last_delimiter, Json.index_of. by rewrite Json.index_from_absent by (by apply no_delimiter). Qed.

Definition is_basic (c : Z) : Prop := 0 <= c < 128.

Lemma basic_ok cps : Forall is_point cps -> fromCharCode <$> filter (λ y, y < 128) cps = pending 128 cps /\ Forall is_basic (pending 128 cps).
Proof.
  unfold pending. induction cps as [|x cps IH]; intros Hc; [done|]. apply Forall_cons in Hc as [Hx Hc]. destruct (IH Hc) as [E Hb]. rewrite !filter_cons.
  destruct (decide (x < 128)); [|done]. cbn. rewrite E. unfold fromCharCode, is_point, is_basic in *. rewrite Z.mod_small by lia. split; [done|].
  apply Forall_cons. split; [lia|done].
Qed.
Lemma no_high (l : list Z) : Forall is_basic l -> existsb (λ c, 128 <=? c) l = false.
Proof. induction 1 as [|x l Hx _ IH]; [done|]. cbn. unfold is_basic in Hx. by rewrite (proj2 (Z.leb_gt 128 x)), IH by lia. Qed.

(** The basic code points are code units of the text. *)
Lemma pending_units e : Forall is_unit e -> ∀ c, c ∈ pending 128 (ucs2decode e) -> c ∈ e.
Proof.
  remember (length e) as m eqn:Em. assert (Hm : (length e <= m)%nat) by lia. clear Em. revert e Hm. induction m as [|m IH]; intros e Hm He c Hc; [by destruct e; [|cbn in Hm; lia]|].
  destruct e as [|t e]; [done|]. apply Forall_cons in He as [Ht He]. cbn [length] in Hm.
  assert (Hone : c ∈ pending 128 (t :: ucs2decode e) -> c ∈ t :: e).
  { rewrite pending_cons, elem_of_app. intros [Hin|Hin]; [|right; apply IH; [lia|done|done]]. destruct (decide (t < 128)); [|by apply not_elem_of_nil in Hin]. apply list_elem_of_singleton in Hin as ->. left. }
  cbn [ucs2decode] in Hc. destruct ((55296 <=? t) && (t <=? 56319)) eqn:Eh; [|by apply Hone]. destruct e as [|n e]; [by apply Hone|].
  pose proof He as [Hn He']%Forall_cons. destruct (56320 =? (64512 .& n)) eqn:El; [|by apply Hone].
  apply andb_true_iff in Eh as [?%Z.leb_le ?%Z.leb_le]. rewrite low_surrogate in El by done. apply andb_true_iff in El as [?%Z.leb_le ?%Z.leb_le].
  rewrite pair_point, pending_cons, decide_False in Hc by lia. right. right. apply IH; [cbn in Hm; lia|done|done].
Qed.

(** What is written for a text: its basic code points, hyphens and digits. *)
Definition written (e : list Z) (c : Z) : Prop := is_basic c /\ (c ∈ e \/ c = delimiter \/ is_digit_char c).

Lemma encode_decode e : Forall is_unit e -> len e <= 1600 -> ∃ p, encode e = Ok p /\ Forall (written e) p /\ decode p = Ok e.
Proof.
  intros He Hlen. destruct (ucs2_ok e He) as (Hround & Hpts & Hl). unfold encode. set (cps := ucs2decode e) in *.
  destruct (basic_ok cps Hpts) as [-> Hbasic]. set (b := pending 128 cps) in *. assert (Hshort : len cps <= 1600) by (unfold len in *; lia).
  set (s0 := Encoder _ 0 initialBias (len b)). set (d0 := Decoder [] b initialN 0 initialBias).
  assert (Ha : agree (len b) initialN [] cps s0 d0).
  { unfold agree. change (inserted initialN []) with (@nil Z). cbn. change (len []) with 0. split_and!; try done; lia. }
  destruct (loop_ok cps (len b) Hpts Hshort (length cps) initialN s0 d0 Ha) as (es & d' & Heq & Hes & Hb' & Hsteps); [cbn [handled s0]; pose proof (len_nonneg b); unfold len in *; lia|].
  specialize (Hsteps []). rewrite app_nil_r in Hsteps. exists (out s0 ++ es). split; [done|].
  assert (Hascii : Forall (written e) es) by (eapply Forall_impl; [exact Hes|]; intros c Hc; split; [unfold is_digit_char, is_basic in *; lia|tauto]).
  assert (Hwb : Forall (written e) b).
  { rewrite Forall_forall in Hbasic |- *. intros c Hc. split; [by apply Hbasic|]. left. by apply pending_units. }
  assert (Hdec : ∀ fuel, (length es <= fuel)%nat -> decode_loop fuel es b initialN 0 initialBias = Ok cps).
  { intros fuel Hf. rewrite <- Hb'. apply (loop_reaches (with_todo d0 es) (with_todo d' []) fuel Hsteps eq_refl Hf). }
  cbn [out s0]. destruct (Z.eqb_spec (len b) 0) as [E|E].
  - assert (b = []) as Eb by (by apply length_zero_iff_nil, Nat2Z.inj). rewrite Eb in *. cbn [app]. split; [done|]. unfold decode. rewrite last_delimiter_none by done. cbn [Z.to_nat take existsb].
    change (0 <? 0) with false. cbn iota. by rewrite Hdec, <- Hround by done.
  - split; [apply Forall_app; split; [apply Forall_app; split; [done|apply Forall_singleton; split; [done|tauto]]|done]|].
    rewrite <- app_assoc. cbn [app]. unfold decode. rewrite last_delimiter_app by done. replace (Z.to_nat (len b)) with (length b) by (unfold len; lia). rewrite take_app_length, no_high by done.
    rewrite (proj2 (Z.ltb_lt 0 (len b))) by (pose proof (len_nonneg b); lia). replace (Z.to_nat (len b + 1)) with (length b + 1)%nat by (unfold len; lia).
    rewrite <- drop_drop, drop_app_length. cbn [drop]. by rewrite Hdec, <- Hround by (rewrite length_app; cbn; lia).
Qed.

(** C33. A text survives punycode: every text of up to 1600 UTF-16 code units,
    whatever they are, is encoded without an overflow, in code points below 128,
    and decoding gives it back. *)
Theorem punycode_roundtrip e : Forall is_unit e -> len e <= 1600 -> ∃ p, encode e = Ok p /\ Forall is_basic p /\ decode p = Ok e.
Proof.
  intros He Hl. destruct (encode_decode e He Hl) as (p & Hp & Hw & Hd). exists p. split_and!; try done. eapply Forall_impl; [exact Hw|]. by intros c [Hc _].
Qed.
Lemma punycode_roundtrip_witness : ∃ p, encode [98; 252; 55357; 56489; 55357] = Ok p /\ Forall is_basic p /\ decode p = Ok [98; 252; 55357; 56489; 55357].
Proof. apply punycode_roundtrip; [repeat (apply Forall_cons; split; [unfold is_unit; lia|]); apply Forall_nil_2|vm_compute; discriminate]. Defined.

(** ** Domain names *)

Definition label_char (c : Z) : Prop := is_dot c = false /\ c <> 64.

Lemma map_labels_ok f g (l : list (list Z)) : Forall (λ x, f x = Ok (g x)) l -> map_labels f l = Ok (g <$> l).
Proof.
  intros Hl. unfold map_labels. rewrite (mapR_ok f _ g) by (by apply Forall_reverse). cbn. by rewrite fmap_reverse, reverse_involutive.
Qed.
Lemma join_chars (P : Z -> Prop) ls : P 46 -> Forall (Forall P) ls -> Forall P (Json.join [46] ls).
Proof.
  intros H46. induction 1 as [|x l Hx Hl IH]; [apply Forall_nil_2|]. destruct l as [|y l]; [done|].
  change (Json.join [46] (x :: y :: l)) with (x ++ 46 :: Json.join [46] (y :: l)). apply Forall_app. split; [done|]. by apply Forall_cons.
Qed.
Lemma map_join f ls : f 46 = 46 -> Forall (Forall (λ c, f c = c)) ls -> f <$> Json.join [46] ls = Json.join [46] ls.
Proof.
  intros H46 Hls. apply (join_chars (λ c, f c = c)) in Hls; [|done]. induction Hls as [|c l Hc _ IH]; [done|]. cbn. by rewrite Hc, IH.
Qed.
Lemma map_domain ls f g : ls <> [] -> Forall (Forall label_char) ls -> Forall (λ x, f x = Ok (g x)) ls ->
  mapDomain (Json.join [46] ls) f = Ok (Json.join [46] (g <$> ls)).
Proof.
  intros Hne Hc Hf. unfold mapDomain. rewrite Json.split_free.
  - rewrite map_join; [|done|].
    + rewrite Json.split_join; [|done|].
      * by rewrite (map_labels_ok f g).
      * eapply Forall_impl; [exact Hc|]. intros l Hl. eapply Forall_impl; [exact Hl|]. intros c [Hd _] ->. done.
    + eapply Forall_impl; [exact Hc|]. intros l Hl. eapply Forall_impl; [exact Hl|]. intros c [Hd _]. by rewrite Hd.
  - apply (join_chars (λ c, c <> 64)); [done|]. eapply Forall_impl; [exact Hc|]. intros l Hl. eapply Forall_impl; [exact Hl|]. by intros c [_ ?].
Qed.

(** A label in lower case, without a prefix that marks it as encoded. *)
Definition label_ok (l : list Z) : Prop :=
  Forall is_unit l /\ len l <= 1600 /\ Forall label_char l /\ Forall (λ c, ~ (65 <= c <= 90)) l /\ Json.prefix_at (js "xn--") l = false.

(** The ASCII form of a label. *)
Definition ascii_label (l : list Z) : list Z :=
  if existsb (λ c, (c <? 32) || (126 <? c)) l then js "xn--" ++ match encode l with Ok p => p | Throw _ => [] end else l.

Lemma to_lower_id p : Forall (λ c, ~ (65 <= c <= 90)) p -> to_lower p = p.
Proof.
  unfold to_lower. induction 1 as [|c p Hc _ IH]; [done|]. cbn. rewrite IH. destruct (Z.leb_spec 65 c), (Z.leb_spec c 90); cbn [andb]; done || lia.
Qed.

Section domain.
Variable lower : list Z -> list Z.
Hypothesis lower_ascii : ∀ s, Forall is_basic s -> lower s = to_lower s.

Lemma label_roundtrip l : label_ok l ->
  (if existsb (λ c, (c <? 32) || (126 <? c)) l then let! p := encode l in Ok (js "xn--" ++ p) else Ok l) = Ok (ascii_label l) /\
  Forall (λ c, is_basic c /\ label_char c) (ascii_label l) /\
  (if Json.prefix_at (js "xn--") (ascii_label l) then decode (lower (drop 4 (ascii_label l))) else Ok (ascii_label l)) = Ok l.
Proof.
  intros (Hu & Hl & Hc & Hcase & Hpre). unfold ascii_label. destruct (existsb _ l) eqn:E.
  - destruct (encode_decode l Hu Hl) as (p & -> & Hw & Hd). cbn [result_bind]. split; [done|].
    assert (Hp : Forall (λ c, (is_basic c /\ label_char c) /\ ~ (65 <= c <= 90)) p).
    { eapply Forall_impl; [exact Hw|]. intros c [Hb Hin]. rewrite Forall_forall in Hc, Hcase. destruct Hin as [Hin|Hdig].
      - split; [|by apply Hcase]. split; [done|by apply Hc].
      - assert (97 <= c <= 122 \/ 48 <= c <= 57 \/ c = 45) by (unfold is_digit_char, delimiter in Hdig; lia). unfold label_char, is_dot. split; [|lia]. split; [done|]. split; [|lia].
        by rewrite !(proj2 (Z.eqb_neq c _)) by lia. }
    split.
    + apply Forall_app. split; [|eapply Forall_impl; [exact Hp|by intros c [? _]]]. repeat (apply Forall_cons; split; [by repeat split|]). apply Forall_nil_2.
    + cbn [js]. change (Json.prefix_at (js "xn--") (js "xn--" ++ p)) with true. cbn iota. change (drop 4 (js "xn--" ++ p)) with p.
      rewrite lower_ascii by (eapply Forall_impl; [exact Hp|]; by intros c [[? _] _]). rewrite to_lower_id by (eapply Forall_impl; [exact Hp|]; by intros c [_ ?]). done.
  - split; [done|]. rewrite Hpre. split; [|done]. rewrite Forall_forall in Hc |- *. intros c Hin. split; [|by apply Hc].
    destruct ((c <? 32) || (126 <? c)) eqn:Ec.
    + apply not_true_iff_false in E. destruct E. apply existsb_exists. exists c. split; [by apply list_elem_of_In|done].
    + apply orb_false_iff in Ec as [?%Z.ltb_ge ?%Z.ltb_ge]. unfold is_basic. lia.
Qed.

(** A domain name survives its ASCII form: a name whose labels are texts of
    up to 1600 code units without full stops, at signs and capital letters, and
    do not start like an encoded label, is turned into code points below 128
    and back into itself. *)
Theorem domain_roundtrip ls : ls <> [] -> Forall label_ok ls ->
  ∃ p, toASCII (Json.join [46] ls) = Ok p /\ Forall is_basic p /\ toUnicode lower p = Ok (Json.join [46] ls).
Proof.
  intros Hne Hls. assert (Hr : Forall (λ l, _) ls) by (eapply Forall_impl; [exact Hls|apply label_roundtrip]).
  exists (Json.join [46] (ascii_label <$> ls)). split_and!.
  - apply map_domain; [done| |].
    + eapply Forall_impl; [exact Hls|]. by intros l (_ & _ & ? & _).
    + eapply Forall_impl; [exact Hr|]. by intros l (? & _).
  - apply join_chars; [done|]. apply Forall_fmap. eapply Forall_impl; [exact Hr|]. intros l (_ & Hl & _). eapply Forall_impl; [exact Hl|]. by intros c [? _].
  - unfold toUnicode. rewrite (map_domain _ _ (λ x, match (if Json.prefix_at (js "xn--") x then decode (lower (drop 4 x)) else Ok x) with Ok y => y | Throw _ => [] end)).
    + rewrite <- list_fmap_compose. do 2 f_equal. rewrite <- (list_fmap_id ls) at 2. apply Forall_fmap_ext_1. eapply Forall_impl; [exact Hr|].
      intros l (_ & _ & Hl). cbv beta delta [compose]. by rewrite Hl.
    + by intros E%fmap_nil_inv.
    + apply Forall_fmap. eapply Forall_impl; [exact Hr|]. intros l (_ & Hl & _). eapply Forall_impl; [exact Hl|]. by intros c [_ ?].
    + apply Forall_fmap. eapply Forall_impl; [exact Hr|]. intros l (_ & _ & Hl). cbv beta delta [compose]. by rewrite Hl.
Qed.
End domain.

Lemma domain_roundtrip_witness :
  ∃ p, toASCII (Json.join [46] [[98; 252]; [100; 101]]) = Ok p /\ Forall is_basic p /\ toUnicode to_lower p = Ok (Json.join [46] [[98; 252]; [100; 101]]).
Proof.
  apply (domain_roundtrip to_lower); [done|done|].
  repeat (apply Forall_cons; split; [split_and!; [repeat (apply Forall_cons; split; [unfold is_unit; lia|]); apply Forall_nil_2|vm_compute; discriminate|
    repeat (apply Forall_cons; split; [by split|]); apply Forall_nil_2|repeat (apply Forall_cons; split; [lia|]); apply Forall_nil_2|done]|]). apply Forall_nil_2.
Defined.

End PunycodeOk.
