(* ===== verification/Query.v ===== *)
(** The [querystring] and [cookie] modules of the bundle
    (client/docs/swagger-ui/swagger-ui-bundle.js lines 32008-32070 and
    33287-33363). *)

From stdpp Require Import base list list_numbers numbers strings gmap.
From Stdlib Require Import ZArith Lia.
From S2P Require Import Prelude Base64 Buffer BufferText Uri Json.

Module Query.
Import Base64 Buffer BufferText Uri Json.

(** ** querystring *)

(** [t = t || "&"] *)
Definition or_default (t : option (list Z)) (d : list Z) : list Z :=
  match t with Some (c :: t) => c :: t | _ => d end.

(** [e.replace(/\+/g, "%20")] *)
Definition plus_to_percent (s : list Z) : list Z := concat ((λ c, if c =? 43 then js "%20" else [c]) <$> s).

(** The two sides of the first separator. *)
Definition split_pair (n v : list Z) : list Z * list Z :=
  let m := index_of n v in
  if 0 <=? m then (take (Z.to_nat m) v, drop (Z.to_nat (m + 1)) v) else (v, []).

(** A repeated name collects its values in an array; [a["__proto__"]] is no own
    property and cannot be set to a string. *)
Definition add_value (a : jobj) (d h : list Z) : jobj :=
  if decide (d = js "__proto__") then a
  else match obj_get a d with
       | Some (JArr l) => obj_set a d (JArr (l ++ [JStr h]))
       | Some v => obj_set a d (JArr [v; JStr h])
       | None => obj_set a d (JStr h)
       end.

Definition parse_part (n : list Z) (a : jobj) (part : list Z) : result jobj :=
  let '(f, p) := split_pair n (plus_to_percent part) in
  let! d := decodeURIComponent f in
  let! h := decodeURIComponent p in
  Ok (add_value a d h).

(** [querystring.parse]; [i] is [options.maxKeys]. *)
Definition parse (e : jval) (t n : option (list Z)) (i : option Z) : result jobj :=
  match e with
  | JStr (c :: e) =>
      let parts := split (or_default t [38]) (c :: e) in
      let s := match i with Some m => m | None => 1000 end in
      let l := if (0 <? s) && (s <? len parts) then s else len parts in
      foldR (parse_part (or_default n [61])) [] (take (Z.to_nat l) parts)
  | _ => Ok []
  end.

(** The function [r]: what a value is written as. *)
Definition stringifyPrimitive (v : jval) : list Z :=
  match v with
  | JStr s => s
  | JBool b => if b then js "true" else js "false"
  | JNum z => num_to_string z
  | _ => []
  end.
Definition encode_value (v : jval) : result (list Z) := encodeURIComponent (stringifyPrimitive v).

(** The own properties of an array or object. *)
Definition entries (e : jval) : jobj :=
  match e with
  | JObj o => o
  | JArr l => imap (λ i v, (dec (Z.of_nat i), v)) l
  | _ => []
  end.

Definition stringify_entry (t n : list Z) (kv : list Z * jval) : result (list Z) :=
  let! k := encodeURIComponent kv.1 in
  match kv.2 with
  | JArr l => let! vs := mapR (λ v, let! s := encode_value v in Ok ((k ++ n) ++ s)) l in Ok (join t vs)
  | v => let! s := encode_value v in Ok ((k ++ n) ++ s)
  end.

(** [querystring.stringify] *)
Definition stringify (e : jval) (t n : option (list Z)) (u : jval) : result (list Z) :=
  let t := or_default t [38] in
  let n := or_default n [61] in
  match e with
  | JObj _ | JArr _ => let! parts := mapR (stringify_entry t n) (entries e) in Ok (join t parts)
  | _ =>
      if truthy u then
        let! k := encode_value u in
        let! s := encode_value e in
        Ok (k ++ n ++ s)
      else Ok []
  end.

Example querystring_ex :
  stringify (JObj [(js "a b", JArr [JNum 1; JBool true; JNull]); (js "c", JStr (js "&"))]) None None JUndef
    = Ok (js "a%20b=1&a%20b=true&a%20b=&c=%26")
  /\ parse (JStr (js "a+b=1&a+b=2&c&__proto__=x&=y")) None None None
    = Ok [(js "a b", JArr [JStr (js "1"); JStr (js "2")]); (js "c", JStr []); ([], JStr (js "y"))]
  /\ parse (JStr (js "a=%")) None None None = Throw uri_error
  /\ stringify (JStr (js "v")) (Some (js ";")) (Some (js ":")) (JStr (js "k")) = Ok (js "k:v").
Proof. vm_compute. auto. Qed.

(** ** cookie *)

(** [e.split(/; */)]: a semicolon and the spaces after it. *)
Fixpoint drop_spaces (s : list Z) : list Z := match s with 32 :: s => drop_spaces s | _ => s end.
Definition split_cookies (e : list Z) : list (list Z) :=
  match split [59] e with h :: t => h :: (drop_spaces <$> t) | [] => [] end.

(** [u]: the decoded text, or the text as it is when decoding fails. *)
Definition tryDecode (e : list Z) (t : list Z -> result (list Z)) : list Z :=
  match t e with Ok s => s | Throw _ => e end.

(** [d = d.slice(1, -1)] when [d] starts with a quote. *)
Definition unquote (d : list Z) : list Z :=
  match d with 34 :: d' => take (length d' - 1) d' | _ => d end.

(** One cookie: the first of a name counts, a name that every object inherits
    never does ([void 0 == n[p]]). *)
Definition parse_cookie (s : list Z -> result (list Z)) (n : jobj) (c : list Z) : jobj :=
  let f := index_of [61] c in
  if f <? 0 then n
  else
    let p := trim (take (Z.to_nat f) c) in
    let d := unquote (trim (drop (Z.to_nat (f + 1)) c)) in
    if bool_decide (p ∈ object_prototype) then n
    else match obj_get n p with
         | Some _ => n
         | None => obj_set n p (JStr (tryDecode d s))
         end.

(** [cookie.parse] of a string, with [options.decode]. *)
Definition cookie_parse (e : jval) (decode : option (list Z -> result (list Z))) : result jobj :=
  match e with
  | JStr e =>
      let s := match decode with Some d => d | None => decodeURIComponent end in
      Ok (foldl (parse_cookie s) [] (split_cookies e))
  | _ => Throw (TypeError (js "argument str must be a string"))
  end.

(** [/^[\u0009\u0020-\u007e\u0080-\u00ff]+$/] *)
Definition field_char (c : Z) : bool :=
  (c =? 9) || ((32 <=? c) && (c <=? 126)) || ((128 <=? c) && (c <=? 255)).
Definition field_content (s : list Z) : bool := match s with [] => false | _ => forallb field_char s end.

(** The options of [cookie.serialize]; a maximum age that is no number is
    [Some None], an [expires] without [toUTCString] is [Some None]. *)
Inductive same_site :=
  | SameSiteUnset
  | SameSiteTrue
  | SameSiteText (s : list Z)
  | SameSiteOther.
Record cookie_options := {
  encode_option : option (option (list Z -> result (list Z)));
  maxAge : option (option Z);
  domain : list Z;
  path : list Z;
  expires : option (option (list Z));
  httpOnly : bool;
  secure : bool;
  sameSite : same_site }.
Definition no_options : cookie_options := {|
  encode_option := None; maxAge := None; domain := []; path := []; expires := None;
  httpOnly := false; secure := false; sameSite := SameSiteUnset |}.

(** An optional attribute with its text, [what] naming it in the error. *)
Definition text_attribute (what : string) (label s : list Z) : result (list Z) :=
  match s with
  | [] => Ok []
  | _ => if field_content s then Ok (label ++ s) else Throw (TypeError (js what))
  end.

Definition same_site_attribute (s : same_site) : result (list Z) :=
  match s with
  | SameSiteUnset | SameSiteText [] => Ok []
  | SameSiteTrue => Ok (js "; SameSite=Strict")
  | SameSiteText s =>
      if decide (to_lower s = js "lax") then Ok (js "; SameSite=Lax")
      else if decide (to_lower s = js "strict") then Ok (js "; SameSite=Strict")
      else Throw (TypeError (js "option sameSite is invalid"))
  | SameSiteOther => Throw (TypeError (js "option sameSite is invalid"))
  end.

(** [cookie.serialize] *)
Definition serialize (e t : list Z) (r : cookie_options) : result (list Z) :=
  let! i := match encode_option r with
            | None => Ok encodeURIComponent
            | Some (Some f) => Ok f
            | Some None => Throw (TypeError (js "option encode is invalid"))
            end in
  if negb (field_content e) then Throw (TypeError (js "argument name is invalid"))
  else
    let! u := i t in
    if (match u with [] => false | _ => true end) && negb (field_content u)
    then Throw (TypeError (js "argument val is invalid"))
    else
      let s := e ++ [61] ++ u in
      let! age := match maxAge r with
                  | None => Ok []
                  | Some None => Throw (PlainError (js "maxAge should be a Number"))
                  | Some (Some l) => Ok (js "; Max-Age=" ++ num_to_string l)
                  end in
      let! dom := text_attribute "option domain is invalid" (js "; Domain=") (domain r) in
      let! pth := text_attribute "option path is invalid" (js "; Path=") (path r) in
      let! ex := match expires r with
                 | None => Ok []
                 | Some None => Throw (TypeError (js "option expires is invalid"))
                 | Some (Some d) => Ok (js "; Expires=" ++ d)
                 end in
      let! ss := same_site_attribute (sameSite r) in
      Ok (s ++ age ++ dom ++ pth ++ ex ++ (if httpOnly r then js "; HttpOnly" else [])
            ++ (if secure r then js "; Secure" else []) ++ ss).

Example cookie_ex :
  serialize (js "sid") (js "a b") {| encode_option := None; maxAge := Some (Some 60); domain := []; path := js "/";
    expires := None; httpOnly := true; secure := false; sameSite := SameSiteText (js "LAX") |}
    = Ok (js "sid=a%20b; Max-Age=60; Path=/; HttpOnly; SameSite=Lax")
  /\ cookie_parse (JStr (js "a = 1;   b=%7B;a=2;flag; toString=x; c=%")) None
    = Ok [(js "a", JStr (js "1")); (js "b", JStr (js "{")); (js "c", JStr (js "%"))]
  /\ serialize (js "a=b; Path") (js "/x") no_options = Ok (js "a=b; Path=%2Fx")
  /\ serialize [] (js "x") no_options = Throw (TypeError (js "argument name is invalid")).
Proof. vm_compute. auto. Qed.

(** ** Encoded text *)

(** A well-formed string: no lone surrogates. *)
Definition well_formed (s : list Z) : Prop := ∃ cs, Forall is_scalar cs /\ s = utf16_text cs.

Definition uri_char (c : Z) : Prop := uri_unreserved c = true \/ c = 37.

Lemma percent_uri b : is_byte b -> Forall uri_char (percent b).
Proof.
  intros Hb. assert (Hh : ∀ d, 0 <= d < 16 -> uri_char (upper_hex d)).
  { intros d Hd. left. unfold uri_unreserved, alnum, upper_hex. bool_cases; cbn; lia. }
  unfold percent. repeat apply Forall_cons_2; [by right|apply Hh; zdm|apply Hh; zdm|apply Forall_nil_2].
Qed.

Lemma escaped_uri c : is_scalar c -> Forall uri_char (escaped uri_unreserved c).
Proof.
  intros Hc. unfold escaped. destruct (uri_unreserved c) eqn:E; [apply Forall_singleton; by left|].
  destruct (utf8_of_facts c Hc) as (Hb & _ & _). induction Hb as [|b bs Hb _ IH]; [apply Forall_nil_2|].
  cbn [fmap list_fmap concat]. apply Forall_app. split; [by apply percent_uri|done].
Qed.

(** What encoding a well-formed string gives: text that decodes to it and has
    none of the characters the formats below use as punctuation. *)
Lemma encode_spec s : well_formed s ->
  ∃ e, encodeURIComponent s = Ok e /\ decodeURIComponent e = Ok s /\ Forall uri_char e.
Proof.
  intros (cs & Hcs & ->). exists (concat (escaped uri_unreserved <$> cs)). split_and!.
  - by apply encodeURIComponent_text.
  - apply uri_decode_text; [done| |done]. intros c Hc. apply uri_free in Hc. lia.
  - induction Hcs as [|c cs Hc _ IH]; [apply Forall_nil_2|]. cbn [fmap list_fmap concat].
    apply Forall_app. split; [by apply escaped_uri|done].
Qed.

Lemma uri_char_not e c : Forall uri_char e -> uri_unreserved c = false -> c <> 37 -> Forall (λ x, x <> c) e.
Proof. intros H Hu Hc. eapply Forall_impl; [exact H|]. intros x [E| ->]; congruence. Qed.

(** ** The query string round trip *)

(** What a query string can express: strings, and arrays of at least two. *)
Definition query_value (v : jval) : Prop :=
  (∃ s, v = JStr s /\ well_formed s) \/ (∃ l, v = JArr (JStr <$> l) /\ (2 <= length l)%nat /\ Forall well_formed l).
Definition query_object (o : jobj) : Prop :=
  obj_ok o /\ Forall (λ kv, well_formed kv.1 /\ kv.1 <> js "__proto__" /\ query_value kv.2) o.

Definition value_texts (v : jval) : list (list Z) :=
  match v with JStr s => [s] | JArr l => omap (λ v, match v with JStr s => Some s | _ => None end) l | _ => [] end.
(** The pairs an object is written as. *)
Definition pairs_of (kv : list Z * jval) : list (list Z * list Z) := (λ s, (kv.1, s)) <$> value_texts kv.2.
Definition pairs (o : jobj) : list (list Z * list Z) := concat (pairs_of <$> o).

Lemma value_texts_arr l : value_texts (JArr (JStr <$> l)) = l.
Proof. cbn. induction l as [|s l IH]; [done|]. cbn. by rewrite IH. Qed.

Lemma query_value_texts v : query_value v -> Forall well_formed (value_texts v) /\ value_texts v <> [].
Proof.
  intros [(s & -> & Hs)|(l & -> & Hl & Hf)].
  - split; [by apply Forall_singleton|done].
  - rewrite value_texts_arr. split; [done|]. by destruct l; cbn in Hl; [lia|].
Qed.

(** The text of a pair and what [parse_part] makes of it. *)
Definition pair_text (ks : list Z * list Z) (x : list Z) : Prop :=
  ∃ ek es, x = ek ++ 61 :: es /\ decodeURIComponent ek = Ok ks.1 /\ decodeURIComponent es = Ok ks.2 /\
    Forall uri_char ek /\ Forall uri_char es.

Lemma pair_text_exists ks : well_formed ks.1 -> well_formed ks.2 -> ∃ x, pair_text ks x.
Proof.
  intros (ek & ? & ? & ?)%encode_spec (es & ? & ? & ?)%encode_spec. by exists (ek ++ 61 :: es), ek, es.
Qed.

Lemma plus_free_percent s : Forall (λ c, c <> 43) s -> plus_to_percent s = s.
Proof.
  unfold plus_to_percent. induction 1 as [|c s Hc _ IH]; [done|]. cbn [fmap list_fmap concat].
  rewrite IH. by destruct (Z.eqb_spec c 43).
Qed.

Lemma pair_text_no x ks c : pair_text ks x -> uri_unreserved c = false -> c <> 37 -> c <> 61 -> Forall (λ y, y <> c) x.
Proof.
  intros (ek & es & -> & _ & _ & Hk & Hs) Hu H37 H61.
  apply Forall_app. split; [by eapply uri_char_not|]. apply Forall_cons. split; [done|by eapply uri_char_not].
Qed.

Lemma split_pair_text ek es : Forall (λ x, x <> 61) ek -> split_pair [61] (ek ++ 61 :: es) = (ek, es).
Proof.
  intros H. unfold split_pair. rewrite index_of_free by done. pose proof (len_nonneg ek).
  destruct (Z.leb_spec 0 (len ek)); [|lia]. unfold len. rewrite Nat2Z.id, take_app_length.
  replace (Z.to_nat (Z.of_nat (length ek) + 1)) with (length ek + 1)%nat by lia. by rewrite drop_app_add.
Qed.

Lemma parse_part_pair a ks x : pair_text ks x -> parse_part [61] a x = Ok (add_value a ks.1 ks.2).
Proof.
  intros Hx. unfold parse_part. rewrite plus_free_percent by (by eapply pair_text_no).
  destruct Hx as (ek & es & -> & Hk & Hs & Ck & _).
  rewrite split_pair_text by (by eapply uri_char_not). rewrite Hk. cbn. by rewrite Hs.
Qed.

(** Joined groups are the join of all their parts. *)
Lemma join_app_ne sep l k : l <> [] -> k <> [] -> join sep (l ++ k) = join sep l ++ sep ++ join sep k.
Proof.
  intros Hl Hk. induction l as [|x l IH]; [done|]. destruct l as [|y l].
  - destruct k; [done|]. done.
  - change (join sep ((x :: y :: l) ++ k)) with (x ++ sep ++ join sep ((y :: l) ++ k)).
    change (join sep (x :: y :: l)) with (x ++ sep ++ join sep (y :: l)). rewrite IH by done. by rewrite <- !app_assoc.
Qed.
Lemma join_concat sep ls : Forall (λ l, l <> []) ls -> join sep (join sep <$> ls) = join sep (concat ls).
Proof.
  induction 1 as [|l ls Hl Hls IH]; [done|]. cbn [fmap list_fmap concat]. destruct Hls as [|l' ls Hl' Hls].
  - by rewrite app_nil_r.
  - rewrite join_app_ne; [|done|by destruct l']. rewrite <- IH. done.
Qed.

(** The parts [stringify] writes for one property. *)
Lemma stringify_entry_texts kv : well_formed kv.1 -> query_value kv.2 ->
  ∃ xs, stringify_entry [38] [61] kv = Ok (join [38] xs) /\ Forall2 pair_text (pairs_of kv) xs.
Proof.
  destruct kv as [k v]. cbn [fst snd]. intros Hk Hv. unfold stringify_entry, pairs_of. cbn [fst snd].
  destruct (encode_spec k Hk) as (ek & Ek & Dk & Ck). rewrite Ek. cbn [result_bind].
  destruct Hv as [(s & -> & Hs)|(l & -> & _ & Hl)].
  - unfold encode_value. cbn [stringifyPrimitive]. destruct (encode_spec s Hs) as (es & Es & Ds & Cs). rewrite Es. cbn.
    exists [(ek ++ [61]) ++ es]. split; [done|]. constructor; [|constructor].
    exists ek, es. rewrite <- app_assoc. done.
  - rewrite value_texts_arr. cbn [value_texts].
    assert (Hm : ∃ xs, mapR (λ v, let! s := encode_value v in Ok ((ek ++ [61]) ++ s)) (JStr <$> l) = Ok xs /\
      Forall2 pair_text ((λ s, (k, s)) <$> l) xs).
    { induction Hl as [|s l Hs _ (xs & Hxs & H2)]; [by exists []|].
      destruct (encode_spec s Hs) as (es & Es & Ds & Cs). exists (((ek ++ [61]) ++ es) :: xs). split.
      - cbn [fmap list_fmap mapR]. unfold encode_value at 1. cbn [stringifyPrimitive]. rewrite Es. cbn [result_bind].
        by rewrite Hxs.
      - constructor; [|done]. exists ek, es. rewrite <- app_assoc. done. }
    destruct Hm as (xs & -> & H2). by exists xs.
Qed.

Lemma stringify_texts o : Forall (λ kv, well_formed kv.1 /\ query_value kv.2) o ->
  ∃ xs, stringify (JObj o) None None JUndef = Ok (join [38] xs) /\ Forall2 pair_text (pairs o) xs.
Proof.
  intros H. unfold stringify. cbn [or_default entries].
  assert (Hg : ∃ gs, mapR (stringify_entry [38] [61]) o = Ok (join [38] <$> gs) /\
    Forall (λ g, g <> []) gs /\ Forall2 pair_text (pairs o) (concat gs)).
  { induction H as [|kv o [Hk Hv] _ (gs & Hgs & Hne & H2)]; [by exists []|].
    destruct (stringify_entry_texts kv Hk Hv) as (xs & Hx & Hx2). exists (xs :: gs). split_and!.
    - cbn. rewrite Hx. cbn. by rewrite Hgs.
    - constructor; [|done]. intros ->. apply Forall2_nil_inv_r in Hx2. unfold pairs_of in Hx2. apply fmap_nil_inv in Hx2.
      by destruct (query_value_texts kv.2 Hv).
    - unfold pairs. cbn. by apply Forall2_app. }
  destruct Hg as (gs & -> & Hne & H2). exists (concat gs). split; [|done]. cbn. by rewrite join_concat.
Qed.

Lemma add_value_fresh a k s : k <> js "__proto__" -> obj_ok (a ++ [(k, JStr s)]) -> add_value a k s = a ++ [(k, JStr s)].
Proof.
  intros Hk Ha. unfold add_value. rewrite decide_False by done. rewrite <- (obj_set_last a k) by done.
  rewrite (proj2 (obj_get_None a k)); [done|]. destruct Ha as [Ha _]. unfold obj_keys in *. rewrite fmap_app in Ha.
  apply NoDup_app in Ha as (_ & Hd & _). intros Hin. by apply (Hd k Hin), list_elem_of_singleton.
Qed.

Lemma obj_ok_value (a : jobj) k v w : obj_ok (a ++ [(k, v)]) -> obj_ok (a ++ [(k, w)]).
Proof. unfold obj_ok, obj_keys. by rewrite !fmap_app. Qed.
Lemma obj_ok_last (a : jobj) k v : obj_ok (a ++ [(k, v)]) -> k ∉ obj_keys a.
Proof.
  intros [Hn _]. unfold obj_keys in *. rewrite fmap_app in Hn. apply NoDup_app in Hn as (_ & Hd & _).
  intros Hin. by apply (Hd k Hin), list_elem_of_singleton.
Qed.
Lemma obj_set_again (a : jobj) k v w : obj_ok (a ++ [(k, v)]) -> obj_set (a ++ [(k, v)]) k w = a ++ [(k, w)].
Proof.
  intros H%obj_ok_last. unfold obj_set. rewrite obj_get_app, (proj2 (obj_get_None a k)) by done. cbn.
  rewrite decide_True by done. by apply obj_update_last.
Qed.

Lemma add_value_more a k l s : k <> js "__proto__" -> obj_ok (a ++ [(k, JArr l)]) ->
  add_value (a ++ [(k, JArr l)]) k s = a ++ [(k, JArr (l ++ [JStr s]))].
Proof.
  intros Hk Ha. unfold add_value. rewrite decide_False by done. rewrite obj_get_app.
  rewrite (proj2 (obj_get_None a k)) by (by eapply obj_ok_last). cbn. rewrite decide_True by done. by apply obj_set_again.
Qed.
Lemma add_value_second a k x s : k <> js "__proto__" -> obj_ok (a ++ [(k, JStr x)]) ->
  add_value (a ++ [(k, JStr x)]) k s = a ++ [(k, JArr [JStr x; JStr s])].
Proof.
  intros Hk Ha. unfold add_value. rewrite decide_False by done. rewrite obj_get_app.
  rewrite (proj2 (obj_get_None a k)) by (by eapply obj_ok_last). cbn. rewrite decide_True by done. by apply obj_set_again.
Qed.

Abbreviation add_pairs := (foldl (λ a ks, add_value a ks.1 ks.2)).

Lemma add_values_more a k l m : k <> js "__proto__" -> obj_ok (a ++ [(k, JArr l)]) ->
  add_pairs (a ++ [(k, JArr l)]) ((λ s, (k, s)) <$> m) = a ++ [(k, JArr (l ++ (JStr <$> m)))].
Proof.
  intros Hk. revert l. induction m as [|s m IH]; intros l Ha; cbn [fmap list_fmap foldl fst snd]; [by rewrite app_nil_r|].
  rewrite add_value_more by done.
  rewrite IH by (by eapply obj_ok_value). by rewrite <- app_assoc.
Qed.

(** Reading the pairs of a property adds it. *)
Lemma add_pairs_of a kv : kv.1 <> js "__proto__" -> query_value kv.2 -> obj_ok (a ++ [kv]) ->
  add_pairs a (pairs_of kv) = a ++ [kv].
Proof.
  destruct kv as [k v]. cbn [fst snd]. intros Hk Hv Ha. unfold pairs_of. cbn [fst snd].
  destruct Hv as [(s & -> & Hs)|(l & -> & Hl & _)].
  - cbn. by apply add_value_fresh.
  - rewrite value_texts_arr. destruct l as [|x [|y l]]; cbn in Hl; [lia|lia|]. cbn [fmap list_fmap foldl fst snd].
    rewrite (add_value_fresh a k x) by first [exact Hk|exact (obj_ok_value _ _ _ _ Ha)].
    rewrite add_value_second by first [exact Hk|exact (obj_ok_value _ _ _ _ Ha)].
    by rewrite add_values_more by first [exact Hk|exact (obj_ok_value _ _ _ _ Ha)].
Qed.

Lemma add_pairs_all a o : obj_ok (a ++ o) -> Forall (λ kv, kv.1 <> js "__proto__" /\ query_value kv.2) o ->
  add_pairs a (pairs o) = a ++ o.
Proof.
  intros Ha H. revert a Ha. induction H as [|kv o [Hk Hv] _ IH]; intros a Ha; [by rewrite app_nil_r|].
  unfold pairs. cbn [fmap list_fmap concat]. rewrite foldl_app. rewrite (cons_middle kv), app_assoc in Ha.
  rewrite add_pairs_of; [|done|done|by eapply obj_ok_app_l].
  unfold pairs in IH. rewrite IH by done. by rewrite <- app_assoc.
Qed.

Lemma foldR_parts a ps xs : Forall2 pair_text ps xs -> foldR (parse_part [61]) a xs = Ok (add_pairs a ps).
Proof.
  intros H. revert a. induction H as [|ks x ps xs Hx _ IH]; intros a; [done|]. cbn. rewrite (parse_part_pair a ks x Hx). cbn. apply IH.
Qed.

(** [parse] reads the texts of the pairs of an object back. *)
Lemma parse_texts o xs : query_object o -> len (pairs o) <= 1000 -> Forall2 pair_text (pairs o) xs ->
  parse (JStr (join [38] xs)) None None None = Ok o.
Proof.
  intros [Hok Ho] Hmax H2. assert (Hp : add_pairs [] (pairs o) = o).
  { apply (add_pairs_all [] o); [done|]. eapply Forall_impl; [exact Ho|naive_solver]. }
  assert (Hlen : length xs = length (pairs o)) by (symmetry; by eapply Forall2_length).
  destruct xs as [|x xs]; [apply Forall2_nil_inv_r in H2; rewrite H2 in Hp; by rewrite <- Hp|].
  assert (Hsplit : split [38] (join [38] (x :: xs)) = x :: xs).
  { apply split_join; [done|]. eapply Forall_impl with (P := λ x, ∃ ks, pair_text ks x).
    - clear -H2. induction H2; eauto.
    - intros y [ks Hy]. by eapply pair_text_no. }
  assert (Hne : ∃ c r, join [38] (x :: xs) = c :: r).
  { inversion H2 as [|ks ? ? ? (ek & es & -> & _) ?]; subst. destruct xs; destruct ek; cbn; eauto. }
  destruct Hne as (c & r & Hne). rewrite Hne in *. unfold parse. cbn [or_default]. rewrite Hsplit. cbv zeta.
  replace ((0 <? 1000) && (1000 <? len (x :: xs))) with false by (unfold len in *; lia).
  unfold len. rewrite Nat2Z.id, take_ge by lia. rewrite (foldR_parts [] (pairs o)) by done. by rewrite Hp.
Qed.

(** [querystring.parse] inverts [querystring.stringify] on every object
    whose values are strings or arrays of at least two strings, with
    well-formed names other than ["__proto__"] and at most the 1000 pairs that
    [parse] reads by default: names, values, their order and the arrays come back. *)
Theorem querystring_roundtrip o : query_object o -> len (pairs o) <= 1000 ->
  ∃ s, stringify (JObj o) None None JUndef = Ok s /\ parse (JStr s) None None None = Ok o.
Proof.
  intros Ho Hmax. destruct (stringify_texts o) as (xs & Hs & H2); [eapply Forall_impl; [apply Ho|naive_solver]|].
  exists (join [38] xs). split; [done|by apply parse_texts].
Qed.

Lemma well_formed_ascii s : Forall (λ c, 0 <= c < 128) s -> well_formed s.
Proof.
  intros H. exists s. split.
  - eapply Forall_impl; [exact H|]. intros c Hc. left. cbn in Hc. lia.
  - induction H as [|c s Hc _ IH]; [done|]. cbn. unfold utf16_of at 1. destruct (Z.ltb_spec c 65536); [|lia]. by rewrite <- IH.
Qed.

Definition asciib (s : list Z) : bool := forallb (λ c, (0 <=? c) && (c <? 128)) s.
Lemma well_formed_b s : asciib s = true -> well_formed s.
Proof.
  intros H. apply well_formed_ascii. unfold asciib in H. rewrite forallb_forall in H.
  apply Forall_forall. intros c Hc%list_elem_of_In%H. lia.
Qed.

Lemma querystring_roundtrip_witness :
  ∃ s, stringify (JObj [(js "a b", JArr [JStr (js "x&y"); JStr []]); (js "c", JStr (js "="))]) None None JUndef = Ok s /\
    parse (JStr s) None None None = Ok [(js "a b", JArr [JStr (js "x&y"); JStr []]); (js "c", JStr (js "="))].
Proof.
  apply querystring_roundtrip; [|vm_compute; discriminate]. split; [by apply obj_okb_ok|].
  repeat apply Forall_cons_2; try apply Forall_nil_2; (split_and!; [by apply well_formed_b|done|]).
  - right. exists [js "x&y"; []]. split_and!; [done|cbn; lia|].
    repeat apply Forall_cons_2; [by apply well_formed_b..|apply Forall_nil_2].
  - left. exists (js "="). split; [done|by apply well_formed_b].
Defined.

(** ** The cookie round trip *)

(** The names that [parse] gives back: valid for [serialize], without the
    punctuation of the format and surrounding white space, and not inherited by
    every object. *)
Definition cookie_name (s : list Z) : Prop :=
  field_content s = true /\ Forall (λ c, c <> 59 /\ c <> 61) s /\ trim s = s /\ s ∉ object_prototype.

Lemma length_trim_left s : (length (trim_left s) <= length s)%nat.
Proof. induction s as [|c s IH]; [done|]. cbn. destruct (is_white c); cbn; lia. Qed.
Lemma trim_head c s : trim (c :: s) = c :: s -> is_white c = false.
Proof.
  intros E. destruct (is_white c) eqn:Ec; [|done]. exfalso. apply (f_equal length) in E. unfold trim in E.
  rewrite length_reverse in E. pose proof (length_trim_left (reverse (trim_left (c :: s)))) as H1.
  rewrite length_reverse in H1. cbn [trim_left] in H1, E. rewrite Ec in H1, E. pose proof (length_trim_left s). cbn in *. lia.
Qed.

Lemma uri_char_white e : Forall uri_char e -> Forall (λ c, is_white c = false) e.
Proof.
  intros H. eapply Forall_impl; [exact H|]. intros c Hc. unfold is_white. apply orb_false_iff. split.
  - apply bool_decide_eq_false. intros Hw.
    repeat (apply elem_of_cons in Hw as [->|Hw]; [destruct Hc as [Hc|Hc]; done|]). by apply not_elem_of_nil in Hw.
  - assert (0 <= c < 128); [|lia]. destruct Hc as [Hc| ->]; [apply uri_free in Hc|]; lia.
Qed.

Lemma uri_char_field e : Forall uri_char e -> e <> [] -> field_content e = true.
Proof.
  intros H Hne. destruct e as [|c e]; [done|]. unfold field_content. clear Hne. induction H as [|x l Hx _ IH]; [done|].
  cbn [forallb]. rewrite IH. rewrite andb_true_r. unfold field_char. destruct Hx as [Hx| ->]; [|done].
  unfold uri_unreserved in Hx. apply orb_prop in Hx as [Hx|Hx]; [unfold alnum in Hx; lia|].
  apply bool_decide_eq_true in Hx. repeat (apply elem_of_cons in Hx as [->|Hx]; [done|]). by apply not_elem_of_nil in Hx.
Qed.

(** The text [serialize] writes without options. *)
Lemma serialize_text n v : field_content n = true -> well_formed v ->
  ∃ e, serialize n v no_options = Ok (n ++ 61 :: e) /\ decodeURIComponent e = Ok v /\ Forall uri_char e.
Proof.
  intros Hn (e & He & Hd & Hc)%encode_spec. exists e. split; [|done]. unfold serialize. cbn [encode_option no_options result_bind].
  rewrite Hn. cbn [negb]. rewrite He. cbn [result_bind].
  assert (Hf : (match e with [] => false | _ => true end) && negb (field_content e) = false).
  { destruct e as [|c e]; [done|]. by rewrite uri_char_field. }
  rewrite Hf. cbn -[app]. by rewrite app_nil_r.
Qed.

Lemma parse_cookie_text a n v e : cookie_name n -> decodeURIComponent e = Ok v -> Forall uri_char e ->
  obj_ok (a ++ [(n, JStr v)]) -> parse_cookie decodeURIComponent a (n ++ 61 :: e) = a ++ [(n, JStr v)].
Proof.
  intros (_ & Hn & Ht & Hp) Hd He Ha. unfold parse_cookie.
  rewrite index_of_free by (eapply Forall_impl; [exact Hn|naive_solver]). cbv zeta. pose proof (len_nonneg n).
  destruct (Z.ltb_spec (len n) 0); [lia|]. unfold len. rewrite Nat2Z.id, take_app_length, Ht.
  replace (Z.to_nat (Z.of_nat (length n) + 1)) with (length n + 1)%nat by lia. rewrite drop_app_add.
  change (drop 1 (61 :: e)) with e.
  rewrite BufferText.trim_id by (by apply uri_char_white). rewrite bool_decide_false by done.
  rewrite (proj2 (obj_get_None a n)) by (by eapply obj_ok_last).
  assert (Hu : unquote e = e).
  { destruct e as [|c e]; [done|]. apply Forall_cons in He as [Hc _]. destruct (decide (c = 34)) as [->|].
    - destruct Hc as [Hc|Hc]; [vm_compute in Hc|]; done.
    - destruct c as [|p|p]; try done. do 6 (destruct p as [p|p|]; try done). }
  unfold tryDecode. rewrite Hu, Hd. by apply obj_set_last.
Qed.

(** The cookies of a header are its parts. *)
Lemma split_cookies_join xs : xs <> [] -> Forall (λ x, Forall (λ c, c <> 59) x /\ drop_spaces x = x) xs ->
  split_cookies (join [59; 32] xs) = xs.
Proof.
  intros Hne H. assert (E : split [59] (join [59; 32] xs) = match xs with x :: xs => x :: (cons 32 <$> xs) | [] => [[]] end).
  { clear Hne. induction H as [|x xs [Hx _] Hxs IH]; [done|]. destruct xs as [|y xs]; [by apply split_free|].
    change (join [59; 32] (x :: y :: xs)) with (x ++ 59 :: 32 :: join [59; 32] (y :: xs)). rewrite split_app by done.
    cbn [fmap list_fmap]. f_equal. unfold split in *. cbn [split_go prefix_at Z.eqb Pos.eqb andb]. rewrite IH. done. }
  unfold split_cookies. rewrite E. destruct xs as [|x xs]; [done|]. f_equal. apply Forall_cons in H as [_ H].
  clear E Hne. induction H as [|y xs [_ Hy] _ IH]; [done|]. cbn [fmap list_fmap]. rewrite IH. f_equal. exact Hy.
Qed.

Lemma cookie_part n e : cookie_name n -> Forall uri_char e ->
  Forall (λ c, c <> 59) (n ++ 61 :: e) /\ drop_spaces (n ++ 61 :: e) = n ++ 61 :: e.
Proof.
  intros (Hf & Hn & Ht & _) He. split.
  - apply Forall_app. split; [eapply Forall_impl; [exact Hn|naive_solver]|]. apply Forall_cons. split; [done|by eapply uri_char_not].
  - destruct n as [|c n]; [done|]. apply trim_head in Ht. destruct (decide (c = 32)) as [->|]; [done|].
    destruct c as [|p|p]; try done. do 6 (destruct p as [p|p|]; try done).
Qed.

Definition cookie_values (l : list (list Z * list Z)) : jobj := (λ nv, (nv.1, JStr nv.2)) <$> l.

Lemma parse_cookies_all a l es : Forall (λ nv, cookie_name nv.1 /\ well_formed nv.2) l ->
  Forall2 (λ nv e, decodeURIComponent e = Ok nv.2 /\ Forall uri_char e) l es -> obj_ok (a ++ cookie_values l) ->
  foldl (parse_cookie decodeURIComponent) a (zip_with (λ nv e, nv.1 ++ 61 :: e) l es) = a ++ cookie_values l.
Proof.
  intros H H2. revert a. induction H2 as [|nv e l es [Hd He] _ IH]; intros a Hok; [by rewrite app_nil_r|].
  apply Forall_cons in H as [[Hn Hv] H]. unfold cookie_values in *. cbn [fmap list_fmap] in *.
  rewrite (cons_middle (nv.1, _)), app_assoc in Hok. cbn [zip_with foldl].
  rewrite (parse_cookie_text a nv.1 nv.2) by (done || by eapply obj_ok_app_l). rewrite IH by done. by rewrite <- app_assoc.
Qed.

(** [cookie.parse] inverts [cookie.serialize]: every cookie with a valid
    name and a well-formed value is accepted, and the header that joins them
    parses to exactly the object of the names and values, in order. *)
Theorem cookie_roundtrip l : obj_ok (cookie_values l) -> Forall (λ nv, cookie_name nv.1 /\ well_formed nv.2) l ->
  ∃ xs, mapR (λ nv, serialize nv.1 nv.2 no_options) l = Ok xs /\
    cookie_parse (JStr (join [59; 32] xs)) None = Ok (cookie_values l).
Proof.
  intros Hok H.
  assert (Hs : ∃ es, mapR (λ nv, serialize nv.1 nv.2 no_options) l = Ok (zip_with (λ nv e, nv.1 ++ 61 :: e) l es) /\
    Forall2 (λ nv e, decodeURIComponent e = Ok nv.2 /\ Forall uri_char e) l es).
  { clear Hok. induction H as [|nv l [[Hn _] Hv] _ (es & Hes & H2)]; [by exists []|].
    destruct (serialize_text nv.1 nv.2 Hn Hv) as (e & He & Hd). exists (e :: es). split; [|by constructor].
    cbn [mapR]. rewrite He. cbn [result_bind]. rewrite Hes. done. }
  destruct Hs as (es & Hes & H2). exists (zip_with (λ nv e, nv.1 ++ 61 :: e) l es). split; [done|].
  unfold cookie_parse. f_equal. destruct l as [|[n v] l]; [done|].
  rewrite split_cookies_join.
  - by apply (parse_cookies_all []).
  - by inversion H2.
  - clear -H H2. revert H. induction H2 as [|? e ? ? [_ He] _ IH]; intros H; cbn; [apply Forall_nil_2|].
    apply Forall_cons in H as [[Hn _] H]. apply Forall_cons_2; [by apply cookie_part|auto].
Qed.

Lemma cookie_roundtrip_witness :
  ∃ xs, mapR (λ nv, serialize nv.1 nv.2 no_options) [(js "sid", js "a; b=c"); (js "lang", js "en")] = Ok xs /\
    cookie_parse (JStr (join [59; 32] xs)) None = Ok (cookie_values [(js "sid", js "a; b=c"); (js "lang", js "en")]).
Proof.
  apply cookie_roundtrip; [by apply obj_okb_ok|].
  repeat apply Forall_cons_2; try apply Forall_nil_2; (split; [|by apply well_formed_b]); (split_and!; [done| |done|]).
  all: first [repeat apply Forall_cons_2; first [apply Forall_nil_2|lia]|apply (bool_decide_unpack _); vm_compute; exact I].
Defined.

End Query.
