(* ===== verification/Qs.v ===== *)
(** The qs package of the bundle (client/docs/swagger-ui/swagger-ui-bundle.js):
    its helpers [merge], [arrayToObject] and [compact] (lines 15528-15591), the
    formats (15596-15612), [stringify] (32359-32437) and [parse]
    (32438-32502).

    [JUndef] in an array is a hole: the parser never stores [undefined]. The
    values the parser builds are trees, every array and object of which is
    reached by one path, so that the updates in place of [merge] and [compact]
    are updates of the tree. *)

From stdpp Require Import base list list_numbers numbers strings gmap.
From Stdlib Require Import ZArith Lia.
From S2P Require Import Prelude Base64 Buffer BufferText Uri Json Query.

Module Qs.
Import Base64 Buffer BufferText Uri Json Query.

(** ** Options *)

Inductive coder (F : Type) :=
  | CoderDefault
  | CoderCustom (f : F)
  | CoderInvalid.
Arguments CoderDefault {_}.
Arguments CoderCustom {_} _.
Arguments CoderInvalid {_}.

Inductive array_format :=
  | Brackets
  | Indices
  | Repeat.

(** The options of [stringify] ([filter] is a list of names here, [sort] the
    sorting it makes of a list of names). *)
Record stringify_options := {
  delimiter : option (list Z);
  strictNullHandling : option bool;
  skipNulls : option bool;
  encode : option bool;
  encoder : coder (jval -> list Z);
  encodeValuesOnly : option bool;
  filter : option (list (list Z));
  sort : option (list (list Z) -> list (list Z));
  allowDots : option bool;
  format : option (list Z);
  arrayFormat : option array_format;
  indices : option bool;
  addQueryPrefix : bool }.
Definition stringify_defaults : stringify_options := {|
  delimiter := None; strictNullHandling := None; skipNulls := None; encode := None; encoder := CoderDefault;
  encodeValuesOnly := None; filter := None; sort := None; allowDots := None; format := None; arrayFormat := None;
  indices := None; addQueryPrefix := false |}.

(** The options of [parse]; a [parameterLimit] of [Some None] is [Infinity]. *)
Record parse_options := {
  ignoreQueryPrefix : bool;
  p_delimiter : list Z;
  depth : Z;
  arrayLimit : Z;
  parseArrays : bool;
  decoder : coder (list Z -> list Z);
  p_allowDots : bool;
  plainObjects : bool;
  allowPrototypes : bool;
  parameterLimit : option Z;
  p_strictNullHandling : bool }.
(** The table [i] of defaults. *)
Definition parse_defaults : parse_options := {|
  ignoreQueryPrefix := false; p_delimiter := [38]; depth := 5; arrayLimit := 20; parseArrays := true;
  decoder := CoderDefault; p_allowDots := false; plainObjects := false; allowPrototypes := false;
  parameterLimit := Some 1000; p_strictNullHandling := false |}.

(** ** stringify *)

(** [formatters] *)
Fixpoint percent20_to_plus (e : list Z) (skip : nat) : list Z :=
  match e with
  | [] => []
  | c :: e' =>
      match skip with
      | S skip => percent20_to_plus e' skip
      | O => if prefix_at (js "%20") e then 43 :: percent20_to_plus e' 2 else c :: percent20_to_plus e' O
      end
  end.
Definition formatter (f : option (list Z)) : option (list Z -> list Z) :=
  match f with
  | None => Some (λ e, e)
  | Some f =>
      if decide (f = js "RFC3986") then Some (λ e, e)
      else if decide (f = js "RFC1738") then Some (λ e, percent20_to_plus e O)
      else None
  end.

(** The table [i]: the name of an element of the array [e]. *)
Definition array_prefix (w : array_format) (e t : list Z) : list Z :=
  match w with
  | Brackets => e ++ js "[]"
  | Indices => e ++ [91] ++ t ++ [93]
  | Repeat => e
  end.

(** [v[k]] *)
Definition own (v : jval) (k : list Z) : jval :=
  match obj_get (entries v) k with Some x => x | None => JUndef end.

(** [Object.keys]: holes have no name. *)
Definition own_keys (v : jval) : list (list Z) :=
  match v with
  | JArr _ => fst <$> List.filter (λ kv, negb (bool_decide (kv.2 = JUndef))) (entries v)
  | _ => obj_keys (entries v)
  end.

Section stringify.
Context (o : list Z -> list Z -> list Z).     (* generateArrayPrefix *)
Context (i a : bool).                         (* strictNullHandling, skipNulls *)
Context (s : option (jval -> list Z)).        (* encoder *)
Context (l : option (list (list Z))).         (* filter *)
Context (c : option (list (list Z) -> list (list Z))). (* sort *)
Context (f : bool) (d : list Z -> list Z) (h : bool). (* allowDots, formatter, encodeValuesOnly *)

(** The name as it is written: encoded unless only values are. *)
Definition name_text (n : list Z) : list Z :=
  match s with Some s => if h then n else s (JStr n) | None => n end.

(** The recursive function [s]; [fuel] exceeds the nesting of [t]. *)
Fixpoint stringify_value (fuel : nat) (t : jval) (n : list Z) : list (list Z) :=
  match fuel with
  | O => []
  | S fuel =>
      let leaf (v : jval) :=
        match s with
        | Some s => [d (if h then n else s (JStr n)) ++ [61] ++ d (s v)]
        | None => [d n ++ [61] ++ d (to_string v)]
        end in
      let branch (v : jval) :=
        let m := match l with
                 | Some l => l
                 | None => match c with Some c => c (own_keys v) | None => own_keys v end
                 end in
        concat ((λ k, if a && bool_decide (own v k = JNull) then []
                      else if is_array v then stringify_value fuel (own v k) (o n k)
                      else stringify_value fuel (own v k) (n ++ (if f then [46] ++ k else [91] ++ k ++ [93]))) <$> m) in
      match t with
      | JNull => if i then [name_text n] else leaf (JStr [])
      | JStr _ | JNum _ | JBool _ => leaf t
      | JUndef => []
      | JArr _ | JObj _ => branch t
      end
  end.
End stringify.

Fixpoint jdepth (v : jval) : nat :=
  match v with
  | JArr l => S (fold_right (λ v n, Nat.max (jdepth v) n) O l)
  | JObj o => S (fold_right (λ kv n, Nat.max (match kv with (_, v) => jdepth v end) n) O o)
  | _ => 1
  end.

(** [qs.stringify] *)
Definition qs_stringify (e : jval) (a : stringify_options) : result (list Z) :=
  match encoder a with
  | CoderInvalid => Throw (TypeError (js "Encoder has to be a function."))
  | _ =>
      let l := default [38] (delimiter a) in
      let c := default false (strictNullHandling a) in
      let f := default false (skipNulls a) in
      let p := default true (encode a) in
      let d := match encoder a with CoderCustom f => f | _ => λ v, qs_encode (to_string v) end in
      let v := default false (allowDots a) in
      let g := default false (encodeValuesOnly a) in
      match formatter (format a) with
      | None => Throw (TypeError (js "Unknown format option provided."))
      | Some fmt =>
          match e with
          | JArr _ | JObj _ =>
              let w := match arrayFormat a with
                       | Some w => w
                       | None => match indices a with Some true | None => Indices | Some false => Repeat end
                       end in
              let y := match filter a with Some y => y | None => own_keys e end in
              let y := match sort a with Some h => h y | None => y end in
              let E := concat ((λ C, if f && bool_decide (own e C = JNull) then []
                         else stringify_value (array_prefix w) c f (if p then Some d else None) (filter a) (sort a)
                                v fmt g (jdepth e) (own e C) C) <$> y) in
              let k := join l E in
              let A := if addQueryPrefix a then [63] else [] in
              Ok (match k with [] => [] | _ => A ++ k end)
          | _ => Ok []
          end
      end
  end.

Example qs_stringify_ex :
  qs_stringify (JObj [(js "a", JObj [(js "b c", JArr [JStr (js "x"); JNull; JNum 3])]); (js "d", JUndef); (js "e", JBool true)])
    stringify_defaults = Ok (js "a%5Bb%20c%5D%5B0%5D=x&a%5Bb%20c%5D%5B1%5D=&a%5Bb%20c%5D%5B2%5D=3&e=true")
  /\ qs_stringify (JObj []) stringify_defaults = Ok [].
Proof. vm_compute. auto. Qed.

(** ** parse *)

(** [n[l] = c] on a plain object. *)
Definition obj_assign (plain : bool) (o : jobj) (k : list Z) (v : jval) : jobj :=
  if negb plain && bool_decide (k = js "__proto__") then o else obj_set o k v.

(** [[].concat(v)] *)
Definition concat_arg (v : jval) : list jval := match v with JArr l => l | _ => [v] end.

Definition decode_with (t : parse_options) (s : list Z) : list Z :=
  match decoder t with CoderCustom f => f s | _ => qs_decode s end.

Definition slice (a b : Z) (s : list Z) : list Z := take (Z.to_nat (b - a)) (drop (Z.to_nat a) s).

(** One part of the text: a name, and its value after the first ["]="] or ["="]. *)
Definition parse_value (t : parse_options) (n : jobj) (f : list Z) : jobj :=
  let p := index_of (js "]=") f in
  let d := if p =? -1 then index_of [61] f else p + 1 in
  let '(l, c) :=
    if d =? -1 then (decode_with t f, if p_strictNullHandling t then JNull else JStr [])
    else (decode_with t (slice 0 d f), JStr (decode_with t (drop (Z.to_nat (d + 1)) f))) in
  match obj_get n l with
  | Some x => obj_assign false n l (JArr (concat_arg x ++ concat_arg c))
  | None => obj_assign false n l c
  end.

Definition parse_values (e : list Z) (t : parse_options) : jobj :=
  let r := if ignoreQueryPrefix t then match e with 63 :: e => e | _ => e end else e in
  let u := split (p_delimiter t) r in
  let u := match parameterLimit t with Some a => take (Z.to_nat a) u | None => u end in
  foldl (parse_value t) [] u.

(** [e.replace(/\.([^.[]+)/g, "[$1]")]: [seen] is the name after a dot. *)
Fixpoint dots_to_brackets (e : list Z) (seen : option (list Z)) : list Z :=
  let flush := match seen with
               | None => []
               | Some [] => [46]
               | Some n => [91] ++ n ++ [93]
               end in
  match e with
  | [] => flush
  | c :: e =>
      if c =? 46 then flush ++ dots_to_brackets e (Some [])
      else if c =? 91 then flush ++ c :: dots_to_brackets e None
      else match seen with
           | Some n => dots_to_brackets e (Some (n ++ [c]))
           | None => c :: dots_to_brackets e None
           end
  end.

(** [/(\[[^[\]]*])/]: the text up to the closing bracket of a name. *)
Fixpoint bracket_close (s : list Z) : option (list Z * list Z) :=
  match s with
  | [] => None
  | c :: s => if c =? 93 then Some ([], s)
              else if c =? 91 then None
              else match bracket_close s with Some (n, r) => Some (c :: n, r) | None => None end
  end.
(** The first match: the text before it, the name in it, the text after it. *)
Fixpoint bracket_exec (s : list Z) : option (list Z * list Z * list Z) :=
  match s with
  | [] => None
  | c :: s' =>
      let later := match bracket_exec s' with Some (b, n, r) => Some (c :: b, n, r) | None => None end in
      if c =? 91 then match bracket_close s' with Some (n, r) => Some ([], n, r) | None => later end
      else later
  end.

Definition forbidden (n : parse_options) (u : list Z) : bool :=
  negb (plainObjects n) && bool_decide (u ∈ object_prototype) && negb (allowPrototypes n).

(** The names in brackets, at most [l] of them; what is left over is one more.
    [None] is the early return. *)
Fixpoint bracket_segments (n : parse_options) (l : nat) (r : list Z) : option (list (list Z)) :=
  match bracket_exec r with
  | None => Some []
  | Some (_, name, rest) =>
      match l with
      | O => let at_ := match bracket_exec r with Some (b, _, _) => drop (length b) r | None => [] end in
             Some [[91] ++ at_ ++ [93]]
      | S l => if forbidden n name then None
               else match bracket_segments n l rest with
                    | Some s => Some (([91] ++ name ++ [93]) :: s)
                    | None => None
                    end
      end
  end.

(** [parseInt(u, 10)] when [String] of it is [u] again. *)
Definition canonical_nat (u : list Z) : option Z :=
  match parse_dec u with Some n => if decide (dec n = u) then Some n else None | None => None end.

Definition strip_brackets (a : list Z) : list Z :=
  match a, last a with
  | 91 :: a', Some 93 => take (length a' - 1) a'
  | _, _ => a
  end.

(** The value with the names around it, from the inside out. *)
Definition wrap (n : parse_options) (a : list Z) (r : jval) : jval :=
  if decide (a = js "[]") then JArr (concat_arg r)
  else
    let u := strip_brackets a in
    let index :=
      match canonical_nat u with
      | Some s => negb (bool_decide (a = u)) && parseArrays n && (s <=? arrayLimit n)
      | None => false
      end in
    if index then JArr (arr_put [] (default 0 (canonical_nat u)) r)
    else JObj (obj_assign (plainObjects n) [] u r).

(** The function [a] of [parse]: the object a name and its value stand for;
    [None] is [undefined]. *)
Definition parse_keys (e : list Z) (t : jval) (n : parse_options) : option jval :=
  match e with
  | [] => None
  | _ =>
      let r := if p_allowDots n then dots_to_brackets e None else e in
      let u := match bracket_exec r with Some (b, _, _) => b | None => r end in
      let segs := bracket_segments n (Z.to_nat (depth n)) r in
      match u with
      | [] => match segs with Some s => Some (foldr (wrap n) t s) | None => None end
      | _ => if forbidden n u then None
             else match segs with Some s => Some (foldr (wrap n) t (u :: s)) | None => None end
      end
  end.

(** [arrayToObject] *)
Definition arrayToObject (e : list jval) : jobj :=
  foldl (λ n iv, if decide (iv.2 = JUndef) then n else obj_set n iv.1 iv.2) [] (entries (JArr e)).

Definition null_error : exn := TypeError (js "Cannot convert undefined or null to object").

(** [merge] *)
Fixpoint merge (o : parse_options) (e n : jval) {struct n} : result jval :=
  if negb (truthy n) then Ok e
  else match n with
  | JArr l =>
      match e with
      | JArr e =>
          (* n.forEach *)
          (fix go (i : Z) (e : list jval) (l : list jval) : result jval :=
             match l with
             | [] => Ok (JArr e)
             | x :: l =>
                 match x with
                 | JUndef => go (i + 1) e l
                 | _ =>
                     match arr_get e i with
                     | None | Some JUndef => go (i + 1) (arr_put e i x) l
                     | Some y =>
                         if truthy y && is_object y then let! z := merge o y x in go (i + 1) (arr_set e i z) l
                         else go (i + 1) (e ++ [x]) l
                     end
                 end
             end) 0 e l
      | JObj e =>
          (* Object.keys(n).reduce *)
          (fix go (i : Z) (e : jobj) (l : list jval) : result jval :=
             match l with
             | [] => Ok (JObj e)
             | x :: l =>
                 match x with
                 | JUndef => go (i + 1) e l
                 | _ =>
                     match obj_get e (dec i) with
                     | Some y => let! z := merge o y x in go (i + 1) (obj_set e (dec i) z) l
                     | None => go (i + 1) (obj_set e (dec i) x) l
                     end
                 end
             end) 0 e l
      | JNull => match own_keys n with [] => Ok JNull | _ => Throw null_error end
      | _ => Ok (JArr (e :: l))
      end
  | JObj m =>
      let reduce :=
        (fix go (e : jobj) (m : jobj) : result jval :=
           match m with
           | [] => Ok (JObj e)
           | (k, x) :: m =>
               match obj_get e k with
               | Some y => let! z := merge o y x in go (obj_set e k z) m
               | None => go (obj_assign (plainObjects o) e k x) m
               end
           end) in
      match e with
      | JArr e => reduce (arrayToObject e) m
      | JObj e => reduce e m
      | JNull => match m with [] => Ok JNull | _ => Throw null_error end
      | _ => Ok (JArr [e; n])
      end
  | _ =>
      match e with
      | JArr e => Ok (JArr (e ++ [n]))
      | JObj e =>
          let k := to_string n in
          if plainObjects o || allowPrototypes o || negb (bool_decide (k ∈ object_prototype))
          then Ok (JObj (obj_assign (plainObjects o) e k (JBool true)))
          else Ok (JObj e)
      | JNull =>
          let k := to_string n in
          if plainObjects o || allowPrototypes o || negb (bool_decide (k ∈ object_prototype))
          then Throw (TypeError (js "Cannot set properties of null")) else Ok JNull
      | _ => Ok (JArr [e; n])
      end
  end.

(** [compact]: the holes of every array are removed, inner arrays first. *)
Fixpoint compact (v : jval) : jval :=
  match v with
  | JArr l => JArr (List.filter (λ v, negb (bool_decide (v = JUndef))) (compact <$> l))
  | JObj o => JObj ((λ kv, match kv with (k, v) => (k, compact v) end) <$> o)
  | v => v
  end.

(** [qs.parse] of a string, [null] or [undefined]. *)
Definition qs_parse (e : jval) (n : parse_options) : result jval :=
  match decoder n with
  | CoderInvalid => Throw (TypeError (js "Decoder has to be a function."))
  | _ =>
      match e with
      | JStr (c :: e) =>
          let u := parse_values (c :: e) n in
          let! s := foldR (λ s fv, merge n s (default JUndef (parse_keys fv.1 fv.2 n))) (JObj []) u in
          Ok (compact s)
      | _ => Ok (JObj [])
      end
  end.

Example qs_parse_ex :
  qs_parse (JStr (js "a[b%20c][1]=y&a[b c][0]=x&d=1&d=2&e[]=p&f[g][h][i][j][k][l]=z&toString=q&a[b c]=t")) parse_defaults
   = Ok (JObj [(js "a", JObj [(js "b c", JArr [JStr (js "x"); JStr (js "y"); JStr (js "t")])]);
       (js "d", JArr [JStr (js "1"); JStr (js "2")]); (js "e", JArr [JStr (js "p")]);
       (js "f", JObj [(js "g", JObj [(js "h", JObj [(js "i", JObj [(js "j", JObj [(js "k", JObj [(js "[l]", JStr (js "z"))])])])])])])])
  /\ qs_parse (JStr (js "a[21]=x&b=1&b[c]=2&=")) parse_defaults
   = Ok (JObj [(js "a", JObj [(js "21", JStr (js "x"))]); (js "b", JArr [JStr (js "1"); JObj [(js "c", JStr (js "2"))]])]).
Proof. vm_compute. auto. Qed.

End Qs.
