(* ===== verification/QsOk.v ===== *)
(** qs gives back what it wrote: the round trip of [qs.stringify] and
    [qs.parse] on nested objects and arrays of strings. *)

From stdpp Require Import base list list_numbers numbers strings gmap.
From Stdlib Require Import ZArith Lia.
From S2P Require Import Prelude Base64 Buffer BufferText Uri Json Query Qs.

Module QsOk.
Import Base64 Buffer BufferText Uri Json Query Qs.

(** ** The values qs can express *)

(** A name: not empty, without brackets, not inherited by every object, and
    not one that [parse] takes for an array index. *)
Definition qs_key (k : list Z) : Prop :=
  well_formed k /\ k <> [] /\ Forall (λ c, c <> 91 /\ c <> 93) k /\ (k ∉ object_prototype) /\
  match canonical_nat k with Some n => 20 < n | None => True end.

(** Strings in arrays and objects that are not empty, at most [d] deep; arrays
    have at most the 21 elements whose indexes [parse] accepts. *)
Fixpoint qs_ok (d : nat) (v : jval) : Prop :=
  match v with
  | JStr s => well_formed s
  | JArr l => match d with O => False | S d => l <> [] /\ len l <= 21 /\ Forall (qs_ok d) l end
  | JObj o =>
      match d with
      | O => False
      | S d => o <> [] /\ obj_ok o /\ Forall (λ kv, qs_key kv.1 /\ qs_ok d kv.2) o
      end
  | _ => False
  end.

(** The top level: names that are no array index, values up to the depth 5. *)
Definition qs_object (o : jobj) : Prop :=
  obj_ok o /\ Forall (λ kv, qs_key kv.1 /\ array_index kv.1 = None /\ qs_ok 5 kv.2) o.

(** The strings of a value with the names that lead to them. *)
Definition under (k : list Z) (p : list (list Z) * list Z) : list (list Z) * list Z := (k :: p.1, p.2).
Fixpoint leaves (v : jval) : list (list (list Z) * list Z) :=
  match v with
  | JStr s => [([], s)]
  | JArr l => (fix go (i : Z) (l : list jval) := match l with
               | [] => []
               | x :: l => (under (dec i) <$> leaves x) ++ go (i + 1) l
               end) 0 l
  | JObj o => concat ((λ kv, match kv with (k, x) => under k <$> leaves x end) <$> o)
  | _ => []
  end.

Definition bracket (k : list Z) : list Z := [91] ++ k ++ [93].
Definition path_text (n : list Z) (p : list (list Z)) : list Z := n ++ concat (bracket <$> p).

(** Arrays and objects alike: the leaves of the entries. *)
Lemma leaves_entries v : match v with JArr _ | JObj _ => True | _ => False end ->
  leaves v = concat ((λ kv, under kv.1 <$> leaves kv.2) <$> entries v).
Proof.
  destruct v as [| | | | |l|o]; try done; intros _; cbn [leaves entries].
  - assert (G : ∀ j, (fix go (i : Z) (l : list jval) := match l with
               | [] => []
               | x :: l => (under (dec i) <$> leaves x) ++ go (i + 1) l
               end) (Z.of_nat j) l = concat ((λ kv, under kv.1 <$> leaves kv.2) <$> imap (λ i v, (dec (Z.of_nat (j + i)), v)) l));
      [|exact (G O)].
    induction l as [|x l IH]; intros j; [done|]. rewrite imap_cons. cbn [fmap list_fmap concat fst snd]. rewrite Nat.add_0_r.
    f_equal. replace (Z.of_nat j + 1) with (Z.of_nat (S j)) by lia. rewrite IH. do 2 f_equal. apply imap_ext.
    intros i y _. unfold compose. by replace (j + S i)%nat with (S j + i)%nat by lia.
  - f_equal. apply list_fmap_ext. by intros i [k x] _.
Qed.

Lemma entries_arr_lookup l i : entries (JArr l) !! i = (λ v, (dec (Z.of_nat i), v)) <$> l !! i.
Proof. cbn. by rewrite list_lookup_imap. Qed.

Lemma entries_nodup v : match v with JObj o => NoDup (obj_keys o) | _ => True end -> NoDup (obj_keys (entries v)).
Proof.
  destruct v as [| | | | |l|o]; try (intros; apply NoDup_nil_2); [|done]. intros _. apply NoDup_alt. intros i j k Hi Hj.
  unfold obj_keys in *. rewrite list_lookup_fmap, entries_arr_lookup in Hi, Hj.
  destruct (l !! i), (l !! j); try done. cbn in *. injection Hi as <-. injection Hj as E. apply dec_inj in E; lia.
Qed.

(** Reading the own properties one by one is going through the entries. *)
Lemma own_fmap {B} (F : list Z -> jval -> B) v : match v with JObj o => NoDup (obj_keys o) | _ => True end ->
  match v with JArr l => Forall (λ x, x <> JUndef) l | _ => True end ->
  (λ k, F k (own v k)) <$> own_keys v = (λ kv, F kv.1 kv.2) <$> entries v.
Proof.
  intros Hn Hu. apply entries_nodup in Hn.
  assert (E : own_keys v = obj_keys (entries v)).
  { destruct v as [| | | | |l|o]; try done. unfold own_keys, obj_keys.
    assert (Hf : Forall (λ kv, kv.2 <> JUndef) (entries (JArr l))).
    { apply Forall_lookup. intros i kv Hi. rewrite entries_arr_lookup in Hi. destruct (l !! i) as [x|] eqn:Ex; [|done].
      injection Hi as <-. cbn. by eapply Forall_lookup_1 in Hu. }
    f_equal. clear Hn Hu. induction Hf as [|kv m Hkv _ IH]; [done|]. cbn. rewrite bool_decide_false by done. cbn. by rewrite IH. }
  rewrite E. unfold obj_keys. rewrite <- list_fmap_compose. apply list_fmap_ext. intros i [k x] Hi. cbn. f_equal.
  unfold own. by rewrite (obj_get_in _ k x); [|done|eapply list_elem_of_lookup_2].
Qed.

Lemma proto_names c s : c :: s ∈ object_prototype -> 57 < c.
Proof.
  assert (H : forallb (λ k, match k with c :: _ => 57 <? c | [] => false end) object_prototype = true) by done.
  rewrite forallb_forall in H. intros Hin%list_elem_of_In%H. lia.
Qed.

(** What an array or object of the class is. *)
Lemma qs_ok_branch d v : qs_ok d v -> match v with JArr _ | JObj _ => True | _ => False end ->
  ∃ d', d = S d' /\ entries v <> [] /\ NoDup (obj_keys (entries v)) /\
    Forall (λ kv, qs_ok d' kv.2 /\ well_formed kv.1 /\ kv.1 <> [] /\ Forall (λ c, c <> 91 /\ c <> 93) kv.1 /\ kv.1 ∉ object_prototype)
      (entries v).
Proof.
  destruct v as [| | | | |l|o]; try done; intros Hv _; destruct d as [|d]; try done; exists d; cbn [qs_ok] in Hv.
  - destruct Hv as (Hne & Hl & Hf). split_and!; [done| |by apply entries_nodup|].
    { intros E%(f_equal length). unfold entries in E. rewrite length_imap in E. by destruct l. }
    apply Forall_lookup. intros i kv Hi. rewrite entries_arr_lookup in Hi. destruct (l !! i) as [x|] eqn:Ex; [|done].
    injection Hi as <-. cbn [fst snd]. destruct (dec_spec (Z.of_nat i)) as (Hd & _ & Hn); [lia|]. split_and!.
    + by eapply Forall_lookup_1 in Hf.
    + apply well_formed_ascii. eapply Forall_impl; [exact Hd|]. cbn. lia.
    + done.
    + eapply Forall_impl; [exact Hd|]. cbn. lia.
    + intros Hin. destruct (dec (Z.of_nat i)) as [|c s]; [done|]. apply Forall_cons in Hd as [Hd _].
      apply proto_names in Hin. lia.
  - destruct Hv as (Hne & Ho & Hf). split_and!; [done|done|apply Ho|]. cbn [entries].
    eapply Forall_impl; [exact Hf|]. cbn. intros kv ((? & ? & ? & ? & _) & ?). auto.
Qed.

(** A value of the class has a leaf. *)
Lemma leaves_ne d v : qs_ok d v -> leaves v <> [].
Proof.
  revert v. induction d as [|d IH]; intros v Hv; (destruct v as [| | | | |l|o]; try done).
  all: rewrite leaves_entries by done.
  all: destruct (qs_ok_branch _ _ Hv I) as (d' & [= <-] & Hne & _ & Hf).
  all: match goal with |- context [entries ?v] => destruct (entries v) as [|kv m]; [done|] end.
  all: apply Forall_cons in Hf as [[Hk _] _]; apply IH in Hk; cbn; destruct (leaves kv.2); done.
Qed.

(** ** What stringify writes *)

Abbreviation plain_encoder := (λ v, qs_encode (to_string v)).
Abbreviation write_value := (stringify_value (array_prefix Indices) false false (Some plain_encoder) None None false (λ e, e) false).

(** The text of a leaf under the name [n]. *)
Definition leaf_text (n : list Z) (p : list (list Z) * list Z) : list Z :=
  qs_encode (path_text n p.1) ++ [61] ++ qs_encode p.2.

Lemma jdepth_entries v kv : kv ∈ entries v -> (jdepth kv.2 < jdepth v)%nat.
Proof.
  destruct v as [| | | | |l|o]; try (intros H; by apply not_elem_of_nil in H).
  - intros (i & Hi)%list_elem_of_lookup. rewrite entries_arr_lookup in Hi. destruct (l !! i) as [x|] eqn:Ex; [|done].
    injection Hi as <-. cbn [snd jdepth]. apply list_elem_of_lookup_2 in Ex.
    induction Ex as [l|x y l _ IH]; cbn; lia.
  - cbn [entries jdepth]. intros Hin. induction Hin as [[k x] o|x [k y] o _ IH]; cbn; [lia|cbn in IH; lia].
Qed.

Lemma path_text_under n k p : path_text (n ++ bracket k) p = path_text n (k :: p).
Proof. unfold path_text. cbn [fmap list_fmap concat]. by rewrite <- app_assoc. Qed.

Lemma qs_ok_defined d l : Forall (qs_ok d) l -> Forall (λ x, x <> JUndef) l.
Proof. intros H. eapply Forall_impl; [exact H|]. intros x Hx ->. by destruct d. Qed.

Lemma write_branch fuel v n d : qs_ok d v -> match v with JArr _ | JObj _ => True | _ => False end ->
  write_value (S fuel) v n = concat ((λ kv, write_value fuel kv.2 (n ++ bracket kv.1)) <$> entries v).
Proof.
  intros Hv Hb. rewrite <- (own_fmap (λ k x, write_value fuel x (n ++ bracket k)) v).
  - destruct v; try done; cbn [stringify_value]; cbv zeta; cbn [andb is_array]; f_equal.
  - destruct v; try done. destruct d; [done|]. apply Hv.
  - destruct v; try done. destruct d; [done|]. eapply qs_ok_defined, Hv.
Qed.

Lemma write_leaves d v fuel n : qs_ok d v -> (jdepth v <= fuel)%nat ->
  write_value fuel v n = leaf_text n <$> leaves v.
Proof.
  revert v fuel n. induction d as [d IH] using lt_wf_ind. intros v fuel n Hv Hf.
  destruct fuel as [|fuel]; [destruct v; cbn in Hf; lia|].
  assert (Hc : (∃ s, v = JStr s) \/ match v with JArr _ | JObj _ => True | _ => False end).
  { destruct v; eauto; by destruct d. }
  destruct Hc as [[s ->]|Hb].
  - cbn. unfold leaf_text, path_text. cbn. by rewrite app_nil_r.
  - rewrite (write_branch fuel v n d), leaves_entries by done. destruct (qs_ok_branch d v Hv Hb) as (d' & -> & _ & _ & He).
    rewrite fmap_concat, <- list_fmap_compose. f_equal. apply list_fmap_ext.
    intros i kv Hi. unfold compose. rewrite (IH d') by (first [lia|by eapply (Forall_lookup_1 _ _ _ _ He)|
      apply list_elem_of_lookup_2, jdepth_entries in Hi; lia]).
    rewrite <- list_fmap_compose. apply list_fmap_ext. intros j p _.
    unfold compose, leaf_text, under. cbn [fst snd]. by rewrite path_text_under.
Qed.

(** ** The paths *)

(** A name inside a path and a leaf of a value at most [d] deep. *)
Definition seg_ok (k : list Z) : Prop :=
  well_formed k /\ k <> [] /\ Forall (λ c, c <> 91 /\ c <> 93) k /\ (k ∉ object_prototype).
Definition leaf_ok (d : nat) (p : list (list Z) * list Z) : Prop :=
  (length p.1 <= d)%nat /\ Forall seg_ok p.1 /\ well_formed p.2.

Lemma leaves_ok d v : qs_ok d v -> Forall (leaf_ok d) (leaves v).
Proof.
  revert v. induction d as [d IH] using lt_wf_ind. intros v Hv.
  assert (Hc : (∃ s, v = JStr s) \/ match v with JArr _ | JObj _ => True | _ => False end).
  { destruct v; eauto; by destruct d. }
  destruct Hc as [[s ->]|Hb].
  - cbn. apply Forall_singleton. split_and!; [cbn; lia|apply Forall_nil_2|by destruct d].
  - rewrite leaves_entries by done. destruct (qs_ok_branch d v Hv Hb) as (d' & -> & _ & _ & He).
    apply Forall_concat, Forall_fmap. eapply Forall_impl; [exact He|]. intros kv (Hk & Hs). cbn.
    apply Forall_fmap. eapply Forall_impl; [apply (IH d'); [lia|done]|]. intros p (Hl & Hp & Hw).
    split_and!; [cbn; lia|by apply Forall_cons_2|done].
Qed.

Lemma nodup_under (L : jval -> list (list (list Z) * list Z)) m : NoDup (obj_keys m) ->
  Forall (λ kv, NoDup (fst <$> L kv.2)) m -> NoDup (fst <$> concat ((λ kv, under kv.1 <$> L kv.2) <$> m)).
Proof.
  intros Hn H. induction H as [|[k x] m Hx Hm IH]; [apply NoDup_nil_2|]. cbn [fmap list_fmap concat fst snd] in *.
  unfold obj_keys in Hn. cbn in Hn. apply NoDup_cons in Hn as [Hk Hn].
  assert (E : fst <$> (under k <$> L x) = cons k <$> (fst <$> L x)) by (rewrite <- !list_fmap_compose; by apply list_fmap_ext).
  rewrite fmap_app, E. apply NoDup_app. split_and!.
  - apply NoDup_fmap; [|done]. intros a b. by intros [= ->].
  - intros p (q & -> & _)%list_elem_of_fmap (p' & Hp & Hin)%list_elem_of_fmap. apply elem_of_concat in Hin as (l & Hl & Hin).
    apply list_elem_of_fmap in Hin as ([k' y] & -> & Hy). apply list_elem_of_fmap in Hl as (q' & -> & _). cbn in Hp.
    injection Hp as <- _. apply Hk, list_elem_of_fmap. by exists (k, y).
  - by apply IH.
Qed.

Lemma leaves_nodup d v : qs_ok d v -> NoDup (fst <$> leaves v).
Proof.
  revert v. induction d as [d IH] using lt_wf_ind. intros v Hv.
  assert (Hc : (∃ s, v = JStr s) \/ match v with JArr _ | JObj _ => True | _ => False end).
  { destruct v; eauto; by destruct d. }
  destruct Hc as [[s ->]|Hb]; [apply NoDup_singleton|].
  rewrite leaves_entries by done. destruct (qs_ok_branch d v Hv Hb) as (d' & -> & _ & Hn & He).
  apply (nodup_under leaves); [done|]. eapply Forall_impl; [exact He|]. intros kv (Hk & _). by apply (IH d'); [lia|].
Qed.

(** ** Reading a path *)

Abbreviation no_brackets k := (Forall (λ c, c <> 91 /\ c <> 93) k).

Lemma bracket_close_name a r : no_brackets a -> bracket_close (a ++ 93 :: r) = Some (a, r).
Proof.
  induction 1 as [|c a [H1 H2] _ IH]; [done|]. cbn. destruct (Z.eqb_spec c 93), (Z.eqb_spec c 91); try done. by rewrite IH.
Qed.
Lemma bracket_exec_path k p : no_brackets k -> Forall (λ a, no_brackets a) p ->
  bracket_exec (path_text k p) = match p with [] => None | a :: p => Some (k, a, path_text [] p) end.
Proof.
  intros Hk Hp. unfold path_text. induction Hk as [|c k [H1 _] _ IH]; cbn [app].
  - destruct p as [|a p]; [done|]. apply Forall_cons in Hp as [Ha _]. cbn [fmap list_fmap concat].
    unfold bracket at 1. cbn [app]. rewrite <- app_assoc. cbn [app bracket_exec]. rewrite Z.eqb_refl.
    by rewrite bracket_close_name.
  - cbn [bracket_exec]. rewrite IH. destruct (Z.eqb_spec c 91); [done|]. by destruct p.
Qed.

Lemma seg_no_brackets p : Forall seg_ok p -> Forall (λ a, no_brackets a) p.
Proof. intros H. eapply Forall_impl; [exact H|]. by intros a (_ & _ & ? & _). Qed.

Lemma path_text_inj k p k' p' : no_brackets k -> no_brackets k' -> Forall (λ a, no_brackets a) p ->
  Forall (λ a, no_brackets a) p' -> path_text k p = path_text k' p' -> k = k' /\ p = p'.
Proof.
  intros Hk Hk' Hp. revert k k' Hk Hk' p'. induction Hp as [|a p Ha Hp IH]; intros k k' Hk Hk' p' Hp' E;
    assert (E' := f_equal bracket_exec E); rewrite !bracket_exec_path in E' by (try done; by constructor);
    destruct Hp' as [|a' p' Ha' Hp']; try done.
  - unfold path_text in E. cbn in E. rewrite !app_nil_r in E. done.
  - injection E' as -> -> E'. by destruct (IH [] [] ltac:(constructor) ltac:(constructor) p' Hp' E') as [_ ->].
Qed.

Lemma forbidden_ok k : k ∉ object_prototype -> forbidden parse_defaults k = false.
Proof. intros H. unfold forbidden. cbn. by rewrite bool_decide_false. Qed.

Lemma bracket_segments_path l k p : no_brackets k -> Forall seg_ok p -> (length p <= l)%nat ->
  bracket_segments parse_defaults l (path_text k p) = Some (bracket <$> p).
Proof.
  intros Hk Hp. revert l k Hk. induction Hp as [|a p (_ & _ & Ha & Hf) Hp IH]; intros l k Hk Hl.
  - assert (E := bracket_exec_path k [] Hk ltac:(constructor)). destruct l; cbn [bracket_segments]; by rewrite E.
  - assert (E := bracket_exec_path k (a :: p) Hk ltac:(constructor; [done|by apply seg_no_brackets])).
    cbn in Hl. destruct l as [|l]; [lia|]. cbn [bracket_segments]. rewrite E, forbidden_ok by done.
    by rewrite IH by (first [constructor|lia]).
Qed.

Lemma parse_keys_path k p t : seg_ok k -> Forall seg_ok p -> (length p <= 5)%nat ->
  parse_keys (path_text k p) t parse_defaults = Some (foldr (wrap parse_defaults) t (k :: (bracket <$> p))).
Proof.
  intros (_ & Hne & Hk & Hf) Hp Hl. unfold parse_keys.
  assert (Hc : ∃ c r, path_text k p = c :: r) by (unfold path_text; destruct k; [done|cbn; eauto]).
  destruct Hc as (c & r & Hc). rewrite Hc, <- Hc. cbn [p_allowDots parse_defaults]. cbv zeta.
  rewrite (bracket_segments_path (Z.to_nat 5)) by (try done; cbn; lia).
  rewrite bracket_exec_path by (try done; by apply seg_no_brackets).
  replace (match match p with [] => None | a :: p => Some (k, a, path_text [] p) end with
    Some (b, _, _) => b | None => path_text k p end) with k.
  - destruct k as [|x k]; [done|]. by rewrite forbidden_ok.
  - destruct p; [|done]. unfold path_text. cbn. by rewrite app_nil_r.
Qed.

(** ** Reading the parts of the text *)

Lemma escaped_qs c : is_scalar c -> Forall uri_char (escaped qs_unreserved c).
Proof.
  intros Hc. unfold escaped. destruct (qs_unreserved c) eqn:E.
  - apply Forall_singleton. left. unfold qs_unreserved in E. unfold uri_unreserved.
    apply orb_prop in E as [E|E]; [|by rewrite E]. apply bool_decide_eq_true in E.
    repeat (apply elem_of_cons in E as [->|E]; [done|]). by apply not_elem_of_nil in E.
  - destruct (utf8_of_facts c Hc) as (Hb & _ & _). induction Hb as [|b bs Hb _ IH]; [apply Forall_nil_2|].
    cbn [fmap list_fmap concat]. apply Forall_app. split; [by apply percent_uri|done].
Qed.

Lemma qs_encode_spec s : well_formed s -> qs_decode (qs_encode s) = s /\ Forall uri_char (qs_encode s).
Proof.
  intros (cs & Hcs & ->). split; [by apply qs_decode_encode|]. rewrite qs_encode_text by done.
  induction Hcs as [|c cs Hc _ IH]; [apply Forall_nil_2|]. cbn [fmap list_fmap concat].
  apply Forall_app. split; [by apply escaped_qs|done].
Qed.

Lemma well_formed_app s t : well_formed s -> well_formed t -> well_formed (s ++ t).
Proof.
  intros (cs & Hcs & ->) (ds & Hds & ->). exists (cs ++ ds). split; [by apply Forall_app|]. by rewrite fmap_app, concat_app.
Qed.

Lemma path_well_formed k p : well_formed k -> Forall seg_ok p -> well_formed (path_text k p).
Proof.
  intros Hk Hp. apply well_formed_app; [done|]. induction Hp as [|a p (Ha & _) _ IH]; [by apply well_formed_b|].
  cbn [fmap list_fmap concat]. repeat apply well_formed_app; try done; by apply well_formed_b.
Qed.

Lemma parse_value_text n k s : well_formed k -> well_formed s -> k ∉ obj_keys n ->
  parse_value parse_defaults n (qs_encode k ++ [61] ++ qs_encode s) = obj_assign false n k (JStr s).
Proof.
  intros Hk Hs Hn. destruct (qs_encode_spec k Hk) as [Dk Ck], (qs_encode_spec s Hs) as [Ds Cs].
  unfold parse_value. set (f := qs_encode k ++ [61] ++ qs_encode s).
  assert (Hi : index_of (js "]=") f = -1).
  { apply (index_from_absent 93). apply Forall_app. split; [by eapply uri_char_not|].
    apply Forall_cons_2; [done|by eapply uri_char_not]. }
  assert (Hj : index_of [61] f = len (qs_encode k)) by (apply index_of_free; by eapply uri_char_not).
  rewrite Hi, Hj. cbn [Z.eqb Pos.eqb]. cbv zeta. pose proof (len_nonneg (qs_encode k)).
  destruct (Z.eqb_spec (len (qs_encode k)) (-1)); [lia|]. unfold slice, decode_with, len. cbn [decoder parse_defaults].
  subst f. rewrite drop_0, Z.sub_0_r, Nat2Z.id, take_app_length.
  replace (Z.to_nat (Z.of_nat (length (qs_encode k)) + 1)) with (length (qs_encode k) + 1)%nat by lia.
  rewrite drop_app_add. change (drop 1 ([61] ++ qs_encode s)) with (qs_encode s). rewrite Dk, Ds.
  by rewrite (proj2 (obj_get_None n k)).
Qed.

(** A leaf of the top-level object: its first name is not in brackets. *)
Definition full_text (p : list (list Z)) : list Z := match p with k :: r => path_text k r | [] => [] end.
Definition flat (p : list (list Z) * list Z) : list Z * jval := (full_text p.1, JStr p.2).
(** The text of its part. *)
Definition part_text (p : list (list Z) * list Z) : list Z := qs_encode (full_text p.1) ++ [61] ++ qs_encode p.2.
Definition top_leaf (p : list (list Z) * list Z) : Prop :=
  ∃ k r, p.1 = k :: r /\ array_index k = None /\ seg_ok k /\ leaf_ok 5 (r, p.2).

Lemma array_index_other c s : c ∈ s -> digit c = false -> array_index s = None.
Proof.
  intros Hin Hc. unfold array_index, parse_dec. destruct s as [|x s]; [done|].
  assert (E : forallb digit (x :: s) = false); [|by rewrite E].
  destruct (forallb digit (x :: s)) eqn:E; [|done]. rewrite forallb_forall in E. apply list_elem_of_In, E in Hin. congruence.
Qed.

Lemma top_leaf_text p : top_leaf p -> well_formed (full_text p.1) /\ array_index (full_text p.1) = None /\
  full_text p.1 <> js "__proto__".
Proof.
  intros (k & r & -> & Hi & (Hw & Hne & Hb & Hf) & _ & Hr & _). cbn in Hr. cbn [full_text]. split; [by apply path_well_formed|].
  destruct r as [|a r].
  - unfold path_text. cbn. rewrite app_nil_r. split; [done|]. intros ->. apply Hf. apply (bool_decide_unpack _). by vm_compute.
  - assert (Hin : 91 ∈ path_text k (a :: r)) by (unfold path_text; cbn; set_solver).
    split; [by apply (array_index_other 91)|]. intros E. rewrite E in Hin. revert Hin. apply (bool_decide_unpack _). by vm_compute.
Qed.

Lemma full_text_inj p q : top_leaf p -> top_leaf q -> full_text p.1 = full_text q.1 -> p.1 = q.1.
Proof.
  intros (k & r & -> & _ & (_ & _ & Hk & _) & _ & Hr & _) (k' & r' & -> & _ & (_ & _ & Hk' & _) & _ & Hr' & _) E.
  cbn in *. apply path_text_inj in E as [-> ->]; try done; by apply seg_no_brackets.
Qed.

(** The flat object of the parts: a property per leaf, in order. *)
Lemma parse_parts ps a : NoDup (fst <$> ps) -> Forall top_leaf ps -> (∀ p, p ∈ ps -> full_text p.1 ∉ obj_keys a) ->
  foldl (parse_value parse_defaults) a (part_text <$> ps) = a ++ (flat <$> ps).
Proof.
  intros Hn H. revert a Hn. induction H as [|p ps Hp Hps IH]; intros a Hn Ha; [by rewrite app_nil_r|].
  cbn [fmap list_fmap foldl]. destruct (top_leaf_text p Hp) as (Hw & Hi & Hproto).
  assert (Hs : well_formed p.2) by (by destruct Hp as (? & ? & _ & _ & _ & _ & _ & ?)).
  cbn in Hn. apply NoDup_cons in Hn as [Hnp Hn]. assert (Hpa : full_text p.1 ∉ obj_keys a) by (apply Ha; set_solver).
  unfold part_text at 1. rewrite parse_value_text by done. unfold obj_assign. rewrite bool_decide_false by done. cbn [negb andb].
  assert (E : obj_set a (full_text p.1) (JStr p.2) = a ++ [flat p]).
  { unfold obj_set. rewrite (proj2 (obj_get_None a _)) by done. apply obj_insert_last. intros k' _.
    unfold key_before. by rewrite Hi. }
  rewrite E, IH; [by rewrite <- app_assoc|done|]. intros q Hq. unfold obj_keys. rewrite fmap_app. intros [Hin|Hin]%elem_of_app.
  - revert Hin. apply Ha. set_solver.
  - cbn in Hin. apply list_elem_of_singleton in Hin. apply full_text_inj in Hin; [|by eapply Forall_forall|done].
    apply Hnp, list_elem_of_fmap. by exists q.
Qed.

(** ** Putting the leaves together *)

Abbreviation wrap0 := (wrap parse_defaults).
Abbreviation merge0 := (merge parse_defaults).

Lemma strip_bracket k : strip_brackets (bracket k) = k.
Proof.
  assert (E : last (91 :: k ++ [93]) = Some 93) by apply (last_snoc 93 (91 :: k)).
  unfold strip_brackets, bracket. cbn [app]. rewrite E, length_app. cbn [length]. by rewrite Nat.add_sub, take_app_length.
Qed.
Lemma bracket_ne k : bracket k <> k.
Proof. intros E%(f_equal length). unfold bracket in E. rewrite !length_app in E. cbn in E. lia. Qed.

Lemma canonical_dec i : 0 <= i -> canonical_nat (dec i) = Some i.
Proof. intros Hi. unfold canonical_nat. rewrite parse_dec_dec by done. by rewrite decide_True. Qed.

Lemma wrap_index i r : 0 <= i <= 20 -> wrap0 (bracket (dec i)) r = JArr (replicate (Z.to_nat i) JUndef ++ [r]).
Proof.
  intros Hi. unfold wrap. destruct (dec_spec i) as (_ & _ & Hne); [lia|]. rewrite decide_False.
  - rewrite strip_bracket. cbv zeta. rewrite canonical_dec by lia. rewrite bool_decide_false by apply bracket_ne.
    cbn [negb andb parseArrays parse_defaults arrayLimit]. destruct (Z.leb_spec i 20); [|lia].
    change (default 0 (Some i)) with i. unfold arr_put.
    rewrite len_nil. destruct (Z.ltb_spec i 0); [lia|]. by rewrite Z.sub_0_r.
  - intros [= E]. by destruct (dec i) as [|? [|? ?]].
Qed.

Lemma not_proto k : k ∉ object_prototype -> bool_decide (k = js "__proto__") = false.
Proof. intros H. apply bool_decide_false. intros ->. apply H, (bool_decide_unpack _). by vm_compute. Qed.

Lemma wrap_name k r : qs_key k -> wrap0 (bracket k) r = JObj [(k, r)].
Proof.
  intros (_ & Hne & Hb & Hp & Hc). unfold wrap. rewrite decide_False.
  - rewrite strip_bracket. cbv zeta. unfold obj_assign. rewrite not_proto by done. cbn [plainObjects parse_defaults negb andb].
    destruct (canonical_nat k) as [i|]; [|done].
    change (arrayLimit parse_defaults) with 20. destruct (Z.leb_spec i 20); [lia|]. by rewrite andb_false_r.
  - intros [= E]. by destruct k as [|? [|? ?]].
Qed.

Lemma wrap_top k r : seg_ok k -> wrap0 k r = JObj [(k, r)].
Proof.
  intros (_ & Hne & Hb & Hp). unfold wrap. rewrite decide_False by (intros ->; apply Forall_cons in Hb as [[? _] _]; done).
  assert (E : strip_brackets k = k).
  { destruct k as [|c k]; [done|]. apply Forall_cons in Hb as [[Hc _] _]. unfold strip_brackets.
    destruct c as [|q|q]; try done. do 7 (destruct q as [q|q|]; try done). }
  rewrite E. cbv zeta. unfold obj_assign. rewrite not_proto by done. cbn [plainObjects parse_defaults negb andb].
  rewrite bool_decide_true by done. by destruct (canonical_nat k).
Qed.

(** The value of a leaf with the names around it. *)
Definition build (p : list (list Z) * list Z) : jval := foldr wrap0 (JStr p.2) (bracket <$> p.1).

Lemma build_under k p : build (under k p) = wrap0 (bracket k) (build p).
Proof. done. Qed.

(** The loop of [merge] over an array. *)
Fixpoint merge_elements (i : Z) (e l : list jval) : result jval :=
  match l with
  | [] => Ok (JArr e)
  | x :: l =>
      match x with
      | JUndef => merge_elements (i + 1) e l
      | _ =>
          match arr_get e i with
          | None | Some JUndef => merge_elements (i + 1) (arr_put e i x) l
          | Some y =>
              if truthy y && is_object y then let! z := merge0 y x in merge_elements (i + 1) (arr_set e i z) l
              else merge_elements (i + 1) (e ++ [x]) l
          end
      end
  end.
Lemma merge_arrays e l : merge0 (JArr e) (JArr l) = merge_elements 0 e l.
Proof. reflexivity. Qed.

Definition container (v : jval) : Prop := match v with JArr _ | JObj _ => True | _ => False end.

Lemma container_defined v : container v -> v <> JUndef.
Proof. by intros H ->. Qed.

Lemma merge_elements_container i e l z : merge_elements i e l = Ok z -> container z.
Proof.
  revert i e. induction l as [|x l IH]; intros i e; cbn [merge_elements]; [by intros [= <-]|].
  assert (G : ∀ y, (let! z := merge0 y x in merge_elements (i + 1) (arr_set e i z) l) = Ok z -> container z).
  { intros y. destruct (merge0 y x); cbn [result_bind]; [apply IH|done]. }
  assert (G' : (match arr_get e i with
      | None | Some JUndef => merge_elements (i + 1) (arr_put e i x) l
      | Some y => if truthy y && is_object y then let! z := merge0 y x in merge_elements (i + 1) (arr_set e i z) l
                  else merge_elements (i + 1) (e ++ [x]) l end) = Ok z -> container z).
  { destruct (arr_get e i) as [y|]; [|apply IH]. destruct (truthy y && is_object y); destruct y; eauto. }
  destruct x; first [apply IH|exact G'].
Qed.

(** The loops of [merge] that end in an object. *)
Fixpoint merge_indexed (i : Z) (e : jobj) (l : list jval) : result jval :=
  match l with
  | [] => Ok (JObj e)
  | x :: l =>
      match x with
      | JUndef => merge_indexed (i + 1) e l
      | _ => match obj_get e (dec i) with
             | Some y => let! z := merge0 y x in merge_indexed (i + 1) (obj_set e (dec i) z) l
             | None => merge_indexed (i + 1) (obj_set e (dec i) x) l
             end
      end
  end.
Fixpoint merge_named (e m : jobj) : result jval :=
  match m with
  | [] => Ok (JObj e)
  | (k, x) :: m =>
      match obj_get e k with
      | Some y => let! z := merge0 y x in merge_named (obj_set e k z) m
      | None => merge_named (obj_assign false e k x) m
      end
  end.
Lemma merge_object_array e l : merge0 (JObj e) (JArr l) = merge_indexed 0 e l.
Proof. reflexivity. Qed.
Lemma merge_objects e m : merge0 (JObj e) (JObj m) = merge_named e m.
Proof. reflexivity. Qed.
Lemma merge_array_object e m : merge0 (JArr e) (JObj m) = merge_named (arrayToObject e) m.
Proof. reflexivity. Qed.

Lemma merge_indexed_container i e l z : merge_indexed i e l = Ok z -> container z.
Proof.
  revert i e. induction l as [|x l IH]; intros i e; cbn [merge_indexed]; [by intros [= <-]|].
  assert (G : (match obj_get e (dec i) with
     | Some y => let! z := merge0 y x in merge_indexed (i + 1) (obj_set e (dec i) z) l
     | None => merge_indexed (i + 1) (obj_set e (dec i) x) l end) = Ok z -> container z).
  { destruct (obj_get e (dec i)) as [y|]; [|apply IH]. destruct (merge0 y x); cbn [result_bind]; [apply IH|done]. }
  destruct x; first [apply IH|exact G].
Qed.
Lemma merge_named_container e m z : merge_named e m = Ok z -> container z.
Proof.
  revert e. induction m as [|[k x] m IH]; intros e; cbn [merge_named]; [by intros [= <-]|].
  destruct (obj_get e k) as [y|]; [|apply IH]. destruct (merge0 y x); cbn [result_bind]; [apply IH|done].
Qed.

Lemma merge_container y x z : container y -> container x -> merge0 y x = Ok z -> container z.
Proof.
  destruct y, x; try done; intros _ _.
  - rewrite merge_arrays. apply merge_elements_container.
  - rewrite merge_array_object. apply merge_named_container.
  - rewrite merge_object_array. apply merge_indexed_container.
  - rewrite merge_objects. apply merge_named_container.
Qed.

(** *** Adding a leaf to an array and to an object *)

Lemma merge_elements_skip i e n l : merge_elements i e (replicate n JUndef ++ l) = merge_elements (i + Z.of_nat n) e l.
Proof.
  revert i. induction n as [|n IH]; intros i; [by rewrite Z.add_0_r|]. cbn [replicate app merge_elements]. rewrite IH. f_equal. lia.
Qed.

Lemma merge_new_element a x : x <> JUndef -> merge0 (JArr a) (JArr (replicate (length a) JUndef ++ [x])) = Ok (JArr (a ++ [x])).
Proof.
  intros Hx. rewrite merge_arrays, merge_elements_skip. cbn [merge_elements].
  assert (E : arr_get a (0 + Z.of_nat (length a)) = None).
  { unfold arr_get. destruct (Z.leb_spec 0 (0 + Z.of_nat (length a))); [|done]. apply lookup_ge_None. lia. }
  rewrite E. unfold arr_put, len. rewrite Z.ltb_irrefl, Z.sub_diag. by destruct x.
Qed.

Lemma merge_last_element a y x : container y -> x <> JUndef ->
  merge0 (JArr (a ++ [y])) (JArr (replicate (length a) JUndef ++ [x])) = let! z := merge0 y x in Ok (JArr (a ++ [z])).
Proof.
  intros Hy Hx. rewrite merge_arrays, merge_elements_skip. cbn [merge_elements].
  assert (E : arr_get (a ++ [y]) (0 + Z.of_nat (length a)) = Some y) by apply (arr_get_app_r a [y] 0 ltac:(lia)).
  assert (S : ∀ z, arr_set (a ++ [y]) (0 + Z.of_nat (length a)) z = a ++ [z]).
  { intros z. unfold arr_set. destruct (Z.leb_spec 0 (0 + Z.of_nat (length a))); [|lia]. rewrite Z.add_0_l, Nat2Z.id.
    by rewrite insert_app_r_alt, Nat.sub_diag by lia. }
  rewrite E. assert (T : truthy y && is_object y = true) by (by destruct y).
  destruct (merge0 y x) as [z|err]; destruct x; try done; destruct y; try done; cbn [truthy is_object andb result_bind merge_elements];
    by rewrite ?S.
Qed.

Lemma merge_new_key a k x : obj_ok (a ++ [(k, x)]) -> k ∉ object_prototype -> merge0 (JObj a) (JObj [(k, x)]) = Ok (JObj (a ++ [(k, x)])).
Proof.
  intros Ha Hk. rewrite merge_objects. cbn [merge_named]. rewrite (proj2 (obj_get_None a k)) by (by eapply obj_ok_last).
  unfold obj_assign. rewrite not_proto by done. cbn [negb andb]. by rewrite obj_set_last.
Qed.
Lemma merge_last_key a k y x : obj_ok (a ++ [(k, y)]) ->
  merge0 (JObj (a ++ [(k, y)])) (JObj [(k, x)]) = let! z := merge0 y x in Ok (JObj (a ++ [(k, z)])).
Proof.
  intros Ha. rewrite merge_objects. cbn [merge_named]. rewrite obj_get_app, (proj2 (obj_get_None a k)) by (by eapply obj_ok_last).
  cbn [obj_get]. rewrite decide_True by done. destruct (merge0 y x); [|done]. cbn. by rewrite obj_set_again.
Qed.

(** *** All leaves of a value *)

Abbreviation merge_leaves := (foldR (λ e p, merge0 e (build p))).

(** The leaves of [v] rebuild it: from the first one, the others are merged in. *)
Definition rebuilds (v : jval) : Prop :=
  ∃ p ps, leaves v = p :: ps /\ build p <> JUndef /\
    ((ps = [] /\ build p = v) \/
     (container (build p) /\ Forall (λ q, container (build q)) ps /\ merge_leaves (build p) ps = Ok v)).

Section slot.
Context (base : jval) (add wrapped : jval -> jval).
Context (Hnew : ∀ x, x <> JUndef -> merge0 base (wrapped x) = Ok (add x)).
Context (Hlast : ∀ y x, container y -> x <> JUndef -> merge0 (add y) (wrapped x) = let! z := merge0 y x in Ok (add z)).

Lemma fold_last y ps : container y -> Forall (λ q, container (build q)) ps ->
  foldR (λ e p, merge0 e (wrapped (build p))) (add y) ps = let! z := merge_leaves y ps in Ok (add z).
Proof.
  intros Hy H. revert y Hy. induction H as [|q ps Hq Hps IH]; intros y Hy; [done|]. cbn [foldR].
  rewrite Hlast by (done || by apply container_defined).
  destruct (merge0 y (build q)) as [z|err] eqn:E; cbn [result_bind]; [|done]. apply IH. exact (merge_container _ _ _ Hy Hq E).
Qed.

(** Merging the leaves of [v] into a free slot stores [v] there. *)
Lemma fold_slot v : rebuilds v -> foldR (λ e p, merge0 e (wrapped (build p))) base (leaves v) = Ok (add v).
Proof.
  intros (p & ps & -> & Hp & Hv). cbn [foldR]. rewrite Hnew by done. cbn [result_bind].
  destruct Hv as [[-> ->]|(Hc & Hps & Hm)]; [done|]. rewrite fold_last by done. by rewrite Hm.
Qed.
End slot.

Lemma foldR_fmap {A B S} (f : S -> B -> result S) (g : A -> B) s l : foldR f s (g <$> l) = foldR (λ s x, f s (g x)) s l.
Proof. revert s. induction l as [|x l IH]; intros s; [done|]. cbn. destruct (f s (g x)); [apply IH|done]. Qed.
Lemma foldR_ext {A S} (f g : S -> A -> result S) s l : Forall (λ x, ∀ s, f s x = g s x) l -> foldR f s l = foldR g s l.
Proof. intros H. revert s. induction H as [|x l Hx _ IH]; intros s; [done|]. cbn. rewrite Hx. destruct (g s x); [apply IH|done]. Qed.

Lemma merge_array_leaves a l : Forall rebuilds l -> len (a ++ l) <= 21 ->
  merge_leaves (JArr a) (concat ((λ kv, under kv.1 <$> leaves kv.2) <$> imap (λ i v, (dec (Z.of_nat (length a + i)), v)) l))
    = Ok (JArr (a ++ l)).
Proof.
  intros H. revert a. induction H as [|x l Hx _ IH]; intros a Hl; [by rewrite app_nil_r|].
  rewrite imap_cons. cbn [fmap list_fmap concat fst snd]. rewrite Nat.add_0_r, foldR_app, foldR_fmap.
  rewrite len_app, len_cons in Hl. pose proof (len_nonneg l).
  rewrite (foldR_ext _ (λ e p, merge0 e (JArr (replicate (length a) JUndef ++ [build p])))).
  - rewrite (fold_slot (JArr a) (λ x, JArr (a ++ [x])) (λ x, JArr (replicate (length a) JUndef ++ [x]))); [|apply merge_new_element|apply merge_last_element|done].
    cbn [result_bind]. replace (a ++ x :: l) with ((a ++ [x]) ++ l) by (by rewrite <- app_assoc).
    rewrite <- IH by (rewrite !len_app, len_cons, len_nil; lia).
    do 3 f_equal. apply imap_ext. intros i y _. unfold compose. rewrite length_app. cbn.
    by replace (length a + 1 + i)%nat with (length a + S i)%nat by lia.
  - apply Forall_forall. intros p _ e. rewrite build_under, wrap_index by (unfold len in *; lia). by rewrite Nat2Z.id.
Qed.

Lemma merge_object_leaves a o w : (∀ k x p, (k, x) ∈ o -> p ∈ leaves x -> w (under k p) = JObj [(k, build p)]) ->
  obj_ok (a ++ o) -> Forall (λ kv, (kv.1 ∉ object_prototype) /\ rebuilds kv.2) o ->
  foldR (λ e p, merge0 e (w p)) (JObj a) (concat ((λ kv, under kv.1 <$> leaves kv.2) <$> o)) = Ok (JObj (a ++ o)).
Proof.
  intros Hw Ha H. revert a Ha. induction H as [|[k x] o [Hk Hx] _ IH]; intros a Ha; [by rewrite app_nil_r|].
  cbn [fmap list_fmap concat fst snd] in *. rewrite foldR_app, foldR_fmap. rewrite (cons_middle (k, x)), app_assoc in Ha.
  assert (Hak : ∀ y, obj_ok (a ++ [(k, y)])) by (intros y; eapply obj_ok_value, obj_ok_app_l, Ha).
  rewrite (foldR_ext _ (λ e p, merge0 e (JObj [(k, build p)]))).
  - rewrite (fold_slot (JObj a) (λ x, JObj (a ++ [(k, x)])) (λ x, JObj [(k, x)])); [|intros; by apply merge_new_key|intros; by apply merge_last_key|done].
    cbn [result_bind]. rewrite IH; [by rewrite <- app_assoc| |done]. intros k' x' p Hk'. apply Hw. set_solver.
  - apply Forall_forall. intros p Hp e. by rewrite (Hw k x p) by set_solver.
Qed.

(** From the empty array or object, the first leaf is taken as it is. *)
Lemma rebuilds_first v base : container v -> base = match v with JArr _ => JArr [] | _ => JObj [] end -> leaves v <> [] ->
  Forall (λ p, container (build p)) (leaves v) ->
  (∀ p ps, leaves v = p :: ps -> merge0 base (build p) = Ok (build p)) -> merge_leaves base (leaves v) = Ok v -> rebuilds v.
Proof.
  intros Hv Hb Hne Hc Hf Hm. destruct (leaves v) as [|p ps] eqn:E; [done|]. exists p, ps. split; [done|].
  apply Forall_cons in Hc as [Hp Hps]. split; [by apply container_defined|]. right. do 2 (split; [done|]).
  cbn [foldR] in Hm. by rewrite (Hf p ps) in Hm.
Qed.

Lemma build_container k p : container (build (under k p)).
Proof.
  rewrite build_under. unfold wrap. case_decide; [done|]. cbv zeta.
  match goal with |- container (if ?b then _ else _) => by destruct b end.
Qed.

Lemma leaves_containers v : container v -> Forall (λ p, container (build p)) (leaves v).
Proof.
  intros Hv. rewrite leaves_entries by done. apply Forall_concat, Forall_fmap, Forall_forall. intros kv _. cbn.
  apply Forall_fmap, Forall_forall. intros p _. apply build_container.
Qed.

Lemma build_ne p : build p <> JUndef.
Proof.
  destruct p as [[|k p] s]; [done|]. pose proof (build_container k (p, s)) as H. intros E.
  change (build (under k (p, s))) with (build (k :: p, s)) in H. by rewrite E in H.
Qed.

Lemma qs_rebuilds d v : qs_ok d v -> rebuilds v.
Proof.
  revert v. induction d as [d IH] using lt_wf_ind. intros v Hv. pose proof (leaves_ne d v Hv) as Hne.
  destruct v as [| | | |s|l|o]; try (by destruct d).
  - exists ([], s), []. split_and!; [done|done|by left].
  - destruct d as [|d]; [done|]. destruct Hv as (_ & Hl & Hf).
    assert (Hr : Forall rebuilds l) by (eapply Forall_impl; [exact Hf|]; intros x; apply (IH d); lia).
    apply (rebuilds_first _ (JArr [])); try done; [by apply leaves_containers| |].
    + intros p ps E. rewrite leaves_entries in E by done. unfold entries in E. destruct l as [|x l]; [done|].
      rewrite imap_cons in E. cbn [fmap list_fmap concat fst snd] in E.
      destruct (leaves x) as [|q qs] eqn:Ex.
      { apply Forall_cons in Hf as [Hx _]. by apply leaves_ne in Hx. }
      cbn [fmap list_fmap app] in E. injection E as <- _. change (Z.of_nat 0) with 0. rewrite build_under, wrap_index by lia.
      apply (merge_new_element []). apply build_ne.
    + rewrite leaves_entries by done. exact (merge_array_leaves [] l Hr Hl).
  - destruct d as [|d]; [done|]. destruct Hv as (_ & Ho & Hf).
    assert (Hr : Forall (λ kv, (kv.1 ∉ object_prototype) /\ rebuilds kv.2) o).
    { eapply Forall_impl; [exact Hf|]. intros kv ((_ & _ & _ & Hp & _) & Hk). split; [done|]. by apply (IH d); [lia|]. }
    assert (Hw : ∀ k x p, (k, x) ∈ o -> p ∈ leaves x -> build (under k p) = JObj [(k, build p)]).
    { intros k x p Hin _. rewrite build_under. apply wrap_name. rewrite Forall_forall in Hf. by apply (Hf (k, x)). }
    apply (rebuilds_first _ (JObj [])); try done; [by apply leaves_containers| |].
    + intros p ps E. rewrite leaves_entries in E by done. cbn in E. destruct o as [|[k x] o]; [done|]. cbn in E.
      destruct (leaves x) as [|q qs] eqn:Ex.
      { apply Forall_cons in Hf as [[_ Hx] _]. by apply leaves_ne in Hx. }
      injection E as <- _. rewrite (Hw k x q) by (rewrite ?Ex; set_solver). apply (merge_new_key []).
      * apply (obj_ok_app_l [(k, _)] o). unfold obj_ok, obj_keys in *. done.
      * by apply Forall_cons in Hr as [[? _] _].
    + rewrite leaves_entries by done. by apply (merge_object_leaves [] o).
Qed.

(** ** The round trip *)

Lemma compact_id d v : qs_ok d v -> compact v = v.
Proof.
  revert v. induction d as [d IH] using lt_wf_ind. intros v Hv. destruct v as [| | | |s|l|o]; try done.
  - destruct d as [|d]; [done|]. destruct Hv as (_ & _ & Hf). cbn [compact]. f_equal.
    induction Hf as [|x l Hx _ IHl]; [done|]. cbn [fmap list_fmap List.filter]. rewrite (IH d) by (done || lia).
    rewrite bool_decide_false by (intros ->; by destruct d). cbn [negb]. by rewrite IHl.
  - destruct d as [|d]; [done|]. destruct Hv as (_ & _ & Hf). cbn [compact]. f_equal.
    induction Hf as [|[k x] l [_ Hx] _ IHl]; [done|]. cbn [fmap list_fmap]. rewrite (IH d) by (done || lia). by rewrite IHl.
Qed.

Lemma top_leaves o : qs_object o -> Forall top_leaf (leaves (JObj o)) /\ NoDup (fst <$> leaves (JObj o)).
Proof.
  intros [[Hn _] Ho]. rewrite leaves_entries by done. cbn [entries]. split.
  - apply Forall_concat, Forall_fmap. eapply Forall_impl; [exact Ho|]. intros [k x] ((Hw & Hne & Hb & Hp & _) & Hi & Hx). cbn in *.
    apply Forall_fmap. eapply Forall_impl; [exact (leaves_ok 5 x Hx)|]. intros p Hl. exists k, p.1. split_and!; try done; apply Hl.
  - apply (nodup_under leaves); [done|]. eapply Forall_impl; [exact Ho|]. intros kv (_ & _ & Hx). exact (leaves_nodup 5 _ Hx).
Qed.

Lemma qs_stringify_object o : qs_object o ->
  qs_stringify (JObj o) stringify_defaults = Ok (join [38] (part_text <$> leaves (JObj o))).
Proof.
  intros [[Hn _] Ho].
  assert (E : concat ((λ C, write_value (jdepth (JObj o)) (own (JObj o) C) C) <$> own_keys (JObj o)) = part_text <$> leaves (JObj o)).
  { rewrite (own_fmap (λ C x, write_value (jdepth (JObj o)) x C)) by done. rewrite leaves_entries, fmap_concat by done.
    rewrite <- list_fmap_compose. f_equal. apply list_fmap_ext. intros i kv Hi. unfold compose.
    rewrite (write_leaves 5).
    - rewrite <- list_fmap_compose. by apply list_fmap_ext.
    - cbn [entries] in Hi. by eapply (Forall_lookup_1 _ _ _ _ Ho).
    - apply list_elem_of_lookup_2, jdepth_entries in Hi. lia. }
  rewrite <- E. cbn. by destruct (join _ _).
Qed.

Lemma qs_parse_leaves o : qs_object o -> len (leaves (JObj o)) <= 1000 ->
  qs_parse (JStr (join [38] (part_text <$> leaves (JObj o)))) parse_defaults = Ok (JObj o).
Proof.
  intros Ho Hmax.
  destruct (top_leaves o Ho) as [Hl Hn]. set (ps := leaves (JObj o)) in *.
  destruct (decide (ps = [])) as [E|Hne].
  { rewrite E. destruct o as [|[k x] o]; [done|]. destruct Ho as [_ [(_ & _ & Hx%leaves_ne) _]%Forall_cons].
    subst ps. cbn in E, Hx. by destruct (leaves x). }
  assert (Hsplit : split [38] (join [38] (part_text <$> ps)) = part_text <$> ps).
  { apply split_join; [by destruct ps|]. apply Forall_fmap. eapply Forall_impl; [exact Hl|]. intros p Hp.
    destruct (top_leaf_text p Hp) as ([_ C1]%qs_encode_spec & _). destruct Hp as (? & ? & _ & _ & _ & _ & _ & [_ C2]%qs_encode_spec).
    apply Forall_app. split; [by eapply uri_char_not|]. apply Forall_cons_2; [done|by eapply uri_char_not]. }
  assert (Hc : ∃ c r, join [38] (part_text <$> ps) = c :: r).
  { destruct ps as [|p ps]; [done|]. cbn [fmap list_fmap]. generalize (part_text <$> ps). unfold part_text.
    intros [|y l]; cbn [join]; destruct (qs_encode (full_text p.1)); cbn; eauto. }
  destruct Hc as (c & r & Hc). unfold qs_parse. cbn [decoder parse_defaults]. rewrite Hc, <- Hc. cbv zeta. unfold parse_values.
  cbn [ignoreQueryPrefix p_delimiter parameterLimit parse_defaults]. cbv zeta. rewrite Hsplit.
  rewrite take_ge by (rewrite length_fmap; unfold len in Hmax; lia). rewrite (parse_parts ps []) by (done || set_solver).
  cbn [app]. rewrite foldR_fmap. cbn [flat fst snd]. subst ps. rewrite (leaves_entries (JObj o)) by done. cbn [entries].
  rewrite (merge_object_leaves [] o (λ p, default JUndef (parse_keys (full_text p.1) (JStr p.2) parse_defaults))).
  - cbn [app result_bind]. f_equal. cbn [compact]. f_equal. destruct Ho as [_ Ho]. clear -Ho.
    induction Ho as [|[k x] o (_ & _ & Hx) _ IH]; [done|]. cbn [fmap list_fmap]. by rewrite IH, (compact_id 5).
  - intros k x p Hin Hp. destruct Ho as [_ Ho]. rewrite Forall_forall in Ho. destruct (Ho _ Hin) as ((Hw & Hkn & Hb & Hf & _) & _ & Hx).
    apply leaves_ok in Hx. rewrite Forall_forall in Hx. destruct (Hx p Hp) as (Hlen & Hs & _). cbn [under full_text fst snd].
    rewrite parse_keys_path by done. cbn [default foldr]. by rewrite wrap_top.
  - apply Ho.
  - destruct Ho as [_ Ho]. eapply Forall_impl; [exact Ho|]. intros kv ((_ & _ & _ & ? & _) & _ & Hx). split; [done|]. exact (qs_rebuilds 5 _ Hx).
Qed.

(** C12. [qs.parse] inverts [qs.stringify] with their default options: nested
    objects and arrays of strings come back, with their structure, their order
    and the text of every name and string, up to the limits the parser has
    (five levels of brackets, array indexes up to 20, 1000 parts). *)
Theorem qs_roundtrip o : qs_object o -> len (leaves (JObj o)) <= 1000 ->
  ∃ s, qs_stringify (JObj o) stringify_defaults = Ok s /\ qs_parse (JStr s) parse_defaults = Ok (JObj o).
Proof.
  intros Ho Hmax. exists (join [38] (part_text <$> leaves (JObj o))). split; [by apply qs_stringify_object|by apply qs_parse_leaves].
Qed.

Lemma qs_key_b k : asciib k && negb (bool_decide (k = [])) && forallb (λ c, negb (c =? 91) && negb (c =? 93)) k
  && negb (bool_decide (k ∈ object_prototype)) && (match canonical_nat k with Some n => 20 <? n | None => true end) = true -> qs_key k.
Proof.
  rewrite !andb_true_iff. intros [[[[Ha Hne] Hb] Hp] Hc]. split_and!.
  - by apply well_formed_b.
  - by apply negb_true_iff, bool_decide_eq_false in Hne.
  - rewrite forallb_forall in Hb. apply Forall_forall. intros c Hin%list_elem_of_In%Hb. lia.
  - by apply negb_true_iff, bool_decide_eq_false in Hp.
  - destruct (canonical_nat k); [lia|done].
Qed.

Lemma qs_roundtrip_witness :
  ∃ s, qs_stringify (JObj [(js "a b", JObj [(js "c", JArr [JStr (js "x=1"); JStr []])]); (js "d", JStr (js "&"))]) stringify_defaults = Ok s /\
    qs_parse (JStr s) parse_defaults
      = Ok (JObj [(js "a b", JObj [(js "c", JArr [JStr (js "x=1"); JStr []])]); (js "d", JStr (js "&"))]).
Proof.
  apply qs_roundtrip; [|vm_compute; discriminate]. split; [by apply obj_okb_ok|].
  repeat apply Forall_cons_2; try apply Forall_nil_2; (split_and!; [by apply qs_key_b|done|]); cbn [snd qs_ok].
  - split_and!; [done|by apply obj_okb_ok|]. apply Forall_cons_2; [|apply Forall_nil_2]. split; [by apply qs_key_b|].
    cbn [snd qs_ok]. split_and!; [done|done|]. repeat apply Forall_cons_2; try apply Forall_nil_2; by apply well_formed_b.
  - by apply well_formed_b.
Defined.

(** With [strictNullHandling], a name that occurs without a value and again
    with a nested one makes [parse] throw. *)
Example strict_null_throws :
  qs_parse (JStr (js "a&a[b]=c")) {|
    ignoreQueryPrefix := false; p_delimiter := [38]; depth := 5; arrayLimit := 20; parseArrays := true;
    decoder := CoderDefault; p_allowDots := false; plainObjects := false; allowPrototypes := false;
    parameterLimit := Some 1000; p_strictNullHandling := true |} = Throw null_error.
Proof. reflexivity. Qed.

End QsOk.
