(* ===== verification/Style.v ===== *)
(** Parameter styles of swagger-client in the bundle
    (client/docs/swagger-ui/swagger-ui-bundle.js): how the value of an OpenAPI 3
    parameter is written into a URL or a header (lines 15238-15344), with the
    packages it uses to cut a text into characters (33409-33415 and 33476-33485)
    and to encode them in UTF-8 (33372-33386).

    Values are JSON values ([Json.jval]); an undefined element of an array is an
    element, arrays have no holes. *)

From stdpp Require Import base list list_numbers numbers strings gmap.
From Stdlib Require Import ZArith Lia.
From S2P Require Import Prelude Base64 Buffer BufferText Uri Json Query.

Module Style.
Import Base64 Buffer BufferText Uri Json Query.

(** ** Characters and bytes *)

Definition high (c : Z) : bool := (55296 <=? c) && (c <=? 56319).
Definition low (c : Z) : bool := (56320 <=? c) && (c <=? 57343).

(** [stringToCharArray]: the matches of a surrogate pair or any code unit. *)
Fixpoint stringToCharArray (e : list Z) : list (list Z) :=
  match e with
  | [] => []
  | r :: e' =>
      match e' with
      | o :: e'' => if high r && low o then [r; o] :: stringToCharArray e'' else [r] :: stringToCharArray e'
      | [] => [[r]]
      end
  end.

(** The bytes of a code unit that is not the first of a pair. *)
Definition unit_bytes (r : Z) : list Z :=
  if 2048 <=? r then [224 + r / 64 / 64; 128 + (r / 64) mod 64; 128 + r mod 64]
  else if 128 <=? r then [192 + r / 64; 128 + r mod 64]
  else [r].

(** [encodeUtf8] *)
Fixpoint encodeUtf8 (e : list Z) : list Z :=
  match e with
  | [] => []
  | r :: e' =>
      match e' with
      | o :: e'' =>
          if high r && low o then
            let i := 1024 * (r - 55296) + o - 56320 + 65536 in
            [240 + i / 64 / 64 / 64; 128 + (i / 64 / 64) mod 64; 128 + (i / 64) mod 64; 128 + i mod 64] ++ encodeUtf8 e''
          else unit_bytes r ++ encodeUtf8 e'
      | [] => unit_bytes r
      end
  end.

(** ** Escaping *)

(** The option [escape]: [false] or absent, ["reserved"], ["unsafe"]. *)
Inductive escaping :=
  | NoEscape
  | EscapeReserved
  | EscapeUnsafe.

(** [/^[a-z0-9\-._~]+$/i] *)
Definition isRfc3986Unreserved (e : list Z) : bool :=
  match e with [] => false | _ => forallb qs_unreserved e end.
Definition isRfc3986Reserved (e : list Z) : bool := -1 <? index_of e (js ":/?#[]@!$&'()*+,;=").

(** [e.toString(16).toUpperCase()] of a byte *)
Definition hex_upper (b : Z) : list Z :=
  if b <? 16 then [upper_hex b] else [upper_hex (b / 16); upper_hex (b mod 16)].

Definition escape_char (t : escaping) (e : list Z) : list Z :=
  if isRfc3986Unreserved e then e
  else if isRfc3986Reserved e && match t with EscapeUnsafe => true | _ => false end then e
  else concat ((λ b, [37] ++ hex_upper b) <$> encodeUtf8 e).

(** [encodeDisallowedCharacters]; its third argument is given nowhere in the
    bundle. *)
Definition encodeDisallowedCharacters (e : jval) (t : escaping) : jval :=
  let e := match e with JNum z => JStr (num_to_string z) | _ => e end in
  match e, t with
  | JStr [], _ | _, NoEscape => e
  | JStr s, _ => JStr (concat (escape_char t <$> stringToCharArray s))
  | _, _ => e
  end.

(** ** Styles *)

Record config := Config {
  key : list Z;
  value : jval;
  style : jval;
  explode : jval;
  escape : escaping }.

Definition style_is (c : config) (s : string) : bool := bool_decide (style c = JStr (js s)).

(** [l.join(sep)] *)
Definition join_values (sep : list Z) (l : list jval) : list Z :=
  join sep ((λ v, match v with JUndef | JNull => [] | _ => to_string v end) <$> l).

(** The values of the array or object, encoded. *)
Definition encoded (c : config) (v : jval) : jval := encodeDisallowedCharacters v (escape c).

Definition matrix_step (c : config) (e : list Z) (n : jval) : list Z :=
  if bool_decide (e = []) || truthy (explode c) then e ++ [59] ++ key c ++ [61] ++ to_string n
  else e ++ [44] ++ to_string n.

Definition encodeArray (c : config) (l : list jval) : jval :=
  let n := encoded c <$> l in
  let named (sep : list Z) := sep ++ (if truthy (explode c) then key c ++ [61] else []) in
  if style_is c "simple" then JStr (join_values [44] n)
  else if style_is c "label" then JStr ([46] ++ join_values [46] n)
  else if style_is c "matrix" then JStr (foldl (matrix_step c) [] n)
  else if style_is c "form" then
    JStr (join_values (if truthy (explode c) then [38] ++ key c ++ [61] else [44]) n)
  else if style_is c "spaceDelimited" then JStr (join_values (named [32]) n)
  else if style_is c "pipeDelimited" then JStr (join_values (named [124]) n)
  else JUndef.

(** The reducers of the object styles: the text so far, a name and its value. *)
Definition object_step (first next assign : list Z) (c : config) (e : list Z) (kv : list Z * jval) : list Z :=
  (match e with [] => first | _ => e ++ next end) ++ kv.1 ++ assign ++ to_string (encoded c kv.2).

Definition encodeObject (c : config) (o : jobj) : jval :=
  let a := truthy (explode c) in
  if style_is c "simple" then JStr (foldl (object_step [] [44] (if a then [61] else [44]) c) [] o)
  else if style_is c "label" then JStr (foldl (object_step [46] [46] (if a then [61] else [46]) c) [] o)
  else if style_is c "matrix" && a then JStr (foldl (object_step [59] [59] [61] c) [] o)
  else if style_is c "matrix" then JStr (foldl (object_step ([59] ++ key c ++ [61]) [44] [44] c) [] o)
  else if style_is c "form" then
    JStr (foldl (object_step [] (if a then [38] else [44]) (if a then [61] else [44]) c) [] o)
  else JUndef.

Definition encodePrimitive (c : config) (n : jval) : jval :=
  let a := encoded c n in
  if style_is c "simple" then a
  else if style_is c "label" then JStr ([46] ++ to_string a)
  else if style_is c "matrix" then JStr ([59] ++ key c ++ [61] ++ to_string a)
  else if style_is c "form" then a
  else if style_is c "deepObject" then a
  else JUndef.

(** [Object.keys(null)] *)
Definition keys_of_null : exn := TypeError (js "Can't call method on  null").

Definition stylize (c : config) : result jval :=
  match value c with
  | JArr l => Ok (encodeArray c l)
  | JObj o => Ok (encodeObject c o)
  | JNull => Throw keys_of_null
  | v => Ok (encodePrimitive c v)
  end.

Example style_ex :
  let c v s x := stylize (Config (js "id") v (JStr (js s)) (JBool x) EscapeReserved) in
  let l := JArr [JNum 3; JStr (js "a b"); JNull] in
  let o := JObj [(js "R", JNum 100); (js "G", JStr [8364])] in
  c l "simple"%string false = Ok (JStr (js "3,a%20b,")) /\ c l "label"%string false = Ok (JStr (js ".3.a%20b."))
  /\ c l "matrix"%string true = Ok (JStr (js ";id=3;id=a%20b;id=null")) /\ c l "matrix"%string false = Ok (JStr (js ";id=3,a%20b,null"))
  /\ c l "form"%string true = Ok (JStr (js "3&id=a%20b&id=")) /\ c l "spaceDelimited"%string false = Ok (JStr (js "3 a%20b "))
  /\ c l "pipeDelimited"%string true = Ok (JStr (js "3|id=a%20b|id=")) /\ c l "deepObject"%string true = Ok JUndef
  /\ c o "simple"%string false = Ok (JStr (js "R,100,G,%E2%82%AC")) /\ c o "simple"%string true = Ok (JStr (js "R=100,G=%E2%82%AC"))
  /\ c o "label"%string false = Ok (JStr (js ".R.100.G.%E2%82%AC")) /\ c o "matrix"%string true = Ok (JStr (js ";R=100;G=%E2%82%AC"))
  /\ c o "matrix"%string false = Ok (JStr (js ";id=R,100,G,%E2%82%AC")) /\ c o "form"%string true = Ok (JStr (js "R=100&G=%E2%82%AC"))
  /\ c (JNum 5) "matrix"%string false = Ok (JStr (js ";id=5")) /\ c JNull "simple"%string false = Throw keys_of_null.
Proof. vm_compute. repeat split. Qed.

(** A control character becomes a percent sign and one digit: the text does
    not decode, or decodes to something else. *)
Example control_character :
  encodeDisallowedCharacters (JStr [97; 10; 98]) EscapeReserved = JStr (js "a%Ab")
  /\ decodeURIComponent (js "a%Ab") = Throw uri_error
  /\ encodeDisallowedCharacters (JStr [4; 49]) EscapeReserved = JStr (js "%41")
  /\ decodeURIComponent (js "%41") = Ok (js "A").
Proof. vm_compute. auto. Qed.

(** * Lemmas *)

(** ** Characters *)

Lemma high_scalar c : is_scalar c -> high c = false.
Proof. unfold is_scalar, high. lia. Qed.
Lemma high_pair c : 65536 <= c < 1114112 -> high (55296 + (c - 65536) / 1024) = true.
Proof. unfold high. intros. bool_cases; done. Qed.
Lemma low_pair c : low (56320 + (c - 65536) mod 1024) = true.
Proof. unfold low. bool_cases; done. Qed.

Lemma stringToCharArray_text cs : Forall is_scalar cs -> stringToCharArray (utf16_text cs) = utf16_of <$> cs.
Proof.
  induction 1 as [|c cs Hc _ IH]; [done|]. cbn [fmap list_fmap concat]. unfold utf16_of at 1 3.
  destruct (Z.ltb_spec c 65536).
  - cbn [app stringToCharArray]. rewrite IH, (high_scalar c Hc). cbn [andb].
    destruct (utf16_text cs) eqn:E; [|done]. by rewrite <- IH.
  - cbn [app stringToCharArray]. rewrite high_pair by (unfold is_scalar in Hc; lia). rewrite low_pair. cbn [andb]. by rewrite IH.
Qed.

Lemma encodeUtf8_char c : is_scalar c -> encodeUtf8 (utf16_of c) = utf8_of c.
Proof.
  intros Hc. unfold is_scalar in Hc. unfold utf16_of. destruct (Z.ltb_spec c 65536).
  - unfold utf8_of, encodeUtf8, unit_bytes. bool_cases; try done. by rewrite Z.div_div.
  - unfold encodeUtf8. rewrite high_pair, low_pair by lia. cbn [andb]. cbv zeta. rewrite app_nil_r.
    replace (1024 * _ + _ - 56320 + 65536) with c by zdm.
    rewrite !Z.div_div by lia. unfold utf8_of. bool_cases. done.
Qed.

Lemma hex_upper_percent b : 16 <= b < 256 -> [37] ++ hex_upper b = percent b.
Proof. intros. unfold hex_upper, percent. by destruct (Z.ltb_spec b 16); [lia|]. Qed.

(** The bytes of printable characters have two digits. *)
Lemma utf8_of_big c : is_scalar c -> 16 <= c -> Forall (λ b, 16 <= b < 256) (utf8_of c).
Proof. unfold is_scalar. intros Hc Hl. unfold utf8_of. bool_cases; all_bytes. Qed.

(** ** Escaping *)

Definition reserved (c : Z) : bool := bool_decide (c ∈ js ":/?#[]@!$&'()*+,;=").

(** The characters an option leaves as they are. *)
Definition free (t : escaping) (c : Z) : bool :=
  qs_unreserved c || reserved c && match t with EscapeUnsafe => true | _ => false end.

Lemma index_from_single c s i : 0 <= i -> (-1 <? index_from [c] s i) = bool_decide (c ∈ s).
Proof.
  revert i. induction s as [|x s IH]; intros i Hi; cbn [index_from prefix_at]; [done|]. rewrite andb_true_r.
  destruct (Z.eqb_spec c x) as [->|Hne].
  - rewrite bool_decide_eq_true_2 by (by apply elem_of_cons; left). lia.
  - rewrite IH by lia. apply bool_decide_ext. rewrite elem_of_cons. naive_solver.
Qed.
Lemma index_from_absent_pair a b s i : a ∉ s -> index_from [a; b] s i = -1.
Proof. intros H. apply index_from_absent, Forall_forall. by intros x Hx ->. Qed.

Lemma reserved_ascii c : reserved c = true -> 0 <= c < 128 /\ c <> 37.
Proof.
  intros H%bool_decide_eq_true_1. change (js ":/?#[]@!$&'()*+,;=") with [58;47;63;35;91;93;64;33;36;38;39;40;41;42;43;44;59;61] in H.
  repeat (apply elem_of_cons in H as [->|H]; [lia|]). by apply not_elem_of_nil in H.
Qed.
Lemma free_ascii t c : free t c = true -> 0 <= c < 128 /\ c <> 37.
Proof. unfold free. intros [H%qs_free|[H%reserved_ascii _]%andb_prop]%orb_prop; lia. Qed.

Lemma unreserved_char c : is_scalar c -> isRfc3986Unreserved (utf16_of c) = qs_unreserved c.
Proof.
  intros Hc. unfold utf16_of. destruct (Z.ltb_spec c 65536); cbn; [by rewrite andb_true_r|].
  destruct (qs_unreserved c) eqn:E; [apply qs_free in E; lia|].
  destruct (qs_unreserved (_ + _)) eqn:E1; [apply qs_free in E1; zdm|done].
Qed.
Lemma reserved_char c : is_scalar c -> isRfc3986Reserved (utf16_of c) = reserved c.
Proof.
  intros Hc. unfold isRfc3986Reserved, utf16_of, index_of. destruct (Z.ltb_spec c 65536).
  - by rewrite index_from_single.
  - rewrite index_from_absent_pair.
    + destruct (reserved c) eqn:E; [apply reserved_ascii in E; lia|done].
    + intros E. assert (R : reserved (55296 + (c - 65536) / 1024) = true) by by apply bool_decide_eq_true_2.
      apply reserved_ascii in R. zdm.
Qed.

Lemma escape_char_text t c : is_scalar c -> 16 <= c -> escape_char t (utf16_of c) = escaped (free t) c.
Proof.
  intros Hc Hl. unfold escape_char, escaped, free. rewrite unreserved_char, reserved_char, encodeUtf8_char by done.
  assert (E : ∀ x, qs_unreserved c || reserved c && x = true -> utf16_of c = [c]).
  { intros x [E%qs_free|[E%reserved_ascii _]%andb_prop]%orb_prop; unfold utf16_of; destruct (Z.ltb_spec c 65536); done || lia. }
  destruct (qs_unreserved c); [by apply (E true)|]. cbn [orb] in *. destruct (reserved c && _) eqn:Er; [by apply (E _ Er)|].
  f_equal. apply list_fmap_ext. intros i b Hb. apply hex_upper_percent.
  by apply (proj1 (Forall_forall _ _) (utf8_of_big c Hc Hl)), list_elem_of_lookup_2 with i.
Qed.

(** A printable text: well-formed, without the control characters below 16. *)
Definition printable (s : list Z) : Prop := ∃ cs, Forall is_scalar cs /\ Forall (λ c, 16 <= c) cs /\ s = utf16_text cs.

(** What [encodeDisallowedCharacters] makes of it. *)
Lemma encode_printable t s : printable s -> t <> NoEscape ->
  ∃ e, encodeDisallowedCharacters (JStr s) t = JStr e /\ decodeURIComponent e = Ok s /\
    Forall (λ c, free t c = true \/ c = 37) e /\ (t = EscapeReserved -> e = qs_encode s).
Proof.
  intros (cs & Hcs & Hl & ->) Ht. exists (concat (escaped (free t) <$> cs)). split_and!.
  - assert (E : concat (escape_char t <$> stringToCharArray (utf16_text cs)) = concat (escaped (free t) <$> cs)).
    { rewrite stringToCharArray_text by done. rewrite <- list_fmap_compose. f_equal. apply list_fmap_ext.
      intros i c Hi%list_elem_of_lookup_2. apply escape_char_text; [by eapply Forall_forall in Hi|].
      by apply (proj1 (Forall_forall _ _) Hl). }
    rewrite <- E. unfold encodeDisallowedCharacters. by destruct (utf16_text cs), t.
  - apply uri_decode_text; [done| |done]. apply free_ascii.
  - assert (Hh : ∀ b, is_byte b -> Forall (λ c, free t c = true \/ c = 37) (percent b)).
    { intros b Hb. assert (Hd : ∀ d, 0 <= d < 16 -> free t (upper_hex d) = true).
      { intros d Hd. unfold free, qs_unreserved, alnum, upper_hex.
        destruct (Z.ltb_spec d 10); apply orb_true_intro; left; apply orb_true_intro; right; lia. }
      unfold percent. repeat apply Forall_cons_2; [by right|left; apply Hd; zdm|left; apply Hd; zdm|apply Forall_nil_2]. }
    clear Hl. induction Hcs as [|c cs Hc _ IH]; [apply Forall_nil_2|]. cbn [fmap list_fmap concat]. apply Forall_app. split; [|done].
    unfold escaped. destruct (free t c) eqn:E; [apply Forall_singleton; by left|].
    destruct (utf8_of_facts c Hc) as (Hb & _ & _). induction Hb as [|b bs Hb _ IHb]; [apply Forall_nil_2|].
    cbn [fmap list_fmap concat]. apply Forall_app. auto.
  - intros ->. rewrite qs_encode_text by done. f_equal. apply list_fmap_ext. intros i c _. unfold escaped, free.
    by rewrite andb_false_r, orb_false_r.
Qed.

Lemma encode_all t l : Forall printable l -> t <> NoEscape ->
  ∃ es, (λ s, encodeDisallowedCharacters (JStr s) t) <$> l = JStr <$> es /\ mapR decodeURIComponent es = Ok l /\
    Forall (Forall (λ c, free t c = true \/ c = 37)) es.
Proof.
  intros Hl Ht. induction Hl as [|s l Hs _ (es & He & Hd & Hf)]; [by exists []|].
  destruct (encode_printable t s Hs Ht) as (e & Ee & De & Fe & _). exists (e :: es).
  cbn [fmap list_fmap mapR]. rewrite Ee, De. cbn [result_bind]. rewrite Hd. split_and!; [by f_equal|done|by constructor].
Qed.

Lemma join_values_texts sep es : join_values sep (JStr <$> es) = join sep es.
Proof. unfold join_values. rewrite <- list_fmap_compose. f_equal. by rewrite list_fmap_id. Qed.

(** Joining with a separator and a name is joining the named fields. *)
Lemma join_named sep pre es : es <> [] -> pre ++ join (sep ++ pre) es = join sep ((λ e, pre ++ e) <$> es).
Proof.
  induction es as [|e es IH]; [done|]. intros _. destruct es as [|e' es]; [done|].
  change (join (sep ++ pre) (e :: e' :: es)) with (e ++ (sep ++ pre) ++ join (sep ++ pre) (e' :: es)).
  rewrite <- app_assoc, IH by done. by rewrite app_assoc.
Qed.

(** The styles of arrays: the delimiter, what is written before each element when
    the style is exploded, what the text starts with, and the name that the text
    lacks because the request writes it. *)
Definition delimiter (c : config) : option Z :=
  if style_is c "simple" then Some 44
  else if style_is c "label" then Some 46
  else if style_is c "matrix" then Some (if truthy (explode c) then 59 else 44)
  else if style_is c "form" then Some (if truthy (explode c) then 38 else 44)
  else if style_is c "spaceDelimited" then Some 32
  else if style_is c "pipeDelimited" then Some 124
  else None.
Definition field_name (c : config) : list Z :=
  if truthy (explode c) && negb (style_is c "simple") && negb (style_is c "label") then key c ++ [61] else [].
Definition lead (c : config) : list Z :=
  if style_is c "label" then [46]
  else if style_is c "matrix" then if truthy (explode c) then [59] else [59] ++ key c ++ [61]
  else [].
Definition missing (c : config) : list Z := if style_is c "matrix" then [] else field_name c.

Lemma style_other c a b : style_is c a = true -> js a <> js b -> style_is c b = false.
Proof. unfold style_is. intros Ha%bool_decide_eq_true_1 Hab. rewrite Ha. apply bool_decide_eq_false_2. congruence. Qed.

(** The loop of the matrix style. *)
Lemma matrix_exploded c es : truthy (explode c) = true -> ∀ acc,
  foldl (matrix_step c) acc (JStr <$> es) = acc ++ concat ((λ e, [59] ++ key c ++ [61] ++ e) <$> es).
Proof.
  intros Hx. induction es as [|e es IH]; intros acc; [by rewrite app_nil_r|]. cbn [fmap list_fmap foldl concat]. rewrite IH.
  unfold matrix_step. rewrite Hx, orb_true_r. cbn [to_string]. by rewrite <- !app_assoc.
Qed.
Lemma matrix_plain c es : truthy (explode c) = false -> ∀ acc, acc <> [] ->
  foldl (matrix_step c) acc (JStr <$> es) = acc ++ concat ((λ e, [44] ++ e) <$> es).
Proof.
  intros Hx. induction es as [|e es IH]; intros acc Hacc; [by rewrite app_nil_r|]. cbn [fmap list_fmap foldl concat].
  assert (E : matrix_step c acc (JStr e) = acc ++ [44] ++ e) by (unfold matrix_step; rewrite Hx, bool_decide_false by done; done).
  rewrite E, IH; [by rewrite <- !app_assoc|]. intros H%app_nil. by destruct H as [? ?].
Qed.
Lemma join_concat_sep sep e es : join sep (e :: es) = e ++ concat ((λ e, sep ++ e) <$> es).
Proof.
  revert e. induction es as [|e' es IH]; intros e; [by rewrite app_nil_r|].
  change (join sep (e :: e' :: es)) with (e ++ sep ++ join sep (e' :: es)). rewrite IH. cbn [fmap list_fmap concat]. by rewrite <- !app_assoc.
Qed.
Lemma matrix_text c es : es <> [] -> style_is c "matrix" = true ->
  foldl (matrix_step c) [] (JStr <$> es) = lead c ++ join [if truthy (explode c) then 59 else 44] ((λ e, field_name c ++ e) <$> es).
Proof.
  destruct es as [|e es]; [done|]. intros _ Hm. unfold lead, field_name.
  rewrite (style_other c "matrix" "label"), (style_other c "matrix" "simple"), Hm by done. cbn [negb]. rewrite !andb_true_r.
  destruct (truthy (explode c)) eqn:Hx.
  - assert (E : (λ x, [59] ++ key c ++ [61] ++ x) <$> es = (λ x, [59] ++ x) <$> ((λ x, (key c ++ [61]) ++ x) <$> es)).
    { rewrite <- list_fmap_compose. apply list_fmap_ext. intros i x _. cbn. by rewrite <- app_assoc. }
    rewrite matrix_exploded by done. cbn [fmap list_fmap concat]. rewrite join_concat_sep. change (list_fmap (list Z) (list Z)) with (@fmap list _ (list Z) (list Z)).
    rewrite E. by rewrite <- !app_assoc.
  - cbn [fmap list_fmap foldl]. unfold matrix_step at 2. rewrite bool_decide_true by done. cbn [orb app to_string].
    rewrite matrix_plain by done. rewrite join_concat_sep, <- list_fmap_compose. cbn [app]. rewrite <- !app_assoc. f_equal.
Qed.

(** What every style writes. *)
Lemma encodeArray_text c l es sep : delimiter c = Some sep -> encoded c <$> l = JStr <$> es -> es <> [] ->
  ∃ s, encodeArray c l = JStr s /\ missing c ++ s = lead c ++ join [sep] ((λ e, field_name c ++ e) <$> es).
Proof.
  intros Hd He Hne. unfold encodeArray. rewrite He. unfold delimiter in Hd.
  assert (J : ∀ sep, field_name c ++ join_values (sep :: field_name c) (JStr <$> es) = join [sep] ((λ e, field_name c ++ e) <$> es)).
  { intros x. rewrite join_values_texts. change (x :: field_name c) with ([x] ++ field_name c). by apply join_named. }
  unfold missing, lead. destruct (style_is c "simple") eqn:E1.
  { injection Hd as <-. rewrite (style_other c "simple" "label"), (style_other c "simple" "matrix") by done.
    eexists. split; [reflexivity|]. rewrite <- J. unfold field_name. by rewrite E1, andb_false_r. }
  destruct (style_is c "label") eqn:E2.
  { injection Hd as <-. rewrite (style_other c "label" "matrix") by done. eexists. split; [reflexivity|].
    rewrite <- J. unfold field_name. by rewrite E2, andb_false_r. }
  destruct (style_is c "matrix") eqn:E3.
  { injection Hd as <-. eexists. split; [reflexivity|]. rewrite matrix_text by done. unfold lead. by rewrite E2, E3. }
  assert (Hf : field_name c = if truthy (explode c) then key c ++ [61] else []) by (unfold field_name; rewrite E1, E2; by rewrite !andb_true_r).
  destruct (style_is c "form") eqn:E4.
  { injection Hd as <-. eexists. split; [reflexivity|]. rewrite <- J, Hf. by destruct (truthy (explode c)). }
  destruct (style_is c "spaceDelimited") eqn:E5.
  { injection Hd as <-. eexists. split; [reflexivity|]. by rewrite <- J, Hf. }
  destruct (style_is c "pipeDelimited") eqn:E6; [|done].
  injection Hd as <-. eexists. split; [reflexivity|]. by rewrite <- J, Hf.
Qed.

(** The delimiter is escaped, or is the period, which is not. *)
Lemma delimiter_escaped c sep : delimiter c = Some sep -> sep <> 37 /\ sep <> 61 /\ (free EscapeReserved sep = false \/ style_is c "label" = true /\ sep = 46).
Proof.
  unfold delimiter. intros H. destruct (style_is c "simple"); [injection H as <-; by split_and!; [..|left]|].
  destruct (style_is c "label"); [injection H as <-; by split_and!; [..|right]|]. repeat case_match; simplify_eq; by split_and!; [..|left].
Qed.
(** A text without periods is encoded without periods. *)
Lemma encode_periods t s e : printable s -> encodeDisallowedCharacters (JStr s) t = JStr e -> t = EscapeReserved -> 46 ∉ s -> 46 ∉ e.
Proof.
  intros Hs He -> Hn. destruct (encode_printable EscapeReserved s Hs) as (e' & E & _ & _ & Eq); [done|]. rewrite E in He. injection He as <-.
  rewrite Eq by done. destruct Hs as (cs & Hcs & _ & ->). rewrite qs_encode_text by done.
  intros (b & Hb & (c & -> & Hc)%list_elem_of_fmap)%elem_of_concat. assert (Hsc : is_scalar c) by (by apply (proj1 (Forall_forall _ _) Hcs)).
  unfold escaped in Hb. destruct (qs_unreserved c) eqn:Ec.
  - apply list_elem_of_singleton in Hb as <-. apply Hn. apply elem_of_concat. exists (utf16_of 46). split; [by left|]. by apply list_elem_of_fmap_2.
  - apply elem_of_concat in Hb as (x & Hx & (y & -> & Hy)%list_elem_of_fmap).
    destruct (utf8_of_facts c Hsc) as (Hbytes & _ & _). assert (Hyb : is_byte y) by (by apply (proj1 (Forall_forall _ _) Hbytes)).
    assert (Hd : ∀ d, 0 <= d < 16 -> upper_hex d <> 46) by (intros d Hd; unfold upper_hex; destruct (Z.ltb_spec d 10); lia).
    unfold percent in Hx. repeat (apply elem_of_cons in Hx as [Hx|Hx]; [first [lia|symmetry in Hx; revert Hx; apply Hd; zdm]|]). by apply not_elem_of_nil in Hx.
Qed.
Lemma encode_all_periods l es : Forall printable l -> (λ s, encodeDisallowedCharacters (JStr s) EscapeReserved) <$> l = JStr <$> es ->
  Forall (λ s, 46 ∉ s) l -> Forall (λ e, 46 ∉ e) es.
Proof.
  intros Hl. revert es. induction Hl as [|s l Hs _ IH]; intros [|e es] E Hn; try done. cbn [fmap list_fmap] in E. injection E as E1 E2.
  apply Forall_cons in Hn as [Hn1 Hn2]. constructor; [by eapply encode_periods|by apply IH].
Qed.

(** C21. A list of texts survives the styles of arrays (simple, label, matrix,
    form, spaceDelimited and pipeDelimited, exploded or not) when reserved
    characters are escaped: behind what the style starts with, and completed by
    the name that the request writes, the text cut at the delimiter of the style
    gives one field per element, the name of the parameter and the element when
    it is exploded and the element alone otherwise, and each decodes to the
    element. Texts hold any characters but the first sixteen control characters,
    which the code writes with one digit, and in the style label no period, which
    it does not escape; the name does not hold the delimiter. *)
Theorem style_array_fields c l sep :
  value c = JArr (JStr <$> l) -> l <> [] -> Forall printable l -> escape c = EscapeReserved ->
  delimiter c = Some sep -> sep ∉ key c -> (style_is c "label" = true -> Forall (λ s, 46 ∉ s) l) ->
  ∃ s body es, stylize c = Ok (JStr s) /\ missing c ++ s = lead c ++ body /\ split [sep] body = (λ e, field_name c ++ e) <$> es /\
    mapR decodeURIComponent es = Ok l.
Proof.
  intros Hv Hne Hl Hesc Hd Hk Hp. destruct (encode_all EscapeReserved l Hl) as (es & He & Dec & Hf); [done|].
  assert (Hes : es <> []) by (intros ->; cbn in Dec; congruence).
  destruct (encodeArray_text c (JStr <$> l) es sep Hd) as (s & Es & Eb); [|done|].
  { rewrite <- He, <- list_fmap_compose. apply list_fmap_ext. intros i x _. unfold encoded. cbn. by rewrite Hesc. }
  eexists s, _, es. split_and!; [unfold stylize; by rewrite Hv, Es|exact Eb| |done].
  destruct (delimiter_escaped c sep Hd) as (H37 & H61 & Hfree).
  assert (Hse : Forall (λ e, Forall (λ x, x <> sep) e) es).
  { destruct Hfree as [Hfree|[Hlab ->]].
    - eapply Forall_impl; [exact Hf|]. intros e Hfe. eapply Forall_impl; [exact Hfe|]. intros x [Hx|Hx] Ex; congruence.
    - eapply Forall_impl; [by eapply encode_all_periods; [exact Hl|exact He|apply Hp]|]. intros e Hn. apply Forall_forall. by intros x Hx ->. }
  rewrite split_join; [done|by destruct es|]. apply Forall_fmap. eapply Forall_impl; [exact Hse|]. intros e Hfe. cbn.
  apply Forall_app. split; [|done]. unfold field_name. destruct (_ && _ && _); [|done]. apply Forall_app. split; [|by apply Forall_singleton].
  apply Forall_forall. by intros x Hx ->.
Qed.

Definition two_texts (style : string) : config :=
  Config (js "id") (JArr (JStr <$> [js "a&b"; [8364; 32]])) (JStr (js style)) (JBool true) EscapeReserved.

Lemma style_array_fields_witness :
  stylize (two_texts "matrix") = Ok (JStr (js ";id=a%26b;id=%E2%82%AC%20")) /\
  ∃ s body es, stylize (two_texts "matrix") = Ok (JStr s) /\ s = [59] ++ body /\ split [59] body = (λ e, js "id=" ++ e) <$> es /\
    mapR decodeURIComponent es = Ok [js "a&b"; [8364; 32]].
Proof.
  split; [vm_compute; reflexivity|].
  apply (style_array_fields (two_texts "matrix") [js "a&b"; [8364; 32]] 59); [reflexivity|discriminate| |reflexivity|reflexivity| |].
  - apply Forall_cons_2; [exists (js "a&b")|apply Forall_cons_2; [exists [8364; 32]|apply Forall_nil_2]]; (split; [|split; [|reflexivity]]);
    repeat (apply Forall_cons_2; [vm_compute; (left; split; congruence) || congruence|]); apply Forall_nil_2.
  - apply (bool_decide_unpack _). vm_compute. reflexivity.
  - discriminate.
Defined.

End Style.
