(* ===== verification/ClientHttp.v ===== *)
(** The HTTP helpers of swagger-client in the bundle
    (client/docs/swagger-ui/swagger-ui-bundle.js): writing query parameters and
    forms into a request (lines 13212-13304), sending it and reading the
    response (13187-13210 and 13314-13403), with the [JSON.stringify] of the
    language.

    A request is a record; [undefined] fields are [None]. Values are JSON values:
    uploaded files (objects of the browser) are not, so [isFile] is false of all
    of them. A form body of the browser's [FormData] is the list of what was
    appended to it. The names of headers, query parameters and formats that every
    object inherits ([Json.object_prototype]) are read as absent here; theorems
    exclude them. *)

From stdpp Require Import base list list_numbers numbers strings gmap.
From Stdlib Require Import ZArith Lia.
From S2P Require Import Prelude Base64 Buffer BufferText Uri Json Query Qs QsOk Style.

Module ClientHttp.
Import Base64 Buffer BufferText Uri Json Query Qs Style.

(** ** JSON.stringify *)

Definition hex_lower (d : Z) : Z := if d <? 10 then 48 + d else 87 + d.
Definition unicode_escape (c : Z) : list Z :=
  js "\u" ++ [hex_lower (c / 4096); hex_lower (c / 256 mod 16); hex_lower (c / 16 mod 16); hex_lower (c mod 16)].
Definition quote_unit (c : Z) : list Z :=
  if (c =? 34) || (c =? 92) then [92; c]
  else if c =? 8 then js "\b" else if c =? 9 then js "\t" else if c =? 10 then js "\n"
  else if c =? 12 then js "\f" else if c =? 13 then js "\r"
  else if c <? 32 then unicode_escape c else [c].
(** The characters of a string literal; a lone surrogate is escaped. *)
Definition quote_char (e : list Z) : list Z :=
  match e with [c] => if high c || low c then unicode_escape c else quote_unit c | _ => e end.
Definition json_quote (s : list Z) : list Z := [34] ++ concat (quote_char <$> stringToCharArray s) ++ [34].

(** [None] is [undefined], which is left out of an object and [null] in an array. *)
Fixpoint json_stringify (v : jval) : option (list Z) :=
  match v with
  | JUndef => None
  | JNull => Some (js "null")
  | JBool b => Some (if b then js "true" else js "false")
  | JNum z => Some (num_to_string z)
  | JStr s => Some (json_quote s)
  | JArr l => Some ([91] ++ join [44] ((λ v, default (js "null") (json_stringify v)) <$> l) ++ [93])
  | JObj o => Some ([123] ++ join [44] (omap (λ kv, match kv with (k, v) =>
                match json_stringify v with Some s => Some (json_quote k ++ [58] ++ s) | None => None end end) o) ++ [125])
  end.
Definition stringified (v : jval) : jval := match json_stringify v with Some s => JStr s | None => JUndef end.

Example json_stringify_ex :
  json_stringify (JObj [(js "a", JArr [JNum 1; JUndef; JStr [34; 10; 1; 55348; 56606; 56606]]); (js "b", JUndef); (js "c", JNull)])
  = Some (js "{" ++ [34; 97; 34] ++ js ":[1,null," ++ [34; 92; 34] ++ js "\n\u0001" ++ [55348; 56606] ++ js "\udd1e" ++ [34] ++ js "],"
      ++ [34; 99; 34] ++ js ":null}").
Proof. vm_compute. reflexivity. Qed.

(** ** Property reads *)

Definition no_property (v : jval) (k : list Z) : exn :=
  TypeError (js "Cannot read properties of " ++ to_string v ++ js " (reading '" ++ k ++ js "')").
(** [v.k] *)
Definition member (v : jval) (k : list Z) : result jval :=
  match v with
  | JUndef | JNull => Throw (no_property v k)
  | _ => Ok (own v k)
  end.
Definition get (o : jobj) (k : string) : jval := default JUndef (obj_get o (js k)).

(** The own enumerable properties: those of a string are its code units. *)
Definition properties (v : jval) : jobj :=
  match v with JStr s => imap (λ i c, (dec (Z.of_nat i), JStr [c])) s | _ => entries v end.

(** ** Forms and queries *)

Definition encode_text (v : jval) : result jval := let! s := encodeURIComponent (to_string v) in Ok (JStr s).

(** The table of separators. *)
Definition separator (n : jval) : list Z :=
  if decide (to_string n = js "csv") then [44]
  else if decide (to_string n = js "ssv") then js "%20"
  else if decide (to_string n = js "tsv") then js "%09"
  else if decide (to_string n = js "pipes") then [124]
  else [44].

(** [formatValue] *)
Definition formatValue (e : jval) (t : bool) : result jval :=
  let! n := member e (js "collectionFormat") in
  let! r := member e (js "allowEmptyValue") in
  let! o := match e with JObj _ | JArr _ => member e (js "value") | _ => Ok e end in
  match o with
  | JUndef => if truthy r then Ok (JStr []) else if t then Ok JUndef else encode_text JUndef
  | JBool b => Ok (JBool b)
  | _ =>
      let i v := if t then match o with JStr _ => Ok v | _ => Ok (stringified v) end else encode_text v in
      match o with
      | JArr l =>
          let! vs := mapR i l in
          if negb (truthy n) then Ok (JStr (join_values [44] vs))
          else if bool_decide (n = JStr (js "multi")) then Ok (JArr vs)
          else Ok (JStr (join_values (separator n) vs))
      | JObj _ | JNull => Ok (JStr [])
      | _ => i o
      end
  end.

(** The step of the [reduce] in [encodeFormOrQuery]. *)
Definition encode_entry (t : jobj) (kv : list Z * jval) : result jobj :=
  let! sk := member kv.2 (js "skipEncoding") in
  let o := truthy sk in
  let! i := if o then Ok kv.1 else encodeURIComponent kv.1 in
  let! v := formatValue (match kv.2 with JObj _ => kv.2 | r => JObj [(js "value", r)] end) o in
  Ok (obj_assign false t i v).

Definition plain_options : stringify_options := {|
  Qs.delimiter := None; strictNullHandling := None; skipNulls := None; encode := Some false; encoder := CoderDefault;
  encodeValuesOnly := None; filter := None; sort := None; allowDots := None; format := None; arrayFormat := None;
  indices := Some false; addQueryPrefix := false |}.

(** [encodeFormOrQuery] *)
Definition encodeFormOrQuery (e : jval) : result (list Z) :=
  let! t := foldR encode_entry [] (properties e) in
  qs_stringify (JObj t) plain_options.

(** What is sent: a value, or the entries appended to a [FormData]. *)
Inductive payload :=
  | Value (v : jval)
  | FormData (entries : jobj).

Record request := Request {
  url : list Z;
  method : option (list Z);
  headers : jobj;
  cookies : option jobj;
  query : option jobj;
  form : option jval;
  body : option payload }.

Definition with_url (r : request) (u : list Z) : request :=
  Request u (method r) (headers r) (cookies r) (query r) (form r) (body r).
Definition with_method (r : request) (m : list Z) : request :=
  Request (url r) (Some m) (headers r) (cookies r) (query r) (form r) (body r).
Definition with_headers (r : request) (h : jobj) : request :=
  Request (url r) (method r) h (cookies r) (query r) (form r) (body r).
Definition with_cookies (r : request) (c : option jobj) : request :=
  Request (url r) (method r) (headers r) c (query r) (form r) (body r).
Definition with_query (r : request) (q : option jobj) : request :=
  Request (url r) (method r) (headers r) (cookies r) q (form r) (body r).
Definition with_form (r : request) (f : option jval) : request :=
  Request (url r) (method r) (headers r) (cookies r) (query r) f (body r).
Definition with_body (r : request) (b : payload) : request :=
  Request (url r) (method r) (headers r) (cookies r) (query r) (form r) (Some b).
(** [o[k] = v] *)
Definition set (o : jobj) (k : list Z) (v : jval) : jobj := obj_assign false o k v.
Definition set_header (r : request) (k : list Z) (v : jval) : request := with_headers r (set (headers r) k v).

(** [a || b] *)
Definition or (a b : jval) : jval := if truthy a then a else b.
Definition content_type (h : jobj) : jval := or (get h "content-type") (get h "Content-Type").
(** [/multipart\/form-data/i.test(p)] *)
Definition multipart (p : jval) : bool := -1 <? index_of (js "multipart/form-data") (to_lower (to_string p)).

(** The first half of [mergeInQueryOrForm]: the form becomes the body. *)
Definition merge_form (e : request) : result request :=
  match form e with
  | None => Ok e
  | Some i =>
      if negb (truthy i) then Ok e else
      let! _ := mapR (λ kv, member kv.2 (js "value")) (properties i) in
      let! b := if multipart (content_type (headers e))
                then let! es := mapR (λ kv, let! v := formatValue kv.2 true in Ok (kv.1, v)) (properties i) in Ok (FormData es)
                else let! s := encodeFormOrQuery i in Ok (Value (JStr s)) in
      Ok (with_form (with_body e b) None)
  end.

(** The parameters that the URL has and the query does not. *)
Definition other_parameters (o : jobj) (y : option (list Z)) : result (list Z) :=
  match y with
  | None | Some [] => Ok []
  | Some y =>
      let! p := qs_parse (JStr y) parse_defaults in
      qs_stringify (JObj (foldl (λ p k, obj_delete p k) (entries p) (obj_keys o))) stringify_defaults
  end.

(** The query string of several texts, the empty ones left out. *)
Definition query_text (ts : list (list Z)) : list Z :=
  match join [38] (List.filter (λ s, negb (bool_decide (s = []))) ts) with [] => [] | r => [63] ++ r end.

(** The second half: the query becomes part of the URL. *)
Definition merge_query (e : request) : result request :=
  match query e with
  | None => Ok e
  | Some o =>
      let h := split [63] (url e) in
      let! b := other_parameters o (h !! 1%nat) in
      let! s := encodeFormOrQuery (JObj o) in
      Ok (with_query (with_url e (default [] (h !! 0%nat) ++ query_text [b; s])) None)
  end.

Definition mergeInQueryOrForm (e : request) : result request := let! e := merge_form e in merge_query e.

Definition plain_request (u : list Z) (q : option jobj) : request := Request u (Some (js "GET")) [] None q None None.

Example merge_query_ex :
  let v x := JObj [(js "value", x)] in
  url <$> (match mergeInQueryOrForm (plain_request (js "http://h/p?a=1&b[x]=2")
    (Some [(js "a", v (JStr (js "&"))); (js "c d", JObj [(js "collectionFormat", JStr (js "multi")); (js "value", JArr [JNum 1; JStr []])]);
           (js "e", JObj [(js "collectionFormat", JStr (js "pipes")); (js "value", JArr [JNum 1; JNum 2])]);
           (js "f", JObj [(js "allowEmptyValue", JBool true)]); (js "g[h]", JObj [(js "value", JStr (js "x y")); (js "skipEncoding", JBool true)]);
           (js "k", JStr (js "secret")); (js "z", v (JObj []))]))
  with Ok r => Some r | Throw _ => None end)
  = Some (js "http://h/p?b%5Bx%5D=2&a=%26&c%20d=1&c%20d=&e=1|2&f=&g[h]=x y&k=secret&z=").
Proof. vm_compute. reflexivity. Qed.

(** What the URL has after a second question mark is lost. *)
Example second_question_mark :
  match mergeInQueryOrForm (plain_request (js "http://h/p?q=a?b") (Some [(js "c", JStr (js "1"))])) with
  | Ok r => url r = js "http://h/p?q=a&c=1" | Throw _ => False end.
Proof. vm_compute. reflexivity. Qed.

(** A form that is a text is written one code unit per field. *)
Example text_form :
  match mergeInQueryOrForm (with_form (plain_request (js "http://h/p") None) (Some (JStr (js "a=1")))) with
  | Ok r => body r = Some (Value (JStr (js "0=a&1=%3D&2=1"))) | Throw _ => False end.
Proof. vm_compute. reflexivity. Qed.

(** ** Responses *)

(** [serializeHeaders]: what iterating the headers gives, collected; [None] is
    an object that cannot be iterated. *)
Definition add_header (t : jobj) (ne : list Z * list Z) : jobj :=
  match obj_get t ne.1 with
  | Some v => set t ne.1 (JArr ((match v with JArr l => l | _ => [v] end) ++ [JStr ne.2]))
  | None => set t ne.1 (JStr ne.2)
  end.
Definition serializeHeaders (e : option (list (list Z * list Z))) : jobj :=
  match e with Some es => foldl add_header [] es | None => [] end.

Definition word_char (c : Z) : bool := alnum c || (c =? 95).
(** [/(json|xml|yaml|text)\b/.test(s)] *)
Fixpoint text_type (s : list Z) : bool :=
  existsb (λ w, prefix_at w s && match drop (length w) s with c :: _ => negb (word_char c) | [] => true end)
    (js <$> ["json"; "xml"; "yaml"; "text"]%string)
  || match s with [] => false | _ :: s => text_type s end.
Definition shouldDownloadAsText (a : jval) : bool := text_type (match a with JUndef => [] | _ => to_string a end).

(** A response of [fetch]; reading its body can fail. *)
Record response := Response {
  ok : bool;
  r_url : list Z;
  status : Z;
  statusText : list Z;
  r_headers : option (list (list Z * list Z));
  r_text : result (list Z);
  r_blob : result unit }.

Inductive content :=
  | Text (s : list Z)
  | Blob.

Record serialized := Serialized {
  s_ok : bool;
  s_url : list Z;
  s_status : Z;
  s_statusText : list Z;
  s_headers : jobj;
  s_data : content;
  s_body : jval;
  parseError : option exn }.

(** An error of [http]: one that was thrown, or one it makes of a response,
    with the error or the response it stands for. *)
Inductive failure :=
  | Thrown (e : exn)
  | ResponseError (message : list Z) (code : Z) (cause : exn)
  | StatusError (message : list Z) (code : Z) (cause : serialized).

Section http.
(** [JSON.parse] and the YAML loader *)
Variables (JSON_parse safeLoad : list Z -> result jval).

Definition parse_body (text : list Z) (a : jval) : result jval :=
  if bool_decide (a = JStr (js "application/json")) then JSON_parse text else safeLoad text.

Definition serializeRes (e : response) (t : list Z) (loadSpec : bool) : result serialized :=
  let h := serializeHeaders (r_headers e) in
  let u := match r_url e with [] => t | u => u end in
  let a := get h "content-type" in
  let o d b x := Serialized (ok e) u (status e) (statusText e) h d b x in
  if loadSpec || shouldDownloadAsText a then
    let! text := r_text e in
    Ok (match parse_body text a with
        | Ok v => o (Text text) v None
        | Throw x => o (Text text) JUndef (Some x)
        end)
  else let! _ := r_blob e in Ok (o Blob JUndef None).

(** What the caller gives beside the request. *)
Variables (requestInterceptor : option (request -> result (option request)))
          (responseInterceptor : option (serialized -> result (option serialized)))
          (fetch : list Z -> request -> result response) (loadSpec : bool).

Definition intercept {A} (f : option (A -> result (option A))) (a : A) : result A :=
  match f with Some f => let! x := f a in Ok (default a x) | None => Ok a end.

Definition drop_multipart (a : request) : request :=
  if multipart (content_type (headers a))
  then with_headers a (obj_delete (obj_delete (headers a) (js "content-type")) (js "Content-Type")) else a.

(** The part before the request is sent. *)
Definition prepare (a : request) : result request :=
  let! a := mergeInQueryOrForm a in
  let! a := intercept requestInterceptor a in
  Ok (drop_multipart a).

(** [http], called with an object. *)
Definition http (a0 : request) : serialized + failure :=
  match prepare a0 with
  | Throw x => inr (Thrown x)
  | Ok a =>
      match fetch (url a) a with
      | Throw x => inr (Thrown x)
      | Ok r =>
          match serializeRes r (url a0) loadSpec with
          | Throw x => inr (ResponseError (statusText r) (status r) x)
          | Ok r =>
              match intercept responseInterceptor r with
              | Throw x => inr (ResponseError (s_statusText r) (s_status r) x)
              | Ok r => if s_ok r then inl r else inr (StatusError (s_statusText r) (s_status r) r)
              end
          end
      end
  end.
End http.

Example serialize_ex :
  shouldDownloadAsText (JStr (js "application/vnd.api+json; charset=utf-8")) = true
  /\ shouldDownloadAsText (JStr (js "application/jsonp")) = false /\ shouldDownloadAsText JUndef = false
  /\ serializeHeaders (Some [(js "a", js "1"); (js "b", js "2"); (js "a", js "3"); (js "a", js "4")])
     = [(js "a", JArr [JStr (js "1"); JStr (js "3"); JStr (js "4")]); (js "b", JStr (js "2"))].
Proof. vm_compute. auto. Qed.

(** * Lemmas *)

(** ** Writing plain objects *)

(** Values whose parts are texts, and what [qs.stringify] writes for them. *)
Definition text_value (v : jval) : Prop := (∃ s, v = JStr s) \/ ∃ l, v = JArr (JStr <$> l).
Definition plain_parts (kv : list Z * jval) : list (list Z) := (λ s, kv.1 ++ 61 :: s) <$> value_texts kv.2.

Abbreviation write := (stringify_value (array_prefix Repeat) false false None None None false (λ e, e) false).

Lemma write_text f k v : text_value v -> write (S (S f)) v k = plain_parts (k, v).
Proof.
  intros [(s & ->)|(l & ->)]; [done|]. unfold plain_parts. cbn [fst snd]. rewrite value_texts_arr.
  transitivity (concat ((λ j, write (S f) (own (JArr (JStr <$> l)) j) k) <$> own_keys (JArr (JStr <$> l)))); [done|].
  rewrite (QsOk.own_fmap (λ _ x, write (S f) x k)); [|done|apply Forall_fmap, Forall_forall; done].
  cbn [entries]. rewrite fmap_imap. transitivity (concat ((λ x, write (S f) x k) <$> (JStr <$> l))).
  - f_equal. apply (imap_const (λ x, write (S f) x k)).
  - induction l as [|s l IH]; [done|]. cbn. f_equal. apply IH.
Qed.

Lemma jdepth_pos v : (1 <= jdepth v)%nat.
Proof. destruct v; cbn; lia. Qed.

(** A text or an array of texts is written within its depth. *)
Lemma write_text_depth f k v : text_value v -> (jdepth v < f)%nat -> write f v k = plain_parts (k, v).
Proof.
  intros Hv Hf. pose proof (jdepth_pos v). destruct f as [|[|f]]; [lia|lia|by apply write_text].
Qed.

Lemma qs_stringify_plain t : NoDup (obj_keys t) -> Forall (λ kv, text_value kv.2) t ->
  qs_stringify (JObj t) plain_options = Ok (join [38] (concat (plain_parts <$> t))).
Proof.
  intros Hn Ht.
  assert (E : concat ((λ C, write (jdepth (JObj t)) (own (JObj t) C) C) <$> own_keys (JObj t)) = concat (plain_parts <$> t)).
  { rewrite (QsOk.own_fmap (λ C x, write (jdepth (JObj t)) x C)) by done. f_equal. apply list_fmap_ext. intros i [k v] Hi. cbn [fst snd].
    apply write_text_depth; [by apply (Forall_lookup_1 _ _ _ _ Ht Hi)|].
    by apply list_elem_of_lookup_2, (QsOk.jdepth_entries (JObj t)) in Hi. }
  rewrite <- E. cbn. by destruct (join _ _).
Qed.

(** ** Entries of a query *)

(** The entry [kv] is written as the property [kf]. *)
Definition writes (kv kf : list Z * jval) : Prop := ∀ t, encode_entry t kv = Ok (obj_assign false t kf.1 kf.2).

Lemma encode_entries o kfs : Forall2 writes o kfs -> obj_ok kfs -> Forall (λ kf, kf.1 <> js "__proto__") kfs ->
  foldR encode_entry [] o = Ok kfs.
Proof.
  intros H. change kfs with ([] ++ kfs) at 1 3. generalize (@nil (list Z * jval)) as t.
  induction H as [|kv [k f] o kfs Hw _ IH]; intros t Hok Hp; cbn [foldR]; [by rewrite app_nil_r|].
  apply Forall_cons in Hp as [Hk Hp]. cbn in Hk. rewrite Hw. cbn [result_bind fst snd]. unfold obj_assign.
  rewrite bool_decide_false by done. cbn [negb andb]. rewrite cons_middle, app_assoc in Hok |- *.
  rewrite obj_set_last by (by eapply obj_ok_app_l). by apply IH.
Qed.

Lemma encodeFormOrQuery_writes o kfs : Forall2 writes o kfs -> obj_ok kfs -> Forall (λ kf, kf.1 <> js "__proto__" /\ text_value kf.2) kfs ->
  encodeFormOrQuery (JObj o) = Ok (join [38] (concat (plain_parts <$> kfs))).
Proof.
  intros Hw Hok Hp. unfold encodeFormOrQuery. cbn [properties entries].
  rewrite (encode_entries o kfs) by first [done|eapply Forall_impl; [exact Hp|naive_solver]]. cbn [result_bind].
  apply qs_stringify_plain; [apply Hok|]. eapply Forall_impl; [exact Hp|naive_solver].
Qed.

(** Percent encoding keeps the names apart and in their order. *)
Lemma encode_index k e : encodeURIComponent k = Ok e -> decodeURIComponent e = Ok k -> array_index e = array_index k.
Proof.
  assert (Henc : ∀ s, forallb digit s = true -> encodeURIComponent s = Ok s).
  { induction s as [|c s IH]; [done|]. cbn [forallb encodeURIComponent]. intros [Hc Hs]%andb_prop.
    assert (uri_unreserved c = true) as -> by (unfold digit in Hc; unfold uri_unreserved, alnum; lia). by rewrite IH. }
  intros He Hd. assert (Hi : ∀ s, array_index s <> None -> forallb digit s = true).
  { intros s. unfold array_index, parse_dec. destruct s; [done|]. by destruct (forallb _ _). }
  destruct (array_index k) as [n|] eqn:Ek.
  { rewrite Henc in He by (apply Hi; congruence). congruence. }
  destruct (array_index e) as [n|] eqn:Ee; [|done]. assert (De : forallb digit e = true) by (apply Hi; congruence).
  assert (Hdec : decodeURIComponent e = Ok e); [|congruence]. unfold decodeURIComponent. clear -De.
  induction e as [|c e IH]; [done|]. cbn [length uri_decode]. cbn [forallb] in De. apply andb_prop in De as [Hc De].
  destruct (Z.eqb_spec c 37); [unfold digit in Hc; lia|]. cbn [negb]. by rewrite IH.
Qed.

Lemma encode_obj_ok (o kfs : jobj) : obj_ok o ->
  Forall2 (λ kv kf, encodeURIComponent kv.1 = Ok kf.1 /\ decodeURIComponent kf.1 = Ok kv.1) o kfs -> obj_ok kfs.
Proof.
  intros [Hn Ho] H.
  assert (L : ∀ i e, obj_keys kfs !! i = Some e -> ∃ k, obj_keys o !! i = Some k /\ encodeURIComponent k = Ok e /\ decodeURIComponent e = Ok k).
  { intros i e Hi. unfold obj_keys in *. rewrite list_lookup_fmap in Hi. apply fmap_Some in Hi as (kf & Hi & ->).
    destruct (Forall2_lookup_r _ _ _ _ _ H Hi) as (kv & Hkv & ?). exists kv.1. by rewrite list_lookup_fmap, Hkv. }
  split.
  - apply NoDup_alt. intros i j e (k & Hk & _ & D)%L (k' & Hk' & _ & D')%L. assert (k = k') as <- by congruence.
    by apply (NoDup_lookup _ _ _ _ Hn Hk Hk').
  - intros i j e e' (k & Hk & E & D)%L (k' & Hk' & E' & D')%L Hij. unfold key_before.
    rewrite (encode_index k e), (encode_index k' e') by done. by apply (Ho i j).
Qed.

(** ** Swagger 2 queries *)

(** An entry of a query that carries the value [v]: a text, as it is or as the
    builder of Swagger 2 stores it under any format, or a list of texts under the
    format that repeats the name for each element. *)
Definition entry_of (f v : jval) : jval := JObj [(js "collectionFormat", f); (js "value", v)].
Definition multi (v : jval) : jval := entry_of (JStr (js "multi")) v.
Definition carries (e v : jval) : Prop := e = multi v \/ (∃ s, v = JStr s) /\ (e = v \/ ∃ f, e = entry_of f v).
(** The query [q] carries the values [o]. *)
Definition query_of (q o : jobj) : Prop := Forall2 (λ qe kv, qe.1 = kv.1 /\ carries qe.2 kv.2) q o.

Lemma query_of_keys q o : query_of q o -> obj_keys q = obj_keys o.
Proof. unfold obj_keys. induction 1 as [|[k e] [j v] q o [E _] _ IH]; [done|]. cbn in *. by rewrite E, IH. Qed.

Lemma text_writes k s e : well_formed k -> well_formed s -> carries e (JStr s) ->
  ∃ ek es, writes (k, e) (ek, JStr es) /\ encodeURIComponent k = Ok ek /\ decodeURIComponent ek = Ok k /\ pair_text (k, s) (ek ++ 61 :: es).
Proof.
  intros Hk Hs He. destruct (encode_spec k Hk) as (ek & Ek & Dk & Ck), (encode_spec s Hs) as (es & Es & Ds & Cs).
  exists ek, es. split_and!; [|done|done|by exists ek, es].
  intros t. transitivity (let! i := encodeURIComponent k in let! v := encode_text (JStr s) in Ok (obj_assign false t i v)).
  - by destruct He as [->|[_ [->|(f & ->)]]].
  - rewrite Ek. cbn [result_bind]. unfold encode_text. cbn [to_string]. by rewrite Es.
Qed.

Lemma carries_writes k e v : well_formed k -> query_value v -> carries e v ->
  ∃ kf, writes (k, e) kf /\ encodeURIComponent k = Ok kf.1 /\ decodeURIComponent kf.1 = Ok k /\ text_value kf.2 /\
    Forall2 pair_text (pairs_of (k, v)) (plain_parts kf).
Proof.
  intros Hk Hv He. destruct Hv as [(s & -> & Hs)|(l & -> & _ & Hl)].
  - destruct (text_writes k s e Hk Hs He) as (ek & es & W & E & D & P). exists (ek, JStr es). split_and!; [done|done|done|left; by exists es|].
    by constructor; [|constructor].
  - destruct He as [->|[(s & Es) _]]; [|done]. destruct (encode_spec k Hk) as (ek & Ek & Dk & Ck).
    assert (H : ∃ es, mapR encode_text (JStr <$> l) = Ok (JStr <$> es) /\ Forall2 pair_text ((λ s, (k, s)) <$> l) ((λ s, ek ++ 61 :: s) <$> es)).
    { induction Hl as [|s l Hs _ (es & He & Hp)]; [by exists []|]. destruct (encode_spec s Hs) as (e & Ee & De & Ce).
      exists (e :: es). cbn [fmap list_fmap mapR]. unfold encode_text at 1. cbn [to_string]. rewrite Ee. cbn [result_bind]. rewrite He.
      split; [done|]. constructor; [by exists ek, e|done]. }
    destruct H as (es & He & Hp). exists (ek, JArr (JStr <$> es)). split_and!; [|done|done|right; by exists es|].
    + intros t. unfold encode_entry. cbn [fst snd]. change (member (multi _) (js "skipEncoding")) with (@Ok jval JUndef).
      cbn [result_bind truthy]. rewrite Ek. cbn [result_bind].
      change (formatValue _ false) with (let! vs := mapR encode_text (JStr <$> l) in Ok (JArr vs)). by rewrite He.
    + unfold pairs_of, plain_parts. cbn [fst snd]. by rewrite !value_texts_arr.
Qed.

(** Such queries are written as the texts of their pairs. *)
Lemma query_texts q o : query_object o -> query_of q o ->
  ∃ xs, encodeFormOrQuery (JObj q) = Ok (join [38] xs) /\ Forall2 pair_text (pairs o) xs.
Proof.
  intros [Hok Ho] Hq.
  assert (H : ∃ kfs, Forall2 writes q kfs /\
    Forall2 (λ kv kf, encodeURIComponent kv.1 = Ok kf.1 /\ decodeURIComponent kf.1 = Ok kv.1) o kfs /\
    Forall (λ kf, kf.1 <> js "__proto__" /\ text_value kf.2) kfs /\ Forall2 pair_text (pairs o) (concat (plain_parts <$> kfs))).
  { clear Hok. induction Hq as [|[k' e] [k v] q o [Ek He] _ IH]; [by exists []|]. cbn in Ek. subst k'.
    apply Forall_cons in Ho as [(Hk & Hp & Hv) Ho]. destruct (IH Ho) as (kfs & H1 & H2 & H3 & H4).
    destruct (carries_writes k e v Hk Hv He) as (kf & W & E & D & T & P). exists (kf :: kfs). split_and!; [by constructor|by constructor| |].
    - constructor; [|done]. split; [|done]. intros Ek. rewrite Ek in D. cbn in Hp. apply Hp. vm_compute in D. injection D as <-. reflexivity.
    - unfold pairs. cbn [fmap list_fmap concat]. by apply Forall2_app. }
  destruct H as (kfs & H1 & H2 & H3 & H4). exists (concat (plain_parts <$> kfs)). split; [|done].
  apply encodeFormOrQuery_writes; [done|by eapply encode_obj_ok|done].
Qed.

(** ** The parameters a URL has *)

Lemma obj_delete_filter (o : jobj) k : NoDup (obj_keys o) -> obj_delete o k = List.filter (λ kv, negb (bool_decide (kv.1 = k))) o.
Proof.
  induction o as [|[j v] o IH]; [done|]. cbn. intros [Hj Hn]%NoDup_cons. destruct (decide (k = j)) as [<-|Hne].
  - rewrite bool_decide_true by done. cbn [negb]. symmetry. clear IH Hn. induction o as [|[j w] o IH]; [done|]. cbn in *.
    rewrite bool_decide_false by set_solver. cbn [negb]. f_equal. apply IH. set_solver.
  - rewrite bool_decide_false by congruence. cbn [negb]. by rewrite IH.
Qed.

Lemma filter_nodup (f : list Z * jval -> bool) o : NoDup (obj_keys o) -> NoDup (obj_keys (List.filter f o)).
Proof.
  unfold obj_keys. induction o as [|kv o IH]; [done|]. cbn. intros [Hk Hn]%NoDup_cons. destruct (f kv); [|auto]. cbn. constructor; [|auto].
  intros (kv' & E & [Hin _]%list_elem_of_In%filter_In)%list_elem_of_fmap. apply Hk. rewrite E. by apply list_elem_of_fmap_2, list_elem_of_In.
Qed.

(** Deleting the names of [o] one by one. *)
Definition without (o p : jobj) : jobj := List.filter (λ kv, negb (bool_decide (kv.1 ∈ obj_keys o))) p.
Lemma delete_without o p : NoDup (obj_keys p) -> foldl (λ p k, obj_delete p k) p (obj_keys o) = without o p.
Proof.
  unfold without. revert p. induction (obj_keys o) as [|k ks IH]; intros p Hp; cbn [foldl].
  { clear Hp. induction p as [|kv p IH]; [done|]. cbn. by rewrite <- IH. }
  rewrite IH by (rewrite obj_delete_filter by done; by apply filter_nodup). rewrite obj_delete_filter by done. clear.
  induction p as [|kv p IH]; [done|]. cbn. destruct (decide (kv.1 = k)) as [E|E].
  - rewrite (bool_decide_true (kv.1 = k)), (bool_decide_true (kv.1 ∈ k :: ks)) by set_solver. done.
  - rewrite (bool_decide_false (kv.1 = k)) by done. cbn. rewrite IH.
    by rewrite (bool_decide_ext (kv.1 ∈ k :: ks) (kv.1 ∈ ks)) by set_solver.
Qed.

(** The query string of the parameters [p] that a URL has. *)
Definition url_query (p : jobj) : list Z := join [38] (QsOk.part_text <$> QsOk.leaves (JObj p)).
Definition url_with (base : list Z) (p : jobj) : list Z := base ++ match p with [] => [] | _ => 63 :: url_query p end.

Lemma Forall_join (P : Z -> Prop) sep l : Forall P sep -> Forall (Forall P) l -> Forall P (join sep l).
Proof.
  intros Hs H. induction H as [|x l Hx Hl IH]; [apply Forall_nil_2|]. destruct l as [|y l]; [done|].
  change (join sep (x :: y :: l)) with (x ++ sep ++ join sep (y :: l)). repeat apply Forall_app_2; done.
Qed.

Lemma part_text_no p c : QsOk.top_leaf p -> uri_unreserved c = false -> c <> 37 -> c <> 61 -> Forall (λ x, x <> c) (QsOk.part_text p).
Proof.
  intros Hp Hu H37 H61. destruct (QsOk.top_leaf_text p Hp) as ([_ C1]%QsOk.qs_encode_spec & _).
  destruct Hp as (? & ? & _ & _ & _ & _ & _ & [_ C2]%QsOk.qs_encode_spec).
  apply Forall_app. split; [by eapply uri_char_not|]. apply Forall_cons_2; [done|by eapply uri_char_not].
Qed.

Lemma url_query_no p : QsOk.qs_object p -> Forall (λ c, c <> 63) (url_query p).
Proof.
  intros Hp. destruct (QsOk.top_leaves p Hp) as [Hl _]. apply Forall_join; [by apply Forall_singleton|].
  apply Forall_fmap. eapply Forall_impl; [exact Hl|]. intros q Hq. by apply part_text_no.
Qed.

Lemma split_url base p : QsOk.qs_object p -> Forall (λ c, c <> 63) base ->
  split [63] (url_with base p) = base :: match p with [] => [] | _ => [url_query p] end.
Proof.
  intros Hp Hb. unfold url_with. destruct p as [|kv p]; [rewrite app_nil_r; by apply split_free|].
  rewrite split_app by done. by rewrite split_free by (by apply url_query_no).
Qed.

Lemma other_parameters_kept o p : QsOk.qs_object p -> len (QsOk.leaves (JObj p)) <= 1000 ->
  other_parameters o (match p with [] => [] | _ => [url_query p] end !! 0%nat) = qs_stringify (JObj (without o p)) stringify_defaults.
Proof.
  intros Hp Hmax. pose proof (QsOk.qs_parse_leaves _ Hp Hmax : qs_parse (JStr (url_query p)) _ = _) as Hq.
  destruct p as [|kv p]; [done|]. cbn [lookup list_lookup]. unfold other_parameters.
  destruct (url_query (kv :: p)) eqn:E; [done|]. change ([z :: l] !! 0%nat) with (Some (z :: l)). cbv beta iota. rewrite Hq. cbn [result_bind entries]. by rewrite delete_without by apply Hp.
Qed.

(** *** Parts of the written URL *)

Lemma keys_ordered_cons k ks : keys_ordered (k :: ks) <-> (∀ k', k' ∈ ks -> key_before k' k = false) /\ keys_ordered ks.
Proof.
  split.
  - intros H. split.
    + intros k' [i Hi]%list_elem_of_lookup. by apply (H 0%nat (S i)); [..|lia].
    + intros i j x y Hi Hj Hij. by apply (H (S i) (S j)); [..|lia].
  - intros [Hk H] [|i] [|j] x y Hi Hj Hij; cbn in *; try lia.
    + injection Hi as <-. apply Hk. by eapply list_elem_of_lookup_2.
    + by apply (H i j); [..|lia].
Qed.
Lemma keys_ordered_filter (f : list Z * jval -> bool) o : keys_ordered (obj_keys o) -> keys_ordered (obj_keys (List.filter f o)).
Proof.
  unfold obj_keys. induction o as [|kv o IH]; [done|]. cbn. intros [Hk Ho]%keys_ordered_cons. destruct (f kv); [|by apply IH]. cbn.
  apply keys_ordered_cons. split; [|by apply IH]. intros k' (y & -> & [Hy _]%list_elem_of_In%filter_In)%list_elem_of_fmap.
  apply Hk. by apply list_elem_of_fmap_2, list_elem_of_In.
Qed.

Lemma without_object o p : QsOk.qs_object p -> QsOk.qs_object (without o p).
Proof.
  intros [[Hn Ho] Hp]. split; [split; [by apply filter_nodup|by apply keys_ordered_filter]|].
  apply Forall_forall. intros kv [Hin _]%list_elem_of_In%filter_In. rewrite Forall_forall in Hp. by apply Hp, list_elem_of_In.
Qed.
Lemma without_leaves o p : len (QsOk.leaves (JObj (without o p))) <= len (QsOk.leaves (JObj p)).
Proof.
  rewrite (QsOk.leaves_entries (JObj p)), (QsOk.leaves_entries (JObj (without o p))) by done. cbn [Query.entries].
  unfold without, len. induction p as [|kv p IH]; [done|]. cbn. destruct (negb _); cbn; rewrite !length_app in *; lia.
Qed.

Lemma join_free c l : l <> [] -> Forall (Forall (λ x, x <> c)) l -> split [c] (join [c] l) = l.
Proof. intros Hl H. by apply split_join. Qed.
Lemma join_nonempty sep l : l <> [] -> Forall (λ x, x <> []) l -> join sep l <> [].
Proof. destruct l as [|x [|y l]]; [done| |]; intros _ [Hx _]%Forall_cons; [done|]. cbn. by destruct x. Qed.

(** What [query_text] makes of two lists of parts. *)
Lemma query_text_parts ks qs : Forall (λ x, x <> []) ks -> Forall (λ x, x <> []) qs ->
  query_text [join [38] ks; join [38] qs] = match ks ++ qs with [] => [] | l => 63 :: join [38] l end.
Proof.
  intros Hk Hq.
  assert (E : join [38] (List.filter (λ s, negb (bool_decide (s = []))) [join [38] ks; join [38] qs]) = join [38] (ks ++ qs)).
  { assert (K : ∀ l, Forall (λ x, x <> []) l -> l <> [] -> bool_decide (join [38] l = []) = false).
    { intros l Hl Hn. apply bool_decide_eq_false_2. exact (join_nonempty [38] l Hn Hl). }
    cbn [List.filter]. destruct (decide (ks = [])) as [->|Hkn], (decide (qs = [])) as [->|Hqn].
    - done.
    - cbn [app]. rewrite (K qs) by done. done.
    - rewrite (K ks) by done. by rewrite app_nil_r.
    - rewrite (K ks), (K qs) by done. cbn [negb]. by rewrite join_app_ne. }
  unfold query_text. rewrite E. destruct (decide (ks ++ qs = [])) as [->|Hn]; [done|].
  assert (Hj : join [38] (ks ++ qs) <> []) by exact (join_nonempty [38] _ Hn (Forall_app_2 _ _ _ Hk Hq)).
  destruct (ks ++ qs) as [|x l]; [done|]. by destruct (join [38] (x :: l)).
Qed.

Lemma part_text_nonempty p : QsOk.part_text p <> [].
Proof. unfold QsOk.part_text. by destruct (QsOk.full_text _), (qs_encode _). Qed.

(** The URL [u] is [base] with a query: its parts, cut at the ampersands, are
    some from which [qs.parse] reads [p] and then some from which
    [querystring.parse] reads [o]; a query without parts has no question mark. *)
Definition url_reads (base u : list Z) (p o : jobj) : Prop :=
  ∃ ks qs, qs_parse (JStr (join [38] ks)) parse_defaults = Ok (JObj p) /\ parse (JStr (join [38] qs)) None None None = Ok o /\
    match ks ++ qs with [] => u = base | l => ∃ t, u = base ++ 63 :: t /\ split [38] t = l end.

Lemma query_text_reads base p o xs : QsOk.qs_object p -> len (QsOk.leaves (JObj p)) <= 1000 ->
  query_object o -> len (pairs o) <= 1000 -> Forall2 pair_text (pairs o) xs ->
  url_reads base (base ++ query_text [url_query p; join [38] xs]) p o.
Proof.
  intros Hp Hpn Ho Hon Hx. exists (QsOk.part_text <$> QsOk.leaves (JObj p)), xs.
  assert (Hxs : Forall (λ x, ∃ ks, pair_text ks x) xs) by (clear -Hx; induction Hx; eauto).
  split_and!; [by apply QsOk.qs_parse_leaves|by apply parse_texts|].
  unfold url_query. rewrite query_text_parts.
  - assert (Hf : Forall (Forall (λ c, c <> 38)) ((QsOk.part_text <$> QsOk.leaves (JObj p)) ++ xs)).
    { apply Forall_app. split.
      - destruct (QsOk.top_leaves p Hp) as [Hl _]. apply Forall_fmap. eapply Forall_impl; [exact Hl|]. intros q Hq. by apply part_text_no.
      - eapply Forall_impl; [exact Hxs|]. intros x [ks Hk]. by eapply pair_text_no. }
    destruct (_ ++ xs) as [|y l] eqn:E; [apply app_nil_r|]. eexists. split; [reflexivity|]. by apply join_free.
  - apply Forall_fmap, Forall_forall. intros q _. apply part_text_nonempty.
  - eapply Forall_impl; [exact Hxs|]. intros x [ks (ek & es & -> & _)]. by destruct ek.
Qed.

(** C20. Merging the query of a request into its URL keeps and adds exactly the
    parameters it should. The URL was [base] with a query [p] in the notation of
    [qs.stringify]; the query carries the values [o], texts (under any format)
    and lists of two or more texts with the format [multi]. The new URL is [base]
    with a query whose parts read, by [qs.parse], as the parameters the URL had
    except those that [o] names, and then, by [querystring.parse], as [o]: all
    names, texts and repeated values in their order. Without any parameter there
    is no question mark. The query is removed from the request and nothing else
    of it changes. *)
Theorem merge_query_reads_back e base p q o :
  QsOk.qs_object p -> len (QsOk.leaves (JObj p)) <= 1000 -> query_object o -> len (pairs o) <= 1000 -> query_of q o ->
  Forall (λ c, c <> 63) base -> url e = url_with base p -> query e = Some q -> form e = None ->
  ∃ u, mergeInQueryOrForm e = Ok (with_query (with_url e u) None) /\ url_reads base u (without o p) o.
Proof.
  intros Hp Hpn Ho Hon Hqo Hb Hu Hq Hf. destruct (query_texts q o Ho Hqo) as (xs & Hs & Hx).
  exists (base ++ query_text [url_query (without o p); join [38] xs]). split.
  - unfold mergeInQueryOrForm, merge_form. rewrite Hf. cbn [result_bind]. unfold merge_query. rewrite Hq, Hu, split_url by done.
    cbv zeta. change ((base :: ?l) !! 1%nat) with (l !! 0%nat). rewrite other_parameters_kept by done.
    replace (without q p) with (without o p) by (unfold without; by rewrite (query_of_keys q o)).
    rewrite QsOk.qs_stringify_object by (by apply without_object). cbn [result_bind]. by rewrite Hs.
  - pose proof (without_leaves o p). apply query_text_reads; [by apply without_object|lia|done|done|done].
Qed.

Definition sample_values : jobj := [(js "b", JArr [JStr (js "x&y"); JStr []]); (js "c d", JStr (js "=")); (js "key", JStr (js "s"))].
Definition sample_query : jobj :=
  [(js "b", multi (JArr [JStr (js "x&y"); JStr []])); (js "c d", entry_of JUndef (JStr (js "="))); (js "key", JStr (js "s"))].
Lemma merge_query_reads_back_witness :
  ∃ u, mergeInQueryOrForm (plain_request (js "http://h/p?a=1&b=2") (Some sample_query))
      = Ok (with_query (with_url (plain_request (js "http://h/p?a=1&b=2") (Some sample_query)) u) None) /\
    url_reads (js "http://h/p") u [(js "a", JStr (js "1"))] sample_values.
Proof.
  apply (merge_query_reads_back (plain_request (js "http://h/p?a=1&b=2") (Some sample_query)) (js "http://h/p")
    [(js "a", JStr (js "1")); (js "b", JStr (js "2"))] sample_query sample_values).
  - split; [by apply obj_okb_ok|].
    repeat apply Forall_cons_2; try apply Forall_nil_2; (split_and!; [by apply QsOk.qs_key_b|done|]); by apply well_formed_b.
  - vm_compute. discriminate.
  - split; [by apply obj_okb_ok|]. repeat apply Forall_cons_2; try apply Forall_nil_2; (split_and!; [by apply well_formed_b|done|]).
    + right. exists [js "x&y"; []]. split_and!; [done|cbn; lia|]. repeat apply Forall_cons_2; [by apply well_formed_b..|apply Forall_nil_2].
    + left. exists (js "="). split; [done|by apply well_formed_b].
    + left. exists (js "s"). split; [done|by apply well_formed_b].
  - vm_compute. discriminate.
  - repeat apply Forall2_cons_2; try apply Forall2_nil_2; (split; [done|]).
    + by left.
    + right. split; [by eexists|]. right. by eexists.
    + right. split; [by eexists|by left].
  - repeat apply Forall_cons_2; try apply Forall_nil_2; vm_compute; discriminate.
  - vm_compute. reflexivity.
  - reflexivity.
  - reflexivity.
Defined.

(** ** Outcomes *)

(** A response is returned only when its status is a success, and every status
    that is not is an error with its text and number. *)
Lemma http_success jp sl ri rs fetch ls a r : http jp sl ri rs fetch ls a = inl r -> s_ok r = true.
Proof. unfold http. repeat case_match; congruence. Qed.

Lemma http_status jp sl fetch ls a b r s : prepare None a = Ok b -> fetch (url b) b = Ok r -> serializeRes jp sl r (url a) ls = Ok s ->
  ok r = false -> http jp sl None None fetch ls a = inr (StatusError (statusText r) (status r) s).
Proof.
  intros Hp Hf Hs Hr. unfold http. rewrite Hp, Hf, Hs. cbn [intercept].
  assert (E : s_ok s = ok r /\ s_statusText s = statusText r /\ s_status s = status r).
  { unfold serializeRes in Hs. destruct (ls || _), (r_text r), (r_blob r); cbn in Hs; try done; [destruct (parse_body _ _ _ _)..| |];
      injection Hs as <-; done. }
  destruct E as (-> & -> & ->). by rewrite Hr.
Qed.

End ClientHttp.
