(* ===== verification/YamlTypes.v ===== *)
(** The types of js-yaml's schema for untrusted documents
    (client/docs/swagger-ui/swagger-ui-bundle.js, lines 26868-27240): how a
    scalar that is written without quotes is recognised ([resolve]) and what
    value it stands for ([construct]), and the types of collections.

    A fractional number is the decimal it is written as, before it is rounded to
    a double; an integer is not rounded either. A date is its time in
    milliseconds. *)

From stdpp Require Import base list list_numbers numbers strings gmap.
From Stdlib Require Import ZArith Lia.
From S2P Require Import Prelude Uri Json.

Module YamlTypes.
Import Json.

(** ** Values *)

(** A number that is no integer of the text: [FDec n m e] is [m * 10^e], with
    the sign [n]. *)
Inductive float :=
  | FNaN
  | FInf (negative : bool)
  | FDec (negative : bool) (m e : Z).

Inductive yval :=
  | YNull
  | YBool (b : bool)
  | YInt (z : Z)
  | YFloat (f : float)
  | YStr (s : list Z)
  | YDate (ms : Z)
  | YBin (bytes : list Z)
  | YArr (l : list yval)
  | YObj (o : list (list Z * yval)).

Inductive kind := Scalar | Sequence | Mapping.
#[export] Instance kind_eq_dec : EqDecision kind.
Proof. solve_decision. Defined.

(** A type of the schema. *)
Record ytype := Type_ {
  tag : list Z;
  tkind : kind;
  resolve : yval -> bool;
  construct : yval -> yval }.

Definition yaml (s : string) : list Z := js "tag:yaml.org,2002:" ++ js s.

(** ** Text *)

Definition one_of (l : list string) (s : list Z) : bool := bool_decide (s ∈ js <$> l).
Definition drop_while := fix go (p : Z -> bool) (s : list Z) : list Z :=
  match s with c :: s' => if p c then go p s' else s | [] => [] end.
Definition is_sign (c : Z) : bool := (c =? 43) || (c =? 45).
Definition drop_sign (s : list Z) : list Z := match s with c :: s' => if is_sign c then s' else s | [] => [] end.
Definition digit_or_bar (c : Z) : bool := digit c || (c =? 95).
Definition no_bars (s : list Z) : list Z := List.filter (λ c, negb (c =? 95)) s.
Definition last_is (c : Z) (s : list Z) : bool := match reverse s with c' :: _ => c' =? c | [] => false end.

(** [/^(:[0-5]?[0-9])+/], as far as it goes; [n] counts the groups. *)
Fixpoint sixties (fuel : nat) (s : list Z) (n : nat) : nat * list Z :=
  match fuel, s with
  | S fuel, 58 :: a :: s' =>
      if digit a then
        match s' with
        | b :: s'' => if digit b then if a <=? 53 then sixties fuel s'' (S n) else (n, s) else sixties fuel s' (S n)
        | [] => (S n, [])
        end
      else (n, s)
  | _, _ => (n, s)
  end.

(** ** Null and booleans *)

Definition resolveNull (v : yval) : bool :=
  match v with YNull => true | YStr s => one_of ["~"; "null"; "Null"; "NULL"] s | _ => false end.
Definition resolveBoolean (v : yval) : bool :=
  match v with YStr s => one_of ["true"; "True"; "TRUE"; "false"; "False"; "FALSE"] s | _ => false end.
Definition constructBoolean (v : yval) : yval :=
  YBool match v with YStr s => one_of ["true"; "True"; "TRUE"] s | _ => false end.

(** ** Integers *)

(** The digits of a numeral, with bars between them, of which the last is none. *)
Definition digits_ok (p : Z -> bool) (s : list Z) : bool :=
  forallb (λ c, p c || (c =? 95)) s && existsb (λ c, negb (c =? 95)) s && negb (last_is 95 s).
Definition is_bit (c : Z) : bool := (c =? 48) || (c =? 49).
Definition is_octal (c : Z) : bool := (48 <=? c) && (c <=? 55).
Definition is_hex (c : Z) : bool := match hex_digit c with Some _ => true | None => false end.

Definition resolveInteger (v : yval) : bool :=
  match v with
  | YStr e =>
      match drop_sign e with
      | [48] => true
      | 48 :: 98 :: s => digits_ok is_bit s
      | 48 :: 120 :: s => digits_ok is_hex s
      | 48 :: s => digits_ok is_octal s
      | 95 :: _ => false
      | s =>
          let rest := drop_while digit_or_bar s in
          let ds := take (length s - length rest) s in
          match rest with
          | [] => digits_ok digit ds
          | 58 :: _ => existsb (λ c, negb (c =? 95)) ds && bool_decide ((sixties (length rest) rest 0).2 = [])
          | _ => false
          end
      end
  | _ => false
  end.

(** The digits of [s] in base [r], as far as they go; [None] is NaN. *)
Definition digit_in (r c : Z) : option Z :=
  match hex_digit c with Some d => if d <? r then Some d else None | None => None end.
Fixpoint radix_prefix (r : Z) (s : list Z) (acc : Z) : Z :=
  match s with c :: s => match digit_in r c with Some d => radix_prefix r s (acc * r + d) | None => acc end | [] => acc end.
(** [parseInt(s, r)] of a text without white space and sign *)
Definition parse_radix (r : Z) (s : list Z) : option Z :=
  match s with c :: _ => match digit_in r c with Some _ => Some (radix_prefix r s 0) | None => None end | [] => None end.
Definition drop_0x (s : list Z) : list Z := match s with 48 :: c :: s' => if (c =? 120) || (c =? 88) then s' else s | _ => s end.

(** [-1 * n] and the like; NaN stays NaN. *)
Definition signed (neg : bool) (n : option Z) : yval :=
  match n with Some n => YInt (if neg then - n else n) | None => YFloat FNaN end.

(** The sum of the parts, the last first, each worth 60 times the one before. *)
Fixpoint sixty_sum (parts : list (option Z)) (n : Z) (acc : option Z) : option Z :=
  match parts with
  | p :: parts => sixty_sum parts (n * 60) (match acc, p with Some a, Some p => Some (a + p * n) | _, _ => None end)
  | [] => acc
  end.

Definition constructInteger (v : yval) : yval :=
  match v with
  | YStr e =>
      let r := no_bars e in
      let neg := match r with 45 :: _ => true | _ => false end in
      let r := drop_sign r in
      match r with
      | [48] => YInt 0
      | 48 :: 98 :: s => signed neg (parse_radix 2 s)
      | 48 :: 120 :: _ => signed neg (parse_radix 16 (drop_0x r))
      | 48 :: _ => signed neg (parse_radix 8 r)
      | _ =>
          if -1 <? index_of [58] r then signed neg (sixty_sum (reverse (parse_radix 10 <$> split [58] r)) 1 (Some 0))
          else signed neg (parse_radix 10 r)
      end
  | v => v
  end.

(** [n.toString(r)] *)
Definition digit_char (d : Z) : Z := if d <? 10 then 48 + d else 87 + d.
Fixpoint radix_loop (r : Z) (fuel : nat) (n : Z) (acc : list Z) : list Z :=
  match fuel with
  | O => acc
  | S fuel => if n <? r then digit_char n :: acc else radix_loop r fuel (n / r) (digit_char (n mod r) :: acc)
  end.
Definition to_radix (r n : Z) : list Z :=
  if n <? 0 then 45 :: radix_loop r (S (Z.to_nat (Z.log2 (- n)))) (- n) [] else radix_loop r (S (Z.to_nat (Z.log2 n))) n [].
Definition upper_ascii (s : list Z) : list Z := (λ c, if (97 <=? c) && (c <=? 122) then c - 32 else c) <$> s.

(** [represent], of the integers that are numbers of their own, of which
    [toString] writes all digits: above them it rounds, and from 10^21 on it
    writes an exponent in base 10. *)
Definition MAX_SAFE_INTEGER : Z := 9007199254740991.
Definition safe_integer (e : Z) : Prop := Z.abs e <= MAX_SAFE_INTEGER.
#[global] Instance safe_integer_dec e : Decision (safe_integer e) := ltac:(unfold safe_integer; apply _).

Inductive int_style := Binary | Octal | Decimal | Hexadecimal.
Definition represent_digits (t : int_style) (e : Z) : list Z :=
  let prefixed (p : string) (s : list Z) := if 0 <=? e then js p ++ s else js "-" ++ js p ++ drop 1 s in
  match t with
  | Binary => prefixed "0b" (to_radix 2 e)
  | Octal => prefixed "0" (to_radix 8 e)
  | Decimal => to_radix 10 e
  | Hexadecimal => prefixed "0x" (upper_ascii (to_radix 16 e))
  end.
Definition representInteger (t : int_style) (e : Z) : option (list Z) :=
  if decide (safe_integer e) then Some (represent_digits t e) else None.

(** ** Floats *)

(** The exponent at the end, if any. *)
Definition exponent_end (s : list Z) : bool :=
  match s with
  | [] => true
  | c :: s => ((c =? 101) || (c =? 69)) && match drop_sign s with [] => false | ds => forallb digit ds end
  end.
(** A full stop with digits and bars, if any, then the exponent. *)
Definition fraction_end (s : list Z) : bool :=
  exponent_end (match s with 46 :: s => drop_while digit_or_bar s | s => s end).
Definition float_pattern (e : list Z) : bool :=
  let s := drop_sign e in
  (match s with
   | 48 :: s => fraction_end s
   | c :: s => digit c && fraction_end (drop_while digit_or_bar s)
   | [] => false
   end)
  || (match e with 46 :: c :: s => digit_or_bar c && exponent_end (drop_while digit_or_bar s) | _ => false end)
  || (match s with
      | c :: s =>
          digit c
          && match sixties (length s) (drop_while digit_or_bar s) 0 with
             | (S _, 46 :: s) => forallb digit_or_bar s
             | _ => false
             end
      | [] => false
      end)
  || one_of [".inf"; ".Inf"; ".INF"] s
  || one_of [".nan"; ".NaN"; ".NAN"] e.
Definition resolveFloat (v : yval) : bool := match v with YStr e => float_pattern e && negb (last_is 95 e) | _ => false end.

(** [parseFloat(s)] of a text without white space and sign: [m * 10^e]. *)
Definition parse_float (s : list Z) : option (Z * Z) :=
  let r := drop_while digit s in
  let ip := take (length s - length r) s in
  let '(fp, r) := match r with
                  | 46 :: r => let r' := drop_while digit r in (take (length r - length r') r, r')
                  | r => ([], r)
                  end in
  let e := match r with
           | c :: t =>
               if (c =? 101) || (c =? 69) then
                 let ds := drop_sign t in
                 let ds := take (length ds - length (drop_while digit ds)) ds in
                 if prefix_at [45] t then - dec_value ds 0 else dec_value ds 0
               else 0
           | [] => 0
           end in
  match ip ++ fp with [] => None | ds => Some (dec_value ds 0, e - len fp) end.

Definition add_scaled (a p : Z * Z) (n : Z) : Z * Z :=
  let e := Z.min a.2 p.2 in (a.1 * 10 ^ (a.2 - e) + p.1 * n * 10 ^ (p.2 - e), e).
Fixpoint sixty_float (parts : list (option (Z * Z))) (n : Z) (acc : option (Z * Z)) : option (Z * Z) :=
  match parts with
  | p :: parts => sixty_float parts (n * 60) (match acc, p with Some a, Some p => Some (add_scaled a p n) | _, _ => None end)
  | [] => acc
  end.

Definition constructFloat (v : yval) : yval :=
  match v with
  | YStr e =>
      let t := to_lower (no_bars e) in
      let neg := prefix_at [45] t in
      let t := drop_sign t in
      YFloat (if decide (t = js ".inf") then FInf neg
              else if decide (t = js ".nan") then FNaN
              else match (if -1 <? index_of [58] t then sixty_float (reverse (parse_float <$> split [58] t)) 1 (Some (0, 0)) else parse_float t) with
                   | Some (m, e) => FDec neg m e
                   | None => FNaN
                   end)
  | v => v
  end.

(** ** Dates *)

(** What the groups of the pattern of a timestamp match: the date, and for the
    long form the time, the fraction and the time zone. *)
Record stamp := Stamp {
  year : Z;
  month : Z;
  day : Z;
  clock : option (Z * Z * Z);
  fraction : list Z;
  zone : option (bool * Z * Z) }.

(** [min] to [max] digits at the start of [s], as many as there are. *)
Definition some_digits (min max : nat) (s : list Z) : option (Z * list Z) :=
  let r := drop_while digit s in
  let n := Nat.min max (length s - length r) in
  if (n <? min)%nat then None else Some (dec_value (take n s) 0, drop n s).
Definition char (c : Z) (s : list Z) : option (list Z) := match s with c' :: s => if c' =? c then Some s else None | [] => None end.
Definition blank (c : Z) : bool := (c =? 32) || (c =? 9).

(** The time zone at the end, if any. *)
Definition zone_end (s : list Z) : option (option (bool * Z * Z)) :=
  match s with
  | [] => Some None
  | _ =>
      match drop_while blank s with
      | [90] => Some None
      | c :: s =>
          if is_sign c then
            '(h, s) ← some_digits 1 2 s;
            match s with
            | [] => Some (Some (c =? 45, h, 0))
            | _ => s ← char 58 s; '(m, s) ← some_digits 2 2 s; match s with [] => Some (Some (c =? 45, h, m)) | _ => None end
            end
          else None
      | [] => None
      end
  end.

Definition timestamp (e : list Z) : option stamp :=
  '(y, s) ← some_digits 4 4 e; s ← char 45 s;
  '(mo, s1) ← some_digits 1 2 s; s1 ← char 45 s1;
  '(d, s2) ← some_digits 1 2 s1;
  match s2 with
  | [] => if decide (length s = 5%nat /\ length s1 = 2%nat) then Some (Stamp y mo d None [] None) else None
  | c :: s3 =>
      s3 ← (if (c =? 84) || (c =? 116) then Some s3 else if blank c then Some (drop_while blank s3) else None);
      '(h, s) ← some_digits 1 2 s3; s ← char 58 s;
      '(mi, s) ← some_digits 2 2 s; s ← char 58 s;
      '(sec, s) ← some_digits 2 2 s;
      let '(f, s) := match s with 46 :: s => let r := drop_while digit s in (take (length s - length r) s, r) | s => ([], s) end in
      z ← zone_end s;
      Some (Stamp y mo d (Some (h, mi, sec)) f z)
  end.
Definition resolveTimestamp (v : yval) : bool :=
  match v with YStr e => match timestamp e with Some _ => true | None => false end | _ => false end.

(** The days from 1970-01-01 to the day [d] of the month [m] (from 0) of [y]. *)
Definition day_number (y m d : Z) : Z :=
  let y := y + m / 12 in
  let m := m mod 12 + 1 in
  let y := if m <=? 2 then y - 1 else y in
  let era := y / 400 in
  let yoe := y - era * 400 in
  let doy := (153 * (m + (if 2 <? m then -3 else 9)) + 2) / 5 in
  era * 146097 + (yoe * 365 + yoe / 4 - yoe / 100 + doy) - 719468 + d - 1.
(** [Date.UTC]: the years 0 to 99 are those of the 20th century. *)
Definition Date_UTC (y m d h mi s ms : Z) : Z :=
  let y := if (0 <=? y) && (y <=? 99) then 1900 + y else y in
  ((day_number y m d * 24 + h) * 60 + mi) * 60000 + s * 1000 + ms.

Definition constructTimestamp (v : yval) : yval :=
  match v with
  | YStr e =>
      match timestamp e with
      | Some t =>
          match clock t with
          | None => YDate (Date_UTC (year t) (month t - 1) (day t) 0 0 0 0)
          | Some (h, mi, s) =>
              let f := dec_value (take 3 (fraction t ++ js "000")) 0 in
              let p := match zone t with Some (neg, zh, zm) => let p := 60000 * (60 * zh + zm) in if neg : bool then - p else p | None => 0 end in
              YDate (Date_UTC (year t) (month t - 1) (day t) h mi s f - p)
          end
      | None => v
      end
  | v => v
  end.

Definition resolveMerge (v : yval) : bool := match v with YNull => true | YStr s => bool_decide (s = js "<<") | _ => false end.

(** ** Binary data *)

Definition BASE64_MAP : list Z := js "ABCDEFGHIJKLMNOPQRSTUVWXYZabcdefghijklmnopqrstuvwxyz0123456789+/=" ++ [10; 13].
Definition resolveBinary (v : yval) : bool :=
  match v with
  | YStr e =>
      let ts := (λ c, index_of [c] BASE64_MAP) <$> e in
      forallb (λ t, 0 <=? t) ts && (6 * len (List.filter (λ t, t <=? 64) ts) mod 8 =? 0)
  | _ => false
  end.

(** The three bytes of [s], a number of 32 bits. *)
Definition three_bytes (s : Z) : list Z := [Z.land (Z.shiftr s 16) 255; Z.land (Z.shiftr s 8) 255; Z.land s 255].
(** The loop of [construct]: [t] characters are read, [s] are their bits. *)
Fixpoint binary_loop (o : list Z) (t s : Z) (l : list Z) : Z * list Z :=
  match o with
  | c :: o =>
      let l := if (t mod 4 =? 0) && negb (t =? 0) then l ++ three_bytes s else l in
      binary_loop o (t + 1) (Int32.bor (Int32.shl s 6) (index_of [c] BASE64_MAP)) l
  | [] => (s, l)
  end.
Definition constructBinary (v : yval) : yval :=
  match v with
  | YStr e =>
      let o := List.filter (λ c, negb (bool_decide (c ∈ [13; 10; 61]))) e in
      let '(s, l) := binary_loop o 0 0 [] in
      let n := len o mod 4 * 6 in
      YBin (if n =? 0 then l ++ three_bytes s
            else if n =? 18 then l ++ [Z.land (Z.shiftr s 10) 255; Z.land (Z.shiftr s 2) 255]
            else if n =? 12 then l ++ [Z.land (Z.shiftr s 4) 255]
            else l)
  | v => v
  end.

(** ** Collections *)

Definition single_key (v : yval) : option (list Z) := match v with YObj [(k, _)] => Some k | _ => None end.
Fixpoint omap_keys (l : list yval) (s : list (list Z)) : bool :=
  match l with
  | v :: l => match single_key v with Some a => negb (bool_decide (a ∈ s)) && omap_keys l (s ++ [a]) | None => false end
  | [] => true
  end.
Definition resolveOmap (v : yval) : bool := match v with YNull => true | YArr l => omap_keys l [] | _ => false end.
Definition resolvePairs (v : yval) : bool :=
  match v with YNull => true | YArr l => forallb (λ v, match single_key v with Some _ => true | None => false end) l | _ => false end.
Definition pair_of (v : yval) : yval := match v with YObj ((k, w) :: _) => YArr [YStr k; w] | v => v end.
Definition constructPairs (v : yval) : yval := match v with YNull => YArr [] | YArr l => YArr (pair_of <$> l) | v => v end.
Definition resolveSet (v : yval) : bool :=
  match v with YNull => true | YObj o => forallb (λ kv, match kv.2 with YNull => true | _ => false end) o | _ => false end.
Definition or_else (d v : yval) : yval := match v with YNull => d | v => v end.

(** ** The schema *)

Definition always (v : yval) : bool := true.
Definition null_type := Type_ (yaml "null") Scalar resolveNull (λ _, YNull).
Definition bool_type := Type_ (yaml "bool") Scalar resolveBoolean constructBoolean.
Definition int_type := Type_ (yaml "int") Scalar resolveInteger constructInteger.
Definition float_type := Type_ (yaml "float") Scalar resolveFloat constructFloat.
Definition timestamp_type := Type_ (yaml "timestamp") Scalar resolveTimestamp constructTimestamp.
Definition merge_type := Type_ (yaml "merge") Scalar resolveMerge id.
Definition str_type := Type_ (yaml "str") Scalar always (or_else (YStr [])).
Definition seq_type := Type_ (yaml "seq") Sequence always (or_else (YArr [])).
Definition map_type := Type_ (yaml "map") Mapping always (or_else (YObj [])).
Definition binary_type := Type_ (yaml "binary") Scalar resolveBinary constructBinary.
Definition omap_type := Type_ (yaml "omap") Sequence resolveOmap (or_else (YArr [])).
Definition pairs_type := Type_ (yaml "pairs") Sequence resolvePairs constructPairs.
Definition set_type := Type_ (yaml "set") Mapping resolveSet (or_else (YObj [])).

(** The compiled lists of the schema: those it includes come first. *)
Definition implicitTypes : list ytype := [null_type; bool_type; int_type; float_type; timestamp_type; merge_type].
Definition explicitTypes : list ytype := [str_type; seq_type; map_type; binary_type; omap_type; pairs_type; set_type].
(** [typeMap[k][t]]; without a kind, [typeMap.fallback[t]] *)
Definition find_type (k : option kind) (t : list Z) : option ytype :=
  List.find (λ y, bool_decide (tag y = t) && match k with Some k => bool_decide (tkind y = k) | None => true end) (implicitTypes ++ explicitTypes).

(** What a plain scalar stands for: the first implicit type that knows it. *)
Definition implicit (s : list Z) : option ytype := List.find (λ y, resolve y (YStr s)) implicitTypes.
Definition plain_value (s : list Z) : yval := match implicit s with Some y => construct y (YStr s) | None => YStr s end.

Example plain_ex :
  plain_value <$> (js <$> ["~"; "True"; "0x_fF"; "-0b101"; "017"; "018"; "1:30:05"; "1_000"; "+12"; "1.5e+3"; "-.5_0"; "1:30.5"; "-.INF"; ".nan"; "<<";
                           "2001-12-14"; "2001-12-14t21:59:43.10-05:00"; "2001-1-1 0:00:00 Z"; "1e3"; "_1"; "1_"; "yes"; "0:30"; "1_:2"]%string)
  = [YNull; YBool true; YInt 255; YInt (-5); YInt 15; YStr (js "018"); YInt 5405; YInt 1000; YInt 12; YFloat (FDec false 15 2); YStr (js "-.5_0");
     YFloat (FDec false 905 (-1)); YFloat (FInf true); YFloat FNaN; YStr (js "<<"); YDate 1008288000000; YDate 1008385183100; YDate 978307200000;
     YFloat (FDec false 1 3); YStr (js "_1"); YStr (js "1_"); YStr (js "yes"); YStr (js "0:30"); YInt 62].
Proof. vm_compute. reflexivity. Qed.

(** A date of the first century is read as one of the twentieth. *)
Example early_year : plain_value (js "0050-01-01") = plain_value (js "1950-01-01").
Proof. vm_compute. reflexivity. Qed.

(** A decimal that starts with a full stop is a number, with a sign it is text. *)
Example signed_fraction : plain_value (js ".5") = YFloat (FDec false 5 (-1)) /\ plain_value (js "-.5") = YStr (js "-.5").
Proof. by vm_compute. Qed.

End YamlTypes.
