(* ===== verification/YamlTypesOk.v ===== *)
(** Integers of YAML: what js-yaml writes for an integer, in any of its styles,
    is read as this integer. *)

From stdpp Require Import base list list_numbers numbers strings gmap.
From Stdlib Require Import ZArith Lia.
From S2P Require Import Prelude Uri Json YamlTypes.

Module YamlTypesOk.
Import Json YamlTypes.

(** ** Numerals *)

(** A digit in base [r], in lower or upper case. *)
Definition numeral (r c : Z) : Prop := ∃ d, digit_in r c = Some d /\ 0 <= d < r.
Fixpoint numeral_value (r : Z) (s : list Z) (acc : Z) : Z :=
  match s with c :: s => numeral_value r s (acc * r + default 0 (digit_in r c)) | [] => acc end.

Lemma numeral_value_app r s t a : numeral_value r (s ++ t) a = numeral_value r t (numeral_value r s a).
Proof. revert a. induction s as [|c s IH]; intros a; [done|apply IH]. Qed.
Lemma radix_prefix_all r s a : Forall (numeral r) s -> radix_prefix r s a = numeral_value r s a.
Proof. intros H. revert a. induction H as [|c s (d & Hd & _) _ IH]; intros a; [done|]. cbn. rewrite Hd. apply IH. Qed.
Lemma parse_radix_all r s : Forall (numeral r) s -> s ≠ [] -> parse_radix r s = Some (numeral_value r s 0).
Proof.
  intros H Hs. unfold parse_radix. destruct s as [|c s]; [done|]. apply Forall_cons in H as HH. destruct HH as [(d & Hd & _) _].
  rewrite Hd. by rewrite radix_prefix_all.
Qed.

Lemma digit_char_in r d : 2 <= r <= 16 -> 0 <= d < r -> digit_in r (digit_char d) = Some d.
Proof.
  intros Hr Hd. unfold digit_in, hex_digit, digit_char. destruct (Z.ltb_spec d 10).
  - rewrite (proj2 (Z.leb_le 48 _)), (proj2 (Z.leb_le _ 57)) by lia. cbn [andb]. replace (48 + d - 48) with d by lia. by rewrite (proj2 (Z.ltb_lt d r)) by lia.
  - rewrite (proj2 (Z.leb_gt (87 + d) 57)), (proj2 (Z.leb_le 97 _)), (proj2 (Z.leb_le _ 102)) by lia. rewrite andb_false_r. cbn [andb].
    replace (87 + d - 87) with d by lia. by rewrite (proj2 (Z.ltb_lt d r)) by lia.
Qed.
Lemma digit_char_numeral r d : 2 <= r <= 16 -> 0 <= d < r -> numeral r (digit_char d).
Proof. intros Hr Hd. exists d. by rewrite digit_char_in. Qed.

Lemma radix_loop_spec r fuel n acc : 2 <= r <= 16 -> 0 <= n -> n < 2 ^ Z.of_nat fuel ->
  ∃ ds, radix_loop r fuel n acc = ds ++ acc /\ Forall (λ c, ∃ d, 0 <= d < r /\ c = digit_char d) ds /\ numeral_value r ds 0 = n /\
    (fuel <> O -> ds <> []) /\ (0 < n -> head ds ≠ Some 48).
Proof.
  intros Hr. revert n acc. induction fuel as [|fuel IH]; intros n acc Hn Hf.
  { exists []. split_and!; [done|apply Forall_nil_2|cbn in *; lia|done|done]. }
  cbn [radix_loop]. destruct (Z.ltb_spec n r).
  { exists [digit_char n]. split_and!; [done|apply Forall_singleton; by exists n| |done|].
    - cbn. rewrite digit_char_in by lia. cbn. lia.
    - intros Hp [= E]. unfold digit_char in E. destruct (Z.ltb_spec n 10); lia. }
  assert (Hq : 0 <= n / r) by (apply Z.div_pos; lia). assert (Hm : 0 <= n mod r < r) by (apply Z.mod_pos_bound; lia).
  assert (Hp : 0 < n / r) by (apply Z.div_str_pos; lia).
  destruct (IH (n / r) (digit_char (n mod r) :: acc)) as (ds & -> & Hd & Hv & Hne & Hh); [done| |].
  { apply Z.div_lt_upper_bound; [lia|]. rewrite Nat2Z.inj_succ, Z.pow_succ_r in Hf by lia. nia. }
  exists (ds ++ [digit_char (n mod r)]). split_and!.
  - by rewrite <- app_assoc.
  - apply Forall_app. split; [done|]. apply Forall_singleton. eauto.
  - rewrite numeral_value_app, Hv. cbn. rewrite digit_char_in by lia. cbn. pose proof (Z.div_mod n r). lia.
  - by destruct ds.
  - intros _. destruct ds as [|c ds]; [cbn in Hv; lia|]. by apply Hh.
Qed.

(** The digits of a number: the last part is for the start of a decimal. *)
Lemma digits_spec r n : 2 <= r <= 16 -> 0 <= n ->
  ∃ ds, radix_loop r (S (Z.to_nat (Z.log2 n))) n [] = ds /\ Forall (λ c, ∃ d, 0 <= d < r /\ c = digit_char d) ds /\ numeral_value r ds 0 = n /\
    ds <> [] /\ (0 < n -> head ds ≠ Some 48).
Proof.
  intros Hr Hn. destruct (radix_loop_spec r (S (Z.to_nat (Z.log2 n))) n [] Hr Hn) as (ds & -> & Hd & Hv & Hne & Hh).
  - destruct (decide (n = 0)) as [->|]; [done|]. rewrite Nat2Z.inj_succ, Z2Nat.id by apply Z.log2_nonneg. apply Z.log2_spec. lia.
  - exists ds. rewrite app_nil_r. split_and!; auto.
Qed.

(** ** Reading them *)

Lemma no_bars_free s : Forall (λ c, c ≠ 95) s -> no_bars s = s.
Proof.
  unfold no_bars. induction 1 as [|c s Hc _ IH]; [done|]. cbn. rewrite (proj2 (Z.eqb_neq c 95)) by done. cbn. by rewrite IH.
Qed.
Lemma digits_ok_all (p : Z -> bool) s : Forall (λ c, p c = true /\ c ≠ 95) s -> s ≠ [] -> digits_ok p s = true.
Proof.
  intros H Hs. unfold digits_ok. repeat (apply andb_true_intro; split).
  - apply forallb_forall. intros c Hc%list_elem_of_In. rewrite Forall_forall in H. by destruct (H c Hc) as [-> _].
  - destruct H as [|c s [_ Hc] _]; [done|]. cbn. by rewrite (proj2 (Z.eqb_neq c 95)).
  - unfold last_is. apply Forall_reverse in H. destruct (reverse s) as [|c s'] eqn:E; [done|].
    apply Forall_cons in H as [[_ Hc] _]. by rewrite (proj2 (Z.eqb_neq c 95)).
Qed.

Lemma digit_char_cases d : 0 <= d < 16 -> 48 <= digit_char d <= 57 /\ d < 10 \/ 97 <= digit_char d <= 102.
Proof. intros Hd. unfold digit_char. destruct (Z.ltb_spec d 10); lia. Qed.

(** The digits of base [r] with the predicate of its numerals. *)
Lemma digit_char_ok r p : (∀ d, 0 <= d < r -> p (digit_char d) = true) -> r <= 16 ->
  ∀ ds, Forall (λ c, ∃ d, 0 <= d < r /\ c = digit_char d) ds -> Forall (λ c, p c = true /\ c ≠ 95) ds.
Proof.
  intros Hp Hr ds H. eapply Forall_impl; [exact H|]. cbn. intros c (d & Hd & ->). split; [auto|]. pose proof (digit_char_cases d). lia.
Qed.
Lemma digit_chars_numeral r ds : 2 <= r <= 16 -> Forall (λ c, ∃ d, 0 <= d < r /\ c = digit_char d) ds -> Forall (numeral r) ds.
Proof. intros Hr H. eapply Forall_impl; [exact H|]. cbn. intros c (d & Hd & ->). by apply digit_char_numeral. Qed.

(** The start of an integer: no underscore, and a sign only when it is negative. *)
Definition sign_of (neg : bool) (s : list Z) : list Z := if neg then 45 :: s else s.
Lemma sign_stripped neg c s : c ≠ 43 -> c ≠ 45 -> drop_sign (sign_of neg (c :: s)) = c :: s.
Proof.
  intros H1 H2. destruct neg; [done|]. cbn. unfold is_sign. by rewrite (proj2 (Z.eqb_neq c 43)), (proj2 (Z.eqb_neq c 45)).
Qed.
Lemma sign_read neg c s : c ≠ 43 -> c ≠ 45 -> Forall (λ c, c ≠ 95) (c :: s) ->
  constructInteger (YStr (sign_of neg (c :: s))) =
    match c :: s with
    | [48] => YInt 0
    | 48 :: 98 :: s => signed neg (parse_radix 2 s)
    | 48 :: 120 :: _ => signed neg (parse_radix 16 (drop_0x (c :: s)))
    | 48 :: _ => signed neg (parse_radix 8 (c :: s))
    | _ =>
        if -1 <? index_of [58] (c :: s) then signed neg (sixty_sum (reverse (parse_radix 10 <$> split [58] (c :: s))) 1 (Some 0))
        else signed neg (parse_radix 10 (c :: s))
    end.
Proof.
  intros H1 H2 Hb. unfold constructInteger. rewrite no_bars_free by (destruct neg; [constructor|]; done). rewrite sign_stripped by done.
  replace (match sign_of neg (c :: s) with 45 :: _ => true | _ => false end) with neg; [done|].
  destruct neg; [done|]. cbn. destruct c as [|c|c]; try done. do 6 (destruct c as [c|c|]; try done).
Qed.

(** What each style writes after the sign. *)
Definition style_digits (t : int_style) (n : Z) : list Z :=
  let ds r := radix_loop r (S (Z.to_nat (Z.log2 n))) n [] in
  match t with
  | Binary => js "0b" ++ ds 2
  | Octal => js "0" ++ ds 8
  | Decimal => ds 10
  | Hexadecimal => js "0x" ++ upper_ascii (ds 16)
  end.
Lemma represent_signed t z : represent_digits t z = sign_of (z <? 0) (style_digits t (Z.abs z)).
Proof.
  unfold represent_digits, to_radix. destruct (Z.ltb_spec z 0).
  - rewrite (proj2 (Z.leb_gt 0 z)), Z.abs_neq by lia. by destruct t.
  - rewrite (proj2 (Z.leb_le 0 z)), Z.abs_eq by lia. by destruct t.
Qed.

Lemma upper_digit d : 0 <= d < 16 -> let c := digit_char d in let c := if (97 <=? c) && (c <=? 122) then c - 32 else c in
  digit_in 16 c = Some d /\ c ≠ 95.
Proof.
  intros Hd. assert (In d (seqZ 0 16)) by (apply list_elem_of_In, elem_of_seqZ; lia). revert d H Hd.
  assert (F : Forall (λ d, let c := digit_char d in let c := if (97 <=? c) && (c <=? 122) then c - 32 else c in digit_in 16 c = Some d /\ c ≠ 95) (seqZ 0 16)).
  { repeat (apply Forall_cons_2; [split; [reflexivity|discriminate]|]). apply Forall_nil_2. }
  intros d Hin _. rewrite Forall_forall in F. by apply F, list_elem_of_In.
Qed.
Lemma upper_numerals ds : Forall (λ c, ∃ d, 0 <= d < 16 /\ c = digit_char d) ds ->
  Forall (numeral 16) (upper_ascii ds) /\ Forall (λ c, c ≠ 95) (upper_ascii ds) /\ ∀ a, numeral_value 16 (upper_ascii ds) a = numeral_value 16 ds a.
Proof.
  unfold upper_ascii. induction 1 as [|c ds (d & Hd & ->) _ (IH1 & IH2 & IH3)]; [split_and!; constructor|].
  destruct (upper_digit d Hd) as [E Hc]. cbn zeta in *. rewrite !fmap_cons. split_and!.
  - constructor; [by exists d|done].
  - by constructor.
  - intros a. cbn [numeral_value]. rewrite E, digit_char_in by lia. cbn [default]. apply IH3.
Qed.
Lemma numeral_hex c : numeral 16 c -> is_hex c = true.
Proof. intros (d & E & _). unfold is_hex, digit_in in *. by destruct (hex_digit c). Qed.

(** A decimal starts with no zero, unless it is zero, and has digits only. *)
Lemma decimal_spec n : 0 <= n -> ∃ c s, radix_loop 10 (S (Z.to_nat (Z.log2 n))) n [] = c :: s /\
  Forall (λ c, 48 <= c <= 57) (c :: s) /\ numeral_value 10 (c :: s) 0 = n /\ (c = 48 -> n = 0 /\ s = []).
Proof.
  intros Hn. destruct (decide (n = 0)) as [->|Hp].
  { exists 48, []. split_and!; [reflexivity|by repeat constructor|done|done]. }
  destruct (digits_spec 10 n) as (ds & -> & Hd & Hv & Hne & Hh); [lia..|]. destruct ds as [|c s]; [done|]. exists c, s. split_and!; [done| |done|].
  - eapply Forall_impl; [exact Hd|]. cbn. intros x (d & Hx & ->). unfold digit_char. destruct (Z.ltb_spec d 10); lia.
  - intros ->. destruct Hh; [lia|done].
Qed.
Lemma drop_while_all p s : Forall (λ c, p c = true) s -> drop_while p s = [].
Proof. induction 1 as [|c s Hc _ IH]; [done|]. cbn. by rewrite Hc. Qed.
Lemma index_free c s : Forall (λ x, x ≠ c) s -> index_of [c] s = -1.
Proof. apply index_from_absent. Qed.

Lemma decimal_digit c : 48 <= c <= 57 -> digit c = true.
Proof. intros Hc. unfold digit. by rewrite (proj2 (Z.leb_le 48 c)), (proj2 (Z.leb_le c 57)) by lia. Qed.
Lemma decimal_numeral c : 48 <= c <= 57 -> numeral 10 c.
Proof.
  intros Hc. replace c with (digit_char (c - 48)); [apply digit_char_numeral; lia|]. unfold digit_char. destruct (Z.ltb_spec (c - 48) 10); lia.
Qed.

Lemma digit_cases c : 48 <= c <= 57 -> c ≠ 48 -> c = 49 \/ c = 50 \/ c = 51 \/ c = 52 \/ c = 53 \/ c = 54 \/ c = 55 \/ c = 56 \/ c = 57.
Proof. lia. Qed.

Lemma decimal_read (z n : Z) : n = Z.abs z -> (∀ k, k = Some n -> signed (z <? 0) k = YInt z) ->
  resolveInteger (YStr (sign_of (z <? 0) (radix_loop 10 (S (Z.to_nat (Z.log2 n))) n []))) = true /\
  constructInteger (YStr (sign_of (z <? 0) (radix_loop 10 (S (Z.to_nat (Z.log2 n))) n []))) = YInt z.
Proof.
  intros Hn Hz. destruct (decimal_spec n) as (c & s & -> & Hd & Hv & H0); [lia|].
  assert (Hb : Forall (λ c, c ≠ 95) (c :: s)) by (eapply Forall_impl; [exact Hd|]; cbn; lia).
  assert (Hc : 48 <= c <= 57) by by apply Forall_cons in Hd as [Hd _].
  destruct (decide (c = 48)) as [->|Hne].
  { destruct (H0 eq_refl) as [En ->]. assert (z = 0) as -> by lia. by split. }
  assert (HD : drop_while digit_or_bar (c :: s) = []).
  { apply drop_while_all. eapply Forall_impl; [exact Hd|]. cbn. intros x Hx. unfold digit_or_bar. by rewrite decimal_digit. }
  assert (Hr : resolveInteger (YStr (sign_of (z <? 0) (c :: s))) = digits_ok digit (take (length (c :: s) - length (drop_while digit_or_bar (c :: s))) (c :: s))).
  { unfold resolveInteger. rewrite sign_stripped by lia.
    destruct (digit_cases c) as [->|[->|[->|[->|[->|[->|[->|[->| ->]]]]]]]]; [lia|done|..]; cbv zeta; by rewrite HD. }
  rewrite HD in Hr.
  split.
  - rewrite Hr, Nat.sub_0_r, take_ge by done. apply digits_ok_all; [|done]. apply Forall_and. split; [|done]. eapply Forall_impl; [exact Hd|]. apply decimal_digit.
  - rewrite sign_read by (done || lia). rewrite index_free by (eapply Forall_impl; [exact Hd|]; cbn; lia). cbn [Z.ltb Z.compare].
    rewrite parse_radix_all by (done || (eapply Forall_impl; [exact Hd|]; apply decimal_numeral)). rewrite (Hz (Some (numeral_value 10 (c :: s) 0))) by by rewrite Hv.
    by destruct (digit_cases c) as [->|[->|[->|[->|[->|[->|[->|[->| ->]]]]]]]].
Qed.

(** The decimals of the language are those of the type. *)
Lemma dec_radix n : 0 <= n -> dec n = radix_loop 10 (S (Z.to_nat (Z.log2 n))) n [].
Proof.
  unfold dec. generalize (S (Z.to_nat (Z.log2 n))) as fuel. intros fuel Hn. generalize (@nil Z) as acc. revert n Hn.
  induction fuel as [|fuel IH]; intros n Hn acc; [done|]. cbn [dec_loop radix_loop]. destruct (Z.ltb_spec n 10).
  - unfold digit_char. by rewrite (proj2 (Z.ltb_lt n 10)).
  - rewrite IH by (apply Z.div_pos; lia). f_equal. f_equal. unfold digit_char. by rewrite (proj2 (Z.ltb_lt (n mod 10) 10)) by (apply Z.mod_pos_bound; lia).
Qed.
Lemma num_digits z : ∃ c s, num_to_string z = sign_of (z <? 0) (c :: s) /\ Forall (λ c, 48 <= c <= 57) (c :: s) /\
  resolveInteger (YStr (num_to_string z)) = true /\ constructInteger (YStr (num_to_string z)) = YInt z.
Proof.
  destruct (decimal_spec (Z.abs z)) as (c & s & E & Hd & _); [lia|]. exists c, s.
  assert (Es : num_to_string z = sign_of (z <? 0) (radix_loop 10 (S (Z.to_nat (Z.log2 (Z.abs z)))) (Z.abs z) [])).
  { unfold num_to_string. destruct (Z.ltb_spec z 0); cbn [sign_of].
    - rewrite dec_radix by lia. by rewrite Z.abs_neq by lia.
    - rewrite dec_radix by lia. by rewrite Z.abs_eq by lia. }
  rewrite Es. split; [by rewrite E|]. split; [done|]. apply decimal_read; [done|]. intros k ->. cbn. f_equal. destruct (Z.ltb_spec z 0); lia.
Qed.

Lemma one_of_head (l : list string) w : bool_decide (head w ∈ head <$> (js <$> l)) = false -> one_of l w = false.
Proof.
  intros H%bool_decide_eq_false. unfold one_of. apply bool_decide_eq_false. intros Hin. apply H, list_elem_of_fmap. by exists w.
Qed.
(** An integer is no null and no boolean, so it is read as an integer. *)
Lemma implicit_num z : implicit (num_to_string z) = Some int_type.
Proof.
  destruct (num_digits z) as (c & s & E & Hd & Hr & _). unfold implicit, implicitTypes. cbn [List.find resolve null_type bool_type int_type].
  rewrite Hr. apply Forall_cons in Hd as [Hd _].
  assert (Hh : head (num_to_string z) = Some 45 \/ ∃ c, 48 <= c <= 57 /\ head (num_to_string z) = Some c).
  { rewrite E. destruct (z <? 0); [by left|right; by exists c]. }
  assert (Hc : ∃ c, (c = 45 \/ c = 48 \/ c = 49 \/ c = 50 \/ c = 51 \/ c = 52 \/ c = 53 \/ c = 54 \/ c = 55 \/ c = 56 \/ c = 57) /\ head (num_to_string z) = Some c).
  { destruct Hh as [Hh|(d & Hd' & Hh)]; [by exists 45; split; [left|]|]. exists d. split; [lia|done]. }
  unfold resolveNull, resolveBoolean. destruct Hc as (d & Hc & Eh).
  rewrite !one_of_head; [done| |]; rewrite Eh; repeat (destruct Hc as [->|Hc]; [vm_compute; reflexivity|]); subst d; vm_compute; reflexivity.
Qed.

Lemma octal_resolved ds : ds ≠ [] -> Forall (λ c, is_octal c = true /\ c ≠ 95) ds ->
  match 48 :: ds with
  | [48] => true
  | 48 :: 98 :: s => digits_ok is_bit s
  | 48 :: 120 :: s => digits_ok is_hex s
  | 48 :: s => digits_ok is_octal s
  | _ => false
  end = true.
Proof.
  intros Hne H. assert (Hok : digits_ok is_octal ds = true) by by apply digits_ok_all. destruct ds as [|c ds]; [done|].
  apply Forall_cons in H as [[Hc _] _]. destruct c as [|c|c]; try done. do 7 (destruct c as [c|c|]; try done).
Qed.
Lemma octal_construct neg ds : ds ≠ [] -> Forall (λ c, is_octal c = true /\ c ≠ 95) ds ->
  constructInteger (YStr (sign_of neg (48 :: ds))) = signed neg (parse_radix 8 (48 :: ds)).
Proof.
  intros Hne H. rewrite sign_read; [|done|done|apply Forall_cons_2; [discriminate|]; eapply Forall_impl; [exact H|]; by intros ? []].
  destruct ds as [|c ds]; [done|]. apply Forall_cons in H as [[Hc _] _]. destruct c as [|c|c]; try done. do 7 (destruct c as [c|c|]; try done).
Qed.

(** C16. An integer survives YAML: what [represent] of the type of integers writes
    for a safe integer (up to 2^53 - 1 in absolute value), in any of its four
    styles, is recognised as an integer and is read as the same integer. *)
Theorem int_represent_read (t : int_style) (z : Z) : safe_integer z ->
  ∃ s, representInteger t z = Some s /\ resolveInteger (YStr s) = true /\ constructInteger (YStr s) = YInt z.
Proof.
  intros Hs. unfold representInteger. rewrite decide_True by done. eexists. split; [done|]. clear Hs.
  rewrite represent_signed. set (n := Z.abs z). assert (Hn : 0 <= n) by lia.
  assert (Hz : ∀ k, k = Some n -> signed (z <? 0) k = YInt z).
  { intros k ->. cbn. f_equal. destruct (Z.ltb_spec z 0); lia. }
  unfold style_digits. destruct t.
  - destruct (digits_spec 2 n) as (ds & -> & Hd & Hv & Hne & _); [lia..|].
    assert (Hb : Forall (λ c, is_bit c = true /\ c ≠ 95) ds).
    { apply (digit_char_ok 2); [|lia|done]. intros d Hr. assert (d = 0 \/ d = 1) as [-> | ->] by lia; done. }
    change (js "0b" ++ ds) with (48 :: 98 :: ds). split.
    + unfold resolveInteger. rewrite sign_stripped by done. by apply digits_ok_all.
    + rewrite sign_read; [|done|done|repeat (apply Forall_cons_2; [discriminate|]); eapply Forall_impl; [exact Hb|]; by intros ? []].
      apply Hz. rewrite parse_radix_all by (done || by apply digit_chars_numeral). by rewrite Hv.
  - destruct (digits_spec 8 n) as (ds & -> & Hd & Hv & Hne & _); [lia..|].
    assert (Hb : Forall (λ c, is_octal c = true /\ c ≠ 95) ds).
    { apply (digit_char_ok 8); [|lia|done]. intros d Hr. unfold is_octal, digit_char. rewrite (proj2 (Z.ltb_lt d 10)) by lia.
      by rewrite (proj2 (Z.leb_le 48 _)), (proj2 (Z.leb_le _ 55)) by lia. }
    change (js "0" ++ ds) with (48 :: ds). split.
    + unfold resolveInteger. rewrite sign_stripped by done. by apply octal_resolved.
    + rewrite octal_construct by done. apply Hz. change (48 :: ds) with ([48] ++ ds). 
      rewrite parse_radix_all; [|apply Forall_app; split; [|by apply digit_chars_numeral]|done].
      * rewrite numeral_value_app. change (numeral_value 8 [48] 0) with 0. by rewrite Hv.
      * apply Forall_singleton. by exists 0.
  - by apply decimal_read.
  - destruct (digits_spec 16 n) as (ds & -> & Hd & Hv & Hne & _); [lia..|].
    destruct (upper_numerals ds Hd) as (Hu & Hb & Hw). set (us := upper_ascii ds) in *.
    assert (Hus : us ≠ []) by (unfold us; by destruct ds).
    change (js "0x" ++ us) with (48 :: 120 :: us). split.
    + unfold resolveInteger. rewrite sign_stripped by done. apply digits_ok_all; [|done]. apply Forall_and. split; [|done].
      eapply Forall_impl; [exact Hu|]. apply numeral_hex.
    + rewrite sign_read by (done || (repeat (apply Forall_cons_2; [discriminate|]); done)). apply Hz. cbn [drop_0x]. rewrite parse_radix_all by done. by rewrite Hw, Hv.
Qed.

Lemma int_represent_read_witness :
  representInteger Decimal (- MAX_SAFE_INTEGER) = Some (js "-9007199254740991") /\
  ∃ s, representInteger Decimal (- MAX_SAFE_INTEGER) = Some s /\ resolveInteger (YStr s) = true /\
    constructInteger (YStr s) = YInt (- MAX_SAFE_INTEGER).
Proof. split; [reflexivity|]. apply (int_represent_read Decimal (- MAX_SAFE_INTEGER)). vm_compute. discriminate. Defined.

End YamlTypesOk.
