(* ===== verification/YamlLoad.v ===== *)
(** The loader of js-yaml
    (client/docs/swagger-ui/swagger-ui-bundle.js, lines 26470-26842, and the mark
    of its errors, 26843-26868): [safeLoad], with which the page reads the text of
    a specification, JSON or YAML.

    The state of the loader is a record with the fields that its functions read
    and write; the text and the options do not change. Warnings are left out:
    [safeLoad] is called without a handler for them. An anchor on a collection
    stands for a copy of the collection; an alias inside the collection that it
    names, which makes the document cyclic, is the error [cyclic] of the model. *)

From stdpp Require Import base list list_numbers numbers strings gmap.
From Stdlib Require Import ZArith Lia.
From S2P Require Import Prelude Uri Json YamlTypes.

Module YamlLoad.
Import Json YamlTypes.

(** ** Characters *)

Definition is_EOL (c : Z) : bool := (c =? 10) || (c =? 13).
Definition is_WHITE_SPACE (c : Z) : bool := (c =? 9) || (c =? 32).
Definition is_WS_OR_EOL (c : Z) : bool := is_WHITE_SPACE c || is_EOL c.
Definition is_FLOW_INDICATOR (c : Z) : bool := bool_decide (c ∈ [44; 91; 93; 123; 125]).
Definition fromHexCode (c : Z) : option Z := hex_digit c.

(** The character an escape in double quotes stands for. *)
Definition simpleEscapeSequence (c : Z) : option Z :=
  match List.find (λ p, p.1 =? c)
    [(48, 0); (97, 7); (98, 8); (116, 9); (9, 9); (110, 10); (118, 11); (102, 12); (114, 13); (101, 27); (32, 32); (34, 34); (47, 47);
     (92, 92); (78, 133); (95, 160); (76, 8232); (80, 8233)] with
  | Some p => Some p.2
  | None => None
  end.
Definition charFromCodepoint (c : Z) : list Z :=
  if c <=? 65535 then [c mod 65536] else [(55296 + Z.shiftr (c - 65536) 10) mod 65536; 56320 + Z.land (c - 65536) 1023].

Definition lead (c : Z) : bool := (55296 <=? c) && (c <=? 56319).
Definition trail (c : Z) : bool := (56320 <=? c) && (c <=? 57343).
Definition control (c : Z) : bool :=
  (c <=? 8) || (c =? 11) || (c =? 12) || ((14 <=? c) && (c <=? 31)) || ((127 <=? c) && (c <=? 132)) || ((134 <=? c) && (c <=? 159))
  || (c =? 65534) || (c =? 65535).
(** [PATTERN_NON_PRINTABLE]; [after] tells whether a leading surrogate is before. *)
Fixpoint non_printable (after : bool) (s : list Z) : bool :=
  match s with
  | c :: s' =>
      control c || (lead c && negb (match s' with d :: _ => trail d | [] => false end)) || (trail c && negb after)
      || non_printable (lead c) s'
  | [] => false
  end.

Definition lower_letter (c : Z) : bool := let c := Z.lor c 32 in (97 <=? c) && (c <=? 122).
(** [PATTERN_TAG_HANDLE] *)
Definition tag_handle (s : list Z) : bool :=
  one_of ["!"; "!!"] s
  || match s with
     | 33 :: s => match reverse s with 33 :: (_ :: _) as n => forallb (λ c, lower_letter c || (c =? 45)) n | _ => false end
     | _ => false
     end.
Definition tag_char (c : Z) : bool := digit c || lower_letter c || bool_decide (c ∈ js "-#;/?:@&=+$,_.!~*'()[]").
Fixpoint tag_chars (s : list Z) : bool :=
  match s with
  | 37 :: a :: b :: s' => is_hex a && is_hex b && tag_chars s'
  | c :: s' => tag_char c && tag_chars s'
  | [] => true
  end.
(** [PATTERN_TAG_URI] *)
Definition tag_uri (s : list Z) : bool :=
  match s with c :: s => negb (is_FLOW_INDICATOR c) && tag_chars s | [] => false end.

(** ** Errors *)

(** The line around a position, cut to [t] characters. *)
Definition line_end (c : Z) : bool := bool_decide (c ∈ [0; 13; 10; 8232; 8233]).
Fixpoint snippet_back (fuel : nat) (buffer : list Z) (o position : Z) : Z * bool :=
  match fuel with
  | O => (o, false)
  | S fuel =>
      if (0 <? o) && negb (line_end (nth (Z.to_nat (o - 1)) buffer 0)) then
        let o := o - 1 in
        if 73 <? 2 * (position - o) then (o + 5, true) else snippet_back fuel buffer o position
      else (o, false)
  end.
Fixpoint snippet_forward (fuel : nat) (buffer : list Z) (a position : Z) : Z * bool :=
  match fuel with
  | O => (a, false)
  | S fuel =>
      if (a <? len buffer) && negb (line_end (nth (Z.to_nat a) buffer 0)) then
        let a := a + 1 in
        if 73 <? 2 * (a - position) then (a - 5, true) else snippet_forward fuel buffer a position
      else (a, false)
  end.
Definition repeat_ (c n : Z) : list Z := replicate (Z.to_nat n) c.
(** [s.slice(a, b)] for positions that are not negative *)
Definition slice (s : list Z) (a b : Z) : list Z := take (Z.to_nat (b - a)) (drop (Z.to_nat a) s).
Definition getSnippet (buffer : list Z) (position : Z) : list Z :=
  let '(o, cut) := snippet_back 75 buffer position position in
  let n := if cut then js " ... " else [] in
  let '(a, cut) := snippet_forward 75 buffer position position in
  let i := if cut then js " ... " else [] in
  repeat_ 32 4 ++ n ++ slice buffer o a ++ i ++ [10] ++ repeat_ 32 (4 + position - o + len n) ++ js "^".
(** The message of an error at a position. *)
Definition error_at (reason : string) (name buffer : list Z) (position line column : Z) : exn :=
  NamedError (js "YAMLException") (js reason ++ name ++ js " at line " ++ dec (line + 1) ++ js ", column " ++ dec (column + 1) ++ [58; 10]
    ++ getSnippet buffer position).
Definition plain_error (reason : string) : exn := NamedError (js "YAMLException") (js reason).
Definition cyclic : exn := PlainError (js "cyclic document").

(** ** The state *)

Inductive context := FLOW_IN | FLOW_OUT | BLOCK_IN | BLOCK_OUT.
#[export] Instance context_eq_dec : EqDecision context.
Proof. solve_decision. Defined.

(** [anchorMap] has [None] for a collection that is not complete. *)
Record state := State {
  position : Z;
  line : Z;
  lineStart : Z;
  lineIndent : Z;
  version : option (list Z);
  tagMap : list (list Z * list Z);
  anchorMap : list (list Z * option yval);
  ntag : option (list Z);
  anchor : option (list Z);
  nkind : option kind;
  nresult : yval;
  documents : list yval }.

Definition with_place (s : state) (p l ls li : Z) : state :=
  State p l ls li (version s) (tagMap s) (anchorMap s) (ntag s) (anchor s) (nkind s) (nresult s) (documents s).
Definition with_position (s : state) (p : Z) : state := with_place s p (line s) (lineStart s) (lineIndent s).
Definition with_indent (s : state) (i : Z) : state := with_place s (position s) (line s) (lineStart s) i.
Definition with_node (s : state) (t a : option (list Z)) (k : option kind) (r : yval) : state :=
  State (position s) (line s) (lineStart s) (lineIndent s) (version s) (tagMap s) (anchorMap s) t a k r (documents s).
Definition with_tag (s : state) (t : option (list Z)) : state := with_node s t (anchor s) (nkind s) (nresult s).
Definition with_anchor (s : state) (a : option (list Z)) : state := with_node s (ntag s) a (nkind s) (nresult s).
Definition with_result (s : state) (r : yval) : state := with_node s (ntag s) (anchor s) (nkind s) r.
Definition with_scalar (s : state) (r : list Z) : state := with_node s (ntag s) (anchor s) (Some Scalar) (YStr r).
Definition with_anchors (s : state) (m : list (list Z * option yval)) : state :=
  State (position s) (line s) (lineStart s) (lineIndent s) (version s) (tagMap s) m (ntag s) (anchor s) (nkind s) (nresult s) (documents s).
Definition with_directives (s : state) (v : option (list Z)) (m : list (list Z * list Z)) : state :=
  State (position s) (line s) (lineStart s) (lineIndent s) v m (anchorMap s) (ntag s) (anchor s) (nkind s) (nresult s) (documents s).
Definition with_document (s : state) (d : yval) : state :=
  State (position s) (line s) (lineStart s) (lineIndent s) (version s) (tagMap s) (anchorMap s) (ntag s) (anchor s) (nkind s) (nresult s) (documents s ++ [d]).

Definition initial : state := State 0 0 0 0 None [] [] None None None YNull [].

(** [o[k] = v] and own properties, for maps of the loader. *)
Definition put {A} (o : list (list Z * A)) (k : list Z) (v : A) : list (list Z * A) :=
  if decide (k = js "__proto__") then o else obj_set o k v.
Definition has {A} (o : list (list Z * A)) (k : list Z) : bool := match obj_get o k with Some _ => true | None => false end.

Section loader.
(** [String] of a date, of a fractional number and of binary data, where they are
    the key of a mapping. *)
Variable leaf_string : yval -> list Z.
(** The text, with the final NUL, and its length without it. *)
Variables (input : list Z) (input_length : Z).

(** [e.input.charCodeAt(i)]; -1 is NaN. *)
Definition char_at (i : Z) : Z := if i <? 0 then -1 else nth (Z.to_nat i) input (-1).
Definition at_ (s : state) (k : Z) : Z := char_at (position s + k).
Definition next (s : state) (k : Z) : state := with_position s (position s + k).
Definition fail {A} (s : state) (reason : string) : result A :=
  Throw (error_at reason [] input (position s) (line s) (position s - lineStart s)).
Definition fail_named {A} (s : state) (reason : string) (name : list Z) : result A :=
  Throw (error_at reason name input (position s) (line s) (position s - lineStart s)).

(** The text from the position on, up to the first character without [p]; the
    final NUL stops every loop of this kind. *)
Fixpoint prefix_while (p : Z -> bool) (s : list Z) : list Z :=
  match s with c :: s => if p c then c :: prefix_while p s else [] | [] => [] end.
Definition rest (s : state) : list Z := drop (Z.to_nat (position s)) input.
Definition skip_while (p : Z -> bool) (s : state) : state := next s (len (prefix_while p (rest s))).

(** [captureSegment]: the text between two positions, for [result]. *)
Definition captureSegment (s : state) (t n : Z) (checkJson : bool) : result (list Z) :=
  if t <? n then
    let u := slice input t n in
    if checkJson then if forallb (λ a, (a =? 9) || (32 <=? a)) u then Ok u else fail s "expected valid JSON character"
    else if non_printable false u then fail s "the stream contains non-printable characters" else Ok u
  else Ok [].

(** ** Mappings *)

Fixpoint key_string (v : yval) : list Z :=
  match v with
  | YNull => js "null"
  | YBool b => if b then js "true" else js "false"
  | YInt z => num_to_string z
  | YStr s => s
  | YArr l => join [44] ((λ v, match v with YNull => [] | _ => key_string v end) <$> l)
  | YObj _ => js "[object Object]"
  | v => leaf_string v
  end.
(** [Object.keys(v)] with their values *)
Definition members (v : yval) : list (list Z * yval) :=
  match v with
  | YArr l => imap (λ i v, (dec (Z.of_nat i), v)) l
  | YBin l => imap (λ i v, (dec (Z.of_nat i), YInt v)) l
  | YObj o => o
  | _ => []
  end.
Definition is_object (v : yval) : bool := match v with YArr _ | YObj _ | YDate _ | YBin _ => true | _ => false end.

Definition merge_member (to : list (list Z * yval) * list (list Z)) (kv : list Z * yval) :=
  let '(t, o) := to in if has t kv.1 then (t, o) else (put t kv.1 kv.2, kv.1 :: o).
Definition mergeMappings (s : state) (to : list (list Z * yval) * list (list Z)) (n : yval) : result (list (list Z * yval) * list (list Z)) :=
  if is_object n then Ok (foldl merge_member to (members n))
  else fail s "cannot merge mappings; the provided source object is unacceptable".

(** The pair of the key [o] with the tag [r]; [a] and [u] are the line and the
    position of the key. [n] has the keys that a merge has set. *)
Definition storeMappingPair (s : state) (tn : list (list Z * yval) * list (list Z)) (r : option (list Z)) (o i : yval) (at_key : option (Z * Z)) :
    result (list (list Z * yval) * list (list Z)) :=
  let o := key_string o in
  if bool_decide (r = Some (yaml "merge")) then
    match i with YArr l => foldR (mergeMappings s) tn l | _ => mergeMappings s tn i end
  else
    let '(t, n) := tn in
    if negb (bool_decide (o ∈ n)) && has t o then
      let s := match at_key with
               | Some (a, u) => with_place s (if u =? 0 then position s else u) (if a =? 0 then line s else a) (lineStart s) (lineIndent s)
               | None => s
               end in
      fail s "duplicated mapping key"
    else Ok (put t o i, List.filter (λ k, negb (bool_decide (k = o))) n).

(** ** White space *)

Definition readLineBreak (s : state) : result state :=
  let c := at_ s 0 in
  if c =? 10 then let p := position s + 1 in Ok (with_place s p (line s + 1) p (lineIndent s))
  else if c =? 13 then let p := position s + (if at_ s 1 =? 10 then 2 else 1) in Ok (with_place s p (line s + 1) p (lineIndent s))
  else fail s "a line break is expected".

(** The spaces at the start of a line. *)
Definition read_indent (s : state) : state :=
  let i := len (prefix_while (Z.eqb 32) (rest s)) in with_indent (next s i) i.
Definition not_eol (c : Z) : bool := negb (is_EOL c || (c =? 0)).

(** White space, line breaks and, if [t], comments; the number of line breaks. *)
Fixpoint skip_loop (fuel : nat) (t : bool) (s : state) (r : Z) : result (state * Z) :=
  match fuel with
  | O => Ok (s, r)
  | S fuel =>
      if at_ s 0 =? 0 then Ok (s, r) else
      let s := skip_while is_WHITE_SPACE s in
      let s := if t && (at_ s 0 =? 35) then skip_while not_eol s else s in
      if is_EOL (at_ s 0) then let! s := readLineBreak s in skip_loop fuel t (read_indent s) (r + 1) else Ok (s, r)
  end.
Definition skipSeparationSpace (s : state) (t : bool) : result (state * Z) := skip_loop (S (length input)) t s 0.

(** Three equal characters [-] or [.] and then white space or the end. *)
Definition testDocumentSeparator (s : state) : bool :=
  let t := at_ s 0 in
  ((t =? 45) || (t =? 46)) && (t =? at_ s 1) && (t =? at_ s 2) && ((at_ s 3 =? 0) || is_WS_OR_EOL (at_ s 3)).
Definition at_separator (s : state) : bool := (position s =? lineStart s) && testDocumentSeparator s.
Definition folded_lines (t : Z) : list Z := if t =? 1 then [32] else repeat_ 10 (t - 1).

(** ** Tags, anchors and aliases *)

(** The shorthand of a tag from [t] on, with the handle [n]: the handle and where
    the suffix starts. *)
Fixpoint tag_shorthand (fuel : nat) (s : state) (named : bool) (n : list Z) (t : Z) : result (state * list Z * Z) :=
  let o := at_ s 0 in
  match fuel with
  | O => Ok (s, n, t)
  | S fuel =>
      if (o =? 0) || is_WS_OR_EOL o then Ok (s, n, t)
      else if o =? 33 then
        if named then fail s "tag suffix cannot contain exclamation marks" else
        let n := slice input (t - 1) (position s + 1) in
        if tag_handle n then tag_shorthand fuel (next s 1) true n (position s + 1)
        else fail s "named tag handle cannot contain such characters"
      else tag_shorthand fuel (next s 1) named n t
  end.
Definition check_tag (s : state) (r : list Z) : result state :=
  match r with
  | [] => Ok s
  | _ => if tag_uri r then Ok s else fail_named s "tag name cannot contain such characters: " r
  end.

Definition readTagProperty (s : state) : result (state * bool) :=
  if negb (at_ s 0 =? 33) then Ok (s, false) else
  match ntag s with
  | Some _ => fail s "duplication of a tag property"
  | None =>
      let s := next s 1 in
      if at_ s 0 =? 60 then
        let s := next s 1 in
        let t := position s in
        let s := skip_while (λ c, negb ((c =? 0) || (c =? 62))) (next s 1) in
        if negb (position s <? input_length) then fail s "unexpected end of the stream within a verbatim tag" else
        let r := slice input t (position s) in
        let! s := check_tag (next s 1) r in
        Ok (with_tag s (Some r), true)
      else
        let '(named, n, s) := if at_ s 0 =? 33 then (true, js "!!", next s 1) else (false, js "!", s) in
        let! x := tag_shorthand (length input) s named n (position s) in
        let '(s, n, t) := (x : state * list Z * Z) in
        let r := slice input t (position s) in
        if existsb is_FLOW_INDICATOR r then fail s "tag suffix cannot contain flow indicator characters" else
        let! s := check_tag s r in
        match obj_get (tagMap s) n with
        | Some p => Ok (with_tag s (Some (p ++ r)), true)
        | None =>
            if decide (n = js "!") then Ok (with_tag s (Some (33 :: r)), true)
            else if decide (n = js "!!") then Ok (with_tag s (Some (js "tag:yaml.org,2002:" ++ r)), true)
            else fail_named s "undeclared tag handle " ([34] ++ n ++ [34])
        end
  end.

Definition name_char (c : Z) : bool := negb ((c =? 0) || is_WS_OR_EOL c || is_FLOW_INDICATOR c).
Definition readAnchorProperty (s : state) : result (state * bool) :=
  if negb (at_ s 0 =? 38) then Ok (s, false) else
  match anchor s with
  | Some _ => fail s "duplication of an anchor property"
  | None =>
      let s := next s 1 in
      let n := prefix_while name_char (rest s) in
      let s := next s (len n) in
      if decide (n = []) then fail s "name of an anchor node must contain at least one character" else Ok (with_anchor s (Some n), true)
  end.

(** [*name]: the node the anchor stands for. *)
Definition readAlias (s : state) : result (state * bool) :=
  if negb (at_ s 0 =? 42) then Ok (s, false) else
  let s := next s 1 in
  let n := prefix_while name_char (rest s) in
  let s := next s (len n) in
  if decide (n = []) then fail s "name of an alias node must contain at least one character" else
  match obj_get (anchorMap s) n with
  | None => fail_named s "unidentified alias " ([34] ++ n ++ [34])
  | Some None => Throw cyclic
  | Some (Some v) => let! x := skipSeparationSpace (with_result s v) true in Ok (x.1, true)
  end.

(** [null !== e.anchor && (e.anchorMap[e.anchor] = v)] *)
Definition set_anchor (s : state) (a : option (list Z)) (v : option yval) : state :=
  match a with Some a => with_anchors s (put (anchorMap s) a v) | None => s end.

(** ** Scalars *)

(** The loop over a plain scalar: [o] and [i] are the start and the end of the
    piece that is not captured yet, [a] tells that it continues on the line
    after [u]. *)
Fixpoint plain_loop (fuel : nat) (s : state) (t : Z) (n : bool) (o i : Z) (a : bool) (u : Z) (res : list Z) : result (state * list Z * Z * Z) :=
  match fuel with
  | O => Ok (s, res, o, i)
  | S fuel =>
      let c := at_ s 0 in
      if c =? 0 then Ok (s, res, o, i) else
      let continue_ (_ : unit) :=
        let! x := if a then let! p := captureSegment s o i false in Ok (res ++ p ++ folded_lines (line s - u), position s, position s)
                  else Ok (res, o, i) in
        let '(res, o, i) := (x : list Z * Z * Z) in
        let i := if is_WHITE_SPACE c then i else position s + 1 in
        plain_loop fuel (next s 1) t n o i false u res in
      if c =? 58 then if is_WS_OR_EOL (at_ s 1) || n && is_FLOW_INDICATOR (at_ s 1) then Ok (s, res, o, i) else continue_ tt
      else if c =? 35 then if is_WS_OR_EOL (at_ s (-1)) then Ok (s, res, o, i) else continue_ tt
      else if at_separator s || n && is_FLOW_INDICATOR c then Ok (s, res, o, i)
      else if is_EOL c then
        let! x := skipSeparationSpace s false in
        let s' := x.1 in
        if t <=? lineIndent s' then plain_loop fuel s' t n o i true (line s) res
        else Ok (with_place s i (line s) (lineStart s) (lineIndent s), res, o, i)
      else continue_ tt
  end.

(** The characters a plain scalar does not start with. *)
Definition not_plain (c : Z) : bool :=
  is_WS_OR_EOL c || is_FLOW_INDICATOR c || bool_decide (c ∈ js "#&*!|>'%@`" ++ [34]).
Definition readPlainScalar (s : state) (t : Z) (n : bool) : result (state * bool) :=
  let c := at_ s 0 in
  if not_plain c then Ok (s, false)
  else if ((c =? 63) || (c =? 45)) && (is_WS_OR_EOL (at_ s 1) || n && is_FLOW_INDICATOR (at_ s 1)) then Ok (s, false)
  else
    let! x := plain_loop (S (length input)) s t n (position s) (position s) false 0 [] in
    let '(s, res, o, i) := (x : state * list Z * Z * Z) in
    let! p := captureSegment s o i false in
    match res ++ p with
    | [] => Ok (s, false)
    | r => Ok (with_scalar s r, true)
    end.

(** In single quotes: [r] and [o] are the start and the end of the piece that is
    not captured yet. *)
Fixpoint single_loop (fuel : nat) (s : state) (r o : Z) (res : list Z) : result (state * bool) :=
  let n := at_ s 0 in
  match fuel with
  | O => fail s "unexpected end of the stream within a single quoted scalar"
  | S fuel =>
      if n =? 0 then fail s "unexpected end of the stream within a single quoted scalar"
      else if n =? 39 then
        let! p := captureSegment s r (position s) true in
        let s := next s 1 in
        if negb (at_ s 0 =? 39) then Ok (with_scalar s (res ++ p), true)
        else single_loop fuel (next s 1) (position s) (position s + 1) (res ++ p)
      else if is_EOL n then
        let! p := captureSegment s r o true in
        let! x := skipSeparationSpace s false in
        let '(s, k) := (x : state * Z) in
        single_loop fuel s (position s) (position s) (res ++ p ++ folded_lines k)
      else if at_separator s then fail s "unexpected end of the document within a single quoted scalar"
      else single_loop fuel (next s 1) r (position s + 1) res
  end.
Definition readSingleQuotedScalar (s : state) : result (state * bool) :=
  if negb (at_ s 0 =? 39) then Ok (s, false)
  else let s := next s 1 in single_loop (length input) s (position s) (position s) [].

(** The number of hexadecimal digits of the escapes [\x], [\u] and [\U]. *)
Definition escapedHexLen (s : Z) : Z := if s =? 120 then 2 else if s =? 117 then 4 else if s =? 85 then 8 else 0.
Fixpoint read_hex (k : nat) (s : state) (i : Z) : result (state * Z) :=
  match k with
  | O => Ok (s, i)
  | S k =>
      let s := next s 1 in
      match fromHexCode (at_ s 0) with
      | Some a => read_hex k s (Int32.shl i 4 + a)
      | None => fail s "expected hexadecimal character"
      end
  end.
Fixpoint double_loop (fuel : nat) (s : state) (n r : Z) (res : list Z) : result (state * bool) :=
  let u := at_ s 0 in
  match fuel with
  | O => fail s "unexpected end of the stream within a double quoted scalar"
  | S fuel =>
      if u =? 0 then fail s "unexpected end of the stream within a double quoted scalar"
      else if u =? 34 then let! p := captureSegment s n (position s) true in Ok (with_scalar (next s 1) (res ++ p), true)
      else if u =? 92 then
        let! p := captureSegment s n (position s) true in
        let s := next s 1 in
        let u := at_ s 0 in
        if is_EOL u then let! x := skipSeparationSpace s false in double_loop fuel x.1 (position x.1) (position x.1) (res ++ p)
        else
          match simpleEscapeSequence u with
          | Some c => let s := next s 1 in double_loop fuel s (position s) (position s) (res ++ p ++ [c])
          | None =>
              if 0 <? escapedHexLen u then
                let! x := read_hex (Z.to_nat (escapedHexLen u)) s 0 in
                let s := next x.1 1 in
                double_loop fuel s (position s) (position s) (res ++ p ++ charFromCodepoint x.2)
              else fail s "unknown escape sequence"
          end
      else if is_EOL u then
        let! p := captureSegment s n r true in
        let! x := skipSeparationSpace s false in
        let '(s, k) := (x : state * Z) in
        double_loop fuel s (position s) (position s) (res ++ p ++ folded_lines k)
      else if at_separator s then fail s "unexpected end of the document within a double quoted scalar"
      else double_loop fuel (next s 1) n (position s + 1) res
  end.
Definition readDoubleQuotedScalar (s : state) : result (state * bool) :=
  if negb (at_ s 0 =? 34) then Ok (s, false)
  else let s := next s 1 in double_loop (length input) s (position s) (position s) [].

(** Block scalars: the indicators after [|] or [>]. [c] tells that the width of
    the indentation is given, [f] is that indentation. *)
Inductive chomping := CLIP | STRIP | KEEP.
#[export] Instance chomping_eq_dec : EqDecision chomping.
Proof. solve_decision. Defined.
Fixpoint block_header (fuel : nat) (s : state) (t : Z) (ch : chomping) (c : bool) (f : Z) : result (state * chomping * bool * Z) :=
  match fuel with
  | O => Ok (s, ch, c, f)
  | S fuel =>
      let s := next s 1 in
      let a := at_ s 0 in
      if is_sign a then
        if decide (ch = CLIP) then block_header fuel s t (if a =? 43 then KEEP else STRIP) c f
        else fail s "repeat of a chomping mode identifier"
      else if digit a then
        if a =? 48 then fail s "bad explicit indentation width of a block scalar; it cannot be less than one"
        else if c then fail s "repeat of an indentation width identifier"
        else block_header fuel s t ch true (t + (a - 48) - 1)
      else Ok (s, ch, c, f)
  end.

(** At most [n] spaces; all of them without [n]. *)
Definition read_block_indent (s : state) (limit : option Z) : state :=
  let i := len (prefix_while (Z.eqb 32) (rest s)) in
  let i := match limit with Some n => Z.min i (Z.max n 0) | None => i end in
  with_indent (next s i) i.
Definition newlines (didReadContent : bool) (p : Z) : list Z := repeat_ 10 (if didReadContent then 1 + p else p).
(** The lines of a block scalar: [l] tells that content was read, [p] counts the
    empty lines before, [m] tells that the last line of a folded scalar was
    indented more. *)
Fixpoint block_lines (fuel : nat) (s : state) (folded : bool) (ch : chomping) (c : bool) (f : Z) (l : bool) (p : Z) (m : bool) (res : list Z) :
    result (state * list Z) :=
  match fuel with
  | O => Ok (s, res)
  | S fuel =>
      if at_ s 0 =? 0 then Ok (s, res) else
      let! s := readLineBreak s in
      let s := read_block_indent s (if c then Some f else None) in
      let f := if negb c && (f <? lineIndent s) then lineIndent s else f in
      let a := at_ s 0 in
      if is_EOL a then block_lines fuel s folded ch c f l (p + 1) m res
      else if lineIndent s <? f then
        Ok (s, res ++ match ch with KEEP => newlines l p | CLIP => if l then [10] else [] | STRIP => [] end)
      else
        let '(m, z) := if folded then
                         if is_WHITE_SPACE a then (true, newlines l p)
                         else if m then (false, repeat_ 10 (p + 1))
                         else if p =? 0 then (m, if l then [32] else [])
                         else (m, repeat_ 10 p)
                       else (m, newlines l p) in
        let n := position s in
        let s := skip_while not_eol s in
        let! x := captureSegment s n (position s) false in
        block_lines fuel s folded ch true f true 0 m (res ++ z ++ x)
  end.
Definition readBlockScalar (s : state) (t : Z) : result (state * bool) :=
  let a := at_ s 0 in
  if negb ((a =? 124) || (a =? 62)) then Ok (s, false) else
  let! x := block_header (length input) s t CLIP false t in
  let '(s, ch, c, f) := (x : state * chomping * bool * Z) in
  let s := if is_WHITE_SPACE (at_ s 0) then
             let s := skip_while is_WHITE_SPACE s in if at_ s 0 =? 35 then skip_while not_eol s else s
           else s in
  let! x := block_lines (S (length input)) s (a =? 62) ch c f false 0 false [] in
  Ok (with_scalar x.1 x.2, true).

(** ** Nodes *)

(** [T] of [composeNode] after line breaks: 1 when the line is indented more than
    the parent, 0 when as much, -1 when less. *)
Definition indent_status (s : state) (parent : Z) : Z :=
  if parent <? lineIndent s then 1 else if lineIndent s =? parent then 0 else -1.

Definition block_context (n : context) : bool := match n with BLOCK_OUT | BLOCK_IN => true | _ => false end.

(** The properties of a node: [M] tells that a line break was passed, [m] that
    block collections are allowed. *)
Fixpoint node_properties (fuel : nat) (s : state) (t : Z) (a : bool) (T : Z) (M m : bool) : result (state * Z * bool * bool) :=
  match fuel with
  | O => Ok (s, T, M, m)
  | S fuel =>
      let! x := readTagProperty s in
      let! x := if x.2 then Ok x else readAnchorProperty x.1 in
      if negb x.2 then Ok (x.1, T, M, m) else
      let! y := skipSeparationSpace x.1 true in
      let '(s, k) := (y : state * Z) in
      if k =? 0 then node_properties fuel s t a T M false
      else node_properties fuel s t a (indent_status s t) true a
  end.

(** The value of a node that has a tag. A tag [!<?>] is taken for the tag of a
    plain scalar, as the code does; a node with this tag that is no scalar is
    left as it is. *)
Definition resolve_tag (s : state) : result state :=
  match ntag s with
  | None => Ok s
  | Some t =>
      if decide (t = js "!") then Ok s
      else if decide (t = js "?") then
        match List.find (λ y, resolve y (nresult s)) implicitTypes with
        | Some b =>
            let v := construct b (nresult s) in
            let s := with_node s (Some (tag b)) (anchor s) (nkind s) v in
            Ok (set_anchor s (anchor s) (Some v))
        | None => Ok s
        end
      else
        match find_type (nkind s) t with
        | None => fail_named s "unknown tag !<" (t ++ [62])
        | Some b =>
            if (match nresult s with YNull => false | _ => true end) && negb (bool_decide (nkind s = Some (tkind b))) then
              fail_named s "unacceptable node kind for !<" (t ++ js "> tag")
            else if resolve b (nresult s) then
              let v := construct b (nresult s) in
              Ok (set_anchor (with_result s v) (anchor s) (Some v))
            else fail_named s "cannot resolve a node with !<" (t ++ js "> explicit tag")
        end
  end.

(** The mapping that is read: its pairs so far with the keys a merge has set, the
    tag and the value of the key, the value, whether the key is explicit, and
    whether the mapping is one. *)
Record mapping := Mapping_ {
  pairs : list (list Z * yval) * list (list Z);
  keyTag : option (list Z);
  keyNode : yval;
  valueNode : yval;
  atExplicitKey : bool;
  detected : bool }.
Definition no_key (f : list (list Z * yval) * list (list Z)) (g y : bool) : mapping := Mapping_ f None YNull YNull g y.

(** Stores an explicit key without a value. *)
Definition store_explicit (s : state) (m : mapping) : result (list (list Z * yval) * list (list Z)) :=
  if atExplicitKey m then storeMappingPair s (pairs m) (keyTag m) (keyNode m) YNull None else Ok (pairs m).
Definition complete (s : state) (t a : option (list Z)) (k : kind) (v : yval) : state :=
  set_anchor (with_node s t a (Some k) v) a (Some v).
Definition out_of_fuel : exn := PlainError (js "out of fuel").

(** A scalar or an alias, and the anchor before it. *)
Definition readScalar (s : state) (n : context) (f : Z) : result (state * bool) :=
  let! x := if block_context n then readBlockScalar s f else Ok (s, false) in
  let! x := if x.2 then Ok x else readSingleQuotedScalar x.1 in
  let! x := if x.2 then Ok x else readDoubleQuotedScalar x.1 in
  let! x :=
    if x.2 then Ok x else
    let! x := readAlias x.1 in
    if x.2 then
      match ntag x.1, anchor x.1 with
      | None, None => Ok x
      | _, _ => fail x.1 "alias node should not have any properties"
      end
    else
      let! x := readPlainScalar x.1 f (bool_decide (n = FLOW_IN)) in
      if x.2 then Ok (match ntag x.1 with None => with_tag x.1 (Some (js "?")) | Some _ => x.1 end, true) else Ok x in
  Ok (set_anchor x.1 (anchor x.1) (Some (nresult x.1)), x.2).

(** The steps of [composeNode] and of the collections; the functions they call
    are arguments. *)
Section steps.
Variable compose : state -> Z -> context -> bool -> bool -> result (state * bool).
Variables (sequence : state -> Z -> result (state * bool)) (block_mapping : state -> Z -> Z -> result (state * bool)).
Variable flow_collection : state -> Z -> result (state * bool).

(** The content of a node that is indented more than its parent. *)
Definition readContent (s : state) (n : context) (m : bool) (f k : Z) : result (state * bool) :=
  let! x := if m then sequence s k else Ok (s, false) in
  let! x := if x.2 then Ok x else if m then block_mapping x.1 k f else Ok x in
  let! x := if x.2 then Ok x else flow_collection x.1 f in
  if x.2 then Ok x else readScalar x.1 n f.

(** A node below the indentation [t], in the context [n]; [o] allows white space
    before it, [i] allows a block collection on the line of the parent. *)
Definition compose_step (s : state) (t : Z) (n : context) (o i : bool) : result (state * bool) :=
  let s := with_node s None None None YNull in
  let a := block_context n in
  let! x := if o then skipSeparationSpace s true else Ok (s, 0) in
  let '(s, k) := (x : state * Z) in
  let M := negb (k =? 0) in
  let T := if M then indent_status s t else 1 in
  let! x := if T =? 1 then node_properties (length input) s t a T M a else Ok (s, T, M, a) in
  let '(s, T, M, m) := (x : state * Z * bool * bool) in
  let m := m && (M || i) in
  let! x :=
    if (T =? 1) || bool_decide (n = BLOCK_OUT) then
      let k := position s - lineStart s in
      if T =? 1 then readContent s n m (if a then t + 1 else t) k
      else if T =? 0 then if m then sequence s k else Ok (s, false)
      else Ok (s, false)
    else Ok (s, false) in
  let! s := resolve_tag x.1 in
  Ok (s, match ntag s, anchor s with None, None => x.2 | _, _ => true end).

(** The entries of a block sequence; [u] tells that there was one. *)
Definition sequence_step (again : state -> list yval -> bool -> result (state * list yval * bool)) (s : state) (t : Z) (a : list yval) (u : bool) :
    result (state * list yval * bool) :=
  if negb ((at_ s 0 =? 45) && is_WS_OR_EOL (at_ s 1)) then Ok (s, a, u) else
  let! x := skipSeparationSpace (next s 1) true in
  let '(s, k) := (x : state * Z) in
  if negb (k =? 0) && (lineIndent s <=? t) then again s (a ++ [YNull]) true
  else
    let n := line s in
    let! x := compose s t BLOCK_IN false true in
    let a := a ++ [nresult x.1] in
    let! y := skipSeparationSpace x.1 true in
    let s := y.1 in
    if ((line s =? n) || (t <? lineIndent s)) && negb (at_ s 0 =? 0) then fail s "bad indentation of a sequence entry"
    else if lineIndent s <? t then Ok (s, a, true)
    else again s a true.

(** The value of a pair of a block mapping that started on the line [i] at [a],
    and the next pair; [u] is the character at the position, [o] allows a
    compact value. *)
Definition pair_value (again : state -> mapping -> result (state * option mapping)) (t i a : Z) (s : state) (u : Z) (o : bool) (m : mapping) :
    result (state * option mapping) :=
  let! x :=
    if (line s =? i) || (t <? lineIndent s) then
      let! x := compose s t BLOCK_OUT true o in
      let s := x.1 in
      let m := if x.2 then if atExplicitKey m then Mapping_ (pairs m) (keyTag m) (nresult s) (valueNode m) true (detected m)
                           else Mapping_ (pairs m) (keyTag m) (keyNode m) (nresult s) false (detected m)
               else m in
      let! m := if atExplicitKey m then Ok m
                else let! f := storeMappingPair s (pairs m) (keyTag m) (keyNode m) (valueNode m) (Some (i, a)) in
                     Ok (no_key f false (detected m)) in
      let! y := skipSeparationSpace s true in
      Ok (y.1, at_ y.1 0, m)
    else Ok (s, u, m) in
  let '(s, u, m) := (x : state * Z * mapping) in
  if (t <? lineIndent s) && negb (u =? 0) then fail s "bad indentation of a mapping entry"
  else if lineIndent s <? t then Ok (s, Some m)
  else if u =? 0 then Ok (s, Some m)
  else again s m.

(** The pairs of a block mapping of the tag [tg] and the anchor [l]; [None] when
    what is read is no key but the whole node. *)
Definition mapping_step (again : state -> mapping -> result (state * option mapping)) (s : state) (t n : Z) (tg l : option (list Z)) (m : mapping) :
    result (state * option mapping) :=
  let u := at_ s 0 in
  if u =? 0 then Ok (s, Some m) else
  let i := line s in
  let value := pair_value again t i (position s) in
  if ((u =? 63) || (u =? 58)) && is_WS_OR_EOL (at_ s 1) then
    let r := at_ s 1 in
    if u =? 63 then
      let! f := store_explicit s m in
      value (next s 1) r true (if atExplicitKey m then no_key f true true else Mapping_ f (keyTag m) (keyNode m) (valueNode m) true true)
    else if atExplicitKey m then
      value (next s 1) r true (Mapping_ (pairs m) (keyTag m) (keyNode m) (valueNode m) false (detected m))
    else fail s "incomplete explicit mapping pair; a key node is missed; or followed by a non-tabulated empty line"
  else
    let! x := compose s n FLOW_OUT false true in
    let s := x.1 in
    if negb x.2 then Ok (s, Some m)
    else if line s =? i then
      let s := skip_while is_WHITE_SPACE s in
      if at_ s 0 =? 58 then
        let s := next s 1 in
        if negb (is_WS_OR_EOL (at_ s 0)) then fail s "a whitespace character is expected after the key-value separator within a block mapping" else
        let! f := store_explicit s m in
        value s (at_ s 0) false (Mapping_ f (ntag s) (nresult s) (if atExplicitKey m then YNull else valueNode m) false true)
      else if detected m then fail s "can not read an implicit mapping pair; a colon is missed"
      else Ok (with_node s tg l (nkind s) (nresult s), None)
    else if detected m then fail s "can not read a block mapping entry; a multiline key may not be an implicit key"
    else Ok (with_node s tg l (nkind s) (nresult s), None).

(** The entries of a flow collection, a mapping if [u]: [d] tells that the next
    one may follow; the elements so far, the pairs so far with the keys a merge
    has set. *)
Definition entries := (list yval * (list (list Z * yval) * list (list Z)))%type.
Definition flow_step (again : state -> bool -> entries -> result (state * entries)) (s : state) (t : Z) (u d : bool) (rf : entries) : result (state * entries) :=
  let '(r, f) := rf in
  if at_ s 0 =? 0 then fail s "unexpected end of the stream within a flow collection" else
  let! x := skipSeparationSpace s true in
  let s := x.1 in
  if at_ s 0 =? (if u then 125 else 93) then Ok (next s 1, rf)
  else if negb d then fail s "missed comma between flow collection entries"
  else
    let a := (at_ s 0 =? 63) && is_WS_OR_EOL (at_ s 1) in
    let! x := if a then skipSeparationSpace (next s 1) true else Ok (s, 0) in
    let s := x.1 in
    let n := line s in
    let! x := compose s t FLOW_IN false true in
    let c := ntag x.1 in
    let k := nresult x.1 in
    let! x := skipSeparationSpace x.1 true in
    let s := x.1 in
    let pair_ := (a || (line s =? n)) && (at_ s 0 =? 58) in
    let! x := if pair_ then
                let! x := skipSeparationSpace (next s 1) true in
                let! x := compose x.1 t FLOW_IN false true in
                Ok (x.1, nresult x.1)
              else Ok (s, YNull) in
    let '(s, v) := (x : state * yval) in
    let! rf :=
      if u then let! f := storeMappingPair s f c k v None in Ok (r, f)
      else if a || pair_ then let! f := storeMappingPair s ([], f.2) c k v None in Ok (r ++ [YObj f.1], ([], f.2))
      else Ok (r ++ [k], f) in
    let! x := skipSeparationSpace s true in
    let s := x.1 in
    if at_ s 0 =? 44 then again (next s 1) true rf else again s false rf.
End steps.

(** [composeNode] and the collections it reads. The fuel decreases with every
    call and every element. *)
Fixpoint composeNode (fuel : nat) (s : state) (t : Z) (n : context) (o i : bool) {struct fuel} : result (state * bool) :=
  match fuel with
  | O => Throw out_of_fuel
  | S fuel => compose_step (readBlockSequence fuel) (readBlockMapping fuel) (readFlowCollection fuel) s t n o i
  end
with readBlockSequence (fuel : nat) (s : state) (t : Z) {struct fuel} : result (state * bool) :=
  match fuel with
  | O => Throw out_of_fuel
  | S fuel =>
      let o := ntag s in
      let i := anchor s in
      let! x := block_entries fuel (set_anchor s i None) t [] false in
      let '(s, a, u) := (x : state * list yval * bool) in
      if u then Ok (complete s o i Sequence (YArr a), true) else Ok (set_anchor s i (Some (YArr [])), false)
  end
with block_entries (fuel : nat) (s : state) (t : Z) (a : list yval) (u : bool) {struct fuel} : result (state * list yval * bool) :=
  match fuel with
  | O => Throw out_of_fuel
  | S fuel => sequence_step (composeNode fuel) (λ s a u, block_entries fuel s t a u) s t a u
  end
with readBlockMapping (fuel : nat) (s : state) (t n : Z) {struct fuel} : result (state * bool) :=
  match fuel with
  | O => Throw out_of_fuel
  | S fuel =>
      let tg := ntag s in
      let l := anchor s in
      let! x := block_pairs fuel (set_anchor s l None) t n tg l (no_key ([], []) false false) in
      match x with
      | (s, None) => Ok (set_anchor s l (Some (YObj [])), true)
      | (s, Some m) =>
          let! f := store_explicit s m in
          if detected m then Ok (complete s tg l Mapping (YObj f.1), true) else Ok (set_anchor s l (Some (YObj [])), false)
      end
  end
with block_pairs (fuel : nat) (s : state) (t n : Z) (tg l : option (list Z)) (m : mapping) {struct fuel} : result (state * option mapping) :=
  match fuel with
  | O => Throw out_of_fuel
  | S fuel => mapping_step (composeNode fuel) (λ s m, block_pairs fuel s t n tg l m) s t n tg l m
  end
with readFlowCollection (fuel : nat) (s : state) (t : Z) {struct fuel} : result (state * bool) :=
  match fuel with
  | O => Throw out_of_fuel
  | S fuel =>
      let p := at_ s 0 in
      if negb ((p =? 91) || (p =? 123)) then Ok (s, false) else
      let u := p =? 123 in
      let h := ntag s in
      let v := anchor s in
      let! x := flow_entries fuel (next (set_anchor s v None) 1) t u true ([], ([], [])) in
      Ok (complete x.1 h v (if u then Mapping else Sequence) (if u then YObj x.2.2.1 else YArr x.2.1), true)
  end
with flow_entries (fuel : nat) (s : state) (t : Z) (u d : bool) (rf : entries) {struct fuel} : result (state * entries) :=
  match fuel with
  | O => Throw out_of_fuel
  | S fuel => flow_step (composeNode fuel) (λ s d rf, flow_entries fuel s t u d rf) s t u d rf
  end.

(** ** Documents *)

(** The words of a directive up to the end of the line or a comment. *)
Definition word_char (c : Z) : bool := negb ((c =? 0) || is_WS_OR_EOL c).
Fixpoint directive_words (fuel : nat) (s : state) (r : list (list Z)) : state * list (list Z) :=
  match fuel with
  | O => (s, r)
  | S fuel =>
      if at_ s 0 =? 0 then (s, r) else
      let s := skip_while is_WHITE_SPACE s in
      if at_ s 0 =? 35 then (skip_while not_eol s, r)
      else if is_EOL (at_ s 0) then (s, r)
      else let w := prefix_while word_char (rest s) in directive_words fuel (next s (len w)) (r ++ [w])
  end.

(** [^([0-9]+)\.([0-9]+)$]: the first number. *)
Definition yaml_version (s : list Z) : option Z :=
  match split [46] s with
  | [a; b] => match parse_dec a, parse_dec b with Some a, Some _ => Some a | _, _ => None end
  | _ => None
  end.
Definition yaml_directive (s : state) (n : list (list Z)) : result state :=
  match version s with
  | Some _ => fail s "duplication of %YAML directive"
  | None =>
      match n with
      | [v] =>
          match yaml_version v with
          | None => fail s "ill-formed argument of the YAML directive"
          | Some 1 => Ok (with_directives s (Some v) (tagMap s))
          | Some _ => fail s "unacceptable YAML version of the document"
          end
      | _ => fail s "YAML directive accepts exactly one argument"
      end
  end.
Definition tag_directive (s : state) (n : list (list Z)) : result state :=
  match n with
  | [r; o] =>
      if negb (tag_handle r) then fail s "ill-formed tag handle (first argument) of the TAG directive"
      else if has (tagMap s) r then fail_named s "there is a previously declared suffix for " ([34] ++ r ++ [34] ++ js " tag handle")
      else if negb (tag_uri o) then fail s "ill-formed tag prefix (second argument) of the TAG directive"
      else Ok (with_directives s (version s) (obj_set (tagMap s) r o))
  | _ => fail s "TAG directive accepts exactly two arguments"
  end.

(** The directives before a document; [a] tells that there was one. *)
Fixpoint read_directives (fuel : nat) (s : state) (a : bool) : result (state * bool) :=
  match fuel with
  | O => Ok (s, a)
  | S fuel =>
      if at_ s 0 =? 0 then Ok (s, a) else
      let! x := skipSeparationSpace s true in
      let s := x.1 in
      if (0 <? lineIndent s) || negb (at_ s 0 =? 37) then Ok (s, a) else
      let s := next s 1 in
      let n := prefix_while word_char (rest s) in
      let s := next s (len n) in
      if decide (n = []) then fail s "directive name must not be less than one character in length" else
      let '(s, r) := directive_words (length input) s [] in
      let! s := if at_ s 0 =? 0 then Ok s else readLineBreak s in
      let! s := if decide (n = js "YAML") then yaml_directive s r
                else if decide (n = js "TAG") then tag_directive s r
                else Ok s in
      read_directives fuel s true
  end.

Definition node_fuel : nat := 10 * length input + 10.
Definition readDocument (s : state) : result state :=
  let s := with_directives (with_anchors s []) None [] in
  let! x := read_directives (length input) s false in
  let '(s, a) := (x : state * bool) in
  let! y := skipSeparationSpace s true in
  let s := y.1 in
  let! s :=
    if (lineIndent s =? 0) && (at_ s 0 =? 45) && (at_ s 1 =? 45) && (at_ s 2 =? 45) then
      let! y := skipSeparationSpace (next s 3) true in Ok y.1
    else if a then fail s "directives end mark is expected" else Ok s in
  let! x := composeNode node_fuel s (lineIndent s - 1) BLOCK_OUT false true in
  let! y := skipSeparationSpace x.1 true in
  let s := with_document y.1 (nresult y.1) in
  if at_separator s then
    if at_ s 0 =? 46 then let! y := skipSeparationSpace (next s 3) true in Ok y.1 else Ok s
  else if position s <? input_length - 1 then fail s "end of the stream or a document separator is expected"
  else Ok s.

Fixpoint read_documents (fuel : nat) (s : state) : result state :=
  match fuel with
  | O => Ok s
  | S fuel => if position s <? input_length - 1 then let! s := readDocument s in read_documents fuel s else Ok s
  end.

End loader.

(** The text that is read: it ends with a line break and has no byte order mark. *)
Definition prepare (e : list Z) : list Z :=
  match e with
  | [] => []
  | _ =>
      let e := match reverse e with c :: _ => if is_EOL c then e else e ++ [10] | [] => e end in
      match e with c :: e' => if c =? 65279 then e' else e | [] => [] end
  end.
Definition loadDocuments (leaf_string : yval -> list Z) (e : list Z) : result (list yval) :=
  let e := prepare e in
  let input := e ++ [0] in
  let s := read_indent input initial in
  let! s := read_documents leaf_string input (len e) (S (length e)) s in
  Ok (documents s).

(** [safeLoad]: the one document of the text; [None] is [undefined]. *)
Definition safeLoad (leaf_string : yval -> list Z) (e : list Z) : result (option yval) :=
  let! ds := loadDocuments leaf_string e in
  match ds with
  | [] => Ok None
  | [d] => Ok (Some d)
  | _ => Throw (plain_error "expected a single document in the stream, but found more")
  end.

(** ** Examples *)

Definition no_leaf (v : yval) : list Z := [].
(** Lines of text, with a quotation mark for each back quote. *)
Definition lines (l : list string) : list Z := (λ c, if c =? 96 then 34 else c) <$> join [10] (js <$> l).
Abbreviation load e := (safeLoad no_leaf (lines e)).
Definition reason_of {A} (r : result A) : list Z :=
  match r with Throw (NamedError _ m) => default [] (head (split (js " at line ") m)) | Throw (PlainError m) => m | _ => [] end.
Definition obj (l : list (string * yval)) : yval := YObj ((λ kv, (js kv.1, kv.2)) <$> l).
Definition str (s : string) : yval := YStr (js s).

Example load_json :
  load ["{`swagger`: `2.0`, `n`: [1, -2, null, true, `\u0041\n`], `o`: {}}"]%string
  = Ok (Some (obj [("swagger", str "2.0"); ("n", YArr [YInt 1; YInt (-2); YNull; YBool true; YStr [65; 10]]); ("o", YObj [])]%string)).
Proof. vm_compute. reflexivity. Qed.

Example load_blocks :
  load ["%YAML 1.2"; "---"; "# a comment"; "swagger: '2.0'"; "info:"; "  title: it''s"; "  text: |"; "    one"; "     two"; ""; "  folded: >-"; "    a"; "    b"; ""; "    c";
        "tags:"; "- name: x"; "  ids: [a, b: c]"; "-"; "- - 1"; "  - !!str 2"; "base: &b {u: 1, v: 2}"; "more:"; "  <<: *b"; "  v: 3"; "? [k]"; ": plain"; "  text # end"; "..."]%string
  = Ok (Some (obj [
      ("swagger", str "2.0");
      ("info", obj [("title", str "it''s"); ("text", YStr (js "one" ++ [10] ++ js " two" ++ [10])); ("folded", YStr (js "a b" ++ [10] ++ js "c"))]);
      ("tags", YArr [obj [("name", str "x"); ("ids", YArr [str "a"; obj [("b", str "c")]])]; YNull; YArr [YInt 1; str "2"]]);
      ("base", obj [("u", YInt 1); ("v", YInt 2)]);
      ("more", obj [("u", YInt 1); ("v", YInt 3)]);
      ("k", str "plain text")]%string)).
Proof. vm_compute. reflexivity. Qed.

Example load_errors :
  reason_of <$> [load ["a: 1"; "a: 2"]; load ["a: [1"]; load ["a: *b"]; load ["a: b: c"]; load ["- a"; "b: c"]; load ["--- a"; "--- b"]; load ["a: `x"]; load ["!x y"]; load ["a: &a [*a]"]]%string
  = lines ∘ (λ x, [x]) <$> ["duplicated mapping key"; "unexpected end of the stream within a flow collection"; "unidentified alias `b`";
      "incomplete explicit mapping pair; a key node is missed; or followed by a non-tabulated empty line";
      "end of the stream or a document separator is expected"; "expected a single document in the stream, but found more";
      "unexpected end of the stream within a double quoted scalar"; "unknown tag !<!x>"; "cyclic document"]%string.
Proof. vm_compute. reflexivity. Qed.

(** An anchor on the line before a scalar stands for an empty object. *)
Example lost_anchor :
  load ["a: &x"; "  foo"; "b: *x"]%string = Ok (Some (obj [("a", str "foo"); ("b", YObj [])]%string)).
Proof. vm_compute. reflexivity. Qed.

(** Empty binary data is read as three bytes. *)
Example empty_binary : load ["!!binary ``"]%string = Ok (Some (YBin [0; 0; 0])).
Proof. vm_compute. reflexivity. Qed.

End YamlLoad.
