(* ===== verification/YamlLoadOk.v ===== *)
(** JSON is YAML for the loader of js-yaml: the text that [JSON.stringify] writes
    for a document is loaded as this document. *)

From stdpp Require Import base list list_numbers numbers strings gmap.
From Stdlib Require Import ZArith Lia.
From S2P Require Import Prelude Uri Json Style ClientHttp YamlTypes YamlTypesOk YamlLoad.

Module YamlLoadOk.
Import Json Style ClientHttp YamlTypes YamlTypesOk YamlLoad.

(** The value a document of JSON is in YAML. *)
Fixpoint of_jval (v : jval) : yval :=
  match v with
  | JUndef | JNull => YNull
  | JBool b => YBool b
  | JNum z => YInt z
  | JStr s => YStr s
  | JArr l => YArr (of_jval <$> l)
  | JObj o => YObj ((λ kv, (kv.1, of_jval kv.2)) <$> o)
  end.

Definition is_unit (c : Z) : Prop := 0 <= c < 65536.
(** A document: no [undefined], texts of 16-bit units, and in each object
    different names, in the order of the language, none of them [__proto__]. *)
Fixpoint document (v : jval) : Prop :=
  match v with
  | JUndef => False
  | JStr s => Forall is_unit s
  | JArr l => foldr (λ v P, document v /\ P) True l
  | JObj o => obj_ok o /\ foldr (λ kv P, (Forall is_unit kv.1 /\ kv.1 ≠ js "__proto__" /\ document kv.2) /\ P) True o
  | _ => True
  end.

(** Positions after [next]. *)
Ltac next_lia := unfold next, with_position, with_place, with_node in *; cbn [position lineStart line] in *; lia.

Section reading.
Variable leaf : yval -> list Z.
Variables (input : list Z) (il : Z).

(** ** What the loader sees *)

(** The text from the position of [s] on is [r]. *)
Definition sees (s : state) (r : list Z) : Prop := 0 <= position s /\ rest input s = r.

Lemma sees_at s r k : sees s r -> 0 <= k -> at_ input s k = nth (Z.to_nat k) r (-1).
Proof.
  intros [Hp <-] Hk. unfold at_, char_at, rest. rewrite (proj2 (Z.ltb_ge (position s + k) 0)) by lia.
  rewrite List.nth_skipn. f_equal. lia.
Qed.
Lemma sees_0 s c r : sees s (c :: r) -> at_ input s 0 = c.
Proof. intros H. by rewrite (sees_at s (c :: r)). Qed.
Lemma sees_1 s c d r : sees s (c :: d :: r) -> at_ input s 1 = d.
Proof. intros H. by rewrite (sees_at s (c :: d :: r)). Qed.
Lemma sees_next s u r : sees s (u ++ r) -> sees (next s (len u)) r.
Proof.
  intros [Hp E]. unfold sees, rest, next, with_position, with_place in *. cbn [position] in *. pose proof (len_nonneg u). split; [lia|].
  rewrite Z2Nat.inj_add by lia. rewrite <- drop_drop, E. unfold len. rewrite Nat2Z.id. by rewrite drop_app_length.
Qed.
Lemma sees_next_1 s c r : sees s (c :: r) -> sees (next s 1) r.
Proof. apply (sees_next s [c] r). Qed.
Lemma next_0 s : next s 0 = s.
Proof. destruct s. unfold next, with_position, with_place. cbn. f_equal. lia. Qed.
(** Positions that are equal. *)
Lemma sees_place s s' r : position s' = position s -> sees s r -> sees s' r.
Proof. unfold sees, rest. by intros ->. Qed.

Lemma prefix_while_app p u r : Forall (λ c, p c = true) u -> (match r with c :: _ => p c = false | [] => True end) -> prefix_while p (u ++ r) = u.
Proof.
  intros Hu Hr. induction Hu as [|c u Hc _ IH]; cbn; [|by rewrite Hc, IH]. destruct r as [|d r]; [done|]. cbn. by rewrite Hr.
Qed.
Lemma skip_while_none p s c r : sees s (c :: r) -> p c = false -> skip_while input p s = s.
Proof. intros [_ E] Hc. unfold skip_while. rewrite E. cbn [prefix_while]. rewrite Hc. apply next_0. Qed.

(** Text that was passed from [n] on and is not captured yet. *)
Definition pending (s : state) (n : Z) (u r : list Z) : Prop := 0 <= n /\ position s = n + len u /\ drop (Z.to_nat n) input = u ++ r.
Lemma pending_nil s r : sees s r -> pending s (position s) [] r.
Proof. intros [Hp E]. split_and!; [done|cbn; change (len []) with 0; lia|exact E]. Qed.
Lemma pending_sees s n u r : pending s n u r -> sees s r.
Proof.
  intros (Hn & Hp & E). pose proof (len_nonneg u). split; [lia|]. unfold rest. rewrite Hp, Z2Nat.inj_add by lia.
  rewrite <- drop_drop, E. unfold len. by rewrite Nat2Z.id, drop_app_length.
Qed.
Lemma pending_next s n u c r : pending s n u (c :: r) -> pending (next s 1) n (u ++ [c]) r.
Proof.
  intros (Hn & Hp & E). split_and!; [done| |by rewrite E, <- app_assoc]. unfold next, with_position, with_place. cbn [position]. rewrite Hp, len_app. change (len [c]) with 1. lia.
Qed.
Lemma pending_slice s n u r : pending s n u r -> slice input n (position s) = u.
Proof. intros (Hn & Hp & E). unfold slice. rewrite Hp, E. replace (Z.to_nat (n + len u - n)) with (length u) by (unfold len; lia). by rewrite take_app_length. Qed.

Lemma capture_ok s' s n u r check : pending s n u r ->
  (if check : bool then forallb (λ a, (a =? 9) || (32 <=? a)) u = true else non_printable false u = false) -> captureSegment input s' n (position s) check = Ok u.
Proof.
  intros H Hu. unfold captureSegment. destruct (Z.ltb_spec n (position s)).
  - rewrite (pending_slice s n u r H). destruct check; by rewrite Hu.
  - destruct H as (_ & Hp & _). destruct u; [done|]. rewrite len_cons in Hp. pose proof (len_nonneg u). lia.
Qed.

(** No separator of documents starts with other characters. *)
Lemma no_separator s c d r : sees s (c :: d :: r) -> c ≠ d \/ c ≠ 45 /\ c ≠ 46 -> testDocumentSeparator input s = false.
Proof.
  intros H Hc. unfold testDocumentSeparator. rewrite (sees_0 _ _ _ H), (sees_1 _ _ _ _ H). destruct Hc as [Hc|[Hc Hd]].
  - by rewrite (proj2 (Z.eqb_neq c d)), andb_false_r.
  - by rewrite (proj2 (Z.eqb_neq c 45)), (proj2 (Z.eqb_neq c 46)).
Qed.

(** Nothing is skipped before a character that is no white space. *)
Lemma skip_nothing s t c r : sees s (c :: r) -> is_WS_OR_EOL c = false -> (t = true -> c ≠ 35) -> skipSeparationSpace input s t = Ok (s, 0).
Proof.
  intros H Hc Ht. unfold skipSeparationSpace. cbn [skip_loop]. rewrite (sees_0 _ _ _ H).
  apply orb_false_elim in Hc as [Hw He]. destruct (Z.eqb_spec c 0) as [->|]; [done|].
  rewrite (skip_while_none _ _ _ _ H Hw), (sees_0 _ _ _ H).
  replace (t && (c =? 35)) with false; [|destruct t; [|done]; symmetry; apply Z.eqb_neq; auto]. rewrite (sees_0 _ _ _ H). by rewrite He.
Qed.

(** ** Texts in double quotes *)

Lemma next_next s a b : next (next s a) b = next s (a + b).
Proof. destruct s. unfold next, with_position, with_place. cbn. f_equal. lia. Qed.
Lemma not_at_separator s : lineStart s < position s -> at_separator input s = false.
Proof. intros H. unfold at_separator. by rewrite (proj2 (Z.eqb_neq (position s) (lineStart s))) by lia. Qed.
Lemma sees_of_pending s n u c r : pending s n u (c :: r) -> at_ input s 0 = c.
Proof. intros H%pending_sees. by apply sees_0 in H. Qed.

Lemma raw_step fuel s n rr res pend c r : pending s n pend (c :: r) -> 32 <= c -> c ≠ 34 -> c ≠ 92 -> lineStart s < position s ->
  double_loop input (S fuel) s n rr res = double_loop input fuel (next s 1) n (position s + 1) res.
Proof.
  intros H Hc H34 H92 Hl. cbn [double_loop]. rewrite (sees_of_pending _ _ _ _ _ H).
  rewrite (proj2 (Z.eqb_neq c 0)), (proj2 (Z.eqb_neq c 34)), (proj2 (Z.eqb_neq c 92)) by lia.
  replace (is_EOL c) with false; [by rewrite not_at_separator|]. unfold is_EOL. by rewrite (proj2 (Z.eqb_neq c 10)), (proj2 (Z.eqb_neq c 13)) by lia.
Qed.

Lemma simple_step fuel s n rr res pend e c r : pending s n pend (92 :: e :: r) -> forallb (λ a, (a =? 9) || (32 <=? a)) pend = true ->
  is_EOL e = false -> simpleEscapeSequence e = Some c ->
  double_loop input (S fuel) s n rr res = double_loop input fuel (next s 2) (position s + 2) (position s + 2) (res ++ pend ++ [c]).
Proof.
  intros H Hp He Hc. cbn [double_loop]. rewrite (sees_of_pending _ _ _ _ _ H). cbn [Z.eqb Pos.eqb].
  rewrite (capture_ok _ _ _ _ _ true H Hp). cbn [result_bind]. cbv zeta. rewrite (sees_0 (next s 1) e r), He, Hc.
  - rewrite next_next. change (position (next s (1 + 1))) with (position s + 2). done.
  - by apply (sees_next_1 s 92), (pending_sees _ _ _ _ H).
Qed.

Lemma hex_lower_read d : 0 <= d < 16 -> fromHexCode (hex_lower d) = Some d.
Proof.
  intros Hd. unfold fromHexCode, hex_lower, hex_digit. destruct (Z.ltb_spec d 10).
  - rewrite (proj2 (Z.leb_le 48 _)), (proj2 (Z.leb_le _ 57)) by lia. cbn [andb]. f_equal. lia.
  - rewrite (proj2 (Z.leb_gt (87 + d) 57)), (proj2 (Z.leb_le 97 _)), (proj2 (Z.leb_le _ 102)) by lia. rewrite andb_false_r. cbn [andb]. f_equal. lia.
Qed.
Lemma read_hex_step k s x d r i : sees s (x :: hex_lower d :: r) -> 0 <= d < 16 -> 0 <= i < 2 ^ 24 ->
  read_hex input (S k) s i = read_hex input k (next s 1) (16 * i + d).
Proof.
  intros H Hd Hi. cbn [read_hex]. cbv zeta. rewrite (sees_0 (next s 1) (hex_lower d) r) by by apply (sees_next_1 s x).
  rewrite hex_lower_read by done. f_equal. rewrite shl_small; lia.
Qed.

Lemma hex_step fuel s n rr res pend c r : pending s n pend (unicode_escape c ++ r) -> forallb (λ a, (a =? 9) || (32 <=? a)) pend = true ->
  is_unit c ->
  double_loop input (S fuel) s n rr res = double_loop input fuel (next s 6) (position s + 6) (position s + 6) (res ++ pend ++ [c]).
Proof.
  intros H Hp Hc. unfold unicode_escape in H. change (js "\u") with [92; 117] in H. cbn [app] in H. unfold is_unit in Hc.
  pose proof (pending_sees _ _ _ _ H) as H0. apply sees_next_1 in H0 as H1.
  cbn [double_loop]. rewrite (sees_of_pending _ _ _ _ _ H). cbn [Z.eqb Pos.eqb].
  rewrite (capture_ok _ _ _ _ _ true H Hp). cbn [result_bind]. cbv zeta. rewrite (sees_0 _ _ _ H1).
  change (is_EOL 117) with false. change (simpleEscapeSequence 117) with (@None Z). change (0 <? escapedHexLen 117) with true. cbn iota.
  change (Z.to_nat (escapedHexLen 117)) with 4%nat.
  assert (Hd : 0 <= c / 4096 < 16) by (split; [apply Z.div_pos; lia|apply Z.div_lt_upper_bound; lia]).
  pose proof (Z.mod_pos_bound (c / 256) 16 ltac:(lia)) as B1. pose proof (Z.mod_pos_bound (c / 16) 16 ltac:(lia)) as B2. pose proof (Z.mod_pos_bound c 16 ltac:(lia)) as B3.
  apply sees_next_1 in H1 as H2. apply sees_next_1 in H2 as H3. apply sees_next_1 in H3 as H4.
  rewrite (read_hex_step _ _ _ _ _ _ H1) by lia. rewrite (read_hex_step _ _ _ _ _ _ H2) by lia.
  rewrite (read_hex_step _ _ _ _ _ _ H3) by lia. rewrite (read_hex_step _ _ _ _ _ _ H4) by lia.
  cbn [read_hex result_bind fst snd]. rewrite !next_next.
  replace (16 * (16 * (16 * (16 * 0 + c / 4096) + c / 256 mod 16) + c / 16 mod 16) + c mod 16) with c.
  - unfold charFromCodepoint. rewrite (proj2 (Z.leb_le c 65535)), Z.mod_small by lia. done.
  - pose proof (Z.div_mod c 16 ltac:(lia)). pose proof (Z.div_mod (c / 16) 16 ltac:(lia)). pose proof (Z.div_mod (c / 256) 16 ltac:(lia)).
    assert (c / 16 / 16 = c / 256) by by rewrite Z.div_div. assert (c / 256 / 16 = c / 4096) by by rewrite Z.div_div. lia.
Qed.

(** What [JSON.stringify] writes between the quotes. *)
Definition body (u : list Z) : list Z := concat (quote_char <$> stringToCharArray u).
Lemma body_nil : body [] = [].
Proof. done. Qed.
Lemma body_pair c o u : high c = true -> low o = true -> body (c :: o :: u) = c :: o :: body u.
Proof. intros Hc Ho. unfold body. cbn [stringToCharArray]. by rewrite Hc, Ho. Qed.
Lemma body_unit c u : high c && low (default 0 (head u)) = false -> body (c :: u) = quote_char [c] ++ body u.
Proof. intros H. unfold body. cbn [stringToCharArray]. destruct u as [|o u]; [done|]. cbn in H. by rewrite H. Qed.

(** The cases of a character: written as it is, with a backslash, or by its code. *)
Lemma quote_char_cases c : is_unit c ->
  (quote_char [c] = [c] /\ 32 <= c /\ c ≠ 34 /\ c ≠ 92) \/
  (∃ e, quote_char [c] = [92; e] /\ is_EOL e = false /\ simpleEscapeSequence e = Some c) \/ quote_char [c] = unicode_escape c.
Proof.
  intros Hc. unfold quote_char, quote_unit. destruct (high c || low c) eqn:Es; [by right; right|].
  destruct (Z.eqb_spec c 34) as [->|]; [right; left; by exists 34|]. destruct (Z.eqb_spec c 92) as [->|]; [right; left; by exists 92|].
  destruct (Z.eqb_spec c 8) as [->|]; [right; left; by exists 98|]. destruct (Z.eqb_spec c 9) as [->|]; [right; left; by exists 116|].
  destruct (Z.eqb_spec c 10) as [->|]; [right; left; by exists 110|]. destruct (Z.eqb_spec c 12) as [->|]; [right; left; by exists 102|].
  destruct (Z.eqb_spec c 13) as [->|]; [right; left; by exists 114|]. cbn [orb]. destruct (Z.ltb_spec c 32); [by right; right|by left].
Qed.

Lemma json_chars_app u v : forallb (λ a, (a =? 9) || (32 <=? a)) u = true -> Forall (λ c, 32 <= c) v -> forallb (λ a, (a =? 9) || (32 <=? a)) (u ++ v) = true.
Proof.
  intros Hu Hv. rewrite forallb_app, Hu. cbn [andb]. apply forallb_forall. intros c Hc%list_elem_of_In. rewrite Forall_forall in Hv.
  rewrite (proj2 (Z.leb_le 32 c)) by by apply Hv. apply orb_true_r.
Qed.

Lemma double_ok k : ∀ u fuel s n rr res pend r, (length u <= k)%nat -> Forall is_unit u ->
  pending s n pend (body u ++ 34 :: r) -> forallb (λ a, (a =? 9) || (32 <=? a)) pend = true -> lineStart s < position s ->
  (length (body u) < fuel)%nat ->
  double_loop input fuel s n rr res = Ok (with_scalar (next s (len (body u) + 1)) (res ++ pend ++ u), true).
Proof.
  induction k as [|k IH]; intros [|c u] fuel s n rr res pend r Hk Hu H Hp Hl Hf; try (cbn in Hk; lia).
  1,2: destruct fuel as [|fuel]; [cbn in Hf; lia|]; cbn [double_loop]; rewrite (sees_of_pending _ _ _ _ _ H); cbn [Z.eqb Pos.eqb];
    rewrite (capture_ok _ _ _ _ _ true H Hp); by rewrite app_nil_r.
  destruct fuel as [|fuel]; [lia|]. apply Forall_cons in Hu as [Hc Hu]. cbn in Hk.
  destruct (high c && low (default 0 (head u))) eqn:Ep.
  - destruct u as [|o u]; [by rewrite andb_false_r in Ep|]. apply andb_prop in Ep as [Hhi Hlo]. cbn in Hlo. rewrite body_pair in * by done.
    apply Forall_cons in Hu as [Ho Hu]. cbn [app length] in *. destruct fuel as [|fuel]; [lia|].
    unfold high in Hhi. unfold low in Hlo. apply andb_prop in Hhi as [Hh1%Z.leb_le Hh2%Z.leb_le]. apply andb_prop in Hlo as [Hl1%Z.leb_le Hl2%Z.leb_le].
    rewrite (raw_step _ _ _ _ _ _ _ _ H) by lia. apply pending_next in H. rewrite (raw_step _ _ _ _ _ _ _ _ H) by next_lia. apply pending_next in H.
    rewrite (IH u _ _ _ _ _ _ r ltac:(lia) Hu H); [| |next_lia|lia].
    + rewrite !next_next, !len_cons, <- !app_assoc. do 3 f_equal. f_equal. lia.
    + apply json_chars_app; [apply json_chars_app; [done|]|]; apply Forall_singleton; lia.
  - assert (Hle : (length u <= k)%nat) by lia. rewrite body_unit in * by done. rewrite <- app_assoc in H. rewrite length_app in Hf.
    destruct (quote_char_cases c Hc) as [(E & H32 & H34 & H92)|[(e & E & He & Hs)|E]]; rewrite E in *; cbn [app length] in *.
    + rewrite (raw_step _ _ _ _ _ _ _ _ H) by lia. apply pending_next in H.
      rewrite (IH u _ _ _ _ _ _ r Hle Hu H); [| |next_lia|lia].
      * rewrite !next_next, !len_cons, <- !app_assoc. do 3 f_equal. f_equal. lia.
      * by apply json_chars_app; [|apply Forall_singleton].
    + rewrite (simple_step _ _ _ _ _ _ _ _ _ H Hp He Hs). apply pending_sees, (sees_next s [92; e]), pending_nil in H. change (len [92; e]) with 2 in H.
      rewrite (IH u _ _ _ _ _ _ r Hle Hu H); [|done|next_lia|lia].
      rewrite !next_next, !len_cons, <- !app_assoc. do 3 f_equal. f_equal. lia.
    + rewrite (hex_step _ _ _ _ _ _ _ _ H Hp Hc). apply pending_sees, (sees_next s (unicode_escape c)), pending_nil in H.
      change (len (unicode_escape c)) with 6 in H. change (length (unicode_escape c)) with 6%nat in Hf.
      rewrite (IH u _ _ _ _ _ _ r Hle Hu H); [|done|next_lia|lia].
      rewrite !next_next, len_app, <- !app_assoc. change (len (unicode_escape c)) with 6. do 3 f_equal. f_equal. lia.
Qed.

Lemma body_short u s r : sees s (34 :: body u ++ 34 :: r) -> (length (body u) < length input)%nat.
Proof.
  intros [_ E]. unfold rest in E. apply (f_equal length) in E. rewrite length_drop in E. cbn in E. rewrite length_app in E. cbn in E. lia.
Qed.
(** A text in double quotes. *)
Lemma quoted_ok u s r : Forall is_unit u -> sees s (json_quote u ++ r) -> lineStart s <= position s ->
  readDoubleQuotedScalar input s = Ok (with_scalar (next s (len (json_quote u))) u, true).
Proof.
  intros Hu H Hl. unfold json_quote in *. change (concat (quote_char <$> stringToCharArray u)) with (body u) in *.
  change ([34] ++ body u ++ [34]) with (34 :: (body u ++ [34])) in *. cbn [app] in H. rewrite <- app_assoc in H. cbn [app] in H.
  unfold readDoubleQuotedScalar. rewrite (sees_0 _ _ _ H). cbn [Z.eqb Pos.eqb negb]. cbv zeta.
  rewrite (double_ok (length u) u _ _ _ _ _ [] r).
  - rewrite next_next, len_cons, len_app. cbn [app]. do 3 f_equal. change (len [34]) with 1. f_equal. lia.
  - done.
  - done.
  - by apply pending_nil, (sees_next_1 s 34).
  - done.
  - next_lia.
  - by eapply body_short.
Qed.

(** ** Words without quotes *)

Definition letter (c : Z) : Prop := 48 <= c <= 57 \/ 97 <= c <= 122.
(** Digits and letters, after a minus sign or not. *)
Definition word (w : list Z) : Prop := ∃ neg u, w = sign_of neg u /\ u ≠ [] /\ Forall letter u.

Lemma no_separator_1 s c r : sees s (c :: r) -> c ≠ 45 -> c ≠ 46 -> at_separator input s = false.
Proof.
  intros H H1 H2. unfold at_separator, testDocumentSeparator. rewrite (sees_0 _ _ _ H), (proj2 (Z.eqb_neq c 45)), (proj2 (Z.eqb_neq c 46)) by done.
  apply andb_false_r.
Qed.
Lemma letter_facts c : letter c -> c ≠ 0 /\ c ≠ 58 /\ c ≠ 35 /\ c ≠ 45 /\ c ≠ 46 /\ is_FLOW_INDICATOR c = false /\ is_EOL c = false /\ is_WHITE_SPACE c = false.
Proof.
  intros Hc. unfold letter in Hc. split_and!; try lia.
  - unfold is_FLOW_INDICATOR. apply bool_decide_eq_false. intros Hin. repeat (apply elem_of_cons in Hin as [->|Hin]; [lia|]). by apply elem_of_nil in Hin.
  - unfold is_EOL. by rewrite (proj2 (Z.eqb_neq c 10)), (proj2 (Z.eqb_neq c 13)) by lia.
  - unfold is_WHITE_SPACE. by rewrite (proj2 (Z.eqb_neq c 9)), (proj2 (Z.eqb_neq c 32)) by lia.
Qed.
(** A step of the loop over a word. *)
Lemma plain_step fuel s t n o ul res c r : sees s (c :: r) -> c ≠ 0 -> c ≠ 58 -> c ≠ 35 -> at_separator input s = false ->
  is_FLOW_INDICATOR c = false -> is_EOL c = false -> is_WHITE_SPACE c = false -> 
  plain_loop input (S fuel) s t n o (position s) false ul res = plain_loop input fuel (next s 1) t n o (position s + 1) false ul res.
Proof.
  intros H H0 H58 H35 Hs Hf He Hw. cbn [plain_loop]. cbv zeta. rewrite (sees_0 _ _ _ H).
  rewrite (proj2 (Z.eqb_neq c 0)), (proj2 (Z.eqb_neq c 58)), (proj2 (Z.eqb_neq c 35)), Hs, Hf, andb_false_r, He by done.
  cbn [orb result_bind]. by rewrite Hw.
Qed.
Lemma plain_letters u : ∀ fuel s t n o ul res r, sees s (u ++ r) -> Forall letter u ->
  plain_loop input (length u + fuel) s t n o (position s) false ul res = plain_loop input fuel (next s (len u)) t n o (position s + len u) false ul res.
Proof.
  induction u as [|c u IH]; intros fuel s t n o ul res r H Hu.
  { cbn [length Nat.add]. change (len []) with 0. rewrite next_0. f_equal. lia. }
  apply Forall_cons in Hu as [Hc Hu]. destruct (letter_facts c Hc) as (H0 & H58 & H35 & H45 & H46 & Hf & He & Hw). cbn [app length Nat.add] in *.
  rewrite (plain_step _ _ _ _ _ _ _ _ _ H H0 H58 H35 (no_separator_1 _ _ _ H H45 H46) Hf He Hw). apply sees_next_1 in H.
  change (position s + 1) with (position (next s 1)). rewrite (IH _ _ _ _ _ _ _ _ H Hu), next_next, len_cons.
  f_equal; [f_equal; lia|next_lia].
Qed.
Lemma letters_printable u b : Forall letter u -> non_printable b u = false.
Proof.
  intros H. revert b. induction H as [|c u Hc _ IH]; intros b; [done|]. cbn [non_printable]. rewrite IH.
  assert (F : forall k, (k < 48 \/ 122 < k) -> c ≠ k) by (unfold letter in Hc; lia).
  unfold control, lead, trail, letter in *.
  rewrite (proj2 (Z.leb_gt c 8)), !(proj2 (Z.eqb_neq c _)), (proj2 (Z.leb_gt 127 c)), (proj2 (Z.leb_gt 134 c)), (proj2 (Z.leb_gt 55296 c)), (proj2 (Z.leb_gt 56320 c)), (proj2 (Z.leb_gt c 31)) by lia.
  by rewrite andb_false_r.
Qed.

Lemma word_printable w : word w -> non_printable false w = false.
Proof. intros (neg & u & -> & _ & Hu). destruct neg; [|by apply letters_printable]. cbn. by rewrite letters_printable. Qed.

Lemma plain_word w fuel s t n o ul res r : word w -> sees s (w ++ r) ->
  plain_loop input (length w + fuel) s t n o (position s) false ul res = plain_loop input fuel (next s (len w)) t n o (position s + len w) false ul res.
Proof.
  intros (neg & u & -> & Hne & Hu) H. destruct neg; cbn [sign_of] in *; [|by apply (plain_letters u _ _ _ _ _ _ _ r)].
  cbn [app length Nat.add] in *. destruct u as [|d u]; [done|]. apply Forall_cons in Hu as HH. destruct HH as [Hd _].
  rewrite (plain_step _ _ _ _ _ _ _ 45 _ H) by (done || (unfold at_separator; rewrite (no_separator _ 45 d (u ++ r) H); [apply andb_false_r|left; unfold letter in Hd; lia])).
  apply sees_next_1 in H. change (position s + 1) with (position (next s 1)). rewrite (plain_letters (d :: u) _ _ _ _ _ _ _ _ H Hu), next_next, (len_cons 45).
  f_equal; [f_equal; lia|next_lia].
Qed.

Lemma word_start w r s : word w -> sees s (w ++ r) -> ∃ c, at_ input s 0 = c /\ not_plain c = false /\ c ≠ 63 /\ c ≠ 0 /\
  (c = 45 -> is_WS_OR_EOL (at_ input s 1) = false /\ is_FLOW_INDICATOR (at_ input s 1) = false) /\ (c = 45 \/ letter c).
Proof.
  intros (neg & u & -> & Hne & Hu) H. destruct u as [|d u]; [done|]. apply Forall_cons in Hu as [Hd _].
  destruct (letter_facts d Hd) as (H0 & _ & _ & _ & _ & Hf & He & Hw). assert (Hdw : is_WS_OR_EOL d = false) by (unfold is_WS_OR_EOL; by rewrite Hw).
  destruct neg; cbn [sign_of app] in H.
  - exists 45. rewrite (sees_0 _ _ _ H), (sees_1 _ _ _ _ H). split_and!; try done. by left.
  - exists d. rewrite (sees_0 _ _ _ H). split_and!; try done; [|unfold letter in Hd; lia|unfold letter in Hd; lia|by right].
    unfold not_plain. rewrite Hdw, Hf. cbn [orb]. apply bool_decide_eq_false. intros Hin. unfold letter in Hd.
    change (js "#&*!|>'%@`" ++ [34]) with [35; 38; 42; 33; 124; 62; 39; 37; 64; 96; 34] in Hin.
    repeat (apply elem_of_cons in Hin as [->|Hin]; [lia|]). by apply elem_of_nil in Hin.
Qed.

(** A word in a flow collection ends at an indicator. *)
Definition closes (r : list Z) : Prop := ∃ c r', r = c :: r' /\ c ∈ [44; 93; 125].
Lemma word_short w s r : sees s (w ++ r) -> (length w <= length input)%nat.
Proof. intros [_ E]. unfold rest in E. apply (f_equal length) in E. rewrite length_drop, length_app in E. lia. Qed.

Lemma plain_ok w s t r : word w -> sees s (w ++ r) -> closes r ->
  readPlainScalar input s t true = Ok (with_scalar (next s (len w)) w, true).
Proof.
  intros Hw H (c & r' & -> & Hc). destruct (word_start w (c :: r') s Hw H) as (c0 & E0 & Hp & H63 & H0 & Hm & Hl). unfold readPlainScalar. cbv zeta. rewrite E0, Hp.
  replace (((c0 =? 63) || (c0 =? 45)) && _) with false.
  2: { rewrite (proj2 (Z.eqb_neq c0 63)) by done. destruct (Z.eqb_spec c0 45); [|done]. destruct Hm as [-> ->]; done. }
  pose proof (word_short _ _ _ H). replace (S (length input)) with (length w + S (length input - length w))%nat by lia.
  rewrite (plain_word w _ _ _ _ _ _ _ (c :: r') Hw H). assert (Hs : sees (next s (len w)) (c :: r')) by by apply sees_next.
  cbn [plain_loop]. cbv zeta. rewrite (sees_0 _ _ _ Hs).
  replace (c =? 0) with false by (symmetry; apply Z.eqb_neq; set_solver by lia). replace (c =? 58) with false by (symmetry; apply Z.eqb_neq; set_solver by lia).
  replace (c =? 35) with false by (symmetry; apply Z.eqb_neq; set_solver by lia).
  replace (is_FLOW_INDICATOR c) with true.
  2: { symmetry. apply bool_decide_eq_true. set_solver. }
  cbn [andb]. rewrite orb_true_r. cbn [result_bind].
  assert (Hpd : pending (next s (len w)) (position s) w (c :: r')).
  { destruct H as [Hpos E]. split_and!; [done|done|exact E]. }
  change (position s + len w) with (position (next s (len w))). rewrite (capture_ok _ _ _ _ _ false Hpd) by by apply word_printable.
  cbn [result_bind app]. destruct w as [|x w]; [|done]. destruct Hw as (neg & u & E & Hne & _). destruct neg, u; done.
Qed.

(** ** Nodes *)

(** What is read when a node with the value [v] ends after [k] characters. *)
Definition read (s : state) (k : Z) (tg : option (list Z)) (kd : option kind) (v : yval) : state := with_node (next s k) tg None kd v.

Lemma sees_nonempty s c r : sees s (c :: r) -> (0 < length input)%nat.
Proof. intros [_ E]. unfold rest in E. apply (f_equal length) in E. rewrite length_drop in E. cbn in E. lia. Qed.
Lemma no_properties k s t a T M m c r : (0 < k)%nat -> sees s (c :: r) -> c ≠ 33 -> c ≠ 38 ->
  node_properties input il k s t a T M m = Ok (s, T, M, m).
Proof.
  intros Hk H H33 H38. destruct k as [|k]; [lia|]. cbn [node_properties]. unfold readTagProperty. rewrite (sees_0 _ _ _ H), (proj2 (Z.eqb_neq c 33)) by done.
  cbn [negb result_bind fst snd]. unfold readAnchorProperty. by rewrite (sees_0 _ _ _ H), (proj2 (Z.eqb_neq c 38)).
Qed.

(** A node in a flow collection, or a key, whose text starts with [c]. *)
Lemma compose_flow fuel s t n c r : block_context n = false -> sees s (c :: r) -> c ≠ 33 -> c ≠ 38 ->
  composeNode leaf input il (S fuel) s t n false true =
    let! x := let! x := readFlowCollection leaf input il fuel (with_node s None None None YNull) t in
              if x.2 then Ok x else readScalar input x.1 n t in
    let! s := resolve_tag input x.1 in
    Ok (s, match ntag s, anchor s with None, None => x.2 | _, _ => true end).
Proof.
  intros Hn H H33 H38. change (composeNode leaf input il (S fuel) s t n false true) with
    (compose_step input il (readBlockSequence leaf input il fuel) (readBlockMapping leaf input il fuel) (readFlowCollection leaf input il fuel) s t n false true).
  unfold compose_step. cbv zeta. rewrite Hn. cbn [result_bind]. change (0 =? 0) with true. cbn [negb]. change (1 =? 1) with true. cbn iota.
  assert (Hs : sees (with_node s None None None YNull) (c :: r)) by exact H.
  rewrite (no_properties _ _ _ _ _ _ _ c r (sees_nonempty _ _ _ Hs) Hs H33 H38). cbn [result_bind andb]. change (1 =? 1) with true. cbn [orb]. unfold readContent.
  cbn [result_bind snd fst]. done.
Qed.

Lemma resolve_plain s w b : implicit w = Some b ->
  resolve_tag input (with_node s (Some (js "?")) None (Some Scalar) (YStr w)) = Ok (with_node s (Some (tag b)) None (Some Scalar) (construct b (YStr w))).
Proof.
  intros Hb. unfold resolve_tag. cbn [ntag with_node]. destruct (decide (js "?" = js "!")) as [E|_]; [discriminate E|].
  destruct (decide (js "?" = js "?")) as [_|E]; [|done]. cbn [nresult with_node]. unfold implicit in Hb. by rewrite Hb.
Qed.

(** A word is read as the value of its implicit type. *)
Lemma compose_plain fuel s t n w b r s' : block_context n = false -> word w -> sees s (w ++ r) -> implicit w = Some b ->
  readPlainScalar input (with_node s None None None YNull) t (bool_decide (n = FLOW_IN)) = Ok (with_node s' None None (Some Scalar) (YStr w), true) ->
  composeNode leaf input il (S (S fuel)) s t n false true = Ok (with_node s' (Some (tag b)) None (Some Scalar) (construct b (YStr w)), true).
Proof.
  intros Hn Hw H Hb Ep. destruct (word_start w r s Hw H) as (c & E & Hp & H63 & H0 & Hm & Hl).
  assert (Hs : ∃ w', w = c :: w').
  { destruct w as [|c' w]; [by destruct Hw as (neg & u & E' & Hne & _); destruct neg, u|]. exists w. f_equal. by rewrite (sees_0 _ c' (w ++ r)) in E. }
  destruct Hs as [w' ->]. assert (Hc : c = 45 \/ 48 <= c <= 57 \/ 97 <= c <= 122) by done.
  rewrite (compose_flow _ _ _ _ c (w' ++ r)) by (done || lia). set (s0 := with_node s None None None YNull) in *.
  assert (H' : sees s0 ((c :: w') ++ r)) by exact H. cbn [readFlowCollection]. cbv zeta. rewrite (sees_0 _ c (w' ++ r)) by exact H'.
  rewrite (proj2 (Z.eqb_neq c 91)), (proj2 (Z.eqb_neq c 123)) by lia. cbn [orb negb result_bind fst snd].
  unfold readScalar, readSingleQuotedScalar, readDoubleQuotedScalar, readAlias. rewrite Hn. cbn [result_bind fst snd].
  do 3 (rewrite (sees_0 _ c (w' ++ r)) by exact H'; rewrite (proj2 (Z.eqb_neq c _)) by lia; cbn [negb result_bind fst snd]).
  rewrite Ep. cbn [result_bind fst snd]. change (set_anchor _ _ _) with (with_node s' (Some (js "?")) None (Some Scalar) (YStr (c :: w'))).
  by rewrite (resolve_plain _ _ _ Hb).
Qed.
Lemma compose_word fuel s t w b r : word w -> sees s (w ++ r) -> closes r -> implicit w = Some b ->
  composeNode leaf input il (S (S fuel)) s t FLOW_IN false true = Ok (read s (len w) (Some (tag b)) (Some Scalar) (construct b (YStr w)), true).
Proof.
  intros Hw H Hr Hb. apply (compose_plain _ _ _ FLOW_IN w b r (next s (len w))); try done.
  change (bool_decide (FLOW_IN = FLOW_IN)) with true. by rewrite (plain_ok _ _ _ r Hw).
Qed.

(** A text in quotes, also as a key. *)
Lemma compose_quoted fuel s t n u r : block_context n = false -> Forall is_unit u -> sees s (json_quote u ++ r) -> lineStart s <= position s ->
  composeNode leaf input il (S (S fuel)) s t n false true = Ok (read s (len (json_quote u)) None (Some Scalar) (YStr u), true).
Proof.
  intros Hn Hu H Hl. assert (Hs : ∃ r', sees s (34 :: r')) by (eexists; exact H). destruct Hs as [r' Hs].
  rewrite (compose_flow _ _ _ _ 34 r') by done. set (s0 := with_node s None None None YNull). assert (H' : sees s0 (34 :: r')) by exact Hs.
  cbn [readFlowCollection]. cbv zeta. rewrite (sees_0 _ 34 r') by exact H'. cbn [Z.eqb Pos.eqb orb negb result_bind fst snd].
  unfold readScalar, readSingleQuotedScalar. rewrite Hn. cbn [result_bind fst snd]. rewrite (sees_0 _ 34 r') by exact H'. cbn [Z.eqb Pos.eqb negb result_bind fst snd].
  rewrite (quoted_ok u s0 r) by done. done.
Qed.

(** ** Collections *)

Definition text (v : jval) : list Z := default (js "null") (json_stringify v).
(** The first characters of the texts of documents. *)
Definition opener (c : Z) : Prop := c = 34 \/ c = 45 \/ c = 91 \/ c = 123 \/ letter c.
Lemma opener_facts c : opener c -> c ≠ 0 /\ c ≠ 35 /\ c ≠ 63 /\ c ≠ 33 /\ c ≠ 38 /\ c ≠ 93 /\ c ≠ 125 /\ is_WS_OR_EOL c = false.
Proof.
  unfold opener, letter. intros Hc. split_and!; try lia. unfold is_WS_OR_EOL, is_WHITE_SPACE, is_EOL.
  by rewrite (proj2 (Z.eqb_neq c 9)), (proj2 (Z.eqb_neq c 32)), (proj2 (Z.eqb_neq c 10)), (proj2 (Z.eqb_neq c 13)) by lia.
Qed.
Lemma closer_facts c : c ∈ [44; 58; 93; 125] -> c ≠ 0 /\ c ≠ 35 /\ is_WS_OR_EOL c = false.
Proof. intros Hc. repeat (apply elem_of_cons in Hc as [->|Hc]; [done|]). by apply elem_of_nil in Hc. Qed.

Lemma sees_node s tg an kd v r : sees s r -> sees (with_node s tg an kd v) r.
Proof. done. Qed.
Lemma node_eta s : with_node s (ntag s) (anchor s) (nkind s) (nresult s) = s.
Proof. by destruct s. Qed.

(** A node of a flow collection is read from its text. *)
Definition composes (v : jval) : Prop := (∃ c w, text v = c :: w /\ opener c) /\
  ∀ fuel s t r, sees s (text v ++ r) -> closes r -> lineStart s < position s -> (3 * length (text v) < fuel)%nat ->
    ∃ tg kd, composeNode leaf input il fuel s t FLOW_IN false true = Ok (read s (len (text v)) tg kd (of_jval v), true).

(** What [flow_entries] leaves: [k] characters on, with some node. *)
Definition after (s : state) (k : Z) (s' : state) : Prop := ∃ tg an kd v, s' = with_node (next s k) tg an kd v.
Lemma after_next s k : after s k (next s k).
Proof. exists (ntag s), (anchor s), (nkind s), (nresult s). by rewrite <- (node_eta (next s k)) at 1. Qed.
Lemma after_trans s a s1 b s2 : after s a s1 -> after s1 b s2 -> after s (a + b) s2.
Proof.
  intros (? & ? & ? & ? & ->) (tg & an & kd & v & ->). exists tg, an, kd, v. rewrite <- next_next. done.
Qed.
Lemma after_sees s k s' u r : after s k s' -> k = len u -> sees s (u ++ r) -> sees s' r.
Proof. intros (? & ? & ? & ? & ->) -> H. apply sees_node. by apply sees_next. Qed.
Lemma after_line s k s' : after s k s' -> 0 <= k -> lineStart s < position s -> lineStart s' < position s' /\ line s' = line s.
Proof. intros (? & ? & ? & ? & ->) Hk Hl. split; [|done]. unfold next, with_position, with_place. cbn [position lineStart with_node]. lia. Qed.

Lemma flow_entries_S fuel s t u d rf : flow_entries leaf input il (S fuel) s t u d rf =
  flow_step leaf input (composeNode leaf input il fuel) (λ s d rf, flow_entries leaf input il fuel s t u d rf) s t u d rf.
Proof. done. Qed.

(** The end of a flow collection. *)
Lemma flow_end fuel s t (u d : bool) rf r : sees s ((if u then 125 else 93) :: r) -> flow_entries leaf input il (S fuel) s t u d rf = Ok (next s 1, rf).
Proof.
  intros H. rewrite flow_entries_S. unfold flow_step. destruct rf as [ys f]. rewrite (sees_0 _ _ _ H).
  replace ((if u then 125 else 93) =? 0) with false by by destruct u. rewrite (skip_nothing _ _ _ _ H) by by destruct u.
  cbn [result_bind fst]. rewrite (sees_0 _ _ _ H). by rewrite Z.eqb_refl.
Qed.

(** One element of an array, up to what follows it. *)
Lemma array_element fuel s t acc v c r : composes v -> sees s (text v ++ c :: r) -> c ∈ [44; 93] -> lineStart s < position s -> (3 * length (text v) < fuel)%nat ->
  ∃ s', after s (len (text v)) s' /\ flow_entries leaf input il (S fuel) s t false true (acc, ([], [])) =
    (if c =? 44 then flow_entries leaf input il fuel (next s' 1) t false true (acc ++ [of_jval v], ([], []))
     else flow_entries leaf input il fuel s' t false false (acc ++ [of_jval v], ([], []))).
Proof.
  intros [(c0 & w & E & Ho) Hv] H Hc Hl Hf. destruct (opener_facts c0 Ho) as (H0 & H35 & H63 & H33 & H38 & H93 & H125 & Hw).
  destruct (Hv fuel s t (c :: r) H) as (tg & kd & Ec); [exists c, r; split; [done|set_solver]|done|done|].
  assert (Hs : sees s (c0 :: w ++ c :: r)) by by rewrite E in H.
  exists (read s (len (text v)) tg kd (of_jval v)). split; [by exists tg, None, kd, (of_jval v)|].
  assert (Hs' : sees (read s (len (text v)) tg kd (of_jval v)) (c :: r)) by by apply sees_node, sees_next.
  destruct (closer_facts c) as (Hc0 & Hc35 & Hcw); [set_solver|].
  rewrite flow_entries_S. unfold flow_step. rewrite (sees_0 _ _ _ Hs), (proj2 (Z.eqb_neq c0 0)) by done.
  rewrite (skip_nothing _ _ _ _ Hs) by done. cbn [result_bind fst snd]. rewrite (sees_0 _ _ _ Hs), (proj2 (Z.eqb_neq c0 93)), (proj2 (Z.eqb_neq c0 63)) by done.
  cbn [negb andb result_bind fst snd]. rewrite Ec. cbn [result_bind fst snd]. rewrite (skip_nothing _ _ _ _ Hs') by done. cbn [result_bind fst snd].
  rewrite (sees_0 _ _ _ Hs'). replace (c =? 58) with false by (symmetry; apply Z.eqb_neq; set_solver by lia). rewrite andb_false_r. cbn [orb result_bind fst snd].
  rewrite (skip_nothing _ _ _ _ Hs') by done. cbn [result_bind fst snd]. rewrite (sees_0 _ _ _ Hs'). done.
Qed.

Lemma join_cons (x : list Z) l : l ≠ [] -> join [44] (x :: l) = x ++ [44] ++ join [44] l.
Proof. by destruct l. Qed.
Lemma array_entries l : Forall composes l -> ∀ fuel s t acc r,
  sees s (join [44] (text <$> l) ++ 93 :: r) -> lineStart s < position s -> (3 * length (join [44%Z] (text <$> l)) + 2 <= fuel)%nat ->
  ∃ s', after s (len (join [44] (text <$> l)) + 1) s' /\
    flow_entries leaf input il fuel s t false true (acc, ([], [])) = Ok (s', (acc ++ (of_jval <$> l), ([], []))).
Proof.
  induction 1 as [|v l Hv Hl IH]; intros fuel s t acc r H Hp Hf.
  { cbn [fmap list_fmap join] in *. exists (next s 1). split; [apply after_next|]. rewrite app_nil_r. destruct fuel; [lia|]. by apply (flow_end _ _ _ false _ _ r). }
  destruct fuel as [|fuel]; [lia|]. destruct l as [|v' l].
  - cbn [fmap list_fmap join] in *. destruct (array_element fuel s t acc v 93 r Hv H) as (s' & Ha & E); [set_solver|done|lia|].
    exists (next s' 1). split; [by eapply after_trans; [|apply after_next]|]. rewrite E. cbn [Z.eqb Pos.eqb]. destruct fuel as [|fuel]; [lia|].
    apply (flow_end _ _ _ false _ _ r). by eapply (after_sees s _ _ (text v)).
  - rewrite fmap_cons, join_cons in H, Hf |- * by done. rewrite <- !app_assoc in H. cbn [app] in H. rewrite !length_app in Hf. cbn [length] in Hf.
    destruct (array_element fuel s t acc v 44 _ Hv H) as (s' & Ha & E); [set_solver|done|lia|]. rewrite E. cbn [Z.eqb Pos.eqb].
    assert (Hs' : sees s' (44 :: join [44] (text <$> v' :: l) ++ 93 :: r)) by by eapply (after_sees s _ _ (text v)).
    assert (Hp' : lineStart (next s' 1) < position (next s' 1)).
    { destruct (after_line s _ s' Ha (len_nonneg _) Hp). next_lia. }
    destruct (IH fuel (next s' 1) t (acc ++ [of_jval v]) r) as (s2 & Ha2 & E2); [by apply (sees_next_1 _ 44)|done|lia|].
    exists s2. split; [|by rewrite E2, <- app_assoc].
    replace (len _ + 1) with (len (text v) + (1 + (len (join [44] (text <$> v' :: l)) + 1))) by (rewrite !len_app; change (len [44]) with 1; lia).
    eapply after_trans; [exact Ha|]. eapply after_trans; [apply after_next|exact Ha2].
Qed.

(** The pairs of an object. *)
Definition pair_text (kv : list Z * jval) : list Z := json_quote kv.1 ++ [58] ++ text kv.2.
Definition pair_value (kv : list Z * jval) : list Z * yval := (kv.1, of_jval kv.2).

Lemma store_last s f k v : k ≠ js "__proto__" -> obj_ok (f ++ [(k, v)]) ->
  storeMappingPair leaf input s (f, []) None (YStr k) v None = Ok (f ++ [(k, v)], []).
Proof.
  intros Hk Ho. unfold storeMappingPair. cbn [key_string]. rewrite bool_decide_false by done. unfold has.
  assert (Hn : obj_get f k = None).
  { apply obj_get_None. destruct Ho as [Hn _]. unfold obj_keys in *. rewrite fmap_app in Hn. apply NoDup_app in Hn as (_ & Hd & _).
    intros Hin. apply (Hd k Hin). cbn. set_solver. }
  rewrite Hn, andb_false_r. cbn [List.filter]. unfold put. rewrite decide_False by done. by rewrite obj_set_last.
Qed.

Lemma object_element fuel s t f k v c r : Forall is_unit k -> k ≠ js "__proto__" -> obj_ok (f ++ [(k, of_jval v)]) ->
  composes v -> sees s (pair_text (k, v) ++ c :: r) -> c ∈ [44; 125] -> lineStart s < position s -> (3 * length (pair_text (k, v)) < fuel)%nat ->
  ∃ s', after s (len (pair_text (k, v))) s' /\ flow_entries leaf input il (S fuel) s t true true ([], (f, [])) =
    (if c =? 44 then flow_entries leaf input il fuel (next s' 1) t true true ([], (f ++ [(k, of_jval v)], []))
     else flow_entries leaf input il fuel s' t true false ([], (f ++ [(k, of_jval v)], []))).
Proof.
  intros Hk Hp Ho [(c0 & w & Et & Hop) Hv] H Hc Hl Hf. unfold pair_text in *. cbn [fst snd] in *. rewrite <- !app_assoc in H. rewrite !length_app in Hf. cbn [app length] in H, Hf.
  assert (Hs : ∃ r', sees s (34 :: r')) by (eexists; exact H). destruct Hs as [r' Hs]. destruct fuel as [|[|fuel]]; [lia|lia|].
  pose proof (compose_quoted fuel s t FLOW_IN k _ eq_refl Hk H ltac:(lia)) as Ek. set (s1 := read s (len (json_quote k)) None (Some Scalar) (YStr k)) in *.
  assert (Hs1 : sees s1 (58 :: text v ++ c :: r)) by (apply sees_node, sees_next; exact H). apply sees_next_1 in Hs1 as Hs2.
  assert (Hl2 : lineStart (next s1 1) < position (next s1 1)).
  { pose proof (len_nonneg (json_quote k)). unfold s1, read. unfold next, with_position, with_place in *. cbn [position lineStart with_node]. lia. }
  destruct (Hv (S (S fuel)) (next s1 1) t (c :: r) Hs2) as (tg & kd & Ev); [exists c, r; split; [done|set_solver]|done|lia|].
  set (s3 := read (next s1 1) (len (text v)) tg kd (of_jval v)) in *.
  assert (Hs3 : sees s3 (c :: r)) by by apply sees_node, sees_next.
  exists s3. split.
  { rewrite !len_app. eapply after_trans; [|eapply after_trans; [apply after_next|]]; [by exists None, None, (Some Scalar), (YStr k)|].
    by exists tg, None, kd, (of_jval v). }
  destruct (closer_facts c) as (Hc0 & Hc35 & Hcw); [set_solver|].
  rewrite flow_entries_S. unfold flow_step. rewrite (sees_0 _ _ _ Hs). cbn [Z.eqb Pos.eqb]. rewrite (skip_nothing _ _ _ _ Hs) by done. cbn [result_bind fst snd].
  rewrite (sees_0 _ _ _ Hs). cbn [Z.eqb Pos.eqb negb andb result_bind fst snd]. rewrite Ek. cbn [result_bind fst snd].
  rewrite (skip_nothing _ _ _ _ Hs1) by done. cbn [result_bind fst snd]. rewrite (sees_0 _ _ _ Hs1). change (line s1) with (line s). rewrite Z.eqb_refl. cbn [orb andb Z.eqb Pos.eqb].
  destruct (opener_facts c0 Hop) as (_ & H35 & _ & _ & _ & _ & _ & Hw).
  rewrite (skip_nothing _ _ c0 (w ++ c :: r)) by (done || (rewrite Et in Hs2; exact Hs2)). cbn [result_bind fst snd]. rewrite Ev. cbn [result_bind fst snd].
  change (ntag s1) with (@None (list Z)). change (nresult s1) with (YStr k). change (nresult s3) with (of_jval v). rewrite store_last by done. cbn [result_bind fst snd].
  rewrite (skip_nothing _ _ _ _ Hs3) by done. cbn [result_bind fst snd]. by rewrite (sees_0 _ _ _ Hs3).
Qed.

Lemma object_entries l : ∀ fuel s t f r,
  Forall (λ kv, Forall is_unit kv.1 /\ kv.1 ≠ js "__proto__" /\ composes kv.2) l -> obj_ok (f ++ (pair_value <$> l)) ->
  sees s (join [44] (pair_text <$> l) ++ 125 :: r) -> lineStart s < position s -> (3 * length (join [44%Z] (pair_text <$> l)) + 2 <= fuel)%nat ->
  ∃ s', after s (len (join [44] (pair_text <$> l)) + 1) s' /\
    flow_entries leaf input il fuel s t true true ([], (f, [])) = Ok (s', ([], (f ++ (pair_value <$> l), []))).
Proof.
  induction l as [|[k v] l IH]; intros fuel s t f r Hl Ho H Hp Hf.
  { cbn [fmap list_fmap join] in *. exists (next s 1). split; [apply after_next|]. rewrite app_nil_r. destruct fuel; [lia|]. by apply (flow_end _ _ _ true _ _ r). }
  apply Forall_cons in Hl as [(Hu & Hk & Hv) Hl]. cbn [fst snd] in Hu, Hk, Hv. change (pair_value <$> (k, v) :: l) with ((k, of_jval v) :: (pair_value <$> l)) in *.
  assert (Ho1 : obj_ok (f ++ [(k, of_jval v)])).
  { change ((k, of_jval v) :: (pair_value <$> l)) with ([(k, of_jval v)] ++ (pair_value <$> l)) in Ho. rewrite app_assoc in Ho. by eapply obj_ok_app_l. }
  destruct fuel as [|fuel]; [lia|]. destruct l as [|kv l].
  - cbn [fmap list_fmap join] in *. destruct (object_element fuel s t f k v 125 r Hu Hk Ho1 Hv H) as (s' & Ha & E); [set_solver|done|lia|].
    exists (next s' 1). split; [by eapply after_trans; [|apply after_next]|]. rewrite E. cbn [Z.eqb Pos.eqb]. destruct fuel as [|fuel]; [lia|].
    apply (flow_end _ _ _ true _ _ r). by eapply (after_sees s _ _ (pair_text (k, v))).
  - rewrite fmap_cons, join_cons in H, Hf |- * by done. rewrite <- !app_assoc in H. cbn [app] in H. rewrite !length_app in Hf. cbn [length] in Hf.
    destruct (object_element fuel s t f k v 44 _ Hu Hk Ho1 Hv H) as (s' & Ha & E); [set_solver|done|lia|]. rewrite E. cbn [Z.eqb Pos.eqb].
    assert (Hs' : sees s' (44 :: join [44] (pair_text <$> kv :: l) ++ 125 :: r)) by by eapply (after_sees s _ _ (pair_text (k, v))).
    assert (Hp' : lineStart (next s' 1) < position (next s' 1)).
    { destruct (after_line s _ s' Ha (len_nonneg _) Hp). next_lia. }
    destruct (IH fuel (next s' 1) t (f ++ [(k, of_jval v)]) r) as (s2 & Ha2 & E2); [done|by rewrite <- app_assoc|by apply (sees_next_1 _ 44)|done|lia|].
    exists s2. split; [|by rewrite E2, <- app_assoc].
    replace (len _ + 1) with (len (pair_text (k, v)) + (1 + (len (join [44] (pair_text <$> kv :: l)) + 1))) by (rewrite !len_app; change (len [44]) with 1; lia).
    eapply after_trans; [exact Ha|]. eapply after_trans; [apply after_next|exact Ha2].
Qed.

(** A flow collection, as a node in any context of flow. *)
Lemma compose_collection fuel s t n (u : bool) w r ys f : block_context n = false -> sees s ((if u then 123 else 91) :: w ++ (if u then 125 else 93) :: r) ->
  (∃ s', after (next (with_node s None None None YNull) 1) (len w + 1) s' /\
    flow_entries leaf input il fuel (next (with_node s None None None YNull) 1) t u true ([], ([], [])) = Ok (s', (ys, (f, [])))) ->
  composeNode leaf input il (S (S fuel)) s t n false true =
    Ok (read s (len w + 2) None (Some (if u then Mapping else Sequence)) (if u then YObj f else YArr ys), true).
Proof.
  intros Hn H (s' & (tg & an & kd & v & ->) & E). rewrite (compose_flow _ _ _ _ _ _ Hn H) by by destruct u. set (s0 := with_node s None None None YNull) in *.
  assert (H0 : sees s0 ((if u then 123 else 91) :: w ++ (if u then 125 else 93) :: r)) by exact H.
  change (readFlowCollection leaf input il (S fuel) s0 t) with
    (let p := at_ input s0 0 in
     if negb ((p =? 91) || (p =? 123)) then Ok (s0, false) else
     let u := p =? 123 in
     let h := ntag s0 in
     let v := anchor s0 in
     let! x := flow_entries leaf input il fuel (next (set_anchor s0 v None) 1) t u true ([], ([], [])) in
     Ok (complete x.1 h v (if u then Mapping else Sequence) (if u then YObj x.2.2.1 else YArr x.2.1), true)).
  cbv zeta. rewrite (sees_0 _ _ _ H0). change (set_anchor s0 (anchor s0) None) with s0.
  replace (negb (((if u then 123 else 91) =? 91) || ((if u then 123 else 91) =? 123))) with false by by destruct u.
  replace ((if u then 123 else 91) =? 123) with u by by destruct u. rewrite E. cbn [result_bind fst snd].
  change (with_node (next (next s0 1) (len w + 1)) tg an kd v) with (with_node (next (next s 1) (len w + 1)) tg an kd v). rewrite next_next.
  replace (1 + (len w + 1)) with (len w + 2) by lia. done.
Qed.

(** ** Documents *)

Lemma document_defined v : document v -> json_stringify v = Some (text v).
Proof. by destruct v. Qed.
Lemma document_elements l : foldr (λ v P, document v /\ P) True l <-> Forall document l.
Proof. induction l as [|v l IH]; cbn; [by split|]. by rewrite IH, Forall_cons. Qed.
Lemma document_members o : foldr (λ kv P, (Forall is_unit kv.1 /\ kv.1 ≠ js "__proto__" /\ document kv.2) /\ P) True o <->
  Forall (λ kv, Forall is_unit kv.1 /\ kv.1 ≠ js "__proto__" /\ document kv.2) o.
Proof. induction o as [|kv o IH]; cbn; [by split|]. by rewrite IH, Forall_cons. Qed.
Lemma array_text l : text (JArr l) = 91 :: join [44] (text <$> l) ++ [93].
Proof. done. Qed.
Lemma object_text o : Forall (λ kv, Forall is_unit kv.1 /\ kv.1 ≠ js "__proto__" /\ document kv.2) o -> text (JObj o) = 123 :: join [44] (pair_text <$> o) ++ [125].
Proof.
  intros H. unfold text at 1. cbn [json_stringify default from_option id]. change ([123] ++ ?x ++ [125]) with (123 :: x ++ [125]). f_equal. f_equal. f_equal.
  induction H as [|[k v] o (_ & _ & Hv) _ IH]; [done|]. cbn [omap list_omap]. cbn in Hv. rewrite (document_defined v Hv). rewrite fmap_cons. by rewrite <- IH.
Qed.

(** The texts of null and of the booleans. *)
Lemma constant_word s : s ∈ ["null"; "true"; "false"]%string -> word (js s).
Proof.
  intros Hs. exists false, (js s). split; [done|]. repeat (apply elem_of_cons in Hs as [->|Hs]; [split; [done|]; repeat (apply Forall_cons_2; [right; vm_compute; split; discriminate|]); apply Forall_nil_2|]).
  by apply elem_of_nil in Hs.
Qed.
Lemma num_word z : word (num_to_string z).
Proof.
  destruct (num_digits z) as (c & s & -> & Hd & _). exists (z <? 0), (c :: s). split_and!; [done|done|]. eapply Forall_impl; [exact Hd|]. by left.
Qed.
Lemma word_opener w : word w -> ∃ c u, w = c :: u /\ opener c.
Proof.
  intros (neg & u & -> & Hne & Hu). destruct u as [|c u]; [done|]. apply Forall_cons in Hu as [Hc _]. destruct neg; eexists _, _; (split; [reflexivity|]); unfold opener; auto.
Qed.

(** A scalar that is no text, with the type that reads it. *)
Definition scalar_type (v : jval) : option ytype :=
  match v with JNull => Some null_type | JBool _ => Some bool_type | JNum _ => Some int_type | _ => None end.
Lemma scalar_facts v b : scalar_type v = Some b -> word (text v) /\ implicit (text v) = Some b /\ construct b (YStr (text v)) = of_jval v.
Proof.
  intros H. destruct v as [| |[]|z| | |]; try discriminate H; injection H as <-.
  - split_and!; [apply (constant_word "null"); set_solver|by vm_compute|by vm_compute].
  - split_and!; [apply (constant_word "true"); set_solver|by vm_compute|by vm_compute].
  - split_and!; [apply (constant_word "false"); set_solver|by vm_compute|by vm_compute].
  - change (text (JNum z)) with (num_to_string z). split_and!; [apply num_word|apply implicit_num|]. by destruct (num_digits z) as (? & ? & _ & _ & _ & ?).
Qed.

Lemma scalar_composes v b : scalar_type v = Some b -> composes v.
Proof.
  intros H. destruct (scalar_facts v b H) as (Hw & Hb & Hv). split; [by destruct (word_opener _ Hw) as (c & u & ? & ?); eauto|].
  intros fuel s t r Hs Hr Hp Hf. destruct fuel as [|[|fuel]]; [lia| |].
  - destruct (word_opener _ Hw) as (c & u & E & _). rewrite E in Hf. cbn in Hf. lia.
  - eexists _, _. rewrite (compose_word _ _ _ _ _ _ Hw Hs Hr Hb). by rewrite Hv.
Qed.

(** The value of a collection in any context of flow. *)
Definition reads_in (n : context) (v : jval) : Prop := ∀ fuel s t r, sees s (text v ++ r) -> lineStart s <= position s -> (3 * length (text v) < fuel)%nat ->
  ∃ kd, composeNode leaf input il fuel s t n false true = Ok (read s (len (text v)) None kd (of_jval v), true).
Lemma text_reads n u : block_context n = false -> Forall is_unit u -> reads_in n (JStr u).
Proof.
  intros Hn Hu fuel s t r H Hl Hf. change (text (JStr u)) with (json_quote u) in *. destruct fuel as [|[|fuel]]; [lia|cbn in Hf; lia|].
  eexists. by apply (compose_quoted _ _ _ _ _ r).
Qed.
Lemma len_brackets (a b : Z) w : len (a :: w ++ [b]) = len w + 2.
Proof. rewrite len_cons, len_app. change (len [b]) with 1. lia. Qed.
Lemma array_reads n l : block_context n = false -> Forall composes l -> reads_in n (JArr l).
Proof.
  intros Hn Hl fuel s t r H Hp Hf. rewrite array_text in *. cbn [app] in H. rewrite <- app_assoc in H. cbn [app length] in H, Hf. rewrite length_app in Hf. cbn [length] in Hf.
  destruct fuel as [|[|fuel]]; [lia|lia|]. eexists. rewrite (compose_collection fuel s t n false _ r (of_jval <$> l) [] Hn H).
  - by rewrite len_brackets.
  - destruct (array_entries l Hl fuel (next (with_node s None None None YNull) 1) t [] r) as (s' & Ha & E); [by apply (sees_next_1 _ 91)|next_lia|lia|].
    by exists s'.
Qed.
Lemma object_reads n o : block_context n = false -> Forall (λ kv, Forall is_unit kv.1 /\ kv.1 ≠ js "__proto__" /\ document kv.2) o -> obj_ok o ->
  Forall (λ kv, composes kv.2) o -> reads_in n (JObj o).
Proof.
  intros Hn Ho Hok Hc fuel s t r H Hp Hf. rewrite (object_text o Ho) in *. cbn [app] in H. rewrite <- app_assoc in H. cbn [app length] in H, Hf. rewrite length_app in Hf. cbn [length] in Hf.
  destruct fuel as [|[|fuel]]; [lia|lia|]. eexists. rewrite (compose_collection fuel s t n true _ r [] (pair_value <$> o) Hn H).
  - by rewrite len_brackets.
  - destruct (object_entries o fuel (next (with_node s None None None YNull) 1) t [] r) as (s' & Ha & E); [| |by apply (sees_next_1 _ 123)|next_lia|lia|].
    + apply Forall_and in Ho as [Hu Ho]. apply Forall_and in Ho as [Hk _]. rewrite !Forall_and. done.
    + cbn [app]. unfold obj_ok, obj_keys in *. by rewrite <- list_fmap_compose.
    + by exists s'.
Qed.

Lemma reads_composes v c w : text v = c :: w -> opener c -> reads_in FLOW_IN v -> composes v.
Proof.
  intros E Ho H. split; [eauto|]. intros fuel s t r Hs _ Hp Hf. destruct (H fuel s t r Hs ltac:(lia) Hf) as (kd & Ec). eauto.
Qed.
Lemma document_composes v : document v -> composes v.
Proof.
  induction v as [| |b|z|u|l IH|o IH] using jval_ind'; intros Hd; try done; try (by eapply scalar_composes).
  - apply (reads_composes _ 34 (body u ++ [34])); [done|by left|]. by apply text_reads.
  - apply document_elements in Hd. eapply (reads_composes _ 91); [by rewrite array_text|by unfold opener; auto|]. apply array_reads; [done|].
    rewrite Forall_forall in *. eauto.
  - destruct Hd as [Hok Hd]. apply document_members in Hd. eapply (reads_composes _ 123); [by rewrite object_text|by unfold opener; auto|].
    apply object_reads; try done. rewrite Forall_forall in *. intros kv Hin. apply IH; [done|]. by destruct (Hd kv Hin) as (_ & _ & ?).
Qed.

(** ** The whole text *)

(** The state after the line break at the end of the text. *)
Definition eol (s : state) : state := with_place s (position s + 1) (line s + 1) (position s + 1) 0.
Lemma skip_loop_end k s t n : sees s [0] -> skip_loop input k t s n = Ok (s, n).
Proof. intros H. destruct k as [|k]; [done|]. cbn [skip_loop]. by rewrite (sees_0 _ _ _ H). Qed.
Lemma skip_end s t : sees s [0] -> skipSeparationSpace input s t = Ok (s, 0).
Proof. apply skip_loop_end. Qed.
Lemma eol_sees s : sees s [10; 0] -> sees (eol s) [0].
Proof. intros H. by apply (sees_next_1 s 10). Qed.
Lemma skip_eol s t : sees s [10; 0] -> skipSeparationSpace input s t = Ok (eol s, 1).
Proof.
  intros H. unfold skipSeparationSpace. cbn [skip_loop]. rewrite (sees_0 _ _ _ H). cbn [Z.eqb Pos.eqb]. rewrite (skip_while_none _ _ 10 [0] H) by done.
  rewrite (sees_0 _ _ _ H). rewrite andb_false_r. rewrite (sees_0 _ _ _ H). change (is_EOL 10) with true. unfold readLineBreak at 1. rewrite (sees_0 _ _ _ H).
  cbn [Z.eqb Pos.eqb result_bind]. set (s1 := with_place s (position s + 1) (line s + 1) (position s + 1) (lineIndent s)).
  assert (E : read_indent input s1 = eol s).
  { assert (H1 : rest input s1 = [0]) by by destruct (eol_sees s H). unfold read_indent. rewrite H1. cbn [prefix_while]. change (0 =? 32) with false.
    change (32 =? 0) with false. change (len []) with 0. rewrite next_0. done. }
  rewrite E. apply skip_loop_end, eol_sees, H.
Qed.

(** A node at the start of the text that is no block collection. *)
Lemma compose_block fuel s t c d r s1 s2 : sees s (c :: d :: r) -> opener c -> (c = 45 -> letter d) ->
  composeNode leaf input il fuel (with_node s None None None YNull) (t + 1) FLOW_OUT false true = Ok (s1, true) ->
  (line s1 = line s /\ sees s1 [10; 0] /\ s2 = s1) \/ (line s1 ≠ line s /\ s2 = s1) ->
  composeNode leaf input il (S (S (S fuel))) s t BLOCK_OUT false true = Ok (with_node s2 None None (nkind s1) (nresult s1), true).
Proof.
  intros H Ho Hd Ec Hs. destruct (opener_facts c Ho) as (H0 & H35 & H63 & H33 & H38 & H93 & H125 & Hw).
  assert (H58 : c ≠ 58) by (unfold opener, letter in Ho; lia).
  change (composeNode leaf input il (S (S (S fuel))) s t BLOCK_OUT false true) with
    (compose_step input il (readBlockSequence leaf input il (S (S fuel))) (readBlockMapping leaf input il (S (S fuel))) (readFlowCollection leaf input il (S (S fuel))) s t BLOCK_OUT false true).
  unfold compose_step. cbv zeta. cbn [result_bind]. change (0 =? 0) with true. cbn [negb]. change (1 =? 1) with true. cbn iota.
  set (s0 := with_node s None None None YNull) in *. assert (Hs0 : sees s0 (c :: d :: r)) by exact H.
  rewrite (no_properties _ _ _ _ _ _ _ c (d :: r) (sees_nonempty _ _ _ Hs0) Hs0 H33 H38). cbn [result_bind andb orb block_context]. change (1 =? 1) with true. cbn [orb]. unfold readContent at 1.
  assert (Eseq : readBlockSequence leaf input il (S (S fuel)) s0 (position s0 - lineStart s0) = Ok (s0, false)).
  { change (readBlockSequence leaf input il (S (S fuel)) s0 (position s0 - lineStart s0)) with
      (let! x := sequence_step input (composeNode leaf input il fuel) (λ s a u, block_entries leaf input il fuel s (position s0 - lineStart s0) a u) s0 (position s0 - lineStart s0) [] false in
       let '(s, a, u) := (x : state * list yval * bool) in
       if u then Ok (complete s None None Sequence (YArr a), true) else Ok (set_anchor s None (Some (YArr [])), false)).
    unfold sequence_step. rewrite (sees_0 _ _ _ Hs0), (sees_1 _ _ _ _ Hs0). replace ((c =? 45) && is_WS_OR_EOL d) with false; [done|].
    destruct (Z.eqb_spec c 45) as [E|]; [|done]. destruct (letter_facts d (Hd E)) as (_ & _ & _ & _ & _ & _ & He & Hx). unfold is_WS_OR_EOL. by rewrite Hx, He. }
  rewrite Eseq. cbn [result_bind fst snd].
  assert (Emap : readBlockMapping leaf input il (S (S fuel)) s0 (position s0 - lineStart s0) (t + 1) = Ok (with_node s2 None None (nkind s1) (nresult s1), true)).
  { change (readBlockMapping leaf input il (S (S fuel)) s0 (position s0 - lineStart s0) (t + 1)) with
      (let! x := mapping_step leaf input (composeNode leaf input il fuel) (λ s m, block_pairs leaf input il fuel s (position s0 - lineStart s0) (t + 1) None None m)
                   s0 (position s0 - lineStart s0) (t + 1) None None (no_key ([], []) false false) in
       match x with
       | (s, None) => Ok (set_anchor s None (Some (YObj [])), true)
       | (s, Some m) =>
           let! f := store_explicit leaf input s m in
           if detected m then Ok (complete s None None Mapping (YObj f.1), true) else Ok (set_anchor s None (Some (YObj [])), false)
       end).
    unfold mapping_step. cbv zeta. rewrite (sees_0 _ _ _ Hs0), (proj2 (Z.eqb_neq c 0)), (proj2 (Z.eqb_neq c 63)), (proj2 (Z.eqb_neq c 58)) by done.
    cbn [orb andb]. rewrite Ec. cbn [result_bind fst snd negb]. change (line s0) with (line s).
    destruct Hs as [(El & Hs1 & ->)|(El & ->)].
    - rewrite El, Z.eqb_refl. rewrite (skip_while_none _ _ 10 [0] Hs1) by done. rewrite (sees_0 _ _ _ Hs1). done.
    - by rewrite (proj2 (Z.eqb_neq _ _) El). }
  rewrite Emap. cbn [result_bind fst snd]. done.
Qed.

(** A word that is the whole text. *)
Lemma plain_top w s t : word w -> sees s (w ++ [10; 0]) -> t <= 0 ->
  readPlainScalar input s t false = Ok (with_scalar (eol (next s (len w))) w, true).
Proof.
  intros Hw H Ht. destruct (word_start w [10; 0] s Hw H) as (c0 & E0 & Hp & H63 & H0 & Hm & Hl). unfold readPlainScalar. cbv zeta. rewrite E0, Hp.
  replace (((c0 =? 63) || (c0 =? 45)) && _) with false.
  2: { rewrite (proj2 (Z.eqb_neq c0 63)) by done. destruct (Z.eqb_spec c0 45); [|done]. destruct Hm as [-> ->]; done. }
  assert (Hlen : (length w + 2 <= length input)%nat).
  { destruct H as [_ E]. unfold rest in E. apply (f_equal length) in E. rewrite length_drop, length_app in E. cbn in E. lia. }
  replace (S (length input)) with (length w + S (S (length input - length w - 1)))%nat by lia.
  rewrite (plain_word w _ _ _ _ _ _ _ [10; 0] Hw H). assert (Hs : sees (next s (len w)) [10; 0]) by by apply sees_next.
  cbn [plain_loop]. cbv zeta. rewrite (sees_0 _ _ _ Hs). cbn [Z.eqb Pos.eqb andb]. rewrite (no_separator_1 _ 10 [0] Hs) by done. cbn [orb].
  change (is_EOL 10) with true. rewrite (skip_eol _ _ Hs). cbn [result_bind fst snd]. rewrite (proj2 (Z.leb_le t (lineIndent (eol (next s (len w)))))) by done.
  rewrite (sees_0 _ _ _ (eol_sees _ Hs)). cbn [Z.eqb result_bind].
  assert (Hpd : pending (next s (len w)) (position s) w [10; 0]).
  { destruct H as [Hpos E]. split_and!; [done|done|exact E]. }
  change (position s + len w) with (position (next s (len w))). rewrite (capture_ok _ _ _ _ _ false Hpd) by by apply word_printable.
  cbn [result_bind app]. destruct w as [|x w]; [|done]. destruct Hw as (neg & u & E & Hne & _). destruct neg, u; done.
Qed.

(** The second character of a text that starts with a minus sign is a digit. *)
Lemma word_second w c d r : word w -> w = c :: d :: r -> c = 45 -> letter d.
Proof.
  intros (neg & u & E & Hne & Hu) -> ->. destruct neg; cbn in E.
  - injection E as <-. by apply Forall_cons in Hu as [? _].
  - rewrite <- E in Hu. apply Forall_cons in Hu as [Hx _]. unfold letter in Hx. lia.
Qed.

(** The node of the whole text, at its start. *)
Lemma compose_top fuel s v : document v -> sees s (text v ++ [10; 0]) -> lineStart s <= position s -> (3 * length (text v) < fuel)%nat ->
  ∃ s0 kd, composeNode leaf input il (S (S (S fuel))) s (-1) BLOCK_OUT false true = Ok (with_node s0 None None kd (of_jval v), true) /\
    (s0 = next s (len (text v)) \/ s0 = eol (next s (len (text v)))).
Proof.
  intros Hd H Hl Hf. destruct (document_composes v Hd) as [(c & w & Et & Ho) _].
  assert (Hs : ∃ d r, sees s (c :: d :: r) /\ (c = 45 -> letter d)).
  { rewrite Et in H. destruct w as [|d w].
    - exists 10, [0]. split; [done|]. intros ->. exfalso. destruct (scalar_type v) as [b|] eqn:Eb.
      + destruct (scalar_facts v b Eb) as ((neg & u & E & Hne & Hu) & _). rewrite Et in E. destruct neg, u; try done. injection E as <- <-.
        apply Forall_cons in Hu as [Hx _]. unfold letter in Hx. lia.
      + by destruct v.
    - exists d, (w ++ [10; 0]). split; [done|]. intros Hc. destruct (scalar_type v) as [b|] eqn:Eb.
      + destruct (scalar_facts v b Eb) as (Hw & _). by eapply word_second.
      + subst c. by destruct v. }
  destruct Hs as (d & r & Hs & Hcd). destruct (scalar_type v) as [b|] eqn:Eb.
  - destruct (scalar_facts v b Eb) as (Hw & Hb & Hv). destruct fuel as [|[|fuel]]; [lia|rewrite Et in Hf; cbn in Hf; lia|].
    exists (eol (next s (len (text v)))), (Some Scalar). split; [|by right].
    rewrite <- Hv. set (s1 := with_node (eol (next s (len (text v)))) (Some (tag b)) None (Some Scalar) (construct b (YStr (text v)))).
    apply (compose_block (S (S fuel)) s (-1) c d r s1 s1 Hs Ho Hcd); [|right; split; [|reflexivity]].
    + eapply (compose_plain _ _ _ FLOW_OUT (text v) b [10; 0] (eol (next s (len (text v))))); try done.
      exact (plain_top (text v) (with_node s None None None YNull) (-1 + 1) Hw H ltac:(lia)).
    + change (line s + 1 ≠ line s). lia.
  - assert (Hr : reads_in FLOW_OUT v).
    { destruct v; try discriminate Eb; try done.
      - by apply text_reads.
      - apply array_reads; [done|]. apply document_elements in Hd. rewrite Forall_forall in *. intros x Hx. by apply document_composes, Hd.
      - destruct Hd as [Hok Hd]. apply document_members in Hd. apply object_reads; try done. rewrite Forall_forall in *. intros kv Hin. apply document_composes. by destruct (Hd kv Hin) as (_ & _ & ?). }
    destruct (Hr fuel (with_node s None None None YNull) 0 [10; 0] H Hl Hf) as (kd & Ec).
    exists (next s (len (text v))), kd. split; [|by left].
    set (s1 := read (with_node s None None None YNull) (len (text v)) None kd (of_jval v)) in *.
    apply (compose_block fuel s (-1) c d r s1 s1 Hs Ho Hcd Ec). left. split_and!; [done| |reflexivity]. by apply sees_node, (sees_next s).
Qed.

(** The last character of the text of a document. *)
Lemma text_last v : document v -> ∃ w c, text v = w ++ [c] /\ is_EOL c = false.
Proof.
  intros Hd. destruct (scalar_type v) as [b|] eqn:Eb.
  - destruct (scalar_facts v b Eb) as ((neg & u & -> & Hne & Hu) & _). destruct u as [|c u _] using rev_ind; [done|]. apply Forall_app in Hu as [_ Hc]. apply Forall_cons in Hc as [Hc _].
    exists (sign_of neg u), c. split; [by destruct neg|]. by destruct (letter_facts c Hc) as (_ & _ & _ & _ & _ & _ & ? & _).
  - destruct v as [| | | |u|l|o]; try discriminate Eb; try done.
    + by exists (34 :: body u), 34.
    + by exists (91 :: join [44] (text <$> l)), 93.
    + destruct Hd as [_ Hd]. apply document_members in Hd. exists (123 :: join [44] (pair_text <$> o)), 125. by rewrite object_text.
Qed.
End reading.

(** No byte order mark, and the line break is added. *)
Lemma prepare_line c w d w' : c :: w = w' ++ [d] -> c ≠ 65279 -> is_EOL d = false -> prepare (c :: w) = (c :: w) ++ [10].
Proof.
  intros E Hc Hd. assert (Er : reverse (c :: w) = d :: reverse w') by by rewrite E, reverse_snoc. unfold prepare. rewrite Er, Hd. cbn [app]. by rewrite (proj2 (Z.eqb_neq c 65279)).
Qed.

Lemma initial_indent input c r : input = c :: r -> c ≠ 32 -> read_indent input initial = initial.
Proof.
  intros -> Hc. unfold read_indent. change (rest (c :: r) initial) with (c :: r). cbn [prefix_while]. destruct (Z.eqb_spec 32 c); [congruence|done].
Qed.

(** The one document of a text of JSON. *)
Lemma read_one leaf input il v c d r : input = text v ++ [10; 0] -> il = len (text v) + 1 -> document v -> input = c :: d :: r -> opener c -> (c = 45 -> letter d) ->
  ∃ s', readDocument leaf input il initial = Ok s' /\ documents s' = [of_jval v] /\ position s' = il.
Proof.
  intros Ein Eil Hd Ec Ho Hcd. destruct (opener_facts c Ho) as (H0 & H35 & H63 & H33 & H38 & H93 & H125 & Hw).
  assert (H37 : c ≠ 37) by (unfold opener, letter in Ho; lia).
  assert (Hne : (0 < length input)%nat) by (rewrite Ec; cbn; lia).
  assert (Hs : sees input initial (c :: d :: r)) by (split; [done|]; unfold rest; by rewrite Ec).
  unfold readDocument. change (with_directives (with_anchors initial []) None []) with initial.
  assert (Edir : read_directives input (length input) initial false = Ok (initial, false)).
  { destruct (length input) as [|k] eqn:El; [lia|]. cbn [read_directives]. rewrite (sees_0 input initial c (d :: r) Hs), (proj2 (Z.eqb_neq c 0)) by done.
    rewrite (skip_nothing input initial true c (d :: r) Hs Hw) by done. cbn [result_bind fst]. rewrite (sees_0 input initial c (d :: r) Hs), (proj2 (Z.eqb_neq c 37)) by done. done. }
  rewrite Edir. cbn [result_bind fst snd]. rewrite (skip_nothing input initial true c (d :: r) Hs Hw) by done. cbn [result_bind fst snd].
  rewrite (sees_0 input initial c (d :: r) Hs), (sees_1 input initial c d r Hs).
  replace ((lineIndent initial =? 0) && (c =? 45) && (d =? 45) && (at_ input initial 2 =? 45)) with false.
  2: { destruct (Z.eqb_spec c 45) as [E|]; [|done]. specialize (Hcd E). unfold letter in Hcd. by rewrite (proj2 (Z.eqb_neq d 45)) by lia. }
  cbn [result_bind].
  destruct (compose_top leaf input il (10 * length input + 7) initial v Hd) as (s0 & kd & E & Hs0).
  { by split; [|unfold rest; rewrite <- Ein]. }
  { done. }
  { rewrite Ein, length_app. lia. }
  unfold node_fuel. replace (10 * length input + 10)%nat with (S (S (S (10 * length input + 7)))) by lia. change (lineIndent initial - 1) with (-1). rewrite E. cbn [result_bind fst snd].
  assert (Hn : sees input (next initial (len (text v))) [10; 0]) by (apply sees_next; split; [done|]; unfold rest; by rewrite <- Ein).
  set (s1 := with_node (eol (next initial (len (text v)))) None None kd (of_jval v)).
  assert (Ek : skipSeparationSpace input (with_node s0 None None kd (of_jval v)) true = Ok (s1, 1) \/ skipSeparationSpace input (with_node s0 None None kd (of_jval v)) true = Ok (s1, 0)).
  { destruct Hs0 as [-> | ->]; [left|right].
    - by apply (skip_eol input (with_node (next initial (len (text v))) None None kd (of_jval v))).
    - apply skip_end. by apply sees_node, eol_sees. }
  assert (Hs1 : sees input (with_document s1 (of_jval v)) [0]) by (apply (sees_place input (eol (next initial (len (text v)))) _ [0]); [done|by apply eol_sees]).
  assert (Esep : at_separator input (with_document s1 (of_jval v)) = false).
  { by apply (no_separator_1 input (with_document s1 (of_jval v)) 0 []). }
  exists (with_document s1 (of_jval v)). split; [|split; [done|change (0 + len (text v) + 1 = il); lia]].
  destruct Ek as [-> | ->]; cbn [result_bind fst snd]; change (nresult s1) with (of_jval v); rewrite Esep;
    (replace (position (with_document s1 (of_jval v)) <? il - 1) with false; [done|]); symmetry; apply Z.ltb_ge; change (position (with_document s1 (of_jval v))) with (0 + len (text v) + 1); lia.
Qed.

Lemma load_document leaf v : document v -> loadDocuments leaf (text v) = Ok [of_jval v].
Proof.
  intros Hd. destruct (text_last v Hd) as (w' & e & El & He).
  destruct (document_composes leaf [0] 0 v Hd) as [(c & w & Et & Ho) _].
  assert (Hc : c ≠ 65279 /\ c ≠ 32) by (unfold opener, letter in Ho; lia). destruct Hc as [Hbom H32].
  assert (Ep : prepare (text v) = text v ++ [10]) by (rewrite Et in *; by eapply prepare_line).
  unfold loadDocuments. rewrite Ep. rewrite <- app_assoc. cbn [app]. set (input := text v ++ [10; 0]).
  assert (Ei : ∃ d r, input = c :: d :: r /\ (c = 45 -> letter d)).
  { unfold input. rewrite Et. destruct w as [|d w]; [exists 10, [0]|exists d, (w ++ [10; 0])]; (split; [done|]); intros Hc; destruct (scalar_type v) as [b|] eqn:Eb.
    - destruct (scalar_facts v b Eb) as ((neg & u & E & Hne & Hu) & _). rewrite Et in E. destruct neg, u; try done. injection E as <- <-.
      apply Forall_cons in Hu as [Hx _]. unfold letter in Hx. lia.
    - subst c. by destruct v.
    - destruct (scalar_facts v b Eb) as (Hw & _). by eapply word_second.
    - subst c. by destruct v. }
  destruct Ei as (d & r & Ei & Hcd). rewrite (initial_indent input c (d :: r) Ei H32).
  destruct (read_one leaf input (len (text v ++ [10])) v c d r) as (s' & E & Hds & Hp); try done; [by rewrite len_app|].
  replace (S (length (text v ++ [10]))) with (S (S (length (text v)))) by (rewrite length_app; cbn; lia). cbn [read_documents].
  change (position initial) with 0. pose proof (len_nonneg w). rewrite (proj2 (Z.ltb_lt 0 _)) by (rewrite len_app, Et, len_cons; change (len [10]) with 1; lia).
  rewrite E. cbn [result_bind]. rewrite Hp, (proj2 (Z.ltb_ge _ _)) by lia. cbn [result_bind]. by rewrite Hds.
Qed.

(** C9. JSON is YAML for the loader: the text that [JSON.stringify] writes for a
    document, a value of null, booleans, integers, texts of 16-bit units, arrays
    and objects without a name [__proto__], nested to any depth, is loaded by
    [safeLoad] as the one document of the text, and its value is the value that
    was written: escapes, surrogates and the order of the names included. *)
Theorem json_is_yaml (leaf : yval -> list Z) (v : jval) (t : list Z) : document v -> json_stringify v = Some t ->
  safeLoad leaf t = Ok (Some (of_jval v)).
Proof.
  intros Hd Ht. rewrite (document_defined v Hd) in Ht. injection Ht as <-. unfold safeLoad. by rewrite load_document.
Qed.

Definition sample_document : jval :=
  JObj [(js "swagger", JStr (js "2.0")); (js "a b", JArr [JNum (-12); JNull; JBool true; JStr [34; 92; 10; 7; 55357; 56832; 55357; 8232; 58; 32]; JArr []; JObj []])].

Lemma json_is_yaml_witness :
  json_stringify sample_document = Some (text sample_document) /\ safeLoad no_leaf (text sample_document) = Ok (Some (of_jval sample_document)).
Proof.
  split; [reflexivity|]. apply (json_is_yaml no_leaf sample_document); [|reflexivity].
  assert (U : ∀ s, forallb (λ c, (0 <=? c) && (c <? 65536)) s = true -> Forall is_unit s).
  { intros s Hs. apply Forall_forall. intros c Hc%list_elem_of_In. rewrite forallb_forall in Hs. apply Hs in Hc. apply andb_prop in Hc as [?%Z.leb_le ?%Z.ltb_lt]. by split. }
  split; [by apply obj_okb_ok|]. split; [split; [by apply U|split; [discriminate|by apply U]]|]. split; [|exact I].
  split; [by apply U|split; [discriminate|]]. split; [exact I|]. split; [exact I|]. split; [exact I|]. split; [by apply U|].
  split; [exact I|]. split; [split; [by apply obj_okb_ok|exact I]|exact I].
Defined.

End YamlLoadOk.
