(* ===== verification/ClientSpec.v ===== *)
(** The operations of a specification in swagger-client
    (client/docs/swagger-ui/swagger-ui-bundle.js): the names of operations and
    their lookup (lines 13027-13091 and 13170-13175), [normalizeSwagger]
    (13092-13167), which gives every operation a name of its own and the
    parameters of its path, and the table of operations by tag (14778-14814).

    A specification is a tree of JSON values. What the code changes are the
    members of the path items; they are kept in one list, in the order of its
    loops, and a reference to one is its place in the list. A member that is an
    array can get properties with names, which are kept beside its elements.
    [toLowerCase] and [toUpperCase] are parameters. Tags and names of operations
    that every object inherits are outside [mapTagOperations]. *)

From stdpp Require Import base list list_numbers numbers strings gmap.
From Stdlib Require Import ZArith Lia.
From S2P Require Import Prelude Uri Json Query Qs Style ClientHttp.

Module ClientSpec.
Import Uri Json Query Qs Style ClientHttp.

(** ** Specifications *)

(** A member of a path item: no object, an object, or an array with the
    properties it has beside its elements. *)
Inductive node :=
  | NVal (v : jval)
  | NObj (o : jobj)
  | NArr (l : list jval) (o : jobj).

Definition of_jval (v : jval) : node := match v with JObj o => NObj o | JArr l => NArr l [] | v => NVal v end.
Definition props (n : node) : jobj := match n with NVal _ => [] | NObj o => o | NArr _ o => o end.
Definition with_props (n : node) (o : jobj) : node :=
  match n with NVal v => NVal v | NObj _ => NObj o | NArr l _ => NArr l o end.
Definition is_node (n : node) : bool := match n with NVal _ => false | _ => true end.

(** A member with the path and the name it has, and the [parameters] of its
    path item. *)
Record op := Op {
  pathName : list Z;
  name : list Z;
  operation : node;
  inherited : jval }.
Definition with_operation (p : op) (n : node) : op := Op (pathName p) (name p) n (inherited p).

Record spec := Spec {
  top : jobj;
  ops : list op }.

Definition item_ops (kv : list Z * jval) : list op :=
  match kv.2 with
  | JObj _ | JArr _ => (λ mv, Op kv.1 mv.1 (of_jval mv.2) (own kv.2 (js "parameters"))) <$> properties kv.2
  | _ => []
  end.
Definition of_spec (t : jobj) : spec := Spec t (concat (item_ops <$> properties (get t "paths"))).

(** [isOAS3] and [isSwagger2]: [startsWith(t, "3")] of the version as a text *)
Definition starts (s : string) (v : jval) : bool := truthy v && prefix_at (js s) (to_string v).
Definition isOAS3 (t : jobj) : bool := starts "3" (get t "openapi").
Definition isSwagger2 (t : jobj) : bool := starts "2" (get t "swagger").

Section names.
Variables lower upper : list Z -> list Z.

(** ** Names *)

(** [e.replace(/[^\w]/gi, "_")] *)
Definition escapeString (e : list Z) : list Z := (λ c, if word_char c then c else 95) <$> e.

Definition v2_punctuation (c : Z) : bool := is_white c || bool_decide (c ∈ js "!@#$%^&*()_+=[{]};:<>|./?,\'-" ++ [34]).
(** [replace(/((_){2,})/g, "_")] *)
Fixpoint collapse (s : list Z) : list Z :=
  match s with
  | c :: s' => if (c =? 95) && match s' with c' :: _ => c' =? 95 | [] => false end then collapse s' else c :: collapse s'
  | [] => []
  end.
Fixpoint strip (s : list Z) : list Z := match s with c :: s' => if c =? 95 then strip s' else s | [] => [] end.

Definition idFromPathMethod (e t : list Z) (v2 : bool) : list Z :=
  if v2 then
    let n := (λ c, if v2_punctuation c then 95 else c) <$> (lower t ++ [95] ++ e) in
    let n := match n with [] => drop 1 e ++ [95] ++ t | _ => n end in
    reverse (strip (reverse (strip (collapse n))))
  else lower t ++ escapeString e.

Definition legacyIdFromPathMethod (e t : list Z) : list Z := lower t ++ [45] ++ e.

Definition not_a_function (s : string) : exn := TypeError (js s ++ js " is not a function").

(** [opId] *)
Definition opId (e : node) (t n : list Z) (v2 : bool) : result (option (list Z)) :=
  if is_node e then
    match or (get (props e) "operationId") (JStr []) with
    | JStr s =>
        if bool_decide (List.filter (λ c, negb (is_white c)) s = []) then Ok (Some (idFromPathMethod t n v2))
        else Ok (Some (escapeString s))
    | _ => Throw (not_a_function "(e.operationId || '').replace")
    end
  else Ok None.

(** ** Lookup *)

(** What [eachOperation] calls its callback with, in its order. *)
Definition method (p : op) : list Z := upper (name p).
Definition eachOperation (t : spec) : list op :=
  List.filter (λ p, negb (bool_decide (method p = js "PARAMETERS")) && is_node (operation p)) (ops t).

Fixpoint find_op (f : op -> result bool) (l : list op) : result (option op) :=
  match l with
  | [] => Ok None
  | p :: l => let! b := f p in if b then Ok (Some p) else find_op f l
  end.
Definition findOperation (t : spec) (f : op -> result bool) : result (option op) := find_op f (eachOperation t).

(** [e && e === t] *)
Definition named (t : list Z) (e : jval) : bool := truthy e && bool_decide (e = JStr t).
Definition has_name (t : list Z) (p : op) : result bool :=
  let! i := opId (operation p) (pathName p) (method p) false in
  Ok (named t (match i with Some s => JStr s | None => JNull end)
      || named t (JStr (legacyIdFromPathMethod (pathName p) (method p)))
      || named t (get (props (operation p)) "operationId")).
Definition getOperationRaw (e : spec) (t : list Z) : result (option op) :=
  if truthy (get (top e) "paths") then findOperation e (has_name t) else Ok None.

(** ** normalizeSwagger *)

(** The table [r]: the members that have a name, in order. *)
Definition groups := list (list Z * list nat).
Fixpoint group (r : groups) (s : list Z) : list nat :=
  match r with (k, l) :: r => if decide (s = k) then l else group r s | [] => [] end.
Fixpoint add_group (r : groups) (s : list Z) (i : nat) : groups :=
  match r with
  | (k, l) :: r' => if decide (s = k) then (k, l ++ [i]) :: r' else (k, l) :: add_group r' s i
  | [] => [(s, [i])]
  end.

(** [e.__originalOperationId = e.__originalOperationId || id, e.operationId = s] *)
Definition rename (s : list Z) (p : op) : op :=
  let o := props (operation p) in
  let o := set o (js "__originalOperationId") (or (get o "__originalOperationId") (get o "operationId")) in
  with_operation p (with_props (operation p) (set o (js "operationId") (JStr s))).

(** The names of the members [c] that share the name [s]. *)
Definition rename_all (s : list Z) (c : list nat) (l : list op) : list op :=
  foldl (λ l ti, alter (rename (s ++ dec (Z.of_nat ti.1 + 1))) ti.2 l) l (imap pair c).

(** The name of the member at [i]; [r] inherits what every object does. *)
Definition name_step (r : groups) (l : list op) (i : nat) (p : op) : result (groups * list op) :=
  let! s := opId (operation p) (pathName p) (name p) false in
  match s with
  | None | Some [] => Ok (r, l)
  | Some s =>
      if bool_decide (s ∈ object_prototype) then Throw (not_a_function "r[s].push") else
      let r := add_group r s i in
      let c := group r s in
      if 1 <? len c then Ok (r, rename_all s c l)
      else if negb (bool_decide (get (props (operation p)) "operationId" = JUndef)) then Ok (r, alter (rename s) i l)
      else Ok (r, l)
  end.

(** [===] of values that are not the same object *)
Definition strict_eq (a b : jval) : bool :=
  match a, b with JArr _, _ | JObj _, _ => false | _, _ => bool_decide (a = b) end.

(** A parameter of an operation, with the place it has among the parameters of
    the path when it is one of them. *)
Definition tagged := (option nat * jval)%type.
Definition same_member (t e : jval) (k : string) : result bool :=
  let! x := member t (js k) in
  if truthy x then let! y := member e (js k) in Ok (strict_eq x y) else Ok false.
Definition same_parameter (t : tagged) (j : nat) (e : jval) : result bool :=
  let! a := same_member t.2 e "name" in
  if a then Ok true else
  let! b := same_member t.2 e "$ref" in
  if b then Ok true else
  let! c := same_member t.2 e "$$ref" in
  if c then Ok true else Ok (bool_decide (t.1 = Some j) || strict_eq t.2 e).
Fixpoint some_parameter (l : list tagged) (j : nat) (e : jval) : result bool :=
  match l with [] => Ok false | t :: l => let! b := same_parameter t j e in if b then Ok true else some_parameter l j e end.
Definition push_parameter (l : list tagged) (je : nat * jval) : result (list tagged) :=
  let! b := some_parameter l je.1 je.2 in Ok (if b then l else l ++ [(Some je.1, je.2)]).

(** What [for (e of u)] goes through. *)
Definition elements (u : jval) : result (list jval) :=
  match u with
  | JArr l => Ok l
  | JStr s => Ok (JStr <$> stringToCharArray s)
  | _ => Throw (TypeError (to_string u ++ js " is not iterable!"))
  end.

(** The parameters of an operation while they are merged: a value that is no
    array, or the elements of an array. *)
Inductive parameters :=
  | NoArray (v : jval)
  | Elements (l : list tagged).
Definition of_parameters (v : jval) : parameters := match v with JArr l => Elements (pair None <$> l) | v => NoArray v end.
Definition to_parameters (p : parameters) : jval := match p with NoArray v => v | Elements l => JArr l.*2 end.

(** The branch for [parameters]: those of the path that the operation has not. *)
Definition merge_parameters (u : jval) (p : parameters) : result parameters :=
  if truthy (to_parameters p) then
    let! es := elements u in
    match p, es with
    | Elements l, _ => let! l := foldR push_parameter l (imap pair es) in Ok (Elements l)
    | NoArray _, [] => Ok p
    | NoArray _, _ => Throw (not_a_function "n[E].some")
    end
  else Ok (match u with JArr l => Elements (imap (λ j v, (Some j, v)) l) | u => NoArray u end).

(** One pass over the table [h] for the operation [n]: its own properties
    and its parameters. *)
Definition inherit_pass (h : jobj) (st : jobj * parameters) : result (jobj * parameters) :=
  foldR (λ st kv,
    if decide (kv.1 = js "parameters") then
      let! p := merge_parameters kv.2 st.2 in Ok (set st.1 kv.1 (to_parameters p), p)
    else Ok (if truthy (own (JObj st.1) kv.1) then st else (set st.1 kv.1 kv.2, st.2))) st h.

Definition is_inherited (k : list Z) : bool := bool_decide (k ∈ js <$> ["produces"; "consumes"; "security"]%string).

(** The table [h] and how often it is in [d]. *)
Definition inherit_table (t : jobj) (u : jval) : jobj * nat :=
  let h := List.filter (λ kv, is_inherited kv.1) t in
  if truthy u then (h ++ [(js "parameters", u)], S (length h)) else (h, length h).

Definition inherit (t : jobj) (p : op) : result op :=
  if bool_decide (name p = js "parameters") then Ok p else
  let '(h, d) := inherit_table t (inherited p) in
  let o := props (operation p) in
  let! st := foldR (λ st _, inherit_pass h st) (o, of_parameters (get o "parameters")) (seq 0 d) in
  Ok (with_operation p (with_props (operation p) st.1)).

(** The body of the two loops, for the member at [i]. *)
Definition normalize_step (t : jobj) (st : groups * list op) (i : nat) : result (groups * list op) :=
  match st.2 !! i with
  | None => Ok st
  | Some p =>
      if negb (is_node (operation p)) then Ok st else
      let! st := name_step st.1 st.2 i p in
      match st.2 !! i with
      | None => Ok st
      | Some p => let! p := inherit t p in Ok (st.1, <[i := p]> st.2)
      end
  end.

Definition normalizeSwagger (e : spec) : result spec :=
  let t := top e in
  if negb (truthy (get t "paths")) || truthy (get t "$$normalized") then Ok e else
  let! st := foldR (normalize_step t) ([], ops e) (seq 0 (length (ops e))) in
  Ok (Spec (set t (js "$$normalized") (JBool true)) st.2).

(** ** The operations of a tag *)

(** The result for each tag, and the counters [u]. *)
Definition tag_step (c : list Z) (p : jval) (i : jobj) (u : jobj) : jobj * jobj :=
  match obj_get u c with
  | Some (JNum k) => (set i (c ++ dec (k + 1)) p, set u c (JNum (k + 1)))
  | _ =>
      if bool_decide (own (JObj i) c = JUndef) then (set i c p, u)
      else
        let u := set u c (JNum 2) in
        let i' := set i (c ++ dec 2) p in
        let h := own (JObj i') c in
        (set (obj_delete i' c) (c ++ dec 1) h, u)
  end.

(** The tags an operation is listed under. *)
Definition tags_of (d : list Z) (o : jobj) : list jval :=
  match get o "tags" with
  | JArr l => l
  | v => if truthy v then [v] else [JStr d]
  end.

Definition mapTagOperations (t : spec) (cb : op -> list Z -> jval) (defaultTag : list Z) (v2 : bool) : result jobj :=
  let! st := foldR (λ st p,
    foldR (λ (st : jobj * jobj) e,
      match e with
      | JStr e =>
          let i := match own (JObj st.1) e with JObj i => i | _ => [] end in
          let! c := opId (operation p) (pathName p) (method p) v2 in
          let c := default (js "null") c in
          let '(i, u) := tag_step c (cb p c) i st.2 in
          Ok (set st.1 e (JObj i), u)
      | _ => Ok st
      end) st (tags_of defaultTag (props (operation p)))) ([], []) (eachOperation t) in
  Ok st.1.

End names.

(** The methods of HTTP are ASCII words. *)
Definition to_upper (s : list Z) : list Z := (λ c, if (97 <=? c) && (c <=? 122) then c - 32 else c) <$> s.

(** ** Examples *)

Definition operation_of (id : list Z) : jval := JObj [(js "operationId", JStr id)].
Definition path_get (path : string) (v : jval) : list Z * jval := (js path, JObj [(js "get", v)]).
Definition spec_of (ps : jobj) : spec := of_spec [(js "swagger", JStr (js "2.0")); (js "produces", JArr [JStr (js "x")]); (js "paths", JObj ps)].
Abbreviation normalize := (normalizeSwagger to_lower).
Definition ids (t : spec) : list jval := (λ p, get (props (operation p)) "operationId") <$> ops t.
Definition ids_of (r : result spec) : option (list jval) := match r with Ok t => Some (ids t) | Throw _ => None end.

Example normalize_ex :
  ids_of (normalize (spec_of [path_get "/a" (operation_of (js "x y")); path_get "/b" (operation_of (js "x.y")); path_get "/c" (JObj []);
                              path_get "/d" (operation_of (js "z"))]))
  = Some [JStr (js "x_y1"); JStr (js "x_y2"); JUndef; JStr (js "z")].
Proof. vm_compute. reflexivity. Qed.

Example inherit_ex :
  let p n i := JObj [(js "name", JStr (js n)); (js "in", JStr (js i))] in
  match normalize (spec_of [(js "/a", JObj [(js "parameters", JArr [p "u" "path"; p "v" "query"]%string);
      (js "get", JObj [(js "parameters", JArr [p "v" "header"; JObj []]%string)]); (js "put", JObj [(js "produces", JArr [])])])]) with
  | Ok t => (λ q, (get (props (operation q)) "produces", get (props (operation q)) "parameters")) <$> drop 1 (ops t)
      = [(JArr [JStr (js "x")], JArr [p "v" "header"; JObj []; p "u" "path"]%string); (JArr [], JArr [p "u" "path"; p "v" "query"]%string)]
  | Throw _ => False
  end.
Proof. vm_compute. reflexivity. Qed.

Example lookup_ex :
  let t := spec_of [path_get "/a" (JObj []); path_get "/b/{id}" (operation_of (js "x y"))] in
  let find s := match getOperationRaw to_lower to_upper t (js s) with Ok (Some p) => Some (pathName p) | _ => None end in
  find "get_a"%string = Some (js "/a") /\ find "get-/a"%string = Some (js "/a") /\ find "x y"%string = Some (js "/b/{id}")
  /\ find "x_y"%string = Some (js "/b/{id}") /\ find "get-/b/{id}"%string = Some (js "/b/{id}") /\ find "get_b__id_"%string = None.
Proof. vm_compute. repeat split. Qed.

(** Two operations with different names are given the same one. *)
Example names_collide :
  ids_of (normalize (spec_of [path_get "/a" (operation_of (js "x1")); path_get "/b" (operation_of (js "x")); path_get "/c" (operation_of (js "x"))]))
  = Some [JStr (js "x1"); JStr (js "x1"); JStr (js "x2")].
Proof. vm_compute. reflexivity. Qed.

(** An operation named like a property of every object cannot be normalized. *)
Example inherited_name :
  normalize (spec_of [path_get "/a" (operation_of (js "toString"))]) = Throw (not_a_function "r[s].push").
Proof. vm_compute. reflexivity. Qed.

(** Numbering the operations of a tag overwrites one of them. *)
Example tag_overwrites :
  let cb (p : op) (_ : list Z) := JStr (pathName p) in
  let tag o := JObj ((js "tags", JArr [JStr (js "t")]) :: o) in
  mapTagOperations to_lower to_upper (spec_of [path_get "/a" (tag [(js "operationId", JStr (js "x1"))]); path_get "/b" (tag [(js "operationId", JStr (js "x"))]);
    path_get "/c" (tag [(js "operationId", JStr (js "x"))])]) cb (js "default") false
  = Ok [(js "t", JObj [(js "x1", JStr (js "/b")); (js "x2", JStr (js "/c"))])].
Proof. vm_compute. reflexivity. Qed.

Example v2_ids : idFromPathMethod to_lower (js "/pets/{id}/a-b") (js "GET") true = js "get_pets_id_a_b"
  /\ idFromPathMethod to_lower (js "/pets/{id}") (js "GET") false = js "get_pets__id_".
Proof. vm_compute. auto. Qed.

(** * Lemmas *)

Lemma get_set o k v j : js k <> js "__proto__" -> get (set o (js k) v) j = if decide (js j = js k) then v else get o j.
Proof.
  intros Hk. unfold get, set, obj_assign. rewrite bool_decide_false by done. cbn [negb andb]. rewrite obj_get_set. by destruct (decide _).
Qed.
Lemma get_set_key o k v j : k <> js "__proto__" -> get (set o k v) j = if decide (js j = k) then v else get o j.
Proof.
  intros Hk. unfold get, set, obj_assign. rewrite bool_decide_false by done. cbn [negb andb]. rewrite obj_get_set. by destruct (decide _).
Qed.
Lemma props_with_props n o : is_node n = true -> props (with_props n o) = o.
Proof. by destruct n. Qed.
Lemma is_node_with n o : is_node (with_props n o) = is_node n.
Proof. by destruct n. Qed.

(** ** Inheriting *)

(** The properties that [inherit] writes. *)
Definition written (k : list Z) : bool := is_inherited k || bool_decide (k = js "parameters").

Lemma inherit_pass_frame h st st' k : Forall (λ kv, written kv.1 = true) h -> written (js k) = false ->
  inherit_pass h st = Ok st' -> get st'.1 k = get st.1 k.
Proof.
  intros Hh Hk. revert st. induction Hh as [|kv h Hw _ IH]; intros st; cbn [inherit_pass foldR]; [by intros [= <-]|].
  assert (Hne : js k <> kv.1) by congruence.
  assert (Hp : kv.1 <> js "__proto__") by (intros E; rewrite E in Hw; done).
  assert (G : ∀ v, get (set st.1 kv.1 v) k = get st.1 k) by (intros v; rewrite get_set_key by done; by rewrite decide_False).
  destruct (decide (kv.1 = js "parameters")).
  - destruct (merge_parameters kv.2 st.2); cbn [result_bind]; [|done]. intros H%IH. rewrite H. apply G.
  - intros H%IH. rewrite H. destruct (truthy _); [done|apply G].
Qed.

Lemma inherit_table_written t u : Forall (λ kv, written kv.1 = true) (inherit_table t u).1.
Proof.
  unfold inherit_table. assert (H : Forall (λ kv, written kv.1 = true) (List.filter (λ kv, is_inherited kv.1) t)).
  { apply Forall_forall. intros kv [_ H]%list_elem_of_In%filter_In. unfold written. by rewrite H. }
  destruct (truthy u); cbn [fst]; [|done]. apply Forall_app_2; [done|]. by apply Forall_singleton.
Qed.

Lemma foldR_inv {A S} (P : S -> Prop) (f : S -> A -> result S) s l s' :
  P s -> (∀ s x s', P s -> f s x = Ok s' -> P s') -> foldR f s l = Ok s' -> P s'.
Proof.
  intros Hs Hf. revert s Hs. induction l as [|x l IH]; intros s Hs; cbn [foldR]; [by intros [= <-]|].
  destruct (f s x) as [s1|] eqn:E; cbn [result_bind]; [|done]. apply IH. by eapply Hf.
Qed.

Lemma inherit_frame t p p' k : is_node (operation p) = true -> written (js k) = false -> inherit t p = Ok p' ->
  get (props (operation p')) k = get (props (operation p)) k /\ is_node (operation p') = true /\
  pathName p' = pathName p /\ name p' = name p /\ inherited p' = inherited p.
Proof.
  intros Hn Hk. unfold inherit. destruct (bool_decide _); [by intros [= <-]|].
  pose proof (inherit_table_written t (inherited p)) as Hw. destruct (inherit_table t (inherited p)) as [h d]. cbn [fst] in Hw.
  destruct (foldR _ _ _) as [st|] eqn:E; cbn [result_bind]; [|done]. intros [= <-]. cbn [operation with_operation pathName name inherited].
  rewrite props_with_props, is_node_with by done. split_and!; try done.
  apply (foldR_inv (λ st, get st.1 k = get (props (operation p)) k)) in E; [done|done|].
  intros s1 x s2 H1 H2. by rewrite <- H1, (inherit_pass_frame h s1 s2).
Qed.

(** *** The parameters of a path *)

Definition objects (l : list jval) : Prop := Forall (λ x, ∃ o, x = JObj o) l.

(** The comparison of two parameters that are not the same object. *)
Definition matches (t e : jval) : bool :=
  existsb (λ k : string, let x := own t (js k) in truthy x && strict_eq x (own e (js k))) ["name"; "$ref"; "$$ref"]%string.
Definition found (j : nat) (e : jval) (t : tagged) : bool := matches t.2 e || bool_decide (t.1 = Some j).
Definition push (l : list tagged) (je : nat * jval) : list tagged :=
  if existsb (found je.1 je.2) l then l else l ++ [(Some je.1, je.2)].

Lemma same_parameter_object t j e : (∃ o, t.2 = JObj o) -> (∃ o, e = JObj o) -> same_parameter t j e = Ok (found j e t).
Proof.
  intros (o & Ho) (o' & ->). unfold same_parameter, found, matches. rewrite Ho. cbn [existsb].
  assert (M : ∀ k, same_member (JObj o) (JObj o') k = Ok (truthy (own (JObj o) (js k)) && strict_eq (own (JObj o) (js k)) (own (JObj o') (js k)))).
  { intros k. unfold same_member. cbn [member result_bind]. by destruct (truthy _). }
  rewrite !M. cbn [result_bind strict_eq]. repeat destruct (_ && _); cbn; try done. by rewrite orb_false_r.
Qed.
Lemma some_parameter_objects l j e : objects l.*2 -> (∃ o, e = JObj o) -> some_parameter l j e = Ok (existsb (found j e) l).
Proof.
  intros Hl He. induction l as [|t l IH]; [done|]. cbn [fmap list_fmap] in Hl. apply Forall_cons in Hl as [Ht Hl].
  cbn [some_parameter existsb]. rewrite same_parameter_object by done. cbn [result_bind]. rewrite IH by done. by destruct (found j e t).
Qed.
Lemma push_objects l je : objects l.*2 -> (∃ o, je.2 = JObj o) -> objects (push l je).*2.
Proof. intros Hl He. unfold push. destruct (existsb _ _); [done|]. rewrite fmap_app. apply Forall_app_2; [done|]. by apply Forall_singleton. Qed.
Lemma push_fold l jes : objects l.*2 -> Forall (λ je, ∃ o, je.2 = JObj o) jes ->
  foldR push_parameter l jes = Ok (foldl push l jes) /\ objects (foldl push l jes).*2.
Proof.
  intros Hl H. revert l Hl. induction H as [|je jes He _ IH]; intros l Hl; [done|]. cbn [foldR foldl]. unfold push_parameter at 1.
  rewrite some_parameter_objects by done. cbn [result_bind]. apply IH. by apply push_objects.
Qed.

Lemma imap_objects us : objects us -> Forall (λ je : nat * jval, ∃ o, je.2 = JObj o) (imap pair us).
Proof.
  intros H. apply Forall_lookup. intros i je Hi. rewrite list_lookup_imap in Hi. destruct (us !! i) as [u|] eqn:E; [|done].
  injection Hi as <-. by apply (Forall_lookup_1 _ _ _ _ H E).
Qed.

(** What merging makes of the parameters of an operation. *)
Definition absorb (us : list jval) (p : parameters) : list tagged :=
  match p with Elements l => foldl push l (imap pair us) | NoArray _ => imap (λ j v, (Some j, v)) us end.
Definition parameters_ok (p : parameters) : Prop := match p with Elements l => objects l.*2 | NoArray v => v = JUndef end.

Lemma merge_absorb us p : objects us -> parameters_ok p ->
  merge_parameters (JArr us) p = Ok (Elements (absorb us p)) /\ parameters_ok (Elements (absorb us p)).
Proof.
  intros Hu Hp. destruct p as [v|l]; cbn in Hp.
  - subst v. split; [done|]. cbn. rewrite fmap_imap. by rewrite (imap_const (λ x : jval, x)), list_fmap_id.
  - destruct (push_fold l (imap pair us) Hp (imap_objects us Hu)) as [E H]. split; [|done].
    unfold merge_parameters. cbn [to_parameters truthy elements result_bind]. by rewrite E.
Qed.

Lemma push_found l je je' : existsb (found je'.1 je'.2) l = true -> existsb (found je'.1 je'.2) (push l je) = true.
Proof. intros H. unfold push. destruct (existsb (found je.1 _) l); [done|]. by rewrite existsb_app, H. Qed.
Lemma push_found_self l je : existsb (found je.1 je.2) (push l je) = true.
Proof.
  unfold push. destruct (existsb _ l) eqn:E; [done|]. rewrite existsb_app. cbn. unfold found. cbn.
  by rewrite bool_decide_true, !orb_true_r by done.
Qed.
Lemma fold_found l jes je : existsb (found je.1 je.2) l = true \/ je ∈ jes -> existsb (found je.1 je.2) (foldl push l jes) = true.
Proof.
  revert l. induction jes as [|x jes IH]; intros l [H|H]; cbn [foldl]; [done|by apply not_elem_of_nil in H| |].
  - apply IH. left. by apply push_found.
  - apply IH. apply elem_of_cons in H as [<-|H]; [left; apply push_found_self|by right].
Qed.
Lemma absorb_found us p j e : us !! j = Some e -> existsb (found j e) (absorb us p) = true.
Proof.
  intros He. destruct p as [v|l]; cbn [absorb].
  - apply existsb_exists. exists (Some j, e). split.
    + apply list_elem_of_In, list_elem_of_lookup. exists j. by rewrite list_lookup_imap, He.
    + unfold found. cbn. by rewrite bool_decide_true, orb_true_r.
  - apply (fold_found l (imap pair us) (j, e)). right. apply list_elem_of_lookup. exists j. by rewrite list_lookup_imap, He.
Qed.
(** A second merge changes nothing. *)
Lemma absorb_again us p : absorb us (Elements (absorb us p)) = absorb us p.
Proof.
  cbn [absorb]. assert (H : Forall (λ je, existsb (found je.1 je.2) (absorb us p) = true) (imap pair us)).
  { apply Forall_lookup. intros i je Hi. rewrite list_lookup_imap in Hi. destruct (us !! i) as [u|] eqn:E; [|done].
    injection Hi as <-. by apply absorb_found. }
  revert H. generalize (absorb us p) as l. intros l. induction 1 as [|je jes Hje _ IH]; [done|]. cbn [foldl]. unfold push at 2. by rewrite Hje.
Qed.

(** A list of parameters, or none. *)
Definition parameter_list (v : jval) : Prop := v = JUndef \/ ∃ l, v = JArr l /\ objects l.
Definition path_list (u : jval) : list jval := match u with JArr l => l | _ => [] end.

Lemma of_parameters_ok v : parameter_list v -> parameters_ok (of_parameters v).
Proof. intros [->|(l & -> & Hl)]; [done|]. cbn. by rewrite <- list_fmap_compose, list_fmap_id. Qed.

Lemma inherit_pass_plain h o p : Forall (λ kv, is_inherited kv.1 = true) h ->
  ∃ o', inherit_pass h (o, p) = Ok (o', p) /\ get o' "parameters" = get o "parameters".
Proof.
  intros H. revert o. induction H as [|kv h Hk _ IH]; intros o; [by exists o|]. cbn [inherit_pass foldR fst snd].
  assert (Hne : kv.1 <> js "parameters") by (intros E; rewrite E in Hk; done). rewrite decide_False by done.
  destruct (truthy (own (JObj o) kv.1)); cbn [result_bind]; [apply IH|].
  destruct (IH (set o kv.1 kv.2)) as (o' & E & G). exists o'. split; [exact E|]. rewrite G.
  rewrite get_set_key by (intros E'; rewrite E' in Hk; done). by rewrite decide_False by congruence.
Qed.

Lemma inherit_pass_parameters h o p us : Forall (λ kv, is_inherited kv.1 = true) h -> objects us -> parameters_ok p ->
  ∃ o', inherit_pass (h ++ [(js "parameters", JArr us)]) (o, p) = Ok (o', Elements (absorb us p)) /\
    get o' "parameters" = JArr (absorb us p).*2.
Proof.
  intros Hh Hu Hp. destruct (inherit_pass_plain h o p Hh) as (o1 & E & _). destruct (merge_absorb us p Hu Hp) as [M _].
  unfold inherit_pass in *. rewrite foldR_app, E. cbn [result_bind foldR fst snd]. rewrite decide_True by done. rewrite M. cbn [result_bind].
  eexists. split; [done|]. rewrite get_set_key by done. by rewrite decide_True.
Qed.

Lemma passes_plain h o p (ds : list nat) : Forall (λ kv, is_inherited kv.1 = true) h ->
  ∃ o', foldR (λ st _, inherit_pass h st) (o, p) ds = Ok (o', p) /\ get o' "parameters" = get o "parameters".
Proof.
  intros Hh. revert o. induction ds as [|x ds IH]; intros o; [by exists o|]. cbn [foldR].
  destruct (inherit_pass_plain h o p Hh) as (o1 & -> & G1). cbn [result_bind]. destruct (IH o1) as (o2 & E & G2). exists o2. by rewrite G2.
Qed.
Lemma passes_parameters h o p us x (ds : list nat) : Forall (λ kv, is_inherited kv.1 = true) h -> objects us -> parameters_ok p ->
  ∃ o', foldR (λ st _, inherit_pass (h ++ [(js "parameters", JArr us)]) st) (o, p) (x :: ds) = Ok (o', Elements (absorb us p)) /\
    get o' "parameters" = JArr (absorb us p).*2.
Proof.
  intros Hh Hu. revert o p x. induction ds as [|y ds IH]; intros o p x Hp; cbn [foldR];
    destruct (inherit_pass_parameters h o p us Hh Hu Hp) as (o1 & -> & G1); cbn [result_bind]; [by exists o1|].
  destruct (merge_absorb us p Hu Hp) as [_ Hok]. destruct (IH o1 (Elements (absorb us p)) y Hok) as (o2 & E & G2).
  rewrite absorb_again in E, G2. exists o2. split; [exact E|exact G2].
Qed.

(** Inheriting never fails on lists of parameters, and says which there are. *)
Lemma inherit_total t p : is_node (operation p) = true -> parameter_list (inherited p) -> parameter_list (get (props (operation p)) "parameters") ->
  ∃ p', inherit t p = Ok p' /\ (bool_decide (name p = js "parameters") = false ->
    get (props (operation p')) "parameters" =
      if truthy (inherited p) then JArr (absorb (path_list (inherited p)) (of_parameters (get (props (operation p)) "parameters"))).*2
      else get (props (operation p)) "parameters").
Proof.
  intros Hn Hi Ho. unfold inherit. destruct (bool_decide (name p = _)); [by exists p|]. unfold inherit_table.
  assert (Hf : Forall (λ kv, is_inherited kv.1 = true) (List.filter (λ kv, is_inherited kv.1) t)).
  { apply Forall_forall. by intros kv [_ H]%list_elem_of_In%filter_In. }
  destruct Hi as [Hi|(us & Hi & Hu)]; rewrite Hi; cbn [truthy].
  - destruct (passes_plain (List.filter (λ kv, is_inherited kv.1) t) (props (operation p)) (of_parameters (get (props (operation p)) "parameters"))
      (seq 0 (length (List.filter (λ kv, is_inherited kv.1) t))) Hf) as (o' & E & G).
    rewrite E. cbn [result_bind fst]. eexists. split; [done|]. intros _. cbn [operation with_operation]. by rewrite props_with_props.
  - destruct (passes_parameters (List.filter (λ kv, is_inherited kv.1) t) (props (operation p)) (of_parameters (get (props (operation p)) "parameters")) us 0%nat
      (seq 1 (length (List.filter (λ kv, is_inherited kv.1) t))) Hf Hu (of_parameters_ok _ Ho)) as (o' & E & G).
    change (seq 0 (S ?n)) with (0%nat :: seq 1 n). rewrite E. cbn [result_bind fst]. eexists. split; [done|]. intros _.
    cbn [operation with_operation]. by rewrite props_with_props.
Qed.

End ClientSpec.
