(* ===== verification/ClientSpecOk.v ===== *)
(** [normalizeSwagger] (ClientSpec.v) gives every operation of a specification
    the name and the parameters it should have.

    The loop of the code renames the members of a path item again and again, as
    more of them turn out to have the same name; the invariant says what every
    member is called after each round. *)

From stdpp Require Import base list list_numbers numbers strings gmap.
From Stdlib Require Import ZArith Lia.
From S2P Require Import Prelude Uri Json Query Qs Style ClientHttp ClientSpec.

Module ClientSpecOk.
Import Uri Json Query Qs Style ClientHttp ClientSpec.

Section names.
Variable lower : list Z -> list Z.

(** The name that the loop computes for a member. *)
Definition key (p : op) : option (list Z) :=
  match opId lower (operation p) (pathName p) (name p) false with Ok (Some (c :: s)) => Some (c :: s) | _ => None end.
Definition oid (p : op) : jval := get (props (operation p)) "operationId".
Definition orig (p : op) : jval := get (props (operation p)) "__originalOperationId".
Definition params (p : op) : jval := get (props (operation p)) "parameters".

(** Members that can be normalized: names are texts that no object inherits,
    parameters are lists of objects. *)
Definition normalizable (p : op) : Prop := is_node (operation p) = true ->
  (oid p = JUndef \/ ∃ s, oid p = JStr s) /\ parameter_list (params p) /\ parameter_list (inherited p) /\
  (∀ s, key p = Some s -> s ∉ object_prototype).

Lemma opId_total p : normalizable p -> ∃ i, opId lower (operation p) (pathName p) (name p) false = Ok i.
Proof.
  intros H. unfold opId. destruct (is_node (operation p)) eqn:E; [|by eexists].
  destruct (H E) as [[Ho|(s & Ho)] _]; unfold oid in Ho; rewrite Ho; cbn [or truthy]; [by eexists|].
  destruct s; cbn; [by eexists|]. by destruct (bool_decide _); eexists.
Qed.
Lemma key_node p s : key p = Some s -> is_node (operation p) = true.
Proof. unfold key, opId. by destruct (is_node (operation p)). Qed.

(** ** Renaming *)

Lemma rename_fields s p : is_node (operation p) = true ->
  oid (rename s p) = JStr s /\ orig (rename s p) = or (orig p) (oid p) /\ params (rename s p) = params p /\
  is_node (operation (rename s p)) = true /\ pathName (rename s p) = pathName p /\ name (rename s p) = name p /\
  inherited (rename s p) = inherited p.
Proof.
  intros Hn. unfold rename, oid, orig, params, with_operation. cbn [operation pathName name inherited].
  rewrite props_with_props, is_node_with by done. rewrite !get_set by done. repeat (rewrite decide_True by done || rewrite decide_False by done).
  by rewrite Hn.
Qed.

Lemma rename_all_app s c x l : rename_all s (c ++ [x]) l = alter (rename (s ++ dec (Z.of_nat (length c) + 1))) x (rename_all s c l).
Proof. unfold rename_all. rewrite imap_app, foldl_app. cbn. by rewrite Nat.add_0_r. Qed.

Lemma rename_all_lookup s c l i : NoDup c ->
  (∀ k, c !! k = Some i -> rename_all s c l !! i = rename (s ++ dec (Z.of_nat k + 1)) <$> l !! i) /\
  (i ∉ c -> rename_all s c l !! i = l !! i).
Proof.
  induction c as [|x c IH] using rev_ind; [done|]. intros (Hc & Hx & _)%NoDup_app. destruct (IH Hc) as [IH1 IH2]. split.
  - intros k Hk. rewrite rename_all_app. apply lookup_app_Some in Hk as [Hk|[Hk Hk']].
    + rewrite list_lookup_alter_ne; [by apply IH1|]. intros ->. apply (Hx i); [by eapply list_elem_of_lookup_2|set_solver].
    + apply list_lookup_singleton_Some in Hk' as [Hk' <-]. replace k with (length c) by lia. rewrite list_lookup_alter_eq. f_equal. apply IH2.
      intros Hin. apply (Hx x Hin). set_solver.
  - intros Hi. rewrite rename_all_app, list_lookup_alter_ne by set_solver. apply IH2. set_solver.
Qed.
Lemma rename_all_length s c l : length (rename_all s c l) = length l.
Proof. induction c as [|x c IH] using rev_ind; [done|]. by rewrite rename_all_app, length_alter. Qed.

(** ** Groups *)

Lemma group_add r s i s' : group (add_group r s i) s' = if decide (s' = s) then group r s ++ [i] else group r s'.
Proof.
  induction r as [|[k l] r IH]; cbn.
  - by destruct (decide (s' = s)).
  - destruct (decide (s = k)) as [->|Hs]; cbn.
    + by destruct (decide (s' = k)).
    + rewrite IH. destruct (decide (s' = k)) as [->|]; [|done]. by rewrite decide_False by congruence.
Qed.

Section loop.
Variable L : list op.

(** The members before [m] that have the name [s]. *)
Definition key_at (i : nat) : option (list Z) := L !! i ≫= key.
Definition mem (s : list Z) (m : nat) : list nat := List.filter (λ i, bool_decide (key_at i = Some s)) (seq 0 m).

Lemma mem_S s m : mem s (S m) = mem s m ++ (if decide (key_at m = Some s) then [m] else []).
Proof.
  unfold mem. rewrite seq_S, List.filter_app. cbn. f_equal. destruct (decide _); [by rewrite bool_decide_true|by rewrite bool_decide_false].
Qed.
Lemma mem_elem s m i : i ∈ mem s m <-> (i < m)%nat /\ key_at i = Some s.
Proof.
  unfold mem. rewrite list_elem_of_In, filter_In, in_seq, bool_decide_eq_true. naive_solver lia.
Qed.
Lemma mem_nodup s m : NoDup (mem s m).
Proof. unfold mem. apply NoDup_ListNoDup, List.NoDup_filter, List.seq_NoDup. Qed.

(** The name of the [k]-th of the members [c] called [s]. *)
Definition expected (c : list nat) (s : list Z) (k : nat) (p0 : op) : jval :=
  if 1 <? len c then JStr (s ++ dec (Z.of_nat k + 1)) else if bool_decide (oid p0 = JUndef) then JUndef else JStr s.

(** What the loop leaves of a member alone. *)
Definition same_shape (p0 p : op) : Prop :=
  pathName p = pathName p0 /\ name p = name p0 /\ inherited p = inherited p0 /\ is_node (operation p) = is_node (operation p0).

(** The names after the members before [m]. *)
Definition named_upto (m : nat) (r : groups) (l : list op) : Prop :=
  length l = length L /\ (∀ i, (m <= i)%nat -> l !! i = L !! i) /\ (∀ s, group r s = mem s m) /\
  (∀ i p p0, l !! i = Some p -> L !! i = Some p0 -> same_shape p0 p /\
    (∀ s k, mem s m !! k = Some i -> oid p = expected (mem s m) s k p0 /\
      (truthy (or (orig p0) (oid p0)) = true -> orig p = or (orig p0) (oid p0)))).

Lemma or_truthy a b : truthy a = true -> or a b = a.
Proof. unfold or. by intros ->. Qed.
Lemma or_result a : truthy (or a JUndef) = true -> a = or a JUndef.
Proof. unfold or. by destruct (truthy a) eqn:E. Qed.

Lemma same_shape_rename s p0 p : is_node (operation p) = true -> same_shape p0 p -> same_shape p0 (rename s p).
Proof. intros Hn (? & ? & ? & E). destruct (rename_fields s p Hn) as (_ & _ & _ & ? & ? & ? & ?). unfold same_shape. rewrite <- E, Hn. split_and!; congruence. Qed.

(** The member itself and those that share its name are renamed. *)
Lemma rename_all_upto m r l p s : named_upto m r l -> L !! m = Some p -> key p = Some s -> (1 <? len (mem s (S m))) = true ->
  named_upto (S m) (add_group r s m) (rename_all s (mem s (S m)) l).
Proof.
  intros (Hlen & Htail & Hg & Hn) Hp Hk Hbig. assert (Hat : key_at m = Some s) by (unfold key_at; by rewrite Hp).
  split_and!.
  - by rewrite rename_all_length.
  - intros i Hi. rewrite <- Htail by lia. apply (rename_all_lookup s _ l i (mem_nodup s (S m))). rewrite mem_elem. lia.
  - intros s'. rewrite group_add, !Hg, !mem_S. destruct (decide (s' = s)) as [->|Hne]; [by rewrite decide_True|].
    rewrite decide_False by congruence. by rewrite app_nil_r.
  - intros i q q0 Hq Hq0. destruct (rename_all_lookup s (mem s (S m)) l i (mem_nodup s (S m))) as [R1 R2].
    destruct (decide (i ∈ mem s (S m))) as [Hin|Hout].
    + pose proof Hin as (k & Hki)%list_elem_of_lookup. rewrite (R1 k Hki) in Hq. apply fmap_Some in Hq as (q1 & Hq1 & ->).
      destruct (Hn i q1 q0 Hq1 Hq0) as [Hshape Hold].
      assert (Hnode : is_node (operation q1) = true).
      { destruct Hshape as (_ & _ & _ & ->). apply mem_elem in Hin as [_ Hin]. unfold key_at in Hin. rewrite Hq0 in Hin. by eapply key_node. }
      split; [by apply same_shape_rename|]. intros s' k' Hk'. destruct (rename_fields (s ++ dec (Z.of_nat k + 1)) q1 Hnode) as (Ro & Rr & _).
      assert (s' = s) as ->.
      { apply list_elem_of_lookup_2, mem_elem in Hk' as [_ H']. apply mem_elem in Hin as [_ H]. congruence. }
      assert (k' = k) as -> by (eapply NoDup_lookup; [apply mem_nodup|done|done]).
      split; [rewrite Ro; unfold expected; by rewrite Hbig|]. intros Ht. rewrite Rr.
      destruct (decide (i = m)) as [->|Him]; [rewrite Htail in Hq1 by lia; congruence|].
      apply mem_elem in Hin as [Hin Hki']. assert (Hold' : i ∈ mem s m) by (apply mem_elem; split; [lia|done]).
      apply list_elem_of_lookup in Hold' as (j & Hj). destruct (Hold s j Hj) as [_ Ho]. rewrite (Ho Ht). by apply or_truthy.
    + rewrite R2 in Hq by done. destruct (Hn i q q0 Hq Hq0) as [Hshape Hold]. split; [done|]. intros s' k Hk'.
      assert (s' <> s) by (intros ->; apply Hout; by eapply list_elem_of_lookup_2).
      rewrite mem_S, decide_False, app_nil_r in Hk' |- * by congruence. by apply Hold.
Qed.

(** A member whose name is new is renamed alone, or left as it is. *)
Lemma rename_one_upto m r l p s f : named_upto m r l -> L !! m = Some p -> key p = Some s -> (1 <? len (mem s (S m))) = false ->
  same_shape p (f p) -> oid (f p) = (if bool_decide (oid p = JUndef) then JUndef else JStr s) ->
  (truthy (or (orig p) (oid p)) = true -> orig (f p) = or (orig p) (oid p)) ->
  named_upto (S m) (add_group r s m) (alter f m l).
Proof.
  intros (Hlen & Htail & Hg & Hn) Hp Hk Hsmall Hs Ho Hr. assert (Hat : key_at m = Some s) by (unfold key_at; by rewrite Hp).
  assert (Hm : mem s m = []).
  { rewrite mem_S, decide_True in Hsmall by done. destruct (mem s m) as [|j c]; [done|]. apply Z.ltb_ge in Hsmall.
    rewrite len_app, !len_cons in Hsmall. pose proof (len_nonneg c). change (len (@nil nat)) with 0 in Hsmall. lia. }
  split_and!.
  - by rewrite length_alter.
  - intros i Hi. rewrite list_lookup_alter_ne by lia. apply Htail. lia.
  - intros s'. rewrite group_add, !Hg, !mem_S. destruct (decide (s' = s)) as [->|Hne]; [by rewrite decide_True|].
    rewrite decide_False by congruence. by rewrite app_nil_r.
  - intros i q q0 Hq Hq0. destruct (decide (i = m)) as [->|Him].
    + rewrite list_lookup_alter_eq, Htail, Hp in Hq by lia. injection Hq as <-. rewrite Hp in Hq0. injection Hq0 as <-.
      split; [done|]. intros s' k Hk'. assert (s' = s) as ->.
      { apply list_elem_of_lookup_2, mem_elem in Hk' as [_ H']. congruence. }
      split; [|done]. unfold expected. by rewrite Hsmall.
    + rewrite list_lookup_alter_ne in Hq by done. destruct (Hn i q q0 Hq Hq0) as [Hshape Hold]. split; [done|]. intros s' k Hk'.
      assert (s' <> s).
      { intros ->. rewrite mem_S, Hm, decide_True in Hk' by done. cbn in Hk'. destruct k; [|done]. cbn in Hk'. congruence. }
      rewrite mem_S, decide_False, app_nil_r in Hk' |- * by congruence. by apply Hold.
Qed.

Lemma keyless_upto m r l p : named_upto m r l -> L !! m = Some p -> key p = None -> named_upto (S m) r l.
Proof.
  intros (Hlen & Htail & Hg & Hn) Hp Hk. assert (E : ∀ s, mem s (S m) = mem s m).
  { intros s. rewrite mem_S, decide_False, app_nil_r; [done|]. unfold key_at. rewrite Hp. cbn. congruence. }
  split_and!; [done|intros; apply Htail; lia|intros s; by rewrite E|]. intros i q q0 Hq Hq0. destruct (Hn i q q0 Hq Hq0) as [? Hold].
  split; [done|]. intros s k. rewrite !E. apply Hold.
Qed.

Definition keep_params (l l' : list op) : Prop := ∀ i q', l' !! i = Some q' -> ∃ q, l !! i = Some q /\ params q' = params q.

Lemma name_step_upto m r l p : named_upto m r l -> L !! m = Some p -> is_node (operation p) = true -> normalizable p ->
  (∀ i q, l !! i = Some q -> ∃ q0, L !! i = Some q0) ->
  ∃ r' l', name_step lower r l m p = Ok (r', l') /\ named_upto (S m) r' l' /\ keep_params l l'.
Proof.
  intros Hn Hp Hnode Hok Hdom. assert (Hlm : l !! m = Some p) by (destruct Hn as (_ & -> & _); [done|lia]).
  unfold name_step. destruct (opId_total p Hok) as (i & Hi). rewrite Hi. cbn [result_bind].
  assert (Hkey : key p = match i with Some (c :: s) => Some (c :: s) | _ => None end) by (unfold key; by rewrite Hi).
  assert (Hrefl : keep_params l l) by (intros j q Hq; by exists q).
  destruct i as [[|c s]|]; [by exists r, l; split; [|split; [eapply keyless_upto|]]| |by exists r, l; split; [|split; [eapply keyless_upto|]]].
  destruct (Hok Hnode) as (_ & _ & _ & Hproto). rewrite bool_decide_false by (by apply Hproto). cbv zeta.
  assert (Hgr : group (add_group r (c :: s) m) (c :: s) = mem (c :: s) (S m)).
  { destruct Hn as (_ & _ & Hg & _). rewrite group_add, decide_True, Hg, mem_S, decide_True; [done| |done]. unfold key_at. by rewrite Hp. }
  rewrite Hgr. destruct (1 <? len (mem (c :: s) (S m))) eqn:Hbig.
  - exists (add_group r (c :: s) m), (rename_all (c :: s) (mem (c :: s) (S m)) l). split; [done|]. split; [by eapply rename_all_upto|].
    intros j q' Hq'. destruct (rename_all_lookup (c :: s) (mem (c :: s) (S m)) l j (mem_nodup _ _)) as [R1 R2].
    destruct (decide (j ∈ mem (c :: s) (S m))) as [Hin|Hout]; [|rewrite R2 in Hq' by done; by exists q'].
    pose proof Hin as (k & Hk)%list_elem_of_lookup. rewrite (R1 k Hk) in Hq'. apply fmap_Some in Hq' as (q & Hq & ->). exists q. split; [done|].
    apply rename_fields. destruct (Hdom j q Hq) as (q0 & Hq0). destruct Hn as (_ & _ & _ & Hn). destruct (Hn j q q0 Hq Hq0) as [(_ & _ & _ & ->) _].
    apply mem_elem in Hin as [_ Hin]. unfold key_at in Hin. rewrite Hq0 in Hin. by eapply key_node.
  - fold (oid p). destruct (rename_fields (c :: s) p Hnode) as (Ro & Rr & Rp & _). destruct (decide (oid p = JUndef)) as [E|E].
    + rewrite bool_decide_true by done. cbn [negb]. exists (add_group r (c :: s) m), l. split; [done|]. split; [|done].
      rewrite <- (list_alter_id id l m) by done. eapply rename_one_upto; try done; unfold id.
      * by rewrite E, bool_decide_true.
      * rewrite E. apply or_result.
    + rewrite bool_decide_false by done. cbn [negb]. exists (add_group r (c :: s) m), (alter (rename (c :: s)) m l). split; [done|]. split.
      * eapply rename_one_upto; try done; [by apply same_shape_rename|]. by rewrite bool_decide_false.
      * intros j q' Hq'. destruct (decide (j = m)) as [->|Hj]; [|rewrite list_lookup_alter_ne in Hq' by done; by exists q'].
        rewrite list_lookup_alter_eq, Hlm in Hq'. injection Hq' as <-. exists p. by rewrite Rp.
Qed.

(** ** The loop *)

(** The parameters of an operation: its own, then those of its path that none
    of them stands for. *)
Definition final_params (p : op) : jval :=
  if bool_decide (name p = js "parameters") then params p
  else if truthy (inherited p) then JArr (absorb (path_list (inherited p)) (of_parameters (params p))).*2
  else params p.

Definition upto (m : nat) (st : groups * list op) : Prop :=
  named_upto m st.1 st.2 /\
  ∀ i p p0, st.2 !! i = Some p -> L !! i = Some p0 -> is_node (operation p0) = true ->
    params p = if (i <? m)%nat then final_params p0 else params p0.

Lemma named_insert m r l i q q' : named_upto m r l -> l !! i = Some q -> (i < m)%nat ->
  oid q' = oid q -> orig q' = orig q -> same_shape q q' -> named_upto m r (<[i := q']> l).
Proof.
  intros (Hlen & Htail & Hg & Hn) Hi Him Ho Hr Hs. split_and!; [by rewrite length_insert| |done|].
  - intros j Hj. rewrite list_lookup_insert_ne by lia. by apply Htail.
  - intros j p p0 Hp Hp0. destruct (decide (j = i)) as [->|Hj].
    + rewrite list_lookup_insert_eq in Hp by (by eapply lookup_lt_Some). injection Hp as <-.
      destruct (Hn i q p0 Hi Hp0) as [Hs0 Hold]. split; [|by rewrite Ho, Hr].
      unfold same_shape in *. destruct Hs as (-> & -> & -> & ->). done.
    + rewrite list_lookup_insert_ne in Hp by done. by apply Hn.
Qed.

Lemma step_upto t m st : upto m st -> (m < length L)%nat -> Forall normalizable L ->
  ∃ st', normalize_step lower t st m = Ok st' /\ upto (S m) st'.
Proof.
  intros [Hn Hpar] Hm Hall. destruct st as [r l]. cbn [fst snd] in *. destruct (lookup_lt_is_Some_2 L m Hm) as (p & Hp).
  assert (Hlm : l !! m = Some p) by (destruct Hn as (_ & -> & _); [done|lia]).
  assert (Hok : normalizable p) by (by apply (Forall_lookup_1 _ _ _ _ Hall Hp)).
  assert (Hdom : ∀ i q, l !! i = Some q -> ∃ q0, L !! i = Some q0).
  { intros i q Hq. apply lookup_lt_is_Some_2. apply lookup_lt_Some in Hq. destruct Hn as (<- & _). done. }
  unfold normalize_step. cbn [fst snd]. rewrite Hlm. destruct (is_node (operation p)) eqn:Hnode; cbn [negb].
  2: { exists (r, l). split; [done|]. split; cbn [fst snd].
    - eapply keyless_upto; [done..|]. destruct (key p) eqn:E; [|done]. apply key_node in E. congruence.
    - intros i q p0 Hq Hp0 Hn0. rewrite (Hpar i q p0) by done. destruct (decide (i = m)) as [->|]; [congruence|].
      destruct (Nat.ltb_spec i m), (Nat.ltb_spec i (S m)); done || lia. }
  destruct (name_step_upto m r l p Hn Hp Hnode Hok Hdom) as (r' & l' & -> & Hn' & Hkeep). cbn [result_bind fst snd].
  assert (Hq : ∃ q, l' !! m = Some q).
  { apply lookup_lt_is_Some_2. destruct Hn' as (-> & _). done. }
  destruct Hq as (q & Hq). rewrite Hq. destruct (Hkeep m q Hq) as (q1 & Hq1 & Eq). rewrite Hlm in Hq1. injection Hq1 as <-.
  assert (Hshape : same_shape p q) by (destruct Hn' as (_ & _ & _ & Hn'); by apply (Hn' m q p)).
  pose proof Hshape as (Sp & Sn & Si & So). destruct (Hok Hnode) as (_ & Hpl & Hil & _).
  assert (Hqn : is_node (operation q) = true) by congruence.
  assert (Hql : parameter_list (inherited q)) by congruence.
  assert (Hqp : parameter_list (get (props (operation q)) "parameters")) by (fold (params q); congruence).
  destruct (inherit_total t q Hqn Hql Hqp) as (q' & Hinh & Hfin). rewrite Hinh. cbn [result_bind]. eexists. split; [done|].
  destruct (inherit_frame t q q' "operationId" Hqn eq_refl Hinh) as (Fo & Fn & F1 & F2 & F3).
  destruct (inherit_frame t q q' "__originalOperationId" Hqn eq_refl Hinh) as (Fr & _).
  split; cbn [fst snd].
  - eapply named_insert; [done|done|lia|done|done|]. unfold same_shape. rewrite Fn, Hqn. done.
  - intros i x p0 Hx Hp0 Hn0. destruct (decide (i = m)) as [->|Hi].
    + rewrite list_lookup_insert_eq in Hx by (by eapply lookup_lt_Some). injection Hx as <-. rewrite Hp in Hp0. injection Hp0 as <-.
      destruct (Nat.ltb_spec m (S m)); [|lia]. unfold final_params. rewrite <- Sn. destruct (bool_decide (name q = _)) eqn:En.
      * rewrite <- Eq. unfold inherit in Hinh. rewrite En in Hinh. by injection Hinh as <-.
      * unfold params at 1. rewrite Hfin by done. rewrite Si. fold (params q). by rewrite Eq.
    + rewrite list_lookup_insert_ne in Hx by done. destruct (Hkeep i x Hx) as (x1 & Hx1 & ->). rewrite (Hpar i x1 p0) by done.
      destruct (Nat.ltb_spec i m), (Nat.ltb_spec i (S m)); done || lia.
Qed.

Lemma loop_upto t m st n : upto m st -> (m + n <= length L)%nat -> Forall normalizable L ->
  ∃ st', foldR (normalize_step lower t) st (seq m n) = Ok st' /\ upto (m + n) st'.
Proof.
  intros Hst Hmn Hall. revert m st Hst Hmn. induction n as [|n IH]; intros m st Hst Hmn; [exists st; by rewrite Nat.add_0_r|].
  cbn [seq foldR]. destruct (step_upto t m st Hst) as (st1 & -> & H1); [lia|done|]. cbn [result_bind].
  destruct (IH (S m) st1 H1) as (st2 & E & H2); [lia|]. exists st2. split; [done|]. by rewrite Nat.add_succ_r.
Qed.

Lemma upto_start : upto 0 ([], L).
Proof.
  split; cbn [fst snd].
  - split_and!; try done. intros i p p0 Hp Hp0. assert (p = p0) as <- by congruence. done.
  - intros i p p0 Hp Hp0 _. assert (p = p0) as <- by congruence. by destruct (Nat.ltb_spec i 0); [lia|].
Qed.

End loop.

(** The members of a specification called [s], in order. *)
Definition called (e : spec) (s : list Z) : list nat := mem (ops e) s (length (ops e)).

Lemma normalize_spec e : truthy (get (top e) "paths") = true -> truthy (get (top e) "$$normalized") = false ->
  Forall normalizable (ops e) ->
  ∃ e', normalizeSwagger lower e = Ok e' /\ top e' = set (top e) (js "$$normalized") (JBool true) /\ length (ops e') = length (ops e) /\
    ∀ i p p', ops e !! i = Some p -> ops e' !! i = Some p' ->
      same_shape p p' /\ (is_node (operation p) = true -> params p' = final_params p) /\
      ∀ s k, called e s !! k = Some i ->
        oid p' = expected (called e s) s k p /\ (truthy (or (orig p) (oid p)) = true -> orig p' = or (orig p) (oid p)).
Proof.
  intros Hp Hn Hall. destruct (loop_upto (ops e) (top e) 0 ([], ops e) (length (ops e)) (upto_start _)) as (st & E & H); [lia|done|].
  rewrite Nat.add_0_l in H. unfold normalizeSwagger. rewrite Hp, Hn. cbn [negb orb]. rewrite E. cbn [result_bind]. eexists. split; [done|].
  cbn [top ops]. destruct H as [(Hlen & _ & _ & Hnames) Hpar]. split_and!; [done|done|]. intros i p p' Hi Hi'.
  destruct (Hnames i p' p Hi' Hi) as [Hs Hold]. split_and!; [done| |exact Hold]. intros Hnode. rewrite (Hpar i p' p) by done.
  apply lookup_lt_Some in Hi. by destruct (Nat.ltb_spec i (length (ops e))); [|lia].
Qed.

(** ** Names *)

Lemma called_key e s i : i ∈ called e s <-> ∃ p, ops e !! i = Some p /\ key p = Some s.
Proof.
  unfold called. rewrite mem_elem. unfold key_at. split.
  - intros [_ H]. by apply bind_Some in H.
  - intros (p & Hp & Hk). split; [by eapply lookup_lt_Some|]. by rewrite Hp.
Qed.

(** No name is another one followed by digits. *)
Definition names_apart (e : spec) : Prop := ∀ p q s s' d, p ∈ ops e -> q ∈ ops e -> key p = Some s -> key q = Some s' ->
  d <> [] -> forallb digit d = true -> s' <> s ++ d.

Lemma dec_digit n : 0 <= n -> forallb digit (dec n) = true.
Proof.
  intros Hn. destruct (dec_spec n Hn) as (H & _). induction H as [|c l Hc _ IH]; [done|]. cbn. rewrite IH.
  unfold digit. destruct (Z.leb_spec 48 c), (Z.leb_spec c 57); cbn in Hc; done || lia.
Qed.

(** A name given to a member is the one it is called by and perhaps digits. *)
Lemma expected_text c s k p t : expected c s k p = JStr t -> ∃ x, t = s ++ x /\ forallb digit x = true.
Proof.
  unfold expected. destruct (1 <? len c).
  - intros [= <-]. eexists. split; [done|]. apply dec_digit. lia.
  - destruct (bool_decide _); [done|]. intros [= <-]. exists []. by rewrite app_nil_r.
Qed.

Lemma digits_apart e p q s s' x y : names_apart e -> p ∈ ops e -> q ∈ ops e -> key p = Some s -> key q = Some s' ->
  forallb digit x = true -> forallb digit y = true -> s ++ x = s' ++ y -> s = s'.
Proof.
  intros Ha Hp Hq Hs Hs' Hx Hy E. destruct (app_eq_app _ _ _ _ E) as (d & [[-> ->]|[-> ->]]).
  - destruct (decide (d = [])) as [->|Hd]; [by rewrite app_nil_r|]. rewrite forallb_app in Hy. apply andb_prop in Hy as [Hy _].
    by destruct (Ha q p s' (s' ++ d) d Hq Hp Hs' Hs Hd Hy).
  - destruct (decide (d = [])) as [->|Hd]; [by rewrite app_nil_r|]. rewrite forallb_app in Hx. apply andb_prop in Hx as [Hx _].
    by destruct (Ha p q s (s ++ d) d Hp Hq Hs Hs' Hd Hx).
Qed.

(** Members of one group have different numbers. *)
Lemma expected_inj c s k k' p q i j : NoDup c -> c !! k = Some i -> c !! k' = Some j -> i <> j ->
  expected c s k p <> expected c s k' q.
Proof.
  intros Hc Hk Hk' Hij E. assert (Hlen : (1 <? len c) = true).
  { destruct c as [|a [|b c]]; [done| |unfold len; cbn [length]; apply Z.ltb_lt; lia].
    apply list_lookup_singleton_Some in Hk as [_ <-]. apply list_lookup_singleton_Some in Hk' as [_ <-]. done. }
  unfold expected in E. rewrite Hlen in E. injection E as E. apply app_inv_head, dec_inj in E; [|lia|lia].
  assert (k = k') by lia. congruence.
Qed.

End names.

(** C11. [normalizeSwagger] returns for every specification whose operations have
    text names that no object inherits and lists of parameters, and gives the
    operations distinct names: two members of path items that have a name
    afterwards never have the same, whatever names they had before and however
    often these occur, provided no name is another one followed by digits. A
    name that only one member has is kept (with its special characters
    replaced), and every member that had a name has it still as its original
    one. *)
Theorem normalize_unique (lower : list Z -> list Z) (e : spec) :
  truthy (get (top e) "paths") = true -> truthy (get (top e) "$$normalized") = false ->
  Forall (normalizable lower) (ops e) -> Forall (λ p, is_node (operation p) = true -> key lower p <> None) (ops e) ->
  names_apart lower e ->
  ∃ e', normalizeSwagger lower e = Ok e' /\ length (ops e') = length (ops e) /\
    (∀ i j p q s, ops e' !! i = Some p -> ops e' !! j = Some q -> is_node (operation p) = true -> is_node (operation q) = true ->
      oid p = JStr s -> oid q = JStr s -> i = j) /\
    (∀ i p p' s, ops e !! i = Some p -> ops e' !! i = Some p' -> oid p = JStr s -> key lower p = Some (escapeString s) ->
      (∀ j q, ops e !! j = Some q -> key lower q = Some (escapeString s) -> j = i) -> oid p' = JStr (escapeString s)) /\
    (∀ i p p', ops e !! i = Some p -> ops e' !! i = Some p' -> key lower p <> None -> orig p = JUndef -> truthy (oid p) = true -> orig p' = oid p).
Proof.
  intros Hp Hn Hall Hkeys Hapart. destruct (normalize_spec lower e Hp Hn Hall) as (e' & E & _ & Hlen & H).
  assert (K : ∀ i p', ops e' !! i = Some p' -> is_node (operation p') = true ->
    ∃ p s k, ops e !! i = Some p /\ key lower p = Some s /\ called lower e s !! k = Some i /\ oid p' = expected (called lower e s) s k p).
  { intros i p' Hi Hnode. destruct (lookup_lt_is_Some_2 (ops e) i) as (p & Hpi); [apply lookup_lt_Some in Hi; lia|].
    destruct (H i p p' Hpi Hi) as ((_ & _ & _ & Hs) & _ & Hname). rewrite Hnode in Hs. symmetry in Hs.
    destruct (key lower p) as [s|] eqn:Ek; [|by apply (Forall_lookup_1 _ _ _ _ Hkeys Hpi) in Hs].
    assert (Hin : i ∈ called lower e s) by (apply called_key; by exists p). apply list_elem_of_lookup in Hin as (k & Hk).
    exists p, s, k. split_and!; try done. by apply Hname. }
  exists e'. split_and!; [done|done| | |].
  - intros i j p' q' t Hi Hj Hnp Hnq Op Oq. destruct (K i p' Hi Hnp) as (p & s & k & Hpi & Ks & Hk & Ep).
    destruct (K j q' Hj Hnq) as (q & s' & k' & Hqj & Ks' & Hk' & Eq).
    assert (s = s') as <-.
    { rewrite Ep in Op. rewrite Eq in Oq. apply expected_text in Op as (x & -> & Hx). apply expected_text in Oq as (y & Ey & Hy).
      eapply digits_apart; [exact Hapart| | |exact Ks|exact Ks'|exact Hx|exact Hy|exact Ey]; by eapply list_elem_of_lookup_2. }
    destruct (decide (i = j)) as [|Hij]; [done|]. exfalso.
    apply (expected_inj (called lower e s) s k k' p q i j (mem_nodup _ _ _ _) Hk Hk' Hij). congruence.
  - intros i p p' s Hi Hi' Ho Hk Honly. destruct (H i p p' Hi Hi') as (_ & _ & Hname).
    assert (Hc : called lower e (escapeString s) = [i]).
    { assert (Hin : i ∈ called lower e (escapeString s)) by (apply called_key; by exists p).
      pose proof (mem_nodup lower (ops e) (escapeString s) (length (ops e))) as Hnd. fold (called lower e (escapeString s)) in Hnd.
      assert (Hi1 : ∀ j, j ∈ called lower e (escapeString s) -> j = i) by (intros j (q & Hq & Kq)%called_key; by apply (Honly j q)).
      destruct (called lower e (escapeString s)) as [|a [|b c]]; [by apply not_elem_of_nil in Hin|f_equal; apply Hi1; set_solver|].
      apply NoDup_cons in Hnd as [Hnd _]. exfalso. apply Hnd. rewrite (Hi1 a), <- (Hi1 b); set_solver. }
    destruct (Hname (escapeString s) 0%nat) as [-> _]; [by rewrite Hc|]. rewrite Hc. unfold expected. cbn. rewrite bool_decide_false; [done|congruence].
  - intros i p p' Hi Hi' Hk Hor Ht. destruct (key lower p) as [s|] eqn:Ek; [|done]. destruct (H i p p' Hi Hi') as (_ & _ & Hname).
    assert (Hin : i ∈ called lower e s) by (apply called_key; by exists p). apply list_elem_of_lookup in Hin as (k & Hk').
    destruct (Hname s k Hk') as [_ Ho]. unfold or in Ho. rewrite Hor in Ho. cbn [truthy] in Ho. by apply Ho.
Qed.

(** ** Parameters *)

Lemma existsb_elem {A} (f : A -> bool) l : existsb f l = true <-> ∃ x, x ∈ l /\ f x = true.
Proof. rewrite existsb_exists. split; intros (x & Hx & ?); exists x; (split; [by apply list_elem_of_In|done]). Qed.
Lemma existsb_none {A} (f : A -> bool) l x : existsb f l = false -> x ∈ l -> f x = false.
Proof. intros H Hx. destruct (f x) eqn:E; [|done]. rewrite <- H. symmetry. apply existsb_elem. eauto. Qed.

(** Of the parameters [us] those that no parameter so far stands for: one that
    the operation has, or one of [us] that was taken before. *)
Fixpoint not_overridden (have us : list jval) : list jval :=
  match us with
  | [] => []
  | u :: us => if existsb (λ t, matches t u) have then not_overridden have us else u :: not_overridden (have ++ [u]) us
  end.

Lemma not_overridden_sublist us : ∀ have, not_overridden have us `sublist_of` us.
Proof. induction us as [|u us IH]; intros have; cbn; [constructor|]. destruct (existsb _ have); constructor; apply IH. Qed.
Lemma not_overridden_free us : ∀ have i u t, not_overridden have us !! i = Some u -> t ∈ have ++ take i (not_overridden have us) -> matches t u = false.
Proof.
  induction us as [|u0 us IH]; intros have i u t Hi Ht; [done|]. cbn [not_overridden] in *. destruct (existsb (λ t, matches t u0) have) eqn:E; [exact (IH _ _ _ _ Hi Ht)|].
  destruct i as [|i]; cbn [take lookup list_lookup] in *; [injection Hi as <-; rewrite app_nil_r in Ht; by apply (existsb_none _ _ _ E Ht)|].
  eapply IH; [exact Hi|]. by rewrite <- app_assoc.
Qed.

(** The objects of one path are different, so that only the fields decide. *)
Lemma fold_not_overridden us : ∀ j l, Forall (λ t : tagged, match t.1 with Some i => (i < j)%nat | None => True end) l ->
  (foldl push l (imap (λ i u, ((j + i)%nat, u)) us)).*2 = l.*2 ++ not_overridden l.*2 us.
Proof.
  induction us as [|u us IH]; intros j l Hl; cbn [imap foldl not_overridden]; [by rewrite app_nil_r|].
  assert (E : existsb (found j u) l = existsb (λ t, matches t u) l.*2).
  { clear -Hl. induction Hl as [|t l Ht _ IH]; [done|]. cbn. rewrite IH. f_equal. unfold found. rewrite bool_decide_false; [apply orb_false_r|].
    intros Et. rewrite Et in Ht. lia. }
  rewrite Nat.add_0_r. assert (N : imap ((λ i u, ((j + i)%nat, u)) ∘ S) us = imap (λ i u, ((S j + i)%nat, u)) us).
  { apply imap_ext. intros i x _. cbn. f_equal. lia. }
  rewrite N. unfold push at 2. cbn [fst snd]. rewrite E. destruct (existsb (λ t, matches t u) l.*2).
  - apply IH. eapply Forall_impl; [exact Hl|]. intros [[i|] x] Hx; cbn in *; [lia|done].
  - rewrite IH.
    + rewrite fmap_app, <- app_assoc. done.
    + apply Forall_app. split; [|by apply Forall_singleton; cbn; lia]. eapply Forall_impl; [exact Hl|]. intros [[i|] x] Hx; cbn in *; [lia|done].
Qed.

Lemma absorb_own us own : (absorb us (Elements (pair None <$> own))).*2 = own ++ not_overridden own us.
Proof.
  cbn [absorb]. assert (E0 : (pair None <$> own : list tagged).*2 = own) by (by rewrite <- list_fmap_compose, list_fmap_id).
  rewrite <- E0 at 2 3. apply (fold_not_overridden us 0). apply Forall_fmap, Forall_true. done.
Qed.
Lemma absorb_none us v : (absorb us (NoArray v)).*2 = us.
Proof. cbn [absorb]. by rewrite fmap_imap, (imap_const (λ x : jval, x)), list_fmap_id. Qed.

(** C18. [normalizeSwagger] merges the parameters of a path into its operations
    exactly once, although it goes through them once for each of the shared
    settings of the specification: an operation without parameters gets those of
    its path; one with parameters keeps them, first and in order, and after them
    gets, each once and in order, exactly the parameters of the path that no
    parameter before it stands for (by [name], [$ref] or [$$ref]), neither one of
    its own nor one of the path that it got. *)
Theorem normalize_parameters (lower : list Z -> list Z) (e : spec) :
  truthy (get (top e) "paths") = true -> truthy (get (top e) "$$normalized") = false -> Forall (normalizable lower) (ops e) ->
  ∃ e', normalizeSwagger lower e = Ok e' /\
    ∀ i p p', ops e !! i = Some p -> ops e' !! i = Some p' -> is_node (operation p) = true -> name p <> js "parameters" ->
      (inherited p = JUndef -> params p' = params p) /\
      ∀ us, inherited p = JArr us ->
        (params p = JUndef -> params p' = JArr us) /\
        ∀ own, params p = JArr own -> ∃ added, params p' = JArr (own ++ added) /\
          added = not_overridden own us /\ added `sublist_of` us /\
          (∀ i u t, added !! i = Some u -> t ∈ own ++ take i added -> matches t u = false).
Proof.
  intros Hp Hn Hall. destruct (normalize_spec lower e Hp Hn Hall) as (e' & E & _ & _ & H). exists e'. split; [done|].
  intros i p p' Hi Hi' Hnode Hname. destruct (H i p p' Hi Hi') as (_ & Hpar & _). specialize (Hpar Hnode). unfold final_params in Hpar.
  rewrite bool_decide_false in Hpar by done. split; [intros Hin; by rewrite Hin in Hpar|]. intros us Hus. rewrite Hus in Hpar. cbn [truthy path_list] in Hpar.
  split; [intros Ho; rewrite Hpar, Ho; cbn [of_parameters]; by rewrite absorb_none|]. intros own Ho. exists (not_overridden own us).
  rewrite Hpar, Ho. cbn [of_parameters]. rewrite absorb_own. split_and!; [done|done|apply not_overridden_sublist|apply not_overridden_free].
Qed.

(** ** Checks, for concrete specifications *)

Definition parameter_listb (v : jval) : bool :=
  match v with JUndef => true | JArr l => forallb (λ x, match x with JObj _ => true | _ => false end) l | _ => false end.
Lemma parameter_listb_ok v : parameter_listb v = true -> parameter_list v.
Proof.
  destruct v as [| | | | |l|]; try done; intros H; [by left|]. right. exists l. split; [done|]. cbn in H. rewrite forallb_forall in H.
  apply Forall_forall. intros x Hx%list_elem_of_In%H. destruct x; eauto || done.
Qed.
Definition normalizableb (lower : list Z -> list Z) (p : op) : bool :=
  negb (is_node (operation p)) ||
  (match oid p with JUndef | JStr _ => true | _ => false end && parameter_listb (params p) && parameter_listb (inherited p) &&
   match key lower p with Some s => negb (bool_decide (s ∈ object_prototype)) | None => false end).
Lemma normalizableb_ok lower l : forallb (normalizableb lower) l = true ->
  Forall (normalizable lower) l /\ Forall (λ p, is_node (operation p) = true -> key lower p <> None) l.
Proof.
  intros H. rewrite forallb_forall in H. split; apply Forall_forall; intros p Hp%list_elem_of_In%H Hn; unfold normalizableb in Hp; rewrite Hn in Hp;
    cbn [negb orb] in Hp; apply andb_prop in Hp as [[[H1 H2]%andb_prop H3]%andb_prop H4]; [|by destruct (key lower p)].
  split_and!; [destruct (oid p); eauto; done|by apply parameter_listb_ok|by apply parameter_listb_ok|].
  intros s Hs. rewrite Hs in H4. by apply negb_true_iff, bool_decide_eq_false in H4.
Qed.
Definition followed (s s' : list Z) : bool :=
  prefix_at s s' && match drop (length s) s' with [] => false | d => forallb digit d end.
Lemma followed_app s d : d <> [] -> forallb digit d = true -> followed s (s ++ d) = true.
Proof.
  intros Hne Hd. unfold followed. rewrite drop_app_length. assert (H : prefix_at s (s ++ d) = true) by (induction s; cbn; [by destruct d|by rewrite Z.eqb_refl]).
  rewrite H. by destruct d.
Qed.
Lemma names_apartb_ok lower e : (let ks := omap (key lower) (ops e) in forallb (λ s, forallb (λ s', negb (followed s s')) ks) ks) = true ->
  names_apart lower e.
Proof.
  cbv zeta. intros H p q s s' d Hp Hq Ks Ks' Hne Hd ->. rewrite forallb_forall in H.
  assert (Hs : s ∈ omap (key lower) (ops e)) by (apply list_elem_of_omap; eauto).
  assert (Hs' : s ++ d ∈ omap (key lower) (ops e)) by (apply list_elem_of_omap; eauto).
  apply list_elem_of_In, H in Hs. rewrite forallb_forall in Hs. apply list_elem_of_In, Hs in Hs'. by rewrite followed_app in Hs'.
Qed.

Definition two_gets : spec := spec_of [
  (js "/a", JObj [(js "parameters", JArr [JObj [(js "name", JStr (js "u"))]; JObj [(js "name", JStr (js "v"))]]);
     (js "get", JObj [(js "operationId", JStr (js "x y")); (js "parameters", JArr [JObj [(js "name", JStr (js "v"))]])])]);
  path_get "/b" (operation_of (js "x.y"))].

Lemma normalize_unique_witness :
  ∃ e', normalizeSwagger to_lower two_gets = Ok e' /\ length (ops e') = length (ops two_gets) /\
    (∀ i j p q s, ops e' !! i = Some p -> ops e' !! j = Some q -> is_node (operation p) = true -> is_node (operation q) = true ->
      oid p = JStr s -> oid q = JStr s -> i = j) /\
    (∀ i p p' s, ops two_gets !! i = Some p -> ops e' !! i = Some p' -> oid p = JStr s -> key to_lower p = Some (escapeString s) ->
      (∀ j q, ops two_gets !! j = Some q -> key to_lower q = Some (escapeString s) -> j = i) -> oid p' = JStr (escapeString s)) /\
    (∀ i p p', ops two_gets !! i = Some p -> ops e' !! i = Some p' -> key to_lower p <> None -> orig p = JUndef -> truthy (oid p) = true -> orig p' = oid p).
Proof.
  destruct (normalizableb_ok to_lower (ops two_gets)) as [H1 H2]; [vm_compute; reflexivity|].
  apply (normalize_unique to_lower two_gets); [vm_compute; reflexivity|vm_compute; reflexivity|exact H1|exact H2|].
  apply names_apartb_ok. vm_compute. reflexivity.
Defined.

Lemma normalize_parameters_witness :
  ∃ e', normalizeSwagger to_lower two_gets = Ok e' /\
    ∀ i p p', ops two_gets !! i = Some p -> ops e' !! i = Some p' -> is_node (operation p) = true -> name p <> js "parameters" ->
      (inherited p = JUndef -> params p' = params p) /\
      ∀ us, inherited p = JArr us ->
        (params p = JUndef -> params p' = JArr us) /\
        ∀ own, params p = JArr own -> ∃ added, params p' = JArr (own ++ added) /\
          added = not_overridden own us /\ added `sublist_of` us /\
          (∀ i u t, added !! i = Some u -> t ∈ own ++ take i added -> matches t u = false).
Proof.
  destruct (normalizableb_ok to_lower (ops two_gets)) as [H1 _]; [vm_compute; reflexivity|].
  apply (normalize_parameters to_lower two_gets); [vm_compute; reflexivity|vm_compute; reflexivity|exact H1].
Defined.

End ClientSpecOk.
