(* ===== verification/UrlOk.v ===== *)
(** What the [url] module (Url.v) does with the URLs of the page: the parts of a
    URL are found, formatting it gives it back, and dot segments are resolved
    as a walk through the directories they name. *)

From stdpp Require Import base list list_numbers numbers strings gmap.
From Stdlib Require Import ZArith Lia.
From S2P Require Import Prelude BufferText Uri Json Query Punycode PunycodeOk Url.

Module UrlOk.
Import Uri Json Url.

(** ** Dot segments *)

(** A walk from directory to directory: the stack of the directories entered,
    and how often the walk left the one it began in. *)
Definition walk_step (st : list (list Z) * nat) (s : list Z) : list (list Z) * nat :=
  let '(stack, ups) := st in
  if decide (s = js ".") then (stack, ups)
  else if decide (s = js "..") then match stack with [] => ([], S ups) | _ :: stack => (stack, ups) end
  else (s :: stack, ups).
Definition walk (x : list (list Z)) : list (list Z) * nat := foldl walk_step ([], O) x.

Lemma remove_dots_walk x k A : foldr dot_step (k, A) x =
  (reverse (drop A (walk x).1) ++ k, (walk x).2 + (A - length (walk x).1))%nat.
Proof.
  revert k A. induction x as [|s x IH] using rev_ind; intros k A; [cbn; f_equal; [by destruct A|lia]|].
  unfold walk. rewrite foldr_app, foldl_app. fold (walk x). cbn [foldr foldl]. destruct (walk x) as [st u] eqn:E. cbn [fst snd] in IH.
  unfold dot_step at 2, walk_step. destruct (decide (s = js ".")); [by rewrite IH|]. destruct (decide (s = js "..")).
  - rewrite IH. destruct st; cbn [fst snd drop length]; f_equal; try lia. by destruct A.
  - destruct A as [|A]; rewrite IH; cbn [fst snd drop length]; f_equal; try lia. rewrite reverse_cons, <- app_assoc. by destruct st.
Qed.

(** C17. Dot segments are resolved as the walk they describe: the loop of
    [resolveObject], which goes through the segments from the last to the first
    and counts double dots, keeps exactly the segments that entering and leaving
    directories from the first to the last ends in, in their order, and is left
    with as many double dots as the walk leaves the directory it began in. *)
Theorem remove_dots_is_walk x : remove_dots x = (reverse (walk x).1, (walk x).2).
Proof. unfold remove_dots. rewrite remove_dots_walk. rewrite app_nil_r. f_equal. cbn. lia. Qed.

(** ** Classes of characters *)

Lemma elem_existsb (c : Z) l : bool_decide (c ∈ l) = existsb (Z.eqb c) l.
Proof.
  induction l as [|x l IH]; [done|]. cbn [existsb]. rewrite <- IH. destruct (Z.eqb_spec c x) as [->|Hne].
  - by rewrite bool_decide_true by (by apply elem_of_cons; left).
  - cbn [orb]. apply bool_decide_ext. rewrite elem_of_cons. naive_solver.
Qed.
Lemma hostEnding_eq c : hostEnding c = existsb (Z.eqb c) [47; 63; 35].
Proof. unfold hostEnding, chars. by rewrite elem_existsb. Qed.
Lemma autoEscape_eq c : autoEscape c = existsb (Z.eqb c) [39; 123; 125; 124; 92; 94; 96; 60; 62; 32; 34; 13; 10; 9].
Proof. unfold autoEscape, unwise_delim, chars. rewrite !elem_existsb. cbn. by rewrite !orb_false_r, <- !orb_assoc. Qed.
Lemma nonHostChar_eq c : nonHostChar c = existsb (Z.eqb c) [37; 47; 63; 59; 35; 39; 123; 125; 124; 92; 94; 96; 60; 62; 32; 34; 13; 10; 9].
Proof. unfold nonHostChar, chars. rewrite elem_existsb, autoEscape_eq. cbn. by rewrite !orb_false_r, <- !orb_assoc. Qed.
Lemma host_char_eq c : host_char c = alnum c || existsb (Z.eqb c) [43; 95; 45].
Proof. unfold host_char, chars. by rewrite elem_existsb. Qed.
Lemma is_white_eq c : is_white c = existsb (Z.eqb c) [9; 10; 11; 12; 13; 32; 160; 5760; 8232; 8233; 8239; 8287; 12288; 65279] || ((8192 <=? c) && (c <=? 8202)).
Proof. unfold is_white. by rewrite elem_existsb. Qed.

(** [char_lia] decides goals about classes of characters. *)
Ltac char_lia :=
  rewrite ?hostEnding_eq, ?autoEscape_eq, ?nonHostChar_eq, ?host_char_eq, ?is_white_eq in *;
  unfold alnum, digit in *; cbn [existsb] in *; lia.

(** ** Cutting texts *)

Lemma break_app p a r : Forall (λ c, p c = false) a -> match r with [] => True | c :: _ => p c = true end -> break p (a ++ r) = (a, r).
Proof.
  intros Ha Hr. induction Ha as [|c a Hc _ IH]; cbn [app].
  - destruct r as [|c r]; [done|]. cbn. by rewrite Hr.
  - cbn [break]. by rewrite Hc, IH.
Qed.
Lemma break_none p a : Forall (λ c, p c = false) a -> break p a = (a, []).
Proof. intros H. rewrite <- (app_nil_r a) at 1. by apply break_app. Qed.

Lemma join_split c s : join [c] (split [c] s) = s /\ split [c] s <> [].
Proof.
  unfold split. induction s as [|x s [IH Hne]]; [done|]. cbn [split_go prefix_at]. rewrite andb_true_r. destruct (Z.eqb_spec c x) as [->|].
  - cbn [length Nat.sub]. destruct (split_go [x] s 0); [done|]. split; [|done]. cbn [join app] in *. by rewrite IH.
  - destruct (split_go [c] s 0) as [|h t]; [done|]. split; [|done]. destruct t; cbn [join app] in *; by rewrite IH.
Qed.

Lemma slash_path_id e : Forall (λ c, c <> 92) e -> slash_path e = e.
Proof.
  intros He. unfold slash_path. cbv zeta. assert (H : ∀ c, match split [c] e with h :: l => join [c] (slash_backslashes h :: l) | [] => e end = e).
  { intros c. destruct (join_split c e) as [J _]. destruct (split [c] e) as [|h l]; [done|]. transitivity (join [c] (h :: l)); [|exact J]. do 2 f_equal.
    assert (Hh : Forall (λ x, x <> 92) h).
    { rewrite <- J in He. destruct l; cbn [join] in He; [done|]. by apply Forall_app in He as [? _]. }
    unfold slash_backslashes. clear -Hh. induction Hh as [|x h Hx _ IH]; [done|]. cbn. rewrite IH. by destruct (Z.eqb_spec x 92). }
  by destruct (_ && _).
Qed.

(** ** The URLs of the page *)

(** The parts of a URL with a host: the scheme, the labels of the host name,
    the digits of the port, the path, the search and the hash (empty when there
    is none). *)
Record parts := Parts {
  u_scheme : list Z;
  u_labels : list (list Z);
  u_port : list Z;
  u_path : list Z;
  u_search : list Z;
  u_hash : list Z }.

Definition u_name (u : parts) : list Z := join [46] (u_labels u).
Definition u_host (u : parts) : list Z := u_name u ++ match u_port u with [] => [] | p => [58] ++ p end.
Definition u_rest (u : parts) : list Z := u_path u ++ u_search u ++ u_hash u.
Definition u_text (u : parts) : list Z := u_scheme u ++ js "://" ++ u_host u ++ u_rest u.

(** Characters that are written as they are. *)
Definition plain_char (c : Z) : bool := negb (autoEscape c) && negb (is_white c).

Record well_parted (lower : list Z -> list Z) (u : parts) : Prop := {
  wp_scheme : u_scheme u ∈ js <$> ["http"; "https"]%string;
  wp_lower : lower (u_scheme u ++ [58]) = u_scheme u ++ [58] /\ lower (u_name u) = u_name u;
  wp_labels : Forall (λ l, hostname_part l = true) (u_labels u) /\ u_name u <> [] /\ len (u_name u) <= 255;
  wp_port : Forall (λ c, digit c = true) (u_port u);
  wp_path : (u_path u = [] \/ ∃ r, u_path u = 47 :: r) /\ Forall (λ c, plain_char c = true /\ c <> 35 /\ c <> 63) (u_path u);
  wp_search : (u_search u = [] \/ ∃ r, u_search u = 63 :: r) /\ Forall (λ c, plain_char c = true /\ c <> 35) (u_search u);
  wp_hash : (u_hash u = [] \/ ∃ r, u_hash u = 35 :: r) /\ Forall (λ c, plain_char c = true) (u_hash u) }.

(** What parsing it gives. *)
Definition some (s : list Z) : option (list Z) := match s with [] => None | _ => Some s end.
Definition full_path (u : parts) : list Z := match u_path u with [] => [47] | p => p end.
Definition parsed (u : parts) : url :=
  Url (Some (u_scheme u ++ [58])) true None (Some (u_host u)) (some (u_port u)) (Some (u_name u)) (some (u_hash u)) (some (u_search u))
    (match u_search u with _ :: q => JStr q | [] => JNull end) (Some (full_path u)) (Some (full_path u ++ u_search u))
    (Some (u_scheme u ++ js "://" ++ u_host u ++ full_path u ++ u_search u ++ u_hash u)).

Lemma text_some s : text (Some s) = s.
Proof. done. Qed.

Section parse.
Variable lower : list Z -> list Z.
Variable u : parts.
Hypothesis Hu : well_parted lower u.

Definition name_char (c : Z) : bool := host_char c || (c =? 46).

Lemma name_chars : Forall (λ c, name_char c = true) (u_name u).
Proof.
  apply PunycodeOk.join_chars; [done|]. destruct (wp_labels _ _ Hu) as [H _]. eapply Forall_impl; [exact H|]. intros l Hl. cbn in Hl.
  unfold hostname_part in Hl. apply andb_prop in Hl as [Hl _]. rewrite forallb_forall in Hl. apply Forall_forall.
  intros c Hc%list_elem_of_In%Hl. unfold name_char. by rewrite Hc.
Qed.
Lemma host_chars : Forall (λ c, name_char c = true \/ c = 58) (u_host u).
Proof.
  unfold u_host. apply Forall_app_2; [eapply Forall_impl; [exact name_chars|by left]|]. pose proof (wp_port _ _ Hu) as Hp.
  destruct (u_port u) as [|d ds]; [apply Forall_nil_2|]. apply Forall_cons_2; [by right|].
  eapply Forall_impl; [exact Hp|]. intros c Hc. left. cbn in Hc. unfold name_char. char_lia.
Qed.
Lemma rest_head : match u_rest u with [] => True | c :: _ => c = 47 \/ c = 63 \/ c = 35 end.
Proof.
  unfold u_rest. destruct (wp_path _ _ Hu) as [[->|(r & ->)] _]; [|by left]. destruct (wp_search _ _ Hu) as [[->|(r & ->)] _]; [|cbn; auto].
  destruct (wp_hash _ _ Hu) as [[->|(r & ->)] _]; cbn; auto.
Qed.
Lemma rest_plain : Forall (λ c, plain_char c = true) (u_rest u).
Proof.
  unfold u_rest. apply Forall_app_2; [eapply Forall_impl; [apply (wp_path _ _ Hu)|by intros c [? _]]|].
  apply Forall_app_2; [eapply Forall_impl; [apply (wp_search _ _ Hu)|by intros c [? _]]|apply (wp_hash _ _ Hu)].
Qed.
Lemma scheme_cases (P : list Z -> Prop) : P (js "http") -> P (js "https") -> P (u_scheme u).
Proof.
  intros H1 H2. pose proof (wp_scheme _ _ Hu) as H. apply elem_of_cons in H as [->|H]; [done|]. by apply list_elem_of_singleton in H as ->.
Qed.

Lemma text_plain : Forall (λ c, is_white c = false /\ c <> 92) (u_text u).
Proof.
  assert (G : ∀ s, forallb (λ c, negb (is_white c) && negb (c =? 92)) s = true -> Forall (λ c, is_white c = false /\ c <> 92) s).
  { intros s H. rewrite forallb_forall in H. apply Forall_forall. intros c [Hw Hc]%list_elem_of_In%H%andb_prop.
    by destruct (is_white c), (Z.eqb_spec c 92). }
  unfold u_text. apply Forall_app_2; [apply G; by apply scheme_cases|]. apply Forall_app_2; [by apply G|]. apply Forall_app_2.
  - eapply Forall_impl; [exact host_chars|]. intros c Hc. cbn in Hc. unfold name_char in Hc. char_lia.
  - eapply Forall_impl; [exact rest_plain|]. intros c Hc. cbn in Hc. unfold plain_char in Hc. char_lia.
Qed.

Lemma split_last_none s : Forall (λ c, c <> 64) s -> split_last 64 s = None.
Proof.
  intros H. unfold split_last. rewrite break_none; [done|]. apply Forall_reverse in H. eapply Forall_impl; [exact H|]. intros c Hc. cbn in Hc.
  by destruct (Z.eqb_spec 64 c).
Qed.

Lemma parseHost_parts v : host v = Some (u_host u) -> port v = None ->
  parseHost v = with_hostname (with_port v (some (u_port u))) (Some (u_name u)).
Proof.
  intros Hv Hport. unfold parseHost. rewrite Hv. cbv zeta. rewrite text_some. unfold u_host.
  destruct (wp_labels _ _ Hu) as (_ & Hne & _). pose proof name_chars as Hn. pose proof (wp_port _ _ Hu) as Hp.
  assert (Hnn : nonempty (u_name u) = true) by (by destruct (u_name u)).
  destruct (u_port u) as [|d ds] eqn:Ep.
  - rewrite app_nil_r. assert (Hr : Forall (λ c, c <> 58) (reverse (u_name u))).
    { apply Forall_reverse. eapply Forall_impl; [exact Hn|]. intros c Hc. cbn in Hc. unfold name_char in Hc. char_lia. }
    destruct (break (λ c, negb (digit c)) (reverse (u_name u))) as [a r] eqn:Eb.
    assert (Hr' : Forall (λ c, c <> 58) r).
    { revert a r Eb. induction Hr as [|x l Hx Hl IH]; intros a r; cbn [break]; [by intros [= <- <-]|].
      destruct (negb (digit x)); [intros [= <- <-]; by constructor|]. destruct (break (λ c, negb (digit c)) l) as [a' r'] eqn:E'. intros [= <- <-]. by eapply IH. }
    assert (Ev : with_port v None = v) by (destruct v; cbn in Hport; unfold with_port; cbn; by rewrite Hport).
    cbn [some]. rewrite Ev. destruct r as [|c r]; [cbv beta iota; by rewrite Hnn|]. apply Forall_cons in Hr' as [Hc _].
    cbv beta iota. destruct (Z.eqb_spec c 58); [done|]. by rewrite Hnn.
  - rewrite <- Ep in *. rewrite reverse_app. rewrite reverse_app. change (reverse [58]) with [58]. rewrite <- app_assoc. cbn [app].
    rewrite break_app; [|apply Forall_reverse; eapply Forall_impl; [exact Hp|]; intros c Hc; cbn in Hc; by rewrite Hc|done].
    cbn [Z.eqb Pos.eqb]. cbv beta iota. rewrite !reverse_involutive. rewrite Hnn.
    assert (Hq : nonempty (reverse (u_port u)) = true).
    { destruct (reverse (u_port u)) eqn:Er; [|done]. apply (f_equal reverse) in Er. rewrite reverse_involutive, Ep in Er. done. }
    rewrite Hq. by rewrite Ep.
Qed.

Lemma check_labels_ok T D h b : Forall (λ l, hostname_part l = true) T -> check_labels T D h b = (h, b).
Proof.
  intros H. revert D. induction H as [|l T Hl _ IH]; intros D; [done|]. cbn [check_labels]. rewrite Hl. rewrite andb_false_r. cbn [andb]. apply IH.
Qed.

Lemma labels_split : split [46] (u_name u) = u_labels u.
Proof.
  destruct (wp_labels _ _ Hu) as (H & Hne & _). apply split_join; [unfold u_name in Hne; by destruct (u_labels u)|].
  eapply Forall_impl; [exact H|]. intros l Hl. cbn in Hl. unfold hostname_part in Hl. apply andb_prop in Hl as [Hl _].
  rewrite forallb_forall in Hl. apply Forall_forall. intros c Hc%list_elem_of_In%Hl. char_lia.
Qed.

Lemma toASCII_name : Punycode.toASCII (u_name u) = Ok (u_name u).
Proof.
  destruct (wp_labels _ _ Hu) as (H & Hne & _). unfold Punycode.toASCII, u_name.
  assert (Hc : Forall (Forall (λ c, host_char c = true)) (u_labels u)).
  { eapply Forall_impl; [exact H|]. intros l Hl. cbn in Hl. unfold hostname_part in Hl. apply andb_prop in Hl as [Hl _].
    rewrite forallb_forall in Hl. apply Forall_forall. by intros c Hc%list_elem_of_In%Hl. }
  rewrite (PunycodeOk.map_domain (u_labels u) _ (λ x, x)).
  - by rewrite list_fmap_id.
  - unfold u_name in Hne. by destruct (u_labels u).
  - eapply Forall_impl; [exact Hc|]. intros l Hl. eapply Forall_impl; [exact Hl|]. intros c Hx. cbn in Hx. unfold PunycodeOk.label_char, Punycode.is_dot. char_lia.
  - eapply Forall_impl; [exact Hc|]. intros l Hl. cbn in *. destruct (existsb _ l) eqn:E; [|done]. exfalso. apply existsb_exists in E as (c & Hin & E).
    rewrite Forall_forall in Hl. specialize (Hl c (proj2 (list_elem_of_In _ _) Hin)). char_lia.
Qed.

Lemma parse_authority_parts v : auth v = None -> port v = None ->
  parse_authority lower v (u_host u ++ u_rest u)
  = Ok (with_hostname (with_host (with_hostname (with_port (with_host v (Some (u_host u))) (some (u_port u))) (Some (u_name u))) (Some (u_host u))) (Some (u_name u)), u_rest u).
Proof.
  intros Ha Hp. unfold parse_authority. pose proof rest_head as Hr.
  rewrite (break_app hostEnding (u_host u) (u_rest u)).
  2: { eapply Forall_impl; [exact host_chars|]. intros c Hc. cbn in Hc. unfold name_char in Hc. char_lia. }
  2: { destruct (u_rest u); [done|]. char_lia. }
  rewrite split_last_none.
  2: { eapply Forall_impl; [exact host_chars|]. intros c Hc. cbn in Hc. unfold name_char in Hc. char_lia. }
  cbn [result_bind]. rewrite (break_app nonHostChar (u_host u) (u_rest u)).
  2: { eapply Forall_impl; [exact host_chars|]. intros c Hc. cbn in Hc. unfold name_char in Hc. char_lia. }
  2: { destruct (u_rest u); [done|]. char_lia. }
  cbv zeta. rewrite (parseHost_parts (with_host v (Some (u_host u)))) by done.
  cbn [hostname with_hostname]. rewrite text_some.
  assert (HP : prefix_at [91] (u_name u) = false).
  { pose proof name_chars as Hn. destruct (u_name u) as [|c n]; [done|]. apply Forall_cons in Hn as [Hc _]. cbn [prefix_at]. unfold name_char in Hc.
    destruct (Z.eqb_spec 91 c); [subst c; vm_compute in Hc; discriminate|done]. }
  rewrite HP. cbn [andb]. rewrite labels_split, check_labels_ok by apply (wp_labels _ _ Hu).
  destruct (wp_labels _ _ Hu) as (_ & _ & Hlen). destruct (Z.ltb_spec 255 (len (u_name u))); [lia|].
  rewrite (proj2 (wp_lower _ _ Hu)), toASCII_name. cbn [result_bind port with_host with_hostname with_port].
  assert (E : u_name u ++ (if given (some (u_port u)) then [58] ++ text (some (u_port u)) else []) = u_host u)
    by (unfold u_host; by destruct (u_port u)).
  by rewrite E.
Qed.

Lemma escape_plain r : Forall (λ c, plain_char c = true) r -> concat ((λ c, if autoEscape c then percent c else [c]) <$> r) = r.
Proof.
  induction 1 as [|c r Hc _ IH]; [done|]. cbn [fmap list_fmap concat]. rewrite IH. unfold plain_char in Hc. by destruct (autoEscape c).
Qed.

Lemma break_hash : break (Z.eqb 35) (u_rest u) = (u_path u ++ u_search u, u_hash u).
Proof.
  unfold u_rest. rewrite app_assoc. apply break_app.
  - apply Forall_app_2; [eapply Forall_impl; [apply (wp_path _ _ Hu)|]|eapply Forall_impl; [apply (wp_search _ _ Hu)|]]; intros c Hc; cbn in Hc; lia.
  - destruct (wp_hash _ _ Hu) as [[->|(r & ->)] _]; done.
Qed.
Lemma break_search : break (Z.eqb 63) (u_path u ++ u_search u) = (u_path u, u_search u).
Proof.
  apply break_app.
  - eapply Forall_impl; [apply (wp_path _ _ Hu)|]. intros c Hc. cbn in Hc. lia.
  - destruct (wp_search _ _ Hu) as [[->|(r & ->)] _]; done.
Qed.

Lemma scheme_slashed : slashed (u_scheme u ++ [58]) = true /\ hostless (u_scheme u ++ [58]) = false /\ ends_with 58 (u_scheme u ++ [58]) = true /\
  nonempty (u_scheme u ++ [58]) = true.
Proof. by apply scheme_cases. Qed.

Lemma marks_plain p : Forall (λ c, c <> 35 /\ c <> 63) p -> escape_marks p = p.
Proof.
  unfold escape_marks. induction 1 as [|c p Hc _ IH]; [done|]. cbn [fmap list_fmap concat]. rewrite IH.
  unfold chars. rewrite elem_existsb. change (js "?#") with [63; 35]. cbn [existsb].
  destruct (Z.eqb_spec c 63), (Z.eqb_spec c 35); done || lia.
Qed.
Lemma first_hash_plain s : Forall (λ c, c <> 35) s -> first_hash s = s.
Proof. induction 1 as [|c s Hc _ IH]; [done|]. cbn. rewrite IH. by destruct (Z.eqb_spec c 35). Qed.
Lemma prefixed_id c s : s = [] \/ (∃ r, s = c :: r) -> prefixed c s = s.
Proof. intros [->|(r & ->)]; [done|]. cbn. by rewrite Z.eqb_refl. Qed.
Lemma text_of_some s : text (some s) = s.
Proof. by destruct s. Qed.

(** The URL without its [href]. *)
Definition parsed_but_href : url := with_href (parsed u) None.

Lemma full_path_facts : (∃ r, full_path u = 47 :: r) /\ Forall (λ c, c <> 35 /\ c <> 63) (full_path u).
Proof.
  unfold full_path. destruct (wp_path _ _ Hu) as [[E|(r & E)] H]; rewrite E in *; (split; [by eexists|]).
  - by repeat constructor.
  - eapply Forall_impl; [exact H|]. intros c Hc. cbn in Hc. lia.
Qed.

Lemma host_given : given (Some (u_host u)) = true.
Proof. destruct (wp_labels _ _ Hu) as (_ & Hne & _). unfold u_host. by destruct (u_name u). Qed.
Lemma name_given : given (Some (u_name u)) = true.
Proof. destruct (wp_labels _ _ Hu) as (_ & Hne & _). by destruct (u_name u). Qed.

Lemma format_parsed : format parsed_but_href = Ok (u_scheme u ++ js "://" ++ u_host u ++ full_path u ++ u_search u ++ u_hash u).
Proof.
  unfold format, parsed_but_href, parsed, with_href. cbn [auth protocol pathname hash host hostname port query search slashes result_bind].
  rewrite host_given. destruct scheme_slashed as (_ & _ & Hend & Hne). destruct full_path_facts as [(r & Hp) Hm].
  assert (Q : match (match u_search u with [] => JNull | _ :: q => JStr q end) with
            | JObj (_ :: _) | JArr (_ :: _) => Query.stringify (match u_search u with [] => JNull | _ :: q => JStr q end) None None JUndef
            | _ => Ok [] end = Ok []) by (by destruct (u_search u)).
  rewrite Q. cbn [result_bind]. rewrite !text_some, !text_of_some. rewrite Hne, Hend. cbn [negb andb orb].
  assert (S : (if given (some (u_search u)) then u_search u else if nonempty [] then [63] ++ [] else []) = u_search u) by (by destruct (u_search u)).
  rewrite S. f_equal. rewrite (prefixed_id 47 (full_path u)) by (right; by eexists).
  rewrite (prefixed_id 63) by apply (wp_search _ _ Hu). rewrite (prefixed_id 35) by apply (wp_hash _ _ Hu). rewrite marks_plain by done.
  rewrite first_hash_plain by (eapply Forall_impl; [apply (wp_search _ _ Hu)|]; intros c Hc; cbn in Hc; lia).
  rewrite <- !app_assoc. done.
Qed.

Definition after_authority : url :=
  Url (Some (u_scheme u ++ [58])) true None (Some (u_host u)) (some (u_port u)) (Some (u_name u)) None None JNull None None None.

Lemma parse_rest_parts : parse_rest after_authority false (u_rest u) = Ok parsed_but_href.
Proof.
  unfold parse_rest. rewrite break_hash, break_search. destruct scheme_slashed as (Hsl & _). pose proof name_given as Hn.
  unfold parsed_but_href, parsed, full_path, query_of.
  destruct (u_hash u), (u_search u), (u_path u); unfold with_href, with_hash, with_search, with_query, with_pathname, with_path, after_authority;
    cbn [nonempty result_bind protocol slashes auth host port hostname hash search query pathname path href is_slashed given negb andb some];
    rewrite ?Hsl; cbn [given] in Hn; rewrite ?Hn; cbn [andb negb orb pathname search given text];
    rewrite ?text_some; cbn [text default app]; rewrite ?app_nil_r; done.
Qed.

Lemma parse_url_parts n : parse lower (u_text u) false n = Ok (parsed u).
Proof.
  assert (Hw : Forall (λ c, is_white c = false) (u_text u)) by (eapply Forall_impl; [exact text_plain|by intros c [? _]]).
  assert (Hb : Forall (λ c, c <> 92) (u_text u)) by (eapply Forall_impl; [exact text_plain|by intros c [_ ?]]).
  unfold parse. rewrite slash_path_id by done. cbv zeta. rewrite BufferText.trim_id by done.
  assert (Hs : simple_path (u_text u) = None) by (unfold simple_path, u_text; by apply scheme_cases).
  assert (Hpr : protocol_of (u_text u) = Some (u_scheme u ++ [58], js "//" ++ u_host u ++ u_rest u)).
  { unfold protocol_of, u_text. change (js "://") with (58 :: js "//"). rewrite <- app_comm_cons, break_app; [by apply scheme_cases| |done].
    apply scheme_cases; repeat (apply Forall_cons_2; [vm_compute; reflexivity|]); apply Forall_nil_2. }
  rewrite Hs, Hpr. rewrite (proj1 (wp_lower _ _ Hu)). destruct scheme_slashed as (Hsl & Hho & _). cbv beta iota.
  cbn [is_hostless is_slashed]. rewrite Hho, Hsl. rewrite orb_true_r. cbn [orb andb negb].
  change (prefix_at (js "//") (js "//" ++ ?l)) with true. cbv beta iota. change (drop 2 (js "//" ++ ?l)) with l.
  cbn [orb andb negb]. cbv beta iota. rewrite parse_authority_parts by done. cbn [result_bind protocol with_hostname with_host with_port with_slashes with_protocol empty_url].
  cbn [is_hostless]. rewrite Hho. rewrite escape_plain by exact rest_plain.
  change (parse_rest _ false (u_rest u)) with (parse_rest after_authority false (u_rest u)). rewrite parse_rest_parts. cbn [result_bind].
  rewrite format_parsed. cbn [result_bind]. by destruct (_ && _).
Qed.
End parse.

(** C15. Parsing a URL finds its parts and formatting puts them together again:
    for every [http] or [https] URL with a host name of valid labels in lower
    case, any port, and any path, search and hash without characters that are
    escaped, [parse] returns exactly these parts (with the path ["/"] when there
    is none, and [host], [path] and [href] made of them), whether slashes denote
    a host or not; [format] of the result is its [href], which is the URL itself
    when it has a path. *)
Theorem url_parse_format (lower : list Z -> list Z) (u : parts) (n : bool) : well_parted lower u ->
  parse lower (u_text u) false n = Ok (parsed u) /\
  (∃ h, format (parsed u) = Ok h /\ href (parsed u) = Some h /\ (u_path u <> [] -> h = u_text u)).
Proof.
  intros Hu. split; [by apply parse_url_parts|]. eexists. split_and!; [exact (format_parsed lower u Hu)|done|].
  intros Hp. unfold u_text, u_rest, full_path. by destruct (u_path u).
Qed.

Definition sample_url : parts := Parts (js "https") [js "petstore"; js "io"] (js "8443") (js "/v2/pets") (js "?a=b%20c&d?") (js "#x/y?z").
Lemma sample_url_ok : well_parted to_lower sample_url.
Proof.
  assert (G : ∀ (f : Z -> bool) s, forallb f s = true -> Forall (λ c, f c = true) s).
  { intros f s H. rewrite forallb_forall in H. apply Forall_forall. intros c Hc%list_elem_of_In. auto. }
  assert (D : ∀ s (P : list Z), forallb (λ c, plain_char c && forallb (λ x, negb (x =? c)) P) s = true -> Forall (λ c, plain_char c = true /\ Forall (λ x, x <> c) P) s).
  { intros s P H%G. eapply Forall_impl; [exact H|]. intros c [H1 H2]%andb_prop. split; [done|]. apply G in H2. eapply Forall_impl; [exact H2|].
    intros x Hx. cbn in Hx. by destruct (Z.eqb_spec x c). }
  split.
  - by right; left.
  - by split; vm_compute.
  - split_and!; [apply (Forall_cons_2 _ _ _); [done|apply Forall_cons_2; [done|apply Forall_nil_2]]|done|vm_compute; discriminate].
  - by apply G.
  - split; [right; by eexists|]. eapply Forall_impl; [by apply (D _ [35; 63])|]. intros c (? & H). repeat apply Forall_cons in H as [? H]. auto.
  - split; [right; by eexists|]. eapply Forall_impl; [by apply (D _ [35])|]. intros c (? & H). repeat apply Forall_cons in H as [? H]. auto.
  - split; [right; by eexists|]. by apply G.
Qed.

Lemma url_parse_format_witness :
  parse to_lower (js "https://petstore.io:8443/v2/pets?a=b%20c&d?#x/y?z") false false = Ok (parsed sample_url) /\
  (∃ h, format (parsed sample_url) = Ok h /\ href (parsed sample_url) = Some h /\ (u_path sample_url <> [] -> h = u_text sample_url)).
Proof. exact (url_parse_format to_lower sample_url false sample_url_ok). Defined.

End UrlOk.
