(* ===== verification/Patch.v ===== *)
(** JSON Patch in the bundle (client/docs/swagger-ui/swagger-ui-bundle.js): the
    helpers of fast-json-patch (lines 8925-8995), the deep comparison it tests
    with (15613-15651), its operations, validator and [applyPatch]
    (15652-15849), and [compare] (32536-32564, 32593-32596).

    A document is a tree; an operation changes it in place, which is a function
    from the document before to the document after. Where an exception leaves a
    document half changed, the document after is part of the outcome. Names
    that values inherit ([toString] and the like) are no properties here, and
    what would give an array a property that is no index, an object another
    prototype, or a document that contains itself, is the error [not_modelled]. *)

From stdpp Require Import base list list_numbers numbers strings gmap.
From Stdlib Require Import ZArith Lia.
From S2P Require Import Prelude Json Query Qs.

Module Patch.
Import Json.
Import Query (entries).
Import Qs (own).

(** ** Helpers *)

Definition patch_error (name m : string) : exn := NamedError (js name) (js m).
Definition not_modelled : exn := PlainError (js "not modelled").
Definition read_error : exn := TypeError (js "Cannot read properties of undefined").

(** [s.replace(/ab/g, rep)] *)
Fixpoint replace_pair (a b : Z) (rep s : list Z) : list Z :=
  match s with
  | x :: (y :: t) as s' => if (x =? a) && (y =? b) then rep ++ replace_pair a b rep t else x :: replace_pair a b rep s'
  | _ => s
  end.
(** [s.replace(/c/g, rep)] *)
Definition replace_char (c : Z) (rep s : list Z) : list Z := concat ((λ x, if x =? c then rep else [x]) <$> s).

Definition escapePathComponent (e : list Z) : list Z :=
  if (index_of [47] e =? -1) && (index_of [126] e =? -1) then e
  else replace_char 47 (js "~1") (replace_char 126 (js "~0") e).
Definition unescapePathComponent (e : list Z) : list Z :=
  replace_pair 126 48 (js "~") (replace_pair 126 49 (js "/") e).

(** [isInteger]: digits only; the empty text counts. *)
Definition isInteger (e : list Z) : bool := forallb digit e.

Definition deepClone (e : jval) : jval :=
  match e with
  | JArr _ | JObj _ | JNull => json_clone e
  | JUndef => JNull
  | _ => e
  end.

Fixpoint hasUndefined (t : jval) : bool :=
  match t with
  | JUndef => true
  | JArr l => existsb hasUndefined l
  | JObj o => existsb (λ kv, match kv with (_, v) => hasUndefined v end) o
  | _ => false
  end.

(** ** Deep comparison *)

(** [e === t] where arrays and objects are never the same one. *)
Definition strict_eq (e t : jval) : bool :=
  match e, t with
  | JArr _, _ | JObj _, _ | _, JArr _ | _, JObj _ => false
  | _, _ => bool_decide (e = t)
  end.

(** The order [sort] puts names in: by code units. *)
Fixpoint name_le (a b : list Z) : bool :=
  match a, b with
  | [], _ => true
  | _ :: _, [] => false
  | x :: a, y :: b => (x <? y) || ((x =? y) && name_le a b)
  end.
Fixpoint sorted_insert (k : list Z) (l : list (list Z)) : list (list Z) :=
  match l with
  | [] => [k]
  | j :: l' => if name_le k j then k :: l else j :: sorted_insert k l'
  end.
Definition sort_names (l : list (list Z)) : list (list Z) := foldr sorted_insert [] l.

(** Two objects have [prototype] properties that are not the same one. *)
Definition prototype_differs (e t : jval) : bool :=
  negb (strict_eq (own e (js "prototype")) (own t (js "prototype"))).

(** [deepEqual(e, t, {strict: true})]; [fuel] exceeds the nesting of [e]. *)
Fixpoint deepEqual (fuel : nat) (e t : jval) : bool :=
  match fuel with
  | O => false
  | S fuel =>
      if strict_eq e t then true
      else match e, t with
      | (JArr _ | JObj _), (JArr _ | JObj _) =>
          if prototype_differs e t then false
          else
            let f := obj_keys (entries e) in
            let p := obj_keys (entries t) in
            if negb (length f =? length p)%nat then false
            else if negb (bool_decide (sort_names f = sort_names p)) then false
            else forallb (λ c, deepEqual fuel (own e c) (own t c)) (sort_names f)
      | _, _ => false
      end
  end.
Definition deep_equal (e t : jval) : bool := deepEqual (S (Qs.jdepth e)) e t.

Example deep_equal_ex :
  deep_equal (JObj [(js "a", JNum 1); (js "b", JArr [JNull])]) (JObj [(js "b", JArr [JNull]); (js "a", JNum 1)]) = true
  /\ deep_equal (JArr [JNum 1]) (JObj [(js "0", JNum 1)]) = true
  /\ deep_equal (JObj [(js "prototype", JObj [])]) (JObj [(js "prototype", JObj [])]) = false.
Proof. vm_compute. auto. Qed.

(** ** One step of a path *)

(** [d[g]] *)
Definition prop_read (d : jval) (g : list Z) : result jval :=
  match d with
  | JUndef | JNull => Throw read_error
  | JObj o => Ok (default JUndef (obj_get o g))
  | JArr l => if decide (g = js "length") then Ok (JNum (len l))
              else Ok (match array_index g with Some i => default JUndef (arr_get l i) | None => JUndef end)
  | JStr s => if decide (g = js "length") then Ok (JNum (len s))
              else Ok (match array_index g with
                       | Some i => match arr_get s i with Some c => JStr [c] | None => JUndef end
                       | None => JUndef
                       end)
  | _ => Ok JUndef
  end.

(** What an operation does where its path ends. *)
Inductive action :=
  | AAdd (v : jval)
  | ARemove
  | AReplace (v : jval)
  | ATest (v : jval)
  | AGet
  | ANothing.

(** What it reports: [removed], [test], [index], and the [value] that [_get] stores. *)
Record effect := {
  removed : option jval;
  test : option bool;
  index : option Z;
  value : option jval }.
Definition no_effect : effect := {| removed := None; test := None; index := None; value := None |}.
Definition took (v : jval) : effect := {| removed := Some v; test := None; index := None; value := None |}.

(** The table [u]: operations on what is no array. *)
Definition object_action (a : action) (e : jval) (t : list Z) : result (jval * effect) :=
  let! r := match a with ANothing => Ok JUndef | _ => prop_read e t end in
  let put v := match e with JObj o => JObj (obj_set o t v) | _ => e end in
  match a with
  | AAdd v => if decide (t = js "__proto__") then Throw not_modelled else Ok (put v, no_effect)
  | ARemove => Ok (match e with JObj o => JObj (obj_delete o t) | _ => e end, took r)
  | AReplace v => if decide (t = js "__proto__") then Throw not_modelled else Ok (put v, took r)
  | ATest v => Ok (e, {| removed := None; test := Some (deep_equal r v); index := None; value := None |})
  | AGet => Ok (e, {| removed := None; test := None; index := None; value := Some r |})
  | ANothing => Ok (e, no_effect)
  end.

(** The place [splice] starts at. *)
Definition splice_start (l : list jval) (t : Z) : Z :=
  if t <? 0 then Z.max (len l + t) 0 else Z.min t (len l).
Definition splice_insert (l : list jval) (t : Z) (v : jval) : list jval :=
  let s := Z.to_nat (splice_start l t) in take s l ++ [v] ++ drop s l.
Definition splice_remove (l : list jval) (t : Z) : list jval * jval :=
  let s := Z.to_nat (splice_start l t) in
  (take s l ++ drop (S s) l, default JUndef (l !! s)).

(** A step into an array: a number, or a name that is none. *)
Inductive array_key :=
  | AIndex (i : Z)
  | AName (g : list Z).

(** ["-"] is the end; digits are a number, cut to 32 bits by [~~]. *)
Definition array_key_of (l : list jval) (g : list Z) : array_key :=
  if decide (g = [45]) then AIndex (len l)
  else if isInteger g then AIndex (Int32.to_int32 (dec_value g 0))
  else AName g.

Definition read_key (l : list jval) (g : array_key) : result jval :=
  match g with
  | AIndex i => Ok (default JUndef (arr_get l i))
  | AName g => prop_read (JArr l) g
  end.

(** The table [s]: operations on arrays. *)
Definition array_action (a : action) (l : list jval) (t : array_key) : result (jval * effect) :=
  match a, t with
  | AAdd v, AIndex i =>
      Ok (JArr (splice_insert l i v), {| removed := None; test := None; index := Some i; value := None |})
  | ARemove, AIndex i => let '(l', r) := splice_remove l i in Ok (JArr l', took r)
  | AReplace v, AIndex i =>
      if i <? 0 then Throw not_modelled else Ok (JArr (arr_put l i v), took (default JUndef (arr_get l i)))
  | (AAdd _ | ARemove | AReplace _), AName _ => Throw not_modelled
  | ATest v, _ =>
      let! r := read_key l t in
      Ok (JArr l, {| removed := None; test := Some (deep_equal r v); index := None; value := None |})
  | AGet, _ =>
      let! r := read_key l t in
      Ok (JArr l, {| removed := None; test := None; index := None; value := Some r |})
  | ANothing, _ => Ok (JArr l, no_effect)
  end.

(** The value [d] with [x] where [d = d[g]] went. *)
Definition put_key (d : jval) (g : list Z) (x : jval) : jval :=
  match d with JObj o => JObj (obj_update o g x) | _ => d end.
Definition put_index (l : list jval) (g : array_key) (x : jval) : jval :=
  match g with AIndex i => JArr (arr_set l i x) | AName _ => JArr l end.

(** [if (!1 === c.test) throw] *)
Definition check_test (r : jval * effect) : result (jval * effect) :=
  match test r.2 with
  | Some false => Throw (patch_error "TEST_OPERATION_FAILED" "Test operation failed")
  | _ => Ok r
  end.

(** ** The loop of [applyOperation]

    [f] is the rest of the path; [check] is the validator, with the part of
    the path already passed and whether it has been called. *)
Section walk.
Context (a : action) (is_add : bool) (validate : bool).
Context (check : list Z -> result unit).     (* y(n, 0, e, m) *)
Context (path : list Z).

(** [r && void 0 === m && (...)] *)
Definition validate_step (passed : list (list Z)) (called : bool) (d : jval) (g : list Z) (last : bool) : result bool :=
  if validate && negb called then
    let! x := prop_read d g in
    match x with
    | JUndef => let! _ := check (join [47] passed) in Ok true
    | _ => if last then let! _ := check path in Ok true else Ok false
    end
  else Ok called.

Fixpoint walk (f passed : list (list Z)) (called : bool) (d : jval) {struct f} : result (jval * effect) :=
  match f with
  | [] => Throw not_modelled
  | g :: f' =>
      let last := match f' with [] => true | _ => false end in
      let! called := validate_step passed called d g last in
      match d with
      | JArr l =>
          let k := array_key_of l g in
          match k with
          | AName _ =>
              if validate then Throw (patch_error "OPERATION_PATH_ILLEGAL_ARRAY_INDEX"
                "Expected an unsigned base-10 integer value, making the new referenced value the array element with the zero-based index")
              else match f' with
                   | [] => let! r := array_action a l k in check_test r
                   | _ => let! x := read_key l k in
                          let! r := walk f' (passed ++ [g]) called x in Ok (d, r.2)
                   end
          | AIndex i =>
              match f' with
              | [] =>
                  if validate && is_add && (len l <? i) then
                    Throw (patch_error "OPERATION_VALUE_OUT_OF_BOUNDS"
                      "The specified index MUST NOT be greater than the number of elements in the array")
                  else let! r := array_action a l k in check_test r
              | _ =>
                  let! x := read_key l k in
                  let! r := walk f' (passed ++ [g]) called x in
                  Ok (put_index l k r.1, r.2)
              end
          end
      | _ =>
          let g' := if index_of [126] g =? -1 then g else unescapePathComponent g in
          match f' with
          | [] => let! r := object_action a d g' in check_test r
          | _ =>
              let! x := prop_read d g' in
              let! r := walk f' (passed ++ [g]) called x in
              Ok (put_key d g' r.1, r.2)
          end
      end
  end.
End walk.

(** The components after the first; a path without any has the component
    [undefined], the name of which is ["undefined"] (an array has no such index). *)
Definition components (path : list Z) : list (list Z) := tail (split [47] path).

Definition walk_path (a : action) (is_add validate : bool) (check : list Z -> result unit) (path : list Z) (e : jval)
  : result (jval * effect) :=
  match components path with
  | [] => match e with
          | JArr _ => Throw read_error
          | _ => let! called := validate_step validate check path (split [47] path) false e (js "undefined") false in
                 let! r := object_action a e (js "undefined") in check_test r
          end
  | f => walk a is_add validate check path f (take 1 (split [47] path)) false e
  end.

(** ** Operations *)

(** The members of an operation. *)
Definition op_of (n : jobj) : jval := default JUndef (obj_get n (js "op")).
Definition path_of (n : jobj) : jval := default JUndef (obj_get n (js "path")).
Definition from_of (n : jobj) : jval := default JUndef (obj_get n (js "from")).
Definition value_of (n : jobj) : jval := default JUndef (obj_get n (js "value")).
Definition is_op (n : jobj) (o : string) : bool := bool_decide (op_of n = JStr (js o)).

(** The names of the table [u]. *)
Definition known_op (n : jobj) : bool :=
  existsb (is_op n) ["add"; "remove"; "replace"; "move"; "copy"; "test"; "_get"]%string.

(** What it does at the end of its path; [move] and [copy] work on the whole document. *)
Definition action_of (n : jobj) : option action :=
  if is_op n "add" then Some (AAdd (value_of n))
  else if is_op n "remove" then Some ARemove
  else if is_op n "replace" then Some (AReplace (value_of n))
  else if is_op n "test" then Some (ATest (value_of n))
  else if is_op n "_get" then Some AGet
  else if is_op n "move" || is_op n "copy" then Some ANothing
  else None.

(** [n.path || ""], which must be a string to be split. *)
Definition path_string (n : jobj) : result (list Z) :=
  match path_of n with
  | JStr s => Ok s
  | v => if truthy v then Throw (TypeError (js "split is not a function")) else Ok []
  end.

(** The part of [validator] that looks at the operation alone. *)
Definition validate_shape (e : jval) : result jobj :=
  match e with
  | JObj n =>
      if negb (known_op n) then Throw (patch_error "OPERATION_OP_INVALID"
        "Operation `op` property is not one of operations defined in RFC-6902")
      else match path_of n with
      | JStr path =>
          if negb (index_of [47] path =? 0) && (0 <? len path) then Throw (NamedError (js "OPERATION_PATH_INVALID")
            (js "Operation `path` property must start with " ++ [34; 47; 34]))
          else if (is_op n "move" || is_op n "copy") && negb (match from_of n with JStr _ => true | _ => false end) then
            Throw (patch_error "OPERATION_FROM_REQUIRED"
              "Operation `from` property is not present (applicable in `move` and `copy` operations)")
          else if (is_op n "add" || is_op n "replace" || is_op n "test") && bool_decide (value_of n = JUndef) then
            Throw (patch_error "OPERATION_VALUE_REQUIRED"
              "Operation `value` property is not present (applicable in `add`, `replace` and `test` operations)")
          else if (is_op n "add" || is_op n "replace" || is_op n "test") && hasUndefined (value_of n) then
            Throw (patch_error "OPERATION_VALUE_CANNOT_CONTAIN_UNDEFINED"
              "Operation `value` property is not present (applicable in `add`, `replace` and `test` operations)")
          else Ok n
      | _ => Throw (patch_error "OPERATION_PATH_INVALID" "Operation `path` property is not a string")
      end
  | _ => Throw (patch_error "OPERATION_NOT_AN_OBJECT" "Operation is not an object")
  end.

(** The part that compares the path with the part [o] of it that exists;
    [from_ok] is the check of [from]. *)
Definition validate_path (from_ok : jobj -> result unit) (n : jobj) (o : list Z) : result unit :=
  if is_op n "add" then
    let! path := path_string n in
    let i := len (split [47] path) in
    let s := len (split [47] o) in
    if negb (i =? s + 1) && negb (i =? s) then
      Throw (patch_error "OPERATION_PATH_CANNOT_ADD" "Cannot perform an `add` operation at the desired path")
    else Ok tt
  else if is_op n "replace" || is_op n "remove" || is_op n "_get" then
    if bool_decide (path_of n = JStr o) then Ok tt
    else Throw (patch_error "OPERATION_PATH_UNRESOLVABLE" "Cannot perform the operation at a path that does not exist")
  else if is_op n "move" || is_op n "copy" then from_ok n
  else Ok tt.

(** [{op: "_get", path: p}] and the like. *)
Definition get_op (p : list Z) : jobj := [(js "op", JStr (js "_get")); (js "path", JStr p)].
Definition remove_op (p : list Z) : jobj := [(js "op", JStr (js "remove")); (js "path", JStr p)].
Definition add_op (p : list Z) (v : jval) : jobj :=
  [(js "op", JStr (js "add")); (js "path", JStr p); (js "value", v)].
Definition replace_op (p : list Z) (v : jval) : jobj :=
  [(js "op", JStr (js "replace")); (js "path", JStr p); (js "value", v)].

(** [applyOperation] for an operation other than [move] and [copy] at a path
    that is not empty. *)
Definition apply_walk (validate : bool) (check : list Z -> result unit) (e : jval) (n : jobj) : result (jval * effect) :=
  let! path := path_string n in
  match action_of n with
  | Some a => walk_path a (is_op n "add") validate check path e
  | None => let! _ := walk_path ANothing false validate check path e in Throw read_error
  end.

(** [getValueByPointer] *)
Definition getValueByPointer (e : jval) (t : jval) : result jval :=
  match t with
  | JStr [] => Ok e
  | _ => let! r := apply_walk false (λ _, Ok tt) e [(js "op", JStr (js "_get")); (js "path", t)] in
         Ok (default JUndef (value r.2))
  end.

(** [validate([{op: "_get", path: from}], document)]: only one error counts, and
    errors of other classes pass. *)
Definition from_resolves (doc : jval) (n : jobj) : result unit :=
  let e := deepClone doc in
  let g := [(js "op", JStr (js "_get")); (js "path", deepClone (from_of n))] in
  let outcome :=
    let! _ := validate_shape (JObj g) in
    match from_of n with
    | JStr [] => Ok tt
    | _ => let! _ := apply_walk true (λ m, let! _ := validate_shape (JObj g) in validate_path (λ _, Ok tt) g m) e g in Ok tt
    end in
  match outcome with
  | Ok _ => Ok tt
  | Throw (NamedError name m) =>
      if decide (name = js "OPERATION_PATH_UNRESOLVABLE")
      then Throw (patch_error "OPERATION_FROM_UNRESOLVABLE" "Cannot perform the operation from a path that does not exist")
      else Ok tt
  | Throw err => Throw err
  end.

(** [validator(n, 0, document, m)] *)
Definition validator (doc : jval) (n : jval) (m : list Z) : result unit :=
  let! o := validate_shape n in
  if truthy doc then validate_path (from_resolves doc) o m else Ok tt.

(** The document after, and the value or the exception. *)
Abbreviation outcome := (jval * result (jval * effect))%type (only parsing).
Definition returns (r : result (jval * effect)) (doc : jval) : outcome :=
  match r with Ok (d, x) => (d, Ok (d, x)) | Throw err => (doc, Throw err) end.

(** [move]: what the target held, the removal and the addition in turn. *)
Definition apply_move (n : jval) (from path : jval) : outcome :=
  match getValueByPointer n path with
  | Throw err => (n, Throw err)
  | Ok r =>
      let r := if truthy r then deepClone r else r in
      match from with
      | JStr [] => (n, Throw not_modelled)
      | _ =>
          match apply_walk false (λ _, Ok tt) n [(js "op", JStr (js "remove")); (js "path", from)] with
          | Throw err => (n, Throw err)
          | Ok (n1, x) =>
              match apply_walk false (λ _, Ok tt) n1
                [(js "op", JStr (js "add")); (js "path", path); (js "value", default JUndef (removed x))] with
              | Throw err => (n1, Throw err)
              | Ok (n2, _) => (n2, Ok (n2, took r))
              end
          end
      end
  end.

(** [copy]: a clone of the value is added. *)
Definition apply_copy (n : jval) (from path : jval) : outcome :=
  match getValueByPointer n from with
  | Throw err => (n, Throw err)
  | Ok r =>
      returns (let! x := apply_walk false (λ _, Ok tt) n
                 [(js "op", JStr (js "add")); (js "path", path); (js "value", deepClone r)] in
               Ok (x.1, no_effect)) n
  end.

(** The operations on the whole document. *)
Definition apply_root (e : jval) (n : jobj) (r : bool) : result (jval * effect) :=
  if is_op n "add" then Ok (value_of n, no_effect)
  else if is_op n "replace" then Ok (value_of n, took e)
  else if is_op n "move" then let! x := getValueByPointer e (from_of n) in Ok (x, took e)
  else if is_op n "copy" then let! x := getValueByPointer e (from_of n) in Ok (x, no_effect)
  else if is_op n "test" then
    check_test (e, {| removed := None; test := Some (deep_equal e (value_of n)); index := None; value := None |})
  else if is_op n "remove" then Ok (JNull, took e)
  else if is_op n "_get" then Ok (e, {| removed := None; test := None; index := None; value := Some e |})
  else if r then Throw (patch_error "OPERATION_OP_INVALID"
    "Operation `op` property is not one of operations defined in RFC-6902")
  else Ok (e, no_effect).

(** [applyOperation(e, n, r, o)] with the validator of the module when [r]. *)
Definition applyOperation (e : jval) (n : jobj) (r o : bool) : outcome :=
  match (if r then let! _ := validate_shape (JObj n) in Ok tt else Ok tt) with
  | Throw err => (e, Throw err)
  | Ok _ =>
      match path_of n with
      | JStr [] => returns (apply_root e n r) e
      | _ =>
          let e := if o then e else deepClone e in
          match apply_walk r (validator e (JObj n)) e n with
          | Throw err => (e, Throw err)
          | Ok (d, x) =>
              if is_op n "move" then apply_move e (from_of n) (path_of n)
              else if is_op n "copy" then apply_copy e (from_of n) (path_of n)
              else (d, Ok (d, x))
          end
      end
  end.

(** [applyPatch]: the operations in turn; an exception ends it, with the
    document as the operations before it made it. *)
Fixpoint apply_ops (e : jval) (n : list jval) (r : bool) (i : list (jval * effect)) : jval * result (list (jval * effect)) :=
  match n with
  | [] => (e, Ok i)
  | x :: n =>
      match x with
      | JObj x =>
          match applyOperation e x r true with
          | (_, Ok c) => apply_ops c.1 n r (i ++ [c])
          | (d, Throw err) => (d, Throw err)
          end
      | _ => (e, if r then Throw (patch_error "OPERATION_NOT_AN_OBJECT" "Operation is not an object") else Throw read_error)
      end
  end.
Definition applyPatch (e : jval) (n : jval) (r o : bool) : jval * result (list (jval * effect)) :=
  match n with
  | JArr n => apply_ops (if o then e else deepClone e) n r []
  | _ => (e, if r then Throw (patch_error "SEQUENCE_NOT_AN_ARRAY" "Patch sequence must be an array") else Throw not_modelled)
  end.

(** [applyReducer] *)
Definition applyReducer (e : jval) (n : jobj) : result jval :=
  match (applyOperation e n false true).2 with
  | Ok (d, x) =>
      match test x with
      | Some false => Throw (patch_error "TEST_OPERATION_FAILED" "Test operation failed")
      | _ => Ok d
      end
  | Throw err => Throw err
  end.

(** ** compare *)

(** [_objectKeys] *)
Definition objectKeys (e : jval) : list (list Z) := obj_keys (entries e).

(** Of two documents without [undefined]; [fuel] exceeds the nesting of [e]. *)
Fixpoint generate (fuel : nat) (e t : jval) (o : list Z) : list jobj :=
  match fuel with
  | O => []
  | S fuel =>
      let i := objectKeys t in
      let a := objectKeys e in
      let step (p : list Z) : bool * list jobj :=
        let l := own e p in
        match obj_get (entries t) p with
        | None => (true, [remove_op (o ++ [47] ++ escapePathComponent p)])
        | Some c =>
            if bool_decide (c = JUndef) && negb (bool_decide (l = JUndef)) && negb (is_array t)
            then (true, [remove_op (o ++ [47] ++ escapePathComponent p)])
            else match l, c with
            | (JArr _ | JObj _), (JArr _ | JObj _) =>
                (false, generate fuel l c (o ++ [47] ++ escapePathComponent p))
            | _, _ =>
                (false, if strict_eq l c then [] else [replace_op (o ++ [47] ++ escapePathComponent p) (deepClone c)])
            end
        end in
      let steps := step <$> reverse a in
      let u := existsb fst steps in
      concat (snd <$> steps) ++
      (if u || negb (length i =? length a)%nat then
         omap (λ p, match obj_get (entries e) p with
                    | Some _ => None
                    | None => if decide (own t p = JUndef) then None
                              else Some (add_op (o ++ [47] ++ escapePathComponent p) (deepClone (own t p)))
                    end) i
       else [])
  end.
(** [compare] of two arrays or objects. *)
Definition compare (e t : jval) : list jobj := generate (Qs.jdepth e) e t [].

Example patch_ex :
  let doc := JObj [(js "a", JArr [JNum 1; JNum 2]); (js "b/c", JNull)] in
  (applyPatch doc (JArr (JObj <$> [add_op (js "/a/1") (JStr (js "x")); remove_op (js "/a/0");
      [(js "op", JStr (js "move")); (js "from", JStr (js "/b~1c")); (js "path", JStr (js "/d"))];
      [(js "op", JStr (js "copy")); (js "from", JStr (js "/a")); (js "path", JStr (js "/a/-"))]])) false true).1
    = JObj [(js "a", JArr [JStr (js "x"); JNum 2; JArr [JStr (js "x"); JNum 2]]); (js "d", JNull)]
  /\ compare doc (JObj [(js "a", JArr [JNum 3]); (js "z", JNum 0)])
    = [remove_op (js "/b~1c"); remove_op (js "/a/1"); replace_op (js "/a/0") (JNum 3); add_op (js "/z") (JNum 0)].
Proof. vm_compute. auto. Qed.

(** The validator reads the names of the path before it unescapes them. *)
Example validate_escaped :
  (applyOperation (JObj [(js "b/c", JNull)]) (replace_op (js "/b~1c") (JNum 1)) true true).2
    = Throw (patch_error "OPERATION_PATH_UNRESOLVABLE" "Cannot perform the operation at a path that does not exist")
  /\ (applyOperation (JObj [(js "b/c", JNull)]) (replace_op (js "/b~1c") (JNum 1)) false true).1
    = JObj [(js "b/c", JNum 1)].
Proof. vm_compute. auto. Qed.

(** An array and an object with the same names compare as equal documents. *)
Example compare_confuses : compare (JObj [(js "a", JArr [JNum 1])]) (JObj [(js "a", JObj [(js "0", JNum 1)])]) = [].
Proof. reflexivity. Qed.

End Patch.
