(* ===== verification/PatchOk.v ===== *)
(** fast-json-patch is correct: pointers escape and unescape, and applying the
    patch that [compare] generates turns one document into the other. *)

From stdpp Require Import base list list_numbers numbers strings gmap.
From Stdlib Require Import ZArith Lia.
From S2P Require Import Prelude Json Query Qs QsOk Patch.

Module PatchOk.
Import Json Patch.
Import Query (entries).
Import Qs (own).
Import QsOk (entries_nodup, entries_arr_lookup, jdepth_entries, foldR_fmap).

(** ** Pointers *)

Lemma replace_char_cons c rep x s : replace_char c rep (x :: s) = (if x =? c then rep else [x]) ++ replace_char c rep s.
Proof. done. Qed.
Lemma replace_char_absent c rep s : Forall (λ x, x <> c) s -> replace_char c rep s = s.
Proof.
  induction 1 as [|x s Hx _ IH]; [done|]. rewrite replace_char_cons, IH. by destruct (Z.eqb_spec x c).
Qed.

(** The escaped text, one character at a time. *)
Definition esc (x : Z) : list Z := if x =? 126 then js "~0" else if x =? 47 then js "~1" else [x].

Lemma escape_chars s : replace_char 47 (js "~1") (replace_char 126 (js "~0") s) = concat (esc <$> s).
Proof.
  induction s as [|x s IH]; [done|]. rewrite replace_char_cons. cbn [fmap list_fmap concat]. rewrite <- IH. unfold esc.
  destruct (Z.eqb_spec x 126); [done|]. cbn [app]. rewrite replace_char_cons. by destruct (x =? 47).
Qed.

Lemma index_from_found c s i : 0 <= i -> index_from [c] s i = -1 -> Forall (λ x, x <> c) s.
Proof.
  revert i. induction s as [|x s IH]; intros i Hi; [constructor|]. cbn. destruct (Z.eqb_spec c x); cbn [andb].
  - intros ->. lia.
  - intros H%IH; [|lia]. by constructor.
Qed.
Lemma index_of_found c s : index_of [c] s = -1 -> Forall (λ x, x <> c) s.
Proof. by apply index_from_found. Qed.

Lemma esc_plain s : Forall (λ x, x <> 47) s -> Forall (λ x, x <> 126) s -> concat (esc <$> s) = s.
Proof.
  intros H1 H2. rewrite <- escape_chars, (replace_char_absent 126), (replace_char_absent 47); done.
Qed.

Lemma escape_esc s : escapePathComponent s = concat (esc <$> s).
Proof.
  unfold escapePathComponent. destruct (Z.eqb_spec (index_of [47] s) (-1)) as [H1|]; cbn [andb]; [|apply escape_chars].
  destruct (Z.eqb_spec (index_of [126] s) (-1)) as [H2|]; [|apply escape_chars].
  apply index_of_found in H1, H2. by rewrite esc_plain.
Qed.

Lemma escape_no_slash s : Forall (λ x, x <> 47) (escapePathComponent s).
Proof.
  rewrite escape_esc. induction s as [|x s IH]; [constructor|]. cbn [fmap list_fmap concat]. apply Forall_app. split; [|done].
  unfold esc. destruct (Z.eqb_spec x 126), (Z.eqb_spec x 47); repeat constructor; done.
Qed.

(** The first replacement of [unescape] undoes the slashes, the second the tildes. *)
Definition esc0 (x : Z) : list Z := if x =? 126 then js "~0" else [x].

Lemma replace_pair_cons a b rep x s : x <> a -> replace_pair a b rep (x :: s) = x :: replace_pair a b rep s.
Proof. intros H. destruct s as [|y s]; [done|]. cbn [replace_pair]. by destruct (Z.eqb_spec x a). Qed.

Lemma unescape_slashes s : replace_pair 126 49 (js "/") (concat (esc <$> s)) = concat (esc0 <$> s).
Proof.
  induction s as [|x s IH]; [done|]. cbn [fmap list_fmap concat]. unfold esc at 1, esc0 at 1.
  destruct (Z.eqb_spec x 126); [|destruct (Z.eqb_spec x 47) as [->|]].
  - change (js "~0") with [126; 48]. cbn [app replace_pair Z.eqb Pos.eqb andb]. rewrite <- IH.
    f_equal. by destruct (concat (esc <$> s)).
  - change (js "~1") with [126; 49]. cbn [app replace_pair Z.eqb Pos.eqb andb]. by rewrite IH.
  - cbn [app]. rewrite replace_pair_cons by done. by rewrite IH.
Qed.
Lemma unescape_tildes s : replace_pair 126 48 (js "~") (concat (esc0 <$> s)) = s.
Proof.
  induction s as [|x s IH]; [done|]. cbn [fmap list_fmap concat]. unfold esc0 at 1. destruct (Z.eqb_spec x 126) as [->|].
  - change (js "~0") with [126; 48]. cbn [app replace_pair Z.eqb Pos.eqb andb]. by rewrite IH.
  - cbn [app]. rewrite replace_pair_cons by done. by rewrite IH.
Qed.

Lemma unescape_escape s : unescapePathComponent (escapePathComponent s) = s.
Proof. unfold unescapePathComponent. by rewrite escape_esc, unescape_slashes, unescape_tildes. Qed.

(** The name a component stands for. *)
Definition key_text (g : list Z) : list Z := if index_of [126] g =? -1 then g else unescapePathComponent g.
Lemma key_text_escape s : key_text (escapePathComponent s) = s.
Proof.
  unfold key_text. destruct (Z.eqb_spec (index_of [126] (escapePathComponent s)) (-1)) as [H|]; [|apply unescape_escape].
  apply index_of_found in H. rewrite <- (unescape_escape s) at 2. unfold unescapePathComponent.
  assert (E : ∀ b rep t, Forall (λ x, x <> 126) t -> replace_pair 126 b rep t = t).
  { induction 1 as [|x t Hx _ IH]; [done|]. rewrite replace_pair_cons by done. by rewrite IH. }
  by rewrite !E by (rewrite ?E; done).
Qed.

(** The pointer to a list of names. *)
Definition ptr (ps : list (list Z)) : list Z := concat ((λ p, 47 :: escapePathComponent p) <$> ps).

Lemma components_ptr ps : components (ptr ps) = escapePathComponent <$> ps.
Proof.
  unfold components. assert (E : split [47] (ptr ps) = [] :: (escapePathComponent <$> ps)); [|by rewrite E].
  assert (G : ∀ s, Forall (λ x, x <> 47) s -> split [47] (s ++ ptr ps) = s :: (escapePathComponent <$> ps)).
  { induction ps as [|p ps IH]; intros s Hs; unfold ptr.
    - cbn. rewrite app_nil_r. by apply split_free.
    - cbn [fmap list_fmap concat app]. rewrite split_app by done. f_equal. apply IH, escape_no_slash. }
  apply (G []). constructor.
Qed.
Lemma ptr_app ps p : ptr (ps ++ [p]) = ptr ps ++ [47] ++ escapePathComponent p.
Proof. unfold ptr. rewrite fmap_app, concat_app. cbn. by rewrite app_nil_r. Qed.

(** JSON pointers are faithful: a name survives escaping and unescaping,
    its escaped form has no slash, and the components of the pointer to a list
    of names are those names. *)
Theorem pointer_roundtrip ps :
  (unescapePathComponent <$> (escapePathComponent <$> ps)) = ps /\
  Forall (λ p, Forall (λ x, x <> 47) (escapePathComponent p)) ps /\
  (key_text <$> components (ptr ps)) = ps.
Proof.
  rewrite components_ptr, <- !list_fmap_compose. split_and!.
  - rewrite <- (list_fmap_id ps) at 2. apply list_fmap_ext. intros i p _. apply unescape_escape.
  - apply Forall_forall. intros p _. apply escape_no_slash.
  - rewrite <- (list_fmap_id ps) at 2. apply list_fmap_ext. intros i p _. apply key_text_escape.
Qed.

(** ** Walking down a document *)

(** The loop without the validator. *)
Fixpoint walk0 (a : action) (f : list (list Z)) (d : jval) : result (jval * effect) :=
  match f with
  | [] => Throw not_modelled
  | g :: f' =>
      match d with
      | JArr l =>
          let k := array_key_of l g in
          match f' with
          | [] => let! r := array_action a l k in check_test r
          | _ => let! x := read_key l k in
                 let! r := walk0 a f' x in Ok (put_index l k r.1, r.2)
          end
      | _ =>
          let g' := key_text g in
          match f' with
          | [] => let! r := object_action a d g' in check_test r
          | _ => let! x := prop_read d g' in
                 let! r := walk0 a f' x in Ok (put_key d g' r.1, r.2)
          end
      end
  end.

Lemma walk_false a ia chk path f passed called d : walk a ia false chk path f passed called d = walk0 a f d.
Proof.
  revert passed called d. induction f as [|g f IH]; intros passed called d; [done|].
  cbn [walk walk0]. unfold validate_step. cbn [andb result_bind].
  destruct d; try (destruct f as [|g' f]; [done|]; unfold key_text; destruct (prop_read _ _); cbn [result_bind]; [|done]; by rewrite IH).
  cbv zeta. destruct (array_key_of l g) as [i|n]; destruct f as [|g' f]; try done;
    destruct (read_key _ _); cbn [result_bind]; try done; by rewrite IH.
Qed.

(** The values of a document: no [undefined], arrays with indexes of 31 bits,
    distinct names without ["__proto__"]. *)
Fixpoint doc_ok (v : jval) : Prop :=
  match v with
  | JUndef => False
  | JArr l => len l < 2147483648 /\ (fix go l := match l with [] => True | x :: l => doc_ok x /\ go l end) l
  | JObj o => NoDup (obj_keys o) /\ (js "__proto__" ∉ obj_keys o) /\
      (fix go o := match o with [] => True | (_, x) :: o => doc_ok x /\ go o end) o
  | _ => True
  end.

Lemma doc_ok_arr l : doc_ok (JArr l) <-> len l < 2147483648 /\ Forall doc_ok l.
Proof.
  cbn. assert (E : ∀ l, (fix go l := match l with [] => True | x :: l => doc_ok x /\ go l end) l <-> Forall doc_ok l); [|by rewrite E].
  clear l. induction l as [|x l IH]; [split; [constructor|done]|]. rewrite Forall_cons. tauto.
Qed.
Lemma doc_ok_obj o : doc_ok (JObj o) <->
  NoDup (obj_keys o) /\ (js "__proto__" ∉ obj_keys o) /\ Forall (λ kv : list Z * jval, doc_ok kv.2) o.
Proof.
  cbn [doc_ok]. assert (E : ∀ o, (fix go o := match o with [] => True | (_, x) :: o => doc_ok x /\ go o end) o <-> Forall (λ kv : list Z * jval, doc_ok kv.2) o); [|by rewrite E].
  clear o. induction o as [|[k x] o IH]; [split; [constructor|done]|]. rewrite Forall_cons. tauto.
Qed.

Definition is_container (v : jval) : bool := match v with JArr _ | JObj _ => true | _ => false end.

(** The member or element a name stands for. *)
Definition child (d : jval) (p : list Z) : option jval := obj_get (entries d) p.
Definition set_child (d : jval) (p : list Z) (x : jval) : jval :=
  match d with
  | JObj o => JObj (obj_update o p x)
  | JArr l => match parse_dec p with Some i => JArr (arr_set l i x) | None => d end
  | _ => d
  end.
Definition small (d : jval) : Prop := match d with JArr l => len l < 2147483648 | JObj o => NoDup (obj_keys o) | _ => True end.

Lemma child_arr l p x : child (JArr l) p = Some x <-> ∃ i, p = dec (Z.of_nat i) /\ l !! i = Some x.
Proof.
  unfold child. split.
  - intros (i & Hi)%obj_get_elem%list_elem_of_lookup. rewrite entries_arr_lookup in Hi. exists i.
    destruct (l !! i); [|done]. by injection Hi as <- <-.
  - intros (i & -> & Hi). apply obj_get_in; [by apply entries_nodup|]. apply (list_elem_of_lookup_2 _ i).
    by rewrite entries_arr_lookup, Hi.
Qed.

Lemma dec_escape i : 0 <= i -> escapePathComponent (dec i) = dec i.
Proof.
  intros Hi. destruct (dec_spec i Hi) as (Hd & _). rewrite escape_esc. apply esc_plain; eapply Forall_impl; try exact Hd; cbn; lia.
Qed.

Lemma array_key_dec l i : 0 <= i < 2147483648 -> array_key_of l (dec i) = AIndex i.
Proof.
  intros Hi. unfold array_key_of. destruct (dec_spec i) as (Hd & Hv & _); [lia|]. rewrite decide_False.
  - assert (E : isInteger (dec i) = true).
    { unfold isInteger, digit. clear Hv. induction Hd as [|c s Hc _ IH]; [done|]. cbn. rewrite IH. lia. }
    rewrite E, Hv, to_int32_id by lia. done.
  - intros E. rewrite E in Hd. apply Forall_cons in Hd as [Hd _]. lia.
Qed.

Lemma arr_get_nat {A} (l : list A) i : arr_get l (Z.of_nat i) = l !! i.
Proof. unfold arr_get. destruct (Z.leb_spec 0 (Z.of_nat i)); [|lia]. by rewrite Nat2Z.id. Qed.
Lemma arr_set_nat {A} (l : list A) i x : arr_set l (Z.of_nat i) x = <[i := x]> l.
Proof. unfold arr_set. destruct (Z.leb_spec 0 (Z.of_nat i)); [|lia]. by rewrite Nat2Z.id. Qed.

(** A step to a member that exists. *)
Lemma walk0_step a d p f x : small d -> child d p = Some x -> f <> [] ->
  walk0 a (escapePathComponent p :: f) d = let! r := walk0 a f x in Ok (set_child d p r.1, r.2).
Proof.
  intros Hs Hx Hf. destruct d as [| | | | |l|o]; try done; cbn [walk0]; cbv zeta.
  - apply child_arr in Hx as (i & -> & Hi). assert (i < length l)%nat by (by eapply lookup_lt_Some).
    cbn in Hs. unfold len in Hs. rewrite dec_escape, array_key_dec by lia. cbn [read_key put_index set_child].
    rewrite arr_get_nat, Hi, parse_dec_dec by lia. destruct f; [done|]. done.
  - rewrite key_text_escape. destruct f as [|g f]; [done|]. cbn [prop_read]. unfold child in Hx. cbn in Hx. by rewrite Hx.
Qed.

Lemma child_set d p x y : child d p = Some x -> child (set_child d p y) p = Some y.
Proof.
  destruct d as [| | | | |l|o]; try done.
  - intros (i & -> & Hi)%child_arr. cbn [set_child]. rewrite parse_dec_dec by lia. apply child_arr. exists i. split; [done|].
    rewrite arr_set_nat, list_lookup_insert_eq; [done|]. by eapply lookup_lt_Some.
  - unfold child. cbn. intros Hx. rewrite obj_get_update, Hx. by rewrite decide_True.
Qed.
Lemma set_child_set d p x y : set_child (set_child d p x) p y = set_child d p y.
Proof.
  destruct d as [| | | | |l|o]; try done; cbn.
  - destruct (parse_dec p) as [i|] eqn:E; cbn; rewrite ?E; [|done]. unfold arr_set. destruct (0 <=? i); [|done].
    by rewrite list_insert_insert_eq.
  - f_equal. induction o as [|[k v] o IH]; [done|]. cbn. destruct (decide (p = k)) as [->|Hk]; cbn.
    + by rewrite decide_True.
    + rewrite decide_False by done. by rewrite IH.
Qed.
Lemma set_child_same d p x : child d p = Some x -> set_child d p x = d.
Proof.
  destruct d as [| | | | |l|o]; try done.
  - intros (i & -> & Hi)%child_arr. cbn [set_child]. rewrite parse_dec_dec by lia. by rewrite arr_set_nat, list_insert_id.
  - unfold child. cbn. intros Hx. f_equal. induction o as [|[k v] o IH]; [done|]. cbn in *. destruct (decide (p = k)) as [->|Hk]; [congruence|].
    by rewrite IH.
Qed.
Lemma small_set d p x : small d -> small (set_child d p x).
Proof.
  destruct d as [| | | | |l|o]; try done; cbn.
  - destruct (parse_dec p) as [i|]; [|done]. unfold arr_set. destruct (0 <=? i); cbn; unfold len; rewrite ?length_insert; done.
  - assert (E : obj_keys (obj_update o p x) = obj_keys o); [|by rewrite E].
    unfold obj_keys. induction o as [|[k v] o IH]; [done|]. cbn. destruct (decide (p = k)) as [->|]; [done|]. cbn. by rewrite IH.
Qed.

(** ** Runs of generated operations *)

Inductive gact := GRemove | GReplace (v : jval) | GAdd (v : jval).
Definition act (a : gact) : action := match a with GRemove => ARemove | GReplace v => AReplace v | GAdd v => AAdd v end.
Abbreviation gop := (list (list Z) * gact)%type (only parsing).

(** The operation as [compare] writes it, below the pointer of [o]. *)
Definition render (o : list (list Z)) (op : gop) : jobj :=
  match op.2 with
  | GRemove => remove_op (ptr (o ++ op.1))
  | GReplace v => replace_op (ptr (o ++ op.1)) v
  | GAdd v => add_op (ptr (o ++ op.1)) v
  end.

Definition run1 (d : jval) (op : gop) : result jval :=
  let! r := walk0 (act op.2) (escapePathComponent <$> op.1) d in Ok r.1.
Abbreviation run d ops := (foldR run1 d ops).
Definition below (p : list Z) (op : gop) : gop := (p :: op.1, op.2).

(** Operations below a member act on the member. *)
Lemma run_below d p x ops : small d -> child d p = Some x -> Forall (λ op : gop, op.1 <> []) ops ->
  run d (below p <$> ops) = let! y := run x ops in Ok (set_child d p y).
Proof.
  intros Hs Hx H. revert d x Hs Hx. induction H as [|op ops Hop _ IH]; intros d x Hs Hx.
  { cbn. by rewrite set_child_same. }
  cbn [fmap list_fmap foldR]. unfold run1 at 1 3. cbn [below fst snd fmap list_fmap].
  rewrite (walk0_step _ d p _ x) by (try done; by destruct op.1).
  destruct (walk0 (act op.2) (escapePathComponent <$> op.1) x) as [r|]; cbn [result_bind fst]; [|done].
  rewrite (IH (set_child d p r.1) r.1); [|by apply small_set|by eapply child_set].
  destruct (run r.1 ops); [|done]. cbn. by rewrite set_child_set.
Qed.

(** The operations at the end of a path. *)
Lemma run_remove_key o k : k ∈ obj_keys o -> run1 (JObj o) ([k], GRemove) = Ok (JObj (obj_delete o k)).
Proof. intros _. unfold run1. cbn [fst snd fmap list_fmap act walk0]. by rewrite key_text_escape. Qed.
Lemma run_put_key o k v a : k <> js "__proto__" -> act a = AAdd v \/ act a = AReplace v ->
  run1 (JObj o) ([k], a) = Ok (JObj (obj_set o k v)).
Proof.
  intros Hk Ha. unfold run1. cbn [fst snd fmap list_fmap walk0]. rewrite key_text_escape.
  destruct Ha as [-> | ->]; cbn; by rewrite decide_False.
Qed.

Lemma run_remove_index l i : (i < length l)%nat -> len l < 2147483648 ->
  run1 (JArr l) ([dec (Z.of_nat i)], GRemove) = Ok (JArr (take i l ++ drop (S i) l)).
Proof.
  intros Hi Hl. unfold len in Hl. unfold run1. cbn [fst snd fmap list_fmap walk0 act]. rewrite dec_escape, array_key_dec by lia. cbn.
  unfold splice_start, len. destruct (Z.ltb_spec (Z.of_nat i) 0); [lia|]. by rewrite Z.min_l, Nat2Z.id by lia.
Qed.
Lemma run_replace_index l i v : (i < length l)%nat -> len l < 2147483648 ->
  run1 (JArr l) ([dec (Z.of_nat i)], GReplace v) = Ok (JArr (<[i := v]> l)).
Proof.
  intros Hi Hl. unfold len in Hl. unfold run1. cbn [fst snd fmap list_fmap walk0 act]. rewrite dec_escape, array_key_dec by lia.
  cbn [array_action]. destruct (Z.ltb_spec (Z.of_nat i) 0); [lia|]. cbn. unfold arr_put, len.
  destruct (Z.ltb_spec (Z.of_nat i) (Z.of_nat (length l))); [|lia]. by rewrite arr_set_nat.
Qed.
Lemma run_add_last l v : len l < 2147483648 -> run1 (JArr l) ([dec (len l)], GAdd v) = Ok (JArr (l ++ [v])).
Proof.
  intros Hl. pose proof (len_nonneg l). unfold run1. cbn [fst snd fmap list_fmap walk0 act]. rewrite dec_escape, array_key_dec by lia.
  cbn. unfold splice_insert, splice_start. destruct (Z.ltb_spec (len l) 0); [lia|]. rewrite Z.min_id. unfold len.
  by rewrite Nat2Z.id, take_ge, drop_ge by lia.
Qed.

(** ** The generated operations, with paths as lists of names *)

Fixpoint gen (fuel : nat) (e t : jval) : list gop :=
  match fuel with
  | O => []
  | S fuel =>
      let i := objectKeys t in
      let a := objectKeys e in
      let step (p : list Z) : bool * list gop :=
        let l := own e p in
        match obj_get (entries t) p with
        | None => (true, [([p], GRemove)])
        | Some c =>
            if bool_decide (c = JUndef) && negb (bool_decide (l = JUndef)) && negb (is_array t) then (true, [([p], GRemove)])
            else match l, c with
            | (JArr _ | JObj _), (JArr _ | JObj _) => (false, below p <$> gen fuel l c)
            | _, _ => (false, if strict_eq l c then [] else [([p], GReplace (deepClone c))])
            end
        end in
      let steps := step <$> reverse a in
      let u := existsb fst steps in
      concat (snd <$> steps) ++
      (if u || negb (length i =? length a)%nat then
         omap (λ p, match obj_get (entries e) p with
                    | Some _ => None
                    | None => if decide (own t p = JUndef) then None else Some ([p], GAdd (deepClone (own t p)))
                    end) i
       else [])
  end.

Lemma render_below o p op : render o (below p op) = render (o ++ [p]) op.
Proof. unfold render, below. cbn [fst snd]. rewrite <- app_assoc. by destruct op.2. Qed.

Lemma existsb_fst {A B C} (f : A -> bool * B) (g : A -> bool * C) l :
  (∀ x, (f x).1 = (g x).1) -> existsb fst (f <$> l) = existsb fst (g <$> l).
Proof. intros H. induction l as [|x l IH]; [done|]. cbn. by rewrite H, IH. Qed.

Lemma generate_gen fuel e t o : generate fuel e t (ptr o) = render o <$> gen fuel e t.
Proof.
  revert e t o. induction fuel as [|fuel IH]; intros e t o; [done|]. cbn [generate gen]. cbv zeta. rewrite fmap_app. f_equal.
  - rewrite fmap_concat, <- !list_fmap_compose. f_equal. apply list_fmap_ext. intros i p _. unfold compose.
    destruct (obj_get (entries t) p) as [c|].
    + destruct (bool_decide (c = JUndef) && negb (bool_decide (own e p = JUndef)) && negb (is_array t)).
      { cbn. unfold render. cbn. by rewrite ptr_app. }
      assert (R : snd (false, if strict_eq (own e p) c then [] else [replace_op (ptr o ++ [47] ++ escapePathComponent p) (deepClone c)])
        = render o <$> (snd (false, if strict_eq (own e p) c then [] else [([p], GReplace (deepClone c))]))).
      { cbn [snd]. destruct (strict_eq _ c); [done|]. cbn. unfold render. cbn. by rewrite ptr_app. }
      assert (B : ∀ x y, generate fuel x y (ptr o ++ [47] ++ escapePathComponent p) = render o <$> (below p <$> gen fuel x y)).
      { intros x y. rewrite <- ptr_app, IH, <- list_fmap_compose. apply list_fmap_ext. intros j op _. symmetry. apply render_below. }
      destruct (own e p), c; first [exact R|apply B].
    + cbn. unfold render. cbn. by rewrite ptr_app.
  - assert (E : ∀ (f : list Z -> bool * list jobj) (g : list Z -> bool * list gop) l, (∀ x, (f x).1 = (g x).1) ->
      existsb fst (f <$> l) = existsb fst (g <$> l)) by (intros; by apply existsb_fst).
    rewrite (E _ (λ p, match obj_get (entries t) p with
        | None => (true, [([p], GRemove)])
        | Some c =>
            if bool_decide (c = JUndef) && negb (bool_decide (own e p = JUndef)) && negb (is_array t) then (true, [([p], GRemove)])
            else match own e p, c with
            | (JArr _ | JObj _), (JArr _ | JObj _) => (false, below p <$> gen fuel (own e p) c)
            | _, _ => (false, if strict_eq (own e p) c then [] else [([p], GReplace (deepClone c))])
            end
        end)).
    + match goal with |- (if ?b then _ else _) = _ => destruct b end; [|done].
      induction (objectKeys t) as [|p l IHl]; [done|]. cbn [omap list_omap].
      destruct (obj_get (entries e) p); [exact IHl|]. destruct (decide (own t p = JUndef)); [exact IHl|].
      cbn. f_equal; [|exact IHl]. unfold render. cbn. by rewrite ptr_app.
    + intros p. destruct (obj_get (entries t) p) as [c|]; [|done].
      destruct (bool_decide (c = JUndef) && negb (bool_decide (own e p = JUndef)) && negb (is_array t)); [done|].
      by destruct (own e p), c.
Qed.

Lemma gen_paths fuel e t : Forall (λ op : gop, op.1 <> []) (gen fuel e t).
Proof.
  destruct fuel as [|fuel]; [constructor|]. cbn [gen]. cbv zeta. apply Forall_app. split.
  - apply Forall_concat, Forall_fmap, Forall_fmap, Forall_forall. intros p _. unfold compose.
    assert (R : ∀ (b : bool) c, Forall (λ op : gop, op.1 <> []) (if b then [] else [([p], GReplace c)]))
      by (intros [] c; by repeat constructor).
    assert (B : ∀ x y, Forall (λ op : gop, op.1 <> []) (below p <$> gen fuel x y)) by (intros; apply Forall_fmap, Forall_forall; done).
    destruct (obj_get (entries t) p) as [c|]; [|by repeat constructor].
    destruct (bool_decide (c = JUndef) && _ && _); [by repeat constructor|].
    destruct (own e p), c; first [apply B|apply R].
  - match goal with |- context [if ?b then _ else _] => destruct b end; [|constructor].
    apply Forall_forall. intros op (p & _ & Hp)%list_elem_of_omap. destruct (obj_get (entries e) p); [done|].
    destruct (decide _); [done|]. by injection Hp as <-.
Qed.

(** [applyPatch] runs the operations. *)
Lemma applyOperation_render d op : op.1 <> [] ->
  applyOperation d (render [] op) false true =
    match walk0 (act op.2) (escapePathComponent <$> op.1) d with Ok r => (r.1, Ok r) | Throw err => (d, Throw err) end.
Proof.
  destruct op as [ps a]. cbn [fst snd]. intros Hps.
  assert (Hc : ∃ c r, ptr ps = c :: r) by (destruct ps; [done|unfold ptr; cbn; eauto]).
  destruct Hc as (c & r & Hc).
  assert (Hcomp : ∃ f fs, components (ptr ps) = f :: fs) by (rewrite components_ptr; destruct ps; [done|cbn; eauto]).
  destruct Hcomp as (f & fs & Hcomp).
  assert (W : ∀ ia chk, walk_path (act a) ia false chk (ptr ps) d = walk0 (act a) (escapePathComponent <$> ps) d).
  { intros ia chk. unfold walk_path. rewrite Hcomp, <- Hcomp, components_ptr. apply walk_false. }
  destruct a as [|v|v]; unfold applyOperation, render; cbn [fst snd app].
  - change (path_of (remove_op (ptr ps))) with (JStr (ptr ps)). rewrite Hc, <- Hc.
    change (apply_walk false (validator d (JObj (remove_op (ptr ps)))) d (remove_op (ptr ps)))
      with (walk_path (act GRemove) false false (validator d (JObj (remove_op (ptr ps)))) (ptr ps) d).
    rewrite W. by destruct (walk0 _ _ d) as [[? ?]|].
  - change (path_of (replace_op (ptr ps) v)) with (JStr (ptr ps)). rewrite Hc, <- Hc.
    change (apply_walk false (validator d (JObj (replace_op (ptr ps) v))) d (replace_op (ptr ps) v))
      with (walk_path (act (GReplace v)) false false (validator d (JObj (replace_op (ptr ps) v))) (ptr ps) d).
    rewrite W. by destruct (walk0 _ _ d) as [[? ?]|].
  - change (path_of (add_op (ptr ps) v)) with (JStr (ptr ps)). rewrite Hc, <- Hc.
    change (apply_walk false (validator d (JObj (add_op (ptr ps) v))) d (add_op (ptr ps) v))
      with (walk_path (act (GAdd v)) true false (validator d (JObj (add_op (ptr ps) v))) (ptr ps) d).
    rewrite W. by destruct (walk0 _ _ d) as [[? ?]|].
Qed.

Lemma apply_ops_run ops d d' i : Forall (λ op : gop, op.1 <> []) ops -> run d ops = Ok d' ->
  ∃ i', apply_ops d (JObj <$> (render [] <$> ops)) false i = (d', Ok i').
Proof.
  intros H. revert d i. induction H as [|op ops Hop _ IH]; intros d i; cbn [foldR].
  { intros [= ->]. by exists i. }
  unfold run1 at 1. intros Hr. cbn [fmap list_fmap apply_ops]. rewrite applyOperation_render by done.
  destruct (walk0 (act op.2) (escapePathComponent <$> op.1) d) as [r|]; [|done]. cbn in Hr. by apply IH.
Qed.

(** ** Equality of documents up to the order of names *)

Fixpoint jeq (v w : jval) : Prop :=
  match v, w with
  | JArr l, JArr m =>
      (fix go l m := match l, m with [], [] => True | x :: l, y :: m => jeq x y /\ go l m | _, _ => False end) l m
  | JObj a, JObj b =>
      (∀ k, obj_get a k = None <-> obj_get b k = None) /\
      (fix go a := match a with
                   | [] => True
                   | (k, x) :: a => match obj_get b k with Some y => jeq x y | None => False end /\ go a
                   end) a
  | JArr _, _ | JObj _, _ => False
  | _, _ => v = w
  end.

Lemma jeq_arr l m : Forall2 jeq l m -> jeq (JArr l) (JArr m).
Proof. induction 1; cbn; [done|]. split; [done|]. done. Qed.

Definition opt_jeq (x y : option jval) : Prop :=
  match x, y with Some x, Some y => jeq x y | None, None => True | _, _ => False end.

Lemma jeq_obj a b : NoDup (obj_keys a) -> (∀ k, opt_jeq (obj_get a k) (obj_get b k)) -> jeq (JObj a) (JObj b).
Proof.
  intros Hn H. cbn [jeq]. split.
  - intros k. specialize (H k). destruct (obj_get a k), (obj_get b k); done.
  - assert (G : Forall (λ kv, opt_jeq (Some kv.2) (obj_get b kv.1)) a).
    { apply Forall_forall. intros [k x] Hin. specialize (H k). by rewrite (obj_get_in a k x Hn Hin) in H. }
    clear Hn H. induction G as [|[k x] a Hx _ IH]; [done|]. split; [|done]. cbn in Hx. by destruct (obj_get b k).
Qed.

Lemma jeq_refl v : doc_ok v -> jeq v v.
Proof.
  induction v as [| | | | |l IH|o IH] using jval_ind'; try done.
  - intros [_ Hl]%doc_ok_arr. apply jeq_arr. clear -IH Hl. induction IH as [|x l Hx _ IHl]; [constructor|].
    apply Forall_cons in Hl as [H1 H2]. constructor; auto.
  - intros (Hn & _ & Ho)%doc_ok_obj. apply jeq_obj; [done|]. intros k. destruct (obj_get o k) as [x|] eqn:E; [|done]. cbn.
    apply obj_get_elem in E. rewrite Forall_forall in IH, Ho. apply (IH _ E), (Ho _ E).
Qed.

Lemma clone_id v : doc_ok v -> deepClone v = v.
Proof.
  intros Hv. assert (E : json_clone v = v); [|by destruct v].
  induction v as [| | | | |l IH|o IH] using jval_ind'; try done.
  - apply doc_ok_arr in Hv as [_ Hl]. cbn. f_equal. induction IH as [|x l Hx _ IHl]; [done|].
    apply Forall_cons in Hl as [H1 H2]. cbn. rewrite IHl by done. destruct x; try done; by rewrite Hx.
  - apply doc_ok_obj in Hv as (_ & _ & Ho). cbn. f_equal. induction IH as [|[k x] o Hx _ IHo]; [done|].
    apply Forall_cons in Ho as [H1 H2]. cbn in H1, Hx. cbn. rewrite IHo by done. destruct x; try done; by rewrite Hx.
Qed.

(** The two documents have an array where the other has one, wherever both
    have an array or object. *)
Fixpoint aligned (e t : jval) : Prop :=
  match e, t with
  | JArr l, JArr m => (fix go l m := match l, m with x :: l, y :: m => aligned x y /\ go l m | _, _ => True end) l m
  | JObj a, JObj b =>
      (fix go a := match a with
                   | [] => True
                   | (k, x) :: a => match obj_get b k with Some y => aligned x y | None => True end /\ go a
                   end) a
  | JArr _, JObj _ | JObj _, JArr _ => False
  | _, _ => True
  end.

Lemma aligned_arr l m i x y : aligned (JArr l) (JArr m) -> l !! i = Some x -> m !! i = Some y -> aligned x y.
Proof.
  cbn. revert m i. induction l as [|a l IH]; intros [|b m] [|i] H Hx Hy; try done; cbn in *.
  - destruct H as [H _]. congruence.
  - destruct H as [_ H]. by eapply IH.
Qed.
Lemma aligned_obj a b k x y : aligned (JObj a) (JObj b) -> (k, x) ∈ a -> obj_get b k = Some y -> aligned x y.
Proof.
  cbn. induction a as [|[j w] a IH]; [set_solver|]. intros [Hj Ha] [[= <- <-]|Hin]%elem_of_cons Hy; [by rewrite Hy in Hj|auto].
Qed.

(** ** Objects and arrays under the generated operations *)

Lemma run_app d xs ys : run d (xs ++ ys) = let! d := run d xs in run d ys.
Proof. apply foldR_app. Qed.

Lemma obj_middle_delete (a : jobj) k x (b : jobj) : NoDup (obj_keys (a ++ (k, x) :: b)) -> obj_delete (a ++ (k, x) :: b) k = a ++ b.
Proof.
  induction a as [|[j w] a IH]; cbn; intros H; [by rewrite decide_True|]. apply NoDup_cons in H as [Hj H].
  rewrite decide_False; [by rewrite IH|]. intros ->. apply Hj. unfold obj_keys. rewrite fmap_app. cbn. set_solver.
Qed.
Lemma obj_middle_update (a : jobj) k x b y : NoDup (obj_keys (a ++ (k, x) :: b)) -> obj_update (a ++ (k, x) :: b) k y = a ++ (k, y) :: b.
Proof.
  induction a as [|[j w] a IH]; cbn; intros H; [by rewrite decide_True|]. apply NoDup_cons in H as [Hj H].
  rewrite decide_False; [by rewrite IH|]. intros ->. apply Hj. unfold obj_keys. rewrite fmap_app. cbn. set_solver.
Qed.
Lemma obj_middle_get (a : jobj) k x (b : jobj) : NoDup (obj_keys (a ++ (k, x) :: b)) -> obj_get (a ++ (k, x) :: b) k = Some x.
Proof. intros H. apply obj_get_in; [done|]. set_solver. Qed.

(** The names of an object from the last to the first. *)
Lemma run_keys (S : list Z -> list gop) (G : list Z -> jval -> option jval) pre post :
  (∀ k x a b, (k, x) ∈ pre -> NoDup (obj_keys (a ++ (k, x) :: b)) ->
     run (JObj (a ++ (k, x) :: b)) (S k) = Ok (JObj (a ++ match G k x with Some y => (k, y) :: b | None => b end))) ->
  NoDup (obj_keys (pre ++ post)) ->
  run (JObj (pre ++ post)) (concat (S <$> reverse (obj_keys pre)))
    = Ok (JObj (omap (λ kv, match G kv.1 kv.2 with Some y => Some (kv.1, y) | None => None end) pre ++ post)).
Proof.
  revert post. induction pre as [|[k x] pre IH] using rev_ind; intros post HS Hn; [done|].
  assert (E : obj_keys (pre ++ [(k, x)]) = obj_keys pre ++ [k]) by (unfold obj_keys; by rewrite fmap_app).
  rewrite E, reverse_app, reverse_singleton. cbn [app fmap list_fmap concat]. rewrite run_app. rewrite <- app_assoc in *. cbn [app] in *.
  rewrite HS by (done || set_solver). cbn [result_bind].
  rewrite omap_app. cbn [omap list_omap fst snd]. 
  assert (Hn' : NoDup (obj_keys (pre ++ match G k x with Some y => (k, y) :: post | None => post end))).
  { unfold obj_keys in *. rewrite fmap_app in *. cbn in Hn. destruct (G k x); cbn; [done|].
    apply NoDup_app in Hn as (H1 & H2 & [_ H3]%NoDup_cons). apply NoDup_app. set_solver. }
  rewrite (IH (match G k x with Some y => (k, y) :: post | None => post end)); [|intros; apply HS; set_solver|done].
  destruct (G k x); by rewrite <- app_assoc.
Qed.

Lemma obj_get_omap (G : list Z -> jval -> option jval) o k : NoDup (obj_keys o) ->
  obj_get (omap (λ kv, match G kv.1 kv.2 with Some y => Some (kv.1, y) | None => None end) o) k
    = match obj_get o k with Some x => G k x | None => None end.
Proof.
  induction o as [|[j x] o IH]; [done|]. intros [Hj Hn]%NoDup_cons. cbn [omap list_omap fst snd obj_get].
  assert (Hno : obj_get o j = None) by (by apply obj_get_None).
  destruct (decide (k = j)) as [->|Hk].
  - destruct (G j x); cbn; [by rewrite decide_True|]. by rewrite IH, Hno.
  - destruct (G j x); cbn; [rewrite decide_False by done|]; by apply IH.
Qed.

Lemma obj_set_nodup (o : jobj) k v : NoDup (obj_keys o) -> NoDup (obj_keys (obj_set o k v)).
Proof.
  intros Hn. unfold obj_set. destruct (obj_get o k) eqn:E.
  - apply (small_set (JObj o) k v Hn).
  - apply obj_get_None in E. induction o as [|[j x] o IH]; cbn; [apply NoDup_singleton|].
    destruct (key_before k j); cbn; [by constructor|]. cbn in E, Hn. apply NoDup_cons in Hn as [Hj Hn]. apply NoDup_cons. split.
    + assert (P : ∀ y, y ∈ obj_keys (obj_insert o k v) -> y = k \/ y ∈ obj_keys o).
      { clear. induction o as [|[i w] o IHo]; cbn; [set_solver|]. destruct (key_before k i); cbn; set_solver. }
      intros [->|Hin]%P; set_solver.
    + apply IH; [done|]. set_solver.
Qed.

(** New names are added one after the other. *)
Lemma run_adds (b : jobj) a : NoDup (obj_keys a) -> (js "__proto__" ∉ obj_keys b) ->
  ∃ a', run (JObj a) ((λ kv, ([kv.1], GAdd kv.2)) <$> b) = Ok (JObj a') /\ NoDup (obj_keys a') /\
    (∀ k, obj_get a' k = match obj_get (reverse b) k with Some y => Some y | None => obj_get a k end).
Proof.
  revert a. induction b as [|[k y] b IH]; intros a Hn Hp; [by exists a|]. cbn [fmap list_fmap foldR fst snd].
  rewrite (run_put_key a k y) by (first [intros ->; set_solver|by left]). cbn [result_bind].
  destruct (IH (obj_set a k y)) as (a' & Hr & Hn' & Hg); [by apply obj_set_nodup|set_solver|].
  exists a'. split_and!; [done|done|]. intros j. rewrite Hg, reverse_cons, obj_get_app. destruct (obj_get (reverse b) j); [done|].
  rewrite obj_get_set. cbn. by destruct (decide (j = k)).
Qed.

(** The elements of an array from the last to the first. *)
Lemma run_elements (S : nat -> list gop) (G : nat -> jval -> option jval) pre post :
  (∀ i x b, pre !! i = Some x -> len (take i pre ++ x :: b) < 2147483648 ->
     run (JArr (take i pre ++ x :: b)) (S i) = Ok (JArr (take i pre ++ match G i x with Some y => y :: b | None => b end))) ->
  len (pre ++ post) < 2147483648 ->
  run (JArr (pre ++ post)) (concat (S <$> reverse (seq 0 (length pre))))
    = Ok (JArr (concat (imap (λ i x, match G i x with Some y => [y] | None => [] end) pre) ++ post)).
Proof.
  revert post. induction pre as [|x pre IH] using rev_ind; intros post HS Hl; [done|].
  rewrite length_app. cbn [length]. rewrite Nat.add_1_r, seq_S, reverse_app, reverse_singleton. cbn [app fmap list_fmap concat].
  rewrite run_app. rewrite <- app_assoc in *. cbn [app] in *.
  assert (Hx := HS (length pre) x post). rewrite take_app_length in Hx. rewrite Nat.add_0_l, Hx; [|by rewrite lookup_app_r, Nat.sub_diag by lia|done].
  cbn [result_bind]. rewrite imap_app, concat_app. cbn [imap concat]. unfold compose. rewrite Nat.add_0_r, app_nil_r.
  rewrite (IH (match G (length pre) x with Some y => y :: post | None => post end)).
  - destruct (G (length pre) x); by rewrite <- app_assoc.
  - intros i y b Hi Hb. assert (i < length pre)%nat by (by eapply lookup_lt_Some).
    rewrite <- (take_app_le pre [x] i) by lia. apply HS; [by apply lookup_app_l_Some|]. by rewrite take_app_le by lia.
  - rewrite len_app in *. rewrite len_cons in Hl. destruct (G (length pre) x); rewrite ?len_cons; lia.
Qed.

(** New elements are added at the end. *)
Lemma run_appends l m : len (l ++ m) < 2147483648 ->
  run (JArr l) (imap (λ j y, ([dec (Z.of_nat (length l + j))], GAdd y)) m) = Ok (JArr (l ++ m)).
Proof.
  revert l. induction m as [|y m IH]; intros l Hl; [by rewrite app_nil_r|]. rewrite imap_cons. cbn [foldR]. rewrite Nat.add_0_r.
  rewrite len_app, len_cons in Hl. pose proof (len_nonneg m). change (Z.of_nat (length l)) with (len l). rewrite run_add_last by lia.
  cbn [result_bind]. replace (l ++ y :: m) with ((l ++ [y]) ++ m) by (by rewrite <- app_assoc).
  rewrite <- IH by (rewrite !len_app, len_cons, len_nil; lia). f_equal. apply imap_ext. intros j z _. unfold compose.
  rewrite length_app. cbn. by replace (length l + 1 + j)%nat with (length l + S j)%nat by lia.
Qed.

(** ** The generated patch is right *)

Definition gstep (fuel : nat) (e t : jval) (p : list Z) : bool * list gop :=
  let l := own e p in
  match obj_get (entries t) p with
  | None => (true, [([p], GRemove)])
  | Some c =>
      if bool_decide (c = JUndef) && negb (bool_decide (l = JUndef)) && negb (is_array t) then (true, [([p], GRemove)])
      else match l, c with
      | (JArr _ | JObj _), (JArr _ | JObj _) => (false, below p <$> gen fuel l c)
      | _, _ => (false, if strict_eq l c then [] else [([p], GReplace (deepClone c))])
      end
  end.
Definition gadds (e t : jval) : list gop :=
  omap (λ p, match obj_get (entries e) p with
             | Some _ => None
             | None => if decide (own t p = JUndef) then None else Some ([p], GAdd (deepClone (own t p)))
             end) (objectKeys t).

Lemma gen_unfold fuel e t : gen (S fuel) e t =
  concat (snd <$> (gstep fuel e t <$> reverse (objectKeys e))) ++
  (if existsb fst (gstep fuel e t <$> reverse (objectKeys e)) || negb (length (objectKeys t) =? length (objectKeys e))%nat
   then gadds e t else []).
Proof. reflexivity. Qed.

(** What a member becomes. *)
Definition patched (fuel : nat) (x c : jval) : jval :=
  if is_container x && is_container c then match run x (gen fuel x c) with Ok d => d | Throw _ => x end else c.

Lemma strict_eq_eq x c : strict_eq x c = true -> x = c.
Proof. destruct x, c; cbn; try done; by intros ?%bool_decide_eq_true. Qed.

Lemma own_child e p x : child e p = Some x -> own e p = x.
Proof. unfold child, own. by intros ->. Qed.

Lemma doc_ok_defined v : doc_ok v -> v <> JUndef.
Proof. by intros H ->. Qed.

Lemma gstep_gone fuel e t p : child t p = None -> gstep fuel e t p = (true, [([p], GRemove)]).
Proof. unfold gstep, child. by intros ->. Qed.
Lemma gstep_kept fuel e t p x c : child e p = Some x -> child t p = Some c -> doc_ok c ->
  gstep fuel e t p = (false, if is_container x && is_container c then below p <$> gen fuel x c
                             else if strict_eq x c then [] else [([p], GReplace c)]).
Proof.
  intros Hx Hc Hok. unfold gstep. rewrite (own_child e p x Hx). unfold child in Hc. rewrite Hc.
  rewrite (bool_decide_false (c = JUndef)) by (by apply doc_ok_defined). cbn [andb]. rewrite clone_id by done.
  by destruct x, c.
Qed.

(** Every name of the first is in the second, and there are as many: nothing to add. *)
Lemma gadds_nil e t fuel : NoDup (objectKeys e) -> NoDup (objectKeys t) ->
  (∀ p, p ∈ objectKeys e -> ∃ x, child e p = Some x) ->
  existsb fst (gstep fuel e t <$> reverse (objectKeys e)) || negb (length (objectKeys t) =? length (objectKeys e))%nat = false ->
  gadds e t = [].
Proof.
  intros Hn Hn' Hch [Hu Hl]%orb_false_iff. apply negb_false_iff, Nat.eqb_eq in Hl.
  assert (Hsub : ∀ p, p ∈ objectKeys e -> p ∈ objectKeys t).
  { intros p Hp. destruct (decide (p ∈ objectKeys t)) as [|Hnp]; [done|]. exfalso.
    assert (E : existsb fst (gstep fuel e t <$> reverse (objectKeys e)) = true); [|congruence].
    apply existsb_exists. exists (gstep fuel e t p). rewrite gstep_gone by (by apply obj_get_None). split; [|done].
    apply list_elem_of_In, list_elem_of_fmap. exists p. rewrite gstep_gone by (by apply obj_get_None). split; [done|].
    by apply elem_of_reverse. }
  assert (Hsup : ∀ p, p ∈ objectKeys t -> p ∈ objectKeys e).
  { assert (P : objectKeys e ≡ₚ objectKeys t); [|intros p; by rewrite P].
    apply submseteq_length_Permutation; [by apply NoDup_submseteq|lia]. }
  unfold gadds. clear Hu Hl Hsub Hn'. induction (objectKeys t) as [|p l IH]; [done|]. cbn [omap list_omap].
  destruct (Hch p) as (x & Hx); [apply Hsup; set_solver|]. unfold child in Hx. rewrite Hx. apply IH. set_solver.
Qed.

Lemma objectKeys_child e p : p ∈ objectKeys e -> ∃ x, child e p = Some x.
Proof.
  unfold objectKeys, child. intros Hp. destruct (obj_get (entries e) p) eqn:E; [eauto|]. by apply obj_get_None in E.
Qed.

Lemma gadds_flag fuel e t : NoDup (objectKeys e) -> NoDup (objectKeys t) ->
  gen (S fuel) e t = concat (snd <$> (gstep fuel e t <$> reverse (objectKeys e))) ++ gadds e t.
Proof.
  intros Hn Hn'. rewrite gen_unfold. f_equal. destruct (_ || _) eqn:E; [done|].
  symmetry. eapply gadds_nil; try done. apply objectKeys_child.
Qed.

Definition generates (fuel : nat) : Prop := ∀ x c, doc_ok x -> doc_ok c -> aligned x c -> is_container x = true ->
  is_container c = true -> (Qs.jdepth x <= fuel)%nat -> ∃ d, run x (gen fuel x c) = Ok d /\ jeq d c.

Section level.
Context (fuel : nat) (IH : generates fuel).

Lemma patched_ok x c : doc_ok x -> doc_ok c -> aligned x c -> (Qs.jdepth x <= fuel)%nat ->
  jeq (patched fuel x c) c /\ (is_container x && is_container c = true -> run x (gen fuel x c) = Ok (patched fuel x c)).
Proof.
  intros Hx Hc Ha Hd. unfold patched. destruct (is_container x && is_container c) eqn:E; [|split; [by apply jeq_refl|done]].
  apply andb_prop in E as [E1 E2]. destruct (IH x c Hx Hc Ha E1 E2 Hd) as (d & -> & Hj). done.
Qed.

(** The operations of one name of an object. *)
Lemma run_gstep_key o t k x a b : doc_ok (JObj o) -> doc_ok (JObj t) -> aligned (JObj o) (JObj t) ->
  (Qs.jdepth (JObj o) <= S fuel)%nat -> (k, x) ∈ o -> NoDup (obj_keys (a ++ (k, x) :: b)) ->
  run (JObj (a ++ (k, x) :: b)) (snd (gstep fuel (JObj o) (JObj t) k))
    = Ok (JObj (a ++ match patched fuel x <$> obj_get t k with Some y => (k, y) :: b | None => b end)).
Proof.
  intros Ho Ht Hal Hd Hin Hn. assert (Ho' := Ho). assert (Ht' := Ht). apply doc_ok_obj in Ho' as (Hno & Hp & Hvo). apply doc_ok_obj in Ht' as (_ & _ & Hvt).
  rewrite Forall_forall in Hvo. assert (Hx := Hvo _ Hin). cbn in Hx. assert (Hcx : child (JObj o) k = Some x) by (by apply obj_get_in).
  destruct (obj_get t k) as [c|] eqn:Ec; cbn [fmap option_fmap option_map].
  - assert (Hc : doc_ok c) by (rewrite Forall_forall in Hvt; by apply (Hvt (k, c)), obj_get_elem).
    rewrite (gstep_kept fuel (JObj o) (JObj t) k x c) by done. cbn [snd].
    destruct (patched_ok x c) as [_ Hrun]; [done|done|by eapply aligned_obj|apply (jdepth_entries (JObj o)) in Hin; cbn in *; lia|].
    destruct (is_container x && is_container c) eqn:Eb.
    + rewrite (run_below _ k x) by (first [exact Hn|apply gen_paths|by apply obj_middle_get]). rewrite Hrun by done. cbn [result_bind set_child].
      by rewrite obj_middle_update.
    + unfold patched. rewrite Eb. destruct (strict_eq x c) eqn:Es; [by apply strict_eq_eq in Es as ->|]. cbn [foldR].
      rewrite (run_put_key _ k c) by (first [intros ->; apply Hp; apply list_elem_of_fmap; by exists (js "__proto__", x)|by right]).
      cbn [result_bind]. unfold obj_set. rewrite obj_middle_get by done. by rewrite obj_middle_update.
  - rewrite gstep_gone by done. cbn [snd foldR]. rewrite run_remove_key by (unfold obj_keys; rewrite fmap_app; cbn; set_solver).
    cbn. by rewrite obj_middle_delete.
Qed.

Lemma gadds_obj o t : doc_ok (JObj t) ->
  gadds (JObj o) (JObj t) = (λ kv : list Z * jval, ([kv.1], GAdd kv.2)) <$> List.filter (λ kv, match obj_get o kv.1 with Some _ => false | None => true end) t.
Proof.
  intros (Hn & _ & Hv)%doc_ok_obj. unfold gadds, objectKeys. cbn [entries].
  assert (G : ∀ s, (∀ kv, kv ∈ s -> kv ∈ t) -> omap (λ p, match obj_get o p with
    | Some _ => None
    | None => if decide (own (JObj t) p = JUndef) then None else Some ([p], GAdd (deepClone (own (JObj t) p))) end) (obj_keys s)
    = (λ kv : list Z * jval, ([kv.1], GAdd kv.2)) <$> List.filter (λ kv, match obj_get o kv.1 with Some _ => false | None => true end) s).
  { induction s as [|[k y] s IHs]; intros Hs; [done|]. unfold obj_keys in *. cbn [fmap list_fmap omap list_omap fst List.filter].
    destruct (obj_get o k); [apply IHs; set_solver|].
    assert (Hy : own (JObj t) k = y) by (apply own_child, obj_get_in; [done|]; apply Hs; set_solver).
    rewrite Forall_forall in Hv. assert (Hok : doc_ok y) by (apply (Hv (k, y)), Hs; set_solver).
    rewrite Hy, decide_False, clone_id by (done || by apply doc_ok_defined). cbn [fmap list_fmap fst snd]. f_equal. apply IHs. set_solver. }
  by apply G.
Qed.

Lemma gen_objects o t : doc_ok (JObj o) -> doc_ok (JObj t) -> aligned (JObj o) (JObj t) -> (Qs.jdepth (JObj o) <= S fuel)%nat ->
  ∃ d, run (JObj o) (gen (S fuel) (JObj o) (JObj t)) = Ok d /\ jeq d (JObj t).
Proof.
  intros Ho Ht Hal Hd. assert (Ho' := Ho). assert (Ht' := Ht). apply doc_ok_obj in Ho' as (Hno & _ & Hvo). apply doc_ok_obj in Ht' as (Hnt & Hpt & Hvt).
  rewrite gadds_flag by done. rewrite run_app, <- list_fmap_compose.
  assert (R := run_keys (λ k, snd (gstep fuel (JObj o) (JObj t) k)) (λ k x, patched fuel x <$> obj_get t k) o []).
  rewrite app_nil_r in R. unfold objectKeys, compose. cbn [entries].
  rewrite R; [clear R; cbn [result_bind]; rewrite app_nil_r|intros; by apply run_gstep_key|done].
  set (a := omap _ o).
  assert (Hga : ∀ k, obj_get a k = match obj_get o k with Some x => patched fuel x <$> obj_get t k | None => None end).
  { intros k. by apply (obj_get_omap (λ k x, patched fuel x <$> obj_get t k)). }
  assert (Hna : NoDup (obj_keys a)).
  { assert (Sub : sublist (obj_keys a) (obj_keys o)); [|exact (sublist_NoDup _ _ Hno Sub)].
    subst a. clear. induction o as [|[k x] o IHo]; [constructor|]. cbn [omap list_omap fst snd].
    destruct (patched fuel x <$> obj_get t k); cbn; by constructor. }
  rewrite gadds_obj by done. set (b := List.filter _ t).
  assert (Hb : ∀ kv, kv ∈ b -> kv ∈ t /\ obj_get o kv.1 = None).
  { intros kv Hkv%list_elem_of_In. apply filter_In in Hkv as [H1%list_elem_of_In H2]. by destruct (obj_get o kv.1). }
  destruct (run_adds b a) as (a' & -> & Hn' & Hg); [done| |].
  { intros (kv & E & Hkv)%list_elem_of_fmap. apply Hpt, list_elem_of_fmap. exists kv. split; [done|]. by apply Hb. }
  exists (JObj a'). split; [done|]. apply jeq_obj; [done|]. intros k. rewrite Hg.
  destruct (obj_get (reverse b) k) as [y|] eqn:Eb.
  - apply obj_get_elem, elem_of_reverse, Hb in Eb as [Hin _]. rewrite (obj_get_in t k y) by done. cbn.
    apply jeq_refl. rewrite Forall_forall in Hvt. by apply (Hvt (k, y)).
  - rewrite Hga. destruct (obj_get o k) as [x|] eqn:Ex; destruct (obj_get t k) as [c|] eqn:Ec; cbn; try done.
    + rewrite Forall_forall in Hvo, Hvt. assert (Hin := obj_get_elem _ _ _ Ex).
      apply patched_ok; [by apply (Hvo (k, x))|by apply (Hvt (k, c)), obj_get_elem|by eapply aligned_obj|].
      apply (jdepth_entries (JObj o)) in Hin. cbn in *. lia.
    + apply obj_get_None in Eb. apply Eb, list_elem_of_fmap. exists (k, c). split; [done|]. apply elem_of_reverse, list_elem_of_In, filter_In.
      split; [by apply list_elem_of_In, obj_get_elem|]. cbn. by rewrite Ex.
Qed.

Lemma child_dec m i : child (JArr m) (dec (Z.of_nat i)) = m !! i.
Proof.
  destruct (m !! i) as [c|] eqn:E; [apply child_arr; eauto|]. destruct (child (JArr m) (dec (Z.of_nat i))) as [c|] eqn:Ec; [|done].
  apply child_arr in Ec as (j & Hj & Hc). apply dec_inj in Hj; [|lia..]. apply Nat2Z.inj in Hj as <-. congruence.
Qed.
Lemma objectKeys_arr l : objectKeys (JArr l) = (λ i, dec (Z.of_nat i)) <$> seq 0 (length l).
Proof.
  unfold objectKeys, obj_keys, entries. apply list_eq. intros i. rewrite !list_lookup_fmap, list_lookup_imap.
  destruct (l !! i) as [x|] eqn:E.
  - rewrite lookup_seq_lt by (by eapply lookup_lt_Some). done.
  - rewrite lookup_seq_ge by (by apply lookup_ge_None). done.
Qed.

(** The operations of one index of an array. *)
Lemma run_gstep_index l m i x b : doc_ok (JArr l) -> doc_ok (JArr m) -> aligned (JArr l) (JArr m) ->
  (Qs.jdepth (JArr l) <= S fuel)%nat -> l !! i = Some x -> len (take i l ++ x :: b) < 2147483648 ->
  run (JArr (take i l ++ x :: b)) (snd (gstep fuel (JArr l) (JArr m) (dec (Z.of_nat i))))
    = Ok (JArr (take i l ++ match patched fuel x <$> m !! i with Some y => y :: b | None => b end)).
Proof.
  intros Hl Hm Hal Hd Hx Hb. assert (Hl' := Hl). assert (Hm' := Hm). apply doc_ok_arr in Hl' as [_ Hvl]. apply doc_ok_arr in Hm' as [_ Hvm].
  assert (Hok : doc_ok x) by (by eapply Forall_lookup_1 in Hvl). assert (Hi : (i < length l)%nat) by (by eapply lookup_lt_Some).
  assert (Hlen : length (take i l) = i) by (rewrite length_take; lia).
  assert (Hx' : (take i l ++ x :: b) !! i = Some x) by (by rewrite lookup_app_r, Hlen, Nat.sub_diag by lia).
  assert (Hins : ∀ y, <[i := y]> (take i l ++ x :: b) = take i l ++ y :: b).
  { intros y. rewrite insert_app_r_alt by lia. by rewrite Hlen, Nat.sub_diag. }
  assert (Hlt : (i < length (take i l ++ x :: b))%nat) by (by eapply lookup_lt_Some).
  destruct (m !! i) as [c|] eqn:Ec; cbn [fmap option_fmap option_map].
  - assert (Hc : doc_ok c) by (by eapply Forall_lookup_1 in Hvm).
    rewrite (gstep_kept fuel _ _ _ x c); [|by rewrite child_dec|by rewrite child_dec|done]. cbn [snd].
    destruct (patched_ok x c) as [_ Hrun]; [done|done|by eapply aligned_arr| |].
    { assert (Hin : (dec (Z.of_nat i), x) ∈ entries (JArr l)) by (apply (list_elem_of_lookup_2 _ i); by rewrite entries_arr_lookup, Hx).
      apply jdepth_entries in Hin. cbn [snd] in Hin. lia. }
    destruct (is_container x && is_container c) eqn:Eb.
    + rewrite (run_below _ _ x); [|exact Hb|by rewrite child_dec|apply gen_paths]. rewrite Hrun by done. cbn [result_bind set_child].
      rewrite parse_dec_dec by lia. by rewrite arr_set_nat, Hins.
    + unfold patched. rewrite Eb. destruct (strict_eq x c) eqn:Es; [by apply strict_eq_eq in Es as ->|]. cbn [foldR].
      rewrite run_replace_index by done. cbn. by rewrite Hins.
  - rewrite gstep_gone by (by rewrite child_dec). cbn [snd foldR]. rewrite run_remove_index by done. cbn [result_bind].
    rewrite <- Hlen at 1. rewrite take_app_length. rewrite drop_app_ge by lia. rewrite Hlen. by replace (S i - i)%nat with 1%nat by lia.
Qed.

Lemma patched_elements (P : jval -> jval -> jval) l m : (∀ i x c, l !! i = Some x -> m !! i = Some c -> jeq (P x c) c) ->
  Forall2 jeq (concat (imap (λ i x, match P x <$> m !! i with Some y => [y] | None => [] end) l)) (take (length l) m).
Proof.
  revert m. induction l as [|x l IHl]; intros m H; [constructor|]. rewrite imap_cons. cbn [concat length].
  destruct m as [|c m].
  - cbn. assert (E : concat (imap ((λ i x, match P x <$> @nil jval !! i with Some y => [y] | None => [] end) ∘ S) l) = []); [|by rewrite E].
    clear. generalize S. induction l as [|x l IHl]; intros f; [done|]. rewrite imap_cons. unfold compose at 1. rewrite lookup_nil. cbn. apply (IHl (f ∘ S)).
  - cbn [take lookup list_lookup fmap option_fmap option_map app]. constructor; [by apply (H O)|]. apply IHl. intros i y d Hy Hd. by apply (H (S i)).
Qed.

Lemma gadds_arr l m : doc_ok (JArr m) ->
  gadds (JArr l) (JArr m) = imap (λ j y, ([dec (Z.of_nat (length l + j))], GAdd y)) (drop (length l) m).
Proof.
  intros [_ Hv]%doc_ok_arr. unfold gadds. rewrite objectKeys_arr.
  assert (A : ∀ n k, (n + k <= length l)%nat -> omap (λ p, match obj_get (entries (JArr l)) p with
    | Some _ => None
    | None => if decide (own (JArr m) p = JUndef) then None else Some ([p], GAdd (deepClone (own (JArr m) p))) end)
      ((λ i, dec (Z.of_nat i)) <$> seq n k) = []).
  { intros n k. revert n. induction k as [|k IHk]; intros n Hk; [done|]. cbn [seq fmap list_fmap omap list_omap].
    destruct (lookup_lt_is_Some_2 l n) as [x Hx]; [lia|]. assert (Hc := child_dec l n). rewrite Hx in Hc. unfold child in Hc. rewrite Hc.
    apply IHk. lia. }
  assert (B : ∀ r n, drop n m = r -> (length l <= n)%nat -> omap (λ p, match obj_get (entries (JArr l)) p with
    | Some _ => None
    | None => if decide (own (JArr m) p = JUndef) then None else Some ([p], GAdd (deepClone (own (JArr m) p))) end)
      ((λ i, dec (Z.of_nat i)) <$> seq n (length r)) = imap (λ j y, ([dec (Z.of_nat (n + j))], GAdd y)) r).
  { induction r as [|y r IHr]; intros n Hr Hn; [done|]. cbn [length seq fmap list_fmap omap list_omap]. rewrite imap_cons.
    assert (Hy : m !! n = Some y) by (rewrite <- (Nat.add_0_r n), <- lookup_drop, Hr; done).
    assert (Hc := child_dec l n). rewrite lookup_ge_None_2 in Hc by lia. unfold child in Hc. rewrite Hc.
    assert (Hok : doc_ok y) by (by eapply Forall_lookup_1 in Hv).
    assert (Ho : own (JArr m) (dec (Z.of_nat n)) = y) by (apply own_child; by rewrite child_dec).
    rewrite Ho, decide_False, clone_id by (done || by apply doc_ok_defined). rewrite Nat.add_0_r. f_equal.
    rewrite IHr; [|by rewrite <- Nat.add_1_r, <- drop_drop, Hr|lia]. apply imap_ext. intros j z _. unfold compose.
    by replace (S n + j)%nat with (n + S j)%nat by lia. }
  destruct (decide (length m <= length l)%nat).
  - rewrite A by lia. by rewrite drop_ge by lia.
  - replace (length m) with (length l + length (drop (length l) m))%nat by (rewrite length_drop; lia).
    rewrite seq_app, fmap_app, omap_app, A by lia. cbn [app]. by apply B.
Qed.

Lemma gen_arrays l m : doc_ok (JArr l) -> doc_ok (JArr m) -> aligned (JArr l) (JArr m) -> (Qs.jdepth (JArr l) <= S fuel)%nat ->
  ∃ d, run (JArr l) (gen (S fuel) (JArr l) (JArr m)) = Ok d /\ jeq d (JArr m).
Proof.
  intros Hl Hm Hal Hd. assert (Hl' := Hl). assert (Hm' := Hm). apply doc_ok_arr in Hl' as [Hll Hvl]. apply doc_ok_arr in Hm' as [Hlm Hvm].
  rewrite gadds_flag by (by apply entries_nodup). rewrite run_app, gadds_arr by done.
  assert (R := run_elements (λ i, snd (gstep fuel (JArr l) (JArr m) (dec (Z.of_nat i)))) (λ i x, patched fuel x <$> m !! i) l []).
  rewrite app_nil_r in R. rewrite objectKeys_arr, <- fmap_reverse, <- !list_fmap_compose. unfold compose.
  rewrite R; [clear R; cbn [result_bind]; rewrite app_nil_r|intros; by apply run_gstep_index|done].
  set (l' := concat _).
  assert (Hj : Forall2 jeq l' (take (length l) m)).
  { apply (patched_elements (patched fuel)). intros i x c Hx Hc. apply patched_ok.
    - by eapply Forall_lookup_1 in Hvl.
    - by eapply Forall_lookup_1 in Hvm.
    - by eapply aligned_arr.
    - assert (Hin : (dec (Z.of_nat i), x) ∈ entries (JArr l)) by (apply (list_elem_of_lookup_2 _ i); by rewrite entries_arr_lookup, Hx).
      apply jdepth_entries in Hin. cbn [snd] in Hin. lia. }
  assert (Hlen := Forall2_length _ _ _ Hj). rewrite length_take in Hlen.
  assert (E : imap (λ j y, ([dec (Z.of_nat (length l + j))], GAdd y)) (drop (length l) m)
    = imap (λ j y, ([dec (Z.of_nat (length l' + j))], GAdd y)) (drop (length l) m)).
  { destruct (decide (length m <= length l)%nat); [by rewrite drop_ge by lia|]. by replace (length l') with (length l) by lia. }
  rewrite E, run_appends.
  - eexists. split; [done|]. apply jeq_arr. rewrite <- (take_drop (length l) m) at 2. apply Forall2_app; [done|].
    apply Forall_drop with (n := length l) in Hvm. revert Hvm. generalize (drop (length l) m). clear.
    induction 1; constructor; [by apply jeq_refl|done].
  - unfold len in *. rewrite length_app, length_drop. lia.
Qed.
End level.

Lemma gen_correct fuel : generates fuel.
Proof.
  induction fuel as [|fuel IH]; intros e t He Ht Hal H1 H2 Hd.
  - destruct e; cbn in *; try done; lia.
  - destruct e, t; try done; [by apply gen_arrays|by apply gen_objects].
Qed.

(** C10. The patch that [compare] generates is right for aligned documents: for
    any two documents that are arrays or objects and have arrays in the same
    places (wherever both have an array or an object, both have the same),
    applying the patch to the first succeeds and gives the second, up to the
    order of the names of objects. Of other documents it can be wrong: [compare]
    descends into an array and an object as if they were alike
    ([compare_confuses]). *)
Theorem compare_apply e t : doc_ok e -> doc_ok t -> aligned e t -> is_container e = true -> is_container t = true ->
  ∃ d i, applyPatch e (JArr (JObj <$> compare e t)) false true = (d, Ok i) /\ jeq d t.
Proof.
  intros He Ht Hal H1 H2. destruct (gen_correct (Qs.jdepth e) e t He Ht Hal H1 H2) as (d & Hr & Hj); [done|].
  destruct (apply_ops_run _ e d [] (gen_paths _ e t) Hr) as (i & Hi). exists d, i. split; [|done].
  unfold applyPatch, compare. change (@nil Z) with (ptr []). rewrite generate_gen. exact Hi.
Qed.

Lemma compare_apply_witness : ∃ d i,
  applyPatch (JObj [(js "a/b", JArr [JNum 1; JObj [(js "x", JNull)]]); (js "c", JNum 0)])
    (JArr (JObj <$> compare (JObj [(js "a/b", JArr [JNum 1; JObj [(js "x", JNull)]]); (js "c", JNum 0)])
      (JObj [(js "d", JStr (js "new")); (js "a/b", JArr [JNum 2; JObj []; JBool true])]))) false true = (d, Ok i) /\
  jeq d (JObj [(js "d", JStr (js "new")); (js "a/b", JArr [JNum 2; JObj []; JBool true])]).
Proof.
  apply compare_apply; [| |vm_compute; repeat split|done|done].
  all: apply doc_ok_obj; split_and!; [apply (bool_decide_unpack _); vm_compute; exact I|apply (bool_decide_unpack _); vm_compute; exact I|].
  all: repeat apply Forall_cons_2; try apply Forall_nil_2; try exact I.
  all: apply doc_ok_arr; split; [vm_compute; reflexivity|]; repeat apply Forall_cons_2; try apply Forall_nil_2; try exact I.
  all: apply doc_ok_obj; split_and!; [apply (bool_decide_unpack _); vm_compute; exact I|apply (bool_decide_unpack _); vm_compute; exact I|].
  all: repeat apply Forall_cons_2; try apply Forall_nil_2; exact I.
Defined.

End PatchOk.
