(* ===== verification/Ruler.v ===== *)
(** The rule lists of the Markdown parser remarkable as bundled
    (client/docs/swagger-ui/swagger-ui-bundle.js, lines 6520-6591): named rules
    in an order, on or off, each in the main chain and in the alternative chains
    it names. What a chain consists of is cached until the rules change.

    A rule's function is a value of a type [F]. A chain that is not in the cache
    has no rules; the names of chains are not those of the properties that every
    object inherits. *)

From stdpp Require Import base list list_numbers numbers strings gmap.
From Stdlib Require Import ZArith Lia.
From S2P Require Import Prelude.

Module Ruler.
Section ruler.
Context {F : Type}.

Record rule := Rule { name : list Z; enabled : bool; fn : F; alt : list (list Z) }.

Record ruler := Ruler { rules : list rule; cache : option (list (list Z * list F)) }.

Definition new_ruler : ruler := Ruler [] None.

(** [__find__]; [None] is -1. *)
Fixpoint find (e : list Z) (l : list rule) : option nat :=
  match l with [] => None | r :: l => if bool_decide (name r = e) then Some 0%nat else S <$> find e l end.

(** ** The cache *)

(** The names of the chains: the main chain and what the rules that are on
    name, each once. *)
Definition chain_names (l : list rule) : list (list Z) :=
  foldl (λ t r, if enabled r then foldl (λ t e, if bool_decide (e ∈ t) then t else t ++ [e]) t (alt r) else t) [[]] l.

Definition chain_rules (l : list rule) (t : list Z) : list F :=
  foldl (λ fs n, if enabled n then if negb (bool_decide (t = [])) && negb (bool_decide (t ∈ alt n)) then fs else fs ++ [fn n] else fs) [] l.

Definition compile (s : ruler) : ruler :=
  Ruler (rules s) (Some ((λ t, (t, chain_rules (rules s) t)) <$> chain_names (rules s))).

Fixpoint cache_get (c : list (list Z * list F)) (e : list Z) : list F :=
  match c with [] => [] | (t, fs) :: c => if bool_decide (t = e) then fs else cache_get c e end.

Definition getRules (s : ruler) (e : list Z) : ruler * list F :=
  let s := match cache s with None => compile s | Some _ => s end in
  (s, match cache s with Some c => cache_get c e | None => [] end).

(** ** Changes *)

Definition not_found (e : list Z) : exn := PlainError (js "Parser rule not found: " ++ e).
Definition invalid_name (e : list Z) : exn := PlainError (js "Rules manager: invalid rule name " ++ e).

Definition at_ (s : ruler) (e : list Z) (t : F) (n : option (list (list Z))) : ruler * result unit :=
  match find e (rules s) with
  | None => (s, Throw (not_found e))
  | Some r => (Ruler (alter (λ x, Rule (name x) (enabled x) t (default [] n)) r (rules s)) None, Ok tt)
  end.
(** [splice(i, 0, rule)] *)
Definition insert_at (i : nat) (x : rule) (l : list rule) : list rule := take i l ++ x :: drop i l.
Definition before (s : ruler) (e t : list Z) (n : F) (r : option (list (list Z))) : ruler * result unit :=
  match find e (rules s) with
  | None => (s, Throw (not_found e))
  | Some o => (Ruler (insert_at o (Rule t true n (default [] r)) (rules s)) None, Ok tt)
  end.
Definition after (s : ruler) (e t : list Z) (n : F) (r : option (list (list Z))) : ruler * result unit :=
  match find e (rules s) with
  | None => (s, Throw (not_found e))
  | Some o => (Ruler (insert_at (o + 1) (Rule t true n (default [] r)) (rules s)) None, Ok tt)
  end.
Definition push (s : ruler) (e : list Z) (t : F) (n : option (list (list Z))) : ruler * result unit :=
  (Ruler (rules s ++ [Rule e true t (default [] n)]) None, Ok tt).

Definition switch (b : bool) (x : rule) : rule := Rule (name x) b (fn x) (alt x).

(** The loop of [enable] and [disable]; an unknown name ends it. *)
Fixpoint switch_all (b : bool) (es : list (list Z)) (l : list rule) : list rule * result unit :=
  match es with
  | [] => (l, Ok tt)
  | e :: es => match find e l with
               | None => (l, Throw (invalid_name e))
               | Some t => switch_all b es (alter (switch b) t l)
               end
  end.
(** The cache is dropped at the end, so not after an error. *)
Definition switched (s : ruler) (r : list rule * result unit) : ruler * result unit :=
  (Ruler r.1 (match r.2 with Ok _ => None | Throw _ => cache s end), r.2).

Definition enable (s : ruler) (e : list (list Z)) (t : bool) : ruler * result unit :=
  switched s (switch_all true e (if t then switch false <$> rules s else rules s)).
Definition disable (s : ruler) (e : list (list Z)) : ruler * result unit := switched s (switch_all false e (rules s)).

(** ** Histories *)

Inductive op :=
  | At (e : list Z) (t : F) (n : option (list (list Z)))
  | Before (e t : list Z) (n : F) (r : option (list (list Z)))
  | After (e t : list Z) (n : F) (r : option (list (list Z)))
  | Push (e : list Z) (t : F) (n : option (list (list Z)))
  | Enable (e : list (list Z)) (t : bool)
  | Disable (e : list (list Z))
  | GetRules (e : list Z).

Definition step (s : ruler) (o : op) : ruler * result unit :=
  match o with
  | At e t n => at_ s e t n
  | Before e t n r => before s e t n r
  | After e t n r => after s e t n r
  | Push e t n => push s e t n
  | Enable e t => enable s e t
  | Disable e => disable s e
  | GetRules e => ((getRules s e).1, Ok tt)
  end.

(** The states that are reached when [enable] and [disable] find their rules;
    other operations may throw. *)
Inductive reachable : ruler -> Prop :=
  | reachable_new : reachable new_ruler
  | reachable_op s o s' r : reachable s -> step s o = (s', r) ->
      (match o, r with Enable _ _, Throw _ | Disable _, Throw _ => False | _, _ => True end) -> reachable s'.

(** ** Correctness *)

(** Whether a rule is in a chain. *)
Definition in_chain (e : list Z) (x : rule) : Prop := enabled x = true /\ (e = [] \/ e ∈ alt x).
#[global] Instance in_chain_dec e x : Decision (in_chain e x).
Proof. apply _. Defined.

Lemma chain_rules_spec l t : chain_rules l t = fn <$> filter (in_chain t) l.
Proof.
  unfold chain_rules. assert (G : ∀ fs, foldl (λ fs n, if enabled n then if negb (bool_decide (t = [])) && negb (bool_decide (t ∈ alt n)) then fs else fs ++ [fn n] else fs) fs l =
    fs ++ (fn <$> filter (in_chain t) l)); [|apply G].
  induction l as [|x l IH]; intros fs; [by rewrite app_nil_r|]. cbn [foldl]. rewrite IH, filter_cons.
  destruct (enabled x) eqn:Ee; [|rewrite (decide_False (P := in_chain t x)) by (unfold in_chain; rewrite Ee; naive_solver); done].
  destruct (decide (t = [])) as [E|E].
  { rewrite bool_decide_true, (decide_True (P := in_chain t x)) by (done || (unfold in_chain; auto)). cbn. by rewrite <- app_assoc. }
  rewrite (bool_decide_false (t = [])) by done. destruct (decide (t ∈ alt x)).
  - rewrite bool_decide_true, (decide_True (P := in_chain t x)) by (done || (unfold in_chain; auto)). cbn. by rewrite <- app_assoc.
  - rewrite bool_decide_false, (decide_False (P := in_chain t x)) by (done || (unfold in_chain; naive_solver)). done.
Qed.

(** Every chain that a rule is in has a name in the cache. *)
Lemma names_grow (es : list (list Z)) t x : x ∈ t \/ x ∈ es -> x ∈ foldl (λ t e, if bool_decide (e ∈ t) then t else t ++ [e]) t es.
Proof.
  revert t. induction es as [|e es IH]; intros t Hx; [by destruct Hx as [|?%not_elem_of_nil]|]. cbn. apply IH. destruct Hx as [Hx|Hx].
  - left. destruct (bool_decide _); [done|]. apply elem_of_app. by left.
  - apply elem_of_cons in Hx as [->|Hx]; [left|by right]. destruct (bool_decide (e ∈ t)) eqn:E; [by apply bool_decide_eq_true in E|]. apply elem_of_app. right. by apply list_elem_of_singleton.
Qed.
Lemma chain_named l e x : x ∈ l -> in_chain e x -> e ∈ chain_names l.
Proof.
  unfold chain_names. assert (G : ∀ t, [] ∈ t -> (e ∈ t \/ ∃ x, x ∈ l /\ in_chain e x) ->
    e ∈ foldl (λ t r, if enabled r then foldl (λ t e, if bool_decide (e ∈ t) then t else t ++ [e]) t (alt r) else t) t l).
  { induction l as [|r l IH]; intros t H0 He; [destruct He as [|(? & ?%not_elem_of_nil & _)]; done|]. cbn. apply IH.
    - destruct (enabled r); [|done]. apply names_grow. by left.
    - destruct He as [He|(y & [->|Hy]%elem_of_cons & Hc)]; [left; destruct (enabled r); [apply names_grow; by left|done]| |right; by exists y].
      destruct Hc as [-> [->|Hc]]; left; apply names_grow; [by left|by right]. }
  intros Hx Hc. apply G; [by apply list_elem_of_singleton|]. right. by exists x.
Qed.

Lemma cache_get_spec l ts e : cache_get ((λ t, (t, chain_rules l t)) <$> ts) e = if decide (e ∈ ts) then chain_rules l e else [].
Proof.
  induction ts as [|t ts IH]; [done|]. cbn. destruct (decide (t = e)) as [->|Hne]; [rewrite bool_decide_true, decide_True by (done || left); done|].
  rewrite bool_decide_false, IH by done. destruct (decide (e ∈ ts)); [rewrite decide_True by (by right); done|]. rewrite decide_False; [done|]. intros [|]%elem_of_cons; congruence.
Qed.

Definition cached_ok (s : ruler) : Prop := cache s = None \/ cache s = cache (compile s).

Lemma getRules_spec s e : cached_ok s -> (getRules s e).2 = fn <$> filter (in_chain e) (rules s).
Proof.
  intros Hs. assert (E : (getRules s e).2 = cache_get ((λ t, (t, chain_rules (rules s) t)) <$> chain_names (rules s)) e).
  { unfold getRules. destruct (cache s) as [c|] eqn:Ec; [|done]. destruct Hs as [|Hs]; [congruence|]. rewrite Ec in Hs. injection Hs as Hs. cbn [snd]. by rewrite Ec, Hs. }
  rewrite E, cache_get_spec, chain_rules_spec. destruct (decide _) as [|Hn]; [done|]. destruct (filter (in_chain e) (rules s)) as [|x l] eqn:Ef; [done|].
  exfalso. apply Hn. assert (Hx : x ∈ filter (in_chain e) (rules s)) by (rewrite Ef; left). apply list_elem_of_filter in Hx as [Hc Hx]. by apply (chain_named _ e x).
Qed.

Lemma step_cached s o s' r : cached_ok s -> step s o = (s', r) ->
  (match o, r with Enable _ _, Throw _ | Disable _, Throw _ => False | _, _ => True end) -> cached_ok s'.
Proof.
  intros Hs H Hr. destruct o; cbn [step] in H; unfold at_, before, after, push, enable, disable, switched in H.
  1,2,3: destruct (find e (rules s)); injection H as <- <-; [by left|done].
  - injection H as <- <-. by left.
  - destruct (switch_all _ _ _) as [l [u|x]]; injection H as <- <-; [by left|done].
  - destruct (switch_all _ _ _) as [l [u|x]]; injection H as <- <-; [by left|done].
  - injection H as <- <-. unfold getRules. destruct Hs as [Hs|Hs]; [|by right; destruct (cache s) eqn:E; cbn; rewrite ?E].
    rewrite Hs. by right.
Qed.
Lemma reachable_cached s : reachable s -> cached_ok s.
Proof. induction 1 as [|s o s' r _ IH H Hr]; [by left|by eapply step_cached]. Qed.

(** C36. The cache of the rules cannot be seen: whatever rules were added,
    replaced, switched on and off and read before, as long as [enable] and
    [disable] found the rules they were given, [getRules] returns the functions
    of the rules that are on and in the chain, in the order of the rules. *)
Theorem ruler_transparent s e : reachable s -> (getRules s e).2 = fn <$> filter (in_chain e) (rules s).
Proof. intros Hs. apply getRules_spec. by apply reachable_cached. Qed.

(** A history as a list. *)
Fixpoint all_found (s : ruler) (os : list op) : bool :=
  match os with
  | [] => true
  | o :: os => let '(s', r) := step s o in match o, r with Enable _ _, Throw _ | Disable _, Throw _ => false | _, _ => all_found s' os end
  end.
Lemma run_reachable s os : reachable s -> all_found s os = true -> reachable (foldl (λ s o, (step s o).1) s os).
Proof.
  revert s. induction os as [|o os IH]; intros s Hs H; [done|]. cbn [foldl all_found] in *. destruct (step s o) as [s' r] eqn:E. cbn [fst snd] in *.
  assert (Hok : all_found s' os = true /\ match o, r with Enable _ _, Throw _ | Disable _, Throw _ => False | _, _ => True end) by (destruct o, r; done).
  apply IH; [|by destruct Hok]. by eapply reachable_op; [exact Hs|exact E|destruct Hok].
Qed.

End ruler.
Arguments rule : clear implicits.
Arguments ruler : clear implicits.
Arguments op : clear implicits.

Definition sample_ops : list (op Z) :=
  [Push (js "a") 1 None; Push (js "b") 2 (Some [js "x"]); GetRules []; Before (js "b") (js "c") 3 (Some [js "x"; js "y"]); Disable [js "a"]].
Definition sample_ruler : ruler Z := foldl (λ s o, (step s o).1) new_ruler sample_ops.

Lemma ruler_transparent_witness : (getRules sample_ruler (js "x")).2 = [3; 2].
Proof.
  refine (eq_trans (ruler_transparent sample_ruler (js "x") _) _); [|vm_compute; reflexivity].
  apply run_reachable; [apply reachable_new|vm_compute; reflexivity].
Defined.

(** After an error of [enable] the cache is out of date: the rules are off, and
    still returned. *)
Example enable_stale :
  let s := (getRules sample_ruler []).1 in
  let '(s', r) := enable s [js "?"] true in
  r = Throw (invalid_name (js "?")) /\ enabled <$> rules s' = [false; false; false] /\ (getRules s' []).2 = [3; 2].
Proof. vm_compute. repeat split. Qed.

End Ruler.
