(* ===== verification/Im.v ===== *)
(** Immutable collections as the state of Swagger UI uses them, in the bundle
    client/docs/swagger-ui/swagger-ui-bundle.js: reads and updates along a path
    (Immutable lines 732-760 and 2326-2353), merging (885-920), conversion from
    plain values (381-401 and 2691-2695).

    A [Map] or [OrderedMap] is the list of its entries (ImmMapOk shows that the
    trie behind a [Map] is such a finite map), a [List] or [Set] the list of its
    elements (ImmListOk shows it of the trie behind a [List], up to elements
    left behind by a cut when a list is made longer with undefined elements); [VObj] and [VArr] are plain objects and arrays. Keys are
    primitives and lists of them. Where the code compares collections by
    identity to see that nothing changed, equality stands for identity. *)

From stdpp Require Import base list list_numbers numbers strings gmap.
From Stdlib Require Import ZArith Lia.
From S2P Require Import Prelude Json.

Module Im.

#[warnings="-register-all"]
Inductive value :=
  | VUndef
  | VNull
  | VBool (b : bool)
  | VNum (z : Z)
  | VStr (s : list Z)
  | VMap (ordered : bool) (m : list (value * value))
  | VList (l : list value)
  | VSet (l : list value)
  | VObj (o : list (list Z * value))
  | VArr (l : list value).

#[global] Instance value_eq_dec : EqDecision value.
Proof.
  unfold EqDecision, RelDecision, Decision. fix IH 1. intros x y.
  assert (L : ∀ l m : list value, {l = m} + {l ≠ m}).
  { fix IHl 1. intros [|a l] [|b m]; [by left|by right|by right|]. destruct (IH a b), (IHl l m); [left|right|right|right]; congruence. }
  destruct x, y; try (right; discriminate); try (left; reflexivity).
  - destruct (decide (b = b0)); [left|right]; congruence.
  - destruct (decide (z = z0)); [left|right]; congruence.
  - destruct (decide (s = s0)); [left|right]; congruence.
  - assert (D : {m = m0} + {m ≠ m0}).
    { clear L. revert m0. induction m as [|[k a] m IHm]; intros [|[j b] m0]; [by left|by right|by right|].
      destruct (IH k j), (IH a b), (IHm m0); [left|right|right|right|right|right|right|right]; congruence. }
    destruct (decide (ordered = ordered0)), D; [left|right|right|right]; congruence.
  - destruct (L l l0); [left|right]; congruence.
  - destruct (L l l0); [left|right]; congruence.
  - assert (D : {o = o0} + {o ≠ o0}).
    { clear L. revert o0. induction o as [|[k a] o IHo]; intros [|[j b] o0]; [by left|by right|by right|].
      destruct (decide (k = j)), (IH a b), (IHo o0); [left|right|right|right|right|right|right|right]; congruence. }
    destruct D; [left|right]; congruence.
  - destruct (L l l0); [left|right]; congruence.
Defined.

Lemma value_ind' (P : value -> Prop) :
  P VUndef -> P VNull -> (∀ b, P (VBool b)) -> (∀ z, P (VNum z)) -> (∀ s, P (VStr s)) ->
  (∀ o m, Forall (λ kv, P kv.1 /\ P kv.2) m -> P (VMap o m)) -> (∀ l, Forall P l -> P (VList l)) ->
  (∀ l, Forall P l -> P (VSet l)) -> (∀ o, Forall (λ kv, P kv.2) o -> P (VObj o)) ->
  (∀ l, Forall P l -> P (VArr l)) -> ∀ v, P v.
Proof.
  intros H1 H2 H3 H4 H5 H6 H7 H8 H9 H10. fix IH 1.
  assert (L : ∀ l, Forall P l) by (fix IHl 1; intros [|x l]; [apply Forall_nil_2|apply Forall_cons_2; [apply IH|apply IHl]]).
  intros [| |b|z|s|o m|l|l|o|l]; [assumption|assumption|apply H3|apply H4|apply H5|apply H6|by apply H7|by apply H8|apply H9|by apply H10].
  - induction m as [|[k x] m IHm]; [apply Forall_nil_2|apply Forall_cons_2; [split; apply IH|apply IHm]].
  - induction o as [|[k x] o IHo]; [apply Forall_nil_2|apply Forall_cons_2; [apply IH|apply IHo]].
Qed.

Abbreviation entries := (list (value * value)) (only parsing).

(** The key and value of a text. *)
Definition str (s : string) : value := VStr (js s).
Definition emptyMap : value := VMap false [].
Definition emptyOrderedMap : value := VMap true [].
Definition emptyList : value := VList [].

Definition truthy (v : value) : bool :=
  match v with
  | VUndef | VNull => false
  | VBool b => b
  | VNum z => negb (z =? 0)
  | VStr s => match s with [] => false | _ => true end
  | _ => true
  end.
(** [a || b] *)
Definition vor (a b : value) : value := if truthy a then a else b.

(** [String(v)], as in [v + e], with [e] the empty string; no collection of Immutable is ever converted. *)
Fixpoint to_text (v : value) : list Z :=
  match v with
  | VUndef => js "undefined"
  | VNull => js "null"
  | VBool b => if b then js "true" else js "false"
  | VNum z => Json.num_to_string z
  | VStr s => s
  | VArr l => Json.join [44] ((λ x, match x with VUndef | VNull => [] | _ => to_text x end) <$> l)
  | _ => js "[object Object]"
  end.

Definition isMap (v : value) : bool := match v with VMap _ _ => true | _ => false end.
Definition isList (v : value) : bool := match v with VList _ => true | _ => false end.
Definition isIterable (v : value) : bool := match v with VMap _ _ | VList _ | VSet _ => true | _ => false end.

(** ** Finite maps *)

Fixpoint map_get (m : entries) (k : value) : option value :=
  match m with (k', v) :: m => if decide (k = k') then Some v else map_get m k | [] => None end.
Fixpoint map_set (m : entries) (k v : value) : entries :=
  match m with
  | (k', v') :: m => if decide (k = k') then (k, v) :: m else (k', v') :: map_set m k v
  | [] => [(k, v)]
  end.
Fixpoint map_remove (m : entries) (k : value) : entries :=
  match m with (k', v) :: m => if decide (k = k') then m else (k', v) :: map_remove m k | [] => [] end.

(** ** get, set, remove *)

(** [wrapIndex]: the position an index of a list stands for; [None] is [NaN]. *)
Definition wrapIndex (size : Z) (t : value) : option Z :=
  match t with
  | VNum z => Some (if z <? 0 then size + z else z)
  | VStr s => match Json.array_index s with Some n => Some n | None => None end
  | _ => None
  end.

(** [v.get(k)] with [None] for the value that is not set; [v] has a [get]. *)
Definition im_get (v k : value) : option value :=
  match v with
  | VMap _ m => map_get m k
  | VList l => match wrapIndex (len l) k with Some i => arr_get l i | None => None end
  | VSet l => if decide (k ∈ l) then Some k else None
  | _ => None
  end.
Definition has_get (v : value) : bool := isIterable v.
Definition has_set (v : value) : bool := match v with VMap _ _ | VList _ => true | _ => false end.

Definition im_set (v k x : value) : value :=
  match v with
  | VMap o m => VMap o (map_set m k x)
  | VList l =>
      match wrapIndex (len l) k with
      | Some i => if i <? 0 then VList (x :: replicate (Z.to_nat (- i - 1)) VUndef ++ l)
                  else if i <? len l then VList (arr_set l i x)
                  else VList (l ++ replicate (Z.to_nat (i - len l)) VUndef ++ [x])
      | None => v
      end
  | _ => v
  end.
Definition im_remove (v k : value) : value :=
  match v with
  | VMap o m => VMap o (map_remove m k)
  | VList l =>
      match wrapIndex (len l) k with
      | Some i => if (0 <=? i) && (i <? len l) then VList (take (Z.to_nat i) l ++ drop (Z.to_nat (i + 1)) l) else v
      | None => v
      end
  | _ => v
  end.
Definition im_size (v : value) : Z :=
  match v with VMap _ m => len m | VList l | VSet l => len l | _ => 0 end.

Definition no_method (name : string) : exn := TypeError (js name ++ js " is not a function").

(** [v.get(k, d)]; a value without [get] throws. *)
Definition get_or (v k d : value) : result value :=
  if has_get v then Ok (default d (im_get v k)) else Throw (no_method "get").
Definition get (v : value) (k : string) : result value := get_or v (str k) VUndef.
(** [v.set(k, x)] *)
Definition set (v k x : value) : result value :=
  if has_set v then Ok (im_set v k x) else Throw (no_method "set").

(** ** Paths *)

(** The loop of [getIn]; [None] is the value that is not set. *)
Fixpoint get_in (r : value) (path : list value) : option value :=
  match path with
  | [] => Some r
  | i :: path =>
      if has_get r then match im_get r i with Some r => get_in r path | None => None end else None
  end.
(** [v.getIn(path, d)] of a collection. *)
Definition getIn (v : value) (path : list value) (d : value) : result value :=
  if has_get v then Ok (default d (get_in v path)) else Throw (no_method "getIn").
Definition hasIn (v : value) (path : list value) : result bool :=
  if has_get v then Ok (match get_in v path with Some _ => true | None => false end) else Throw (no_method "hasIn").

Definition invalid_keyPath : exn := PlainError (js "invalid keyPath").

(** The inner function of [updateIn]; [None] is the value that is not set. *)
Fixpoint updateInDeep (t : option value) (path : list value) (r : option value)
    (o : option value -> result (option value)) : result (option value) :=
  match path with
  | [] =>
      let u := match t with None => r | Some _ => t end in
      let! s := o u in
      Ok (if decide (s = u) then t else s)
  | l :: path =>
      match t with
      | Some v =>
          if negb (has_set v) then Throw invalid_keyPath
          else
            let c := im_get v l in
            let! f := updateInDeep c path r o in
            Ok (if decide (f = c) then t
                else match f with None => Some (im_remove v l) | Some x => Some (im_set v l x) end)
      | None =>
          let! f := updateInDeep None path r o in
          Ok (match f with None => None | Some x => Some (im_set emptyMap l x) end)
      end
  end.

Definition set_result (r : option value) : value := match r with None => VUndef | Some v => v end.

(** [v.updateIn(path, d, f)] and the operations made of it. *)
Definition updateIn (v : value) (path : list value) (d : value) (f : value -> result value) : result value :=
  if negb (has_set v) then Throw (no_method "updateIn")
  else let! r := updateInDeep (Some v) path (Some d) (λ u, let! x := f (set_result u) in Ok (Some x)) in
       Ok (set_result r).
Definition setIn (v : value) (path : list value) (x : value) : result value :=
  if negb (has_set v) then Throw (no_method "setIn")
  else let! r := updateInDeep (Some v) path None (λ _, Ok (Some x)) in Ok (set_result r).
Definition deleteIn (v : value) (path : list value) : result value :=
  if negb (has_set v) then Throw (no_method "deleteIn")
  else let! r := updateInDeep (Some v) path (Some VUndef) (λ _, Ok None) in Ok (set_result r).
Definition update (v k d : value) (f : value -> result value) : result value := updateIn v [k] d f.

(** ** Conversions *)

(** [fromJS]: plain arrays and objects become [List]s and [Map]s. *)
Fixpoint fromJS (v : value) : value :=
  match v with
  | VArr l => VList (fromJS <$> l)
  | VObj o => VMap false ((λ kv, match kv with (k, x) => (VStr k, fromJS x) end) <$> o)
  | v => v
  end.
(** [fromJSOrdered] of Swagger UI: the same with [OrderedMap]s. *)
Fixpoint fromJSOrdered (v : value) : value :=
  match v with
  | VArr l => VList (fromJSOrdered <$> l)
  | VObj o => VMap true ((λ kv, match kv with (k, x) => (VStr k, fromJSOrdered x) end) <$> o)
  | v => v
  end.

(** Plain objects: [o[k]], [Object.assign] and [o[k] = x]. *)
Fixpoint prop (o : list (list Z * value)) (k : list Z) : value :=
  match o with (k', v) :: o => if decide (k = k') then v else prop o k | [] => VUndef end.
Fixpoint put (o : list (list Z * value)) (k : list Z) (v : value) : list (list Z * value) :=
  match o with
  | (k', v') :: o => if decide (k = k') then (k, v) :: o else (k', v') :: put o k v
  | [] => [(k, v)]
  end.
Definition assign (t : list (list Z * value)) (s : list (list Z * value)) : list (list Z * value) :=
  foldl (λ t kv, put t kv.1 kv.2) t s.
(** [e.k] of a value; a missing property is [undefined]. *)
Definition field (v : value) (k : string) : result value :=
  match v with
  | VObj o => Ok (prop o (js k))
  | VUndef | VNull => Throw (TypeError (js "Cannot read properties of undefined"))
  | _ => Ok VUndef
  end.

(** ** Merging *)

(** An element of a list of entries: a falsy one is no entry, a primitive throws. *)
Definition tuple_part (e : value) (i : Z) : value :=
  match e with
  | VMap _ _ | VList _ | VSet _ => default VUndef (im_get e (VNum i))
  | VArr l => default VUndef (arr_get l i)
  | VObj o => prop o (Json.dec i)
  | _ => VUndef
  end.
Definition entry_of (e : value) : result entries :=
  match e with
  | VMap _ _ | VList _ | VSet _ | VArr _ | VObj _ => Ok [(tuple_part e 0, tuple_part e 1)]
  | _ => if truthy e then Throw (TypeError (js "Expected [K, V] tuple: " ++ to_text e)) else Ok []
  end.
Definition fromEntrySeq (l : list value) : result entries := let! es := mapR entry_of l in Ok (concat es).

(** The entries a value has for [merge]: [null] and [undefined] have none, lists
    and arrays are lists of entries, values of plain ones are converted. *)
Definition convert (m : entries) : entries := (λ kv, (kv.1, fromJS kv.2)) <$> m.
Definition keyed (v : value) : result entries :=
  match v with
  | VUndef | VNull => Ok []
  | VMap _ m => Ok m
  | VList l | VSet l => fromEntrySeq l
  | VObj o => Ok (convert ((λ kv, (VStr kv.1, kv.2)) <$> o))
  | VArr l => let! m := fromEntrySeq l in Ok (convert m)
  | VStr [] | VBool _ | VNum _ =>
      Throw (TypeError (js "Expected Array or iterable object of [k, v] entries, or keyed object: " ++ to_text v))
  | VStr (c :: _) => Throw (TypeError (js "Expected [K, V] tuple: " ++ [c]))
  end.
(** [m.merge(a, b, ...)] of maps. *)
Definition map_merge (m : entries) (n : list value) : result entries :=
  let! ss := mapR keyed n in Ok (foldl (λ m s, foldl (λ m kv, map_set m kv.1 kv.2) m s) m ss).
Definition merge (v : value) (n : list value) : result value :=
  match v with
  | VMap o m => let! m := map_merge m n in Ok (VMap o m)
  | _ => Throw (no_method "merge")
  end.

Example im_ex :
  setIn (VMap false [(str "a", VNum 1)]) [str "b"; str "c"] (VNum 2) = Ok (VMap false [(str "a", VNum 1); (str "b", VMap false [(str "c", VNum 2)])])
  /\ setIn (VMap false [(str "a", VNum 1)]) [str "a"; str "c"] (VNum 2) = Throw invalid_keyPath
  /\ deleteIn (VMap false [(str "a", VMap true [(str "b", VNull)])]) [str "a"; str "b"] = Ok (VMap false [(str "a", VMap true [])])
  /\ getIn (fromJS (VObj [(js "s", VArr [VNum 7; VNum 8])])) [str "s"; VNum (-1)] VNull = Ok (VNum 8).
Proof. vm_compute. auto. Qed.

(** * Laws *)

Lemma map_get_set m k v k' : map_get (map_set m k v) k' = if decide (k' = k) then Some v else map_get m k'.
Proof.
  induction m as [|[j w] m IH]; cbn; [done|]. destruct (decide (k = j)) as [->|Hk]; cbn.
  - by destruct (decide (k' = j)).
  - rewrite IH. destruct (decide (k' = j)), (decide (k' = k)); congruence.
Qed.

Definition keys (m : entries) : list value := fst <$> m.
Lemma map_get_None m k : map_get m k = None <-> k ∉ keys m.
Proof. unfold keys. induction m as [|[j w] m IH]; cbn; [set_solver|]. destruct (decide (k = j)); set_solver. Qed.

Lemma map_get_remove m k k' : NoDup (keys m) -> map_get (map_remove m k) k' = if decide (k' = k) then None else map_get m k'.
Proof.
  induction m as [|[j w] m IH]; cbn; [by destruct (decide _)|]. intros [Hj Hn]%NoDup_cons. destruct (decide (k = j)) as [->|Hk].
  - destruct (decide (k' = j)) as [->|]; [|done]. by apply map_get_None.
  - cbn. rewrite IH by done. destruct (decide (k' = j)), (decide (k' = k)); congruence.
Qed.

Lemma map_set_keys m k v : keys (map_set m k v) = match map_get m k with Some _ => keys m | None => keys m ++ [k] end.
Proof.
  unfold keys. induction m as [|[j w] m IH]; cbn; [done|]. destruct (decide (k = j)) as [->|]; [done|]. cbn. rewrite IH. by destruct (map_get m k).
Qed.

(** Two paths that part ways. *)
Inductive diverge : list value -> list value -> Prop :=
  | diverge_here a b p q : a <> b -> diverge (a :: p) (b :: q)
  | diverge_later a p q : diverge p q -> diverge (a :: p) (a :: q).

(** Along the path there are maps, or nothing. *)
Fixpoint maps_along (t : option value) (p : list value) : Prop :=
  match p with
  | [] => True
  | l :: p =>
      match t with
      | None => True
      | Some (VMap _ m) => NoDup (keys m) /\ maps_along (map_get m l) p
      | Some _ => False
      end
  end.

Lemma maps_along_None p : maps_along None p.
Proof. by destruct p. Qed.

Definition get_opt (t : option value) (p : list value) : option value :=
  match t with Some v => get_in v p | None => None end.

Lemma map_set_same m k v : map_get m k = Some v -> map_set m k v = m.
Proof.
  induction m as [|[j w] m IH]; cbn; [done|]. destruct (decide (k = j)) as [->|]; [congruence|]. intros H. by rewrite IH.
Qed.

Lemma get_in_map o m l p : get_in (VMap o m) (l :: p) = get_opt (map_get m l) p.
Proof. cbn. by destruct (map_get m l). Qed.

(** What a write along a path does: the path reads back, what parts from it is
    as before. *)
Lemma update_deep t p r f u x : maps_along t p ->
  u = match get_opt t p with Some v => Some v | None => r end ->
  f u = Ok (Some x) -> (get_opt t p = None -> Some x <> u) ->
  ∃ v, updateInDeep t p r f = Ok (Some v) /\ get_in v p = Some x /\ (∀ q, diverge p q -> get_in v q = get_opt t q).
Proof.
  intros Ht Hu Hf Hd. revert t Ht Hu Hd. induction p as [|l p IH]; intros t Ht Hu Hd.
  - cbn [updateInDeep]. destruct t as [w|]; cbn in Hu.
    + rewrite <- Hu, Hf. cbn [result_bind]. subst u. destruct (decide (Some x = Some w)) as [E|].
      * exists w. split_and!; [done|by injection E as <-|intros q Hq; inversion Hq].
      * exists x. split_and!; [done|done|intros q Hq; inversion Hq].
    + rewrite <- Hu, Hf. cbn [result_bind]. rewrite decide_False by (by apply Hd).
      exists x. split_and!; [done|done|intros q Hq; inversion Hq].
  - cbn [updateInDeep]. destruct t as [w|].
    + destruct w as [| | | | |o m| | | |]; try done. destruct Ht as [Hn Ht]. cbn [has_set negb im_get].
      assert (Hg : get_opt (Some (VMap o m)) (l :: p) = get_opt (map_get m l) p) by apply get_in_map. rewrite Hg in Hu, Hd.
      destruct (IH (map_get m l) Ht Hu Hd) as (v & -> & Hv & Hq). cbn [result_bind].
      destruct (decide (Some v = map_get m l)) as [E|].
      * exists (VMap o m). split; [done|]. rewrite get_in_map, <- E. split; [done|]. intros q Hdv. done.
      * exists (VMap o (map_set m l v)). split; [done|]. rewrite get_in_map, map_get_set, decide_True by done. split; [done|].
        intros q Hdv. inversion Hdv as [a b p' q' Hab|a p' q' Hdv']; subst; cbn [get_opt]; rewrite !get_in_map, map_get_set.
        -- by rewrite decide_False by congruence.
        -- rewrite decide_True by done. cbn. by apply Hq.
    + cbn [result_bind]. destruct (IH None (maps_along_None p) Hu Hd) as (v & -> & Hv & Hq). cbn [result_bind].
      exists (VMap false [(l, v)]). split; [done|]. rewrite get_in_map. cbn. rewrite decide_True by done. split; [done|].
      intros q Hdv. inversion Hdv as [a b p' q' Hab|a p' q' Hdv']; subst; cbn.
      * by rewrite decide_False by congruence.
      * rewrite decide_True by done. by apply Hq.
Qed.

Lemma has_set_maps v p : maps_along (Some v) p -> p <> [] -> has_set v = true.
Proof. destruct p; [done|]. by destruct v. Qed.

(** [setIn] reads back and leaves the rest alone. *)
Lemma setIn_spec v p x : maps_along (Some v) p -> p <> [] ->
  ∃ v', setIn v p x = Ok v' /\ get_in v' p = Some x /\ (∀ q, diverge p q -> get_in v' q = get_in v q).
Proof.
  intros Hm Hp. unfold setIn. rewrite (has_set_maps v p) by done. cbn [negb].
  destruct (update_deep (Some v) p None (λ _, Ok (Some x)) (get_opt (Some v) p) x) as (v' & -> & H1 & H2); try done.
  - by destruct (get_opt (Some v) p).
  - intros ->. done.
  - exists v'. done.
Qed.

(** [updateIn] with a function that changes the value, or finds one there. *)
Lemma updateIn_spec v p d f x : maps_along (Some v) p -> p <> [] ->
  f (default d (get_in v p)) = Ok x -> (get_in v p = None -> x <> d) ->
  ∃ v', updateIn v p d f = Ok v' /\ get_in v' p = Some x /\ (∀ q, diverge p q -> get_in v' q = get_in v q).
Proof.
  intros Hm Hp Hf Hd. unfold updateIn. rewrite (has_set_maps v p) by done. cbn [negb].
  destruct (update_deep (Some v) p (Some d) (λ u, let! x := f (set_result u) in Ok (Some x))
    (Some (default d (get_in v p))) x) as (v' & -> & H1 & H2); try done.
  - cbn. by destruct (get_in v p).
  - cbn. by rewrite Hf.
  - cbn. intros E. rewrite E. cbn. intros [= E']. by apply Hd in E.
  - exists v'. done.
Qed.

(** A change of one entry of a map. *)
Lemma update_one o m k d f x : f (default d (map_get m k)) = Ok x -> (map_get m k = None -> x <> d) ->
  update (VMap o m) k d f = Ok (VMap o (map_set m k x)).
Proof.
  intros Hf Hd. unfold update, updateIn. cbn [has_set negb updateInDeep im_get]. destruct (map_get m k) as [v|] eqn:E.
  - change (default d (Some v)) with v in Hf. cbn [set_result]. rewrite Hf. cbn [result_bind].
    destruct (decide (Some x = Some v)) as [E'|Hne].
    + rewrite decide_True by done. injection E' as ->. cbn. by rewrite map_set_same.
    + by rewrite decide_False.
  - change (default d None) with d in Hf. cbn [set_result]. rewrite Hf. cbn [result_bind].
    destruct (decide (Some x = Some d)) as [E'|]; [injection E' as ->; by destruct (Hd eq_refl)|]. by rewrite decide_False.
Qed.

Lemma map_set_nodup m k v : NoDup (keys m) -> NoDup (keys (map_set m k v)).
Proof.
  intros Hn. rewrite map_set_keys. destruct (map_get m k) eqn:E; [done|]. apply NoDup_app. split_and!; [done| |apply NoDup_singleton].
  intros x Hx ->%list_elem_of_singleton. by apply map_get_None in E.
Qed.

Lemma map_remove_nodup m k : NoDup (keys m) -> NoDup (keys (map_remove m k)).
Proof.
  intros Hn. unfold keys in *. induction m as [|[i w] l IH]; [done|]. cbn in *. apply NoDup_cons in Hn as [Hi Hn].
  destruct (decide (k = i)); [done|]. cbn. apply NoDup_cons. split; [|auto]. intros Hin. apply Hi. clear -Hin.
  induction l as [|[j y] l IH]; cbn in *; [done|]. destruct (decide (k = j)); cbn in *; set_solver.
Qed.

Lemma map_set_twice c k v w : map_set (map_set c k v) k w = map_set c k w.
Proof.
  induction c as [|[j y] c IH]; cbn; [by rewrite decide_True|]. destruct (decide (k = j)) as [->|Hk]; cbn.
  - by rewrite decide_True.
  - rewrite decide_False by done. by rewrite IH.
Qed.

Lemma str_inj a b : str a = str b -> a = b.
Proof. intros E. apply js_inj. unfold str in E. congruence. Qed.

(** [deleteIn] removes what is there. *)
Lemma delete_deep t p : maps_along t p -> p <> [] ->
  ∃ t', updateInDeep t p (Some VUndef) (λ _, Ok None) = Ok t' /\ get_opt t' p = None /\
    (∀ q, diverge p q -> get_opt t' q = get_opt t q) /\ (∀ v, t = Some v -> ∃ v', t' = Some v').
Proof.
  revert t. induction p as [|l p IH]; intros t Ht Hp; [done|]. cbn [updateInDeep]. destruct t as [w|].
  - destruct w as [| | | | |o m| | | |]; try done. destruct Ht as [Hn Ht]. cbn [has_set negb im_get].
    assert (G : ∃ c', updateInDeep (map_get m l) p (Some VUndef) (λ _, Ok None) = Ok c' /\ get_opt c' p = None /\
      (∀ q, diverge p q -> get_opt c' q = get_opt (map_get m l) q)).
    { destruct p as [|k p].
      - exists None. split_and!; [|done|intros q Hq; inversion Hq]. cbn. destruct (map_get m l); done.
      - destruct (IH (map_get m l) Ht) as (c' & H1 & H2 & H3 & _); [done|]. by exists c'. }
    destruct G as (c' & -> & Hg & Hq). cbn [result_bind]. destruct (decide (c' = map_get m l)) as [E|Hne].
    + exists (Some (VMap o m)). split; [done|]. cbn [get_opt]. rewrite get_in_map, <- E. split_and!; [done|done|eauto].
    + destruct c' as [x|].
      * exists (Some (VMap o (map_set m l x))). cbn [get_opt]. rewrite get_in_map, map_get_set, decide_True by done. split_and!; [done|done| |eauto].
        intros q Hdv. inversion Hdv as [a b p' q' Hab|a p' q' Hdv']; subst; rewrite !get_in_map, map_get_set.
        -- by rewrite decide_False by congruence.
        -- rewrite decide_True by done. by rewrite <- Hq.
      * exists (Some (VMap o (map_remove m l))). cbn [get_opt im_remove]. rewrite get_in_map, map_get_remove, decide_True by done. split_and!; [done|done| |eauto].
        intros q Hdv. inversion Hdv as [a b p' q' Hab|a p' q' Hdv']; subst; rewrite !get_in_map, map_get_remove by done.
        -- by rewrite decide_False by congruence.
        -- rewrite decide_True by done. by rewrite <- Hq.
  - exists None. split_and!; [|done|done|done]. destruct p as [|k p]; [done|].
    assert (N : ∀ p, updateInDeep None p (Some VUndef) (λ _, Ok None) = Ok None).
    { induction p0 as [|j p0 IHp]; [done|]. cbn [updateInDeep]. by rewrite IHp. }
    by rewrite N.
Qed.

(** Writing along a path is exact: when there are maps (or nothing) along
    the path, [setIn] and [deleteIn] succeed, the path then reads the new value,
    or nothing, and every path that parts from it reads as before. *)
Theorem paths_exact v p x : maps_along (Some v) p -> p <> [] ->
  (∃ v', setIn v p x = Ok v' /\ getIn v' p VUndef = Ok x /\ (∀ q, diverge p q -> get_in v' q = get_in v q)) /\
  (∃ v', deleteIn v p = Ok v' /\ get_in v' p = None /\ (∀ q, diverge p q -> get_in v' q = get_in v q)).
Proof.
  intros Hm Hp. split.
  - destruct (setIn_spec v p x Hm Hp) as (v' & H1 & H2 & H3). exists v'. split_and!; [done| |done].
    unfold getIn. rewrite H2. destruct p; [done|]. cbn in H2. by destruct (has_get v').
  - unfold deleteIn. rewrite (has_set_maps v p) by done. cbn [negb].
    destruct (delete_deep (Some v) p Hm Hp) as (t' & -> & H1 & H2 & H3). destruct (H3 v eq_refl) as (v' & ->). by exists v'.
Qed.

Lemma paths_exact_witness :
  ∃ v', setIn (VMap false [(str "meta", VMap true [(str "x", VNull)])]) [str "meta"; str "y"; str "z"] (VNum 3) = Ok v' /\
    getIn v' [str "meta"; str "y"; str "z"] VUndef = Ok (VNum 3) /\
    (∀ q, diverge [str "meta"; str "y"; str "z"] q -> get_in v' q = get_in (VMap false [(str "meta", VMap true [(str "x", VNull)])]) q).
Proof.
  apply paths_exact; [|done]. cbn. repeat split; apply (bool_decide_unpack _); vm_compute; exact I.
Defined.

End Im.
