(* ===== verification/ImmEq.v ===== *)
(** Value equality and hashes of Immutable collections in the bundle
    client/docs/swagger-ui/swagger-ui-bundle.js: [is] and the deep comparison
    (lines 403-438), [imul] and its replacement (614-618), [hashCode] (2451-2470)
    with [hashMerge] (2526-2528).

    Numbers are 32-bit integers. Plain objects and arrays hash to the number they
    get when first hashed, the parameter [object_hash]. *)

From stdpp Require Import base list list_numbers numbers strings gmap.
From Stdlib Require Import ZArith Lia.
From S2P Require Import Prelude Json ImmHash Im.

Module ImmEq.
Import Im.

(** ** Equality *)

(** [is(e, t)] with the deep comparison of collections: [t] is walked, [e] is looked into. *)
Fixpoint value_is (e t : value) {struct t} : bool :=
  match t with
  | VMap ot mt =>
      match e with
      | VMap oe me =>
          bool_decide (len me = len mt) && Bool.eqb oe ot &&
          (if ot then
             (fix every (mt me : list (value * value)) : bool :=
                match mt, me with
                | [], [] => true
                | (k, v) :: mt, (k', v') :: me => value_is v' v && value_is k' k && every mt me
                | _, _ => false
                end) mt me
           else
             (fix every (mt : list (value * value)) : bool :=
                match mt with
                | [] => true
                | (k, v) :: mt => match map_get me k with Some w => value_is w v | None => false end && every mt
                end) mt)
      | _ => false
      end
  | VList lt =>
      match e with
      | VList le =>
          bool_decide (len le = len lt) &&
          (fix every (lt le : list value) : bool :=
             match lt, le with
             | [], [] => true
             | v :: lt, v' :: le => value_is v' v && every lt le
             | _, _ => false
             end) lt le
      | _ => false
      end
  | VSet lt =>
      match e with
      | VSet le => bool_decide (len le = len lt) && forallb (λ v, bool_decide (v ∈ le)) lt
      | _ => false
      end
  | _ => bool_decide (e = t)
  end.

(** ** Hashes *)

(** [Math.imul], and what is used where there is none. *)
Definition imul (e t : Z) : Z := Int32.to_int32 (Int32.to_int32 e * Int32.to_int32 t).
Definition imul_fallback (e t : Z) : Z :=
  let e := (e .| 0) in
  let n := (65535 .& e) in
  let t := (t .| 0) in
  let r := (65535 .& t) in
  (n * r + ((e .>>> 16) * r + n * (t .>>> 16) .<< 16 .>>> 0) .| 0).

(** A hash; [None] is the method that the cache of string hashes inherits under
    the name ["propertyIsEnumerable"]: adding to it makes a text, which counts
    as 0 in bit operations. *)
Definition as_int (h : option Z) : Z := default 0 h.

(** [qn(e, t)] *)
Definition hashMerge (e t : option Z) : Z :=
  let sum := match t with Some t => t + 2654435769 + (as_int e .<< 6) + (as_int e .>> 2) | None => 0 end in
  ((as_int e .^ sum) .| 0).

(** The finish of [hashCode]. *)
Definition murmur (e t : Z) : Z :=
  let t := imul t 3432918353 in
  let t := imul (t .<< 15 .| t .>>> -15) 461845907 in
  let t := imul (t .<< 13 .| t .>>> -13) 5 in
  let t := ((t + 3864292196 .| 0) .^ e) in
  let t := imul (t .^ t .>>> 16) 2246822507 in
  let t := imul (t .^ t .>>> 13) 3266489909 in
  ImmHash.smi (t .^ t .>>> 16).

(** [31 * r + h | 0] and [r + h | 0] *)
Definition add_ordered (r : Z) (h : option Z) : Z := match h with Some h => (31 * r + h .| 0) | None => 0 end.
Definition add_unordered (r : Z) (h : option Z) : Z := match h with Some h => (r + h .| 0) | None => 0 end.

Definition string_hash (s : list Z) : option Z :=
  if decide (s = js "propertyIsEnumerable") then None else Some (ImmHash.hashString s).

Section hash.
Variable object_hash : value -> Z.

Fixpoint hash (v : value) : option Z :=
  match v with
  | VUndef | VNull => Some 0
  | VBool b => Some (if b then 1 else 0)
  | VNum z => Some (ImmHash.smi (0 .| z))
  | VStr s => string_hash s
  | VMap o m =>
      let hs := (λ kv, match kv with (k, x) => Some (hashMerge (hash x) (hash k)) end) <$> m in
      Some (murmur (len m) (if o then foldl add_ordered 1 hs else foldl add_unordered 0 hs))
  | VList l => Some (murmur (len l) (foldl add_ordered 1 (hash <$> l)))
  | VSet l => Some (murmur (len l) (foldl add_unordered 0 (hash <$> l)))
  | VObj _ | VArr _ => Some (object_hash v)
  end.
(** [v.hashCode()] of a collection. *)
Definition hashCode (v : value) : Z := as_int (hash v).
End hash.

Example hash_ex :
  let m := VMap false [(str "name", str "id"); (str "in", str "query")] in
  let m' := VMap false [(str "in", str "query"); (str "name", str "id")] in
  value_is m m' = true /\ hashCode (λ _, 0) m = hashCode (λ _, 0) m' /\ value_is (VMap true [(str "a", m)]) (VMap true [(str "a", m')]) = true
  /\ value_is (VMap true [(str "a", VNum 1); (str "b", VNum 2)]) (VMap true [(str "b", VNum 2); (str "a", VNum 1)]) = false
  /\ imul (-5) 12345678 = imul_fallback (-5) 12345678 /\ value_is (VSet [VNum 1; VNum 2]) (VSet [VNum 2; VNum 1]) = true.
Proof. vm_compute. auto 10. Qed.

(** * Properties *)

(** ** The product of 32-bit integers *)

(** Where [Math.imul] is missing its replacement gives the same result, the
    product modulo 2^32 as a signed number, for all integers. *)
Theorem imul_fallback_ok e t : imul_fallback e t = imul e t.
Proof.
  unfold imul_fallback, imul. assert (Z0 : ∀ x, (x .| 0) = Int32.to_int32 x).
  { intros x. unfold Int32.bor. rewrite (to_int32_id 0) by lia. apply Z.lor_0_r. }
  rewrite !Z0. set (a := Int32.to_int32 e). set (b := Int32.to_int32 t).
  change 65535 with (Z.ones 16). rewrite !(band_comm (Z.ones 16)), !band_ones by lia.
  assert (H : ∀ x, (x .>>> 16) = Int32.to_uint32 x / 2^16).
  { intros x. unfold Int32.shr. apply Z.shiftr_div_pow2. done. }
  rewrite !H. assert (S0 : ∀ x, (x .>>> 0) = x mod 2^32) by done. rewrite S0, shl_mul by lia. apply to_int32_eqm.
  rewrite <- Zplus_mod_idemp_r, to_int32_mod, Zmod_mod, Zplus_mod_idemp_r. unfold Int32.to_uint32.
  assert (Ea : ∃ q, a = (a mod 2^32 / 2^16) * 2^16 + a mod 2^16 + q * 2^32) by (exists (a / 2^32); zdm).
  assert (Eb : ∃ q, b = (b mod 2^32 / 2^16) * 2^16 + b mod 2^16 + q * 2^32) by (exists (b / 2^32); zdm).
  destruct Ea as [qa Ea], Eb as [qb Eb]. revert Ea Eb. generalize (a mod 2^32 / 2^16), (a mod 2^16), (b mod 2^32 / 2^16), (b mod 2^16).
  intros ah al bh bl Ea Eb. rewrite Ea, Eb.
  replace ((ah * 2 ^ 16 + al + qa * 2 ^ 32) * (bh * 2 ^ 16 + bl + qb * 2 ^ 32)) with
    (al * bl + (ah * bl + al * bh) * 2 ^ 16 +
     (ah * bh + (ah * 2 ^ 16 + al) * qb + qa * (bh * 2 ^ 16 + bl) + qa * qb * 2 ^ 32) * 2 ^ 32) by ring.
  by rewrite Z_mod_plus_full.
Qed.

(** ** Equal values have equal hashes *)

(** Maps and sets hold a key once; a set does not hold the name that hashes to a method. *)
Fixpoint value_ok (v : value) : Prop :=
  match v with
  | VMap _ m => NoDup (keys m) /\ (fix all (m : list (value * value)) : Prop :=
      match m with [] => True | (k, x) :: m => value_ok k /\ value_ok x /\ all m end) m
  | VList l => (fix all (l : list value) : Prop := match l with [] => True | x :: l => value_ok x /\ all l end) l
  | VSet l => NoDup l /\ str "propertyIsEnumerable" ∉ l
  | _ => True
  end.

Lemma value_ok_map o m : value_ok (VMap o m) <-> NoDup (keys m) /\ Forall (λ kv, value_ok kv.1 /\ value_ok kv.2) m.
Proof.
  cbn. apply and_iff_compat_l. induction m as [|[k x] m IH]; [by split|]. rewrite Forall_cons, IH. cbn. tauto.
Qed.
Lemma value_ok_list l : value_ok (VList l) <-> Forall value_ok l.
Proof. cbn. induction l as [|x l IH]; [by split|]. by rewrite Forall_cons, IH. Qed.

(** Sums modulo 2^32 do not depend on the order. *)
Lemma fold_unordered hs r : is_int32 r ->
  foldl add_unordered r (Some <$> hs) = Int32.to_int32 (r + foldr Z.add 0 hs).
Proof.
  revert r. induction hs as [|h hs IH]; intros r Hr; cbn [fmap list_fmap foldl foldr].
  - by rewrite Z.add_0_r, to_int32_id.
  - unfold add_unordered at 2. assert (E : (r + h .| 0) = Int32.to_int32 (r + h)).
    { unfold Int32.bor. rewrite (to_int32_id 0) by lia. apply Z.lor_0_r. }
    rewrite E, IH by apply to_int32_range. apply to_int32_eqm. rewrite <- Zplus_mod_idemp_l, to_int32_mod, Zplus_mod_idemp_l. f_equal. lia.
Qed.
Lemma fold_unordered_perm hs ks : hs ≡ₚ ks -> foldl add_unordered 0 (Some <$> hs) = foldl add_unordered 0 (Some <$> ks).
Proof.
  intros H. rewrite !fold_unordered by lia. f_equal. f_equal. induction H; cbn; lia.
Qed.

Lemma map_remove_perm m k w : map_get m k = Some w -> m ≡ₚ (k, w) :: map_remove m k.
Proof.
  induction m as [|[j x] m IH]; [done|]. cbn. destruct (decide (k = j)) as [->|]; [by intros [= ->]|].
  intros H. rewrite (IH H) at 1. apply Permutation_swap.
Qed.

(** Two maps of one size, one of which has the keys of the other with values
    that [f] does not tell apart. *)
Lemma match_perm {A} (f : value * value -> A) mt me : NoDup (keys mt) -> NoDup (keys me) -> length me = length mt ->
  Forall (λ kv, ∃ w, map_get me kv.1 = Some w /\ f (kv.1, w) = f kv) mt -> f <$> me ≡ₚ f <$> mt.
Proof.
  revert me. induction mt as [|[k v] mt IH]; intros me Ht He Hl Hm; [by destruct me|]. apply NoDup_cons in Ht as [Hk Ht].
  apply Forall_cons in Hm as [(w & Hw & Hf) Hm]. pose proof (map_remove_perm me k w Hw) as Hp. rewrite Hp. cbn [fmap list_fmap fst] in *. rewrite Hf.
  f_equiv. apply IH; [done|by apply map_remove_nodup| |].
  - apply Permutation_length in Hp. cbn in Hp, Hl. lia.
  - rewrite Forall_forall in Hm |- *. intros [k' v'] Hin. destruct (Hm _ Hin) as (w' & Hw' & Hf'). exists w'. split; [|done].
    cbn in *. rewrite map_get_remove by done. rewrite decide_False; [done|]. intros ->. apply Hk. by apply (list_elem_of_fmap_2 fst mt (k, v')).
Qed.

Section coherence.
Variable object_hash : value -> Z.
Abbreviation hash := (hash object_hash).

Lemma hash_some v : v <> str "propertyIsEnumerable" -> ∃ h, hash v = Some h.
Proof.
  destruct v; try (by eexists). intros Hv. unfold ImmEq.hash, string_hash. rewrite decide_False; [by eexists|]. intros ->. done.
Qed.
Lemma hash_all_some (l : list value) : str "propertyIsEnumerable" ∉ l -> hash <$> l = Some <$> ((λ v, as_int (hash v)) <$> l).
Proof.
  intros Hl. rewrite <- list_fmap_compose. apply list_fmap_ext. intros i x Hx. cbn. destruct (hash_some x) as [h ->]; [|done].
  intros ->. apply Hl. by eapply list_elem_of_lookup_2.
Qed.

(** The comparisons of [value_is] as relations. *)
Lemma is_map_unordered me mt : value_is (VMap false me) (VMap false mt) = true ->
  length me = length mt /\ Forall (λ kv, ∃ w, map_get me kv.1 = Some w /\ value_is w kv.2 = true) mt.
Proof.
  cbn. rewrite andb_true_r. intros [Hl%bool_decide_eq_true H]%andb_true_iff. split; [unfold len in Hl; lia|]. clear Hl.
  induction mt as [|[k v] mt IH]; [apply Forall_nil_2|]. apply andb_true_iff in H as [H1 H2]. apply Forall_cons. split; [|by apply IH].
  cbn. destruct (map_get me k) as [w|]; [by exists w|done].
Qed.
Lemma is_map_ordered me mt : value_is (VMap true me) (VMap true mt) = true ->
  Forall2 (λ kv kv', value_is kv.1 kv'.1 = true /\ value_is kv.2 kv'.2 = true) me mt.
Proof.
  cbn. rewrite andb_true_r. intros [_ H]%andb_true_iff. revert me H. induction mt as [|[k v] mt IH]; intros [|[k' v'] me]; try done.
  intros [[H1 H2]%andb_true_iff H3]%andb_true_iff. constructor; [done|by apply IH].
Qed.
Lemma is_list le lt : value_is (VList le) (VList lt) = true -> Forall2 (λ v v', value_is v v' = true) le lt.
Proof.
  cbn. intros [_ H]%andb_true_iff. revert le H. induction lt as [|v lt IH]; intros [|v' le]; try done.
  intros [H1 H2]%andb_true_iff. constructor; [done|by apply IH].
Qed.
Lemma is_kind a b : value_is a b = true ->
  match b with
  | VMap o _ => ∃ m, a = VMap o m
  | VList _ => ∃ l, a = VList l
  | VSet l => ∃ l', a = VSet l' /\ length l' = length l /\ l ⊆ l'
  | _ => a = b
  end.
Proof.
  destruct b; try (by intros H%bool_decide_eq_true).
  - destruct a; try done. cbn. intros [[_ H%eqb_prop]%andb_true_iff _]%andb_true_iff. subst. by eexists.
  - destruct a; try done. by eexists.
  - destruct a as [| | | | | | |l'| |]; try done. cbn. intros [Hl%bool_decide_eq_true H]%andb_true_iff. exists l'.
    split_and!; [done|unfold len in Hl; lia|]. rewrite forallb_forall in H. intros x Hx. by apply list_elem_of_In, H, bool_decide_eq_true in Hx.
Qed.

Lemma hash_map_entries o m : hash (VMap o m) =
  Some (murmur (len m) (let hs := (λ kv, hashMerge (hash kv.2) (hash kv.1)) <$> m in
    if o then foldl add_ordered 1 (Some <$> hs) else foldl add_unordered 0 (Some <$> hs))).
Proof.
  cbn [ImmEq.hash]. do 2 f_equal. assert (E : ((λ kv, match kv with (k, x) => Some (hashMerge (hash x) (hash k)) end) <$> m) =
    Some <$> ((λ kv, hashMerge (hash kv.2) (hash kv.1)) <$> m)).
  { rewrite <- list_fmap_compose. apply list_fmap_ext. by intros i [k x]. }
  by rewrite E.
Qed.

Lemma get_elem m k w : map_get m k = Some w -> (k, w) ∈ m.
Proof. induction m as [|[j x] m IH]; [done|]. cbn. destruct (decide (k = j)) as [->|]; [intros [= ->]|intros H%IH]; set_solver. Qed.

(** The cases of the theorem, with the claim for the parts. *)
Definition coherent (b : value) : Prop := ∀ a, value_ok a -> value_ok b -> value_is a b = true -> hash a = hash b.

Lemma coherent_map o m : Forall (λ kv, coherent kv.1 /\ coherent kv.2) m -> coherent (VMap o m).
Proof.
  intros IH a Ha Hb H. destruct (is_kind _ _ H) as [me ->]. apply value_ok_map in Ha as [Hna Ha], Hb as [Hnb Hb]. rewrite !hash_map_entries. destruct o.
  - apply is_map_ordered in H. assert (E : (λ kv, hashMerge (hash kv.2) (hash kv.1)) <$> me = (λ kv, hashMerge (hash kv.2) (hash kv.1)) <$> m).
    { clear Hna Hnb. induction H as [|x y me m [H1 H2] _ IHm]; [done|]. apply Forall_cons in IH as [[I1 I2] IH], Ha as [[A1 A2] Ha], Hb as [[B1 B2] Hb].
      cbn [fmap list_fmap]. f_equal; [|by apply IHm]. by rewrite (I1 x.1), (I2 x.2). }
    rewrite E. unfold len. by rewrite (Forall2_length _ _ _ H).
  - apply is_map_unordered in H as [Hl H]. unfold len. rewrite Hl. do 2 f_equal. apply fold_unordered_perm. apply match_perm; [done|done|done|].
    rewrite Forall_forall in H, IH, Ha, Hb |- *. intros [k v] Hin. destruct (H _ Hin) as (w & Hw & Hi). exists w. split; [done|]. cbn in *.
    rewrite (proj2 (IH _ Hin) w); [done| | |done].
    + by apply (Ha (k, w)), get_elem.
    + by apply (Hb (k, v)).
Qed.

Lemma coherent_list l : Forall coherent l -> coherent (VList l).
Proof.
  intros IH a Ha Hb H. destruct (is_kind _ _ H) as [le ->]. apply is_list in H. apply value_ok_list in Ha, Hb. cbn [ImmEq.hash].
  assert (E : hash <$> le = hash <$> l).
  { induction H as [|x y le l Hx _ IHl]; [done|]. apply Forall_cons in IH as [I1 IH], Ha as [A1 Ha], Hb as [B1 Hb]. cbn. f_equal; [by apply I1|by apply IHl]. }
  rewrite E. unfold len. by rewrite (Forall2_length _ _ _ H).
Qed.

Lemma coherent_set l : coherent (VSet l).
Proof.
  intros a Ha Hb H. destruct (is_kind _ _ H) as (l' & -> & Hl & Hs). destruct Ha as [Na Fa], Hb as [Nb Fb]. cbn [ImmEq.hash].
  assert (P : l ≡ₚ l') by (apply submseteq_length_Permutation; [by apply NoDup_submseteq|lia]).
  rewrite !hash_all_some by done. unfold len. rewrite Hl. do 2 f_equal. apply fold_unordered_perm. by rewrite P.
Qed.

(** C31. Equal values have equal hashes: maps and sets whatever the order of
    their entries, ordered maps and lists, to any depth. So comparing two
    collections by the hashes they remember first, as the code does, never
    makes equal collections unequal. *)
Theorem is_hash a b : value_ok a -> value_ok b -> value_is a b = true ->
  hash a = hash b /\ hashCode object_hash a = hashCode object_hash b.
Proof.
  intros Ha Hb H. assert (E : hash a = hash b); [|unfold hashCode; by rewrite E].
  revert a Ha Hb H. change (coherent b). induction b as [| | | | |o m IH|l IH|l IH|o IH|l IH] using value_ind';
    try (intros a _ _ H; by rewrite (is_kind _ _ H)).
  - by apply coherent_map.
  - by apply coherent_list.
  - by apply coherent_set.
Qed.
End coherence.


Lemma is_hash_witness :
  let a := VMap false [(str "name", str "id"); (str "tags", VSet [VNum 1; VNum 2])] in
  let b := VMap false [(str "tags", VSet [VNum 2; VNum 1]); (str "name", str "id")] in
  hash (λ _, 0) (VList [a]) = hash (λ _, 0) (VList [b]) /\ hashCode (λ _, 0) (VList [a]) = hashCode (λ _, 0) (VList [b]).
Proof.
  intros a b. apply (is_hash (λ _, 0) (VList [a]) (VList [b])); [| |reflexivity];
    cbn; repeat split; apply (bool_decide_unpack _); vm_compute; exact I.
Defined.

(** A set that holds the name of the method hashes differently in another order. *)
Example set_hash_order :
  let n := str "propertyIsEnumerable" in
  value_is (VSet [n; VNum 1]) (VSet [VNum 1; n]) = true
  /\ hashCode (λ _, 0) (VSet [n; VNum 1]) <> hashCode (λ _, 0) (VSet [VNum 1; n]).
Proof. split; [reflexivity|]. vm_compute. discriminate. Qed.

End ImmEq.
