(* ===== verification/UiErr.v ===== *)
(** The error log, the layout and the configuration of Swagger UI in the bundle
    client/docs/swagger-ui/swagger-ui-bundle.js: serialize-error (lines
    6852-6866), the actions, reducers, transformers and selectors of the [err]
    plugin (5958-6008, 10909-11087), those of the [layout] plugin (7495-7528,
    11128-11170) and of the [configs] plugin (9296-9311, 16266-16286).

    Selectors made by [createSelector] are the functions they memoize. *)

From stdpp Require Import base list list_numbers numbers strings gmap.
From Stdlib Require Import ZArith Lia.
From S2P Require Import Prelude Json Im.

Module UiErr.
Import Im.

Abbreviation object := (list (list Z * value)) (only parsing).

(** ** serialize-error *)

(** A tree of plain values; [hidden] are the [name], [message] and [stack] of
    an error, which are no enumerable properties. *)
Fixpoint copy_plain (t : value) : value :=
  match t with
  | VObj o => VObj ((λ kv, match kv with (k, x) => (k, copy_plain x) end) <$> o)
  | VArr l => VArr (copy_plain <$> l)
  | v => v
  end.
Definition serializeError (e : value) (hidden : object) : result value :=
  match e with
  | VNull => Throw (TypeError (js "Cannot convert undefined or null to object"))
  | VObj _ => match copy_plain e with VObj o => Ok (VObj (assign o hidden)) | v => Ok v end
  | v => Ok (copy_plain v)
  end.

(** ** Actions of the error log *)

Inductive action :=
  | NEW_THROWN_ERR (payload : value)
  | NEW_THROWN_ERR_BATCH (payload : list value)
  | NEW_SPEC_ERR (payload : value)
  | NEW_SPEC_ERR_BATCH (payload : list value)
  | NEW_AUTH_ERR (payload : value)
  | CLEAR (payload : value)
  | CLEAR_BY (payload : option (value -> result bool)).

Definition newThrownErr (e : value) (hidden : object) : result action :=
  let! p := serializeError e hidden in Ok (NEW_THROWN_ERR p).
Definition newThrownErrBatch (e : list value) : action := NEW_THROWN_ERR_BATCH e.
Definition newSpecErr (e : value) : action := NEW_SPEC_ERR e.
Definition newSpecErrBatch (e : list value) : action := NEW_SPEC_ERR_BATCH e.
Definition newAuthErr (e : value) : action := NEW_AUTH_ERR e.
Definition clearBy (f : option (value -> result bool)) : action :=
  CLEAR_BY (match f with None => Some (λ _, Ok true) | Some f => Some f end).

(** ** Transformers *)

Definition is_not_of : list Z := js "is not of a type(s)".

(** [e.reduce(...)] over the types: ["should be a" + ...]. *)
Fixpoint join_types (acc : list Z) (n : nat) (l : list (list Z)) (all : nat) : list Z :=
  match l with
  | [] => acc
  | t :: l' =>
      let next := match l' with x :: _ => match x with [] => false | _ => true end | [] => false end in
      let acc :=
        if (n =? all - 1)%nat && (1 <? all)%nat then acc ++ js "or " ++ t
        else if next && (2 <? all)%nat then acc ++ t ++ js ", "
        else if next then acc ++ t ++ js " "
        else acc ++ t in
      join_types acc (S n) l' all
  end.

(** [e.get("message")] must be a string to have [indexOf]. *)
Definition message_of (e : value) : result (list Z) :=
  let! m := get e "message" in
  match m with VStr s => Ok s | _ => Throw (no_method "indexOf") end.

Definition not_of_type (e : value) : result value :=
  let! m := message_of e in
  let t := Json.index_of is_not_of m in
  if -1 <? t then
    let n := Json.split [44] (drop (Z.to_nat (t + len is_not_of)) m) in
    set e (str "message") (VStr (take (Z.to_nat t) m ++ join_types (js "should be a") 0 n (length n)))
  else Ok e.

(** [t.replace(/instance./g, "")]: the word and the character after it. *)
Definition line_end (c : Z) : bool := bool_decide (c ∈ [10; 13; 8232; 8233]).
Fixpoint strip_instance_text (s : list Z) (skip : nat) : list Z :=
  match s with
  | [] => []
  | c :: s' =>
      match skip with
      | S skip => strip_instance_text s' skip
      | O => match drop 8 s with
             | d :: _ => if Json.prefix_at (js "instance") s && negb (line_end d)
                         then strip_instance_text s' 8 else c :: strip_instance_text s' O
             | [] => c :: strip_instance_text s' O
             end
      end
  end.
Definition strip_instance (e : value) : result value :=
  let! m := message_of e in set e (str "message") (VStr (strip_instance_text m O)).

(** [errors.map(f)] *)
Definition map_list (f : value -> result value) (e : value) : result value :=
  match e with
  | VList l => let! l := mapR f l in Ok (VList l)
  | _ => Throw (no_method "map")
  end.
Definition filter_list (f : value -> bool) (e : value) : result value :=
  match e with VList l => Ok (VList (List.filter f l)) | _ => Throw (no_method "filter") end.

(** The three transformers; the second does nothing. *)
Definition transformers : list (value -> result value) := [map_list not_of_type; (λ e, Ok e); map_list strip_instance].

(** One of them: its errors leave the list as it is. *)
Definition try_transform (e : value) (t : value -> result value) : value :=
  match (let! r := t e in filter_list truthy r) with Ok r => r | Throw _ => e end.
Definition transformErrors (e : value) : result value :=
  let! r := filter_list truthy (foldl try_transform e transformers) in
  map_list (λ e, let! line := get e "line" in if truthy line then Ok e else let! _ := get e "path" in Ok e) r.

(** ** Reducer *)

(** The object [l] of defaults, which [Object.assign] writes into. *)
Definition default_error : object :=
  [(js "line", VNum 0); (js "level", VStr (js "error")); (js "message", VStr (js "Unknown error"))].

Definition props (v : value) : object := match v with VObj o => o | _ => [] end.

(** [Object.assign(l, r, {type: t})]: the new [l], which is the result. *)
Definition assign_default (l : object) (r : value) (t : string) : object :=
  put (assign l (props r)) (js "type") (str t).

(** [(e || List()).push(x)] and [.concat(xs)] *)
Definition push (e x : value) : result value :=
  match vor e emptyList with VList l => Ok (VList (l ++ [x])) | _ => Throw (no_method "push") end.
Definition concat_to (e : value) (xs : list value) : result value :=
  match vor e emptyList with VList l => Ok (VList (l ++ xs)) | _ => Throw (no_method "concat") end.

(** [.sortBy(e => e.get("line"))] of lines that are numbers: stable. *)
Definition line_of (e : value) : Z := match get e "line" with Ok (VNum z) => z | _ => 0 end.
Fixpoint insert_by_line (x : value) (l : list value) : list value :=
  match l with
  | [] => [x]
  | y :: l' => if line_of y <=? line_of x then y :: insert_by_line x l' else x :: l
  end.
Definition sort_by_line (l : list value) : list value := foldl (λ acc x, insert_by_line x acc) [] l.

Definition update_errors (t : value) (f : value -> result value) : result value :=
  let! t := update t (str "errors") VUndef f in
  update t (str "errors") VUndef transformErrors.

(** [r !== o] of an entry and a field of the payload. *)
Definition differs (r o : value) : bool :=
  match r, o with
  | (VMap _ _ | VList _ | VSet _ | VObj _ | VArr _), _ | _, (VMap _ _ | VList _ | VSet _ | VObj _ | VArr _) => true
  | _, _ => negb (bool_decide (r = o))
  end.
(** The errors that [clear] keeps: no field with a truthy value in the payload
    has that value. *)
Definition kept (n : object) (e : value) : bool :=
  match e with
  | VMap _ m => forallb (λ kv, let o := prop n (to_text kv.1) in negb (truthy o) || differs kv.2 o) m
  | _ => true
  end.

(** The loop of a batch: every error is made in the same object. *)
Fixpoint assign_batch (l : object) (r : list value) (t : string) : object * list value :=
  match r with
  | [] => (l, [])
  | e :: r =>
      let l := assign_default l e t in
      let '(l', es) := assign_batch l r t in
      (l', fromJS (VObj l) :: es)
  end.

(** The reducer, with the object of defaults before and after. *)
Definition reduce (l : object) (t : value) (a : action) : object * result value :=
  match a with
  | NEW_THROWN_ERR r =>
      let i := assign_default l r "thrown" in
      (i, update_errors t (λ e, push e (fromJS (VObj i))))
  | NEW_THROWN_ERR_BATCH r =>
      let '(l, es) := assign_batch l r "thrown" in (l, update_errors t (λ e, concat_to e es))
  | NEW_SPEC_ERR r =>
      (l, let! o := set (fromJS r) (str "type") (str "spec") in
          update_errors t (λ e, let! e := push e o in
                                match e with VList l => Ok (VList (sort_by_line l)) | _ => Throw (no_method "sortBy") end))
  | NEW_SPEC_ERR_BATCH r =>
      let '(l, es) := assign_batch l r "spec" in (l, update_errors t (λ e, concat_to e es))
  | NEW_AUTH_ERR r =>
      (l, let! i := set (fromJS (VObj (assign [] (props r)))) (str "type") (str "auth") in
          update_errors t (λ e, push e i))
  | CLEAR n =>
      (l, let! es := get t "errors" in
          if negb (truthy n) || negb (truthy es) then Ok t
          else let! r := filter_list (kept (props n)) es in merge t [VObj [(js "errors", r)]])
  | CLEAR_BY n =>
      (l, match n with
          | None => Ok t
          | Some f =>
              let! es := get t "errors" in
              match es with
              | VList xs => let! bs := mapR f xs in
                            merge t [VObj [(js "errors", VList (fst <$> List.filter snd (zip xs bs)))]]
              | _ => Throw (no_method "filter")
              end
          end)
  end.

(** ** Selectors of the error log *)

Definition allErrors (e : value) : result value := get_or e (str "errors") emptyList.
Definition lastError (e : value) : result value :=
  let! l := allErrors e in match l with VList l => Ok (default VUndef (last l)) | _ => Throw (no_method "last") end.

Example err_ex :
  (reduce default_error emptyMap (NEW_THROWN_ERR (VObj [(js "message", VStr (js "instance.x is not of a type(s) a,b,c"))]))).2
   = Ok (VMap false [(str "errors", VList [VMap false [(str "line", VNum 0); (str "level", str "error");
       (str "message", str "x should be a a, b, or c"); (str "type", str "thrown")]])]).
Proof. reflexivity. Qed.

(** ** Layout *)

Inductive layout_action :=
  | UPDATE_LAYOUT (payload : value)
  | UPDATE_FILTER (payload : value)
  | SHOW (thing shown : value)
  | UPDATE_MODE (thing mode : value).

(** [Array.isArray(e) ? e : [e]] *)
Definition normalizeArray (e : value) : value := match e with VArr _ => e | _ => VArr [e] end.

Definition updateLayout (e : value) : layout_action := UPDATE_LAYOUT e.
Definition updateFilter (e : value) : layout_action := UPDATE_FILTER e.
Definition show (e t : value) : layout_action :=
  SHOW (normalizeArray e) (match t with VUndef => VBool true | _ => t end).
Definition changeMode (e t : value) : layout_action :=
  UPDATE_MODE (normalizeArray e) (match t with VUndef => VStr [] | _ => t end).

(** [["modes"].concat(n)] *)
Definition path_of (n : value) : list value := match n with VArr l => l | _ => [n] end.

Definition layout_reduce (e : value) (a : layout_action) : result value :=
  match a with
  | UPDATE_LAYOUT p => set e (str "layout") p
  | UPDATE_FILTER p => set e (str "filter") p
  | SHOW thing shown => update e (str "shown") (fromJS (VObj [])) (λ e, set e (fromJS thing) shown)
  | UPDATE_MODE thing mode => setIn e (str "modes" :: path_of thing) (VStr (to_text (vor mode (VStr []))))
  end.

Definition current (e : value) : result value := get e "layout".
Definition currentFilter (e : value) : result value := get e "filter".
Definition isShown (e t n : value) : result value :=
  let! m := get_or e (str "shown") (fromJS (VObj [])) in get_or m (fromJS (normalizeArray t)) n.
Definition whatMode (e t n : value) : result value :=
  getIn e (str "modes" :: path_of (normalizeArray t)) (match n with VUndef => VStr [] | _ => n end).
Definition showSummary (e : value) : result bool :=
  let! s := isShown e (str "editor") VUndef in Ok (negb (truthy s)).

(** ** Configuration *)

Inductive config_action :=
  | UPDATE_CONFIGS (payload : value)
  | TOGGLE_CONFIGS (payload : value).
Definition config_update (e : list Z) (t : value) : config_action := UPDATE_CONFIGS (VObj [(e, t)]).
Definition config_toggle (e : value) : config_action := TOGGLE_CONFIGS e.
Definition config_reduce (e : value) (a : config_action) : result value :=
  match a with
  | UPDATE_CONFIGS p => merge e [fromJS p]
  | TOGGLE_CONFIGS n => let! r := get_or e n VUndef in set e n (VBool (negb (truthy r)))
  end.
Definition config_get (e t : value) : result value := getIn e (path_of t) VUndef.

(** * Properties *)

(** ** The error log *)

(** The defaults are one object: what an error sets stays for the next ones. *)
Example thrown_err_stale :
  let first := NEW_THROWN_ERR (VObj [(js "source", str "resolver"); (js "line", VNum 7); (js "message", str "first")]) in
  let second := NEW_THROWN_ERR (VObj [(js "level", str "warning")]) in
  let '(l, t) := reduce default_error emptyMap first in
  match t with
  | Ok t =>
      match reduce l t second with
      | (_, Ok t) => lastError t
      | (_, Throw e) => Throw e
      end
  | Throw e => Throw e
  end = Ok (VMap false [(str "line", VNum 7); (str "level", str "warning"); (str "message", str "first");
              (str "source", str "resolver"); (str "type", str "thrown")]).
Proof. reflexivity. Qed.




(** *** What an action carries *)





Lemma map_set_isMap e k x e' : isMap e = true -> set e k x = Ok e' -> isMap e' = true.
Proof. destruct e; try done. intros _ [= <-]. done. Qed.









Example clearBy_throws : (reduce default_error emptyMap (clearBy None)).2 = Throw (no_method "filter").
Proof. reflexivity. Qed.



















(** ** The layout *)

(** What is shown is a map, if there is any. *)
Definition layout_ok (e : value) : Prop :=
  ∃ o m, e = VMap o m /\ NoDup (keys m) /\ match map_get m (str "shown") with None => True | Some v => isMap v = true end.

Lemma get_str o m k d : get_or (VMap o m) (str k) d = Ok (default d (map_get m (str k))).
Proof. done. Qed.

(** Showing is what is shown: after [show(thing, s)] the selector [isShown]
    gives [s] for the thing and what it gave before for every other thing, and
    the layout and the filter are as they were. *)
Theorem show_isShown e thing s : layout_ok e -> s <> VUndef ->
  ∃ e', layout_reduce e (show thing s) = Ok e' /\ layout_ok e' /\
    (∀ d, isShown e' thing d = Ok s) /\
    (∀ thing' d, fromJS (normalizeArray thing') <> fromJS (normalizeArray thing) -> isShown e' thing' d = isShown e thing' d) /\
    current e' = current e /\ currentFilter e' = currentFilter e.
Proof.
  intros (o & m & -> & Hn & Hm) Hs. unfold layout_reduce, show.
  replace (match s with VUndef => VBool true | _ => s end) with s by (by destruct s).
  set (k := fromJS (normalizeArray thing)).
  assert (Hsh : ∃ o' m', default (fromJS (VObj [])) (map_get m (str "shown")) = VMap o' m').
  { destruct (map_get m (str "shown")) as [[| | | | |o' m'| | | |]|]; try done; [by exists o', m'|by exists false, []]. }
  destruct Hsh as (o' & m' & Hsh).
  rewrite (update_one o m (str "shown") _ _ (VMap o' (map_set m' k s))).
  - eexists. split; [done|].
    assert (Hg : map_get (map_set m (str "shown") (VMap o' (map_set m' k s))) (str "shown") = Some (VMap o' (map_set m' k s)))
      by (by rewrite map_get_set, decide_True).
    assert (Hother : ∀ x, str x <> str "shown" -> map_get (map_set m (str "shown") (VMap o' (map_set m' k s))) (str x) = map_get m (str x))
      by (intros x Hx; by rewrite map_get_set, decide_False).
    split_and!.
    + eexists _, _. rewrite Hg. split_and!; [done|by apply map_set_nodup|done].
    + intros d. unfold isShown. rewrite get_str, Hg. cbn [result_bind]. unfold get_or. cbn. rewrite map_get_set. fold k. by rewrite decide_True.
    + intros thing' d Hne. unfold isShown. rewrite !get_str, Hg, Hsh. cbn [result_bind]. unfold get_or. cbn. rewrite map_get_set.
      fold k in Hne. by rewrite decide_False.
    + unfold current, get. by rewrite !get_str, Hother.
    + unfold currentFilter, get. by rewrite !get_str, Hother.
  - by rewrite Hsh.
  - intros E. rewrite E in Hsh. injection Hsh as <- <-. done.
Qed.

Lemma show_isShown_witness : ∃ e', layout_reduce (VMap false [(str "layout", str "x")]) (show (VArr [str "operations"; str "pet"]) (VBool false)) = Ok e' /\
  layout_ok e' /\ (∀ d, isShown e' (VArr [str "operations"; str "pet"]) d = Ok (VBool false)) /\
    (∀ thing' d, fromJS (normalizeArray thing') <> fromJS (normalizeArray (VArr [str "operations"; str "pet"])) ->
       isShown e' thing' d = isShown (VMap false [(str "layout", str "x")]) thing' d) /\
    current e' = current (VMap false [(str "layout", str "x")]) /\ currentFilter e' = currentFilter (VMap false [(str "layout", str "x")]).
Proof.
  apply show_isShown; [|done]. exists false, [(str "layout", str "x")]. split_and!; [done|apply NoDup_singleton|done].
Defined.

End UiErr.
