(* ===== verification/UiAuth.v ===== *)
(** Authorization in Swagger UI, in the bundle
    client/docs/swagger-ui/swagger-ui-bundle.js: the actions (lines 9035-9201),
    the reducer (15941-15980) and the selectors (15996-16055) of the [auth]
    plugin, and [buildFormData] (3028-3035).

    An action that works through other actions is the list of what it
    dispatches; [JSON.stringify] is a parameter of the one that uses it. *)

From stdpp Require Import base list list_numbers numbers strings gmap.
From Stdlib Require Import ZArith Lia.
From S2P Require Import Prelude Base64 Buffer BufferText Uri Json Im UiErr Query.

Module UiAuth.
Import Im.
Import Uri (encodeURIComponent).

(** ** Actions *)

Inductive action :=
  | SHOW_AUTH_POPUP (payload : value)
  | AUTHORIZE (payload : value)
  | LOGOUT (payload : list value)
  | AUTHORIZE_OAUTH2 (auth token : value)
  | CONFIGURE_AUTH (payload : value).

Definition showDefinitions (e : value) : action := SHOW_AUTH_POPUP e.
Definition authorize (e : value) : action := AUTHORIZE e.
Definition logout (e : list value) : action := LOGOUT e.
Definition authorizeOauth2 (auth token : value) : action := AUTHORIZE_OAUTH2 auth token.
Definition configureAuth (e : value) : action := CONFIGURE_AUTH e.

(** What an asynchronous action dispatches. *)
Inductive dispatch :=
  | NewAuthErr (e : value)
  | AuthorizeOauth2 (auth token : value)
  | AuthorizeRequest (r : value).

Definition auth_err (authId : value) (level : string) (message : list Z) : value :=
  VObj [(js "authId", authId); (js "source", str "auth"); (js "level", str level); (js "message", VStr message)].

Definition preAuthorizeImplicit (stringify : value -> list Z) (auth token isValid : value) : result (list dispatch) :=
  let! schema := field auth "schema" in
  let! name := field auth "name" in
  let! flow := get schema "flow" in
  let unsafe :=
    if bool_decide (flow = str "accessCode") || truthy isValid then []
    else [NewAuthErr (auth_err name "warning"
      (js "Authorization may be unsafe, passed state was changed in server Passed state wasn't returned from auth server"))] in
  let! err := field token "error" in
  Ok (unsafe ++ (if truthy err then [NewAuthErr (auth_err name "error" (stringify token))]
                 else [AuthorizeOauth2 auth token])).

(** [encodeURIComponent(r).replace(/%20/g, "+")] *)
Fixpoint space_to_plus (s : list Z) (skip : nat) : list Z :=
  match s with
  | [] => []
  | c :: s' =>
      match skip with
      | S skip => space_to_plus s' skip
      | O => if Json.prefix_at (js "%20") s then 43 :: space_to_plus s' 2 else c :: space_to_plus s' O
      end
  end.
Definition buildFormData (e : list (list Z * value)) : result (list Z) :=
  let! t := mapR (λ kv, let! s := encodeURIComponent (to_text kv.2) in Ok (kv.1 ++ [61] ++ space_to_plus s O))
              (List.filter (λ kv, negb (bool_decide (kv.2 = VUndef)) && negb (bool_decide (kv.2 = VStr []))) e) in
  Ok (Json.join [38] t).

(** ["Basic " + btoa(a + ":" + u)] *)
Definition basic_header (a u : value) : result (list Z) :=
  let! b := Buffer.btoa (to_text a ++ [58] ++ to_text u) in Ok (js "Basic " ++ b).

(** [e.scopes.join(" ")] *)
Definition join_scopes (v : value) : result value :=
  match v with
  | VArr l => Ok (VStr (Json.join [32] (to_text <$> l)))
  | _ => Throw (no_method "join")
  end.

(** The request that asks for a token. *)
Definition token_request (body : list Z) (schema name auth : value) (extra : list (list Z * value)) : result (list dispatch) :=
  let! url := get schema "tokenUrl" in
  Ok [AuthorizeRequest (VObj ([(js "body", VStr body); (js "url", url); (js "name", name)] ++ extra ++ [(js "auth", auth)]))].

Definition authorizePassword (e : value) : result (list dispatch) :=
  let! schema := field e "schema" in
  let! name := field e "name" in
  let! username := field e "username" in
  let! password := field e "password" in
  let! passwordType := field e "passwordType" in
  let! clientId := field e "clientId" in
  let! clientSecret := field e "clientSecret" in
  let! scopes := field e "scopes" in
  let! scope := join_scopes scopes in
  let p := [(js "grant_type", str "password"); (js "scope", scope)] in
  let with_user := p ++ [(js "username", username); (js "password", password)] in
  let! x :=
    if bool_decide (passwordType = str "basic") then
      let! h := basic_header username password in Ok (p, [], [(js "Authorization", VStr h)])
    else if bool_decide (passwordType = str "query") then
      Ok (with_user, (if truthy clientId then [(js "client_id", clientId)] else [])
                     ++ (if truthy clientSecret then [(js "client_secret", clientSecret)] else []), [])
    else
      let! h := basic_header clientId clientSecret in Ok (with_user, [], [(js "Authorization", VStr h)]) in
  let '(p, query, headers) := x in
  let! body := buildFormData p in
  token_request body schema name e [(js "headers", VObj headers); (js "query", VObj query)].

Definition authorizeApplication (e : value) : result (list dispatch) :=
  let! schema := field e "schema" in
  let! scopes := field e "scopes" in
  let! name := field e "name" in
  let! clientId := field e "clientId" in
  let! clientSecret := field e "clientSecret" in
  let! h := basic_header clientId clientSecret in
  let! scope := join_scopes scopes in
  let! body := buildFormData [(js "grant_type", str "client_credentials"); (js "scope", scope)] in
  token_request body schema name e [(js "headers", VObj [(js "Authorization", VStr h)])].

Definition authorizeAccessCodeWithFormParams (auth redirectUrl : value) : result (list dispatch) :=
  let! schema := field auth "schema" in
  let! name := field auth "name" in
  let! clientId := field auth "clientId" in
  let! clientSecret := field auth "clientSecret" in
  let! code := field auth "code" in
  let! body := buildFormData [(js "grant_type", str "authorization_code"); (js "code", code); (js "client_id", clientId);
                              (js "client_secret", clientSecret); (js "redirect_uri", redirectUrl)] in
  token_request body schema name auth [].

Definition authorizeAccessCodeWithBasicAuthentication (auth redirectUrl : value) : result (list dispatch) :=
  let! schema := field auth "schema" in
  let! name := field auth "name" in
  let! clientId := field auth "clientId" in
  let! clientSecret := field auth "clientSecret" in
  let! h := basic_header clientId clientSecret in
  let! code := field auth "code" in
  let! body := buildFormData [(js "grant_type", str "authorization_code"); (js "code", code); (js "client_id", clientId);
                              (js "redirect_uri", redirectUrl)] in
  token_request body schema name auth [(js "headers", VObj [(js "Authorization", VStr h)])].

(** ** Reducer *)

(** One entry of the payload of [AUTHORIZE]. *)
Definition authorize_entry (o : value) (e : value * value) : result value :=
  let '(n, r) := e in
  let! i := getIn r [str "schema"; str "type"] VUndef in
  if bool_decide (i = str "apiKey") || bool_decide (i = str "http") then set o n r
  else if bool_decide (i = str "basic") then
    let! u := getIn r [str "value"; str "username"] VUndef in
    let! l := getIn r [str "value"; str "password"] VUndef in
    let! h := basic_header u l in
    let! o := setIn o [n; str "value"] (VObj [(js "username", u); (js "header", VStr h)]) in
    let! schema := get r "schema" in
    setIn o [n; str "schema"] schema
  else Ok o.

Definition entrySeq (v : value) : result (list (value * value)) :=
  match v with
  | VMap _ m => Ok m
  | VList l => Ok (imap (λ i x, (VNum (Z.of_nat i), x)) l)
  | _ => Throw (no_method "entrySeq")
  end.

Definition reduce (e : value) (a : action) : result value :=
  match a with
  | SHOW_AUTH_POPUP n => set e (str "showDefinitions") n
  | AUTHORIZE n =>
      let! es := entrySeq (fromJS n) in
      let! cur := get e "authorized" in
      let! o := foldR authorize_entry (vor cur emptyMap) es in
      set e (str "authorized") o
  | AUTHORIZE_OAUTH2 r o =>
      match r with
      | VObj auth =>
          let a := fromJS (VObj (put auth (js "token") (VObj (assign [] (UiErr.props o))))) in
          let! name := get a "name" in
          setIn e [str "authorized"; name] a
      | _ => Throw (TypeError (js "Cannot set properties of undefined"))
      end
  | LOGOUT n =>
      let! cur := get e "authorized" in
      match cur with
      | VMap o m => set e (str "authorized") (VMap o (foldl map_remove m n))
      | _ => Throw (no_method "withMutations")
      end
  | CONFIGURE_AUTH n => set e (str "configs") n
  end.

(** ** Selectors *)

Definition shownDefinitions (e : value) : result value := get e "showDefinitions".
Definition authorized (e : value) : result value := let! a := get e "authorized" in Ok (vor a emptyMap).
Definition getConfigs (e : value) : result value := get e "configs".

(** A list of maps of one entry; [defs] are the [securityDefinitions] of the spec. *)
Definition definitionsToAuthorize (defs : value) : result value :=
  let! es := entrySeq (vor defs emptyMap) in Ok (VList ((λ kv, VMap false [kv]) <$> es)).

(** The scopes of an OAuth2 definition that a requirement names. *)
Definition allowed_scopes (u a : value) : result value :=
  let! scopes := get u "scopes" in
  match scopes, a with
  | VMap o m, VList l => set u (str "allowedScopes") (VMap o (List.filter (λ kv, bool_decide (kv.1 ∈ l)) m))
  | VMap o m, (VSet l) => set u (str "allowedScopes") (VMap o (List.filter (λ kv, bool_decide (kv.1 ∈ l)) m))
  | VMap o m, VMap _ n => set u (str "allowedScopes") (VMap o (List.filter (λ kv, bool_decide (kv.1 ∈ snd <$> n)) m))
  | _, _ => Throw (no_method "keySeq")
  end.
Definition getDefinitionsByNames (defs t : value) : result value :=
  match t with
  | VList l =>
      let! l := mapR (λ e, let! es := entrySeq e in
                let! m := foldR (λ t kv,
                  let '(i, a) := kv in
                  let! u := get_or defs i VUndef in
                  let! ty := get u "type" in
                  let! u := if bool_decide (ty = str "oauth2") && (0 <? im_size a) then allowed_scopes u a else Ok u in
                  Ok (map_set t i u)) [] es in
                Ok (VMap false m)) l in
      Ok (VList l)
  | _ => Throw (no_method "valueSeq")
  end.

Definition first_key (v : value) : value := match v with VMap _ ((k, _) :: _) => k | _ => VUndef end.
(** The definitions that one of the requirements [t] names. *)
Definition definitionsForRequirements (defs : value) (t : list value) : result value :=
  let! d := definitionsToAuthorize defs in
  match d with
  | VList l =>
      let! bs := mapR (λ e, let! hits := mapR (λ r, let! x := get_or r (first_key e) VUndef in Ok (truthy x)) t in
                            Ok (existsb id hits)) l in
      Ok (VList (fst <$> List.filter snd (zip l bs)))
  | _ => Ok d
  end.

(** [Object.keys] of the plain form of a requirement. *)
Definition indices {A} (l : list A) : list value := imap (λ i _, VStr (Json.dec (Z.of_nat i))) l.
Definition names_of (v : value) : result (list value) :=
  match v with
  | VMap _ m => Ok ((λ k, VStr (to_text k)) <$> keys m)
  | VObj o => Ok ((λ kv, VStr kv.1) <$> o)
  | VList l | VSet l | VArr l => Ok (indices l)
  | VStr s => Ok (indices s)
  | VUndef | VNull => Throw (TypeError (js "Cannot convert undefined or null to object"))
  | _ => Ok []
  end.
(** Some requirement has all its names authorized; [None] is [null]. *)
Definition isAuthorized (e t : value) : result (option bool) :=
  match t with
  | VList l =>
      let! n := authorized e in
      let! bs := mapR (λ r, let! ks := names_of r in
                            let! xs := mapR (λ k, let! x := get_or n k VUndef in Ok (truthy x)) ks in
                            Ok (forallb id xs)) l in
      Ok (Some (existsb id bs))
  | _ => Ok None
  end.

Example auth_ex :
  let cred := VObj [(js "schema", VMap false [(str "type", str "basic")]);
                    (js "value", VObj [(js "username", str "Aladdin"); (js "password", str "open sesame")])] in
  reduce emptyMap (AUTHORIZE (VObj [(js "b", cred)])) =
    Ok (VMap false [(str "authorized", VMap false [(str "b", VMap false [
      (str "value", VObj [(js "username", str "Aladdin"); (js "header", str "Basic QWxhZGRpbjpvcGVuIHNlc2FtZQ==")]);
      (str "schema", VMap false [(str "type", str "basic")])])])])
  /\ buildFormData [(js "scope", str "a b&c"); (js "x", VUndef); (js "n", VNum 5)] = Ok (js "scope=a+b%26c&n=5").
Proof. vm_compute. auto. Qed.

(** * Properties *)

(** The credentials a state holds. *)
Definition credentials (s : value) : list (value * value) :=
  match s with VMap _ m => match map_get m (str "authorized") with Some (VMap _ c) => c | _ => [] end | _ => [] end.
Definition credential (s k : value) : option value := map_get (credentials s) k.

(** A map; what is authorized, if anything, is a map of maps. *)
Definition auth_ok (s : value) : Prop :=
  ∃ o m, s = VMap o m /\ NoDup (keys m) /\
    match map_get m (str "authorized") with
    | None => True
    | Some v => ∃ o' c, v = VMap o' c /\ NoDup (keys c) /\ (∀ k x, map_get c k = Some x -> isMap x = true)
    end.

Lemma setIn_one o m k x : setIn (VMap o m) [k] x = Ok (VMap o (map_set m k x)).
Proof.
  unfold setIn. cbn [has_set negb updateInDeep im_get]. destruct (map_get m k) as [v|] eqn:E; cbn [result_bind].
  - destruct (decide (Some x = Some v)) as [E'|]; [injection E' as ->; rewrite decide_True by done; cbn; by rewrite map_set_same|].
    by rewrite decide_False.
  - rewrite decide_False by done. by rewrite decide_False.
Qed.

(** A write two steps down: the inner map is made when there is none. *)
Lemma setIn_two o m k a x : match map_get m k with None => True | Some v => isMap v = true end ->
  ∃ o' m', setIn (VMap o m) [k; a] x = Ok (VMap o (map_set m k (VMap o' (map_set m' a x)))) /\
    default emptyMap (map_get m k) = VMap o' m'.
Proof.
  intros Hk. unfold setIn. cbn [has_set negb updateInDeep im_get]. destruct (map_get m k) as [v|] eqn:E.
  - destruct v as [| | | | |o' m'| | | |]; try done. exists o', m'. split; [|done]. cbn [has_set negb im_get].
    assert (H := setIn_one o' m' a x). unfold setIn in H. cbn [has_set negb updateInDeep im_get] in H.
    match type of H with (let! r := ?c in _) = _ => destruct c as [f|]; [|done] end. cbn in H. injection H as H. cbn [result_bind].
    destruct f as [f|]; cbn in H; [subst f|done].
    destruct (decide (Some (VMap o' (map_set m' a x)) = Some (VMap o' m'))) as [E'|]; [|done].
    injection E' as ->. cbn. by rewrite map_set_same.
  - exists false, []. split; [|done]. cbn [result_bind]. rewrite decide_False by done. cbn [result_bind im_set emptyMap]. by rewrite decide_False.
Qed.

(** What an accepted credential adds. *)
Lemma authorize_entry_ok o c k r ty : isMap r = true -> getIn r [str "schema"; str "type"] VUndef = Ok ty ->
  ty ∈ [str "apiKey"; str "http"; str "basic"] ->
  (∀ x, map_get c k = Some x -> isMap x = true) ->
  (∀ u l, getIn r [str "value"; str "username"] VUndef = Ok u -> getIn r [str "value"; str "password"] VUndef = Ok l ->
     ∃ h, basic_header u l = Ok h) ->
  ∃ x, authorize_entry (VMap o c) (k, r) = Ok (VMap o (map_set c k x)) /\ isMap x = true.
Proof.
  intros Hr Hty Hin Hc Hh. unfold authorize_entry. rewrite Hty. cbn [result_bind].
  destruct (bool_decide (ty = str "apiKey") || bool_decide (ty = str "http")) eqn:E; [by exists r|].
  assert (Hb : bool_decide (ty = str "basic") = true).
  { apply bool_decide_true. apply orb_false_iff in E as [E1%bool_decide_eq_false E2%bool_decide_eq_false].
    repeat (apply elem_of_cons in Hin as [->|Hin]; [done|]). by apply not_elem_of_nil in Hin. }
  rewrite Hb. destruct r as [| | | | |or mr| | | |]; try done. unfold getIn at 1 2. cbn [has_get isIterable result_bind].
  destruct (Hh (default VUndef (get_in (VMap or mr) [str "value"; str "username"])) (default VUndef (get_in (VMap or mr) [str "value"; str "password"])) eq_refl eq_refl) as (h & ->).
  cbn [result_bind]. destruct (setIn_two o c k (str "value") (VObj [(js "username", default VUndef (get_in (VMap or mr) [str "value"; str "username"])); (js "header", VStr h)])) as (o' & m' & -> & _).
  { destruct (map_get c k) eqn:Ek; [by apply Hc|done]. }
  cbn [result_bind]. unfold get at 1. rewrite UiErr.get_str. cbn [result_bind].
  set (w := VMap o' _). destruct (setIn_two o (map_set c k w) k (str "schema") (default VUndef (map_get mr (str "schema")))) as (o'' & m'' & -> & E'').
  { by rewrite map_get_set, decide_True. }
  rewrite map_set_twice. by eexists.
Qed.

Lemma isAuthorized_one s k o x : auth_ok s ->
  isAuthorized s (VList [VMap o [(VStr k, x)]]) = Ok (Some (match credential s (VStr k) with Some v => truthy v | None => false end)).
Proof.
  intros (oo & m & -> & _ & Ha). unfold isAuthorized, authorized, get. rewrite UiErr.get_str. unfold credential, credentials.
  destruct (map_get m (str "authorized")) as [v|].
  - destruct Ha as (o' & c & -> & _). cbn. destruct (map_get c (VStr k)) as [y|]; [by destruct y as [| |[]|[]|[]| | | | |]|done].
  - done.
Qed.

(** C26. Authorizing and logging out: a credential of a supported type becomes
    authorized and, after logging out, is so no more; no other credential
    changes. *)
Theorem authorize_logout s k r ty : auth_ok s -> isMap (fromJS r) = true ->
  getIn (fromJS r) [str "schema"; str "type"] VUndef = Ok ty -> ty ∈ [str "apiKey"; str "http"; str "basic"] ->
  (∀ u l, getIn (fromJS r) [str "value"; str "username"] VUndef = Ok u ->
     getIn (fromJS r) [str "value"; str "password"] VUndef = Ok l -> ∃ h, basic_header u l = Ok h) ->
  ∃ s1 s2, reduce s (authorize (VObj [(k, r)])) = Ok s1 /\ reduce s1 (logout [VStr k]) = Ok s2 /\ auth_ok s1 /\ auth_ok s2 /\
    (∀ o x, isAuthorized s1 (VList [VMap o [(VStr k, x)]]) = Ok (Some true) /\
            isAuthorized s2 (VList [VMap o [(VStr k, x)]]) = Ok (Some false)) /\
    (∀ j, j <> VStr k -> credential s1 j = credential s j /\ credential s2 j = credential s j).
Proof.
  intros (o & m & -> & Hn & Ha) Hr Hty Hin Hh.
  assert (Hc : ∃ o' c, vor (default VUndef (map_get m (str "authorized"))) emptyMap = VMap o' c /\ NoDup (keys c) /\
    (∀ k x, map_get c k = Some x -> isMap x = true) /\ credentials (VMap o m) = c).
  { unfold credentials. destruct (map_get m (str "authorized")) as [v|].
    - destruct Ha as (o' & c & -> & H1 & H2). by exists o', c.
    - exists false, []. split_and!; [done|apply NoDup_nil_2|done|done]. }
  destruct Hc as (o' & c & Hv & Hnc & Hmc & Hcred).
  destruct (authorize_entry_ok o' c (VStr k) (fromJS r) ty Hr Hty Hin) as (x & He & Hx); [|done|].
  { intros y Hy. by apply (Hmc (VStr k)). }
  set (c1 := map_set c (VStr k) x). set (m1 := map_set m (str "authorized") (VMap o' c1)).
  set (c2 := map_remove c1 (VStr k)). set (m2 := map_set m1 (str "authorized") (VMap o' c2)).
  assert (Hn1 : NoDup (keys c1)) by (by apply map_set_nodup).
  assert (G1 : map_get m1 (str "authorized") = Some (VMap o' c1)) by (unfold m1; by rewrite map_get_set, decide_True).
  assert (G2 : map_get m2 (str "authorized") = Some (VMap o' c2)) by (unfold m2; by rewrite map_get_set, decide_True).
  assert (C1 : ∀ j, map_get c1 j = if decide (j = VStr k) then Some x else map_get c j) by (intros; apply map_get_set).
  assert (C2 : ∀ j, map_get c2 j = if decide (j = VStr k) then None else map_get c j).
  { intros j. unfold c2. rewrite map_get_remove by done. rewrite C1. by destruct (decide (j = VStr k)). }
  assert (O1 : auth_ok (VMap o m1)).
  { exists o, m1. rewrite G1. split_and!; [done|by apply map_set_nodup|]. exists o', c1. split_and!; [done|done|].
    intros j y Hy. rewrite C1 in Hy. destruct (decide (j = VStr k)); [congruence|by eapply Hmc]. }
  assert (O2 : auth_ok (VMap o m2)).
  { exists o, m2. rewrite G2. split_and!; [done|by do 2 apply map_set_nodup|]. exists o', c2. split_and!; [done| |].
    - by apply map_remove_nodup.
    - intros j y Hy. rewrite C2 in Hy. destruct (decide (j = VStr k)); [done|by eapply Hmc]. }
  exists (VMap o m1), (VMap o m2). split_and!; try done.
  - unfold reduce, authorize. cbn [fromJS fmap list_fmap entrySeq result_bind]. unfold get. rewrite UiErr.get_str. cbn [result_bind].
    rewrite Hv. cbn [foldR]. rewrite He. done.
  - unfold reduce, logout, get. rewrite UiErr.get_str, G1. done.
  - intros oo y. rewrite !isAuthorized_one by done. unfold credential, credentials. rewrite G1, G2, C1, C2, !decide_True by done.
    split; [|done]. by destruct x.
  - intros j Hj. unfold credential. rewrite Hcred. unfold credentials. by rewrite G1, G2, C1, C2, !decide_False.
Qed.

Lemma authorize_logout_witness :
  let cred := VObj [(js "schema", VMap false [(str "type", str "basic")]);
                    (js "value", VObj [(js "username", str "u"); (js "password", str "p")])] in
  ∃ s1 s2, reduce (VMap false [(str "authorized", VMap false [(str "other", emptyMap)])]) (authorize (VObj [(js "b", cred)])) = Ok s1 /\
    reduce s1 (logout [str "b"]) = Ok s2 /\ auth_ok s1 /\ auth_ok s2 /\
    (∀ o x, isAuthorized s1 (VList [VMap o [(str "b", x)]]) = Ok (Some true) /\
            isAuthorized s2 (VList [VMap o [(str "b", x)]]) = Ok (Some false)) /\
    (∀ j, j <> str "b" -> credential s1 j = credential (VMap false [(str "authorized", VMap false [(str "other", emptyMap)])]) j /\
       credential s2 j = credential (VMap false [(str "authorized", VMap false [(str "other", emptyMap)])]) j).
Proof.
  intros cred. apply (authorize_logout _ (js "b") cred (str "basic")).
  - exists false, [(str "authorized", VMap false [(str "other", emptyMap)])]. split_and!; [done|apply NoDup_singleton|].
    exists false, [(str "other", emptyMap)]. split_and!; [done|apply NoDup_singleton|]. intros k x. cbn. destruct (decide _); [|done]. by intros [= <-].
  - done.
  - reflexivity.
  - apply (bool_decide_unpack _). vm_compute. exact I.
  - intros u l Hu Hl. vm_compute in Hu, Hl. injection Hu as <-. injection Hl as <-. eexists. vm_compute. reflexivity.
Defined.

End UiAuth.
