(* ===== verification/UiOas3.v ===== *)
(** The [oas3] plugin of Swagger UI in the bundle
    client/docs/swagger-ui/swagger-ui-bundle.js: the version tests (lines
    3655-3682), the action creators (9336-9395), the reducer (20546-20582), the
    selectors (20482-20531) and the wrappers of the selectors of the specification
    (19217-19259, 19319-19344) and of the authorization (19276-19310).

    A selector gets the specification [spec] that [getSystem()] would give.
    Patterns of [RegExp] are executed when the name in them is plain text; the
    others are the parameter [regexp_replace]. *)

From stdpp Require Import base list list_numbers numbers strings gmap.
From Stdlib Require Import ZArith Lia.
From S2P Require Import Prelude Json Im UiErr UiAuth.

Module UiOas3.
Import Im.

(** ** Versions *)

(** ["string" == typeof t && t.startsWith("3.0.") && t.length > 4] *)
Definition isOAS3 (e : value) : result bool :=
  let! t := get e "openapi" in
  Ok (match t with VStr s => Json.prefix_at (js "3.0.") s && (4 <? len s) | _ => false end).
Definition isSwagger2 (e : value) : result bool :=
  let! t := get e "swagger" in
  Ok (match t with VStr s => Json.prefix_at (js "2.0") s | _ => false end).

(** ** Actions *)

Inductive action :=
  | UPDATE_SELECTED_SERVER (selectedServerUrl namespace : value)
  | UPDATE_REQUEST_BODY_VALUE (v pathMethod : value)
  | UPDATE_REQUEST_CONTENT_TYPE (v pathMethod : value)
  | UPDATE_RESPONSE_CONTENT_TYPE (v path method : value)
  | UPDATE_SERVER_VARIABLE_VALUE (server namespace key val : value).

Definition setSelectedServer (e t : value) : action := UPDATE_SELECTED_SERVER e t.
Definition setRequestBodyValue (e : value) : result action :=
  let! t := field e "value" in let! n := field e "pathMethod" in Ok (UPDATE_REQUEST_BODY_VALUE t n).
Definition setRequestContentType (e : value) : result action :=
  let! t := field e "value" in let! n := field e "pathMethod" in Ok (UPDATE_REQUEST_CONTENT_TYPE t n).
Definition setResponseContentType (e : value) : result action :=
  let! t := field e "value" in let! n := field e "path" in let! r := field e "method" in
  Ok (UPDATE_RESPONSE_CONTENT_TYPE t n r).
Definition setServerVariableValue (e : value) : result action :=
  let! t := field e "server" in let! n := field e "namespace" in
  let! r := field e "key" in let! o := field e "val" in
  Ok (UPDATE_SERVER_VARIABLE_VALUE t n r o).

(** ** Reducer *)

(** [slicedToArray(o, 2)] of an array or a list; elements that are not there
    are [undefined]. *)
Definition two (o : value) : result (value * value) :=
  match o with
  | VArr l | VList l => Ok (default VUndef (l !! 0%nat), default VUndef (l !! 1%nat))
  | _ => Throw (TypeError (js "Invalid attempt to destructure non-iterable instance"))
  end.

(** [o ? [o].concat(p) : p] *)
Definition under (o : value) (p : list value) : list value := if truthy o then o :: p else p.

Definition reduce (e : value) (a : action) : result value :=
  match a with
  | UPDATE_SELECTED_SERVER r o => setIn e (under o [str "selectedServer"]) r
  | UPDATE_REQUEST_BODY_VALUE r o =>
      let! us := two o in setIn e [str "requestData"; us.1; us.2; str "bodyValue"] r
  | UPDATE_REQUEST_CONTENT_TYPE r o =>
      let! us := two o in setIn e [str "requestData"; us.1; us.2; str "requestContentType"] r
  | UPDATE_RESPONSE_CONTENT_TYPE r o i => setIn e [str "requestData"; o; i; str "responseContentType"] r
  | UPDATE_SERVER_VARIABLE_VALUE r o i a => setIn e (under o [str "serverVariableValues"; r; i]) a
  end.

(** ** Selectors *)

(** The wrapper [i]: the selector answers for OpenAPI 3 only. *)
Definition onlyOAS3 (spec : value) (sel : result value) : result value :=
  let! b := isOAS3 spec in if b then sel else Ok VNull.

(** [e.getIn(p) || d] *)
Definition getIn_or (e : value) (p : list value) (d : value) : result value :=
  let! v := getIn e p VUndef in Ok (vor v d).

Definition selectedServer (spec e t : value) : result value :=
  onlyOAS3 spec (getIn_or e (under t [str "selectedServer"]) (VStr [])).
Definition requestBodyValue (spec e t n : value) : result value :=
  onlyOAS3 spec (getIn_or e [str "requestData"; t; n; str "bodyValue"] VNull).
Definition requestContentType (spec e t n : value) : result value :=
  onlyOAS3 spec (getIn_or e [str "requestData"; t; n; str "requestContentType"] VNull).
Definition responseContentType (spec e t n : value) : result value :=
  onlyOAS3 spec (getIn_or e [str "requestData"; t; n; str "responseContentType"] VNull).

(** A server is named by its URL or by an object with a namespace. *)
Definition server_path (t : value) : result (value * list value) :=
  match t with
  | VStr _ => Ok (t, [str "serverVariableValues"; t])
  | _ => let! o := field t "server" in
         let! i := field t "namespace" in
         Ok (o, under i [str "serverVariableValues"; o])
  end.
Definition serverVariableValue (spec e t n : value) : result value :=
  onlyOAS3 spec (let! p := server_path t in getIn_or e (p.2 ++ [n]) VNull).
Definition serverVariables (spec e t : value) : result value :=
  onlyOAS3 spec (let! p := server_path t in getIn_or e p.2 emptyOrderedMap).

(** [String.prototype.replace] with a global pattern that is plain text [p]:
    dollar signs of the replacement are expanded. *)
Fixpoint expand (r before m after : list Z) : list Z :=
  match r with
  | [] => []
  | d :: (c :: r') as tl =>
      if negb (d =? 36) then d :: expand tl before m after
      else if c =? 36 then 36 :: expand r' before m after
      else if c =? 38 then m ++ expand r' before m after
      else if c =? 96 then before ++ expand r' before m after
      else if c =? 39 then after ++ expand r' before m after
      else d :: expand tl before m after
  | [d] => [d]
  end.
Fixpoint replace_go (p r before s : list Z) (skip : nat) : list Z :=
  match s with
  | [] => []
  | c :: s' =>
      match skip with
      | S skip => replace_go p r (before ++ [c]) s' skip
      | O => if Json.prefix_at p s
             then expand r before p (drop (length p) s) ++ replace_go p r (before ++ [c]) s' (length p - 1)
             else c :: replace_go p r (before ++ [c]) s' O
      end
  end.
Definition replace_all (p r s : list Z) : list Z := replace_go p r [] s O.

(** A name that the pattern ["{" + name + "}"] matches as it is. *)
Definition word_char (c : Z) : bool :=
  Json.digit c || ((65 <=? c) && (c <=? 90)) || ((97 <=? c) && (c <=? 122)) || (c =? 95) || (c =? 45).
Definition plain_name (s : list Z) : bool :=
  match s with c :: _ => negb (Json.digit c) && forallb word_char s | [] => false end.
Definition braced (k : list Z) : list Z := [123] ++ k ++ [125].

Section effective.
(** [u.replace(new RegExp(pattern, "g"), r)] for other patterns. *)
Variable regexp_replace : list Z -> list Z -> list Z -> result (list Z).

Definition replace_name (u : value) (kv : value * value) : result value :=
  match u with
  | VStr s =>
      let k := to_text kv.1 in
      let r := to_text kv.2 in
      if plain_name k then Ok (VStr (replace_all (braced k) r s))
      else let! s := regexp_replace (braced k) r s in Ok (VStr s)
  | _ => Throw (no_method "replace")
  end.
Definition serverEffectiveValue (spec e t : value) : result value :=
  onlyOAS3 spec (let! p := server_path t in
    let! n := getIn_or e p.2 emptyOrderedMap in
    match n with
    | VMap _ m => foldR replace_name p.1 m
    | _ => Throw (no_method "map")
    end).
End effective.

(** ** Wrapped selectors of the specification *)

(** The wrapper [a]: [new] for OpenAPI 3, else the selector wrapped. *)
Definition wrapOAS3 (spec : value) (new old : result value) : result value :=
  let! b := isOAS3 spec in if b then new else old.

Definition state_or (e : value) : value := vor e emptyMap.
Definition spec_json (e : value) : result value := get_or (state_or e) (str "json") emptyMap.
Definition spec_resolved (e : value) : result value := get_or (state_or e) (str "resolved") emptyMap.
(** [f]: the resolved specification, or the one read when that is empty. *)
Definition specJson_or_resolved (e : value) : result value :=
  let! t := spec_resolved e in
  if isIterable t then if im_size t <? 1 then spec_json e else Ok t else Throw (no_method "count").

Definition definitions (spec e : value) (old : result value) : result value :=
  wrapOAS3 spec (let! s := specJson_or_resolved e in getIn_or s [str "components"; str "schemas"] emptyMap) old.
Definition hasHost (spec e : value) (old : result value) : result value :=
  wrapOAS3 spec (let! s := specJson_or_resolved e in let! b := hasIn s [str "servers"; VNum 0] in Ok (VBool b)) old.
Definition securityDefinitions (spec e : value) (old : result value) : result value :=
  wrapOAS3 spec (let! s := specJson_or_resolved e in getIn_or s [str "components"; str "securitySchemes"] VNull) old.
(** [host], [basePath], [consumes], [produces] and [schemes] are [null]. *)
Definition nullSelector (spec : value) (old : result value) : result value := wrapOAS3 spec (Ok VNull) old.
Definition servers (spec e : value) (old : result value) : result value :=
  wrapOAS3 spec (let! s := specJson_or_resolved e in getIn_or s [str "servers"] emptyMap) old.

Definition map_or_empty (e : value) : value := if isMap e then e else emptyMap.
Definition wrapped_isOAS3 (spec : value) : result bool := isOAS3 (map_or_empty spec).
Definition wrapped_isSwagger2 (spec : value) : result bool := isSwagger2 (map_or_empty spec).

(** The selectors added to those of the specification. *)
Definition spec_servers (spec e : value) : result value :=
  onlyOAS3 spec (let! s := specJson_or_resolved e in getIn_or s [str "servers"] emptyMap).
Definition spec_isSwagger2 (spec : value) : result bool := isSwagger2 spec.

(** ** Wrapped selector of the authorization *)

(** One flow of an OAuth2 scheme. *)
Definition flow_entry (i u : value) (e : value * value) : result value :=
  let '(s, l) := e in
  let! authorizationUrl := get l "authorizationUrl" in
  let! tokenUrl := get l "tokenUrl" in
  let! scopes := get l "scopes" in
  let! type := get u "type" in
  let c := [(str "flow", s); (str "authorizationUrl", authorizationUrl); (str "tokenUrl", tokenUrl);
            (str "scopes", scopes); (str "type", type)] in
  Ok (VMap false [(VStr (to_text i), VMap false (List.filter (λ kv, negb (bool_decide (kv.2 = VUndef)))
        ((λ kv, (kv.1, fromJS kv.2)) <$> c)))]).
Definition scheme_entries (e : value * value) : result (list value) :=
  let '(i, u) := e in
  let! s := get u "type" in
  let! flows :=
    if bool_decide (s = str "oauth2") then
      let! f := get u "flows" in let! es := UiAuth.entrySeq f in mapR (flow_entry i u) es
    else Ok [] in
  Ok (flows ++ (if bool_decide (s = str "http") || bool_decide (s = str "apiKey")
                then [VMap false [(VStr (to_text i), u)]] else [])).
Definition definitionsToAuthorize (spec defs : value) (old : result value) : result value :=
  wrapOAS3 spec (let! es := UiAuth.entrySeq defs in let! l := mapR scheme_entries es in Ok (VList (concat l))) old.

Example oas3_ex :
  let spec := VMap false [(str "openapi", str "3.0.1")] in
  let st := VMap false [(str "serverVariableValues", VMap false [(str "https://{h}.x/{v}",
              VMap false [(str "h", str "api"); (str "v", str "$&2")])])] in
  serverEffectiveValue (λ _ _ s, Ok s) spec st (str "https://{h}.x/{v}") = Ok (str "https://api.x/{v}2")
  /\ selectedServer spec st VUndef = Ok (VStr [])
  /\ isOAS3 (VMap false [(str "openapi", str "3.0.")]) = Ok false
  /\ serverVariableValue spec st (VObj [(js "server", str "a"); (js "namespace", str "n")]) (str "k") = Ok VNull.
Proof. vm_compute. auto. Qed.

(** * Properties *)

(** ** Reading back what was set *)

(** Where an action writes, what it writes, and the selector that reads it. *)
Definition path_of (a : action) : list value :=
  match a with
  | UPDATE_SELECTED_SERVER _ o => under o [str "selectedServer"]
  | UPDATE_REQUEST_BODY_VALUE _ o =>
      match two o with Ok us => [str "requestData"; us.1; us.2; str "bodyValue"] | Throw _ => [] end
  | UPDATE_REQUEST_CONTENT_TYPE _ o =>
      match two o with Ok us => [str "requestData"; us.1; us.2; str "requestContentType"] | Throw _ => [] end
  | UPDATE_RESPONSE_CONTENT_TYPE _ o i => [str "requestData"; o; i; str "responseContentType"]
  | UPDATE_SERVER_VARIABLE_VALUE r o i _ => under o [str "serverVariableValues"; r; i]
  end.
Definition written (a : action) : value :=
  match a with
  | UPDATE_SELECTED_SERVER v _ | UPDATE_REQUEST_BODY_VALUE v _ | UPDATE_REQUEST_CONTENT_TYPE v _
  | UPDATE_RESPONSE_CONTENT_TYPE v _ _ | UPDATE_SERVER_VARIABLE_VALUE _ _ _ v => v
  end.
Definition missing (a : action) : value := match a with UPDATE_SELECTED_SERVER _ _ => VStr [] | _ => VNull end.
Definition read (spec e : value) (a : action) : result value :=
  match a with
  | UPDATE_SELECTED_SERVER _ o => selectedServer spec e o
  | UPDATE_REQUEST_BODY_VALUE _ o => let! us := two o in requestBodyValue spec e us.1 us.2
  | UPDATE_REQUEST_CONTENT_TYPE _ o => let! us := two o in requestContentType spec e us.1 us.2
  | UPDATE_RESPONSE_CONTENT_TYPE _ o i => responseContentType spec e o i
  | UPDATE_SERVER_VARIABLE_VALUE r o i _ =>
      serverVariableValue spec e (VObj [(js "server", r); (js "namespace", o)]) i
  end.

(** A reducer is the write along its path, a selector the read. *)
Lemma reduce_path e a : path_of a <> [] -> reduce e a = setIn e (path_of a) (written a).
Proof. destruct a as [v o|v o|v o|v o i|r o i v]; try done; cbn; destruct (two o) as [us|x]; done. Qed.
Lemma read_path spec e a : isOAS3 spec = Ok true -> path_of a <> [] ->
  read spec e a = getIn_or e (path_of a) (missing a).
Proof.
  intros Hs Hp. destruct a as [v o|v o|v o|v o i|r o i v]; cbn [path_of read missing] in *; unfold selectedServer, requestBodyValue,
    requestContentType, responseContentType, serverVariableValue, onlyOAS3; try (rewrite Hs; done).
  - destruct (two o); [|done]. cbn. by rewrite Hs.
  - destruct (two o); [|done]. cbn. by rewrite Hs.
  - rewrite Hs. cbn [result_bind].
    assert (E : server_path (VObj [(js "server", r); (js "namespace", o)]) = Ok (r, under o [str "serverVariableValues"; r])) by reflexivity.
    rewrite E. cbn [result_bind fst snd]. unfold under. by destruct (truthy o).
Qed.

Lemma getIn_or_map e p d : p <> [] -> has_get e = true -> getIn_or e p d = Ok (vor (default VUndef (get_in e p)) d).
Proof. intros Hp He. unfold getIn_or, getIn. by rewrite He. Qed.

(** C27. What an action of the [oas3] plugin sets, its selector reads: on a state
    with maps (or nothing) along the path, the reducer succeeds, the selector
    then gives the value set (or its default when that value is falsy), and
    every selector whose path parts from that one answers as before. *)
Theorem oas3_reads_back spec e a : isOAS3 spec = Ok true -> path_of a <> [] -> maps_along (Some e) (path_of a) ->
  ∃ e', reduce e a = Ok e' /\ read spec e' a = Ok (vor (written a) (missing a)) /\
    (∀ b, path_of b <> [] -> diverge (path_of a) (path_of b) -> read spec e' b = read spec e b).
Proof.
  intros Hs Hp Hm. rewrite reduce_path by done. destruct (setIn_spec e (path_of a) (written a) Hm Hp) as (e' & He & Hr & Hf).
  exists e'. assert (Hg : has_get e = true) by (by destruct (path_of a); [|destruct e]).
  assert (Hg' : has_get e' = true).
  { destruct (path_of a); [done|]. cbn in Hr. by destruct (has_get e'). }
  split_and!; [done| |].
  - rewrite read_path by done. rewrite getIn_or_map by done. by rewrite Hr.
  - intros b Hb Hd. rewrite !read_path by done. rewrite !getIn_or_map by done. by rewrite Hf.
Qed.

Lemma oas3_reads_back_witness :
  let spec := VMap false [(str "openapi", str "3.0.0")] in
  let a := UPDATE_SERVER_VARIABLE_VALUE (str "http://{h}/") (str "ns") (str "h") (str "x") in
  ∃ e', reduce emptyMap a = Ok e' /\ read spec e' a = Ok (str "x") /\
    (∀ b, path_of b <> [] -> diverge (path_of a) (path_of b) -> read spec e' b = read spec emptyMap b).
Proof.
  intros spec a. apply (oas3_reads_back spec emptyMap a); [reflexivity|done|].
  cbn. split; [apply NoDup_nil_2|exact I].
Defined.

(** ** The effective URL of a server *)

(** A URL as a template: text and names of variables. *)
Inductive segment := Lit (s : list Z) | Var (k : list Z).
Abbreviation no_brace s := (Forall (λ c, c <> 123) s).
Definition segment_ok (g : segment) : Prop := match g with Lit s => no_brace s | Var k => plain_name k = true end.
(** The URL, with the variables in [σ] replaced. *)
Definition render_one (σ : list (list Z * list Z)) (g : segment) : list Z :=
  match g with
  | Lit s => s
  | Var k => match (list_to_map σ : gmap (list Z) (list Z)) !! k with Some v => v | None => braced k end
  end.
Definition render (σ : list (list Z * list Z)) (t : list segment) : list Z := concat (render_one σ <$> t).

Lemma plain_name_chars k : plain_name k = true -> Forall (λ c, c <> 123 /\ c <> 125) k.
Proof.
  destruct k as [|c k]; [done|]. unfold plain_name. intros [_ H]%andb_true_iff. rewrite forallb_forall in H.
  apply Forall_forall. intros x Hx. apply list_elem_of_In in Hx. specialize (H x Hx). unfold word_char, Json.digit in H. lia.
Qed.

Lemma expand_plain r b m a : Forall (λ c, c <> 36) r -> expand r b m a = r.
Proof.
  induction r as [|c r IH]; [done|]. intros [Hc Hr]%Forall_cons. destruct r as [|d r]; [done|]. specialize (IH Hr).
  change (expand (c :: d :: r) b m a) with (if negb (c =? 36) then c :: expand (d :: r) b m a
    else if d =? 36 then 36 :: expand r b m a else if d =? 38 then m ++ expand r b m a
    else if d =? 96 then b ++ expand r b m a else if d =? 39 then a ++ expand r b m a else c :: expand (d :: r) b m a).
  rewrite (proj2 (Z.eqb_neq c 36)) by done. cbn [negb]. by rewrite IH.
Qed.

Lemma replace_skip p r b s t n : length s = n -> replace_go p r b (s ++ t) n = replace_go p r (b ++ s) t O.
Proof.
  revert b n. induction s as [|c s IH]; intros b n <-; cbn; [by rewrite app_nil_r|]. rewrite (IH (b ++ [c])) by done. by rewrite <- app_assoc.
Qed.

(** Text without braces is copied. *)
Lemma replace_lit k r b s t : no_brace s -> replace_go (braced k) r b (s ++ t) O = s ++ replace_go (braced k) r (b ++ s) t O.
Proof.
  revert b. induction s as [|c s IH]; intros b Hs; [by rewrite app_nil_r|]. apply Forall_cons in Hs as [Hc Hs].
  cbn [app replace_go braced Json.prefix_at]. rewrite (proj2 (Z.eqb_neq 123 c)) by done. cbn [andb]. rewrite IH by done. by rewrite <- app_assoc.
Qed.

Lemma prefix_at_app p s : Json.prefix_at p (p ++ s) = true.
Proof. induction p as [|c p IH]; [done|]. cbn. by rewrite Z.eqb_refl. Qed.

Lemma prefix_other k j t : Forall (λ c, c <> 125) k -> Forall (λ c, c <> 125) j -> k <> j ->
  Json.prefix_at (k ++ [125]) (j ++ 125 :: t) = false.
Proof.
  revert j. induction k as [|c k IH]; intros [|d j] Hk Hj Hne; cbn [app Json.prefix_at]; [done| | |].
  - apply Forall_cons in Hj as [Hd _]. by rewrite (proj2 (Z.eqb_neq 125 d)).
  - apply Forall_cons in Hk as [Hc _]. by rewrite (proj2 (Z.eqb_neq c 125)).
  - apply Forall_cons in Hk as [Hc Hk]. apply Forall_cons in Hj as [Hd Hj]. destruct (Z.eqb_spec c d) as [->|]; [|done]. cbn [andb].
    apply IH; [done|done|congruence].
Qed.

Lemma replace_var k r b j t : plain_name k = true -> plain_name j = true -> Forall (λ c, c <> 36) r ->
  replace_go (braced k) r b (braced j ++ t) O = (if decide (k = j) then r else braced j) ++ replace_go (braced k) r (b ++ braced j) t O.
Proof.
  intros Hk%plain_name_chars Hj%plain_name_chars Hr. destruct (decide (k = j)) as [->|Hne].
  - assert (E : ∃ u, braced j = 123 :: u) by (by eexists). destruct E as [u E]. rewrite E. cbn [app replace_go].
    change (123 :: u ++ t) with ((123 :: u) ++ t). rewrite prefix_at_app, expand_plain by done. f_equal.
    cbn [length]. rewrite Nat.sub_0_r || replace (S (length u) - 1)%nat with (length u) by lia. rewrite (replace_skip _ _ _ u t) by done. by rewrite <- app_assoc.
  - unfold braced at 2. rewrite <- !app_assoc. cbn [app replace_go].
    assert (Hp : Json.prefix_at (braced k) (123 :: j ++ 125 :: t) = false).
    { unfold braced. cbn [app Json.prefix_at]. apply andb_false_iff. right. apply prefix_other; [| |done]; eapply Forall_impl; eauto; by intros ? []. }
    rewrite Hp. change (123 :: j ++ 125 :: replace_go (braced k) r (b ++ braced j) t O) with ([123] ++ (j ++ [125] ++ replace_go (braced k) r (b ++ braced j) t O)).
    cbn [app]. f_equal. rewrite replace_lit by (eapply Forall_impl; eauto; by intros ? []). f_equal.
    change (125 :: t) with ([125] ++ t). rewrite replace_lit by (by repeat constructor). cbn [app]. unfold braced. by rewrite <- !app_assoc.
Qed.

(** One replacement extends the substitution. *)
Lemma replace_render k v σ t : plain_name k = true -> Forall (λ c, c <> 36) v ->
  (list_to_map σ : gmap (list Z) (list Z)) !! k = None -> Forall (λ kv, no_brace kv.2) σ -> Forall segment_ok t ->
  replace_all (braced k) v (render σ t) = render (σ ++ [(k, v)]) t.
Proof.
  intros Hk Hv Hσk Hσ Ht. unfold replace_all, render. generalize (@nil Z). induction t as [|g t IH]; intros b; [done|].
  apply Forall_cons in Ht as [Hg Ht]. cbn [fmap list_fmap concat]. destruct g as [s|j]; cbn [render_one segment_ok] in *.
  - rewrite replace_lit by done. by rewrite IH.
  - rewrite list_to_map_app. destruct ((list_to_map σ : gmap (list Z) (list Z)) !! j) as [w|] eqn:Ej.
    + rewrite (lookup_union_Some_l _ _ _ _ Ej). rewrite replace_lit; [by rewrite IH|].
      apply elem_of_list_to_map_2 in Ej. rewrite Forall_forall in Hσ. exact (Hσ (j, w) Ej).
    + rewrite lookup_union_r by done. rewrite replace_var by done. rewrite IH by done. f_equal. cbn. destruct (decide (k = j)) as [->|Hne].
      * by rewrite lookup_insert_eq.
      * rewrite lookup_insert_ne by done. by rewrite lookup_empty.
Qed.

(** The entries of the map of variables. *)
Definition vars_of (σ : list (list Z * list Z)) : list (value * value) := (λ kv, (VStr kv.1, VStr kv.2)) <$> σ.
Definition var_ok (kv : list Z * list Z) : Prop :=
  plain_name kv.1 = true /\ no_brace kv.2 /\ Forall (λ c, c <> 36) kv.2.

Lemma fold_render rr σ σ0 t : NoDup ((σ0 ++ σ).*1) -> Forall var_ok (σ0 ++ σ) -> Forall segment_ok t ->
  foldR (replace_name rr) (VStr (render σ0 t)) (vars_of σ) = Ok (VStr (render (σ0 ++ σ) t)).
Proof.
  revert σ0. induction σ as [|[k v] σ IH]; intros σ0 Hn Hσ Ht; [by rewrite app_nil_r|].
  assert (Hkv : var_ok (k, v)) by (rewrite Forall_forall in Hσ; apply Hσ; set_solver). destruct Hkv as (Hk & Hb & Hd).
  cbn [vars_of fmap list_fmap foldR replace_name to_text fst snd]. cbn [fst snd] in Hk. rewrite Hk. cbn [result_bind].
  rewrite replace_render; [|done|done| | |done].
  - fold (vars_of σ). rewrite (IH (σ0 ++ [(k, v)])); [by rewrite <- app_assoc| |by rewrite <- app_assoc|done]. by rewrite <- app_assoc.
  - apply not_elem_of_list_to_map_1. rewrite fmap_app in Hn. apply NoDup_app in Hn as (_ & Hn & _). intros Hin. apply (Hn k Hin). set_solver.
  - apply Forall_app in Hσ as [Hσ _]. eapply Forall_impl; [done|]. by intros ? (_ & ? & _).
Qed.

(** The effective URL of a server is its template with every variable that
    has a value replaced by it, all occurrences, and the others left in braces;
    for names that are plain words and values without braces and dollar signs. *)
Theorem server_effective rr spec e srv p o σ t : isOAS3 spec = Ok true -> has_get e = true ->
  server_path srv = Ok (VStr (render [] t), p) -> get_in e p = Some (VMap o (vars_of σ)) ->
  NoDup (σ.*1) -> Forall var_ok σ -> Forall segment_ok t ->
  serverEffectiveValue rr spec e srv = Ok (VStr (render σ t)).
Proof.
  intros Hs He Hp Hg Hn Hσ Ht. unfold serverEffectiveValue, onlyOAS3, getIn_or, getIn. rewrite Hs, Hp. cbn [result_bind fst snd].
  rewrite He, Hg. cbn [result_bind]. change (default VUndef (Some (VMap o (vars_of σ)))) with (VMap o (vars_of σ)).
  cbn [vor truthy]. by apply (fold_render rr σ []).
Qed.

Lemma server_effective_witness :
  let e := VMap false [(str "serverVariableValues", VMap false [(str "https://{h}/{v}/{h}",
             VMap false [(str "h", str "api")])])] in
  serverEffectiveValue (λ _ _ s, Ok s) (VMap false [(str "openapi", str "3.0.0")]) e (str "https://{h}/{v}/{h}")
    = Ok (str "https://api/{v}/api").
Proof.
  intros e. apply (server_effective (λ _ _ s, Ok s) (VMap false [(str "openapi", str "3.0.0")]) e (str "https://{h}/{v}/{h}")
    [str "serverVariableValues"; str "https://{h}/{v}/{h}"] false [(js "h", js "api")]
    [Lit (js "https://"); Var (js "h"); Lit (js "/"); Var (js "v"); Lit (js "/"); Var (js "h")]); try reflexivity.
  - apply NoDup_singleton.
  - apply Forall_singleton. split_and!; [reflexivity| |]; apply (bool_decide_unpack _); vm_compute; exact I.
  - repeat (apply Forall_cons; split; [first [reflexivity|apply (bool_decide_unpack _); vm_compute; exact I]|]). apply Forall_nil_2.
Defined.

End UiOas3.
