(* ===== verification/ClientRequest.v ===== *)
(** How swagger-client makes a request of an operation
    (client/docs/swagger-ui/swagger-ui-bundle.js): [buildRequest] (lines
    14871-14943) and [execute] (15006-15026), the base URL (14945-14997), the
    parameters of Swagger 2 (15081-15122) and of OpenAPI 3 (15137-15227), bodies
    and credentials of OpenAPI 3 (15360-15436) and of Swagger 2 (15452-15516).

    The fields [credentials], [requestInterceptor], [responseInterceptor] and
    [userFetch] of the request are copied from the arguments and left out. Names of parameters, of
    security schemes and of server variables that every object inherits
    ([Json.object_prototype]) are read as absent. [JSON.parse] of a text that is
    entered for an object, patterns of [RegExp] that are no plain text,
    [toLowerCase] and [toUpperCase] are parameters. *)

From stdpp Require Import base list list_numbers numbers strings gmap.
From Stdlib Require Import ZArith Lia.
From S2P Require Import Prelude Base64 Buffer BufferText Uri Json Query Qs Style ClientHttp ClientSpec Url UiOas3.

Module ClientRequest.
Import Uri Json Qs Style ClientHttp ClientSpec.
Local Abbreviation btoa_binary := Buffer.btoa_binary.

(** ** Texts *)

(** [s.replace(p, r)]: the first occurrence of the text [p]. *)
Fixpoint replace_from (p r before s : list Z) : list Z :=
  if prefix_at p s then UiOas3.expand r before p (drop (length p) s) ++ drop (length p) s
  else match s with c :: s' => c :: replace_from p r (before ++ [c]) s' | [] => [] end.
Definition replace_first (p r s : list Z) : list Z := replace_from p r [] s.

(** [a + b] of texts and other values *)
Definition plus (a b : jval) : list Z := to_string a ++ to_string b.

(** ** Parameters of Swagger 2 *)

Section builders.
Variables lower upper : list Z -> list Z.

Definition with_query_entry (t : request) (k : list Z) (v : jval) : request :=
  with_query t (Some (set (default [] (query t)) k v)).

(** [t.query[o] = t.query[o] || {}, t.query[o].allowEmptyValue = !0] *)
Definition allow_empty (t : request) (k : list Z) : request :=
  let q := default [] (query t) in
  let o := match own (JObj q) k with JObj o => o | _ => [] end in
  with_query_entry t k (JObj (set o (js "allowEmptyValue") (JBool true))).

Definition name_of (r : jval) : list Z := to_string (own r (js "name")).

Definition body_builder (t : request) (r v : jval) : result request := Ok (with_body t (Value v)).
Definition header_builder (t : request) (r v : jval) : result request :=
  Ok (match v with JUndef => t | _ => set_header t (name_of r) v end).
Definition query_value (r n : jval) : jval :=
  let ty := own r (js "type") in
  match n with
  | JBool false => if bool_decide (ty = JStr (js "boolean")) then JStr (js "false") else n
  | JNum 0 => if bool_decide (ty ∈ [JStr (js "number"); JStr (js "integer")]) then JStr (js "0") else n
  | _ => n
  end.
Definition query_builder (t : request) (r v : jval) : result request :=
  let t := with_query t (Some (default [] (query t))) in
  let n := query_value r v in
  Ok (if truthy n then with_query_entry t (name_of r) (JObj [(js "collectionFormat", own r (js "collectionFormat")); (js "value", n)])
      else if truthy (own r (js "allowEmptyValue")) && negb (bool_decide (n = JUndef)) then allow_empty t (name_of r)
      else t).
Definition path_builder (t : request) (r v : jval) : result request :=
  let! e := encodeURIComponent (to_string v) in
  Ok (with_url t (replace_first (UiOas3.braced (name_of r)) e (url t))).
Definition formData_builder (t : request) (r v : jval) : result request :=
  Ok (if truthy v || truthy (own r (js "allowEmptyValue")) then
        let f := match form t with Some (JObj f) => f | _ => [] end in
        with_form t (Some (JObj (set f (name_of r)
          (JObj [(js "value", v); (js "allowEmptyValue", own r (js "allowEmptyValue")); (js "collectionFormat", own r (js "collectionFormat"))]))))
      else t).

Definition swagger2_builders (i : jval) : option (request -> jval -> jval -> result request) :=
  match i with
  | JStr s =>
      if decide (s = js "body") then Some body_builder
      else if decide (s = js "header") then Some header_builder
      else if decide (s = js "query") then Some query_builder
      else if decide (s = js "path") then Some path_builder
      else if decide (s = js "formData") then Some formData_builder
      else None
  | _ => None
  end.

(** ** Parameters of OpenAPI 3 *)

Definition path_builder3 (t : request) (r v : jval) : result request :=
  let! s := stylize (Config (name_of r) v (or (own r (js "style")) (JStr (js "simple"))) (or (own r (js "explode")) (JBool false)) NoEscape) in
  Ok (with_url t (replace_first (UiOas3.braced (name_of r)) (to_string s) (url t))).

Definition escape_of (r : jval) : escaping := if truthy (own r (js "allowReserved")) then EscapeUnsafe else EscapeReserved.
(** [t.query[k] = {value: v, skipEncoding: !0}] *)
Definition add_encoded (t : request) (k : list Z) (c : config) : result request :=
  let! v := stylize c in
  Ok (with_query_entry t k (JObj [(js "value", v); (js "skipEncoding", JBool true)])).
Definition explode_of (r : jval) : jval := match own r (js "explode") with JUndef => JBool true | x => x end.
(** The condition under which the properties of an object are parameters. *)
Definition exploded_object (r n : jval) : bool :=
  match n with
  | JObj _ =>
      let s := own r (js "style") in
      (bool_decide (s = JStr (js "form")) || negb (truthy s)) && truthy (explode_of r)
  | _ => false
  end.
Definition query_builder3 (t : request) (r v : jval) : result request :=
  let t := with_query t (Some (default [] (query t))) in
  let n := match v with JBool false => JStr (js "false") | JNum 0 => JStr (js "0") | _ => v end in
  if truthy n then
    let style := own r (js "style") in
    if bool_decide (style = JStr (js "deepObject")) then
      foldR (λ t eo, add_encoded t (name_of r ++ [91] ++ eo.1 ++ [93]) (Config eo.1 eo.2 (JStr (js "deepObject")) JUndef (escape_of r))) t (properties n)
    else if exploded_object r n then
      foldR (λ t eo, add_encoded t eo.1 (Config eo.1 eo.2 (or style (JStr (js "form"))) JUndef (escape_of r))) t (properties n)
    else add_encoded t (name_of r) (Config (name_of r) n (or style (JStr (js "form"))) (explode_of r) (escape_of r))
  else Ok (if truthy (own r (js "allowEmptyValue")) && negb (bool_decide (n = JUndef)) then allow_empty t (name_of r) else t).

(** [void 0 !== n.explode && n.explode] *)
Definition explode_or_false (r : jval) : jval := match own r (js "explode") with JUndef => JBool false | x => x end.
Definition header_builder3 (t : request) (r v : jval) : result request :=
  match own r (js "name") with
  | JStr n =>
      if bool_decide (lower n ∈ js <$> ["accept"; "authorization"; "content-type"]%string) then Ok t
      else match v with
           | JUndef => Ok t
           | _ => let! s := stylize (Config n v (or (own r (js "style")) (JStr (js "simple"))) (explode_or_false r) NoEscape) in
                  Ok (set_header t n s)
           end
  | v => Throw (match v with JUndef | JNull => no_property v (js "toLowerCase") | _ => not_a_function "n.name.toLowerCase" end)
  end.
Definition cookie_builder (t : request) (r v : jval) : result request :=
  match v with
  | JUndef => Ok t
  | _ =>
      let u := match v with JObj _ | JNull => if truthy (own r (js "explode")) then [] else name_of r ++ [61] | _ => name_of r ++ [61] end in
      let! s := stylize (Config (name_of r) v (or (own r (js "style")) (JStr (js "form"))) (explode_or_false r) NoEscape) in
      Ok (set_header t (js "Cookie") (JStr (u ++ to_string s)))
  end.

Definition oas3_builders (i : jval) : option (request -> jval -> jval -> result request) :=
  match i with
  | JStr s =>
      if decide (s = js "path") then Some path_builder3
      else if decide (s = js "query") then Some query_builder3
      else if decide (s = js "header") then Some header_builder3
      else if decide (s = js "cookie") then Some cookie_builder
      else None
  | _ => None
  end.

(** ** Credentials *)

(** [v.k], with the default [d] for [undefined]; [v] itself defaults to [{}]. *)
Definition field_or (v : jval) (k : string) (d : jval) : result jval :=
  let! x := member (match v with JUndef => JObj [] | _ => v end) (js k) in
  Ok (match x with JUndef => d | x => x end).

(** Whether any credentials apply: [securities] with what is authorized, [p],
    the [security] of the operation, and the requirements that hold for it. *)
Definition applies (securities p own_security v : jval) : bool :=
  negb (bool_decide (properties securities = [])) && (truthy p && negb (bool_decide (properties p = []))) && truthy v
  && match own_security with JArr l => negb (bool_decide (l = [])) | _ => true end.

(** The names that [for (n in e)] goes through in every requirement. *)
Definition requirement_names (v : jval) : result (list (list Z)) :=
  match v with
  | JArr l => Ok (concat ((λ e, obj_keys (properties e)) <$> l))
  | _ => Throw (not_a_function "v.forEach")
  end.

(** The type of an authorization: ["bearer"] in any case is ["Bearer"]. *)
Definition token_type (f : jval) : result jval :=
  if truthy f then
    match f with
    | JStr s => Ok (if decide (lower s = js "bearer") then JStr (js "Bearer") else f)
    | _ => Throw (not_a_function "f.toLowerCase")
    end
  else Ok (JStr (js "Bearer")).

(** [a && a.k] *)
Definition and_member (a : jval) (k : string) : result jval := if truthy a then member a (js k) else Ok a.

Definition cannot_create (v : jval) : exn := TypeError (js "Cannot create property 'base64' on " ++ to_string v).

(** [i.base64 = x], where [i] is [r.value || r] of the authorization [n] (what an
    array has beside its elements is not kept). *)
Definition store_base64 (p : jobj) (n : list Z) (x : jval) : result jobj :=
  match own (JObj p) n with
  | JObj r =>
      match or (get r "value") (JObj r) with
      | JObj i =>
          let i := set i (js "base64") x in
          Ok (set p n (JObj (if truthy (get r "value") then set r (js "value") (JObj i) else i)))
      | JArr _ => Ok p
      | v => Throw (cannot_create v)
      end
  | JArr _ => Ok p
  | v => Throw (cannot_create v)
  end.

(** The credentials of the scheme [n] of Swagger 2; [p] is what is authorized. *)
Definition apply_security2 (g : jval) (cp : request * jobj) (n : list Z) : result (request * jobj) :=
  let '(c, p) := cp in
  let r := own (JObj p) n in
  if negb (truthy r) then Ok cp else
  let! o := member r (js "token") in
  let! rv := member r (js "value") in
  let i := or rv r in
  let! u := member g n in
  let! s := member u (js "type") in
  let! l := and_member o "access_token" in
  let! f := and_member o "token_type" in
  let! un := member u (js "name") in
  let! ui := member u (js "in") in
  if bool_decide (s = JStr (js "apiKey")) then
    Ok (if bool_decide (ui = JStr (js "query")) then with_query_entry c (to_string un) i else set_header c (to_string un) i, p)
  else if bool_decide (s = JStr (js "basic")) then
    let! h := member i (js "header") in
    if truthy h then Ok (set_header c (js "authorization") h, p)
    else
      let! a := member i (js "username") in
      let! b := member i (js "password") in
      let! x := btoa_binary (to_string a ++ [58] ++ to_string b) in
      let! p := store_base64 p n (JStr x) in
      Ok (set_header c (js "authorization") (JStr (js "Basic " ++ x)), p)
  else if bool_decide (s = JStr (js "oauth2")) && truthy l then
    let! f := token_type f in
    Ok (set_header c (js "authorization") (JStr (to_string f ++ [32] ++ to_string l)), p)
  else Ok cp.

(** [applySecurities] of Swagger 2: the request, and what is authorized after. *)
Definition applySecurities2 (t : request) (securities own_security : jval) (l : jobj) : result (request * jval) :=
  let! p := field_or securities "authorized" (JObj []) in
  let! h := field_or securities "specSecurity" (JArr []) in
  let v := or own_security h in
  if applies securities p own_security v then
    let c := with_query t (Some (default [] (query t))) in
    let! ns := requirement_names v in
    let! cp := foldR (apply_security2 (get l "securityDefinitions")) (c, Query.entries p) ns in
    Ok (cp.1, JObj cp.2)
  else Ok (t, p).

(** The credentials of the scheme [n] of OpenAPI 3. *)
Definition apply_security3 (m d : jval) (f : request) (n : list Z) : result request :=
  let r := own d n in
  if negb (truthy r) then Ok f else
  let! rv := member r (js "value") in
  let i := or rv r in
  let! o := member m n in
  let! a := member o (js "type") in
  let! where_ := member o (js "in") in
  let! name := member o (js "name") in
  let! scheme := member o (js "scheme") in
  if bool_decide (a = JStr (js "apiKey")) then
    if bool_decide (where_ = JStr (js "query")) then Ok (with_query_entry f (to_string name) i)
    else if bool_decide (where_ = JStr (js "header")) then Ok (set_header f (to_string name) i)
    else if bool_decide (where_ = JStr (js "cookie")) then
      match cookies f with
      | Some c => Ok (with_cookies f (Some (set c (to_string name) i)))
      | None => Throw (TypeError (js "Cannot set properties of undefined"))
      end
    else Ok f
  else if bool_decide (a = JStr (js "http")) then
    if bool_decide (scheme = JStr (js "basic")) then
      let! u := member i (js "username") in
      let! s := member i (js "password") in
      let! l := btoa_binary (to_string u ++ [58] ++ to_string s) in
      Ok (set_header f (js "Authorization") (JStr (js "Basic " ++ l)))
    else if bool_decide (scheme = JStr (js "bearer")) then
      Ok (set_header f (js "Authorization") (JStr (js "Bearer " ++ to_string i)))
    else Ok f
  else if bool_decide (a = JStr (js "oauth2")) then
    let! tk := member r (js "token") in
    let p := or tk (JObj []) in
    let! h := member p (js "access_token") in
    let! v := member p (js "token_type") in
    let! v := token_type v in
    Ok (set_header f (js "Authorization") (JStr (to_string v ++ [32] ++ to_string h)))
  else Ok f.

Definition security_schemes (a : jobj) : jval := or (own (get a "components") (js "securitySchemes")) (JObj []).

Definition applySecurities3 (t : request) (securities own_security : jval) (a : jobj) : result request :=
  let! d := field_or securities "authorized" (JObj []) in
  let h := or (or own_security (get a "security")) (JArr []) in
  if applies securities d own_security h then
    let f := with_query t (Some (default [] (query t))) in
    let! ns := requirement_names h in
    foldR (apply_security3 (security_schemes a) d) f ns
  else Ok t.

(** ** Bodies *)

Definition in_list (s : jval) (l : list (list Z)) : bool := match s with JStr s => bool_decide (s ∈ l) | _ => false end.
Definition form_type (p : list Z) : bool :=
  bool_decide (p = js "application/x-www-form-urlencoded") || prefix_at (js "multipart/") p.

(** The value of a field of a form: objects as JSON, arrays as texts. *)
Definition form_value (o : jval) : jval :=
  match o with
  | JArr _ => JStr (to_string o)
  | JObj _ | JNull => stringified o
  | _ => o
  end.
(** [t.form = {}] and a field per property of [r], or [t.form = r] *)
Definition form_of (r : jval) : jval :=
  match r with
  | JObj _ | JArr _ => JObj (foldl (λ f kv, set f kv.1 (JObj [(js "value", form_value kv.2)])) [] (properties r))
  | _ => r
  end.

(** The body of OpenAPI 3: [r] is the body, [p] the type that was asked for,
    [content] the names of the types of the operation. *)
Definition content_type3 (t : request) (r c p : jval) (content : list (list Z)) : request * jval :=
  let v := truthy p && in_list p content in
  if truthy r || truthy c then
    if truthy p && v then (set_header t (js "Content-Type") p, p)
    else if negb (truthy p) then
      match content with
      | (_ :: _) as m :: _ => (set_header t (js "Content-Type") (JStr m), JStr m)
      | _ => (t, p)
      end
    else (t, p)
  else if truthy p && v then (set_header t (js "Content-Type") p, p) else (t, p).

Definition build_body3 (t : request) (o : jobj) (r c p : jval) : request :=
  let d := or (get o "requestBody") (JObj []) in
  let h := obj_keys (properties (or (own d (js "content")) (JObj []))) in
  let '(t, p) := content_type3 t r c p h in
  if truthy r then
    if truthy p then
      match p with
      | JStr s => if bool_decide (s ∈ h) then if form_type s then with_form t (Some (form_of r)) else with_body t (Value r) else t
      | _ => t
      end
    else with_body t (Value r)
  else t.

(** The body of Swagger 2: whether a parameter of a kind is declared. *)
Definition any_parameter (o : jobj) (k v : string) : bool :=
  match get o "parameters" with JArr l => existsb (λ e, bool_decide (own e (js k) = JStr (js v))) l | _ => false end.
Definition first_of (v : jval) : jval := match v with JArr (x :: _) => x | _ => JUndef end.
Definition build_body2 (t : request) (o spec : jobj) (a u : jval) : request :=
  let set t v := set_header t (js "Content-Type") v in
  if match body t with Some (Value v) => truthy v | Some (FormData _) => true | None => false end
     || match form t with Some f => truthy f | None => false end || truthy u
  then
    if truthy a then set t a
    else if is_array (get o "consumes") then set t (first_of (get o "consumes"))
    else if is_array (get spec "consumes") then set t (first_of (get spec "consumes"))
    else if any_parameter o "type" "file" then set t (JStr (js "multipart/form-data"))
    else if any_parameter o "in" "formData" then set t (JStr (js "application/x-www-form-urlencoded"))
    else t
  else if truthy a && (any_parameter o "in" "body" || any_parameter o "in" "formData") then set t a
  else t.

(** ** The base URL *)

(** [e ? e.replace(/\W/g, "") : null] *)
Definition strip_protocol (p : option (list Z)) : list Z := List.filter word_char (Url.text p).
(** Without a slash at the end. *)
Definition chop_slash (u : list Z) : list Z := if Url.ends_with 47 u then take (length u - 1) u else u.

(** The argument of [url.parse]. *)
Definition context_text (v : jval) : result (list Z) :=
  match v with
  | JUndef => Ok []
  | JStr s => Ok s
  | _ => Throw (TypeError (js "Parameter 'url' must be a string, not " ++
      match v with JNum _ => js "number" | JBool _ => js "boolean" | _ => js "object" end))
  end.

Definition swagger2BaseUrl (t : jobj) (scheme contextUrl : jval) : result (list Z) :=
  let! x := context_text contextUrl in
  let! i := Url.parse lower x false false in
  let a := match get t "schemes" with JArr (x :: _) => x | JArr [] => JUndef | _ => JNull end in
  let u := to_string (or (or scheme (or a (JStr (strip_protocol (Url.protocol i))))) (JStr (js "http"))) in
  let s := to_string (or (get t "host") (JStr (Url.text (Url.host i)))) in
  let l := to_string (or (get t "basePath") (JStr [])) in
  Ok (chop_slash (if negb (bool_decide (u = [])) && negb (bool_decide (s = [])) then u ++ js "://" ++ s ++ l else l)).

(** [/{([^}]+)}/g]: the names in braces. *)
Fixpoint brace_names (fuel : nat) (s : list Z) : list (list Z) :=
  match fuel with
  | O => []
  | S fuel =>
      match s with
      | [] => []
      | c :: s' =>
          if c =? 123 then
            match Url.break (Z.eqb 125) s' with
            | ((_ :: _) as n, _ :: r) => n :: brace_names fuel r
            | _ => brace_names fuel s'
            end
          else brace_names fuel s'
      end
  end.

(** [l.replace(new RegExp("{" + e + "}", "g"), n)] *)
Variable regexp_replace : list Z -> list Z -> list Z -> result (list Z).
Definition replace_variable (c u : jval) (l : list Z) (e : list Z) : result (list Z) :=
  let! vs := member c (js "variables") in
  let t := if truthy vs then own vs e else vs in
  if truthy t then
    let! x := member u e in
    let! d := member t (js "default") in
    let n := to_string (or x d) in
    if UiOas3.plain_name e then Ok (UiOas3.replace_all (UiOas3.braced e) n l) else regexp_replace (UiOas3.braced e) n l
  else Ok l.

(** [spec.paths[path][name]] *)
Definition path_member (t : spec) (path name : list Z) : jval :=
  match List.find (λ p, bool_decide (pathName p = path) && bool_decide (ClientSpec.name p = name)) (ops t) with
  | Some p => match operation p with NVal v => v | NObj o => JObj o | NArr l _ => JArr l end
  | None => JUndef
  end.

Definition joined_url (e t : list Z) : result (list Z) :=
  let! n := Url.parse lower e false false in
  let! r := Url.parse lower t false false in
  let o := match strip_protocol (Url.protocol n) with [] => strip_protocol (Url.protocol r) | o => o end in
  let i := match Url.text (Url.host n) with [] => Url.text (Url.host r) | i => i end in
  let a := Url.text (Url.pathname n) in
  Ok (chop_slash (if negb (bool_decide (o = [])) && negb (bool_decide (i = [])) then o ++ js "://" ++ i ++ a else a)).

(** The server that is asked for, or the first one: its URL and itself. *)
Definition choose_server (s server : jval) : result (jval * jval) :=
  match s with
  | JArr ((e0 :: _) as l) =>
      let! found := if truthy server then
                      let! urls := mapR (λ e, member e (js "url")) l in
                      Ok (match list_find (λ ue, ue.1 = server) (zip urls l) with Some (_, (_, e)) => Some (server, e) | None => None end)
                    else Ok None in
      match found with
      | Some x => Ok x
      | None => let! u := member e0 (js "url") in Ok (u, e0)
      end
  | JStr ((c :: _) as l) => if truthy server then Throw (not_a_function "s.map") else Ok (JUndef, JStr [c])
  | _ => Ok (JStr [], JNull)
  end.

Definition oas3BaseUrl (t : spec) (path method : list Z) (server contextUrl serverVariables : jval) : result (list Z) :=
  let s := or (or (own (path_member t path (lower method)) (js "servers")) (path_member t path (js "servers"))) (get (top t) "servers") in
  let! lc := choose_server s server in
  match lc.1 with
  | JStr l =>
      let u := match serverVariables with JUndef => JObj [] | v => v end in
      let! l := if -1 <? index_of [123] l then foldR (replace_variable lc.2 u) l (brace_names (length l) l) else Ok l in
      let! x := context_text contextUrl in
      joined_url l x
  | v => Throw (match v with JUndef | JNull => no_property v (js "indexOf") | _ => not_a_function "l.indexOf" end)
  end.

(** ** The request *)

Record arguments := Arguments {
  a_spec : spec;
  a_operationId : option (list Z);
  a_parameters : jval;
  a_securities : jval;
  a_requestContentType : jval;
  a_responseContentType : jval;
  a_scheme : jval;
  a_contextUrl : jval;
  a_requestBody : jval;
  a_server : jval;
  a_serverVariables : jval;
  a_attachContentType : jval }.

Definition baseUrl (e : arguments) (p : op) : result (list Z) :=
  if isOAS3 (top (a_spec e))
  then oas3BaseUrl (a_spec e) (pathName p) (upper (ClientSpec.name p)) (a_server e) (a_contextUrl e) (a_serverVariables e)
  else swagger2BaseUrl (top (a_spec e)) (a_scheme e) (a_contextUrl e).

(** [deduplicateParameters]: by place and name, the last one wins. *)
Definition dedup_step (t : jobj) (e : jval) : result jobj :=
  let! i := member e (js "in") in
  let! n := member e (js "name") in
  let k := to_string i in
  let g := match own (JObj t) k with JObj g => g | _ => [] end in
  Ok (set t k (JObj (set g (to_string n) e))).
Definition deduplicate (l : list jval) : result (list jval) :=
  let! t := foldR dedup_step [] l in
  Ok (concat ((λ kv, (Query.entries kv.2).*2) <$> t)).

Definition arrayOrEmpty (v : jval) : list jval := match v with JArr l => l | _ => [] end.

(** The value given for a parameter: by its name, or by its place and name. *)
Definition value_of (g e : jval) : result jval :=
  let! n := member e (js "name") in
  if truthy n then
    let! r := member g (to_string n) in
    match r with
    | JUndef => member g (to_string (own e (js "in")) ++ [46] ++ to_string n)
    | r => Ok r
    end
  else Ok n.

(** [JSON.parse] *)
Variable JSON_parse : list Z -> result jval.

Definition parameter_step (oas3 : bool) (g : jval) (P : request) (e : jval) : result request :=
  let! r := value_of g e in
  match r with
  | JNull => Ok P
  | _ =>
      let r := match r with JUndef => own e (js "default") | r => r end in
      if bool_decide (r = JUndef) && truthy (own e (js "required")) && negb (truthy (own e (js "allowEmptyValue")))
      then Throw (PlainError (js "Required parameter " ++ name_of e ++ js " is not provided"))
      else
        let! r := match r with
                  | JStr s =>
                      if oas3 && bool_decide (own (own e (js "schema")) (js "type") = JStr (js "object")) then
                        match JSON_parse s with
                        | Ok v => Ok v
                        | Throw _ => Throw (PlainError (js "Could not parse object parameter value string as JSON"))
                        end
                      else Ok r
                  | _ => Ok r
                  end in
        match (if oas3 then oas3_builders else swagger2_builders) (own e (js "in")) with
        | Some f => f P e r
        | None => Ok P
        end
  end.

(** The cookies of a request as a header. *)
Definition cookie_header (P : request) : result request :=
  match cookies P with
  | Some ((_ :: _) as c) =>
      let! U := foldR (λ e kv, let! s := Query.serialize kv.1 (to_string kv.2) Query.no_options in
                               Ok (e ++ (match e with [] => [] | _ => [38] end) ++ s)) [] c in
      Ok (set_header P (js "Cookie") (JStr U))
  | _ => Ok P
  end.

Definition operation_not_found (n : option (list Z)) : exn :=
  NamedError (js "OperationNotFoundError") (js "Operation " ++ default (js "undefined") n ++ js " not found").

(** The request before its query is merged into the URL. *)
Definition assemble (e : arguments) (p : op) : result request :=
  let t := a_spec e in
  let O := isOAS3 (top t) in
  let I := props (operation p) in
  let! b := baseUrl e p in
  let P := Request (b ++ pathName p) (Some (upper (upper (ClientSpec.name p)))) [] (Some []) None None None in
  let g := or (a_parameters e) (JObj []) in
  let P := if truthy (a_responseContentType e) then set_header P (js "accept") (a_responseContentType e) else P in
  let! D := deduplicate (arrayOrEmpty (get I "parameters") ++ arrayOrEmpty (inherited p)) in
  let! P := foldR (parameter_step O g) P D in
  let! P := if O then
              let! P := applySecurities3 P (a_securities e) (get I "security") (top t) in
              Ok (build_body3 P I (a_requestBody e) (a_attachContentType e) (a_requestContentType e))
            else
              let! Pa := applySecurities2 P (a_securities e) (get I "security") (top t) in
              Ok (build_body2 Pa.1 I (top t) (a_requestContentType e) (a_attachContentType e)) in
  let! P := cookie_header P in
  Ok (with_cookies P None).

Definition buildRequest (e : arguments) : result request :=
  let! T := match a_operationId e with Some i => getOperationRaw lower upper (a_spec e) i | None => Ok None end in
  match T with
  | None => Throw (operation_not_found (a_operationId e))
  | Some p => let! P := assemble e p in mergeInQueryOrForm P
  end.

(** [execute]: the operation can be named by its path and method; a body that is
    an object or array is sent as JSON by [http]. *)
Definition name_operation (path method : option (list Z)) (e : arguments) : arguments :=
  match path, method, a_operationId e with
  | Some ((_ :: _) as p), Some ((_ :: _) as m), None | Some ((_ :: _) as p), Some ((_ :: _) as m), Some [] =>
      Arguments (a_spec e) (Some (legacyIdFromPathMethod lower p m)) (a_parameters e) (a_securities e) (a_requestContentType e)
        (a_responseContentType e) (a_scheme e) (a_contextUrl e) (a_requestBody e) (a_server e) (a_serverVariables e) (a_attachContentType e)
  | _, _, _ => e
  end.
Definition json_body (m : request) : request :=
  match body m with Some (Value ((JObj _ | JArr _) as v)) => with_body m (Value (stringified v)) | _ => m end.
Definition execute {A} (http : request -> A) (path method : option (list Z)) (e : arguments) : result A :=
  let! m := buildRequest (name_operation path method e) in Ok (http (json_body m)).

End builders.

(** ** Examples *)

Definition no_regexp (p r s : list Z) : result (list Z) := Ok s.
Definition no_json (s : list Z) : result jval := Throw (PlainError (js "SyntaxError")).
Abbreviation build := (buildRequest to_lower to_upper no_regexp no_json).
Definition arguments_of (t : spec) (id : string) (ps : jobj) : arguments :=
  Arguments t (Some (js id)) (JObj ps) JUndef JUndef JUndef JUndef JUndef JUndef JUndef JUndef JUndef.
Definition parameter (i n : string) (more : jobj) : jval := JObj ((js "name", JStr (js n)) :: (js "in", JStr (js i)) :: more).
Definition spec2 (ps : list jval) : spec :=
  of_spec [(js "swagger", JStr (js "2.0")); (js "host", JStr (js "api.io")); (js "basePath", JStr (js "/v1/"));
           (js "paths", JObj [(js "/p/{id}", JObj [(js "get", JObj [(js "operationId", JStr (js "op")); (js "parameters", JArr ps)])])])].
Definition spec3 (ps : list jval) : spec :=
  of_spec [(js "openapi", JStr (js "3.0.0"));
           (js "servers", JArr [JObj [(js "url", JStr (js "https://{env}.io/v1"));
              (js "variables", JObj [(js "env", JObj [(js "default", JStr (js "api"))])])]]);
           (js "paths", JObj [(js "/p/{id}", JObj [(js "get", JObj [(js "operationId", JStr (js "op")); (js "parameters", JArr ps)])])])].
Definition url_of (r : result request) : option (list Z) := match r with Ok q => Some (url q) | Throw _ => None end.

Example build_ex2 :
  url_of (build (arguments_of (spec2 [parameter "path" "id" []; parameter "query" "q" [(js "collectionFormat", JStr (js "multi"))]; parameter "header" "h" []]) "op"
     [(js "id", JStr (js "a/b$&")); (js "q", JArr [JStr (js "x y"); JNum 0]); (js "h", JNum 1)])) = Some (js "http://api.io/v1/p/a%2Fb%24%26?q=x%20y&q=0")
  /\ build (arguments_of (spec2 [parameter "path" "id" [(js "required", JBool true)]]) "op" []) = Throw (PlainError (js "Required parameter id is not provided"))
  /\ build (arguments_of (spec2 []) "no" []) = Throw (operation_not_found (Some (js "no"))).
Proof. vm_compute. repeat split. Qed.

Example build_ex3 :
  url_of (build (arguments_of (spec3 [parameter "path" "id" []; parameter "query" "q" []; parameter "query" "o" []; parameter "query" "d" [(js "style", JStr (js "deepObject"))]]) "op"
     [(js "id", JNum 7); (js "q", JArr [JStr (js "x y"); JNum 0]); (js "o", JObj [(js "k", JBool true)]); (js "d", JObj [(js "e", JStr (js "&"))])]))
  = Some (js "https://api.io/v1/p/7?q=x%20y&q=0&k=true&d[e]=%26").
Proof. vm_compute. reflexivity. Qed.

(** The path parameter of OpenAPI 3 is not escaped: it can add segments and a
    query, and dollar signs in it are expanded. *)
Example path_injection :
  let b v := url_of (build (arguments_of (spec3 [parameter "path" "id" []]) "op" [(js "id", JStr (js v))])) in
  b "../x?y"%string = Some (js "https://api.io/v1/p/../x?y") /\ b "1$&2"%string = Some (js "https://api.io/v1/p/1{id}2").
Proof. vm_compute. auto. Qed.

(** A parameter of the path wins over the one of the operation. *)
Example path_overrides :
  let op := JObj [(js "operationId", JStr (js "op")); (js "parameters", JArr [parameter "query" "q" [(js "default", JStr (js "operation"))]])] in
  let t := of_spec [(js "swagger", JStr (js "2.0")); (js "host", JStr (js "h"));
    (js "paths", JObj [(js "/p", JObj [(js "parameters", JArr [parameter "query" "q" [(js "default", JStr (js "path"))]]); (js "get", op)])])] in
  url_of (build (arguments_of t "op" [])) = Some (js "http://h/p?q=path").
Proof. vm_compute. reflexivity. Qed.

(** Of two cookie parameters only the last is sent. *)
Example one_cookie :
  match build (arguments_of (spec3 [parameter "cookie" "a" []; parameter "cookie" "b" []]) "op" [(js "a", JNum 1); (js "b", JNum 2)]) with
  | Ok r => headers r = [(js "Cookie", JStr (js "b=2"))] | Throw _ => False end.
Proof. vm_compute. reflexivity. Qed.

(** The cookies of security schemes are joined by an ampersand. *)
Example cookies_ampersand :
  cookie_header (with_cookies (plain_request [] None) (Some [(js "a", JStr (js "1")); (js "b", JStr (js "2"))]))
  = Ok (set_header (with_cookies (plain_request [] None) (Some [(js "a", JStr (js "1")); (js "b", JStr (js "2"))])) (js "Cookie") (JStr (js "a=1&b=2"))).
Proof. vm_compute. reflexivity. Qed.

End ClientRequest.
