(* ===== verification/ClientRequestOk.v ===== *)
(** What the requests of swagger-client hold (ClientRequest.v): the values that
    were given for the parameters, where the specification puts them, and
    credentials only where they are asked for. *)

From stdpp Require Import base list list_numbers numbers strings gmap.
From Stdlib Require Import ZArith Lia.
From S2P Require Import Prelude Base64 Buffer BufferText Uri Json Query Qs Style ClientHttp ClientSpec Url UiOas3 ClientRequest.

Module ClientRequestOk.
Import Uri Json Qs Style ClientHttp ClientSpec ClientRequest.

(** ** Path templates *)

Inductive piece :=
  | Lit (s : list Z)
  | Var (k : list Z).

(** The text of a template in which the variables of [σ] are filled in. *)
Definition piece_text (σ : list (list Z * list Z)) (p : piece) : list Z :=
  match p with
  | Lit s => s
  | Var k => match list_find (λ kv, kv.1 = k) σ with Some (_, kv) => kv.2 | None => UiOas3.braced k end
  end.
Definition render (σ : list (list Z * list Z)) (ps : list piece) : list Z := concat (piece_text σ <$> ps).
Definition vars (ps : list piece) : list (list Z) := omap (λ p, match p with Var k => Some k | Lit _ => None end) ps.

Definition no_braces (s : list Z) : Prop := Forall (λ c, c <> 123 /\ c <> 125) s.
(** Literals and names have no braces, and every variable occurs once. *)
Definition template (ps : list piece) : Prop :=
  Forall (λ p, match p with Lit s => no_braces s | Var k => no_braces k end) ps /\ NoDup (vars ps).

(** A replacement that is put in as it is. *)
Definition filler (e : list Z) : Prop := no_braces e /\ Forall (λ c, c <> 36) e.

(** Text before the first brace is passed. *)
Lemma replace_pass k e b s t : no_braces s -> replace_from (UiOas3.braced k) e b (s ++ t) = s ++ replace_from (UiOas3.braced k) e (b ++ s) t.
Proof.
  intros Hs. revert b. induction Hs as [|c s [Hc _] _ IH]; intros b; cbn [app]; [by rewrite app_nil_r|].
  cbn [replace_from UiOas3.braced app prefix_at]. destruct (Z.eqb_spec 123 c); [lia|]. cbn [andb]. rewrite IH. by rewrite <- app_assoc.
Qed.
(** Another variable is passed. *)
Lemma prefix_braced k j t : no_braces k -> no_braces j -> k <> j -> prefix_at (UiOas3.braced k) (UiOas3.braced j ++ t) = false.
Proof.
  intros Hk Hj Hne. unfold UiOas3.braced. rewrite <- !app_assoc. cbn [app prefix_at]. rewrite Z.eqb_refl. cbn [andb].
  revert j Hj Hne. induction Hk as [|a k [_ Ha] _ IH]; intros [|c j] Hj Hne; cbn [app prefix_at]; [done| | |].
  - apply Forall_cons in Hj as [[_ Hc] _]. destruct (Z.eqb_spec 125 c); [lia|done].
  - destruct (Z.eqb_spec a 125); [lia|done].
  - apply Forall_cons in Hj as [_ Hj]. destruct (Z.eqb_spec a c) as [->|]; [|done]. cbn [andb]. apply IH; [done|congruence].
Qed.
Lemma replace_other k j e b t : no_braces k -> no_braces j -> k <> j ->
  replace_from (UiOas3.braced k) e b (UiOas3.braced j ++ t) = UiOas3.braced j ++ replace_from (UiOas3.braced k) e (b ++ UiOas3.braced j) t.
Proof.
  intros Hk Hj Hne. pose proof (prefix_braced k j t Hk Hj Hne) as Hp. unfold UiOas3.braced at 2 3. rewrite <- !app_assoc. cbn [app].
  change (UiOas3.braced j ++ t) with (([123] ++ j ++ [125]) ++ t) in Hp. rewrite <- !app_assoc in Hp. cbn [app] in Hp.
  cbn [replace_from]. rewrite Hp. f_equal. rewrite replace_pass by done. f_equal. cbn [replace_from].
  assert (Hq : prefix_at (UiOas3.braced k) (125 :: t) = false) by (unfold UiOas3.braced; cbn; done). rewrite Hq. f_equal.
  f_equal. unfold UiOas3.braced. by rewrite <- !app_assoc.
Qed.
Lemma replace_here k e b t : Forall (λ c, c <> 36) e -> replace_from (UiOas3.braced k) e b (UiOas3.braced k ++ t) = e ++ t.
Proof.
  intros He. assert (Hp : prefix_at (UiOas3.braced k) (UiOas3.braced k ++ t) = true).
  { generalize (UiOas3.braced k). intros l. induction l as [|c l IH]; [by destruct t|]. cbn. by rewrite Z.eqb_refl. }
  destruct (UiOas3.braced k ++ t) as [|c s] eqn:E; [done|]. cbn [replace_from]. rewrite Hp, <- E, drop_app_length. by rewrite UiOas3.expand_plain.
Qed.

(** Filling in one more variable. *)
Lemma fill_one σ ps k e b : template ps -> k ∈ vars ps -> k ∉ σ.*1 -> no_braces k -> Forall (λ c, c <> 36) e -> Forall (λ kv, no_braces kv.2) σ ->
  replace_from (UiOas3.braced k) e b (render σ ps) = render (σ ++ [(k, e)]) ps.
Proof.
  intros [Hps Hnd] Hin Hk Hkb He Hσ.
  assert (Hfind : ∀ j, j <> k -> piece_text (σ ++ [(k, e)]) (Var j) = piece_text σ (Var j)).
  { intros j Hj. unfold piece_text. destruct (list_find (λ kv, kv.1 = j) σ) as [[i kv]|] eqn:E.
    - by rewrite (list_find_app_l _ σ [(k, e)] i kv E).
    - rewrite (list_find_app_r _ σ [(k, e)] E). cbn. by rewrite decide_False. }
  assert (Hnone : list_find (λ kv, kv.1 = k) σ = None).
  { apply list_find_None. apply Forall_forall. intros kv Hkv <-. apply Hk. by apply list_elem_of_fmap_2. }
  revert b Hin Hnd. induction Hps as [|p ps Hp Hps IH]; intros b Hin Hnd; [by apply not_elem_of_nil in Hin|].
  unfold render in *. cbn [fmap list_fmap concat]. destruct p as [s|j].
  - cbn [piece_text]. rewrite replace_pass by done. by rewrite IH.
  - cbn [vars omap list_omap] in Hin, Hnd. apply NoDup_cons in Hnd as [Hj Hnd]. destruct (decide (j = k)) as [->|Hne].
    + assert (E1 : piece_text σ (Var k) = UiOas3.braced k) by (cbn; by rewrite Hnone).
      assert (E2 : piece_text (σ ++ [(k, e)]) (Var k) = e) by (cbn; rewrite (list_find_app_r _ σ [(k, e)] Hnone); cbn; by rewrite decide_True).
      rewrite E1, E2, replace_here by done. f_equal. f_equal. apply list_fmap_ext. intros i q Hq. destruct q as [s|i']; [done|]. symmetry. apply Hfind.
      intros ->. apply Hj. apply list_elem_of_omap. exists (Var k). split; [by eapply list_elem_of_lookup_2|done].
    + rewrite (Hfind j Hne). apply elem_of_cons in Hin as [Hin|Hin]; [congruence|].
      destruct (list_find (λ kv, kv.1 = j) σ) as [[i kv]|] eqn:E.
      * assert (E' : piece_text σ (Var j) = kv.2) by (cbn; by rewrite E). rewrite E'. rewrite replace_pass; [by rewrite IH|].
        apply list_find_Some in E as (Hi & _). by apply (Forall_lookup_1 _ _ _ _ Hσ Hi).
      * assert (E' : piece_text σ (Var j) = UiOas3.braced j) by (cbn; by rewrite E). rewrite E'. rewrite replace_other by done. by rewrite IH.
Qed.

(** ** Parameters *)

Definition is_parameter (i : string) (e : jval) (k : list Z) : Prop :=
  (∃ o, e = JObj o) /\ own e (js "name") = JStr k /\ own e (js "in") = JStr (js i) /\ k <> [] /\ k <> js "__proto__".

(** *** Deduplication keeps what is distinct *)

Lemma member_object e k : (∃ o, e = JObj o) -> member e k = Ok (own e k).
Proof. by intros (o & ->). Qed.
Lemma set_last o k v : k <> js "__proto__" -> obj_ok (o ++ [(k, v)]) -> set o k v = o ++ [(k, v)].
Proof. intros Hk Hok. unfold set, obj_assign. rewrite bool_decide_false by done. cbn [negb andb]. by apply obj_set_last. Qed.
Lemma set_again o k v w : k <> js "__proto__" -> obj_ok (o ++ [(k, v)]) -> set (o ++ [(k, v)]) k w = o ++ [(k, w)].
Proof. intros Hk Hok. unfold set, obj_assign. rewrite bool_decide_false by done. cbn [negb andb]. by apply Query.obj_set_again. Qed.
Lemma own_last o k v : obj_ok (o ++ [(k, v)]) -> own (JObj (o ++ [(k, v)])) k = v.
Proof.
  intros H%Query.obj_ok_last. unfold own. cbn [Query.entries]. rewrite obj_get_app, (proj2 (obj_get_None o k)) by done. cbn. by rewrite decide_True.
Qed.
Lemma own_absent o k : k ∉ obj_keys o -> own (JObj o) k = JUndef.
Proof. intros H. unfold own. cbn [Query.entries]. by rewrite (proj2 (obj_get_None o k)). Qed.

Lemma obj_ok_keys (o o' : jobj) : obj_keys o = obj_keys o' -> obj_ok o -> obj_ok o'.
Proof. unfold obj_ok. by intros ->. Qed.

Definition named_values (ks : list (list Z)) (es : list jval) : jobj := zip ks es.

Lemma dedup_group i t g es ks : js i <> js "__proto__" -> obj_ok (t ++ [(js i, JObj g)]) -> Forall2 (is_parameter i) es ks -> obj_ok (g ++ named_values ks es) ->
  foldR dedup_step (t ++ [(js i, JObj g)]) es = Ok (t ++ [(js i, JObj (g ++ named_values ks es))]).
Proof.
  intros Hi Ht H. revert g Ht. induction H as [|e k es ks (Ho & Hn & Hin & _ & Hp) _ IH]; intros g Ht Hok; cbn [foldR named_values zip]; [by rewrite app_nil_r|].
  unfold dedup_step at 1. rewrite !member_object by done. cbn [result_bind]. rewrite Hn, Hin. cbn [to_string]. rewrite own_last by done.
  unfold named_values in *. cbn [zip zip_with] in Hok. rewrite cons_middle, app_assoc in Hok.
  rewrite (set_last g) by (try done; by eapply obj_ok_app_l). rewrite set_again by done. cbn [result_bind].
  rewrite IH; [by rewrite <- app_assoc|by eapply Query.obj_ok_value|done].
Qed.

Lemma dedup_start i t es ks : js i <> js "__proto__" -> obj_ok (t ++ [(js i, JNull)]) -> Forall2 (is_parameter i) es ks -> obj_ok (named_values ks es) ->
  foldR dedup_step t es = Ok (t ++ match es with [] => [] | _ => [(js i, JObj (named_values ks es))] end).
Proof.
  intros Hi Ht H Hok. destruct H as [|e k es ks Hek Hes]; [by rewrite app_nil_r|].
  transitivity (foldR dedup_step (t ++ [(js i, JObj [(k, e)])]) es).
  - destruct Hek as (Ho & Hn & Hin & _ & Hp). cbn [foldR]. unfold dedup_step at 1. rewrite !member_object by done. cbn [result_bind]. rewrite Hn, Hin. cbn [to_string].
    rewrite own_absent by (by eapply Query.obj_ok_last). rewrite set_last; [|done|by eapply Query.obj_ok_value].
    cbn [result_bind]. f_equal. f_equal. f_equal. f_equal. rewrite (set_last [] k e); [done|done|].
    unfold named_values in Hok. cbn [zip zip_with] in Hok. change ((k, e) :: zip ks es) with ([(k, e)] ++ zip ks es) in Hok. by eapply obj_ok_app_l.
  - rewrite (dedup_group i t [(k, e)] es ks); [done|done|by eapply Query.obj_ok_value|done|exact Hok].
Qed.

Lemma zip_snd (ks : list (list Z)) (es : list jval) : length ks = length es -> (named_values ks es).*2 = es.
Proof. intros H. apply snd_zip. lia. Qed.

(** Distinct parameters of paths and queries stay, in their order. *)
Lemma deduplicate_distinct pp pk qq qk : Forall2 (is_parameter "path") pp pk -> Forall2 (is_parameter "query") qq qk ->
  obj_ok (named_values pk pp) -> obj_ok (named_values qk qq) -> deduplicate (pp ++ qq) = Ok (pp ++ qq).
Proof.
  intros Hp Hq Op Oq. unfold deduplicate. rewrite foldR_app. rewrite (dedup_start "path" [] pp pk) by (done || by apply obj_okb_ok). cbn [result_bind app].
  assert (Lp := Forall2_length _ _ _ Hp). assert (Lq := Forall2_length _ _ _ Hq).
  rewrite (dedup_start "query" _ qq qk); [|done|destruct pp; by apply obj_okb_ok|done|done]. cbn [result_bind]. f_equal.
  rewrite fmap_app, concat_app. f_equal.
  - destruct pp; [done|]. cbn [fmap list_fmap concat]. rewrite app_nil_r. cbn [snd Query.entries]. by apply zip_snd.
  - destruct qq; [done|]. cbn [fmap list_fmap concat]. rewrite app_nil_r. cbn [snd Query.entries]. by apply zip_snd.
Qed.

Section request.
Variables (lower upper : list Z -> list Z) (regexp_replace : list Z -> list Z -> list Z -> result (list Z)) (JSON_parse : list Z -> result jval).

Lemma value_of_given g i e k v : is_parameter i e k -> own (JObj g) k = v -> v <> JUndef -> value_of (JObj g) e = Ok v.
Proof.
  intros (Ho & Hn & _ & Hk & _) Hg Hv. unfold value_of. rewrite member_object by done. cbn [result_bind]. rewrite Hn.
  assert (Ht : truthy (JStr k) = true) by (by destruct k). rewrite Ht. cbn [to_string member result_bind]. rewrite Hg. by destruct v.
Qed.

(** *** Paths *)

Lemma path_step g P e k v : is_parameter "path" e k -> own (JObj g) k = JStr v -> Query.well_formed v ->
  ∃ ev, decodeURIComponent ev = Ok v /\ Forall Query.uri_char ev /\
    parameter_step lower JSON_parse false (JObj g) P e = Ok (with_url P (replace_first (UiOas3.braced k) ev (url P))).
Proof.
  intros He Hg Hv. destruct (Query.encode_spec v Hv) as (ev & Ev & Dv & Cv). exists ev. split_and!; [done|done|].
  unfold parameter_step. rewrite (value_of_given g "path" e k (JStr v)) by done. cbn [result_bind]. rewrite bool_decide_false by done. cbn [andb].
  destruct He as (_ & Hn & Hin & _). rewrite Hin. change (swagger2_builders (JStr (js "path"))) with (Some path_builder). cbn [result_bind].
  unfold path_builder, name_of. cbn [to_string]. rewrite Ev, Hn. done.
Qed.

Lemma uri_filler ev : Forall Query.uri_char ev -> filler ev.
Proof.
  intros H. split; [|by apply (Query.uri_char_not _ 36)]. apply Forall_and. split; by apply Query.uri_char_not.
Qed.

(** The values of path parameters, written into the template one by one. *)
Lemma path_steps g ps : template ps -> ∀ pp vs P b σ, Forall2 (λ e kv, is_parameter "path" e kv.1) pp vs ->
  Forall (λ kv, own (JObj g) kv.1 = JStr kv.2 /\ Query.well_formed kv.2 /\ kv.1 ∈ vars ps) vs ->
  NoDup (σ.*1 ++ vs.*1) -> no_braces b -> Forall (λ kv, filler kv.2) σ -> url P = b ++ render σ ps ->
  ∃ filled, foldR (parameter_step lower JSON_parse false (JObj g)) P pp = Ok (with_url P (b ++ render (σ ++ filled) ps)) /\
    Forall2 (λ kv kf, kf.1 = kv.1 /\ decodeURIComponent kf.2 = Ok kv.2 /\ Forall Query.uri_char kf.2) vs filled.
Proof.
  intros Hps pp vs P b σ H. revert P σ. induction H as [|e [k v] pp vs He _ IH]; intros P σ Hv Hnd Hb Hσ HP.
  { exists []. split; [|constructor]. rewrite app_nil_r, <- HP. by destruct P. }
  apply Forall_cons in Hv as [(Hg & Hw & Hin) Hv]. cbn [fst snd] in *.
  destruct (path_step g P e k v He Hg Hw) as (ev & Dv & Cv & E). cbn [foldR]. rewrite E. cbn [result_bind].
  destruct (uri_filler ev Cv) as [Fb Fd].
  assert (Hkb : no_braces k).
  { destruct Hps as [Hps _]. apply list_elem_of_omap in Hin as (q & Hq & Eq). rewrite Forall_forall in Hps. specialize (Hps q Hq). destruct q; [done|]. by injection Eq as ->. }
  assert (E1 : replace_first (UiOas3.braced k) ev (url P) = b ++ render (σ ++ [(k, ev)]) ps).
  { rewrite HP. unfold replace_first. rewrite replace_pass by done. f_equal. apply fill_one; try done.
    - intros Hk. apply NoDup_app in Hnd as (_ & Hd & _). apply (Hd k Hk). cbn. apply elem_of_cons. by left.
    - eapply Forall_impl; [exact Hσ|]. by intros kv [? _]. }
  rewrite E1. destruct (IH (with_url P (b ++ render (σ ++ [(k, ev)]) ps)) (σ ++ [(k, ev)])) as (filled & Ef & Hf); [done| |done| |done|].
  - rewrite fmap_app, <- app_assoc. exact Hnd.
  - apply Forall_app_2; [done|]. by apply Forall_singleton.
  - exists ((k, ev) :: filled). rewrite Ef. split; [|by constructor]. rewrite <- app_assoc. done.
Qed.

(** *** Queries *)

(** A query parameter whose value is a text, under any format, or has the format
    that repeats the name for each element of a list. *)
Definition is_query_parameter (e : jval) (kv : list Z * jval) : Prop :=
  is_parameter "query" e kv.1 /\ ((∃ s, kv.2 = JStr s) \/ own e (js "collectionFormat") = JStr (js "multi")).

Lemma query_step g P e k v : is_query_parameter e (k, v) -> own (JObj g) k = v -> Query.query_value v -> truthy v = true ->
  ∃ x, parameter_step lower JSON_parse false (JObj g) P e = Ok (with_query P (Some (set (default [] (query P)) k x))) /\ carries x v.
Proof.
  intros [He Hf] Hg Hv Ht. assert (Hu : v <> JUndef) by (by intros ->). exists (entry_of (own e (js "collectionFormat")) v). split.
  - unfold parameter_step. rewrite (value_of_given g "query" e k v) by done. cbn [result_bind].
    destruct He as (_ & Hn & Hin & _). rewrite Hin. change (swagger2_builders (JStr (js "query"))) with (Some query_builder).
    assert (B : query_builder P e v = Ok (with_query P (Some (set (default [] (query P)) k (entry_of (own e (js "collectionFormat")) v))))).
    { unfold query_builder, name_of. rewrite Hn. assert (Q : query_value e v = v) by (destruct Hv as [(s & -> & _)|(l & -> & _)]; done).
      rewrite Q, Ht. done. }
    destruct Hv as [(s & -> & _)|(l & -> & _)]; cbn [result_bind]; rewrite bool_decide_false by done; cbn [andb result_bind]; exact B.
  - destruct Hf as [Hs|Hm]; cbn [snd] in *; [right; split; [done|right; by eexists]|left; by rewrite Hm].
Qed.

Lemma query_steps g : ∀ qq qs P q0 o0, Forall2 is_query_parameter qq qs ->
  Forall (λ kv, own (JObj g) kv.1 = kv.2 /\ Query.query_value kv.2 /\ truthy kv.2 = true /\ kv.1 <> js "__proto__") qs ->
  obj_ok (o0 ++ qs) -> default [] (query P) = q0 -> query_of q0 o0 ->
  ∃ q, foldR (parameter_step lower JSON_parse false (JObj g)) P qq = Ok (match qs with [] => P | _ => with_query P (Some q) end) /\
    query_of q (o0 ++ qs).
Proof.
  intros qq qs P q0 o0 H. revert P q0 o0. induction H as [|e [k v] qq qs He _ IH]; intros P q0 o0 Hq Hok HP H0.
  { exists q0. by rewrite app_nil_r. }
  apply Forall_cons in Hq as [(Hg & Hv & Ht & Hp) Hq]. cbn [fst snd] in *. cbn [foldR].
  destruct (query_step g P e k v) as (x & -> & Hx); [done..|]. cbn [result_bind]. rewrite HP. rewrite cons_middle, app_assoc in Hok |- *.
  assert (H1 : query_of (q0 ++ [(k, x)]) (o0 ++ [(k, v)])) by (apply Forall2_app; [done|by apply Forall2_cons_2; [split|apply Forall2_nil_2]]).
  rewrite (set_last q0 k x); [|done|eapply obj_ok_keys; [symmetry; by eapply query_of_keys|by eapply obj_ok_app_l]].
  destruct (IH (with_query P (Some (q0 ++ [(k, x)]))) (q0 ++ [(k, x)]) (o0 ++ [(k, v)])) as (q & -> & Hqo); [done..|].
  destruct qs as [|kv qs]; [|by exists q]. exists (q0 ++ [(k, x)]). by rewrite app_nil_r in *.
Qed.

(** *** The whole request *)

Lemma merge_after P q qs : query P = match qs with [] => None | _ => Some q end -> form P = None -> query_of q qs ->
  Forall (λ c, c <> 63) (url P) -> Query.query_object qs -> len (Query.pairs qs) <= 1000 ->
  ∃ u, mergeInQueryOrForm P = Ok (with_query (with_url P u) None) /\ url_reads (url P) u [] qs.
Proof.
  intros Hq Hf Hqo Hu Ho Hmax. destruct (query_texts q qs Ho Hqo) as (xs & Hs & Hx).
  exists (url P ++ query_text [[]; join [38] xs]). split.
  2: { apply (query_text_reads (url P) [] qs xs); [split; [by apply obj_okb_ok|apply Forall_nil_2]|vm_compute; discriminate|done|done|done]. }
  unfold mergeInQueryOrForm, merge_form. rewrite Hf. cbn [result_bind]. unfold merge_query. rewrite Hq.
  destruct qs as [|kv qs].
  - apply Forall2_nil_inv_l in Hx as ->. cbn. rewrite app_nil_r. by destruct P; cbn in *; rewrite Hq.
  - rewrite split_free by done. cbv zeta. change ([url P] !! 1%nat) with (@None (list Z)). cbn [other_parameters result_bind]. by rewrite Hs.
Qed.

Lemma render_no c σ ps : Forall (λ x, x <> c) (render [] ps) -> Forall (λ kv, Forall (λ x, x <> c) kv.2) σ -> Forall (λ x, x <> c) (render σ ps).
Proof.
  unfold render. intros H Hσ. apply Forall_concat. apply Forall_concat in H. rewrite Forall_fmap in *. eapply Forall_impl; [exact H|].
  intros [s|k] Hp; [exact Hp|]. cbn in *. destruct (list_find _ σ) as [[i kv]|] eqn:E; [|done].
  apply list_find_Some in E as (Hi & _). by apply (Forall_lookup_1 _ _ _ _ Hσ Hi).
Qed.

(** The parameters of an operation of Swagger 2 and the values given for them:
    texts for the variables of its path, texts and lists of texts for the
    query. *)
Record call := Call {
  c_pieces : list piece;
  c_path_parameters : list jval;
  c_path_values : list (list Z * list Z);
  c_query_parameters : list jval;
  c_query_values : jobj }.

Definition call_of (c : call) (e : arguments) (p : op) : Prop :=
  pathName p = render [] (c_pieces c) /\ template (c_pieces c) /\ Forall (λ x, x <> 63) (pathName p) /\
  arrayOrEmpty (get (props (operation p)) "parameters") ++ arrayOrEmpty (inherited p) = c_path_parameters c ++ c_query_parameters c /\
  Forall2 (λ e kv, is_parameter "path" e kv.1) (c_path_parameters c) (c_path_values c) /\
  Forall2 is_query_parameter (c_query_parameters c) (c_query_values c) /\
  obj_ok (named_values (c_path_values c).*1 (c_path_parameters c)) /\ Query.query_object (c_query_values c) /\
  len (Query.pairs (c_query_values c)) <= 1000 /\
  ∃ g, a_parameters e = JObj g /\
    Forall (λ kv, own (JObj g) kv.1 = JStr kv.2 /\ Query.well_formed kv.2 /\ kv.1 ∈ vars (c_pieces c)) (c_path_values c) /\
    Forall (λ kv, own (JObj g) kv.1 = kv.2 /\ truthy kv.2 = true) (c_query_values c).

Lemma Forall2_named {A} (P : jval -> list Z -> Prop) es (vs : list (list Z * A)) : Forall2 (λ e kv, P e kv.1) es vs -> Forall2 P es vs.*1.
Proof. induction 1; constructor; done. Qed.

Lemma named_keys {A} (es : list jval) (vs : list (list Z * A)) : length es = length vs -> obj_keys (named_values vs.*1 es) = vs.*1.
Proof. intros H. unfold obj_keys, named_values. apply fst_zip. rewrite length_fmap. lia. Qed.

(** The steps of all parameters. *)
Lemma all_steps c e p P b g : call_of c e p -> a_parameters e = JObj g ->
  Forall (λ kv, own (JObj g) kv.1 = JStr kv.2 /\ Query.well_formed kv.2 /\ kv.1 ∈ vars (c_pieces c)) (c_path_values c) ->
  Forall (λ kv, own (JObj g) kv.1 = kv.2 /\ truthy kv.2 = true) (c_query_values c) ->
  no_braces b -> url P = b ++ pathName p -> query P = None ->
  ∃ filled q, foldR (parameter_step lower JSON_parse false (JObj g)) P (c_path_parameters c ++ c_query_parameters c)
      = Ok (with_query (with_url P (b ++ render filled (c_pieces c))) (match c_query_values c with [] => None | _ => Some q end)) /\
    query_of q (c_query_values c) /\
    Forall2 (λ kv kf, kf.1 = kv.1 /\ decodeURIComponent kf.2 = Ok kv.2 /\ Forall Query.uri_char kf.2) (c_path_values c) filled.
Proof.
  intros (Hpath & Ht & _ & _ & Hpp & Hqq & Op & [Oq Hq] & _ & _) _ Hg1 Hg2 Hb HP HQ. rewrite foldR_app.
  assert (Hnd : NoDup (([] : list (list Z * list Z)).*1 ++ (c_path_values c).*1)).
  { cbn [fmap list_fmap app]. destruct Op as [Op _]. rewrite named_keys in Op; [done|]. by eapply Forall2_length. }
  destruct (path_steps g (c_pieces c) Ht _ _ P b [] Hpp Hg1 Hnd Hb (Forall_nil_2 _)) as (filled & E & Hf); [by rewrite HP, Hpath|].
  rewrite E. cbn [result_bind app].
  destruct (query_steps g (c_query_parameters c) (c_query_values c) (with_url P (b ++ render filled (c_pieces c))) [] []) as (q & Eq & Hqo); [done| |done|by cbn; rewrite HQ|constructor|].
  - apply Forall_forall. intros kv Hkv. rewrite Forall_forall in Hq, Hg2. destruct (Hq kv Hkv) as (_ & ? & ?). destruct (Hg2 kv Hkv). done.
  - exists filled, q. rewrite Eq. split_and!; [|done|done]. destruct (c_query_values c); [|done]. f_equal. destruct P; cbn in *. by rewrite HQ.
Qed.

End request.

(** Without credentials nothing is added. *)
Lemma no_securities lower t s l : applySecurities2 lower t JUndef s l = Ok (t, JObj []).
Proof. reflexivity. Qed.

(** C7. [buildRequest] asks for exactly what was entered, for every operation of
    Swagger 2 whose path is a template of literals and distinct variables and
    whose parameters (its own, then those of its path) are parameters of the path
    and then of the query, all given: texts in the path; in the query non-empty
    texts under any format, and lists of two or more texts with the format
    [multi]. The URL of the request is the base URL, the path with each variable
    replaced by a text that decodes to the value given for it and has no
    character that ends a segment or starts a query, and a query from which
    [querystring.parse] reads the names and values given, in their order, and
    nothing else. The method is the one of the operation, and nothing is sent as
    a body. No securities are given (C8 is about them), no parameter is a
    header, a form field or a body, and no content type is asked for. *)
Theorem build_request_swagger2 (lower upper : list Z -> list Z) (regexp_replace : list Z -> list Z -> list Z -> result (list Z))
    (JSON_parse : list Z -> result jval) (e : arguments) (id base : list Z) (p : op) (c : call) :
  isOAS3 (top (a_spec e)) = false -> a_operationId e = Some id -> getOperationRaw lower upper (a_spec e) id = Ok (Some p) ->
  baseUrl lower upper regexp_replace e p = Ok base -> no_braces base -> Forall (λ x, x <> 63) base ->
  call_of c e p -> a_securities e = JUndef -> a_requestContentType e = JUndef -> a_attachContentType e = JUndef ->
  ∃ r filled, buildRequest lower upper regexp_replace JSON_parse e = Ok r /\
    url_reads (base ++ render filled (c_pieces c)) (url r) [] (c_query_values c) /\
    Forall2 (λ kv kf, kf.1 = kv.1 /\ decodeURIComponent kf.2 = Ok kv.2 /\ Forall Query.uri_char kf.2) (c_path_values c) filled /\
    ClientHttp.method r = Some (upper (upper (ClientSpec.name p))) /\ body r = None /\ query r = None /\ form r = None.
Proof.
  intros HO Hid Hop Hbase Hbb Hb63 Hc Hsec Hct Hat. pose proof Hc as (Hpath & _ & H63 & Hpar & Hpp & Hqq & Op & Ho & Hmax & g & Hg & Hg1 & Hg2).
  unfold buildRequest. rewrite Hid, Hop. cbn [result_bind]. unfold assemble. rewrite HO, Hbase. cbn [result_bind]. rewrite Hpar.
  rewrite (deduplicate_distinct _ (c_path_values c).*1 _ (c_query_values c).*1).
  2: by apply Forall2_named. 2: { apply Forall2_named. eapply Forall2_impl; [exact Hqq|]. by intros x y [? _]. } 2: done.
  2: { eapply obj_ok_keys; [|apply Ho]. symmetry. apply named_keys. by eapply Forall2_length. }
  cbn [result_bind]. rewrite Hg. change (or (JObj g) (JObj [])) with (JObj g).
  set (P0 := if truthy (a_responseContentType e) then _ else _).
  assert (HP0 : url P0 = base ++ pathName p /\ query P0 = None /\ form P0 = None /\ body P0 = None /\ cookies P0 = Some [] /\
    ClientHttp.method P0 = Some (upper (upper (ClientSpec.name p)))) by (subst P0; by destruct (truthy _)).
  destruct HP0 as (Hu & HQ & HF & HB & HK & HM).
  destruct (all_steps lower JSON_parse c e p P0 base g Hc Hg Hg1 Hg2 Hbb Hu HQ) as (filled & q & E & Hqo & Hf). rewrite E. cbn [result_bind].
  rewrite Hsec, Hct, Hat. rewrite no_securities. cbn [result_bind fst].
  unfold build_body2. cbn [body form with_query with_url]. rewrite HB, HF. cbn [orb truthy andb]. unfold cookie_header. cbn [cookies with_query with_url]. rewrite HK.
  cbn [result_bind].
  edestruct (merge_after (with_cookies (with_query (with_url P0 (base ++ render filled (c_pieces c))) (match c_query_values c with [] => None | _ => Some q end)) None) q (c_query_values c))
    as (u & Em & Hr); [done|exact HF|exact Hqo| |done|done|].
  - cbn [url with_cookies with_query with_url]. apply Forall_app_2; [done|]. apply render_no; [by rewrite <- Hpath|].
    clear -Hf. induction Hf as [|kv kf vs filled (_ & _ & Hu) _ IH]; constructor; [by apply Query.uri_char_not|done].
  - rewrite Em. eexists _, filled. split; [done|]. by split_and!.
Qed.

(** An operation with a variable in its path and a query parameter. *)
Definition sample_parameters : list jval :=
  [parameter "path" "id" [(js "required", JBool true)]; parameter "query" "q" [(js "collectionFormat", JStr (js "multi"))]; parameter "query" "r" []].
Definition sample_arguments : arguments :=
  arguments_of (spec2 sample_parameters) "op" [(js "id", JStr (js "a/b c")); (js "q", JArr [JStr (js "x&y"); JStr []]); (js "r", JStr (js "="))].
Definition sample_op : op :=
  Op (js "/p/{id}") (js "get") (NObj [(js "operationId", JStr (js "op")); (js "parameters", JArr sample_parameters)]) JUndef.
Definition sample_call : call :=
  Call [Lit (js "/p/"); Var (js "id")] (take 1 sample_parameters) [(js "id", js "a/b c")] (drop 1 sample_parameters)
    [(js "q", JArr [JStr (js "x&y"); JStr []]); (js "r", JStr (js "="))].

Lemma Forall_b (f : Z -> bool) s : forallb f s = true -> Forall (λ c, f c = true) s.
Proof. intros H. rewrite forallb_forall in H. apply Forall_forall. intros c Hc%list_elem_of_In. auto. Qed.
Lemma no_braces_b s : forallb (λ c, negb (c =? 123) && negb (c =? 125)) s = true -> no_braces s.
Proof. intros H%Forall_b. eapply Forall_impl; [exact H|]. intros c Hc. cbn in Hc. lia. Qed.
Lemma no_question_b s : forallb (λ c, negb (c =? 63)) s = true -> Forall (λ c, c <> 63) s.
Proof. intros H%Forall_b. eapply Forall_impl; [exact H|]. intros c Hc. cbn in Hc. lia. Qed.

Lemma sample_call_ok : call_of sample_call sample_arguments sample_op.
Proof.
  split_and!.
  - vm_compute. reflexivity.
  - split; [apply Forall_cons_2; [by apply no_braces_b|apply Forall_singleton; by apply no_braces_b]|]. apply (bool_decide_unpack _). vm_compute. exact I.
  - by apply no_question_b.
  - vm_compute. reflexivity.
  - apply Forall2_cons_2; [|apply Forall2_nil_2]. split_and!; [by eexists|vm_compute; reflexivity|vm_compute; reflexivity|done|done].
  - repeat apply Forall2_cons_2; try apply Forall2_nil_2.
    + split; [|right; vm_compute; reflexivity]. split_and!; [by eexists|vm_compute; reflexivity|vm_compute; reflexivity|done|done].
    + split; [|left; by eexists]. split_and!; [by eexists|vm_compute; reflexivity|vm_compute; reflexivity|done|done].
  - by apply obj_okb_ok.
  - split; [by apply obj_okb_ok|]. repeat apply Forall_cons_2; try apply Forall_nil_2; (split_and!; [by apply Query.well_formed_b|done|]).
    + right. exists [js "x&y"; []]. split_and!; [done|cbn; lia|]. repeat apply Forall_cons_2; [by apply Query.well_formed_b..|apply Forall_nil_2].
    + left. exists (js "="). split; [done|by apply Query.well_formed_b].
  - vm_compute. discriminate.
  - eexists. split_and!; [reflexivity| |].
    + apply Forall_singleton. split_and!; [vm_compute; reflexivity|by apply Query.well_formed_b|by left].
    + repeat apply Forall_cons_2; try apply Forall_nil_2; (split; vm_compute; reflexivity).
Qed.

Lemma build_request_swagger2_witness :
  ∃ r filled, buildRequest to_lower to_upper no_regexp no_json sample_arguments = Ok r /\
    url_reads (js "http://api.io/v1" ++ render filled (c_pieces sample_call)) (url r) [] (c_query_values sample_call) /\
    Forall2 (λ kv kf, kf.1 = kv.1 /\ decodeURIComponent kf.2 = Ok kv.2 /\ Forall Query.uri_char kf.2) (c_path_values sample_call) filled /\
    ClientHttp.method r = Some (js "GET") /\ body r = None /\ query r = None /\ form r = None.
Proof.
  apply (build_request_swagger2 to_lower to_upper no_regexp no_json sample_arguments (js "op") (js "http://api.io/v1") sample_op sample_call).
  - vm_compute. reflexivity.
  - reflexivity.
  - vm_compute. reflexivity.
  - vm_compute. reflexivity.
  - by apply no_braces_b.
  - by apply no_question_b.
  - exact sample_call_ok.
  - reflexivity.
  - reflexivity.
  - reflexivity.
Defined.

(** ** Credentials *)

(** The headers, query parameters and cookies of a request. *)
Definition header_at (t : request) (k : list Z) : jval := own (JObj (headers t)) k.
Definition query_at (t : request) (k : list Z) : jval := own (JObj (default [] (query t))) k.
Definition cookie_at (t : request) (k : list Z) : jval := own (JObj (default [] (cookies t))) k.

(** [t'] differs from [t] at most in headers, query parameters and cookies
    whose names are in [A]. *)
Record adds (A : list Z -> Prop) (t t' : request) : Prop := {
  adds_rest : url t' = url t /\ ClientHttp.method t' = ClientHttp.method t /\ form t' = form t /\ body t' = body t;
  adds_header k : header_at t' k = header_at t k \/ A k;
  adds_query k : query_at t' k = query_at t k \/ A k;
  adds_cookie k : cookie_at t' k = cookie_at t k \/ A k }.

Lemma adds_refl A t : adds A t t.
Proof. split; [done|by left|by left|by left]. Qed.
Lemma adds_trans A t u v : adds A t u -> adds A u v -> adds A t v.
Proof.
  intros [(Ua & Ma & Fa & Ba) Ha Qa Ca] [(Ub & Mb & Fb & Bb) Hb Qb Cb]. split; [split_and!; congruence| | |];
    intros k; [destruct (Ha k), (Hb k)|destruct (Qa k), (Qb k)|destruct (Ca k), (Cb k)]; auto; left; congruence.
Qed.
Lemma adds_impl (A B : list Z -> Prop) t t' : (∀ k, A k -> B k) -> adds A t t' -> adds B t t'.
Proof. intros HAB [R H Q C]. split; [done| | |]; intros k; [destruct (H k)|destruct (Q k)|destruct (C k)]; auto. Qed.

Lemma own_set o k v j : own (JObj (set o k v)) j = own (JObj o) j \/ j = k.
Proof.
  unfold set, obj_assign, own. cbn [Query.entries]. destruct (negb false && _); [by left|]. rewrite obj_get_set. destruct (decide (j = k)); auto.
Qed.
Lemma adds_set_header (A : list Z -> Prop) t k v : A k -> adds A t (set_header t k v).
Proof. intros Hk. split; [done| |by left|by left]. intros j. unfold header_at, set_header. cbn. destruct (own_set (headers t) k v j) as [-> | ->]; auto. Qed.
Lemma adds_query_entry (A : list Z -> Prop) t k v : A k -> adds A t (with_query_entry t k v).
Proof. intros Hk. split; [done|by left| |by left]. intros j. unfold query_at, with_query_entry. cbn. destruct (own_set (default [] (query t)) k v j) as [-> | ->]; auto. Qed.
Lemma adds_cookies (A : list Z -> Prop) t c k v : A k -> cookies t = Some c -> adds A t (with_cookies t (Some (set c k v))).
Proof. intros Hk Hc. split; [done|by left|by left|]. intros j. unfold cookie_at. rewrite Hc. cbn. destruct (own_set c k v j) as [-> | ->]; auto. Qed.
Lemma adds_empty_query A t : adds A t (with_query t (Some (default [] (query t)))).
Proof. split; [done|by left|by left|by left]. Qed.

(** The names under which the credentials of the scheme [n] can be sent. *)
Definition credential_name (g : jval) (n k : list Z) : Prop :=
  k = js "authorization" \/ k = js "Authorization" \/ k = to_string (own (own g n) (js "name")).

Lemma bind_ok {A B} (m : result A) (f : A -> result B) b : result_bind m f = Ok b -> ∃ a, m = Ok a /\ f a = Ok b.
Proof. destruct m; cbn; [eauto|done]. Qed.
Lemma member_ok v k x : member v k = Ok x -> x = own v k.
Proof. destruct v; cbn; congruence. Qed.

(** [bind_step] takes a successful step of a call apart. *)
Ltac bind_step :=
  match goal with
  | H : result_bind (member ?v ?k) _ = Ok _ |- _ =>
      let x := fresh "x" in let E := fresh "E" in apply bind_ok in H as (x & E & H); apply member_ok in E; subst x
  | H : result_bind _ _ = Ok _ |- _ => let x := fresh "x" in let E := fresh "E" in apply bind_ok in H as (x & E & H)
  | H : context [if ?b then _ else _] |- _ => destruct b eqn:?
  | H : match cookies ?f with Some _ => _ | None => _ end = Ok _ |- _ => destruct (cookies f) eqn:?; [|done]
  end.

Lemma apply_security3_adds lower m d f n f' : apply_security3 lower m d f n = Ok f' ->
  (truthy (own d n) = false -> f' = f) /\ adds (credential_name m n) f f'.
Proof.
  unfold apply_security3. cbv zeta. destruct (truthy (own d n)); cbn [negb]; [|intros [= <-]; split; [done|apply adds_refl]].
  intros H. split; [done|]. repeat bind_step; injection H as <-;
    first [apply adds_refl|apply adds_query_entry; by right; right|apply adds_set_header; by right; right|apply adds_cookies; [by right; right|done]
          |apply adds_set_header; by right; left].
Qed.

Lemma apply_security2_adds lower g c p n c' p' : apply_security2 lower g (c, p) n = Ok (c', p') ->
  (truthy (own (JObj p) n) = false -> c' = c) /\ adds (credential_name g n) c c' /\ (∀ j, truthy (own (JObj p') j) = true -> truthy (own (JObj p) j) = true).
Proof.
  unfold apply_security2. cbv zeta. destruct (truthy (own (JObj p) n)) eqn:Et; cbn [negb]; [|intros [= <- <-]; split_and!; [done|apply adds_refl|done]].
  intros H. split; [done|].
  assert (K : ∀ x q, store_base64 p n x = Ok q -> ∀ j, truthy (own (JObj q) j) = true -> truthy (own (JObj p) j) = true).
  { intros x q Hq j Hj. unfold store_base64 in Hq. destruct (own (JObj p) n) eqn:Eo; try done; [by injection Hq as <-|].
    destruct (or _ _); try done; [by injection Hq as <-|]. injection Hq as <-.
    edestruct (own_set p n) as [Es|Es]; [rewrite Es in Hj; exact Hj|]. subst j. by rewrite Eo. }
  repeat bind_step; injection H as <- <-; (split; [|first [done|by eapply K]]);
    first [apply adds_refl|apply adds_query_entry; by right; right|apply adds_set_header; by right; right|apply adds_set_header; by left].
Qed.

Lemma security3_fold lower m d ns f f' : foldR (apply_security3 lower m d) f ns = Ok f' ->
  adds (λ k, ∃ n, n ∈ ns /\ truthy (own d n) = true /\ credential_name m n k) f f'.
Proof.
  revert f. induction ns as [|n ns IH]; intros f; cbn [foldR]; [intros [= <-]; apply adds_refl|].
  intros (f1 & E & H)%bind_ok. destruct (apply_security3_adds lower m d f n f1 E) as [Hf Ha]. eapply adds_trans.
  - destruct (truthy (own d n)) eqn:Et; [|rewrite Hf by done; apply adds_refl].
    eapply adds_impl; [|exact Ha]. intros k Hk. exists n. split_and!; [apply elem_of_cons; by left|done|done].
  - eapply adds_impl; [|exact (IH f1 H)]. intros k (j & Hj & ?). exists j. split; [by apply elem_of_cons; right|done].
Qed.
Lemma security2_fold lower g ns p0 : ∀ c p cp', (∀ j, truthy (own (JObj p) j) = true -> truthy (own (JObj p0) j) = true) ->
  foldR (apply_security2 lower g) (c, p) ns = Ok cp' ->
  adds (λ k, ∃ n, n ∈ ns /\ truthy (own (JObj p0) n) = true /\ credential_name g n k) c cp'.1.
Proof.
  induction ns as [|n ns IH]; intros c p cp' Hp; cbn [foldR]; [intros [= <-]; apply adds_refl|].
  intros ([c1 p1] & E & H)%bind_ok. destruct (apply_security2_adds lower g c p n c1 p1 E) as (Hf & Ha & Hj). eapply adds_trans.
  - destruct (truthy (own (JObj p) n)) eqn:Et; [|rewrite Hf by done; apply adds_refl].
    eapply adds_impl; [|exact Ha]. intros k Hk. exists n. split_and!; [apply elem_of_cons; by left|by apply Hp|done].
  - eapply adds_impl; [|eapply IH; [|exact H]]; [|auto]. intros k (j & Hin & ?). exists j. split; [by apply elem_of_cons; right|done].
Qed.

(** A scheme that the requirements [v] name and that is authorized in [p]. *)
Definition required (v p : jval) (n : list Z) : Prop :=
  (∃ ns, requirement_names v = Ok ns /\ n ∈ ns) /\ truthy (own p n) = true.

(** C8. Credentials go only where they are asked for: applying the securities of
    an operation changes a header, a query parameter or a cookie only under the
    name of a scheme (or the name of the authorization header) that the security
    requirements in force for the operation list and that is authorized; an
    operation that asks for no security (an empty list) leaves the request as it
    is; and the URL, the method, the form and the body are never changed. For
    Swagger 2 and for OpenAPI 3. *)
Theorem credentials_required (lower : list Z -> list Z) (t : request) (securities security : jval) (s : jobj) :
  (∀ t' a, applySecurities2 lower t securities security s = Ok (t', a) ->
    ∃ p h, field_or securities "authorized" (JObj []) = Ok p /\ field_or securities "specSecurity" (JArr []) = Ok h /\
      (security = JArr [] -> t' = t) /\
      adds (λ k, ∃ n, required (or security h) p n /\ credential_name (get s "securityDefinitions") n k) t t') /\
  (∀ t', applySecurities3 lower t securities security s = Ok t' ->
    ∃ p, field_or securities "authorized" (JObj []) = Ok p /\ (security = JArr [] -> t' = t) /\
      adds (λ k, ∃ n, required (or (or security (get s "security")) (JArr [])) p n /\ credential_name (security_schemes s) n k) t t').
Proof.
  split.
  - intros t' a H. unfold applySecurities2 in H. apply bind_ok in H as (p & Ep & H). apply bind_ok in H as (h & Eh & H). cbv zeta in H.
    exists p, h. split_and!; [done|done| |].
    + intros ->. unfold applies in H. rewrite (bool_decide_true ([] = [])) in H by done. cbn [negb] in H. rewrite andb_false_r in H. congruence.
    + destruct (applies _ _ _ _); [|injection H as <- <-; apply adds_refl]. apply bind_ok in H as (ns & En & H). apply bind_ok in H as (cp & Ec & H).
      injection H as <- _. eapply adds_trans; [apply adds_empty_query|]. eapply adds_impl; [|exact (security2_fold lower _ ns (Query.entries p) _ _ _ (λ j x, x) Ec)].
      intros k (n & Hn & Ht & Hc). exists n. split; [|done]. split; [by exists ns|]. unfold own in *. by destruct p.
  - intros t' H. unfold applySecurities3 in H. apply bind_ok in H as (p & Ep & H). cbv zeta in H. exists p. split_and!; [done| |].
    + intros ->. unfold applies in H. rewrite (bool_decide_true ([] = [])) in H by done. cbn [negb] in H. rewrite andb_false_r in H. congruence.
    + destruct (applies _ _ _ _); [|injection H as <-; apply adds_refl]. apply bind_ok in H as (ns & En & H).
      eapply adds_trans; [apply adds_empty_query|]. eapply adds_impl; [|exact (security3_fold lower _ _ ns _ _ H)].
      intros k (n & Hn & Ht & Hc). exists n. split; [|done]. split; [by exists ns|done].
Qed.

(** Where an API key can be, and what a request has there. *)
Definition at_place (w : list Z) (t : request) (k : list Z) : jval :=
  if decide (w = js "query") then query_at t k else if decide (w = js "header") then header_at t k else cookie_at t k.

Lemma own_set_same o k v : k ≠ js "__proto__" -> own (JObj (set o k v)) k = v.
Proof. intros Hk. unfold set, obj_assign, own. cbn [Query.entries negb andb]. rewrite bool_decide_false by done. rewrite obj_get_set. by rewrite decide_True. Qed.

Lemma adds_keeps A t t' w k : adds A t t' -> ~ A k -> at_place w t' k = at_place w t k.
Proof.
  intros [_ Hh Hq Hc] Hk. unfold at_place. repeat destruct decide.
  - by destruct (Hq k).
  - by destruct (Hh k).
  - by destruct (Hc k).
Qed.

(** The scheme [n] is an API key in [w] under the name [k], and the value that is
    authorized for it is [i]. *)
Record api_key (m d : jval) (n w k : list Z) (i : jval) : Prop := {
  key_place : w ∈ [js "query"; js "header"; js "cookie"];
  key_scheme : ∃ o, own m n = JObj o /\ get o "type" = JStr (js "apiKey") /\ get o "in" = JStr w /\ get o "name" = JStr k;
  key_name : k ≠ js "__proto__";
  key_value : ∃ r, own d n = JObj r /\ i = or (get r "value") (JObj r) }.

Lemma api_key_applied lower m d f n w k i : (∃ o, m = JObj o) -> is_Some (cookies f) -> api_key m d n w k i ->
  ∃ f', apply_security3 lower m d f n = Ok f' /\ is_Some (cookies f') /\ at_place w f' k = i.
Proof.
  intros [mo ->] [c Hc] [Hw (o & Eo & Et & Ei & En) Hk (r & Er & ->)]. unfold apply_security3. cbv zeta. rewrite Er. cbn [truthy negb member].
  cbn [result_bind]. rewrite Eo. cbn [member result_bind]. unfold own, get in *. cbn [Query.entries].
  destruct (obj_get o (js "type")), (obj_get o (js "in")), (obj_get o (js "name")); try discriminate. cbn in Et, Ei, En. subst.
  rewrite bool_decide_true by done. unfold at_place.
  apply elem_of_cons in Hw as [->|Hw]; [|apply elem_of_cons in Hw as [->|Hw]; [|apply list_elem_of_singleton in Hw as ->]].
  - eexists. split; [reflexivity|]. split; [by exists c|]. apply own_set_same. done.
  - eexists. split; [reflexivity|]. split; [by exists c|]. apply own_set_same. done.
  - rewrite Hc. eexists. split; [reflexivity|]. split; [by eexists|]. apply own_set_same. done.
Qed.

Lemma own_properties v k : own v k ≠ JUndef -> (∃ o, v = JObj o) -> properties v ≠ [].
Proof. intros Hv [o ->] E. apply Hv. cbn in E. subst. reflexivity. Qed.

Lemma apply_security3_cookies lower m d f n f' : apply_security3 lower m d f n = Ok f' -> is_Some (cookies f) -> is_Some (cookies f').
Proof.
  unfold apply_security3. cbv zeta. destruct (truthy (own d n)); cbn [negb]; [|by intros [= <-]].
  intros H Hc. repeat bind_step; injection H as <-; done.
Qed.
Lemma security3_cookies lower m d ns f f' : foldR (apply_security3 lower m d) f ns = Ok f' -> is_Some (cookies f) -> is_Some (cookies f').
Proof.
  revert f. induction ns as [|n ns IH]; intros f; cbn [foldR]; [by intros [= <-]|].
  intros (f1 & E & H)%bind_ok Hc. eauto using apply_security3_cookies.
Qed.

(** C19. An authorized API key is sent: when the requirements in force for an
    operation of OpenAPI 3 list the scheme [n], an API key in the query, a header
    or a cookie under the name [k], and a value is authorized for it, the request
    carries that value in that place under that name, unless a scheme that is
    listed later is sent under the same name. *)
Theorem api_key_sent (lower : list Z -> list Z) (t t' : request) (so p sm s : jobj) (security : jval) (pre post : list (list Z)) (n w k : list Z) (i : jval) :
  applySecurities3 lower t (JObj so) security s = Ok t' ->
  is_Some (cookies t) -> get so "authorized" = JObj p -> security ≠ JArr [] -> security_schemes s = JObj sm ->
  requirement_names (or (or security (get s "security")) (JArr [])) = Ok (pre ++ n :: post) ->
  api_key (JObj sm) (JObj p) n w k i ->
  (∀ n', n' ∈ post -> truthy (own (JObj p) n') = true -> ~ credential_name (JObj sm) n' k) ->
  at_place w t' k = i.
Proof.
  intros H Hc Hp Hs Hm Hn Hk Hpost. unfold applySecurities3, field_or in H. cbn [member result_bind] in H.
  change (own (JObj so) (js "authorized")) with (get so "authorized") in H. rewrite Hp in H. cbn [result_bind] in H. cbv zeta in H.
  replace (applies _ _ _ _) with true in H.
  - rewrite Hn, Hm in H. cbn [result_bind] in H. rewrite foldR_app in H. apply bind_ok in H as (f1 & E1 & H). cbn [foldR] in H.
    assert (Hc1 : is_Some (cookies f1)) by (eapply security3_cookies; [exact E1|done]).
    destruct (api_key_applied lower (JObj sm) (JObj p) f1 n w k i) as (f2 & E2 & _ & Hi); [by eexists|done|done|].
    rewrite E2 in H. cbn [result_bind] in H. rewrite <- Hi. eapply adds_keeps; [exact (security3_fold _ _ _ _ _ _ H)|].
    intros (n' & Hin & Ht & Hcn). exact (Hpost n' Hin Ht Hcn).
  - symmetry. unfold applies. destruct Hk as [_ _ _ (r & Er & _)].
    rewrite (bool_decide_false (properties (JObj so) = [])), (bool_decide_false (properties (JObj p) = [])).
    + replace (truthy (or _ _)) with true by by destruct (or (or _ _) _). destruct security; try done. cbn. by rewrite bool_decide_false by congruence.
    + apply (own_properties _ n); [by rewrite Er|by eexists].
    + apply (own_properties _ (js "authorized")); [|by eexists]. change (own (JObj so) (js "authorized")) with (get so "authorized"). by rewrite Hp.
Qed.

(** A specification with an API key in a header and a bearer scheme, and an
    operation that asks for both. *)
Definition key_schemes : jobj :=
  [(js "key", JObj [(js "type", JStr (js "apiKey")); (js "in", JStr (js "header")); (js "name", JStr (js "X-Key"))]);
   (js "token", JObj [(js "type", JStr (js "http")); (js "scheme", JStr (js "bearer"))])].
Definition key_spec : jobj :=
  [(js "openapi", JStr (js "3.0.0")); (js "components", JObj [(js "securitySchemes", JObj key_schemes)]);
   (js "securityDefinitions", JObj key_schemes)].
Definition key_authorized : jobj := [(js "key", JObj [(js "value", JStr (js "secret"))]); (js "token", JObj [(js "value", JStr (js "abc"))])].
Definition key_security : jval := JArr [JObj [(js "key", JArr []); (js "token", JArr [])]].
Definition key_request : request := with_cookies (plain_request (js "http://api.io") None) (Some []).
Definition key_headers : jobj := [(js "X-Key", JStr (js "secret")); (js "Authorization", JStr (js "Bearer abc"))].
Definition key_securities : jobj := [(js "authorized", JObj key_authorized)].

Lemma credentials_required_witness :
  (∃ p h, field_or (JObj key_securities) "authorized" (JObj []) = Ok p /\ field_or (JObj key_securities) "specSecurity" (JArr []) = Ok h /\
    adds (λ k, ∃ n, required (or key_security h) p n /\ credential_name (JObj key_schemes) n k) key_request
      (set_header (with_query key_request (Some [])) (js "X-Key") (JStr (js "secret")))) /\
  (∃ p, field_or (JObj key_securities) "authorized" (JObj []) = Ok p /\
    adds (λ k, ∃ n, required key_security p n /\ credential_name (JObj key_schemes) n k) key_request
      (with_headers (with_query key_request (Some [])) key_headers)).
Proof.
  destruct (credentials_required to_lower key_request (JObj key_securities) key_security key_spec) as [H2 H3]. split.
  - destruct (H2 (set_header (with_query key_request (Some [])) (js "X-Key") (JStr (js "secret"))) (JObj key_authorized)) as (p & h & Hp & Hh & _ & Ha).
    + vm_compute. reflexivity.
    + exists p, h. split_and!; [exact Hp|exact Hh|exact Ha].
  - destruct (H3 (with_headers (with_query key_request (Some [])) key_headers)) as (p & Hp & _ & Ha).
    + vm_compute. reflexivity.
    + exists p. split; [exact Hp|exact Ha].
Defined.

Lemma api_key_sent_witness :
  applySecurities3 to_lower key_request (JObj key_securities) key_security key_spec = Ok (with_headers (with_query key_request (Some [])) key_headers) /\
  at_place (js "header") (with_headers (with_query key_request (Some [])) key_headers) (js "X-Key") = JStr (js "secret").
Proof.
  split; [vm_compute; reflexivity|].
  apply (api_key_sent to_lower key_request (with_headers (with_query key_request (Some [])) key_headers) key_securities key_authorized key_schemes key_spec
           key_security [] [js "token"] (js "key") (js "header") (js "X-Key") (JStr (js "secret"))).
  - vm_compute. reflexivity.
  - by exists [].
  - reflexivity.
  - discriminate.
  - vm_compute. reflexivity.
  - vm_compute. reflexivity.
  - split.
    + apply list_elem_of_further, list_elem_of_here.
    + eexists. split_and!; vm_compute; reflexivity.
    + vm_compute. discriminate.
    + eexists. split; vm_compute; reflexivity.
  - intros n' ->%list_elem_of_singleton _ [E|[E|E]]; vm_compute in E; discriminate.
Defined.

End ClientRequestOk.
