(* ===== verification/UiUtils.v ===== *)
(** The utilities of Swagger UI in the bundle
    client/docs/swagger-ui/swagger-ui-bundle.js, lines 2681-3053: validation of
    parameters, lists made of nested maps, stripping of keys, the query of the
    page, status codes, deep links.

    Numbers are exact decimals where the language rounds to 53 bits. There are
    no [File]s among the values. What [Date.parse] accepts and the matches of a
    pattern of the specification are parameters of the validation. *)

From stdpp Require Import base list list_numbers numbers strings gmap.
From Stdlib Require Import ZArith Lia.
From S2P Require Import Prelude Base64 Buffer BufferText Uri Json Im UiErr UiAuth Query.

Module UiUtils.
Import Im.
Import Uri (encodeURIComponent, decodeURIComponent).

(** ** Numbers of the language *)

(** [Dec m e] is m * 10^e. *)
Inductive jsnum := NaN | Inf (positive : bool) | Dec (m e : Z).

Definition num_lt (a b : jsnum) : bool :=
  match a, b with
  | NaN, _ | _, NaN => false
  | Inf x, Inf y => negb x && y
  | Inf x, Dec _ _ => negb x
  | Dec _ _, Inf y => y
  | Dec m e, Dec n f => let s := Z.min e f in m * 10 ^ (e - s) <? n * 10 ^ (f - s)
  end.

Fixpoint span_digits (s : list Z) : list Z * list Z :=
  match s with
  | c :: s' => if Json.digit c then let '(d, r) := span_digits s' in (c :: d, r) else ([], s)
  | [] => ([], [])
  end.

(** The exponent at the end of a literal. *)
Definition exponent (s : list Z) : option Z :=
  match s with
  | [] => Some 0
  | c :: t =>
      if negb ((c =? 69) || (c =? 101)) then None
      else
        let '(neg, t) := match t with d :: t' => if d =? 45 then (true, t') else if d =? 43 then (false, t') else (false, t)
                                    | [] => (false, t) end in
        match span_digits t with
        | ((_ :: _) as d, []) => Some (if neg then - Json.dec_value d 0 else Json.dec_value d 0)
        | _ => None
        end
  end.
Definition decimal (s : list Z) : jsnum :=
  let '(ip, s) := span_digits s in
  let '(fp, s) := match s with c :: t => if c =? 46 then span_digits t else ([], s) | [] => ([], s) end in
  match ip ++ fp, exponent s with
  | [], _ | _, None => NaN
  | ds, Some e => Dec (Json.dec_value ds 0) (e - len fp)
  end.

Definition radix_digit (r c : Z) : option Z :=
  match hex_digit c with Some d => if d <? r then Some d else None | None => None end.
Fixpoint radix_value (r : Z) (s : list Z) (acc : Z) : jsnum :=
  match s with
  | [] => Dec acc 0
  | c :: s => match radix_digit r c with Some d => radix_value r s (acc * r + d) | None => NaN end
  end.

Definition neg_num (n : jsnum) : jsnum := match n with NaN => NaN | Inf b => Inf (negb b) | Dec m e => Dec (- m) e end.
Definition unsigned_number (s : list Z) : jsnum := if decide (s = js "Infinity") then Inf true else decimal s.
(** ToNumber of a string. *)
Definition string_to_number (s : list Z) : jsnum :=
  match trim s with
  | [] => Dec 0 0
  | c :: t =>
      if c =? 45 then neg_num (unsigned_number t)
      else if c =? 43 then unsigned_number t
      else match c, t with
      | 48, d :: ((_ :: _) as u) =>
          if (d =? 120) || (d =? 88) then radix_value 16 u 0
          else if (d =? 98) || (d =? 66) then radix_value 2 u 0
          else if (d =? 111) || (d =? 79) then radix_value 8 u 0
          else decimal (c :: t)
      | _, _ => unsigned_number (c :: t)
      end
  end.

(** ToPrimitive, ToNumber and the operator [<]. *)
Definition to_primitive (v : value) : value :=
  match v with VArr _ | VObj _ | VMap _ _ | VList _ | VSet _ => VStr (to_text v) | _ => v end.
Definition to_number (v : value) : jsnum :=
  match to_primitive v with
  | VNull => Dec 0 0
  | VBool b => Dec (if b then 1 else 0) 0
  | VNum z => Dec z 0
  | VStr s => string_to_number s
  | _ => NaN
  end.
Fixpoint text_lt (s t : list Z) : bool :=
  match s, t with
  | _, [] => false
  | [], _ :: _ => true
  | a :: s, b :: t => (a <? b) || ((a =? b) && text_lt s t)
  end.
Definition js_lt (a b : value) : bool :=
  match to_primitive a, to_primitive b with
  | VStr s, VStr t => text_lt s t
  | x, y => num_lt (to_number x) (to_number y)
  end.

(** ** Texts that are JSON *)

Fixpoint skip_white (s : list Z) : list Z :=
  match s with c :: s' => if bool_decide (c ∈ [9; 10; 13; 32]) then skip_white s' else s | [] => [] end.

(** What follows a string whose opening quote was read. *)
Fixpoint json_string (s : list Z) : option (list Z) :=
  match s with
  | 34 :: s => Some s
  | 92 :: 117 :: a :: b :: c :: d :: s =>
      if forallb (λ x, bool_decide (is_Some (hex_digit x))) [a; b; c; d] then json_string s else None
  | 92 :: c :: s => if bool_decide (c ∈ [34; 92; 47; 98; 102; 110; 114; 116]) then json_string s else None
  | c :: s => if (c <? 32) || (c =? 92) then None else json_string s
  | [] => None
  end.
Definition json_int (s : list Z) : option (list Z) :=
  match span_digits s with
  | ([], _) => None
  | (d :: ds, r) => if (d =? 48) && negb (match ds with [] => true | _ => false end) then None else Some r
  end.
Definition json_frac (s : list Z) : option (list Z) :=
  match s with 46 :: t => match span_digits t with ([], _) => None | (_, r) => Some r end | _ => Some s end.
Definition json_exp (s : list Z) : option (list Z) :=
  match s with
  | c :: t =>
      if (c =? 69) || (c =? 101) then
        let t := match t with d :: t' => if (d =? 43) || (d =? 45) then t' else t | [] => t end in
        match span_digits t with ([], _) => None | (_, r) => Some r end
      else Some s
  | [] => Some s
  end.
Definition json_number (s : list Z) : option (list Z) :=
  (json_int (match s with 45 :: t => t | _ => s end) ≫= json_frac) ≫= json_exp.
Definition literal (w s : list Z) : option (list Z) := if Json.prefix_at w s then Some (drop (length w) s) else None.

(** What follows a value, the elements of an array or the members of an object. *)
Inductive json_mode := JSONValue | JSONElements | JSONMembers.
Fixpoint json_rest (fuel : nat) (mode : json_mode) (s : list Z) : option (list Z) :=
  match fuel with
  | O => None
  | S fuel =>
      let s := skip_white s in
      match mode with
      | JSONValue =>
          match s with
          | 34 :: s => json_string s
          | 91 :: t => match skip_white t with 93 :: r => Some r | _ => json_rest fuel JSONElements t end
          | 123 :: t => match skip_white t with 125 :: r => Some r | _ => json_rest fuel JSONMembers t end
          | 116 :: _ => literal (js "true") s
          | 102 :: _ => literal (js "false") s
          | 110 :: _ => literal (js "null") s
          | _ => json_number s
          end
      | JSONElements =>
          json_rest fuel JSONValue s ≫= λ s, match skip_white s with
          | 44 :: r => json_rest fuel JSONElements r
          | 93 :: r => Some r
          | _ => None
          end
      | JSONMembers =>
          (match s with 34 :: s => json_string s | _ => None end) ≫= λ s,
          (match skip_white s with 58 :: r => json_rest fuel JSONValue r | _ => None end) ≫= λ s,
          match skip_white s with
          | 44 :: r => json_rest fuel JSONMembers r
          | 125 :: r => Some r
          | _ => None
          end
      end
  end.
(** [JSON.parse(s)] does not throw; every second call reads a character. *)
Definition json_text (s : list Z) : bool :=
  match json_rest (2 * length s + 2) JSONValue s with
  | Some r => match skip_white r with [] => true | _ => false end
  | None => false
  end.

Example numbers_ex :
  js_lt (VNum 12) (str "12.5") = true /\ js_lt (str "1e2") (VNum 99) = false /\ js_lt (str "abc") (VNum 1) = false
  /\ js_lt (str "0x10") (VNum 17) = true /\ js_lt (str "10") (str "9") = true /\ js_lt VNull (VNum 1) = true
  /\ json_text (js "{ `a`: [1, -2.5e3, {}], `b`:null }") = false
  /\ json_text ((λ c, if c =? 96 then 34 else c) <$> js "{ `a`: [1, -2.5e3, {}, []], `b\n`:null }") = true
  /\ json_text (js "[1,]") = false /\ json_text (js "01") = false.
Proof. vm_compute. auto 20. Qed.

(** ** Validators: the text of the complaint, if any *)

Definition validateMaximum (e t : value) : option (list Z) :=
  if js_lt t e then Some (js "Value must be less than Maximum") else None.
Definition validateMinimum (e t : value) : option (list Z) :=
  if js_lt e t then Some (js "Value must be greater than Minimum") else None.

Definition unsign (s : list Z) : list Z := match s with c :: t => if c =? 45 then t else s | [] => [] end.
(** The pattern -?d+ *)
Definition integer_text (s : list Z) : bool :=
  match unsign s with [] => false | u => forallb Json.digit u end.
(** The pattern -?d+(.?d+)? *)
Definition number_text (s : list Z) : bool :=
  match span_digits (unsign s) with
  | ([], _) => false
  | (_, []) => true
  | (_, c :: f) => (c =? 46) && match f with [] => false | _ => forallb Json.digit f end
  end.
Definition validateNumber (e : value) : option (list Z) :=
  if number_text (to_text e) then None else Some (js "Value must be a number").
Definition validateInteger (e : value) : option (list Z) :=
  if integer_text (to_text e) then None else Some (js "Value must be an integer").
Definition validateFile (e : value) : option (list Z) :=
  if truthy e then Some (js "Value must be a file") else None.
Definition validateBoolean (e : value) : option (list Z) :=
  if bool_decide (e ∈ [str "true"; str "false"; VBool true; VBool false]) then None
  else Some (js "Value must be a boolean").
Definition is_text (e : value) : bool := match e with VStr _ => true | _ => false end.
Definition validateString (e : value) : option (list Z) :=
  if truthy e && negb (is_text e) then Some (js "Value must be a string") else None.

(** The pattern of a GUID, with or without one bracket on each side. *)
Definition hexes (n : nat) (s : list Z) : option (list Z) :=
  if (length s <? n)%nat then None
  else if forallb (λ c, bool_decide (is_Some (hex_digit c))) (take n s) then Some (drop n s) else None.
Definition dash (s : list Z) : option (list Z) := match s with c :: t => if c =? 45 then Some t else None | [] => None end.
Definition guid_text (s : list Z) : bool :=
  let s := match s with c :: t => if (c =? 123) || (c =? 40) then t else s | [] => s end in
  match (((((((hexes 8 s ≫= dash) ≫= hexes 4) ≫= dash) ≫= hexes 4) ≫= dash) ≫= hexes 4) ≫= dash) ≫= hexes 12 with
  | Some [] => true
  | Some [c] => (c =? 125) || (c =? 41)
  | _ => false
  end.
Definition no_property (p : string) : exn := TypeError (js "Cannot read properties of undefined (reading " ++ js p ++ js ")").
Definition validateGuid (e : value) : result (option (list Z)) :=
  match e with
  | VUndef | VNull => Throw (no_property "toString")
  | _ => Ok (if guid_text (to_lower (to_text e)) then None else Some (js "Value must be a Guid"))
  end.

(** [e.length]; collections have none. *)
Definition length_of (e : value) : result value :=
  match e with
  | VUndef | VNull => Throw (no_property "length")
  | VStr s => Ok (VNum (len s))
  | VArr l => Ok (VNum (len l))
  | VObj o => Ok (prop o (js "length"))
  | _ => Ok VUndef
  end.
Definition validateMaxLength (e t : value) : result (option (list Z)) :=
  let! n := length_of e in Ok (if js_lt t n then Some (js "Value must be less than MaxLength") else None).
Definition validateMinLength (e t : value) : result (option (list Z)) :=
  let! n := length_of e in Ok (if js_lt n t then Some (js "Value must be greater than MinLength") else None).

Section validate.
(** [new RegExp(t).test(e)], which throws for a pattern that is not one, and [!isNaN(Date.parse(e))]. *)
Variable regexp_test : list Z -> list Z -> result bool.
Variable is_date : list Z -> bool.

Definition validateDateTime (e : value) : option (list Z) :=
  if is_date (to_text e) then None else Some (js "Value must be a DateTime").
Definition validatePattern (e t : value) : result (option (list Z)) :=
  let! b := regexp_test (to_text t) (to_text e) in
  Ok (if b then None else Some (js "Value must follow pattern " ++ to_text t)).

(** [x && r.push(x)] *)
Definition complain (r : list value) (x : option (list Z)) : list value :=
  match x with Some m => r ++ [VStr m] | None => r end.
Definition or_zero (v : value) : bool := truthy v || bool_decide (v = VNum 0).
Definition type_is (f : value) (s : string) : bool := bool_decide (f = str s).

(** The value is there, in the sense of the declared type; [None] is a text
    that should be JSON and is not. *)
Definition provided (n : bool) (f o : value) : option bool :=
  let m := type_is f "string" && truthy o in
  let g := type_is f "array" && match o with VArr (_ :: _) => true | _ => false end in
  let b := type_is f "array" && match o with VList (_ :: _) => true | _ => false end in
  let w := type_is f "boolean" && (truthy o || bool_decide (o = VBool false)) in
  let e := type_is f "number" && or_zero o in
  let x := type_is f "integer" && or_zero o in
  let s :=
    if n && type_is f "object" then
      match o with
      | VStr t => if json_text t then Some true else None
      | VNull | VMap _ _ | VList _ | VSet _ | VObj _ | VArr _ => Some true
      | _ => Some false
      end
    else Some false in
  match s with Some s => Some (m || g || b || w || e || x || s) | None => None end.

(** The complaints about one element of an array. *)
Definition element_error (y e : value) : option (list Z) :=
  if type_is y "number" then validateNumber e
  else if type_is y "integer" then validateInteger e
  else if type_is y "string" then validateString e
  else None.
Definition element_errors (y : value) (l : list value) : list value :=
  concat (imap (λ i e, match element_error y e with
                       | Some m => [VObj [(js "index", VNum (Z.of_nat i)); (js "error", VStr m)]]
                       | None => [] end) l).

(** The checks of the declared type, after those of the limits. *)
Definition type_errors (a f p o : value) (r : list value) : result (list value) :=
  if type_is f "string" then
    let! v := if type_is p "date-time" then Ok (validateDateTime o)
              else if type_is p "uuid" then validateGuid o else Ok (validateString o) in
    Ok (complain r v)
  else if type_is f "boolean" then Ok (complain r (validateBoolean o))
  else if type_is f "number" then Ok (complain r (validateNumber o))
  else if type_is f "integer" then Ok (complain r (validateInteger o))
  else if type_is f "array" then
    match o with
    | VList ((_ :: _) as l) => let! y := getIn a [str "items"; str "type"] VUndef in Ok (r ++ element_errors y l)
    | _ => Ok r
    end
  else if type_is f "file" then Ok (complain r (validateFile o))
  else Ok r.

(** The checks of the limits [c] and of the pattern. *)
Definition limit_errors (o u c d h v : value) : result (list value) :=
  let! x := if truthy v then validatePattern o v else Ok None in
  let r := complain [] x in
  let! x := if or_zero d then validateMaxLength o d else Ok None in
  let r := complain r x in
  let! x := if truthy h then validateMinLength o h else Ok None in
  let r := complain r x in
  let r := complain r (if or_zero u then validateMaximum o u else None) in
  Ok (complain r (if or_zero c then validateMinimum o c else None)).

Definition validateParam (e : value) (t n : bool) : result (list value) :=
  let! xml := if t then let! i := get e "in" in Ok (bool_decide (i = str "body")) else Ok false in
  let! o := if xml then get e "value_xml" else get e "value" in
  let! i := get e "required" in
  let! a := if n then get e "schema" else Ok e in
  if negb (truthy a) then Ok [] else
  let! u := get a "maximum" in
  let! c := get a "minimum" in
  let! f := get a "type" in
  let! p := get a "format" in
  let! d := get a "maxLength" in
  let! h := get a "minLength" in
  let! v := get a "pattern" in
  if truthy f && (truthy i || truthy o) then
    match provided n f o with
    | None => Ok [str "Parameter string value must be valid JSON"]
    | Some given =>
        if truthy i && negb given then Ok [str "Required field is not provided"]
        else let! r := limit_errors o u c d h v in type_errors a f p o r
    end
  else Ok [].
End validate.

(** ** Lists and maps *)

(** [e.keySeq().filter(k => (k + "")[0] === "2").sort().first()], or [default] *)
Definition starts_2 (k : value) : bool := match to_text k with c :: _ => c =? 50 | [] => false end.
(** The first of the least keys, in the order of [sort] (a before b when a < b). *)
Fixpoint least (l : list value) : value :=
  match l with
  | [] => VUndef
  | [k] => k
  | k :: l => let m := least l in if js_lt m k then m else k
  end.
Definition keySeq (e : value) : result (list value) :=
  match e with
  | VMap _ m => Ok (keys m)
  | VList l => Ok (imap (λ i _, VNum (Z.of_nat i)) l)
  | VSet l => Ok l
  | _ => Throw (no_method "keySeq")
  end.
Definition defaultStatusCode (e : value) : result value :=
  let! t := keySeq e in
  Ok (if bool_decide (str "default" ∈ t) then str "default" else least (List.filter starts_2 t)).

Definition getList (e t : value) : result value :=
  if negb (isIterable e) then Ok emptyList
  else let! n := getIn e (match t with VArr l => l | _ => [t] end) VUndef in Ok (if isList n then n else emptyList).

(** [mapToList(t, n, r)]: the maps at depth [length n], each merged with the keys on its path. *)
Fixpoint mapToList (t : value) (n : list value) (r : value) {struct n} : result value :=
  match t with
  | VMap o ((_ :: _) as m) =>
      match n with
      | [] => merge t [r]
      | u :: n =>
          let! a := foldR (λ a kv, let! ru := set r u kv.1 in
                                   let! y := mapToList kv.2 n ru in
                                   Ok (match y with VList l => a ++ l | _ => a ++ [y] end)) [] m in
          Ok (VList a)
      end
  | _ => Ok emptyList
  end.

(** [Object.keys(v).length] of an object or a collection; a collection has its
    own fields, however many entries it has. *)
Definition key_count (v : value) : Z :=
  match v with
  | VObj o => len o
  | VArr l => len l
  | VStr s => len s
  | VMap _ _ => 5
  | VList _ => 9
  | VSet _ => 3
  | _ => 0
  end.
Fixpoint find_entry (f : value * value -> result bool) (m : list (value * value)) : result value :=
  match m with
  | [] => Ok VUndef
  | kv :: m => let! b := f kv in if b then Ok kv.2 else find_entry f m
  end.
Definition getAcceptControllingResponse (e : value) : result value :=
  match e with
  | VMap true ((_ :: _) as m) =>
      let! t := find_entry (λ kv, match kv.1 with
                  | VStr k => if Json.prefix_at (js "2") k then let! c := get kv.2 "content" in Ok (0 <? key_count (vor c (VObj [])))
                              else Ok false
                  | _ => Throw (no_method "startsWith")
                  end) m in
      let! d := get e "default" in
      let n := vor d emptyOrderedMap in
      let! c := get n "content" in
      let! ks := keySeq (vor c emptyOrderedMap) in
      Ok (vor t (match ks with [] => VNull | _ => n end))
  | _ => Ok VNull
  end.

(** [deeplyStripKey(t, n, r)] of plain values. *)
Fixpoint deeplyStripKey (t : value) (n : list Z) (r : value -> bool) : value :=
  match n, t with
  | [], _ => t
  | _, VObj o =>
      VObj (concat ((λ kv, match kv with (k, x) => if bool_decide (k = n) && r x then [] else [(k, deeplyStripKey x n r)] end) <$> o))
  | _, _ => t
  end.

(** [e.filter((v, k) => /^x-/.test(k))] and the common keywords. *)
Definition filter_keys (f : list Z -> bool) (e : value) : result value :=
  match e with
  | VMap o m => Ok (VMap o (List.filter (λ kv, f (to_text kv.1)) m))
  | _ => Throw (no_method "filter")
  end.
Definition getExtensions (e : value) : result value := filter_keys (Json.prefix_at (js "x-")) e.
Definition contains_text (p s : list Z) : bool := -1 <? Json.index_of p s.
Definition common_keyword (k : list Z) : bool :=
  Json.prefix_at (js "pattern") k || contains_text (js "maxLength") k || contains_text (js "minLength") k
  || contains_text (js "maximum") k || contains_text (js "minimum") k.
Definition getCommonExtensions (e : value) : result value := filter_keys common_keyword e.

(** [e.trim().replace(/\s/g, "_")] of a text. *)
Definition createDeepLinkPath (e : value) : list Z :=
  match e with VStr s => (λ c, if is_white c then 95 else c) <$> trim s | _ => [] end.

(** ** The query of the page *)

Definition search_part (e : Json.jobj) (part : list Z) : result Json.jobj :=
  match Json.split [61] part with
  | k :: r =>
      let! k := decodeURIComponent k in
      let! v := match r with
                | ((_ :: _) as v) :: _ => decodeURIComponent v
                | _ => Ok []
                end in
      Ok (if decide (k = js "__proto__") then e else Json.obj_set e k (Json.JStr v))
  | [] => Ok e
  end.
(** [t] is [location.search]. *)
Definition parseSearch (t : list Z) : result Json.jobj :=
  match t with [] => Ok [] | _ :: q => foldR search_part [] (Json.split [38] q) end.
Definition serializeSearch (e : list (list Z * list Z)) : result (list Z) :=
  let! l := mapR (λ kv, let! k := encodeURIComponent kv.1 in let! v := encodeURIComponent kv.2 in Ok (k ++ [61] ++ v)) e in
  Ok (Json.join [38] l).

Example utils_ex :
  mapToList (fromJS (VObj [(js "a", VObj [(js "x", VObj [(js "v", VNum 1)]); (js "y", VObj [(js "v", VNum 2)])])])) [str "p"; str "m"] emptyMap
    = Ok (VList [VMap false [(str "v", VNum 1); (str "p", str "a"); (str "m", str "x")];
                 VMap false [(str "v", VNum 2); (str "p", str "a"); (str "m", str "y")]])
  /\ deeplyStripKey (VObj [(js "a", VNum 1); (js "b", VObj [(js "a", VNum 2); (js "c", VArr [VObj [(js "a", VNull)]])])]) (js "a") (λ _, true)
    = VObj [(js "b", VObj [(js "c", VArr [VObj [(js "a", VNull)]])])]
  /\ defaultStatusCode (fromJS (VObj [(js "400", VNull); (js "204", VNull); (js "200", VNull)])) = Ok (str "200")
  /\ parseSearch (js "?a=b%20c&d&e=f=g") = Ok [(js "a", Json.JStr (js "b c")); (js "d", Json.JStr []); (js "e", Json.JStr (js "f"))]
  /\ createDeepLinkPath (str " a b ") = js "a_b".
Proof. vm_compute. auto 10. Qed.

(** A response whose content is an empty map counts as one with content: the
    keys counted are the fields of the collection. *)
Example accept_empty_content :
  let r := VMap true [(str "content", VMap true [])] in
  let d := VMap true [(str "content", VMap true [(str "text/plain", VMap true [])])] in
  getAcceptControllingResponse (VMap true [(str "204", r); (str "default", d)]) = Ok r.
Proof. reflexivity. Qed.

(** * Properties *)

(** ** Decimal texts as numbers *)

Lemma span_digits_all s : forallb Json.digit s = true -> span_digits s = (s, []).
Proof. induction s as [|c s IH]; [done|]. cbn. intros [-> H]%andb_true_iff. by rewrite IH. Qed.

Lemma dec_digits n : 0 <= n -> forallb Json.digit (Json.dec n) = true /\ Json.dec_value (Json.dec n) 0 = n /\ Json.dec n <> [].
Proof.
  intros Hn. destruct (Json.dec_spec n Hn) as (Hd & Hv & Hne). split_and!; [|done|done].
  apply forallb_forall. intros c Hc. rewrite Forall_forall in Hd. apply list_elem_of_In in Hc. specialize (Hd c Hc). unfold Json.digit. lia.
Qed.

Lemma decimal_digits s : forallb Json.digit s = true -> s <> [] -> decimal s = Dec (Json.dec_value s 0) 0.
Proof. intros Hs Hne. unfold decimal. rewrite span_digits_all by done. rewrite app_nil_r. by destruct s. Qed.

Lemma digits_not_Infinity s : forallb Json.digit s = true -> s <> js "Infinity".
Proof. intros H ->. done. Qed.

Lemma trim_text s : Forall (λ c, 45 <= c <= 57) s -> trim s = s.
Proof.
  intros H. apply BufferText.trim_id. eapply Forall_impl; [exact H|]. cbn. intros c Hc. unfold is_white. apply orb_false_iff.
  split; [apply bool_decide_eq_false; set_solver by lia|lia].
Qed.

Lemma digits_range s : forallb Json.digit s = true -> Forall (λ c, 48 <= c <= 57) s.
Proof.
  intros H. apply Forall_forall. intros c Hc. rewrite forallb_forall in H. apply list_elem_of_In in Hc. specialize (H c Hc). unfold Json.digit in H. lia.
Qed.

Lemma string_digits s : forallb Json.digit s = true -> s <> [] -> string_to_number s = Dec (Json.dec_value s 0) 0.
Proof.
  intros Hs Hne. unfold string_to_number. rewrite trim_text by (eapply Forall_impl; [by apply digits_range|cbn; lia]).
  destruct s as [|c t]; [done|]. pose proof (digits_range _ Hs) as Hr. apply Forall_cons in Hr as [Hc Ht].
  rewrite (proj2 (Z.eqb_neq c 45)), (proj2 (Z.eqb_neq c 43)) by lia.
  assert (E : unsigned_number (c :: t) = Dec (Json.dec_value (c :: t) 0) 0).
  { unfold unsigned_number. rewrite decide_False by (by apply digits_not_Infinity). by apply decimal_digits. }
  destruct (decide (c = 48)) as [->|].
  - destruct t as [|d [|x u]]; try done. apply Forall_cons in Ht as [Hd _].
    rewrite (proj2 (Z.eqb_neq d 120)), (proj2 (Z.eqb_neq d 88)), (proj2 (Z.eqb_neq d 98)), (proj2 (Z.eqb_neq d 66)),
      (proj2 (Z.eqb_neq d 111)), (proj2 (Z.eqb_neq d 79)) by lia. by apply decimal_digits.
  - rewrite <- E. destruct c as [|c|c]; try done. repeat (destruct c as [c|c|]; try done).
Qed.

(** The decimal text of an integer is that number. *)
Lemma number_of_text z : to_number (VStr (Json.num_to_string z)) = Dec z 0.
Proof.
  unfold to_number, to_primitive, Json.num_to_string. destruct (Z.ltb_spec z 0) as [Hz|Hz].
  - destruct (dec_digits (- z)) as (Hd & Hv & Hne); [lia|]. unfold string_to_number.
    rewrite trim_text by (apply Forall_cons; split; [lia|eapply Forall_impl; [by apply digits_range|cbn; lia]]).
    cbn [Z.eqb Pos.eqb]. unfold unsigned_number. rewrite decide_False by (by apply digits_not_Infinity). rewrite decimal_digits by done.
    cbn [neg_num]. by rewrite Hv, Z.opp_involutive.
  - destruct (dec_digits z) as (Hd & Hv & Hne); [lia|]. by rewrite string_digits, Hv.
Qed.

(** A value that stands for an integer: the number or its text. *)
Definition stands_for (v : value) (z : Z) : Prop := v = VNum z \/ v = VStr (Json.num_to_string z).

Lemma js_lt_limit v z M : stands_for v z -> js_lt (VNum M) v = (M <? z) /\ js_lt v (VNum M) = (z <? M).
Proof.
  intros [-> | ->]; unfold js_lt; cbn [to_primitive].
  - unfold to_number. cbn. by rewrite !Z.mul_1_r.
  - rewrite number_of_text. unfold to_number. cbn. by rewrite !Z.mul_1_r.
Qed.

Lemma integer_text_num z : integer_text (Json.num_to_string z) = true.
Proof.
  unfold integer_text, Json.num_to_string. destruct (Z.ltb_spec z 0) as [Hz|Hz].
  - destruct (dec_digits (- z)) as (Hd & _ & Hne); [lia|]. cbn [unsign Z.eqb Pos.eqb]. by destruct (Json.dec (- z)).
  - destruct (dec_digits z) as (Hd & _ & Hne); [lia|]. destruct (Json.dec z) as [|c s]; [done|]. pose proof (digits_range _ Hd) as Hr.
    apply Forall_cons in Hr as [Hc _]. cbn [unsign]. by rewrite (proj2 (Z.eqb_neq c 45)) by lia.
Qed.

Lemma stands_text v z : stands_for v z -> to_text v = Json.num_to_string z.
Proof. by intros [-> | ->]. Qed.

Lemma stands_or_zero v z : stands_for v z -> or_zero v = true.
Proof.
  intros [-> | ->]; unfold or_zero; cbn [truthy].
  - destruct (Z.eqb_spec z 0) as [->|]; done.
  - destruct (Json.num_to_string z) eqn:E; [|done]. pose proof (integer_text_num z) as H. by rewrite E in H.
Qed.

(** C40. An integer parameter is validated against its bounds: given as a number
    or as text, required or not, with limits [m] and [M] and no pattern or
    length limits, the complaints are exactly those about the bounds it breaks;
    there are none if and only if it lies between them. *)
Theorem validate_integer rt dt p v z m M req : isMap p = true ->
  get p "value" = Ok v -> stands_for v z -> get p "type" = Ok (str "integer") -> get p "required" = Ok req ->
  get p "maximum" = Ok (VNum M) -> get p "minimum" = Ok (VNum m) -> get p "maxLength" = Ok VUndef ->
  get p "minLength" = Ok VUndef -> get p "pattern" = Ok VUndef -> (truthy req = true \/ truthy v = true) ->
  validateParam rt dt p false false =
    Ok ((if M <? z then [str "Value must be less than Maximum"] else []) ++
        (if z <? m then [str "Value must be greater than Minimum"] else [])) /\
  (validateParam rt dt p false false = Ok [] <-> m <= z <= M).
Proof.
  intros Hp Hv Hz Ht Hr HM Hm Hd Hh Hpat Hgiven. destruct (js_lt_limit v z M Hz) as [L1 _]. destruct (js_lt_limit v z m Hz) as [_ L2].
  assert (E : validateParam rt dt p false false =
    Ok ((if M <? z then [str "Value must be less than Maximum"] else []) ++
        (if z <? m then [str "Value must be greater than Minimum"] else []))).
  { unfold validateParam. cbn [result_bind]. rewrite Hv, Hr. cbn [result_bind].
    assert (Tp : truthy p = true) by (by destruct p). rewrite Tp. cbn [negb]. rewrite HM, Hm, Ht, Hd, Hh, Hpat. cbn [result_bind].
    destruct (get p "format") as [fmt|x] eqn:Ef; [|by destruct p]. cbn [result_bind].
    assert (Hb : truthy req || truthy v = true) by (destruct Hgiven as [-> | ->]; [done|apply orb_true_r]).
    change (truthy (str "integer")) with true. rewrite Hb. cbn [andb].
    assert (Hg : provided false (str "integer") v = Some true).
    { unfold provided, type_is. rewrite (stands_or_zero v z Hz). reflexivity. }
    rewrite Hg. cbn [negb]. rewrite andb_false_r. unfold limit_errors. change (or_zero VUndef) with false. change (truthy VUndef) with false.
    cbn [result_bind complain]. unfold or_zero at 1 2. cbn [truthy].
    assert (Z1 : ∀ x, negb (x =? 0) || bool_decide (VNum x = VNum 0) = true).
    { intros x. destruct (Z.eqb_spec x 0) as [->|]; done. }
    rewrite !Z1. unfold validateMaximum, validateMinimum. rewrite L1, L2. unfold type_errors, type_is.
    change (bool_decide (str "integer" = str "string")) with false. change (bool_decide (str "integer" = str "boolean")) with false.
    change (bool_decide (str "integer" = str "number")) with false. change (bool_decide (str "integer" = str "integer")) with true.
    unfold validateInteger. rewrite (stands_text v z Hz), integer_text_num. by destruct (M <? z), (z <? m). }
  split; [exact E|]. rewrite E. destruct (Z.ltb_spec M z), (Z.ltb_spec z m); split; intros H'; try done; try lia.
Qed.

Lemma validate_integer_witness :
  let p := fromJS (VObj [(js "value", str "12"); (js "type", str "integer"); (js "required", VBool true);
                         (js "maximum", VNum 10); (js "minimum", VNum (-3))]) in
  validateParam (λ _ _, Ok true) (λ _, true) p false false = Ok [str "Value must be less than Maximum"] /\
  (validateParam (λ _ _, Ok true) (λ _, true) p false false = Ok [] <-> -3 <= 12 <= 10).
Proof.
  intros p. apply (validate_integer (λ _ _, Ok true) (λ _, true) p (str "12") 12 (-3) 10 (VBool true)); try reflexivity.
  - right. reflexivity.
  - left. reflexivity.
Defined.

(** ** The query of the page *)


(** What a text of [serializeSearch] is: two encoded strings, with no other punctuation. *)
Definition search_text (kv : list Z * list Z) (x : list Z) : Prop :=
  ∃ ek ev, x = ek ++ 61 :: ev /\ decodeURIComponent ek = Ok kv.1 /\ decodeURIComponent ev = Ok kv.2 /\
    Forall Query.uri_char ek /\ Forall Query.uri_char ev.
Definition search_object (o : list (list Z * list Z)) : Json.jobj := (λ kv, (kv.1, Json.JStr kv.2)) <$> o.

Lemma search_text_exists o : Forall (λ kv, Query.well_formed kv.1 /\ Query.well_formed kv.2) o ->
  ∃ xs, mapR (λ kv, let! k := encodeURIComponent kv.1 in let! v := encodeURIComponent kv.2 in Ok (k ++ [61] ++ v)) o = Ok xs /\
    Forall2 search_text o xs.
Proof.
  induction 1 as [|[k v] o [Hk Hv] _ (xs & IH & IHx)]; [by exists []|]. cbn [fst snd] in *.
  destruct (Query.encode_spec k Hk) as (ek & Ek & Dk & Ck). destruct (Query.encode_spec v Hv) as (ev & Ev & Dv & Cv).
  exists ((ek ++ 61 :: ev) :: xs). split; [|constructor; [by exists ek, ev|done]].
  cbn [mapR fst snd]. rewrite Ek, Ev. cbn [result_bind]. by rewrite IH.
Qed.

Lemma decode_empty v : decodeURIComponent [] = Ok v -> v = [].
Proof. by intros [= <-]. Qed.

Lemma search_part_text e kv x : search_text kv x -> kv.1 <> js "__proto__" ->
  search_part e x = Ok (Json.obj_set e kv.1 (Json.JStr kv.2)).
Proof.
  intros (ek & ev & -> & Dk & Dv & Ck & Cv) Hp. unfold search_part. rewrite Json.split_app by (by apply Query.uri_char_not).
  rewrite Json.split_free by (by apply Query.uri_char_not). rewrite Dk. cbn [result_bind]. destruct ev as [|c ev].
  - apply decode_empty in Dv as ->. cbn [result_bind]. by rewrite decide_False.
  - rewrite Dv. cbn [result_bind]. by rewrite decide_False.
Qed.

Lemma search_parts e o xs : Forall2 search_text o xs -> Forall (λ kv, kv.1 <> js "__proto__") o -> Json.obj_ok (e ++ search_object o) ->
  foldR search_part e xs = Ok (e ++ search_object o).
Proof.
  intros H. revert e. induction H as [|kv x o xs Hx _ IH]; intros e Hp Ho; [by rewrite app_nil_r|]. apply Forall_cons in Hp as [Hk Hp].
  cbn [foldR]. rewrite (search_part_text e kv x Hx Hk). cbn [result_bind].
  change (search_object (kv :: o)) with ([(kv.1, Json.JStr kv.2)] ++ search_object o) in *. rewrite app_assoc in *.
  rewrite Json.obj_set_last by (by eapply Json.obj_ok_app_l). by apply IH.
Qed.

(** [parseSearch] inverts [serializeSearch] on every object that has a
    property: whatever characters of well-formed text its names and values have. *)
Theorem search_roundtrip o : o <> [] -> Forall (λ kv, Query.well_formed kv.1 /\ Query.well_formed kv.2) o ->
  Forall (λ kv, kv.1 <> js "__proto__") o -> Json.obj_ok (search_object o) ->
  ∃ t, serializeSearch o = Ok t /\ parseSearch (63 :: t) = Ok (search_object o).
Proof.
  intros Hne Hw Hp Ho. destruct (search_text_exists o Hw) as (xs & Hx & Hxs). exists (Json.join [38] xs). unfold serializeSearch.
  rewrite Hx. split; [done|]. unfold parseSearch. rewrite Json.split_join.
  - by apply (search_parts [] o xs).
  - by destruct Hxs.
  - clear -Hxs. induction Hxs as [|kv x o xs (ek & ev & -> & _ & _ & Ck & Cv) _ IH]; [apply Forall_nil_2|]. apply Forall_cons. split; [|done].
    apply Forall_app. split; [by apply Query.uri_char_not|]. apply Forall_cons. split; [done|by apply Query.uri_char_not].
Qed.

Lemma search_roundtrip_witness :
  ∃ t, serializeSearch [(js "url", js "/a b?c=d&e"); (js "n", [])] = Ok t /\
    parseSearch (63 :: t) = Ok [(js "url", Json.JStr (js "/a b?c=d&e")); (js "n", Json.JStr [])].
Proof.
  apply (search_roundtrip [(js "url", js "/a b?c=d&e"); (js "n", [])]); [done| | |].
  - repeat (apply Forall_cons; split; [split; apply Query.well_formed_b; vm_compute; reflexivity|]). apply Forall_nil_2.
  - repeat (apply Forall_cons; split; [done|]). apply Forall_nil_2.
  - apply Json.obj_okb_ok. vm_compute. reflexivity.
Defined.

End UiUtils.
