(* ===== verification/UiSamples.v ===== *)
(** The samples that Swagger UI shows for the schemas of a specification, in the
    bundle client/docs/swagger-ui/swagger-ui-bundle.js, lines 6990-7056:
    [sampleFromSchema] and what it uses; the theorem says that the sample of a
    well-formed schema is an instance of it.

    A schema is a plain object or an Immutable map. The time is a parameter of
    the sample of a date. The type of a schema is not the name of a method that
    every object has. *)

From stdpp Require Import base list list_numbers numbers strings gmap.
From Stdlib Require Import ZArith Lia.
From S2P Require Import Prelude Json Im UiErr UiUtils.

Module UiSamples.
Import Im.

(** ** Plain values *)

Definition isObject (v : value) : bool :=
  match v with VMap _ _ | VList _ | VSet _ | VObj _ | VArr _ => true | _ => false end.

(** [toJS] of a collection *)
Fixpoint toJS (v : value) : value :=
  match v with
  | VMap _ m => VObj ((λ kv, match kv with (k, x) => (to_text k, toJS x) end) <$> m)
  | VList l | VSet l => VArr (toJS <$> l)
  | v => v
  end.
Definition objectify (e : value) : value := if isObject e then if isIterable e then toJS e else e else VObj [].

(** [o.k] of a plain object, or of a collection, which has no such field. *)
Definition own (o : value) (k : string) : value := match o with VObj o => prop o (js k) | _ => VUndef end.

(** ** Scalars *)

Section samples.
(** [(new Date).toISOString()] *)
Variable now_iso : list Z.

(** The table of samples: [None] where it has no entry. *)
Definition primitives (name : list Z) (e : value) : option value :=
  if bool_decide (name = js "string") then Some (str "string")
  else if bool_decide (name = js "string_email") then Some (str "user@example.com")
  else if bool_decide (name = js "string_date-time") then Some (VStr now_iso)
  else if bool_decide (name = js "number") then Some (VNum 0)
  else if bool_decide (name = js "number_float") then Some (VNum 0)
  else if bool_decide (name = js "integer") then Some (VNum 0)
  else if bool_decide (name = js "boolean") then Some (match own e "default" with VBool b => VBool b | _ => VBool true end)
  else None.

Definition primitive (e : value) : value :=
  let e := objectify e in
  let n := own e "type" in
  match primitives (to_text n ++ js "_" ++ to_text (own e "format")) e with
  | Some v => v
  | None => match primitives (to_text n) e with Some v => v | None => VStr (js "Unknown Type: " ++ to_text n) end
  end.

(** ** Samples *)

Record sample_options := SampleOptions { includeReadOnly : bool; includeWriteOnly : bool }.

(** A property that is left out. *)
Definition skipped (n : sample_options) (d : value) : bool :=
  truthy d && truthy (own d "deprecated") || truthy d && truthy (own d "readOnly") && negb (includeReadOnly n) ||
  truthy d && truthy (own d "writeOnly") && negb (includeWriteOnly n).

(** What [for ... in] runs through. *)
Definition members (d : value) : list (list Z * value) :=
  match d with VObj o => o | VArr l => imap (λ i x, (Json.num_to_string (Z.of_nat i), x)) l | _ => [] end.

(** The loop over the properties. *)
Fixpoint sample_members (f : value -> result value) (n : sample_options) (ps h : list (list Z * value)) : result (list (list Z * value)) :=
  match ps with
  | [] => Ok h
  | (v, d) :: ps => if skipped n d then sample_members f n ps h else let! y := f d in sample_members f n ps (put h v y)
  end.

Definition additional_names : list (list Z) := [js "additionalProp1"; js "additionalProp2"; js "additionalProp3"].

(** [typeof e == "string" && e.indexOf("#") > -1] *)
Definition is_ref (e : value) : bool := match e with VStr s => -1 <? Json.index_of [35] s | _ => false end.

(** [sampleFromSchema]; each call goes down into the schema. *)
Fixpoint sample_go (fuel : nat) (t : value) (n : sample_options) : result value :=
  match fuel with
  | O => Ok VUndef
  | S fuel =>
      let o := objectify t in
      let a := own o "example" in
      let u := own o "properties" in
      let l := own o "additionalProperties" in
      let c := own o "items" in
      let i := own o "type" in
      if negb (bool_decide (a = VUndef)) then Ok (UiUtils.deeplyStripKey a (js "$$ref") is_ref)
      else if negb (truthy i) && negb (truthy u) && negb (truthy c) then Ok VUndef
      else
        let i := if truthy i then i else if truthy u then str "object" else str "array" in
        if bool_decide (i = str "object") then
          let! h := sample_members (λ d, sample_go fuel d n) n (members (objectify u)) [] in
          if bool_decide (l = VBool true) then Ok (VObj (put h (js "additionalProp1") (VObj [])))
          else if truthy l then
            let! g := sample_go fuel (objectify l) n in
            Ok (VObj (foldl (λ h k, put h k g) h additional_names))
          else Ok (VObj h)
        else if bool_decide (i = str "array") then
          let! x := field c "anyOf" in
          match x with
          | VArr xs => let! ys := mapR (λ t, sample_go fuel t n) xs in Ok (VArr ys)
          | _ =>
              let! x := field c "oneOf" in
              match x with
              | VArr xs => let! ys := mapR (λ t, sample_go fuel t n) xs in Ok (VArr ys)
              | _ => let! y := sample_go fuel c n in Ok (VArr [y])
              end
          end
        else if truthy (own t "enum") then
          if truthy (own t "default") then Ok (own t "default")
          else Ok (match UiErr.normalizeArray (own t "enum") with VArr (x :: _) => x | _ => VUndef end)
        else if bool_decide (i = str "file") then Ok VUndef
        else Ok (primitive t)
  end.

(** The depth of a value. *)
Fixpoint height (v : value) : nat :=
  match v with
  | VMap _ m => S (foldr (λ kv a, match kv with (_, x) => Nat.max (height x) a end) 0%nat m)
  | VObj o => S (foldr (λ kv a, match kv with (_, x) => Nat.max (height x) a end) 0%nat o)
  | VList l | VSet l | VArr l => S (foldr (λ x a, Nat.max (height x) a) 0%nat l)
  | _ => 1%nat
  end.

Definition sampleFromSchema (t : value) (n : sample_options) : result value := sample_go (height t) t n.

End samples.

Example sample_ex :
  let o k v := (js k, v) in
  let ty s := o "type" (str s) in
  let pet := VObj [ty "object"; o "properties" (VObj [o "id" (VObj [ty "integer"; o "readOnly" (VBool true)]); o "name" (VObj [ty "string"; o "format" (str "email")]);
    o "tags" (VObj [o "items" (VObj [ty "string"; o "enum" (VArr [str "x"; str "y"])])])]); o "additionalProperties" (VObj [ty "boolean"])] in
  let b := VBool true in
  sampleFromSchema [] pet (SampleOptions false false) =
    Ok (VObj [o "name" (str "user@example.com"); o "tags" (VArr [str "x"]); o "additionalProp1" b; o "additionalProp2" b; o "additionalProp3" b]) /\
  sampleFromSchema [] (fromJS (VObj [ty "array"; o "items" (VObj [o "anyOf" (VArr [VObj [ty "number"]; VObj [ty "geo"]])])])) (SampleOptions false false) =
    Ok (VArr [VNum 0; str "Unknown Type: geo"]) /\
  sampleFromSchema [] (VObj [ty "array"]) (SampleOptions false false) = Throw (TypeError (js "Cannot read properties of undefined")).
Proof. vm_compute. repeat split. Qed.

(** The values of an enumeration are looked up in the schema as it is given: those
    of an Immutable map are not seen. *)
Example immutable_enum :
  let t := VObj [(js "type", str "string"); (js "enum", VArr [str "x"; str "y"])] in
  sampleFromSchema [] t (SampleOptions false false) = Ok (str "x") /\
  sampleFromSchema [] (fromJS t) (SampleOptions false false) = Ok (str "string").
Proof. vm_compute. by split. Qed.

(** ** The depth of the schema is enough *)

Section fuel.
Variable now_iso : list Z.
Local Abbreviation go := (sample_go now_iso).

Lemma height_pos v : (1 <= height v)%nat.
Proof. destruct v; cbn; lia. Qed.

Lemma max_list_le {A} (f : A -> nat) l x : x ∈ l -> (f x <= foldr (λ x a, Nat.max (f x) a) 0 l)%nat.
Proof. induction 1; cbn; lia. Qed.

Lemma height_toJS : ∀ v, height (toJS v) = height v.
Proof.
  fix IH 1. intros v. destruct v as [| | | | |o m|l|l| |]; try reflexivity; cbn [height toJS]; apply (f_equal S).
  - induction m as [|[k x] m IHm]; [reflexivity|]. cbn [fmap list_fmap foldr]. rewrite IH, IHm; reflexivity.
  - induction l as [|x l IHl]; [reflexivity|]. cbn [fmap list_fmap foldr]. rewrite IH, IHl; reflexivity.
  - induction l as [|x l IHl]; [reflexivity|]. cbn [fmap list_fmap foldr]. rewrite IH, IHl; reflexivity.
Qed.

Lemma height_objectify v : (height (objectify v) <= height v)%nat.
Proof.
  unfold objectify. pose proof (height_pos v). destruct (isObject v); [|cbn; lia].
  destruct (isIterable v); [rewrite height_toJS|]; lia.
Qed.

Lemma height_member v k x : (k, x) ∈ members v -> (height x < height v)%nat.
Proof.
  destruct v as [| | | | | | | |o|l]; cbn [members height]; try (by intros ?%not_elem_of_nil).
  - intros Hin. induction o as [|[k' y] o IH]; [by apply not_elem_of_nil in Hin|].
    apply elem_of_cons in Hin as [[= -> ->]|Hin]; cbn [foldr]; [|specialize (IH Hin)]; lia.
  - intros [i Hi]%list_elem_of_lookup_1. rewrite list_lookup_imap in Hi.
    destruct (l !! i) as [y|] eqn:E; [|done]. cbn in Hi. injection Hi as _ ->.
    apply list_elem_of_lookup_2 in E. apply (max_list_le height) in E. lia.
Qed.

Lemma prop_member o k : prop o k ≠ VUndef -> (k, prop o k) ∈ o.
Proof.
  induction o as [|[k' x] o IH]; [done|]. cbn [prop]. destruct (decide (k = k')) as [->|]; intros; [left|right; auto].
Qed.

Lemma height_own o k : own o k ≠ VUndef -> (height (own o k) < height o)%nat.
Proof. destruct o; try done. cbn [own]. intros H%prop_member. by apply (height_member (VObj _)) in H. Qed.

Lemma sample_members_ext f g n ps h : (∀ k d, (k, d) ∈ ps -> f d = g d) -> sample_members f n ps h = sample_members g n ps h.
Proof.
  revert h. induction ps as [|[k d] ps IH]; intros h H; [done|]. cbn [sample_members].
  rewrite (H k d) by left. destruct (skipped n d); [|destruct (g d); [cbn|done]]; apply IH; intros; eapply H; right; eauto.
Qed.
Lemma mapR_ext {A B} (f g : A -> result B) l : (∀ x, x ∈ l -> f x = g x) -> mapR f l = mapR g l.
Proof.
  induction l as [|x l IH]; intros H; [done|]. cbn. rewrite (H x) by left. destruct (g x); [cbn|done].
  rewrite IH; [done|]. intros; apply H; by right.
Qed.

Lemma field_own c k x : field c k = Ok x -> own c k = x.
Proof. by destruct c; intros [= <-]. Qed.

Lemma truthy_def v : truthy v = true -> v ≠ VUndef.
Proof. by intros ? ->. Qed.

Lemma sample_alternatives g g' n c k xs : (∀ t, (height t < height c)%nat -> go g t n = go g' t n) -> field c k = Ok (VArr xs) ->
  mapR (λ t, go g t n) xs = mapR (λ t, go g' t n) xs.
Proof.
  intros H Hc%field_own. apply mapR_ext. intros t Ht. apply H.
  assert (height t < height (VArr xs))%nat by (apply (max_list_le height) in Ht; cbn; lia).
  pose proof (height_own c k). rewrite Hc in *. specialize (H1 ltac:(done)). lia.
Qed.

(** A schema's sample is the same for every fuel that its depth does not exceed. *)
Lemma sample_fuel n : ∀ g g' t, (height t <= g)%nat -> (height t <= g')%nat -> go g t n = go g' t n.
Proof.
  induction g as [|g IH]; intros g' t Hg Hg'; [pose proof (height_pos t); lia|].
  destruct g' as [|g']; [pose proof (height_pos t); lia|]. pose proof (height_objectify t) as Ho. cbn [sample_go].
  destruct (negb (bool_decide (own (objectify t) "example" = VUndef))); [done|].
  destruct (_ && _ && _); [done|]. case_bool_decide.
  { rewrite (sample_members_ext (λ d, go g d n) (λ d, go g' d n)).
    - destruct (sample_members _ _ _ _); [cbn|done]. case_bool_decide; [done|].
      destruct (truthy (own (objectify t) "additionalProperties")) eqn:E; [|done]. apply truthy_def, height_own in E.
      pose proof (height_objectify (own (objectify t) "additionalProperties")).
      rewrite (IH g') by lia. done.
    - intros k d Hd%height_member. pose proof (height_objectify (own (objectify t) "properties")) as Hp.
      destruct (decide (own (objectify t) "properties" = VUndef)) as [E|E]; [rewrite E in Hd; cbn in Hd; pose proof (height_pos d); lia|].
      apply height_own in E. apply IH; lia. }
  case_bool_decide; [|done]. set (c := own (objectify t) "items").
  destruct (decide (c = VUndef)) as [->|E]; [done|]. apply height_own in E. fold c in E.
  assert (Hc : ∀ u, (height u < height c)%nat -> go g u n = go g' u n) by (intros; apply IH; lia).
  assert (Hc' : go g c n = go g' c n) by (apply IH; lia). rewrite Hc'.
  destruct (field c "anyOf") as [x|] eqn:Ex; [cbn [result_bind]|done].
  destruct x as [| | | | | | | | |xs]; try (by rewrite (sample_alternatives g g' n c _ _ Hc Ex)).
  all: destruct (field c "oneOf") as [y|] eqn:Ey; [cbn [result_bind]|done].
  all: destruct y as [| | | | | | | | |ys]; try done; by rewrite (sample_alternatives g g' n c _ _ Hc Ey).
Qed.

End fuel.
(** ** Samples are instances of their schemas *)

Section types.
Variables (now_iso : list Z) (n : sample_options).
Local Abbreviation go := (sample_go now_iso).

(** The kind of a schema: its type, or what its other fields imply. *)
Definition kind (s : value) : value :=
  if truthy (own s "type") then own s "type" else if truthy (own s "properties") then str "object" else str "array".

Definition properties (s : value) : list (list Z * value) := match own s "properties" with VObj o => o | _ => [] end.
Definition enumeration (s : value) : list value := match own s "enum" with VArr l => l | _ => [] end.
(** The schemas that an element of an array may have. *)
Definition alternatives (s : value) : list value :=
  match own (own s "items") "anyOf" with
  | VArr xs => xs
  | _ => match own (own s "items") "oneOf" with VArr xs => xs | _ => [own s "items"] end
  end.
Definition scalar_types : list value := [str "string"; str "number"; str "integer"; str "boolean"].
Definition of_scalar_type (ty v : value) : bool :=
  match v with
  | VStr _ => bool_decide (ty = str "string")
  | VNum _ => bool_decide (ty = str "number" ∨ ty = str "integer")
  | VBool _ => bool_decide (ty = str "boolean")
  | _ => false
  end.

(** A plain schema without an example of its own, every part of which has a
    kind; the default of an enumeration is one of its values; no property has
    the name of an additional one. *)
Fixpoint well_formed (fuel : nat) (s : value) : bool :=
  match fuel with
  | O => false
  | S fuel =>
      match s with VObj _ => true | _ => false end && bool_decide (own s "example" = VUndef) &&
      (truthy (own s "type") || truthy (own s "properties") || truthy (own s "items")) &&
      if bool_decide (kind s = str "object") then
        match own s "properties" with VUndef | VObj _ => true | _ => false end &&
        bool_decide (NoDup (properties s).*1) &&
        forallb (λ kd, skipped n kd.2 || well_formed fuel kd.2) (properties s) &&
        (negb (truthy (own s "additionalProperties")) ||
         if bool_decide (own s "additionalProperties" = VBool true) then bool_decide (js "additionalProp1" ∉ (properties s).*1)
         else forallb (λ k, bool_decide (k ∉ (properties s).*1)) additional_names && well_formed fuel (own s "additionalProperties"))
      else if bool_decide (kind s = str "array") then
        match own s "items" with VObj _ => true | _ => false end && forallb (well_formed fuel) (alternatives s)
      else
        bool_decide (kind s ∈ scalar_types) &&
        (negb (truthy (own s "enum")) ||
         negb (bool_decide (enumeration s = [])) && (negb (truthy (own s "default")) || bool_decide (own s "default" ∈ enumeration s)))
  end.

(** What [additionalProperties] says of a property that is not listed. *)
Definition additional_ok (f : value -> bool) (l : value) : bool := bool_decide (l = VBool true) || truthy l && f l.

(** The instances of a schema. *)
Fixpoint conforms (fuel : nat) (s v : value) : bool :=
  match fuel with
  | O => false
  | S fuel =>
      if bool_decide (kind s = str "object") then
        match v with
        | VObj h =>
            bool_decide (NoDup h.*1) &&
            forallb (λ kx, if bool_decide (kx.1 ∈ (properties s).*1) then
                             let d := prop (properties s) kx.1 in negb (skipped n d) && conforms fuel d kx.2
                           else additional_ok (λ l, conforms fuel l kx.2) (own s "additionalProperties")) h &&
            forallb (λ kd, skipped n kd.2 || bool_decide (kd.1 ∈ h.*1)) (properties s)
        | _ => false
        end
      else if bool_decide (kind s = str "array") then
        match v with VArr l => forallb (λ x, existsb (λ a, conforms fuel a x) (alternatives s)) l | _ => false end
      else if truthy (own s "enum") then bool_decide (v ∈ enumeration s)
      else of_scalar_type (kind s) v
  end.

Lemma put_fresh h k v : k ∉ h.*1 -> put h k v = h ++ [(k, v)].
Proof.
  induction h as [|[k' x] h IH]; [done|]. cbn. rewrite not_elem_of_cons. intros [Hk Hh].
  rewrite decide_False by done. by rewrite IH.
Qed.

Lemma prop_in ps k d : NoDup ps.*1 -> (k, d) ∈ ps -> prop ps k = d.
Proof.
  induction ps as [|[k' x] ps IH]; [by intros _ ?%not_elem_of_nil|]. cbn. intros [Hk Hn]%NoDup_cons [[= -> ->]|Hin]%elem_of_cons.
  - by rewrite decide_True.
  - rewrite decide_False; [auto|]. intros ->. apply Hk. apply list_elem_of_fmap. by exists (k', d).
Qed.

(** The loop adds, in order, a sample of each property that is not left out. *)
Lemma sample_members_ok f ps h :
  NoDup (h.*1 ++ ps.*1) -> (∀ k d, (k, d) ∈ ps -> skipped n d = false -> is_Some (match f d with Ok y => Some y | _ => None end)) ->
  ∃ ys, sample_members f n ps h = Ok (h ++ ys) ∧
        Forall2 (λ kd ky, ky.1 = kd.1 ∧ f kd.2 = Ok ky.2) (filter (λ kd, skipped n kd.2 = false) ps) ys.
Proof.
  revert h. induction ps as [|[k d] ps IH]; intros h Hn Hf.
  { exists []. by rewrite app_nil_r. }
  cbn [sample_members]. rewrite filter_cons. cbn [snd]. rewrite fmap_cons in Hn. cbn [fst] in Hn.
  destruct (skipped n d) eqn:E.
  - rewrite decide_False by done. apply IH.
    + apply NoDup_app in Hn as (? & Hd & [_ ?]%NoDup_cons). apply NoDup_app. split_and!; [done| |done].
      intros x Hx Hx'. apply (Hd x Hx). by right.
    + intros; eapply Hf; [right|]; eauto.
  - rewrite decide_True by done. destruct (Hf k d ltac:(left) E) as [y Hy]. destruct (f d) as [y'|] eqn:Ef; [|done].
    cbn [result_bind]. assert (Hk : k ∉ h.*1).
    { apply NoDup_app in Hn as (_ & Hd & _). intros Hk. apply (Hd k Hk). left. }
    rewrite put_fresh by done. destruct (IH (h ++ [(k, y')])) as (ys & -> & H2).
    + rewrite fmap_app, <- app_assoc. exact Hn.
    + intros; eapply Hf; [right|]; eauto.
    + exists ((k, y') :: ys). rewrite <- app_assoc. split; [done|]. constructor; done.
Qed.

Lemma kind_scalar s : kind s ∈ scalar_types -> own s "type" = kind s.
Proof.
  unfold kind. destruct (truthy (own s "type")); [done|]. intros H. exfalso. revert H.
  destruct (truthy (own s "properties")); apply (bool_decide_eq_false_1 (_ ∈ _)); reflexivity.
Qed.

(** A name in the table that extends a scalar type has samples of this type. *)
Lemma primitives_typed ty rest e v :
  str ty ∈ scalar_types -> primitives now_iso (js ty ++ rest) e = Some v -> rest = [] ∨ (∃ r, rest = js "_" ++ r) -> of_scalar_type (str ty) v = true.
Proof.
  intros Hty Hp Hr. unfold scalar_types in Hty.
  assert (Hd : ∀ b : value, of_scalar_type (str "boolean") (match b with VBool b => VBool b | _ => VBool true end) = true) by (by intros []).
  rewrite !elem_of_cons, elem_of_nil in Hty. destruct Hty as [Ht|[Ht|[Ht|[Ht|[]]]]].
  all: rewrite Ht; apply (f_equal to_text) in Ht; cbn [to_text str] in Ht; rewrite Ht in Hp; clear Ht; unfold primitives in Hp.
  all: repeat (case_bool_decide; [injection Hp as <-; first [reflexivity | apply Hd | exfalso; destruct Hr as [->|[r ->]]; discriminate]|]); discriminate.
Qed.

Lemma primitive_typed o : kind (VObj o) ∈ scalar_types -> of_scalar_type (kind (VObj o)) (primitive now_iso (VObj o)) = true.
Proof.
  intros Hs. assert (∃ ty, kind (VObj o) = str ty) as (ty & Hty).
  { unfold scalar_types in Hs. rewrite !elem_of_cons, elem_of_nil in Hs. destruct Hs as [->|[->|[->|[->|[]]]]]; by eexists. }
  pose proof (kind_scalar _ Hs) as Ho. rewrite Hty in *. unfold primitive, objectify. cbn [isObject isIterable].
  rewrite Ho. change (to_text (str ty)) with (js ty).
  destruct (primitives _ (js ty ++ _) _) as [v|] eqn:E; [apply primitives_typed in E; eauto|].
  destruct (primitives _ (js ty) _) as [v|] eqn:E'.
  { rewrite <- (app_nil_r (js ty)) in E'. apply primitives_typed in E'; eauto. }
  exfalso. unfold scalar_types in Hs. rewrite !elem_of_cons, elem_of_nil in Hs.
  destruct Hs as [Ht|[Ht|[Ht|[Ht|[]]]]]; apply (f_equal to_text) in Ht; cbn [to_text str] in Ht; by rewrite Ht in E'.
Qed.

(** One step down: the samples of the parts are instances of the parts. *)
Section step.
Variables (fuel g : nat).
Hypothesis IH : ∀ s, well_formed fuel s = true -> ∃ v, go g s n = Ok v ∧ conforms fuel s v = true.

Lemma Forall2_keys (ps : list (list Z * value)) ys (P : value -> value -> Prop) :
  Forall2 (λ kd ky, ky.1 = kd.1 ∧ P kd.2 ky.2) ps ys -> (ys.*1 : list (list Z)) = ps.*1.
Proof. induction 1 as [|? ? ? ? [H _] _ IHf]; [done|]. cbn. by rewrite H, IHf. Qed.

Lemma object_conforms s ys extra :
  kind s = str "object" -> NoDup (properties s).*1 ->
  Forall2 (λ kd ky, ky.1 = kd.1 ∧ conforms fuel kd.2 ky.2 = true) (filter (λ kd, skipped n kd.2 = false) (properties s)) ys ->
  NoDup extra.*1 -> (∀ k x, (k, x) ∈ extra -> (k ∉ (properties s).*1) ∧ additional_ok (λ l, conforms fuel l x) (own s "additionalProperties") = true) ->
  conforms (S fuel) s (VObj (ys ++ extra)) = true.
Proof.
  intros Hk Hn Hys He Hex. pose proof (Forall2_keys _ _ (λ a b, conforms fuel a b = true) Hys) as Hkeys.
  cbn [conforms]. rewrite bool_decide_eq_true_2 by done. rewrite !andb_true_iff. split_and!.
  - apply bool_decide_eq_true_2. rewrite fmap_app, Hkeys. apply NoDup_app. split_and!; [|intros k Hi Hi'|done].
    + eapply sublist_NoDup; [exact Hn|]. apply fmap_sublist, sublist_filter.
    + apply list_elem_of_fmap in Hi as ([k' d] & -> & [_ Hi]%list_elem_of_filter), Hi' as ([k'' x] & E & [Hi' _]%Hex).
      cbn in E. subst k''. apply Hi', list_elem_of_fmap. by exists (k', d).
  - apply forallb_forall. intros [k x] Hi%list_elem_of_In. cbn [fst snd]. apply elem_of_app in Hi as [Hi|Hi].
    + apply list_elem_of_lookup_1 in Hi as [i Hi]. destruct (Forall2_lookup_r _ _ _ _ _ Hys Hi) as ([k' d] & Hd & E & Hc). cbn in E, Hc. subst k'.
      apply list_elem_of_lookup_2, list_elem_of_filter in Hd as [Hsk Hd].
      rewrite bool_decide_eq_true_2 by (apply list_elem_of_fmap; by exists (k, d)). rewrite (prop_in _ _ _ Hn Hd). cbn in Hsk. by rewrite Hsk, Hc.
    + apply Hex in Hi as [Hk' Ha]. rewrite bool_decide_eq_false_2 by done. exact Ha.
  - apply forallb_forall. intros [k d] Hi%list_elem_of_In. cbn [fst snd]. destruct (skipped n d) eqn:E; [done|]. cbn [orb].
    apply bool_decide_eq_true_2. rewrite fmap_app, Hkeys. apply elem_of_app. left. apply list_elem_of_fmap. exists (k, d). split; [done|].
    by apply list_elem_of_filter.
Qed.

Lemma members_conform (ps : list (list Z * value)) ys :
  (∀ k d, (k, d) ∈ ps -> skipped n d = false -> well_formed fuel d = true) ->
  Forall2 (λ kd ky, ky.1 = kd.1 ∧ go g kd.2 n = Ok ky.2) (filter (λ kd, skipped n kd.2 = false) ps) ys ->
  Forall2 (λ kd ky, ky.1 = kd.1 ∧ conforms fuel kd.2 ky.2 = true) (filter (λ kd, skipped n kd.2 = false) ps) ys.
Proof.
  intros Hw H. eapply Forall2_impl; [apply Forall2_same_length_lookup_2; [by apply Forall2_length in H|]|].
  { intros i x y Hx Hy. pose proof (Forall2_lookup_lr _ _ _ _ _ _ H Hx Hy) as HR.
    exact (conj (list_elem_of_lookup_2 _ _ _ Hx) HR). }
  intros [k d] [k' y] ([Hs Hd]%list_elem_of_filter & E & Hg). cbn in *. split; [done|].
  destruct (IH d (Hw k d Hd Hs)) as (v & Hv & Hc). congruence.
Qed.

Lemma put_additional h v : (∀ k, k ∈ additional_names -> k ∉ h.*1) ->
  foldl (λ h k, put h k v) h additional_names = h ++ ((λ k, (k, v)) <$> additional_names).
Proof.
  assert (NoDup additional_names) as Hn by (apply (bool_decide_unpack _); by vm_compute). revert h Hn.
  induction additional_names as [|k l IHl]; intros h Hn Hh; cbn [foldl fmap list_fmap]; [by rewrite app_nil_r|].
  apply NoDup_cons in Hn as [Hk Hn]. rewrite put_fresh by (apply Hh; left). rewrite IHl; [by rewrite <- app_assoc|done|].
  intros k' Hk'. rewrite fmap_app, elem_of_app. cbn [fmap list_fmap fst]. rewrite list_elem_of_singleton. intros [H|H].
  - eapply Hh; [right|]; eauto.
  - cbn in H. by subst.
Qed.

Lemma object_ok o : well_formed (S fuel) (VObj o) = true -> kind (VObj o) = str "object" ->
  ∃ v, go (S g) (VObj o) n = Ok v ∧ conforms (S fuel) (VObj o) v = true.
Proof.
  intros Hw Hk. set (s := VObj o) in *. cbn [well_formed] in Hw. rewrite (bool_decide_eq_true_2 (kind s = _)) in Hw by done.
  rewrite !andb_true_iff in Hw. destruct Hw as (((_ & He) & Ht) & ((Hu & Hn) & Hps) & Hl).
  apply bool_decide_eq_true_1 in He, Hn. rewrite forallb_forall in Hps.
  assert (Hw : ∀ k d, (k, d) ∈ properties s -> skipped n d = false -> well_formed fuel d = true).
  { intros k d Hi%list_elem_of_In Hs. apply Hps in Hi. cbn in Hi. by rewrite Hs in Hi. }
  assert (Hm : members (objectify (own s "properties")) = properties s) by (unfold properties; by destruct (own s "properties")).
  destruct (sample_members_ok (λ d, go g d n) (properties s) []) as (ys & Hys & Hf).
  { done. } { intros k d Hi Hs. destruct (IH d (Hw k d Hi Hs)) as (v & -> & _). by eexists. }
  apply members_conform in Hf; [|done]. cbn [sample_go]. change (objectify s) with s.
  rewrite He, Hm. change (negb (bool_decide (VUndef = VUndef))) with false. cbv iota.
  fold (kind s). rewrite Hk, Hys. change (bool_decide (str "object" = str "object")) with true.
  replace (negb (truthy (own s "type")) && _ && _) with false by (by revert Ht; repeat destruct (truthy _)).
  cbn [app result_bind]. destruct (truthy (own s "additionalProperties")) eqn:El.
  2: { rewrite bool_decide_eq_false_2 by (intros E; by rewrite E in El). eexists. split; [reflexivity|].
       rewrite <- (app_nil_r ys). apply object_conforms; try done; [constructor|by intros ? ? ?%not_elem_of_nil]. }
  cbn [negb orb] in Hl.
  assert (Hfresh : ∀ k, k ∉ (properties s).*1 -> k ∉ ys.*1).
  { intros k Hk' Hi. apply Hk'. rewrite (Forall2_keys _ _ (λ a b, conforms fuel a b = true) Hf) in Hi.
    eapply sublist_subseteq; [|exact Hi]. apply fmap_sublist, sublist_filter. }
  case_bool_decide as Etrue.
  - apply bool_decide_eq_true_1 in Hl. rewrite put_fresh by auto. eexists. split; [reflexivity|].
    apply object_conforms; try done; [apply NoDup_singleton|]. intros k x [= -> ->]%list_elem_of_singleton.
    split; [done|]. unfold additional_ok. by rewrite bool_decide_eq_true_2.
  - apply andb_true_iff in Hl as [Hfr Hwl]. destruct (IH _ Hwl) as (v & Hv & Hc).
    replace (objectify (own s "additionalProperties")) with (own s "additionalProperties") by (by destruct fuel, (own s "additionalProperties")).
    rewrite forallb_forall in Hfr. setoid_rewrite bool_decide_eq_true in Hfr. setoid_rewrite <- list_elem_of_In in Hfr.
    rewrite Hv. cbn [result_bind]. rewrite put_additional by auto. eexists. split; [reflexivity|]. apply object_conforms; try done.
    + apply (bool_decide_unpack _). by vm_compute.
    + intros k x (k' & [= -> ->] & Hk')%list_elem_of_fmap. split; [by apply Hfr|]. unfold additional_ok. by rewrite El, Hc, orb_true_r.
Qed.

Lemma array_ok o : well_formed (S fuel) (VObj o) = true -> kind (VObj o) = str "array" ->
  ∃ v, go (S g) (VObj o) n = Ok v ∧ conforms (S fuel) (VObj o) v = true.
Proof.
  intros Hw Hk. set (s := VObj o) in *. cbn [well_formed] in Hw. rewrite Hk in Hw. change (bool_decide (str "array" = str "object")) with false in Hw.
  change (bool_decide (str "array" = str "array")) with true in Hw. rewrite !andb_true_iff in Hw. destruct Hw as (((_ & He) & Ht) & (Hi & Ha)).
  apply bool_decide_eq_true_1 in He. rewrite forallb_forall in Ha.
  assert (∃ ys, mapR (λ t, go g t n) (alternatives s) = Ok ys ∧ conforms (S fuel) s (VArr ys) = true) as (ys & Hys & Hc).
  { assert (∃ ys, mapR (λ t, go g t n) (alternatives s) = Ok ys ∧ Forall (λ y, ∃ a, a ∈ alternatives s ∧ conforms fuel a y = true) ys) as (ys & Hys & Hf).
    - assert (HA : ∀ a, a ∈ alternatives s -> well_formed fuel a = true) by (intros; by apply Ha, list_elem_of_In).
      clear -HA IH. induction (alternatives s) as [|a l IHl]; [by exists []|]. destruct (IH a) as (v & Hv & Hc); [apply HA; left|].
      destruct IHl as (ys & Hys & Hf); [intros; apply HA; by right|]. exists (v :: ys). cbn. rewrite Hv. cbn. rewrite Hys. split; [done|].
      constructor; [exists a; split; [left|done]|]. eapply Forall_impl; [exact Hf|]. intros y (b & ? & ?). exists b. split; [by right|done].
    - exists ys. split; [done|]. cbn [conforms]. rewrite Hk. apply forallb_forall. intros y Hy%list_elem_of_In.
      rewrite Forall_forall in Hf. destruct (Hf y Hy) as (a & Hin & Hc). apply existsb_exists. exists a. by rewrite <- list_elem_of_In. }
  exists (VArr ys). split; [|done]. cbn [sample_go]. change (objectify s) with s.
  rewrite He. change (negb (bool_decide (VUndef = VUndef))) with false. cbv iota. fold (kind s). rewrite Hk.
  replace (negb (truthy (own s "type")) && _ && _) with false by (by revert Ht; repeat destruct (truthy _)).
  change (bool_decide (str "array" = str "object")) with false. change (bool_decide (str "array" = str "array")) with true. cbv iota.
  unfold alternatives in Hys. destruct (own s "items") as [| | | | | | | |i|]; try done. cbn [own field result_bind] in *.
  destruct (prop i (js "anyOf")) as [| | | | | | | | |xs]; [..|by rewrite Hys].
  all: destruct (prop i (js "oneOf")) as [| | | | | | | | |xs]; [..|by rewrite Hys].
  all: cbn [mapR] in Hys; destruct (go g (VObj i) n); cbn in *; congruence.
Qed.

Lemma scalar_ok o : well_formed (S fuel) (VObj o) = true -> kind (VObj o) ≠ str "object" -> kind (VObj o) ≠ str "array" ->
  ∃ v, go (S g) (VObj o) n = Ok v ∧ conforms (S fuel) (VObj o) v = true.
Proof.
  intros Hw Ho Ha. set (s := VObj o) in *. cbn [well_formed] in Hw. rewrite (bool_decide_eq_false_2 (kind s = str "object")), (bool_decide_eq_false_2 (kind s = str "array")) in Hw by done.
  rewrite !andb_true_iff in Hw. destruct Hw as (((_ & He) & Ht) & Hs & Hen). apply bool_decide_eq_true_1 in He, Hs.
  cbn [sample_go conforms]. change (objectify s) with s. rewrite He. change (negb (bool_decide (VUndef = VUndef))) with false. cbv iota.
  replace (negb (truthy (own s "type")) && _ && _) with false by (by revert Ht; repeat destruct (truthy _)).
  assert (kind s ≠ str "file") by (intros E; rewrite E in Hs; revert Hs; apply (bool_decide_eq_false_1 (_ ∈ _)); reflexivity).
  fold (kind s). rewrite (bool_decide_eq_false_2 (kind s = str "object")), (bool_decide_eq_false_2 (kind s = str "array")), (bool_decide_eq_false_2 (kind s = str "file")) by done.
  destruct (truthy (own s "enum")) eqn:Een.
  2: { eexists. split; [reflexivity|]. by apply primitive_typed. }
  cbn [negb orb] in Hen. apply andb_true_iff in Hen as [Hne%negb_true_iff%bool_decide_eq_false_1 Hd].
  unfold enumeration in *. destruct (own s "enum") as [| | | | | | | | |xs]; try done.
  destruct (truthy (own s "default")); eexists; (split; [reflexivity|]); [done|].
  destruct xs as [|x xs]; [done|]. apply bool_decide_eq_true_2. left.
Qed.

End step.

Lemma well_formed_ok fuel : ∀ g s, (fuel <= g)%nat -> well_formed fuel s = true -> ∃ v, go g s n = Ok v ∧ conforms fuel s v = true.
Proof.
  induction fuel as [|fuel IH]; intros g s Hg Hw; [done|]. destruct g as [|g]; [lia|].
  assert (∃ o, s = VObj o) as (o & ->) by (destruct s; try done; by eexists).
  assert (IH' : ∀ s, well_formed fuel s = true -> ∃ v, go g s n = Ok v ∧ conforms fuel s v = true) by (intros; apply IH; [lia|done]).
  destruct (decide (kind (VObj o) = str "object")); [by apply object_ok|].
  destruct (decide (kind (VObj o) = str "array")); [by apply array_ok|by apply scalar_ok].
Qed.

End types.

(** C37. The sample of a well-formed schema is produced and is an instance of
    the schema: an object has, with values of their schemas, the properties that
    are not left out, and others only where [additionalProperties] allows them
    and with values of its schema; an element of an array is an instance of one
    of the alternatives of the items; a scalar has its type or is one of the
    enumerated values. *)
Theorem sample_conforms (now_iso : list Z) (n : sample_options) (t : value) :
  well_formed n (height t) t = true ->
  ∃ v, sampleFromSchema now_iso t n = Ok v ∧ conforms n (height t) t v = true.
Proof. apply well_formed_ok. done. Qed.

Definition pet : value :=
  let o k v := (js k, v) in
  let ty s := o "type" (str s) in
  VObj [ty "object"; o "properties" (VObj [o "id" (VObj [ty "integer"; o "readOnly" (VBool true)]); o "name" (VObj [ty "string"; o "format" (str "email")]);
    o "status" (VObj [ty "string"; o "enum" (VArr [str "sold"; str "free"]); o "default" (str "free")]);
    o "tags" (VObj [o "items" (VObj [o "oneOf" (VArr [VObj [ty "boolean"]; VObj [ty "number"]])])])]); o "additionalProperties" (VObj [ty "integer"])].

Lemma sample_conforms_witness :
  well_formed (SampleOptions false false) (height pet) pet = true /\
  ∃ v, sampleFromSchema [] pet (SampleOptions false false) = Ok v ∧ conforms (SampleOptions false false) (height pet) pet v = true.
Proof. split; [vm_compute; reflexivity | apply (sample_conforms [] (SampleOptions false false) pet); vm_compute; reflexivity]. Defined.

(** The instances are not all values, and without the condition on names the
    sample of a property named like an additional one is lost. *)
Example conforms_ex :
  let n := SampleOptions false false in
  let s := VObj [(js "type", str "object"); (js "properties", VObj [(js "additionalProp1", VObj [(js "type", str "string")])]); (js "additionalProperties", VBool true)] in
  conforms n 3 pet (VObj []) = false /\ conforms n 3 s (VObj [(js "additionalProp1", str "x")]) = true /\
  sampleFromSchema [] s n = Ok (VObj [(js "additionalProp1", VObj [])]) /\ conforms n 3 s (VObj [(js "additionalProp1", VObj [])]) = false.
Proof. vm_compute. repeat split. Qed.

End UiSamples.
