(* ===== verification/UiSpec.v ===== *)
(** The specification in the state of Swagger UI, in the bundle
    client/docs/swagger-ui/swagger-ui-bundle.js: the selectors (lines 7538-7790),
    the action creators (7804-7896, 8077-8143) and the reducer (11265-11369) of
    the [spec] plugin.

    Paths are JavaScript arrays. Selectors made by [createSelector] are the
    functions they memoize. The parameters are those of the validation of
    parameters and of the hashes of plain objects. *)

From stdpp Require Import base list list_numbers numbers strings gmap.
From Stdlib Require Import ZArith Lia.
From S2P Require Import Prelude Json ImmHash Im ImmEq UiErr UiAuth UiOas3 UiUtils.

Module UiSpec.
Import Im.
Import UiOas3 (getIn_or).

(** ** Collections *)

(** The keys and values that [forEach] walks over; [None]: there is no [forEach]. *)
Definition each (v : value) : option (list (value * value)) :=
  match v with
  | VMap _ m => Some m
  | VList l | VArr l => Some (imap (λ i x, (VNum (Z.of_nat i), x)) l)
  | VSet l => Some ((λ x, (x, x)) <$> l)
  | _ => None
  end.
Definition values_of (v : value) (method : string) : result (list value) :=
  match v with
  | VMap _ m => Ok (snd <$> m)
  | VList l | VSet l | VArr l => Ok l
  | _ => Throw (no_method method)
  end.
(** [v.map(f)] *)
Definition map_values (f : value -> result value) (v : value) : result value :=
  match v with
  | VMap o m => let! l := mapR (λ kv, let! x := f kv.2 in Ok (kv.1, x)) m in Ok (VMap o l)
  | VList l => let! l := mapR f l in Ok (VList l)
  | VSet l => let! l := mapR f l in Ok (VSet (remove_dups l))
  | VArr l => let! l := mapR f l in Ok (VArr l)
  | _ => Throw (no_method "map")
  end.
(** [v.find(f)]: the first value, or [undefined]. *)
Fixpoint find_value (f : value -> result bool) (l : list value) : result value :=
  match l with
  | [] => Ok VUndef
  | x :: l => let! b := f x in if b then Ok x else find_value f l
  end.
Fixpoint someR (f : value -> result bool) (l : list value) : result bool :=
  match l with
  | [] => Ok false
  | x :: l => let! b := f x in if b then Ok true else someR f l
  end.

(** [Set(v)] and [Set.merge]; in the order of insertion. *)
Definition set_add (l : list value) (x : value) : list value := if decide (x ∈ l) then l else l ++ [x].
Definition to_set (v : value) : result (list value) :=
  match v with
  | VUndef | VNull => Ok []
  | VList l | VSet l | VArr l => Ok (foldl set_add [] l)
  | VMap _ m => Ok (foldl set_add [] ((λ kv, VArr [kv.1; kv.2]) <$> m))
  | VStr ((_ :: _) as s) => Ok (foldl set_add [] ((λ c, VStr [c]) <$> s))
  | _ => Throw (TypeError (js "Expected Array or iterable object of values: " ++ to_text v))
  end.

(** [a + "." + b] *)
Definition dotted (a b : value) : value := VStr (to_text a ++ [46] ++ to_text b).

(** ** Selectors: the parts of the specification *)

Definition state_or (e : value) : value := vor e emptyMap.
(** [j(e)] *)
Definition mapOr (e : value) : value := if isMap e then e else emptyMap.

Definition lastError (e : value) : result value := get (state_or e) "lastError".
Definition url (e : value) : result value := get (state_or e) "url".
Definition specStr (e : value) : result value := let! s := get (state_or e) "spec" in Ok (vor s (VStr [])).
Definition specSource (e : value) : result value := let! s := get (state_or e) "specSource" in Ok (vor s (str "not-editor")).
Definition specJson (e : value) : result value := get_or (state_or e) (str "json") emptyMap.
Definition specResolved (e : value) : result value := get_or (state_or e) (str "resolved") emptyMap.
Definition specResolvedSubtree (e : value) (t : list value) : result value := getIn e (str "resolvedSubtrees" :: t) VUndef.

(** The merging function [p]: resolved maps are merged into the maps read,
    those with a ["$$ref"] replace them. *)
Fixpoint mergerFn (t n : value) {struct n} : value :=
  match t, n with
  | VMap _ mt, VMap _ mn =>
      if truthy (default VUndef (map_get mn (str "$$ref"))) then n
      else VMap true ((fix go (acc mn : list (value * value)) :=
        match mn with
        | [] => acc
        | (k, v) :: mn => go (map_set acc k (match map_get acc k with None => v | Some x => mergerFn x v end)) mn
        end) mt mn)
  | _, _ => n
  end.
(** [m.mergeWith(p, ...)] of the entries [es]. *)
Definition mergeWith (m es : list (value * value)) : list (value * value) :=
  foldl (λ acc kv, map_set acc kv.1 (match map_get acc kv.1 with None => kv.2 | Some x => mergerFn x kv.2 end)) m es.
Definition specJsonWithResolvedSubtrees (e : value) : result value :=
  let! j := get (state_or e) "json" in
  let! r := get (state_or e) "resolvedSubtrees" in
  let! ej := keyed j in
  let! er := keyed r in
  Ok (VMap true (mergeWith (mergeWith [] ej) er)).

Definition spec (e : value) : result value := specJson e.
Definition isOAS3 (e : value) : bool := false.
(** [e && e.get(k)] *)
Definition and_get (e : value) (k : string) : result value := if truthy e then get e k else Ok e.
Definition info (e : value) : result value := let! s := spec e in let! i := and_get s "info" in Ok (mapOr i).
Definition externalDocs (e : value) : result value := let! s := spec e in let! i := and_get s "externalDocs" in Ok (mapOr i).
Definition version (e : value) : result value := let! i := info e in and_get i "version".

(** The first place in a text with digits, a point, digits, a point and digits (each may be
    none), after an optional v of any case. *)
Definition semver_at (s : list Z) : option (list value) :=
  let s := match s with c :: t => if (c =? 118) || (c =? 86) then t else s | [] => s end in
  let '(a, s) := UiUtils.span_digits s in
  match s with
  | 46 :: s =>
      let '(b, s) := UiUtils.span_digits s in
      match s with
      | 46 :: s => Some [VStr a; VStr b; VStr (UiUtils.span_digits s).1]
      | _ => None
      end
  | _ => None
  end.
Fixpoint semver_match (s : list Z) : option (list value) :=
  match semver_at s, s with
  | Some m, _ => Some m
  | None, _ :: s => semver_match s
  | None, [] => None
  end.
Definition semver (e : value) : result value :=
  let! v := version e in
  match semver_match (to_text v) with
  | Some m => Ok (VArr m)
  | None => Throw (TypeError (js "Cannot read properties of null (reading slice)"))
  end.

Definition paths (e : value) : result value := let! d := specJsonWithResolvedSubtrees e in get d "paths".

(** ** Selectors: operations *)

Definition OPERATION_METHODS : list value :=
  str <$> ["get"; "put"; "post"; "delete"; "options"; "head"; "patch"; "trace"]%string.

(** The operations of one path. *)
Definition path_operations (ne : value * value) : list value :=
  let '(n, e) := ne in
  match (if truthy e then each e else None) with
  | None => []
  | Some es =>
      (λ re, fromJS (VObj [(js "path", n); (js "method", re.1); (js "operation", re.2);
                           (js "id", VStr (to_text re.1 ++ js "-" ++ to_text n))]))
      <$> List.filter (λ re, bool_decide (re.1 ∈ OPERATION_METHODS)) es
  end.
Definition operations (e : value) : result value :=
  let! p := paths e in
  Ok (VList (match (if truthy p then each p else None) with
             | None => []
             | Some es => concat (path_operations <$> es)
             end)).

Definition consumes (e : value) : result (list value) := let! s := spec e in let! c := get s "consumes" in to_set c.
Definition produces (e : value) : result (list value) := let! s := spec e in let! c := get s "produces" in to_set c.
Definition security (e : value) : result value := let! s := spec e in get_or s (str "security") emptyList.
Definition securityDefinitions (e : value) : result value := let! s := spec e in get s "securityDefinitions".
Definition findDefinition (e t : value) : result value :=
  let! n := getIn e [str "resolvedSubtrees"; str "definitions"; t] VNull in
  let! r := getIn e [str "json"; str "definitions"; t] VNull in
  Ok (vor (vor n r) VNull).
Definition definitions (e : value) : result value := let! s := spec e in let! d := get s "definitions" in Ok (vor d emptyMap).
Definition basePath (e : value) : result value := let! s := spec e in get s "basePath".
Definition host (e : value) : result value := let! s := spec e in get s "host".
Definition schemes (e : value) : result value := let! s := spec e in get_or s (str "schemes") emptyMap.

(** [e.get(k) || e.update(k, e => Set(e).merge(t))] *)
Definition inherit (k : string) (t : list value) (e : value) : result value :=
  let! c := get e k in
  if truthy c then Ok e
  else update e (str k) VUndef (λ c, let! l := to_set c in Ok (VSet (foldl set_add l t))).
Definition inherit_root (ct cn : list value) (e : value) : result value :=
  if truthy e then
    if negb (isMap e) then Ok VUndef
    else let! e := inherit "consumes" ct e in inherit "produces" cn e
  else Ok emptyMap.
Definition operationsWithRootInherited (e : value) : result value :=
  let! ops := operations e in
  let! t := consumes e in
  let! n := produces e in
  map_values (λ op, update op (str "operation") VUndef (inherit_root t n)) ops.

Definition tags (e : value) : result value := let! s := spec e in get_or s (str "tags") emptyList.
(** The [Map()] given to [find] is its context: a tag without details has [undefined]. *)
Definition tagDetails (e t : value) : result value :=
  let! ts := tags e in
  let! l := values_of (vor ts emptyList) "filter" in
  find_value (λ e, let! n := get e "name" in Ok (bool_decide (n = t))) (List.filter isMap l).

Definition push (x l : value) : result value :=
  match l with VList l => Ok (VList (l ++ [x])) | _ => Throw (no_method "push") end.
(** One operation is put under each of its tags. *)
Definition tag_operation (e t : value) : result value :=
  let! ts := getIn t [str "operation"; str "tags"] VUndef in
  let! n := to_set ts in
  match n with
  | [] => update e (str "default") emptyList (push t)
  | _ => foldR (λ e n, update e n emptyList (push t)) e n
  end.
Definition operationsWithTags (e : value) : result value :=
  let! ops := operationsWithRootInherited e in
  let! ts := tags e in
  let! l := values_of ts "reduce" in
  let! m := foldR (λ e t, let! n := get t "name" in set e n emptyList) emptyOrderedMap l in
  let! os := values_of ops "reduce" in
  foldR tag_operation m os.

(** [sort] is stable; [cmp a b] is positive when [a] goes after [b]. *)
Section sorting.
Context {A : Type} (cmp : A -> A -> Z).
Fixpoint insert_sorted (x : A) (l : list A) : list A :=
  match l with
  | [] => [x]
  | y :: l' => if 0 <? cmp y x then x :: l else y :: insert_sorted x l'
  end.
Definition sort (l : list A) : list A := foldl (λ acc x, insert_sorted x acc) [] l.
End sorting.
(** [tagsSorter] and [operationsSorter] are the functions of the configuration, if any. *)
Definition taggedOperations (e : value) (tagsSorter operationsSorter : option (value -> value -> Z)) : result value :=
  let! s := operationsWithTags e in
  match s with
  | VMap o m =>
      let m := match tagsSorter with Some f => sort (λ a b, f a.1 b.1) m | None => m end in
      let! l := mapR (λ kv, let! d := tagDetails e kv.1 in
        let ops := match kv.2, operationsSorter with VList l, Some f => VList (sort f l) | x, _ => x end in
        Ok (kv.1, VMap false [(str "tagDetails", d); (str "operations", ops)])) m in
      Ok (VMap o l)
  | _ => Throw (no_method "sortBy")
  end.

(** ** Selectors: requests *)

Definition responses (e : value) : result value := get_or (state_or e) (str "responses") emptyMap.
Definition requests (e : value) : result value := get_or (state_or e) (str "requests") emptyMap.
Definition mutatedRequests (e : value) : result value := get_or (state_or e) (str "mutatedRequests") emptyMap.
Definition responseFor (e t n : value) : result value := let! r := responses e in getIn r [t; n] VNull.
Definition requestFor (e t n : value) : result value := let! r := requests e in getIn r [t; n] VNull.
Definition mutatedRequestFor (e t n : value) : result value := let! r := mutatedRequests e in getIn r [t; n] VNull.
Definition allowTryItOutFor : bool := true.

Definition meta_path (t : list value) : list value := str "meta" :: str "paths" :: t.

(** [parametersIncludeIn] and [parametersIncludeType]; [None] is [undefined]. *)
Definition some_param (k : string) (e t : value) : result (option bool) :=
  match e with
  | VList l => let! b := someR (λ e, if isMap e then let! x := get e k in Ok (bool_decide (x = t)) else Ok false) l in Ok (Some b)
  | _ => Ok None
  end.
Definition parametersIncludeIn (e t : value) : result (option bool) := some_param "in" e t.
Definition parametersIncludeType (e t : value) : result (option bool) := some_param "type" e t.

Definition currentProducesFor (e : value) (t : list value) : result value :=
  let! d := specJsonWithResolvedSubtrees e in
  let! n := getIn d (str "paths" :: t) VNull in
  if bool_decide (n = VNull) then Ok VUndef
  else
    let! r := getIn e (meta_path t ++ [str "produces_value"]) VNull in
    let! o := getIn n [str "produces"; VNum 0] VNull in
    Ok (vor (vor r o) (str "application/json")).
Definition contentTypeValues (e : value) (t : list value) : result value :=
  let! d := specJsonWithResolvedSubtrees e in
  let! n := getIn d (str "paths" :: t) emptyMap in
  let! r := getIn e (meta_path t) emptyMap in
  let! o := currentProducesFor e t in
  let! ps := get n "parameters" in
  let a := vor ps emptyList in
  let! c := get r "consumes_value" in
  let! u := if truthy c then Ok c
            else let! f := parametersIncludeType a (str "file") in
                 if default false f then Ok (str "multipart/form-data")
                 else let! f := parametersIncludeType a (str "formData") in
                      if default false f then Ok (str "application/x-www-form-urlencoded") else Ok VUndef in
  Ok (fromJS (VObj [(js "requestContentType", u); (js "responseContentType", o)])).
Definition operationConsumes (e : value) (t : list value) : result value :=
  let! d := specJsonWithResolvedSubtrees e in getIn d (str "paths" :: t ++ [str "consumes"]) emptyMap.

Definition hasHost (e : value) : result bool :=
  let! h := host e in Ok (match h with VStr (c :: _) => negb (c =? 47) | _ => false end).

(** The scheme of a URL: [a-z][a-z0-9+-.]* before a colon. *)
Definition scheme_char (c : Z) : bool :=
  ((97 <=? c) && (c <=? 122)) || Json.digit c || bool_decide (c ∈ [43; 45; 46]).
Fixpoint scheme_rest (s : list Z) : option (list Z) :=
  match s with
  | c :: s => if c =? 58 then Some [] else if scheme_char c then (λ r, c :: r) <$> scheme_rest s else None
  | [] => None
  end.
Definition url_scheme (s : list Z) : value :=
  match s with
  | c :: s' => if (97 <=? c) && (c <=? 122) then match scheme_rest s' with Some r => VStr (c :: r) | None => VNull end else VNull
  | [] => VNull
  end.
Definition operationScheme (e t n : value) : result value :=
  let! u := get e "url" in
  match u with
  | VStr s =>
      let o := url_scheme s in
      let! a := getIn e [str "scheme"; t; n] VUndef in
      let! b := getIn e [str "scheme"; str "_defaultScheme"] VUndef in
      Ok (vor (vor (vor a b) o) (VStr []))
  | _ => Throw (no_method "match")
  end.
Definition canExecuteScheme (e t n : value) : result bool :=
  let! s := operationScheme e t n in Ok (bool_decide (s ∈ [str "http"; str "https"])).

(** [t && t.count()] *)
Definition counted (v : value) : result bool :=
  if negb (truthy v) then Ok false
  else if isIterable v then Ok (negb (im_size v =? 0)) else Throw (no_method "count").
Definition validateBeforeExecute (e : value) (t : list value) : result bool :=
  let! ps := getIn e (meta_path t ++ [str "parameters"]) emptyList in
  let! l := values_of ps "forEach" in
  foldR (λ n e, let! x := get e "errors" in let! b := counted x in Ok (if b then false else n)) true l.

Definition getParameter (e : value) (t : list value) (n r : value) : result value :=
  let! ps := getIn e (meta_path t ++ [str "parameters"]) emptyList in
  let! l := values_of ps "find" in
  let! x := find_value (λ e, if isMap e then let! a := get e "name" in let! b := get e "in" in
                             Ok (bool_decide (a = n) && bool_decide (b = r)) else Ok false) l in
  Ok (vor x emptyMap).
Definition parameterInclusionSettingFor (e : value) (t : list value) (n r : value) : result value :=
  getIn e (meta_path t ++ [str "parameter_inclusions"; dotted n r]) (VBool false).

(** ** Actions *)

Inductive action :=
  | UPDATE_SPEC (payload : value)
  | UPDATE_URL (payload : value)
  | UPDATE_JSON (payload : value)
  | UPDATE_PARAM (path : list value) (paramName paramIn param val isXml : value)
  | UPDATE_EMPTY_PARAM_INCLUSION (pathMethod : list value) (paramName paramIn includeEmptyValue : value)
  | VALIDATE_PARAMS (pathMethod : list value) (oas3 : value)
  | SET_RESPONSE (path method res : value)
  | SET_REQUEST (path method req : value)
  | SET_MUTATED_REQUEST (path method req : value)
  | LOG_REQUEST (payload : value)
  | CLEAR_RESPONSE (path method : value)
  | CLEAR_REQUEST (path method : value)
  | CLEAR_VALIDATE_PARAMS (pathMethod : list value)
  | UPDATE_OPERATION_META_VALUE (path : list value) (val : value) (key : list Z)
  | UPDATE_RESOLVED (payload : value)
  | UPDATE_RESOLVED_SUBTREE (path : list value) (val : value)
  | SET_SCHEME (scheme path method : value).

(** [e.replace(/\t/g, "  ")]; no action when [e] is no string. *)
Definition updateSpec (e : value) : option action :=
  match e with
  | VStr s => Some (UPDATE_SPEC (VStr (concat ((λ c, if c =? 9 then [32; 32] else [c]) <$> s))))
  | _ => None
  end.
Definition updateResolved (e : value) : action := UPDATE_RESOLVED e.
Definition updateUrl (e : value) : action := UPDATE_URL e.
Definition updateJsonSpec (e : value) : action := UPDATE_JSON e.
Definition changeParam (e : list value) (t n r o : value) : action := UPDATE_PARAM e t n VUndef r o.
Definition changeParamByIdentity (e : list value) (t n r : value) : action := UPDATE_PARAM e VUndef VUndef t n r.
Definition clearValidateParams (e : list value) : action := CLEAR_VALIDATE_PARAMS e.
Definition changeConsumesValue (e : list value) (t : value) : action := UPDATE_OPERATION_META_VALUE e t (js "consumes_value").
Definition changeProducesValue (e : list value) (t : value) : action := UPDATE_OPERATION_META_VALUE e t (js "produces_value").
Definition clearResponse (e t : value) : action := CLEAR_RESPONSE e t.
Definition clearRequest (e t : value) : action := CLEAR_REQUEST e t.
Definition setScheme (e t n : value) : action := SET_SCHEME e t n.
Definition updateResolvedSubtree (e : list value) (t : value) : action := UPDATE_RESOLVED_SUBTREE e t.
Definition invalidateResolvedSubtreeCache : action := UPDATE_RESOLVED_SUBTREE [] emptyMap.
Definition validateParams (e : list value) (t : value) : action := VALIDATE_PARAMS e t.
Definition updateEmptyParamInclusion (e : list value) (t n r : value) : action := UPDATE_EMPTY_PARAM_INCLUSION e t n r.
Definition setResponse (e t n : value) : action := SET_RESPONSE e t n.
Definition setRequest (e t n : value) : action := SET_REQUEST e t n.
Definition setMutatedRequest (e t n : value) : action := SET_MUTATED_REQUEST e t n.
Definition logRequest (e : value) : action := LOG_REQUEST e.

Section parameters.
Variable regexp_test : list Z -> list Z -> result bool.
Variable is_date : list Z -> bool.
Variable object_hash : value -> Z.

(** ** Selectors: parameters with what was entered for them *)

(** [name.in] and [name.in.hash-code] *)
Definition param_key (n : value) : result value := let! a := get n "name" in let! b := get n "in" in Ok (dotted a b).
Definition hash_key (n : value) : result value :=
  let! a := get n "name" in
  let! b := get n "in" in
  if isIterable n then
    Ok (VStr (to_text a ++ [46] ++ to_text b ++ js ".hash-" ++ Json.num_to_string (ImmEq.hashCode object_hash n)))
  else Throw (no_method "hashCode").

Definition parameterWithMetaByIdentity (e : value) (t : list value) (n : value) : result value :=
  let! d := specJsonWithResolvedSubtrees e in
  let! r := getIn d (str "paths" :: t ++ [str "parameters"]) emptyOrderedMap in
  let! o := getIn e (meta_path t ++ [str "parameters"]) emptyOrderedMap in
  let! r := map_values (λ e,
    let! k := param_key n in
    let! t := get_or o k VUndef in
    let! h := hash_key n in
    let! r := get_or o h VUndef in
    merge emptyOrderedMap [e; t; r]) r in
  let! l := values_of r "find" in
  find_value (λ e, let! ei := get e "in" in let! ni := get n "in" in
    if bool_decide (ei = ni) then let! en := get e "name" in let! nn := get n "name" in Ok (bool_decide (en = nn))
    else Ok false) l.

Definition parameterWithMeta (e : value) (t : list value) (n r : value) : result value :=
  let! d := specJsonWithResolvedSubtrees e in
  let! ps := getIn d (str "paths" :: t ++ [str "parameters"]) emptyOrderedMap in
  let! l := values_of ps "find" in
  let! o := find_value (λ e, let! i := get e "in" in
    if bool_decide (i = r) then let! m := get e "name" in Ok (bool_decide (m = n)) else Ok false) l in
  parameterWithMetaByIdentity e t o.

Definition operationWithMeta (e t n : value) : result value :=
  let! d := specJsonWithResolvedSubtrees e in
  let! r := getIn d [str "paths"; t; n] emptyOrderedMap in
  let! o := getIn e (meta_path [t; n]) emptyOrderedMap in
  let! ps := get_or r (str "parameters") emptyList in
  let! i := map_values (parameterWithMetaByIdentity e [t; n]) ps in
  let! m := merge emptyOrderedMap [r; o] in
  set m (str "parameters") i.

(** The first two elements of a path. *)
Definition first_two (t : list value) : value * value := (default VUndef (t !! 0%nat), default VUndef (t !! 1%nat)).

Definition parameterValues (e : value) (t : list value) (n : value) : result value :=
  let '(p, m) := first_two t in
  let! op := operationWithMeta e p m in
  let! ps := get_or op (str "parameters") emptyList in
  let! l := values_of ps "reduce" in
  foldR (λ e t,
    let! i := get t "in" in
    let! r := if truthy n && bool_decide (i = str "body") then get t "value_xml" else get t "value" in
    let! nm := get t "name" in
    set e (dotted i nm) r) emptyMap l.

(** ** Reducer *)

(** The test of the text with the pattern xml, the case ignored. *)
Definition is_xml (v : value) : bool := UiUtils.contains_text (js "xml") (to_lower (to_text v)).

(** The errors of a parameter, put under its name and place. *)
Definition validate_one (l o : bool) (e t : value) : result value :=
  let! n := UiUtils.validateParam regexp_test is_date t l o in
  let! k := param_key t in
  setIn e [k; str "errors"] (fromJS (VArr n)).

(** What a response that failed is stored as. *)
Definition response_object (r : value) : result value :=
  let! err := field r "error" in
  let! u := if truthy err then
      let! x := field r "err" in
      let! name := field x "name" in
      let! message := field x "message" in
      let! statusCode := field x "statusCode" in
      let! response := field x "response" in
      Ok (VObj (assign [(js "error", VBool true); (js "name", name); (js "message", message); (js "statusCode", statusCode)]
                  (UiErr.props response)))
    else Ok r in
  let! h := field u "headers" in
  match u with
  | VObj o => Ok (VObj (put o (js "headers") (vor h (VObj []))))
  | _ => Ok u
  end.

Definition reduce (e : value) (a : action) : result value :=
  match a with
  | UPDATE_SPEC p => match p with VStr _ => set e (str "spec") p | _ => Ok e end
  | UPDATE_URL p => set e (str "url") (VStr (to_text p))
  | UPDATE_JSON p => set e (str "json") (fromJSOrdered p)
  | UPDATE_RESOLVED p => setIn e [str "resolved"] (fromJSOrdered p)
  | UPDATE_RESOLVED_SUBTREE o r => setIn e (str "resolvedSubtrees" :: o) (fromJSOrdered r)
  | UPDATE_PARAM r o i u s l =>
      let! c := if isIterable u && negb (truthy i) && negb (truthy o) then hash_key u else Ok (dotted o i) in
      let f := if truthy l then "value_xml"%string else "value"%string in
      setIn e (meta_path r ++ [str "parameters"; c; str f]) s
  | UPDATE_EMPTY_PARAM_INCLUSION r o i u =>
      if negb (truthy o) || negb (truthy i) then Ok e
      else setIn e (meta_path r ++ [str "parameter_inclusions"; dotted o i]) u
  | VALIDATE_PARAMS r o =>
      let! i := getIn e (meta_path r) emptyMap in
      let! c := get i "consumes_value" in
      let l := is_xml c in
      let '(p, m) := first_two r in
      let! f := operationWithMeta e p m in
      updateIn e (meta_path r ++ [str "parameters"]) emptyMap (λ e,
        let! ps := get_or f (str "parameters") emptyList in
        let! ts := values_of ps "reduce" in
        foldR (validate_one l (truthy o)) e ts)
  | CLEAR_VALIDATE_PARAMS n =>
      updateIn e (meta_path n ++ [str "parameters"]) emptyList (map_values (λ e, set e (str "errors") emptyList))
  | SET_RESPONSE o a r => let! u := response_object r in setIn e [str "responses"; o; a] (fromJSOrdered u)
  | SET_REQUEST o i r => setIn e [str "requests"; o; i] (fromJSOrdered r)
  | SET_MUTATED_REQUEST o i r => setIn e [str "mutatedRequests"; o; i] (fromJSOrdered r)
  | LOG_REQUEST _ => Ok e
  | UPDATE_OPERATION_META_VALUE r o i =>
      let s := str "paths" :: r in
      let! a := getIn e (str "json" :: s) VUndef in
      let! b := getIn e (str "resolved" :: s) VUndef in
      let! c := getIn e (str "resolvedSubtrees" :: s) VUndef in
      if truthy a || truthy b || truthy c then setIn e (meta_path r ++ [VStr i]) (fromJS o) else Ok e
  | CLEAR_RESPONSE r o => deleteIn e [str "responses"; r; o]
  | CLEAR_REQUEST r o => deleteIn e [str "requests"; r; o]
  | SET_SCHEME r o i =>
      if truthy o && truthy i then setIn e [str "scheme"; o; i] r
      else if truthy o || truthy i then Ok VUndef
      else setIn e [str "scheme"; str "_defaultScheme"] r
  end.
End parameters.

(** A specification with one operation that has two parameters. *)
Definition sample_param (name inn : string) (rest : list (list Z * value)) : value :=
  VObj ([(js "name", str name); (js "in", str inn)] ++ rest).
Definition sample_json : value :=
  VObj [(js "consumes", VArr [str "text/plain"]);
        (js "tags", VArr [VObj [(js "name", str "pets")]]);
        (js "paths", VObj [(js "/p", VObj [(js "get", VObj [
          (js "tags", VArr [str "pets"; str "other"]);
          (js "parameters", VArr [
            sample_param "id" "query" [(js "type", str "integer"); (js "required", VBool true)];
            sample_param "q" "query" [(js "type", str "string")]])])])])].

Example spec_ex :
  let red := reduce (λ _ _, Ok true) (λ _, true) (λ _, 0) in
  let path := [str "/p"; str "get"] in
  (let! e := red emptyMap (updateJsonSpec sample_json) in
   let! e := red e (changeParam path (str "id") (str "query") (str "x7") VUndef) in
   let! e := red e (validateParams path (VBool false)) in
   let! vs := parameterValues (λ _, 0) e path VUndef in
   let! ok := validateBeforeExecute e path in
   let! ts := operationsWithTags e in
   Ok (vs, ok, match ts with VMap _ m => (λ kv, (kv.1, im_size kv.2)) <$> m | _ => [] end))
  = Ok (VMap false [(str "query.id", str "x7"); (str "query.q", VUndef)], false, [(str "pets", 1); (str "other", 1)])
  /\ red emptyMap (setScheme (str "http") (str "/p") VUndef) = Ok VUndef
  /\ operationScheme (VMap false [(str "url", str "https://h/x.json")]) VUndef VUndef = Ok (str "https")
  /\ semver (VMap false [(str "json", fromJSOrdered (VObj [(js "info", VObj [(js "version", str "api v1.20.3-beta")])]))])
     = Ok (VArr [str "1"; str "20"; str "3"]).
Proof. vm_compute. auto 10. Qed.

(** A parameter that the specification does not have: the default given to
    [find] is taken as its context, and the search goes on with [undefined]. *)
Example parameter_missing :
  (let! e := reduce (λ _ _, Ok true) (λ _, true) (λ _, 0) emptyMap (updateJsonSpec sample_json) in
   parameterWithMeta (λ _, 0) e [str "/p"; str "get"] (str "nope") (str "query")) = Throw (no_method "get").
Proof. vm_compute. reflexivity. Qed.

End UiSpec.
