(* ===== verification/UiSpecOk.v ===== *)
(** Properties of the specification in the state of Swagger UI (UiSpec): what is
    entered for a parameter is what the operation is executed with, and an
    operation is executed only when its parameters are valid. *)

From stdpp Require Import base list list_numbers numbers strings gmap.
From Stdlib Require Import ZArith Lia.
From S2P Require Import Prelude Json ImmHash Im ImmEq UiErr UiAuth UiOas3 UiUtils UiSpec.

Module UiSpecOk.
Import Im UiSpec.

(** ** Paths through maps *)

Lemma maps_along_app v p q : maps_along (Some v) (p ++ q) -> maps_along (Some v) p.
Proof.
  revert v. induction p as [|k p IH]; intros v H; [done|]. destruct v; try done. destruct H as [Hn H]. split; [done|].
  destruct (map_get m k) as [x|]; [by apply IH|by destruct p].
Qed.

(** Below a path of maps that leads somewhere. *)
Lemma maps_along_below v p q x : maps_along (Some v) (p ++ q) -> get_in v p = Some x -> maps_along (Some x) q.
Proof.
  revert v. induction p as [|k p IH]; intros v H Hx; [by injection Hx as <-|]. destruct v; try done. destruct H as [Hn H].
  rewrite get_in_map in Hx. destruct (map_get m k) as [y|]; [|done]. by eapply IH.
Qed.

Lemma get_in_app v p q : get_in v (p ++ q) = get_opt (get_in v p) q.
Proof.
  revert v. induction p as [|k p IH]; intros v; [done|]. cbn [app get_in]. destruct (has_get v); [|done]. by destruct (im_get v k).
Qed.

(** A write leaves maps along its path. *)
Lemma update_maps t p f x v : maps_along t p -> (∀ u, f u = Ok (Some x)) -> updateInDeep t p None f = Ok (Some v) -> maps_along (Some v) p.
Proof.
  revert t v. induction p as [|k p IH]; intros t v Ht Hf H; [done|]. cbn [updateInDeep] in H. destruct t as [w|].
  - destruct w; try done. destruct Ht as [Hn Ht]. cbn [has_set negb im_get] in H.
    destruct (updateInDeep (map_get m k) p None f) as [y|] eqn:E; [|done]. cbn [result_bind] in H. destruct (decide (y = map_get m k)) as [->|].
    + by injection H as <-.
    + destruct y as [y|]; injection H as <-.
      * split; [by apply map_set_nodup|]. rewrite map_get_set, decide_True by done. by eapply IH.
      * split; [by apply map_remove_nodup|]. rewrite map_get_remove, decide_True by done. by destruct p.
  - destruct (updateInDeep None p None f) as [y|] eqn:E; [|done]. cbn [result_bind] in H. destruct y as [y|]; [|done].
    injection H as <-. cbn. split; [apply NoDup_singleton|]. rewrite decide_True by done. eapply IH; [|done|exact E]. by destruct p.
Qed.
Lemma setIn_maps v p x v' : maps_along (Some v) p -> setIn v p x = Ok v' -> p <> [] -> maps_along (Some v') p.
Proof.
  intros Hm H Hp. unfold setIn in H. rewrite (has_set_maps v p) in H by done. cbn [negb] in H.
  destruct (updateInDeep (Some v) p None (λ _, Ok (Some x))) as [y|] eqn:E; [|done]. cbn [result_bind] in H.
  destruct y as [y|]; [injection H as <-; by eapply update_maps|]. by destruct (update_deep (Some v) p None (λ _, Ok (Some x)) (get_opt (Some v) p) x) as (? & E' & _);
    [done|by destruct (get_opt (Some v) p)|done|intros ->; done|congruence].
Qed.

Lemma diverge_first a b p q : a <> b -> diverge (a :: p) (b :: q).
Proof. apply diverge_here. Qed.
Lemma diverge_prefix r p q : diverge p q -> diverge (r ++ p) (r ++ q).
Proof. intros H. induction r as [|a r IH]; [done|]. by apply diverge_later. Qed.

Lemma get_map o m k : get (VMap o m) k = Ok (default VUndef (map_get m (str k))).
Proof. apply UiErr.get_str. Qed.
Lemma map_is v : isMap v = true -> ∃ o m, v = VMap o m.
Proof. destruct v; try done. by eexists _, _. Qed.

(** Writing entries one after the other: the last of them count. *)
Lemma fold_set_get m es k : NoDup (keys es) ->
  map_get (foldl (λ m kv, map_set m kv.1 kv.2) m es) k = match map_get es k with Some x => Some x | None => map_get m k end.
Proof.
  revert m. induction es as [|[j x] es IH]; intros m Hn; [done|]. apply NoDup_cons in Hn as [Hj Hn]. cbn [foldl fst snd]. rewrite IH by done.
  rewrite map_get_set. cbn [map_get]. destruct (decide (k = j)) as [->|]; [|done].
  rewrite (proj2 (map_get_None es j)) by done. done.
Qed.
Lemma map_set_snoc m k v : k ∉ keys m -> map_set m k v = m ++ [(k, v)].
Proof.
  induction m as [|[j x] m IH]; intros Hk; [done|]. cbn in *. apply not_elem_of_cons in Hk as [Hk Hm]. rewrite decide_False by done. by rewrite IH.
Qed.

(** ** What the state says does not depend on what was entered *)

Lemma merged_frame e e' : has_get e = true -> has_get e' = true ->
  get_in e' [str "json"] = get_in e [str "json"] -> get_in e' [str "resolvedSubtrees"] = get_in e [str "resolvedSubtrees"] ->
  specJsonWithResolvedSubtrees e' = specJsonWithResolvedSubtrees e.
Proof.
  intros He He' Hj Hr. unfold specJsonWithResolvedSubtrees, get, get_or. assert (T : ∀ v, has_get v = true -> state_or v = v) by (by intros []).
  rewrite !T, He, He' by done. assert (G : ∀ v k, has_get v = true -> im_get v k = get_in v [k]).
  { intros v k Hv. cbn [get_in]. rewrite Hv. by destruct (im_get v k). }
  by rewrite !G, Hj, Hr.
Qed.

Lemma write_keeps_spec e e' r x : setIn e (str "meta" :: r) x = Ok e' -> maps_along (Some e) (str "meta" :: r) ->
  specJsonWithResolvedSubtrees e' = specJsonWithResolvedSubtrees e.
Proof.
  intros H Hm. destruct (setIn_spec e (str "meta" :: r) x Hm) as (e'' & H' & _ & Hf); [done|]. rewrite H in H'. injection H' as <-.
  pose proof (setIn_maps _ _ _ _ Hm H) as Hm'. apply merged_frame.
  - by destruct e.
  - by destruct e'; try done; destruct Hm'.
  - apply Hf, diverge_first. by intros E%str_inj.
  - apply Hf, diverge_first. by intros E%str_inj.
Qed.

(** ** What is entered for a parameter *)

Section parameters.
Variable regexp_test : list Z -> list Z -> result bool.
Variable is_date : list Z -> bool.
Variable object_hash : value -> Z.
Abbreviation reduce := (reduce regexp_test is_date object_hash).
Abbreviation parameterWithMetaByIdentity := (parameterWithMetaByIdentity object_hash).
Abbreviation hash_key := (hash_key object_hash).

(** Name and place of a parameter. *)
Definition identity (p : value) : value * value :=
  match p with VMap _ m => (default VUndef (map_get m (str "name")), default VUndef (map_get m (str "in"))) | _ => (VUndef, VUndef) end.
(** What may be entered: fields other than those. *)
Definition entered_ok (x : option value) : Prop :=
  match x with
  | None => True
  | Some (VMap _ m) => NoDup (keys m) /\ map_get m (str "name") = None /\ map_get m (str "in") = None
  | Some _ => False
  end.
Definition fields (x : option value) : list (value * value) := match x with Some (VMap _ m) => m | _ => [] end.

Lemma entered_keyed x : entered_ok x -> keyed (default VUndef x) = Ok (fields x).
Proof. destruct x as [[]|]; done. Qed.
Lemma entered_nodup x : entered_ok x -> NoDup (keys (fields x)).
Proof. destruct x as [[]|]; try done; [by intros []|intros _; apply NoDup_nil_2]. Qed.
Lemma entered_absent x k : entered_ok x -> k = str "name" \/ k = str "in" -> map_get (fields x) k = None.
Proof. destruct x as [[]|]; try done. cbn. by intros (_ & H1 & H2) [-> | ->]. Qed.

(** A parameter with the two maps entered for it merged in. *)
Definition with_entered (m : list (value * value)) (t r : option value) : list (value * value) :=
  foldl (λ m kv, map_set m kv.1 kv.2) (foldl (λ m kv, map_set m kv.1 kv.2) (foldl (λ m kv, map_set m kv.1 kv.2) [] m) (fields t)) (fields r).
Lemma merge_entered o m t r : entered_ok t -> entered_ok r ->
  merge emptyOrderedMap [VMap o m; default VUndef t; default VUndef r] = Ok (VMap true (with_entered m t r)).
Proof.
  intros Ht Hr. cbn [merge emptyOrderedMap]. unfold map_merge. cbn [mapR]. rewrite (entered_keyed t), (entered_keyed r) by done. done.
Qed.
Lemma with_entered_get m t r k : NoDup (keys m) -> entered_ok t -> entered_ok r ->
  map_get (with_entered m t r) k =
    match map_get (fields r) k with Some x => Some x | None => match map_get (fields t) k with Some x => Some x | None => map_get m k end end.
Proof.
  intros Hm Ht%entered_nodup Hr%entered_nodup. unfold with_entered. rewrite !fold_set_get by done. by destruct (map_get m k).
Qed.
Lemma identity_entered o m t r : NoDup (keys m) -> entered_ok t -> entered_ok r ->
  identity (VMap true (with_entered m t r)) = identity (VMap o m).
Proof.
  intros Hm Ht Hr. unfold identity. rewrite !with_entered_get by done.
  rewrite !(entered_absent r) by auto. by rewrite !(entered_absent t) by auto.
Qed.

Lemma get_identity q : isMap q = true -> get q "in" = Ok (identity q).2 /\ get q "name" = Ok (identity q).1.
Proof. intros (o & m & ->)%map_is. by rewrite !get_map. Qed.

(** The search for the merged parameter. *)
Lemma find_param (f : value -> value) p ps : isMap p = true -> p ∈ ps -> Forall (λ q, isMap (f q) = true /\ identity (f q) = identity q) ps ->
  (∀ q, q ∈ ps -> identity q = identity p -> q = p) ->
  find_value (λ e, let! ei := get e "in" in let! ni := get p "in" in
    if bool_decide (ei = ni) then let! en := get e "name" in let! nn := get p "name" in Ok (bool_decide (en = nn))
    else Ok false) (f <$> ps) = Ok (f p).
Proof.
  intros Hp Hin Hf Hid. destruct (get_identity p Hp) as [-> ->]. cbn [result_bind].
  induction ps as [|q ps IH]; [by apply not_elem_of_nil in Hin|]. apply Forall_cons in Hf as [[Hq Hqi] Hf]. cbn [fmap list_fmap find_value].
  destruct (get_identity (f q) Hq) as [-> ->]. rewrite Hqi. cbn [result_bind].
  assert (Rest : identity q <> identity p -> p ∈ ps) by (intros Hne; apply elem_of_cons in Hin as [->|]; done).
  assert (IH' : identity q <> identity p -> _ = Ok (f p)) by (intros Hne; apply IH; [by apply Rest|done|set_solver]). clear IH.
  case_bool_decide as H1; cbn [result_bind]; [|apply IH'; congruence].
  case_bool_decide as H2; cbn [result_bind]; [|apply IH'; congruence].
  rewrite (Hid q); [done|set_solver|]. destruct (identity q), (identity p). cbn in *. congruence.
Qed.

(** The selector on a state that has the parameter and maps of what was entered. *)
Lemma parameter_read e path d ps p o m k h : specJsonWithResolvedSubtrees e = Ok d ->
  getIn d (str "paths" :: path ++ [str "parameters"]) emptyOrderedMap = Ok (VList ps) ->
  getIn e (meta_path path ++ [str "parameters"]) emptyOrderedMap = Ok (VMap o m) ->
  param_key p = Ok k -> hash_key p = Ok h -> entered_ok (map_get m k) -> entered_ok (map_get m h) ->
  Forall (λ q, ∃ oq mq, q = VMap oq mq /\ NoDup (keys mq)) ps -> p ∈ ps -> (∀ q, q ∈ ps -> identity q = identity p -> q = p) ->
  ∃ op mp, p = VMap op mp /\ parameterWithMetaByIdentity e path p = Ok (VMap true (with_entered mp (map_get m k) (map_get m h))).
Proof.
  intros Hd Hps Hm Hk Hh Ek Eh Hmaps Hin Hid. set (g q := match q with VMap _ mq => VMap true (with_entered mq (map_get m k) (map_get m h)) | _ => q end).
  assert (Hpm := Hmaps). rewrite Forall_forall in Hpm. destruct (Hpm p Hin) as (op & mp & Ep & Hn). exists op, mp. split; [done|].
  unfold UiSpec.parameterWithMetaByIdentity. rewrite Hd. cbn [result_bind]. rewrite Hps, Hm. cbn [result_bind map_values]. rewrite Hk, Hh. cbn [result_bind].
  rewrite (mapR_ok _ ps g).
  - cbn [result_bind values_of]. rewrite (find_param g p ps); [by rewrite Ep|by rewrite Ep|done| |done].
    eapply Forall_impl; [exact Hmaps|]. intros q (oq & mq & -> & Hq). split; [done|]. by apply identity_entered.
  - eapply Forall_impl; [exact Hmaps|]. intros q (oq & mq & -> & Hq). cbn [get_or has_get isIterable im_get result_bind]. by apply merge_entered.
Qed.

Lemma key_not_hash p k h : param_key p = Ok k -> hash_key p = Ok h -> k <> h.
Proof.
  unfold param_key, UiSpec.hash_key. destruct (get p "name") as [a|]; [|done]. destruct (get p "in") as [b|]; [|done]. cbn [result_bind].
  destruct (isIterable p); [|done]. intros Hk Hh E. rewrite E, <- Hh in Hk.
  apply (f_equal (λ r, match r with Ok v => length (to_text v) | Throw _ => O end)) in Hk. cbn [to_text dotted] in Hk.
  rewrite !length_app in Hk. change (length (js ".hash-")) with 6%nat in Hk. lia.
Qed.

(** *** What an operation is executed with *)

(** The keys under which a parameter is found: where values are entered by name and
    place, where they are entered for the parameter itself, and among the values
    of the operation. *)
Definition dotted_key (p : value) : value := dotted (identity p).1 (identity p).2.
Definition hashed_key (p : value) : value :=
  VStr (to_text (identity p).1 ++ [46] ++ to_text (identity p).2 ++ js ".hash-" ++ Json.num_to_string (ImmEq.hashCode object_hash p)).
Definition value_key (p : value) : value := dotted (identity p).2 (identity p).1.

(** The field that an entry sets, and the one that is read: a body may be entered
    as XML. *)
Definition field_set (xml : value) : string := if truthy xml then "value_xml"%string else "value"%string.
Definition field_read (xml p : value) : string :=
  if truthy xml && bool_decide ((identity p).2 = str "body") then "value_xml"%string else "value"%string.

Lemma param_key_map p : isMap p = true -> param_key p = Ok (dotted_key p).
Proof. intros Hp. unfold param_key. destruct (get_identity p Hp) as [-> ->]. done. Qed.
Lemma hash_key_map p : isMap p = true -> hash_key p = Ok (hashed_key p).
Proof.
  intros Hp. unfold UiSpec.hash_key. destruct (get_identity p Hp) as [-> ->]. cbn [result_bind]. by destruct (map_is p Hp) as (o & m & ->).
Qed.

(** The maps under the path [at_]; [slot e k] is what is entered under [k]. *)
Lemma entered_map e r q : maps_along (Some e) (r ++ q) -> r <> [] -> q <> [] ->
  ∃ o m, getIn e r emptyOrderedMap = Ok (VMap o m) /\ ∀ k, map_get m k = get_in e (r ++ [k]).
Proof.
  intros Hm Hr Hq. assert (Hg : has_get e = true) by (destruct e; try (by destruct r); done).
  unfold getIn. rewrite Hg. destruct (get_in e r) as [w|] eqn:Ew.
  - pose proof (maps_along_below e r q w Hm Ew) as Hw. destruct q as [|k q]; [done|]. destruct w as [| | | | |o m| | | |]; try done.
    exists o, m. split; [done|]. intros j. rewrite get_in_app, Ew. cbn [get_opt]. rewrite get_in_map. by destruct (map_get m j).
  - exists true, []. split; [done|]. intros j. by rewrite get_in_app, Ew.
Qed.

Lemma maps_along_last v r a b : maps_along (Some v) (r ++ [a]) -> maps_along (Some v) (r ++ [b]).
Proof.
  revert v. induction r as [|k r IH]; intros v; cbn [app maps_along]; destruct v; try done.
  intros [Hn H]. split; [done|]. destruct (map_get _ k); [by apply IH|apply maps_along_None].
Qed.

Section operation.
Variables (d : value) (t n : value) (ps : list value) (ot : bool) (mt : list (value * value)).
(** The parameters of an operation of the specification; their names and places
    differ, also in the values of the operation. *)
Hypothesis Hop : getIn d [str "paths"; t; n] emptyOrderedMap = Ok (VMap ot mt).
Hypothesis Hps : map_get mt (str "parameters") = Some (VList ps).
Hypothesis Hmaps : Forall (λ q, ∃ oq mq, q = VMap oq mq /\ NoDup (keys mq)) ps.
Hypothesis Hkeys : NoDup (value_key <$> ps).
Local Abbreviation at_ := (meta_path [t; n] ++ [str "parameters"]).

(** The value of the field [f] of a parameter in the state [e]. *)
Definition value_in (e q : value) (f : string) : value :=
  default VUndef (map_get (with_entered (fields (Some q)) (get_in e (at_ ++ [dotted_key q])) (get_in e (at_ ++ [hashed_key q]))) (str f)).

Lemma identity_inj p q : p ∈ ps -> q ∈ ps -> identity q = identity p -> q = p.
Proof.
  intros Hp Hq E. apply list_elem_of_lookup in Hp as (i & Hi), Hq as (j & Hj).
  assert (Ek : value_key q = value_key p) by (unfold value_key; by rewrite E).
  assert (Eij : i = j); [|congruence].
  apply (NoDup_lookup (value_key <$> ps) i j (value_key p)); [done|by rewrite list_lookup_fmap, Hi|rewrite list_lookup_fmap, Hj; cbn; by rewrite Ek].
Qed.
Lemma param_map q : q ∈ ps -> isMap q = true /\ NoDup (keys (fields (Some q))).
Proof. rewrite Forall_forall in Hmaps. intros Hq. by destruct (Hmaps q Hq) as (oq & mq & -> & Hn). Qed.

Lemma parameters_in : getIn d (str "paths" :: [t; n] ++ [str "parameters"]) emptyOrderedMap = Ok (VList ps).
Proof.
  unfold getIn in *. destruct (has_get d) eqn:Hg; [|done]. change (str "paths" :: [t; n] ++ [str "parameters"]) with ([str "paths"; t; n] ++ [str "parameters"]).
  rewrite get_in_app. destruct (get_in d [str "paths"; t; n]) as [w|]; cbn [default get_opt] in *.
  - injection Hop as ->. by rewrite get_in_map, Hps.
  - injection Hop as <- <-. done.
Qed.

(** A state in which what was entered are maps. *)
Definition entries_ok (e : value) : Prop :=
  specJsonWithResolvedSubtrees e = Ok d /\ maps_along (Some e) (at_ ++ [VUndef]) /\
  ∀ q, q ∈ ps -> entered_ok (get_in e (at_ ++ [dotted_key q])) /\ entered_ok (get_in e (at_ ++ [hashed_key q])).

(** The parameter as the selectors give it. *)
Definition read_param (e q : value) : value :=
  VMap true (with_entered (fields (Some q)) (get_in e (at_ ++ [dotted_key q])) (get_in e (at_ ++ [hashed_key q]))).
Lemma parameter_read_one e p : entries_ok e -> p ∈ ps ->
  parameterWithMetaByIdentity e [t; n] p = Ok (read_param e p) /\ identity (read_param e p) = identity p.
Proof.
  intros (Hd & Hm & Hent) Hp. destruct (param_map p Hp) as [Hpm Hpn]. destruct (Hent p Hp) as [E1 E2]. destruct (Hent p Hp) as [F1 F2].
  destruct (entered_map e at_ [VUndef] Hm) as (o & m & Ha & Hs); [done|done|].
  rewrite <- !Hs in E1, E2. destruct (parameter_read e [t; n] d ps p o m (dotted_key p) (hashed_key p)) as (op & mp & -> & Hr);
    [done|apply parameters_in|exact Ha|by apply param_key_map|by apply hash_key_map|done|done|exact Hmaps|done|intros q Hq; by apply identity_inj|].
  rewrite Hs, Hs in Hr. split; [exact Hr|]. by apply identity_entered.
Qed.

(** The values of the operation. *)
Lemma values_read e xml : entries_ok e -> ∃ vals, parameterValues object_hash e [t; n] xml = Ok (VMap false vals) /\
  ∀ q, q ∈ ps -> map_get vals (value_key q) = Some (value_in e q (field_read xml q)).
Proof.
  intros He. pose proof He as (Hd & Hm & Hent). unfold parameterValues. cbn [first_two].
  change (default VUndef ([t; n] !! 0%nat)) with t. change (default VUndef ([t; n] !! 1%nat)) with n.
  assert (Ho : ∃ op, operationWithMeta object_hash e t n = Ok op /\ get_or op (str "parameters") emptyList = Ok (VList (read_param e <$> ps))).
  { unfold operationWithMeta. rewrite Hd. cbn [result_bind]. rewrite Hop. cbn [result_bind].
    destruct (entered_map e (meta_path [t; n]) [str "parameters"; VUndef]) as (oo & mo & -> & _); [exact Hm|done|done|]. cbn [result_bind].
    assert (Eg : get_or (VMap ot mt) (str "parameters") emptyList = Ok (VList ps)) by (unfold get_or; cbn [has_get isIterable im_get]; by rewrite Hps).
    rewrite Eg. cbn [result_bind map_values]. rewrite (mapR_ok _ ps (read_param e)).
    - cbn [result_bind merge emptyOrderedMap map_merge mapR keyed set has_set im_set]. eexists. split; [reflexivity|].
      unfold get_or. cbn [has_get isIterable im_get]. by rewrite map_get_set, decide_True.
    - apply Forall_forall. intros q Hq. by apply parameter_read_one. }
  destruct Ho as (op & -> & Eg). cbn [result_bind]. rewrite Eg. cbn [result_bind values_of].
  (* the loop over the parameters *)
  assert (G : ∀ l acc, (∀ q, q ∈ l -> q ∈ ps) -> NoDup (value_key <$> l) -> ∃ vals,
    foldR (λ e t, let! i := get t "in" in
      let! r := if truthy xml && bool_decide (i = str "body") then get t "value_xml" else get t "value" in
      let! nm := get t "name" in set e (dotted i nm) r) (VMap false acc) (read_param e <$> l) = Ok (VMap false vals) /\
    (∀ q, q ∈ l -> map_get vals (value_key q) = Some (value_in e q (field_read xml q))) /\
    (∀ k, k ∉ value_key <$> l -> map_get vals k = map_get acc k)).
  { induction l as [|q l IH]; intros acc Hl Hn; [exists acc; split_and!; [done|by intros q ?%not_elem_of_nil|done]|].
    cbn [fmap list_fmap] in Hn. apply NoDup_cons in Hn as [Hq Hn]. destruct (parameter_read_one e q He) as [_ Hid]; [apply Hl; by left|].
    destruct (get_identity (read_param e q) eq_refl) as [G1 G2]. rewrite Hid in G1, G2. cbn [fmap list_fmap foldR]. rewrite G1. cbn [result_bind].
    assert (Hv : (if truthy xml && bool_decide ((identity q).2 = str "body") then get (read_param e q) "value_xml" else get (read_param e q) "value")
      = Ok (value_in e q (field_read xml q))) by (unfold field_read, read_param, value_in; destruct (_ && _); by rewrite get_map).
    rewrite Hv. cbn [result_bind]. rewrite G2. cbn [result_bind set has_set im_set].
    destruct (IH (map_set acc (value_key q) (value_in e q (field_read xml q)))) as (vals & E & H1 & H2); [intros x Hx; apply Hl; by right|done|].
    exists vals. split_and!; [exact E| |].
    - intros x [->|Hx]%elem_of_cons; [|by apply H1]. rewrite H2 by done. by rewrite map_get_set, decide_True.
    - intros k [Hk Hk']%not_elem_of_cons. rewrite H2 by done. by rewrite map_get_set, decide_False. }
  destruct (G ps [] (λ _ H, H) Hkeys) as (vals & E & H1 & _). exists vals. split; [exact E|exact H1].
Qed.

(** C30. What is entered for a parameter is what its operation is executed with:
    take an operation whose parameters differ in name and place and in the keys
    (name, place and hash) under which the state keeps what is entered, on a state
    in which what was entered are maps with other fields than name and place. After
    [changeParamByIdentity] of one of the parameters, [parameterValues], which
    gives the values for the execution, has the value entered for this parameter
    (a body entered as XML when it is to be sent as XML, and a value otherwise)
    and for every other parameter, and every field not entered, the value it had
    before. The parameter as [parameterWithMetaByIdentity] gives it has the value
    entered, and its name and place; the specification does not change. *)
Theorem change_param_read e p v entered_xml sent_xml :
  entries_ok e -> maps_along (Some e) (at_ ++ [hashed_key p; str (field_set entered_xml)]) -> p ∈ ps ->
  (∀ q, q ∈ ps -> dotted_key q <> hashed_key p /\ (hashed_key q = hashed_key p -> q = p)) ->
  ∃ e' m before after,
    reduce e (changeParamByIdentity [t; n] p v entered_xml) = Ok e' /\
    parameterValues object_hash e [t; n] sent_xml = Ok (VMap false before) /\
    parameterValues object_hash e' [t; n] sent_xml = Ok (VMap false after) /\
    (∀ q, q ∈ ps -> map_get after (value_key q) =
       if bool_decide (q = p /\ field_set entered_xml = field_read sent_xml p) then Some v else map_get before (value_key q)) /\
    parameterWithMetaByIdentity e' [t; n] p = Ok (VMap true m) /\ map_get m (str (field_set entered_xml)) = Some v /\
    identity (VMap true m) = identity p /\ specJsonWithResolvedSubtrees e' = specJsonWithResolvedSubtrees e.
Proof.
  intros He Hm Hp Hother. pose proof He as (Hd & Hmu & Hent). set (h := hashed_key p) in *. set (f := field_set entered_xml) in *.
  assert (Hne : at_ ++ [h; str f] <> []) by done. destruct (param_map p Hp) as [Hpm Hpn].
  destruct (setIn_spec e (at_ ++ [h; str f]) v Hm Hne) as (e' & Hset & Hr & Hf). pose proof (setIn_maps _ _ _ _ Hm Hset Hne) as Hm'.
  assert (Hd' : specJsonWithResolvedSubtrees e' = specJsonWithResolvedSubtrees e) by (by apply (write_keeps_spec e e' _ v Hset)).
  (* what is entered under the other keys, and in the other fields *)
  assert (Gk : ∀ k, k <> h -> get_in e' (at_ ++ [k]) = get_in e (at_ ++ [k])) by (intros k Hk; by apply Hf, diverge_prefix, diverge_first).
  change (at_ ++ [h; str f]) with (at_ ++ ([h] ++ [str f])) in Hr, Hm'. rewrite (app_assoc at_) in Hr, Hm'. rewrite get_in_app in Hr.
  destruct (get_in e' (at_ ++ [h])) as [x|] eqn:Ex; [|done]. cbn [get_opt] in Hr.
  assert (Hx := maps_along_below e' (at_ ++ [h]) [str f] x Hm' Ex). destruct x as [| | | | |ox mx| | | |]; try done. destruct Hx as [Hnx _].
  rewrite get_in_map in Hr. destruct (map_get mx (str f)) as [y|] eqn:Ey; [|done]. injection Hr as ->.
  assert (Gf : ∀ g, g <> str f -> map_get mx g = get_opt (get_in e (at_ ++ [h])) [g]).
  { intros g Hg. assert (G := Hf (at_ ++ [h; g])). change [h; g] with ([h] ++ [g]) in G. rewrite !(app_assoc at_), !(get_in_app _ (at_ ++ [h])), Ex in G. cbn [get_opt] in G.
    rewrite get_in_map in G. rewrite <- G by (rewrite <- !(app_assoc at_); apply diverge_prefix; cbn; apply diverge_later, diverge_first; congruence).
    by destruct (map_get mx g). }
  assert (Hff : f = "value"%string \/ f = "value_xml"%string) by (unfold f, field_set; destruct (truthy entered_xml); auto).
  destruct (Hent p Hp) as [Edp Ehp].
  assert (Gx : ∀ g, g <> str f -> map_get mx g = map_get (fields (get_in e (at_ ++ [h]))) g).
  { intros g Hg. rewrite Gf by done. unfold h. destruct (get_in e (at_ ++ [hashed_key p])) as [w|]; [|done]. destruct w; try done.
    cbn [get_opt]. rewrite get_in_map. cbn [fields]. by destruct (map_get m g). }
  assert (Ex' : entered_ok (get_in e' (at_ ++ [h]))).
  { rewrite Ex. split_and!; [done|..]; rewrite Gx by (destruct Hff as [-> | ->]; by intros ?%str_inj); apply entered_absent; auto. }
  assert (He' : entries_ok e').
  { split_and!; [by rewrite Hd'| |].
    - apply (maps_along_last e' at_ h VUndef). by apply (maps_along_app e' (at_ ++ [h]) [str f]).
    - intros q Hq. destruct (Hent q Hq) as [E1 E2]. destruct (Hother q Hq) as [H1 H2]. split; [by rewrite Gk|].
      destruct (decide (hashed_key q = h)) as [->|Hh]; [done|by rewrite Gk]. }
  destruct (values_read e sent_xml He) as (before & Hb & Vb), (values_read e' sent_xml He') as (after & Ha & Va).
  destruct (parameter_read_one e' p He' Hp) as [Hread Hid].
  (* the field set, and the others *)
  assert (Mset : map_get (with_entered (fields (Some p)) (get_in e' (at_ ++ [dotted_key p])) (get_in e' (at_ ++ [hashed_key p]))) (str f) = Some v).
  { rewrite with_entered_get; [|done|by apply He'|by apply He']. fold h. rewrite Ex. cbn [fields]. by rewrite Ey. }
  assert (Vset : value_in e' p f = v) by (unfold value_in; by rewrite Mset).
  assert (Vsame : ∀ q g, q ∈ ps -> ~ (q = p /\ f = g) -> value_in e' q g = value_in e q g).
  { intros q g Hq Hn. destruct (Hother q Hq) as [H1 H2]. destruct (Hent q Hq) as [E1 E2]. destruct (param_map q Hq) as [_ Hqn]. unfold value_in. rewrite (Gk (dotted_key q)) by done.
    destruct (decide (hashed_key q = h)) as [Eh|Hh]; [|by rewrite Gk]. rewrite !with_entered_get; [|done|done|done|done|done|by rewrite Eh].
    rewrite Eh, Ex. cbn [fields]. rewrite Gx; [done|]. intros Eg%str_inj. apply Hn. split; [by apply H2|done]. }
  eexists e', _, before, after. split_and!; [|exact Hb|exact Ha| |exact Hread| |exact Hid|done].
  - unfold UiSpec.reduce, changeParamByIdentity. destruct (map_is p Hpm) as (op & mp & Ep). rewrite Ep at 1. cbn [isIterable truthy negb andb].
    rewrite hash_key_map by done. cbn [result_bind]. rewrite <- app_assoc in Hset. exact Hset.
  - intros q Hq. rewrite Va, Vb by done. case_bool_decide as Hc.
    + destruct Hc as [-> Hc]. fold f in Hc. by rewrite <- Hc, Vset.
    + rewrite Vsame; [done|done|]. intros [-> Hg]. by apply Hc.
  - exact Mset.
Qed.
End operation.
End parameters.

(** A state with a specification read. *)
Definition sample_state : value := VMap false [(str "json", fromJSOrdered sample_json)].
Definition sample_path : list value := [str "/p"; str "get"].
Definition sample_spec : value := Eval vm_compute in match specJsonWithResolvedSubtrees sample_state with Ok d => d | Throw _ => VUndef end.
Definition sample_operation : value :=
  Eval vm_compute in match getIn sample_spec (str "paths" :: sample_path) emptyOrderedMap with Ok o => o | Throw _ => VUndef end.
Definition sample_list : list value :=
  Eval vm_compute in match map_get (fields (Some sample_operation)) (str "parameters") with Some (VList l) => l | _ => [] end.
Definition sample_id : value := fromJSOrdered (sample_param "id" "query" [(js "type", str "integer"); (js "required", VBool true)]).

Lemma change_param_read_witness : ∃ e' m before after,
  reduce (λ _ _, Ok true) (λ _, true) (λ _, 0) sample_state (changeParamByIdentity sample_path sample_id (VNum 7) VUndef) = Ok e' /\
  parameterValues (λ _, 0) sample_state sample_path (VBool true) = Ok (VMap false before) /\
  parameterValues (λ _, 0) e' sample_path (VBool true) = Ok (VMap false after) /\
  (∀ q, q ∈ sample_list -> map_get after (value_key q) =
     if bool_decide (q = sample_id /\ field_set VUndef = field_read (VBool true) sample_id) then Some (VNum 7) else map_get before (value_key q)) /\
  parameterWithMetaByIdentity (λ _, 0) e' sample_path sample_id = Ok (VMap true m) /\ map_get m (str (field_set VUndef)) = Some (VNum 7) /\
  identity (VMap true m) = identity sample_id /\ specJsonWithResolvedSubtrees e' = specJsonWithResolvedSubtrees sample_state.
Proof.
  eapply (change_param_read (λ _ _, Ok true) (λ _, true) (λ _, 0) sample_spec (str "/p") (str "get") sample_list true (fields (Some sample_operation))).
  - vm_compute. reflexivity.
  - vm_compute. reflexivity.
  - repeat (apply Forall_cons; split; [eexists _, _; split; [reflexivity|apply (bool_decide_unpack _); vm_compute; exact I]|]). apply Forall_nil_2.
  - apply (bool_decide_unpack _). vm_compute. exact I.
  - split; [vm_compute; reflexivity|]. split; [cbn; split; [apply NoDup_singleton|exact I]|]. intros q _. split; exact I.
  - cbn. split; [apply NoDup_singleton|exact I].
  - apply (bool_decide_unpack _). vm_compute. exact I.
  - intros q Hq. repeat (apply elem_of_cons in Hq as [->|Hq]; [split; [intros E; vm_compute in E; discriminate E|first [reflexivity|intros E; exfalso; vm_compute in E; discriminate E]]|]).
    by apply not_elem_of_nil in Hq.
Defined.

(** ** Validation before execution *)

Section validation.
Variable regexp_test : list Z -> list Z -> result bool.
Variable is_date : list Z -> bool.
Variable object_hash : value -> Z.
Abbreviation reduce := (reduce regexp_test is_date object_hash).
Abbreviation validateParam := (UiUtils.validateParam regexp_test is_date).

(** Without complaints, or with none looked at yet. *)
Definition clean (x : value) : bool :=
  match x with VMap _ m => match map_get m (str "errors") with None => true | Some (VList []) => true | _ => false end | _ => false end.
Definition errors_are (x : value) (l : list value) : Prop := ∃ o m, x = VMap o m /\ map_get m (str "errors") = Some (VList l).

(** One validated parameter. *)
Lemma validate_one_ok l o oc c p k errs : (∀ j x, map_get c j = Some x -> isMap x = true) ->
  validateParam p l o = Ok errs -> param_key p = Ok k ->
  ∃ x, validate_one regexp_test is_date l o (VMap oc c) p = Ok (VMap oc (map_set c k x)) /\ errors_are x (fromJS <$> errs).
Proof.
  intros Hc Hv Hk. unfold validate_one. rewrite Hv, Hk. cbn [result_bind].
  destruct (UiAuth.setIn_two oc c k (str "errors") (fromJS (VArr errs))) as (o' & m' & -> & _).
  { destruct (map_get c k) eqn:E; [by apply (Hc k)|done]. }
  eexists. split; [done|]. exists o', (map_set m' (str "errors") (fromJS (VArr errs))). split; [done|]. by rewrite map_get_set, decide_True.
Qed.

(** All of them, with keys of their own. *)
Lemma validate_all_ok l o oc c ps ks es : (∀ j x, map_get c j = Some x -> isMap x = true) -> NoDup ks -> NoDup (keys c) ->
  Forall2 (λ p k, param_key p = Ok k) ps ks -> Forall2 (λ p errs, validateParam p l o = Ok errs) ps es ->
  ∃ c', foldR (validate_one regexp_test is_date l o) (VMap oc c) ps = Ok (VMap oc c') /\ NoDup (keys c') /\
    (∀ j x, map_get c' j = Some x -> isMap x = true) /\
    (∀ j, j ∉ ks -> map_get c' j = map_get c j) /\
    Forall2 (λ k errs, ∃ x, map_get c' k = Some x /\ errors_are x (fromJS <$> errs)) ks es.
Proof.
  intros Hc Hks Hn Hk. revert c es Hc Hks Hn. induction Hk as [|p k ps ks Hk _ IH]; intros c es Hc Hks Hn Hes.
  { inversion Hes. exists c. split_and!; try done; constructor. }
  inversion Hes as [|p' errs ps' es' Hp Hes']; subst. apply NoDup_cons in Hks as [Hkn Hks].
  destruct (validate_one_ok l o oc c p k errs Hc Hp Hk) as (x & Hx & Ex).
  assert (Hc1 : ∀ j y, map_get (map_set c k x) j = Some y -> isMap y = true).
  { intros j y. rewrite map_get_set. destruct (decide (j = k)); [|by apply Hc]. intros [= <-]. by destruct Ex as (? & ? & -> & _). }
  destruct (IH (map_set c k x) es' Hc1 Hks (map_set_nodup c k x Hn) Hes') as (c' & Hf & Hn' & Hm' & Ho & Hall). exists c'. split_and!; try done.
  - cbn [foldR]. rewrite Hx. exact Hf.
  - intros j Hj. rewrite Ho by set_solver. rewrite map_get_set. rewrite decide_False; [done|set_solver].
  - constructor; [|done]. exists x. split; [|done]. by rewrite Ho, map_get_set, decide_True.
Qed.

(** What the test before execution finds. *)
Lemma test_step x l n : errors_are x l ->
  (let! y := get x "errors" in let! b := counted y in Ok (if b then false else n)) = Ok (match l with [] => n | _ => false end).
Proof. intros (o & m & -> & E). rewrite get_map, E. by destruct l. Qed.
Lemma test_clean x n : clean x = true ->
  (let! y := get x "errors" in let! b := counted y in Ok (if b then false else n)) = Ok n.
Proof.
  destruct x as [| | | | |o m| | | |]; try done. rewrite get_map. cbn [clean]. destruct (map_get m (str "errors")) as [[| | | | | |[]| | |]|]; done.
Qed.
(** The entries are clean, or hold a list of complaints. *)
Lemma test_all vs n : Forall (λ x, clean x = true \/ ∃ l, errors_are x l) vs ->
  foldR (λ n e, let! x := get e "errors" in let! b := counted x in Ok (if b then false else n)) n vs = Ok (n && forallb clean vs).
Proof.
  revert n. induction vs as [|x vs IH]; intros n H; [by rewrite andb_true_r|]. apply Forall_cons in H as [Hx H]. cbn [foldR forallb].
  destruct (clean x) eqn:Ec.
  - rewrite (test_clean x n Ec). cbn [result_bind]. by apply IH.
  - destruct Hx as [|[l Hl]]; [done|]. rewrite (test_step x l n Hl). cbn [result_bind]. destruct l as [|y l].
    + destruct Hl as (o & m & -> & E). cbn in Ec. by rewrite E in Ec.
    + rewrite IH by done. by rewrite andb_false_r.
Qed.
Definition entered_clean (x : option value) : Prop :=
  match x with
  | None => True
  | Some v => ∃ o c, v = VMap o c /\ NoDup (keys c) /\ (∀ j y, map_get c j = Some y -> clean y = true)
  end.
Definition no_errors (l : list value) : bool := match l with [] => true | _ => false end.

Lemma clean_map y : clean y = true -> isMap y = true.
Proof. by destruct y. Qed.
Lemma errors_are_clean x l : errors_are x (fromJS <$> l) -> clean x = no_errors l.
Proof. intros (o & m & -> & E). cbn [clean]. rewrite E. by destruct l. Qed.
Lemma get_of_elem m k x : NoDup (keys m) -> (k, x) ∈ m -> map_get m k = Some x.
Proof.
  induction m as [|[j y] m IH]; [by intros _ ?%not_elem_of_nil|]. cbn. intros [Hj Hn]%NoDup_cons [E|Hin]%elem_of_cons.
  - injection E as -> ->. by rewrite decide_True.
  - rewrite decide_False; [by apply IH|]. intros ->. apply Hj. by apply (list_elem_of_fmap_2 fst m (j, x)).
Qed.

(** The entries after validation are clean exactly when nothing was complained about. *)
Lemma all_clean c c' ks es : NoDup (keys c') -> (∀ j y, map_get c j = Some y -> clean y = true) ->
  (∀ j, j ∉ ks -> map_get c' j = map_get c j) ->
  Forall2 (λ k errs, ∃ x, map_get c' k = Some x /\ errors_are x (fromJS <$> errs)) ks es ->
  Forall (λ x, clean x = true \/ ∃ l, errors_are x l) (snd <$> c') /\ forallb clean (snd <$> c') = forallb no_errors es.
Proof.
  intros Hn Hc Ho Hall.
  assert (Hin : ∀ k x, (k, x) ∈ c' -> clean x = true \/ ∃ i errs, ks !! i = Some k /\ es !! i = Some errs /\ errors_are x (fromJS <$> errs)).
  { intros k x Hx. apply get_of_elem in Hx; [|done]. destruct (decide (k ∈ ks)) as [Hk|Hk].
    - right. apply list_elem_of_lookup in Hk as [i Hi]. destruct (Forall2_lookup_l _ _ _ _ _ Hall Hi) as (errs & He & y & Hy & Ey).
      exists i, errs. rewrite Hx in Hy. by injection Hy as ->.
    - left. apply (Hc k). by rewrite <- Ho. }
  split.
  - apply Forall_fmap, Forall_forall. intros [k x] Hx. cbn. destruct (Hin k x Hx) as [|(i & errs & _ & _ & E)]; [by left|right; by eexists].
  - apply eq_true_iff_eq. rewrite !forallb_forall. split.
    + intros H errs He%list_elem_of_In%list_elem_of_lookup. destruct He as [i Hi].
      destruct (Forall2_lookup_r _ _ _ _ _ Hall Hi) as (k & Hk & x & Hx & Ex). rewrite <- (errors_are_clean x errs Ex). apply H, list_elem_of_In.
      apply (list_elem_of_fmap_2 snd c' (k, x)). by apply ImmEq.get_elem.
    + intros H x Hx%list_elem_of_In. apply list_elem_of_fmap in Hx as ([k y] & -> & Hx). cbn. destruct (Hin k y Hx) as [|(i & errs & _ & He & E)]; [done|].
      rewrite (errors_are_clean y errs E). apply H, list_elem_of_In. by eapply list_elem_of_lookup_2.
Qed.

(** C29. An operation passes the test before execution exactly when its
    parameters are valid: after [validateParams], [validateBeforeExecute] is
    true if and only if [validateParam] has nothing to say about any parameter
    of the operation (parameters with names and places of their own, and no
    complaints left from elsewhere). *)
Theorem validate_gate e t n iso i c op ps ks es : let at_ := meta_path [t; n] ++ [str "parameters"] in
  maps_along (Some e) at_ -> entered_clean (get_in e at_) ->
  getIn e (meta_path [t; n]) emptyMap = Ok i -> get i "consumes_value" = Ok c ->
  operationWithMeta object_hash e t n = Ok op -> get_or op (str "parameters") emptyList = Ok (VList ps) -> ps <> [] ->
  Forall2 (λ p k, param_key p = Ok k) ps ks -> NoDup ks ->
  Forall2 (λ p errs, validateParam p (is_xml c) (truthy iso) = Ok errs) ps es ->
  ∃ e', reduce e (validateParams [t; n] iso) = Ok e' /\ validateBeforeExecute e' [t; n] = Ok (forallb no_errors es).
Proof.
  intros at_ Hm Hcl Hi Hc Hop Hps Hne Hks Hnd Hes.
  assert (Hcur : ∃ o c0, default emptyMap (get_in e at_) = VMap o c0 /\ NoDup (keys c0) /\ (∀ j y, map_get c0 j = Some y -> clean y = true)).
  { destruct (get_in e at_) as [v|]; [destruct Hcl as (o & c0 & -> & H1 & H2); by exists o, c0|]. exists false, []. split_and!; [done|apply NoDup_nil_2|done]. }
  destruct Hcur as (o & c0 & Hcur & Hn0 & Hc0).
  destruct (validate_all_ok (is_xml c) (truthy iso) o c0 ps ks es) as (c' & Hf & Hn' & _ & Ho & Hall); [|done|done|done|done|].
  { intros j x Hx. by apply clean_map, (Hc0 j). }
  destruct (all_clean c0 c' ks es Hn' Hc0 Ho Hall) as [Hvals Hres].
  destruct (updateIn_spec e at_ emptyMap (λ e, let! ps := get_or op (str "parameters") emptyList in
    let! ts := values_of ps "reduce" in foldR (validate_one regexp_test is_date (is_xml c) (truthy iso)) e ts) (VMap o c')) as (e' & He' & Hr & _); [done|done| | |].
  - rewrite Hps. cbn [result_bind values_of]. by rewrite Hcur.
  - intros _ E. injection E as _ ->. destruct Hall as [|k errs ks' es' (x & Hx & _) _]; [|done]. by inversion Hks; subst.
  - exists e'. split.
    + unfold UiSpec.reduce, validateParams. rewrite Hi. cbn [result_bind]. rewrite Hc. cbn [result_bind first_two].
      change (default VUndef ([t; n] !! 0%nat)) with t. change (default VUndef ([t; n] !! 1%nat)) with n. rewrite Hop. exact He'.
    + unfold validateBeforeExecute, getIn. fold at_. assert (Hg : has_get e' = true) by (by destruct e').
      rewrite Hg, Hr. cbn [result_bind]. change (default emptyList (Some (VMap o c'))) with (VMap o c'). cbn [values_of result_bind].
      rewrite test_all by done. by rewrite Hres.
Qed.
End validation.

Definition ok_or {A} (d : A) (r : result A) : A := match r with Ok x => x | Throw _ => d end.
Definition sample_op : value := Eval vm_compute in ok_or VUndef (operationWithMeta (λ _, 0) sample_state (str "/p") (str "get")).
Definition sample_params : list value :=
  Eval vm_compute in ok_or [] (let! ps := get_or sample_op (str "parameters") emptyList in values_of ps "reduce").

Lemma validate_gate_witness : ∃ e',
  reduce (λ _ _, Ok true) (λ _, true) (λ _, 0) sample_state (validateParams sample_path (VBool false)) = Ok e' /\
  validateBeforeExecute e' sample_path = Ok false.
Proof.
  apply (validate_gate (λ _ _, Ok true) (λ _, true) (λ _, 0) sample_state (str "/p") (str "get") (VBool false) emptyMap VUndef
    sample_op sample_params [str "id.query"; str "q.query"] [[str "Required field is not provided"]; []]).
  - cbn. split; [apply NoDup_singleton|exact I].
  - exact I.
  - vm_compute. reflexivity.
  - reflexivity.
  - vm_compute. reflexivity.
  - vm_compute. reflexivity.
  - done.
  - repeat constructor; vm_compute; reflexivity.
  - apply (bool_decide_unpack _). vm_compute. exact I.
  - repeat constructor; vm_compute; reflexivity.
Defined.

End UiSpecOk.
