(* ===== verification/UiPlugins.v ===== *)
(** The plugins of Swagger UI and how the system is put together from them, in
    the bundle client/docs/swagger-ui/swagger-ui-bundle.js: deep-extend (lines
    6817-6848), the merging of a plugin into the system (22216-22238), the
    registration of plugins (21968-21996), and what the system offers: actions
    and selectors with their wrappers and the components (22062-22196).

    Plugins and the system are trees of plain objects and arrays whose leaves are
    values and functions ([F]); no object occurs twice in them, the names are not
    indices of arrays, and no object of names is an array. Merging changes the
    system and the plugin it is given, so both are results. The texts of the
    source that are methods every object inherits are not names of plugins. *)

From stdpp Require Import base list list_numbers numbers strings gmap.
From Stdlib Require Import ZArith Lia.
From S2P Require Import Prelude.

Module UiPlugins.

Section plugins.
Context {F : Type}.

(** ** Trees *)

Inductive pv :=
  | PUndef
  | PNull
  | PBool (b : bool)
  | PNum (z : Z)
  | PStr (s : list Z)
  | PFun (f : F)
  | PArr (l : list pv)
  | PObj (o : list (list Z * pv)).

Abbreviation obj := (list (list Z * pv)).

Definition truthy (v : pv) : bool :=
  match v with
  | PUndef | PNull => false
  | PBool b => b
  | PNum z => negb (z =? 0)
  | PStr s => match s with [] => false | _ => true end
  | PFun _ | PArr _ | PObj _ => true
  end.
Definition isObject (v : pv) : bool := match v with PArr _ | PObj _ => true | _ => false end.
Definition as_list (v : pv) : list pv := match v with PArr l => l | v => [v] end.

Fixpoint lookup (o : obj) (k : list Z) : option pv :=
  match o with (k', v) :: o => if decide (k = k') then Some v else lookup o k | [] => None end.
Fixpoint put (o : obj) (k : list Z) (v : pv) : obj :=
  match o with
  | (k', v') :: o => if decide (k = k') then (k, v) :: o else (k', v') :: put o k v
  | [] => [(k, v)]
  end.
Definition del (o : obj) (k : list Z) : obj := filter (λ kv, kv.1 ≠ k) o.
(** [v[k]] *)
Definition get (v : pv) (k : list Z) : pv := match v with PObj o => default PUndef (lookup o k) | _ => PUndef end.
(** [v[k1][k2]... = x], where the objects on the way are there. *)
Fixpoint put_in (v : pv) (p : list (list Z)) (x : pv) : pv :=
  match p, v with
  | [], _ => x
  | k :: p, PObj o => PObj (put o k (put_in (default PUndef (lookup o k)) p x))
  | _ :: _, _ => v
  end.
(** [delete v[k]] *)
Definition del_name (v : pv) (k : list Z) : pv := match v with PObj o => PObj (del o k) | _ => v end.
Definition members (v : pv) : obj := match v with PObj o => o | _ => [] end.

(** ** deep-extend *)

Definition proto : list Z := js "__proto__".

(** The loop over the names of [u]; [f] merges two members. *)
Definition extend_members (f : pv -> pv -> pv) : obj -> obj -> obj :=
  fix go a u :=
    match u with
    | [] => a
    | (s, e) :: u => go (if decide (s = proto) then a else put a s (f (default PUndef (lookup a s)) e)) u
    end.
(** What replaces [old] when [new] is merged over it: objects are merged, arrays
    and the objects in them are copied. *)
Fixpoint extend (old new : pv) : pv :=
  match new with
  | PObj u => PObj (extend_members extend (members old) u)
  | PArr l => PArr (extend PUndef <$> l)
  | v => v
  end.
(** The whole function, for an object [a]. *)
Definition deepExtend (a u : pv) : pv := match u with PObj _ => extend a u | _ => a end.

(** ** Merging of a plugin *)

Definition statePlugins : list Z := js "statePlugins".
Definition wrapActions : list Z := js "wrapActions".
Definition wrapSelectors : list Z := js "wrapSelectors".
Definition components : list Z := js "components".
Definition wrapComponents : list Z := js "wrapComponents".

(** The wrappers of components go to the components that are there. *)
Fixpoint wrap_components (ws : obj) (e t : pv) : pv * pv :=
  match ws with
  | [] => (e, t)
  | (r, n) :: ws =>
      let o := get (get e components) r in
      if truthy o then
        wrap_components ws (put_in e [components; r] (PArr (as_list o ++ [n])))
          (put_in t [wrapComponents] (del_name (get t wrapComponents) r))
      else wrap_components ws e t
  end.

Definition extend_components (e t : pv) : pv * pv :=
  let w := get t wrapComponents in
  if truthy w then
    let '(e, t) := wrap_components (members w) e t in
    (e, match members (get t wrapComponents) with [] => del_name t wrapComponents | _ => t end)
  else (e, t).

(** The wrappers that the system has for the actions of the plugin [o] are put
    before those of the new plugin. *)
Fixpoint extend_wraps (o : list Z) (a : obj) (t : pv) : obj * pv :=
  match a with
  | [] => ([], t)
  | (u, s) :: a =>
      let s := as_list s in
      let x := get (get (get (get t statePlugins) o) wrapActions) u in
      let t := if truthy x then put_in t [statePlugins; o; wrapActions; u] (PArr (s ++ as_list x)) else t in
      let '(a, t) := extend_wraps o a t in
      ((u, PArr s) :: a, t)
  end.
Fixpoint extend_actions (n : obj) (t : pv) : obj * pv :=
  match n with
  | [] => ([], t)
  | (o, i) :: n =>
      let '(i, t) := match get i wrapActions with
                     | PObj a => let '(a, t) := extend_wraps o a t in (put_in i [wrapActions] (PObj a), t)
                     | _ => (i, t)
                     end in
      let '(n, t) := extend_actions n t in
      ((o, i) :: n, t)
  end.

(** The system and the plugin after the merge. *)
Definition systemExtend (e t : pv) : pv * pv :=
  if negb (isObject e) then (PObj [], t)
  else if negb (isObject t) then (e, t)
  else
    let '(e, t) := extend_components e t in
    let '(e, t) := match get e statePlugins with
                   | PObj n => let '(n, t) := extend_actions n t in (put_in e [statePlugins] (PObj n), t)
                   | _ => (e, t)
                   end in
    (deepExtend e t, t).

(** ** What an [afterLoad] function of the page does

    The one of the bundle (the plugin of the authorizations) makes sure that the
    system has the object [rootInjects] and puts functions into it; an exception
    on the way, which the caller of [afterLoad] catches, leaves it with fewer. *)
Definition rootInjects : list Z := js "rootInjects".
Definition put_all (o add : obj) : obj := foldl (λ o kv, put o kv.1 kv.2) o add.
Definition write_injects (add : obj) (t : pv) : pv :=
  let r := get t rootInjects in
  put_in t [rootInjects] (match (if truthy r then r else PObj []) with PObj o => PObj (put_all o add) | r => r end).

(** ** Registration *)

Section register.
(** The bound system, how it is built, and what [afterLoad] does to the system. *)
Context {B : Type} (build : pv -> B) (after_load : F -> B -> pv -> pv).

Inductive plugin :=
  | PlugObj (o : obj)
  | PlugFun (f : B -> plugin)
  | PlugArr (l : list plugin)
  | PlugOther.

(** [reduce(w, {})]: the merge of the parts, and the parts after it. *)
Fixpoint reduce_plugins (acc : pv) (l : list pv) : pv * list pv :=
  match l with
  | [] => (acc, [])
  | t :: l => let '(acc, t) := systemExtend acc t in let '(acc, l) := reduce_plugins acc l in (acc, t :: l)
  end.

(** The tree that a plugin stands for, and the plugin after this tree was
    changed; a function makes a new tree in each call. *)
Fixpoint combine (n : B) (t : plugin) : pv * (pv -> plugin) :=
  match t with
  | PlugObj o => (PObj o, λ v, PlugObj (members v))
  | PlugFun f => ((combine n (f n)).1, λ _, PlugFun f)
  | PlugArr l =>
      let rs := (fix go l := match l with [] => [] | t :: l => combine n t :: go l end) l in
      let '(acc, ts) := reduce_plugins (PObj []) rs.*1 in
      (acc, λ _, PlugArr (zip_with (λ r t, r.2 t) rs ts))
  | PlugOther => (PObj [], λ _, PlugOther)
  end.

(** [afterLoad] of the plugins; the result says whether to build the system
    again. *)
Fixpoint load (n : B) (t : plugin) (hasLoaded : bool) (s : pv) : pv * bool :=
  match t with
  | PlugObj o => match get (PObj o) (js "afterLoad") with PFun f => (after_load f n s, true) | _ => (s, hasLoaded) end
  | PlugFun f => load n (f n) hasLoaded s
  | PlugArr l => ((fix go l s := match l with [] => s | t :: l => go l (load n t hasLoaded s).1 end) l s, true)
  | PlugOther => (s, hasLoaded)
  end.

Record system := System { tree : pv; bound : B }.

(** [register], with the plugin after it. *)
Definition register (s : system) (e : plugin) (rebuild : bool) : system * plugin :=
  let '(n, after) := combine (bound s) e in
  let '(t, n) := systemExtend (tree s) n in
  let b := if rebuild then build t else bound s in
  let '(t, again) := load b (after n) false t in
  (System t (if again then build t else b), after n).
End register.

(** ** What the system offers *)

Section bound.
(** The values of the page, its state, calls of functions with values, calls of
    wrappers [n(e, getSystem())], which return a function, and the dispatch of
    the store. *)
Context {V S : Type}.
Abbreviation fn := (list V -> S -> S * result V).
Context (call : F -> fn) (wrapper : F -> fn -> S -> S * result fn) (dispatch : V -> S -> S * result V).
Context (null : V) (thrown_err : exn -> V) (as_function : V -> option F) (getSystem : S -> V) (getIn : list Z -> S -> V).

(** A call in [try], with [null] for an exception. *)
Definition safe (e : fn) : fn := λ args s, match e args s with (s, Throw _) => (s, Ok null) | r => r end.

(** [getType]: the tables of one kind, under the name of the plugin followed by
    the kind with a capital. *)
Definition capital (e : list Z) : list Z := match e with c :: e => (if (97 <=? c) && (c <=? 122) then c - 32 else c) :: e | [] => [] end.
Definition getType (sys : pv) (e : list Z) : obj :=
  foldl (λ a rn, let i := get rn.2 e in if truthy i then put a (rn.1 ++ capital e) i else a) [] (members (get sys statePlugins)).
Definition getSelectors (sys : pv) : obj := getType sys (js "selectors").
(** Only functions are actions. *)
Definition functions (e : obj) : list (list Z * F) := omap (λ kv, match kv.2 with PFun f => Some (kv.1, f) | _ => None end) e.
Definition getActions (sys : pv) : list (list Z * list (list Z * F)) :=
  (λ kv, (kv.1, functions (members kv.2))) <$> getType sys (js "actions").

(** An action creator bound to the dispatch of the store: an exception becomes
    an action of the error log. *)
Definition bind_action (t : F) : fn := λ args s,
  let '(s, r) := call t args s in
  dispatch (match r with Ok e => e | Throw x => thrown_err x end) s.

(** One wrapper around an action. *)
Definition wrap_action (e : fn) (n : F) : fn :=
  safe (λ args s, let '(s, g) := wrapper n e s in match g with Ok g => g args s | Throw x => (s, Throw x) end).
(** The wrappers that are functions; calling another value throws. *)
Definition not_function : exn := TypeError (js "is not a function").
Definition wrap_with (wrap : fn -> F -> fn) (thrown : fn) (e : fn) (n : pv) : fn := match n with PFun n => wrap e n | _ => thrown end.
Definition wrap_all (wrap : fn -> F -> fn) (thrown : fn) (r : pv) (u : list Z) (e : fn) : fn :=
  let o := get r u in if truthy o then foldl (wrap_with wrap thrown) e (as_list o) else e.

Definition drop_last (k : nat) (n : list Z) : list Z := take (length n - k) n.

(** The actions of one plugin, with their wrappers. *)
Definition wrapped_actions (sys : pv) (name : list Z) (acts : list (list Z * F)) : list (list Z * fn) :=
  let r := get (get (get sys statePlugins) (drop_last 7 name)) wrapActions in
  (λ uf : list Z * F, (uf.1, wrap_all wrap_action (safe (λ _ s, (s, Throw not_function))) r uf.1 (bind_action uf.2))) <$> acts.
Definition getWrappedAndBoundActions (sys : pv) : list (list Z * list (list Z * fn)) :=
  (λ tn : list Z * list (list Z * F), (tn.1, wrapped_actions sys tn.1 tn.2)) <$> getActions sys.

(** A selector bound to the slice of its plugin; a function it returns is called
    with the system. *)
Definition bind_selector (o : list Z) (n : pv) : fn := λ args s,
  match n with
  | PFun f =>
      match safe (call f) (getIn o s :: args) s with
      | (s, Ok u) => match as_function u with Some g => safe (call g) [getSystem s] s | None => (s, Ok u) end
      | r => r
      end
  | _ => (s, Throw not_function)
  end.
Definition wrap_selector (o : list Z) (t : fn) (r : F) : fn := λ args s,
  let '(s, g) := wrapper r t s in match g with Ok g => g (getIn o s :: args) s | Throw x => (s, Throw x) end.

(** The selectors of one plugin, with their wrappers. *)
Definition wrapped_selectors (sys : pv) (name : list Z) (sels : pv) : list (list Z * fn) :=
  let o := drop_last 9 name in
  let i := get (get (get sys statePlugins) o) wrapSelectors in
  (λ un : list Z * pv, (un.1, wrap_all (wrap_selector o) (λ _ s, (s, Throw not_function)) i un.1 (bind_selector o un.2))) <$> members sels.
Definition getWrappedAndBoundSelectors (sys : pv) : list (list Z * list (list Z * fn)) :=
  (λ tn : list Z * pv, (tn.1, wrapped_selectors sys tn.1 tn.2)) <$> getSelectors sys.

(** [getComponents(e)]: an array is a component followed by its wrappers. *)
Definition getComponents (wrap_component : pv -> pv -> S -> S * result pv) (sys : pv) (e : list Z) (s : S) : S * result pv :=
  match get (get sys components) e with
  | PArr [] => (s, Throw (TypeError (js "Reduce of empty array with no initial value")))
  | PArr (c :: ns) =>
      foldl (λ r n, match r with (s, Ok c) => wrap_component n c s | r => r end) (s, Ok c) ns
  | c => (s, Ok c)
  end.
End bound.
End plugins.

(** ** Examples *)

Definition one (k : string) (v : @pv Z) : @pv Z := PObj [(js k, v)].
Definition wraps (x : Z) : list (list Z * @pv Z) := [(js "wrapComponents", one "Info" (PFun x))].
Definition with_info : @pv Z := one "components" (one "Info" (PFun 0)).
Definition info_chain (s : @pv Z) : list (@pv Z) := as_list (get (get s components) (js "Info")).

(** Of two plugins that wrap the same component, registered together, only the
    last one wraps it; registered one after the other, both do. *)
Example wrapper_lost :
  let reg s p := (register (λ _, tt) (λ _ _ s, s) (System s tt) p true).1 in
  info_chain (tree (reg with_info (PlugArr [PlugObj (wraps 1); PlugObj (wraps 2)]))) = [PFun 0; PFun 2] /\
  info_chain (tree (reg (tree (reg with_info (PlugObj (wraps 1)))) (PlugObj (wraps 2)))) = [PFun 0; PFun 1; PFun 2].
Proof. vm_compute. by split. Qed.

(** Registering a plugin changes it: its wrapper of a component is gone when it
    is registered in a second system, and the wrappers of actions of the first
    system come along. *)
Example plugin_changed :
  let reg s p := register (λ _, tt) (λ _ _ s, s) (System s tt) p true in
  let acts x := one "statePlugins" (one "spec" (one "wrapActions" (one "updateSpec" (PFun x)))) in
  let p := PlugObj (wraps 1) in
  let q := PlugObj (members (acts 2)) in
  info_chain (tree (reg with_info p).1) = [PFun 0; PFun 1] /\ info_chain (tree (reg with_info (reg with_info p).2).1) = [PFun 0] /\
  get (get (get (get (tree (reg (acts 7) (reg (acts 5) q).2).1) statePlugins) (js "spec")) wrapActions) (js "updateSpec") =
    PArr [PFun 7; PFun 5; PFun 2].
Proof. vm_compute. by repeat split. Qed.

(** The last wrapper is the outermost: here each appends its mark to the result
    of what it wraps. *)
Example wrapped_action :
  let sys := one "statePlugins" (one "spec" (PObj [(js "actions", one "go" (PFun 9)); (js "wrapActions", one "go" (PArr [PFun 1; PFun 2]))])) in
  let call (f : Z) (args : list (list Z)) (s : unit) := (s, Ok (f :: concat args)) in
  let wrapper (n : Z) (e : list (list Z) -> unit -> unit * result (list Z)) (s : unit) :=
    (s, Ok (λ args s, match e args s with (s, Ok v) => (s, Ok (v ++ [n])) | r => r end)) in
  map (λ ta, (ta.1, map (λ uf, (uf.1, (uf.2 [[4]; [5]] tt).2)) ta.2))
    (getWrappedAndBoundActions call wrapper (λ v s, (s, Ok v)) [] (λ _, []) sys) =
  [(js "specActions", [(js "go", Ok [9; 4; 5; 1; 2])])].
Proof. by vm_compute. Qed.

End UiPlugins.
