(* ===== verification/UiPluginsOk.v ===== *)
(** The merging of plugins refines an abstract merge: what a plugin adds is seen
    as the wrappers it has for each action, the chain of each component, the
    wrappers of components that wait, and its other leaves. *)

From stdpp Require Import base list list_numbers numbers strings gmap.
From Stdlib Require Import ZArith Lia.
From S2P Require Import Prelude UiPlugins.

Module UiPluginsOk.
Import UiPlugins.

Section ok.
Context {F : Type}.
Local Abbreviation pv := (@pv F).
Local Abbreviation obj := (list (list Z * pv)).
Local Abbreviation path := (list (list Z)).

(** ** Members *)

Lemma lookup_put (o : obj) k v k' : lookup (put o k v) k' = if decide (k' = k) then Some v else lookup o k'.
Proof.
  induction o as [|[k0 v0] o IH]; cbn [put lookup]; [done|]. destruct (decide (k = k0)) as [<-|Hne]; cbn [lookup]; repeat case_decide; subst; try done.
Qed.
Lemma lookup_in (o : obj) k : k ∈ o.*1 <-> is_Some (lookup o k).
Proof.
  induction o as [|[k0 v0] o IH]; cbn; [split; [by intros ?%not_elem_of_nil|by intros []]|]. rewrite elem_of_cons, IH.
  case_decide; [split; [by eexists|by left]|]. tauto.
Qed.
Lemma put_keys (o : obj) k v : (put o k v).*1 = if decide (k ∈ o.*1) then o.*1 else o.*1 ++ [k].
Proof.
  induction o as [|[k0 v0] o IH]; cbn; [by rewrite decide_False by (apply not_elem_of_nil)|].
  destruct (decide (k = k0)) as [<-|Hne]; cbn; [by rewrite decide_True by left|]. rewrite IH.
  destruct (decide (k ∈ o.*1)); [rewrite decide_True by (by right)|rewrite decide_False by (by intros [?|?]%elem_of_cons)]; done.
Qed.
Lemma put_nodup (o : obj) k v : NoDup o.*1 -> NoDup (put o k v).*1.
Proof.
  intros H. rewrite put_keys. case_decide; [done|]. apply NoDup_app. split_and!; [done| |apply NoDup_singleton].
  intros x Hx ->%list_elem_of_singleton. done.
Qed.
Lemma lookup_del (o : obj) k k' : lookup (del o k) k' = if decide (k' = k) then None else lookup o k'.
Proof.
  induction o as [|[k0 v0] o IH]; [by case_decide|]. unfold del in *. rewrite filter_cons. cbn [fst lookup].
  destruct (decide (k0 ≠ k)) as [Hne|Heq%dec_stable]; cbn [lookup]; rewrite IH; repeat case_decide; by subst.
Qed.
Lemma del_nodup (o : obj) k : NoDup o.*1 -> NoDup (del o k).*1.
Proof. intros H. eapply sublist_NoDup; [exact H|]. apply fmap_sublist, sublist_filter. Qed.

Lemma lookup_extend f (a u : obj) k : NoDup u.*1 -> lookup u proto = None ->
  lookup (extend_members f a u) k = match lookup u k with Some e => Some (f (default PUndef (lookup a k)) e) | None => lookup a k end.
Proof.
  revert a. induction u as [|[s e] u IH]; intros a Hn Hp; [done|]. cbn [extend_members]. fold (extend_members f).
  cbn in Hn. apply NoDup_cons in Hn as [Hs Hn]. cbn [lookup] in Hp |- *. destruct (decide (proto = s)) as [|Hps]; [done|].
  rewrite (decide_False (P := s = proto)) by congruence. rewrite IH, lookup_put by done. destruct (decide (k = s)) as [->|Hne]; [|done].
  destruct (lookup u s) eqn:E; [|done]. destruct Hs. apply lookup_in. by rewrite E.
Qed.
Lemma extend_nodup f (a u : obj) : NoDup a.*1 -> NoDup (extend_members f a u).*1.
Proof.
  revert a. induction u as [|[s e] u IH]; intros a Hn; [done|]. cbn [extend_members]. apply IH. case_decide; [done|by apply put_nodup].
Qed.
Lemma put_end (a : obj) k v : k ∉ a.*1 -> put a k v = a ++ [(k, v)].
Proof. induction a as [|[k0 v0] a IH]; [done|]. cbn. rewrite not_elem_of_cons. intros [? ?]. rewrite decide_False by done. by rewrite IH. Qed.
Lemma extend_copy (f : pv -> pv -> pv) (a u : obj) : NoDup (a.*1 ++ u.*1) -> lookup u proto = None -> (∀ k x, lookup u k = Some x -> f PUndef x = x) ->
  extend_members f a u = a ++ u.
Proof.
  revert a. induction u as [|[s e] u IH]; intros a Hn Hp Hf; [by rewrite app_nil_r|]. cbn [extend_members]. cbn [lookup] in Hp.
  destruct (decide (proto = s)) as [|Hps]; [done|]. rewrite (decide_False (P := s = proto)) by congruence.
  cbn in Hn. apply NoDup_app in Hn as (Ha & Hd & Hu). assert (Hs : s ∉ a.*1) by (intros Hs; apply (Hd s Hs); left).
  destruct (lookup a s) as [x|] eqn:E; [destruct Hs; apply lookup_in; by rewrite E|]. cbn [default].
  rewrite (Hf s e) by (cbn; by rewrite decide_True). rewrite put_end by done. apply NoDup_cons in Hu as [Hsu Hu].
  fold (extend_members f). rewrite IH; [by rewrite <- app_assoc| |done|].
  - rewrite fmap_app. cbn. rewrite <- app_assoc. cbn. apply NoDup_app. split_and!; [done|done|]. by constructor.
  - intros k x Hk. apply (Hf k x). cbn [lookup]. rewrite decide_False; [done|]. intros ->. destruct Hsu. apply lookup_in. by rewrite Hk.
Qed.

(** ** Shapes *)

(** A leaf without objects, the wrappers of an action or a component with its
    wrappers, one function, or an object whose members have the shapes that their
    names give. *)
Inductive shape := Leaf | Wrap | Func | Node (f : list Z -> shape).

Fixpoint plain (v : pv) : bool := match v with PObj _ => false | PArr l => forallb plain l | _ => true end.
Definition is_fun (v : pv) : bool := match v with PFun _ => true | _ => false end.

Fixpoint shaped (s : shape) (v : pv) : bool :=
  match s, v with
  | Leaf, v => plain v
  | Wrap, PArr l => forallb is_fun l
  | Wrap, v | Func, v => is_fun v
  | Node f, PObj o => bool_decide (NoDup o.*1) && bool_decide (proto ∉ o.*1) && forallb (λ kx, shaped (f kx.1) kx.2) o
  | Node _, _ => false
  end.

Lemma lookup_member (o : obj) k x : lookup o k = Some x -> (k, x) ∈ o.
Proof. induction o as [|[k0 v0] o IH]; [done|]. cbn. case_decide; [intros [= ->]; subst; left|right; auto]. Qed.
Lemma member_lookup (o : obj) k x : NoDup o.*1 -> (k, x) ∈ o -> lookup o k = Some x.
Proof.
  induction o as [|[k0 v0] o IH]; [by intros _ ?%not_elem_of_nil|]. cbn. intros [Hk Hn]%NoDup_cons [[= -> ->]|Hin]%elem_of_cons; [by rewrite decide_True|].
  rewrite decide_False; [auto|]. intros ->. apply Hk, list_elem_of_fmap. by exists (k0, x).
Qed.
Lemma no_proto (o : obj) : proto ∉ o.*1 <-> lookup o proto = None.
Proof. rewrite lookup_in. destruct (lookup o proto); split; [intros H; destruct H; by eexists|done|done|by intros _ []]. Qed.

Lemma shaped_node f v : shaped (Node f) v = true <->
  ∃ o, v = PObj o /\ NoDup o.*1 /\ lookup o proto = None /\ ∀ k x, lookup o k = Some x -> shaped (f k) x = true.
Proof.
  destruct v as [| | | | | | |o]; cbn [shaped]; try (split; [done|by intros (? & ? & _)]). rewrite !andb_true_iff, !bool_decide_eq_true, forallb_forall, no_proto.
  split.
  - intros ((Hn & Hp) & H). exists o. split_and!; try done. intros k x Hx%lookup_member%list_elem_of_In. apply (H _ Hx).
  - intros (o' & [= <-] & Hn & Hp & H). split_and!; try done. intros [k x] Hx%list_elem_of_In. apply H. by apply member_lookup.
Qed.

Lemma extend_plain (v : pv) : plain v = true -> ∀ old, extend old v = v.
Proof.
  revert v. fix IH 1. intros v Hv old. destruct v as [| | | | | |l|o]; try reflexivity; [|discriminate Hv]. cbn [extend]. apply (f_equal PArr).
  cbn [plain] in Hv. induction l as [|x l IHl]; [reflexivity|]. cbn in Hv. apply andb_true_iff in Hv as [Hx Hl].
  cbn [fmap list_fmap]. rewrite (IH x Hx), (IHl Hl). reflexivity.
Qed.
Lemma fun_plain l : forallb is_fun l = true -> forallb plain l = true.
Proof. induction l as [|x l IH]; [done|]. cbn. rewrite !andb_true_iff. intros [H1 H2]. split; [by destruct x|auto]. Qed.
Lemma leaf_plain s v : (∀ f, s ≠ Node f) -> shaped s v = true -> plain v = true.
Proof. intros Hs. destruct s, v; cbn; try done; try (by apply fun_plain). by destruct (Hs f). Qed.

(** Copies and merges. *)
Lemma copy_shaped s : ∀ v, shaped s v = true -> extend PUndef v = v.
Proof.
  induction s as [| | |f IH]; intros v Hv; try (apply extend_plain; eapply leaf_plain; [|exact Hv]; done).
  apply shaped_node in Hv as (o & -> & Hn & Hp & Ho). cbn [extend members]. f_equal. rewrite extend_copy; [done|done|done|].
  intros k x Hx. by eapply IH, Ho.
Qed.
Lemma extend_shaped s : ∀ a u, shaped s a = true -> shaped s u = true -> shaped s (extend a u) = true.
Proof.
  induction s as [| | |f IH]; intros a u Ha Hu; try (rewrite extend_plain; [done|eapply leaf_plain; [|exact Hu]; done]).
  apply shaped_node in Ha as (oa & -> & Hna & Hpa & Ha), Hu as (ou & -> & Hnu & Hpu & Hu). apply shaped_node. cbn [extend members].
  eexists. split_and!; [done|by apply extend_nodup|by rewrite lookup_extend, Hpu by done|].
  intros k x. rewrite lookup_extend by done. destruct (lookup ou k) as [e|] eqn:E; [|by apply Ha]. intros [= <-].
  destruct (lookup oa k) as [y|] eqn:E'; cbn [default]; [apply IH; eauto|]. erewrite copy_shaped; eauto.
Qed.

(** ** Paths *)

Fixpoint find (v : pv) (p : path) : option pv :=
  match p with
  | [] => Some v
  | k :: p => match v with PObj o => match lookup o k with Some x => find x p | None => None end | _ => None end
  end.
Fixpoint shape_at (s : shape) (p : path) {struct p} : option shape :=
  match p with [] => Some s | k :: p => match s with Node f => shape_at (f k) p | _ => None end end.
(** Where a tree of this shape has leaves. *)
Definition is_leaf (s : shape) (p : path) : bool := match shape_at s p with Some (Node _) | None => false | Some _ => true end.

Lemma is_leaf_cons s k p : is_leaf s (k :: p) = true -> ∃ f, s = Node f /\ is_leaf (f k) p = true.
Proof. unfold is_leaf. destruct s; try done. eauto. Qed.
Lemma is_leaf_nil s : is_leaf s [] = true -> ∀ f, s ≠ Node f.
Proof. by intros H f ->. Qed.

Lemma find_extend p : ∀ s a u, shaped s a = true -> shaped s u = true -> is_leaf s p = true ->
  find (extend a u) p = match find u p with Some x => Some x | None => find a p end.
Proof.
  induction p as [|k p IH]; intros s a u Ha Hu Hp.
  { cbn. rewrite extend_plain; [done|]. eapply leaf_plain; [|exact Hu]. by apply is_leaf_nil. }
  apply is_leaf_cons in Hp as (f & -> & Hp). apply shaped_node in Ha as (oa & -> & Hna & Hpa & Ha), Hu as (ou & -> & Hnu & Hpu & Hu).
  cbn [extend members find]. rewrite lookup_extend by done. destruct (lookup ou k) as [e|] eqn:E; [|done].
  destruct (lookup oa k) as [y|] eqn:E'; cbn [default]; [apply (IH (f k)); auto|]. rewrite (copy_shaped (f k)) by eauto. by destruct (find e p).
Qed.

Lemma find_put_in p : ∀ s v q x, shaped s v = true -> is_Some (find v p) -> is_leaf s p = true -> is_leaf s q = true ->
  find (put_in v p x) q = if decide (q = p) then Some x else find v q.
Proof.
  induction p as [|k p IH]; intros s v q x Hv Hf Hp Hq.
  { destruct q as [|j q]; [done|]. apply is_leaf_cons in Hq as (f & -> & _). done. }
  apply is_leaf_cons in Hp as (f & -> & Hp). apply shaped_node in Hv as (o & -> & Hn & Ho & Hv). cbn [find] in Hf. cbn [put_in].
  destruct (lookup o k) as [y|] eqn:E; [cbn [default]|by destruct Hf]. destruct q as [|j q]; [done|]. apply is_leaf_cons in Hq as (f' & [= <-] & Hq).
  cbn [find]. rewrite lookup_put. destruct (decide (j = k)) as [->|Hne]; [|rewrite decide_False by congruence; done].
  rewrite (IH (f k)) by eauto. destruct (decide (q = p)) as [->|]; [by rewrite decide_True|]. rewrite decide_False by congruence. by rewrite E.
Qed.
Lemma put_in_shaped p : ∀ s v x s', shaped s v = true -> is_Some (find v p) -> shape_at s p = Some s' -> shaped s' x = true ->
  shaped s (put_in v p x) = true.
Proof.
  induction p as [|k p IH]; intros s v x s' Hv Hf Hs Hx; [injection Hs as <-; by destruct v|]. destruct s as [| | |f]; try done. cbn [shape_at] in Hs.
  apply shaped_node in Hv as (o & -> & Hn & Ho & Hv). cbn [find] in Hf. destruct (lookup o k) as [y|] eqn:E; [|by destruct Hf].
  apply shaped_node. cbn [put_in]. rewrite E. cbn [default]. eexists. split_and!; [done|by apply put_nodup| |].
  - rewrite lookup_put. rewrite decide_False; [done|]. intros <-. congruence.
  - intros j z. rewrite lookup_put. destruct (decide (j = k)) as [->|]; [|apply Hv]. intros [= <-]. eapply IH; eauto.
Qed.
Lemma find_shaped p : ∀ s v x s', shaped s v = true -> find v p = Some x -> shape_at s p = Some s' -> shaped s' x = true.
Proof.
  induction p as [|k p IH]; intros s v x s' Hv Hf Hs; [cbn in *; by simplify_eq|]. destruct s as [| | |f]; try done.
  apply shaped_node in Hv as (o & -> & _ & _ & Hv). cbn [find] in Hf. destruct (lookup o k) as [y|] eqn:E; [|done]. eapply (IH (f k)); eauto.
Qed.
Lemma get_find p v k : get (default PUndef (find v p)) k = default PUndef (find v (p ++ [k])).
Proof.
  revert v. induction p as [|j p IH]; intros v; cbn [find app]; [by destruct v; cbn; [..|destruct (lookup _ _)]|].
  destruct v; try done. destruct (lookup o j); [apply IH|done].
Qed.

(** ** The shape of plugins and of the system *)

Definition part_shape : shape := Node (λ k,
  if decide (k = wrapActions) then Node (λ _, Wrap)
  else if decide (k ∈ [js "actions"; js "selectors"; js "reducers"; wrapSelectors]) then Node (λ _, Leaf)
  else Leaf).
Definition tree_shape : shape := Node (λ k,
  if decide (k = statePlugins) then Node (λ _, part_shape)
  else if decide (k = components) then Node (λ _, Wrap)
  else if decide (k = wrapComponents) then Node (λ _, Func)
  else if decide (k ∈ [js "fn"; js "rootInjects"; js "configs"]) then Node (λ _, Leaf)
  else Leaf).
Definition well_shaped (v : pv) : bool := shaped tree_shape v.

Definition wrap_path (o u : list Z) : path := [statePlugins; o; wrapActions; u].
Definition comp_path (r : list Z) : path := [components; r].
Definition pend_path (r : list Z) : path := [wrapComponents; r].
(** The other leaves. *)
Definition other_path (q : path) : Prop :=
  is_leaf tree_shape q = true /\ (∀ o u, q ≠ wrap_path o u) /\ (∀ r, q ≠ comp_path r) /\ (∀ r, q ≠ pend_path r).

Lemma wrap_shape o u : shape_at tree_shape (wrap_path o u) = Some Wrap.
Proof. reflexivity. Qed.
Lemma comp_shape r : shape_at tree_shape (comp_path r) = Some Wrap.
Proof. reflexivity. Qed.
Lemma pend_shape r : shape_at tree_shape (pend_path r) = Some Func.
Proof. reflexivity. Qed.
Lemma wrap_leaf o u : is_leaf tree_shape (wrap_path o u) = true.
Proof. reflexivity. Qed.
Lemma comp_leaf r : is_leaf tree_shape (comp_path r) = true.
Proof. reflexivity. Qed.
Lemma pend_leaf r : is_leaf tree_shape (pend_path r) = true.
Proof. reflexivity. Qed.
Hint Resolve wrap_leaf comp_leaf pend_leaf wrap_shape comp_shape pend_shape : core.

Lemma wrap_truthy v : shaped Wrap v = true -> truthy v = true.
Proof. by destruct v. Qed.
Lemma as_list_wrap v : shaped Wrap v = true -> forallb is_fun (as_list v) = true.
Proof. by destruct v. Qed.
Lemma wrap_append v w : shaped Wrap v = true -> shaped Wrap w = true -> shaped Wrap (PArr (as_list v ++ as_list w)) = true.
Proof. intros ?%as_list_wrap ?%as_list_wrap. cbn. by rewrite forallb_app, !andb_true_iff. Qed.

(** Reading the wrappers of an action. *)
Lemma get_wrap t o u : get (get (get (get t statePlugins) o) wrapActions) u = default PUndef (find t (wrap_path o u)).
Proof. change (get t statePlugins) with (get (default PUndef (find t [])) statePlugins). by rewrite !get_find. Qed.
Lemma get_comp t r : get (get t components) r = default PUndef (find t (comp_path r)).
Proof. change (get t components) with (get (default PUndef (find t [])) components). by rewrite !get_find. Qed.

(** *** Wrappers of actions *)

Definition arrays (a : obj) : obj := (λ us, (us.1, PArr (as_list us.2))) <$> a.

Lemma lookup_arrays a u : lookup (arrays a) u = (λ s, PArr (as_list s)) <$> lookup a u.
Proof. induction a as [|[k s] a IH]; [done|]. cbn. by case_decide. Qed.

(** The leaf at [q] with the wrappers [w] put before it. *)
Definition before (w x : option pv) : option pv :=
  match w, x with Some s, Some x => Some (PArr (as_list s ++ as_list x)) | _, x => x end.

Lemma extend_wraps_ok o a : ∀ t, well_shaped t = true -> NoDup a.*1 -> (∀ u s, lookup a u = Some s -> shaped Wrap s = true) ->
  ∃ t', extend_wraps o a t = (arrays a, t') /\ well_shaped t' = true /\
    (∀ u, find t' (wrap_path o u) = before (lookup a u) (find t (wrap_path o u))) /\
    (∀ q, is_leaf tree_shape q = true -> (∀ u, q ≠ wrap_path o u) -> find t' q = find t q).
Proof.
  induction a as [|[u s] a IH]; intros t Ht Hn Ha; [exists t; by split_and!|]. cbn in Hn. apply NoDup_cons in Hn as [Hu Hn].
  assert (Hs : shaped Wrap s = true) by (apply (Ha u); cbn; by rewrite decide_True).
  assert (Ha' : ∀ u s, lookup a u = Some s -> shaped Wrap s = true).
  { intros u' s' H. apply (Ha u'). cbn. rewrite decide_False; [done|]. intros ->. destruct Hu. apply lookup_in. by rewrite H. }
  cbn [extend_wraps]. fold (wrap_path o u). rewrite get_wrap. set (x := find t (wrap_path o u)).
  assert (∃ t1, (if truthy (default PUndef x) then put_in t (wrap_path o u) (PArr (as_list s ++ as_list (default PUndef x))) else t) = t1 /\
    well_shaped t1 = true /\ ∀ q, is_leaf tree_shape q = true -> find t1 q = if decide (q = wrap_path o u) then before (Some s) x else find t q)
    as (t1 & -> & Ht1 & Hq1).
  { eexists. split; [reflexivity|]. destruct x as [y|] eqn:E; unfold x in E.
    - change (default PUndef (Some y)) with y. assert (Hy : shaped Wrap y = true) by (eapply (find_shaped (wrap_path o u) tree_shape); [exact Ht|exact E|reflexivity]). rewrite wrap_truthy by done. split.
      + eapply put_in_shaped; [exact Ht|by rewrite E|reflexivity|by apply wrap_append].
      + intros q Hq. rewrite (find_put_in _ tree_shape); [done|exact Ht|by rewrite E|done|done].
    - split; [done|]. intros q Hq. cbn. case_decide; [by subst|done]. }
  destruct (IH t1 Ht1 Hn Ha') as (t' & -> & Ht' & Hw & Hq). exists t'. split_and!; [done|done| |].
  - intros u'. rewrite Hw, Hq1 by done. cbn [lookup]. destruct (decide (u' = u)) as [->|Hne].
    + rewrite decide_True by done. destruct (lookup a u) eqn:E; [destruct Hu; apply lookup_in; by rewrite E|done].
    + rewrite decide_False; [done|]. by intros [= ->].
  - intros q Hl Hne. rewrite Hq, Hq1 by done. by rewrite decide_False.
Qed.

Definition part_arrays (i : pv) : pv :=
  match get i wrapActions with PObj a => put_in i [wrapActions] (PObj (arrays a)) | _ => i end.
Definition parts_arrays (n : obj) : obj := (λ oi, (oi.1, part_arrays oi.2)) <$> n.

(** The wrappers of a part of a plugin. *)
Lemma part_wraps i : shaped part_shape i = true ->
  match get i wrapActions with
  | PObj a => NoDup a.*1 /\ (∀ u s, lookup a u = Some s -> shaped Wrap s = true) /\ ∀ u, find i [wrapActions; u] = lookup a u
  | _ => ∀ u, find i [wrapActions; u] = None
  end.
Proof.
  intros (o & -> & Hn & Hp & Ho)%shaped_node. cbn [get find]. destruct (lookup o wrapActions) as [w|] eqn:E; [|done].
  change (default PUndef (Some w)) with w. specialize (Ho wrapActions w E). rewrite decide_True in Ho by done.
  apply shaped_node in Ho as (a & -> & Ha & _ & Hs). split_and!; [done|done|]. intros u. by destruct (lookup a u).
Qed.

Lemma extend_actions_ok n : ∀ t, well_shaped t = true -> NoDup n.*1 -> (∀ o i, lookup n o = Some i -> shaped part_shape i = true) ->
  ∃ t', extend_actions n t = (parts_arrays n, t') /\ well_shaped t' = true /\
    (∀ o u, find t' (wrap_path o u) = before (lookup n o ≫= λ i, find i [wrapActions; u]) (find t (wrap_path o u))) /\
    (∀ q, is_leaf tree_shape q = true -> (∀ o u, q ≠ wrap_path o u) -> find t' q = find t q).
Proof.
  induction n as [|[o i] n IH]; intros t Ht Hn Ha; [exists t; by split_and!|]. cbn in Hn. apply NoDup_cons in Hn as [Ho Hn].
  assert (Hi : shaped part_shape i = true) by (apply (Ha o); cbn; by rewrite decide_True).
  assert (Ha' : ∀ o i, lookup n o = Some i -> shaped part_shape i = true).
  { intros o' i' H. apply (Ha o'). cbn. rewrite decide_False; [done|]. intros ->. destruct Ho. apply lookup_in. by rewrite H. }
  assert (∃ t1, match get i wrapActions with
                | PObj a => let '(a, t) := extend_wraps o a t in (put_in i [wrapActions] (PObj a), t)
                | _ => (i, t)
                end = (part_arrays i, t1) /\ well_shaped t1 = true /\
     (∀ u, find t1 (wrap_path o u) = before (find i [wrapActions; u]) (find t (wrap_path o u))) /\
     (∀ q, is_leaf tree_shape q = true -> (∀ u, q ≠ wrap_path o u) -> find t1 q = find t q)) as (t1 & E1 & Ht1 & Hw1 & Hq1).
  { pose proof (part_wraps i Hi) as Hw. unfold part_arrays. destruct (get i wrapActions) as [| | | | | | |a];
      try (exists t; split_and!; try done; intros u; by rewrite Hw).
    destruct Hw as (Hna & Hs & Hf). destruct (extend_wraps_ok o a t Ht Hna Hs) as (t1 & -> & Ht1 & Hw1 & Hq1).
    exists t1. split_and!; try done. intros u. by rewrite Hw1, Hf. }
  cbn [extend_actions]. rewrite E1. destruct (IH t1 Ht1 Hn Ha') as (t' & -> & Ht' & Hw & Hq). exists t'. split_and!; [done|done| |].
  - intros o' u. rewrite Hw. cbn [lookup]. destruct (decide (o' = o)) as [->|Hne].
    + destruct (lookup n o) eqn:E; [destruct Ho; apply lookup_in; by rewrite E|]. apply Hw1.
    + rewrite (Hq1 (wrap_path o' u)); [done|done|]. by intros u' [= ?].
  - intros q Hl Hne. rewrite Hq, Hq1 by done. done.
Qed.

(** *** The system's own wrappers become arrays *)

Lemma part_arrays_ok i : shaped part_shape i = true -> shaped part_shape (part_arrays i) = true /\
  (∀ u, find (part_arrays i) [wrapActions; u] = (λ s, PArr (as_list s)) <$> find i [wrapActions; u]) /\
  ∀ k q, k ≠ wrapActions -> find (part_arrays i) (k :: q) = find i (k :: q).
Proof.
  intros Hi. pose proof (part_wraps i Hi) as Hw. unfold part_arrays. destruct (get i wrapActions) as [| | | | | | |a] eqn:Eg;
    try (split_and!; try done; intros u; by rewrite Hw).
  destruct Hw as (Hna & Hs & Hf). pose proof Hi as (o & -> & Hn & Hp & Ho)%shaped_node. cbn [get] in Eg.
  destruct (lookup o wrapActions) as [w|] eqn:E; [|done]. change (w = PObj a) in Eg. subst w. split_and!.
  - eapply (put_in_shaped [wrapActions]); [exact Hi|cbn [find]; by rewrite E|reflexivity|]. apply shaped_node. exists (arrays a). split_and!; [done| | |].
    + unfold arrays. by rewrite <- list_fmap_compose.
    + specialize (Ho wrapActions _ E). rewrite decide_True in Ho by done. apply shaped_node in Ho as (a' & [= <-] & _ & Hpa & _). by rewrite lookup_arrays, Hpa.
    + intros k x. rewrite lookup_arrays. destruct (lookup a k) as [y|] eqn:Ek; [|done]. intros [= <-]. by apply as_list_wrap, (Hs k).
  - intros u. rewrite Hf. cbn [put_in find]. rewrite lookup_put, decide_True, lookup_arrays by done. by destruct (lookup a u).
  - intros k q Hk. cbn [put_in find]. by rewrite lookup_put, decide_False.
Qed.

Lemma lookup_parts n o : lookup (parts_arrays n) o = part_arrays <$> lookup n o.
Proof. induction n as [|[k s] n IH]; [done|]. cbn. by case_decide. Qed.

Lemma own_arrays_ok e n : well_shaped e = true -> get e statePlugins = PObj n ->
  well_shaped (put_in e [statePlugins] (PObj (parts_arrays n))) = true /\
  (∀ o u, find (put_in e [statePlugins] (PObj (parts_arrays n))) (wrap_path o u) = (λ s, PArr (as_list s)) <$> find e (wrap_path o u)) /\
  (∀ q, is_leaf tree_shape q = true -> (∀ o u, q ≠ wrap_path o u) -> find (put_in e [statePlugins] (PObj (parts_arrays n))) q = find e q).
Proof.
  intros He Eg. pose proof He as (oe & -> & Hn & Hp & Ho)%shaped_node. cbn [get] in Eg.
  destruct (lookup oe statePlugins) as [w|] eqn:E; [|done]. change (w = PObj n) in Eg. subst w.
  pose proof (Ho _ _ E) as Hs. rewrite decide_True in Hs by done. apply shaped_node in Hs as (n' & [= <-] & Hnn & Hnp & Hnx). split_and!.
  - eapply (put_in_shaped [statePlugins]); [exact He|cbn [find]; by rewrite E|reflexivity|]. apply shaped_node. exists (parts_arrays n). split_and!; [done| | |].
    + unfold parts_arrays. by rewrite <- list_fmap_compose.
    + by rewrite lookup_parts, Hnp.
    + intros k x. rewrite lookup_parts. destruct (lookup n k) as [y|] eqn:Ek; [|done]. intros [= <-]. by apply part_arrays_ok, (Hnx k).
  - intros o u. cbn [put_in]. unfold wrap_path. cbn [find]. rewrite lookup_put, decide_True, E by done. rewrite lookup_parts.
    destruct (lookup n o) as [i|] eqn:Ei; [|done]. apply (part_arrays_ok i). eauto.
  - intros q Hl Hne. destruct q as [|k q]; [done|]. cbn [put_in find]. rewrite lookup_put. destruct (decide (k = statePlugins)) as [->|]; [|done].
    rewrite E. destruct q as [|o q]; [done|]. cbn [find]. rewrite lookup_parts. destruct (lookup n o) as [i|] eqn:Ei; [|done]. cbn [fmap option_fmap option_map].
    apply is_leaf_cons in Hl as (f & [= <-] & Hl). rewrite decide_True in Hl by done. apply is_leaf_cons in Hl as (f & [= <-] & Hl).
    destruct q as [|k q]; [done|]. destruct (decide (k = wrapActions)) as [->|Hk]; [|by apply part_arrays_ok; eauto].
    apply is_leaf_cons in Hl as (f & [= <-] & Hl). rewrite decide_True in Hl by done. destruct q as [|u q]; [done|].
    apply is_leaf_cons in Hl as (f & [= <-] & Hl). destruct q as [|? ?]; [by destruct (Hne o u)|]. done.
Qed.

(** *** Wrappers of components *)

Lemma func_append v n : shaped Wrap v = true -> shaped Func n = true -> shaped Wrap (PArr (as_list v ++ [n])) = true.
Proof. intros ?%as_list_wrap ?. cbn. rewrite forallb_app. by rewrite H; cbn; rewrite andb_true_r. Qed.

(** Taking one name out of [wrapComponents]. *)
Definition taken (t : pv) (r : list Z) : pv := put_in t [wrapComponents] (del_name (get t wrapComponents) r).

Lemma taken_ok t r : well_shaped t = true -> is_Some (find t (pend_path r)) -> well_shaped (taken t r) = true /\
  ∀ q, is_leaf tree_shape q = true -> find (taken t r) q = if decide (q = pend_path r) then None else find t q.
Proof.
  intros Ht Hr. pose proof Ht as (o & -> & Hn & Hp & Ho)%shaped_node. unfold taken, pend_path in *. cbn [find get] in *.
  destruct (lookup o wrapComponents) as [w|] eqn:E; [|by destruct Hr]. change (default PUndef (Some w)) with w.
  pose proof (Ho _ _ E) as Hw. change (shaped (Node (λ _, Func)) w = true) in Hw. apply shaped_node in Hw as (a & -> & Ha & Hpa & Hs). split.
  - eapply (put_in_shaped [wrapComponents]); [exact Ht|cbn [find]; by rewrite E|reflexivity|]. apply shaped_node. exists (del a r).
    split_and!; [done|by apply del_nodup|by rewrite lookup_del, Hpa; case_decide|]. intros k x. rewrite lookup_del. case_decide; [done|apply Hs].
  - intros q Hq. destruct q as [|k q]; [done|]. cbn [put_in find del_name]. rewrite lookup_put. destruct (decide (k = wrapComponents)) as [->|Hne].
    2: { rewrite decide_False by congruence. done. }
    apply is_leaf_cons in Hq as (f & [= <-] & Hq). change (is_leaf (Node (λ _, Func)) q = true) in Hq. destruct q as [|j q]; [done|].
    apply is_leaf_cons in Hq as (f & [= <-] & Hq). destruct q as [|? ?]; [|done]. rewrite E. cbn [find]. rewrite lookup_del.
    destruct (decide (j = r)) as [->|]; [by rewrite decide_True|]. rewrite decide_False by congruence. done.
Qed.

(** The chain of a component after the wrappers [w] were added, and the ones
    that wait. *)
Definition chained (c w : option pv) : option pv := match c, w with Some c, Some n => Some (PArr (as_list c ++ [n])) | c, _ => c end.
Definition waiting (c w p : option pv) : option pv := match c, w with Some _, Some _ => None | _, _ => p end.

Lemma wrap_components_ok ws : ∀ e t, well_shaped e = true -> well_shaped t = true -> NoDup ws.*1 ->
  (∀ r n, lookup ws r = Some n -> find t (pend_path r) = Some n) ->
  ∃ e' t', wrap_components ws e t = (e', t') /\ well_shaped e' = true /\ well_shaped t' = true /\
    (∀ r, find e' (comp_path r) = chained (find e (comp_path r)) (lookup ws r)) /\
    (∀ r, find t' (pend_path r) = waiting (find e (comp_path r)) (lookup ws r) (find t (pend_path r))) /\
    (∀ q, is_leaf tree_shape q = true -> (∀ r, q ≠ comp_path r) -> find e' q = find e q) /\
    (∀ q, is_leaf tree_shape q = true -> (∀ r, q ≠ pend_path r) -> find t' q = find t q).
Proof.
  induction ws as [|[r n] ws IH]; intros e t He Ht Hn Hws.
  { exists e, t. split_and!; try done; intros r; cbn [lookup]; by destruct (find e (comp_path r)). }
  cbn in Hn. apply NoDup_cons in Hn as [Hr Hn]. assert (Hfn : find t (pend_path r) = Some n) by (apply Hws; cbn; by rewrite decide_True).
  assert (Hout : lookup ws r = None) by (destruct (lookup ws r) eqn:E; [destruct Hr; apply lookup_in; by rewrite E|done]).
  assert (Hws' : ∀ r' n', lookup ws r' = Some n' -> r' ≠ r /\ find t (pend_path r') = Some n').
  { intros r' n' H. split; [by intros ->; rewrite Hout in H|]. apply Hws. cbn. rewrite decide_False; [done|]. intros ->. by rewrite Hout in H. }
  cbn [wrap_components]. rewrite get_comp. destruct (find e (comp_path r)) as [c|] eqn:Ec.
  - change (default PUndef (Some c)) with c. assert (Hc : shaped Wrap c = true) by (eapply (find_shaped (comp_path r) tree_shape); [exact He|exact Ec|reflexivity]).
    assert (Hnf : shaped Func n = true) by (eapply (find_shaped (pend_path r) tree_shape); [exact Ht|exact Hfn|reflexivity]).
    rewrite wrap_truthy by done. fold (comp_path r). set (e1 := put_in e (comp_path r) _). fold (taken t r).
    destruct (taken_ok t r Ht) as [Ht1 Hq1]; [by rewrite Hfn|].
    assert (He1 : well_shaped e1 = true) by (eapply put_in_shaped; [exact He|by rewrite Ec|reflexivity|by apply func_append]).
    assert (Hf1 : ∀ q, is_leaf tree_shape q = true -> find e1 q = if decide (q = comp_path r) then Some (PArr (as_list c ++ [n])) else find e q)
      by (intros q Hq; apply (find_put_in _ tree_shape); [exact He|by rewrite Ec|done|done]).
    destruct (IH e1 (taken t r) He1 Ht1 Hn) as (e' & t' & -> & He' & Ht' & HC & HP & HE & HT).
    { intros r' n' [Hne H]%Hws'. rewrite Hq1 by done. rewrite decide_False; [done|]. by intros [= ?]. }
    exists e', t'. split_and!; try done.
    + intros r'. rewrite HC, Hf1 by done. cbn [lookup]. destruct (decide (r' = r)) as [->|Hne]; [by rewrite decide_True, Hout, Ec by done|].
      rewrite decide_False; [done|by intros [= ?]].
    + intros r'. rewrite HP, Hf1, Hq1 by done. cbn [lookup]. destruct (decide (r' = r)) as [->|Hne]; [by rewrite !decide_True, Hout, Ec by done|].
      rewrite !decide_False; [done|by intros [= ?]..].
    + intros q Hl Hq. rewrite HE, Hf1 by done. by rewrite decide_False.
    + intros q Hl Hq. rewrite HT, Hq1 by done. by rewrite decide_False.
  - destruct (IH e t He Ht Hn) as (e' & t' & Ew & He' & Ht' & HC & HP & HE & HT); [intros r' n' H; by apply Hws'|].
    cbn [default truthy]. rewrite Ew. exists e', t'. split_and!; try done.
    + intros r'. rewrite HC. cbn [lookup]. destruct (decide (r' = r)) as [->|]; [by rewrite Ec|done].
    + intros r'. rewrite HP. cbn [lookup]. destruct (decide (r' = r)) as [->|]; [by rewrite Ec|done].
Qed.

(** Dropping [wrapComponents] when it is empty. *)
Lemma dropped_ok t : well_shaped t = true -> members (get t wrapComponents) = [] -> well_shaped (del_name t wrapComponents) = true /\
  ∀ q, is_leaf tree_shape q = true -> find (del_name t wrapComponents) q = find t q.
Proof.
  intros (o & -> & Hn & Hp & Ho)%shaped_node Hm. cbn [del_name get] in *. split.
  - apply shaped_node. exists (del o wrapComponents). split_and!; [done|by apply del_nodup|by rewrite lookup_del, Hp; case_decide|].
    intros k x Hx. apply Ho. rewrite lookup_del in Hx. by case_decide.
  - intros q Hq. destruct q as [|k q]; [done|]. cbn [find]. rewrite lookup_del. destruct (decide (k = wrapComponents)) as [->|]; [|done].
    destruct (lookup o wrapComponents) as [w|] eqn:E; [|done]. apply is_leaf_cons in Hq as (f & [= <-] & Hq).
    change (is_leaf (Node (λ _, Func)) q = true) in Hq. destruct q as [|j q]; [done|]. cbn [find].
    change (members w = []) in Hm. destruct w as [| | | | | | |a]; try done. cbn in Hm. by subst a.
Qed.

Lemma extend_components_ok e t : well_shaped e = true -> well_shaped t = true ->
  ∃ e' t', extend_components e t = (e', t') /\ well_shaped e' = true /\ well_shaped t' = true /\
    (∀ r, find e' (comp_path r) = chained (find e (comp_path r)) (find t (pend_path r))) /\
    (∀ r, find t' (pend_path r) = waiting (find e (comp_path r)) (find t (pend_path r)) (find t (pend_path r))) /\
    (∀ q, is_leaf tree_shape q = true -> (∀ r, q ≠ comp_path r) -> find e' q = find e q) /\
    (∀ q, is_leaf tree_shape q = true -> (∀ r, q ≠ pend_path r) -> find t' q = find t q).
Proof.
  intros He Ht. unfold extend_components. destruct (lookup (members t) wrapComponents) as [w|] eqn:E.
  - pose proof Ht as (o & -> & Hn & Hp & Ho)%shaped_node. cbn [members] in E. pose proof (Ho _ _ E) as Hw.
    change (shaped (Node (λ _, Func)) w = true) in Hw. apply shaped_node in Hw as (a & -> & Ha & _ & _).
    assert (Hl : ∀ r, lookup a r = find (PObj o) (pend_path r)) by (intros r; unfold pend_path; cbn [find]; rewrite E; by destruct (lookup a r)).
    assert (Hg : get (PObj o) wrapComponents = PObj a) by (cbn [get]; by rewrite E). rewrite Hg. cbn [truthy members].
    destruct (wrap_components_ok a e (PObj o) He Ht Ha) as (e' & t' & -> & He' & Ht' & HC & HP & HE & HT); [intros r n H; by rewrite <- Hl|].
    assert (∃ t2, match members (get t' wrapComponents) with [] => del_name t' wrapComponents | _ => t' end = t2 /\ well_shaped t2 = true /\
      ∀ q, is_leaf tree_shape q = true -> find t2 q = find t' q) as (t2 & -> & Ht2 & H2).
    { eexists. split; [done|]. destruct (members (get t' wrapComponents)) eqn:Em; [by apply dropped_ok|done]. }
    exists e', t2. split_and!; try done.
    + intros r. by rewrite HC, Hl.
    + intros r. by rewrite H2, HP, Hl by done.
    + intros q Hq Hne. by rewrite H2, HT.
  - assert (Hg : get t wrapComponents = PUndef) by (destruct t; try done; cbn [get members] in *; by rewrite E).
    assert (Hl : ∀ r, find t (pend_path r) = None) by (intros r; unfold pend_path; destruct t; try done; cbn [find members] in *; by rewrite E).
    rewrite Hg. cbn [truthy]. exists e, t. split_and!; try done; intros r; rewrite Hl; by destruct (find e (comp_path r)).
Qed.

(** ** The abstract merge *)

(** What is seen of a plugin or of the system. *)
Record view := View {
  wrappers : list Z -> list Z -> list pv;        (* of an action of a plugin, the innermost first *)
  chain : list Z -> option (list pv);            (* a component and its wrappers *)
  pending : list Z -> option pv;                 (* wrappers of components that are not there *)
  leaf : path -> option pv                       (* the other leaves *)
}.

Definition view_of (v : pv) : view := View
  (λ o u, match find v (wrap_path o u) with Some x => as_list x | None => [] end)
  (λ r, as_list <$> find v (comp_path r))
  (λ r, find v (pend_path r))
  (find v).

#[global] Instance view_equiv : Equiv view := λ x y,
  (∀ o u, wrappers x o u = wrappers y o u) /\ (∀ r, chain x r = chain y r) /\ (∀ r, pending x r = pending y r) /\
  ∀ q, other_path q -> leaf x q = leaf y q.
#[global] Instance view_equivalence : Equivalence (≡@{view}).
Proof.
  split.
  - intros x. by split_and!.
  - intros x y (H1 & H2 & H3 & H4). split_and!; intros; symmetry; auto.
  - intros x y z (H1 & H2 & H3 & H4) (H1' & H2' & H3' & H4'). split_and!; intros.
    + by rewrite H1.
    + by rewrite H2.
    + by rewrite H3.
    + by rewrite H4, H4'.
Qed.

(** Merging [y] into [x]: wrappers of actions are appended; a component of [y]
    replaces that of [x], otherwise a wrapper of [y] is added to the chain of [x],
    or waits when [x] does not have the component; a leaf of [y] replaces. *)
Definition merge (x y : view) : view := View
  (λ o u, wrappers x o u ++ wrappers y o u)
  (λ r, match chain y r with
        | Some c => Some c
        | None => match chain x r, pending y r with Some c, Some n => Some (c ++ [n]) | c, _ => c end
        end)
  (λ r, match chain x r, pending y r with None, Some n => Some n | _, _ => pending x r end)
  (λ q, match leaf y q with Some v => Some v | None => leaf x q end).

#[global] Instance merge_proper : Proper ((≡) ==> (≡) ==> (≡)) merge.
Proof.
  intros x x' (H1 & H2 & H3 & H4) y y' (H1' & H2' & H3' & H4'). split_and!; intros; cbn.
  - by rewrite H1, H1'.
  - by rewrite H2, H2', H3'.
  - by rewrite H2, H3, H3'.
  - by rewrite H4, H4'.
Qed.

Definition wraps_at (v : pv) (o u : list Z) : list pv := match find v (wrap_path o u) with Some x => as_list x | None => [] end.

(** The second stage of the merge. *)
Lemma extend_parts_ok e t : well_shaped e = true -> well_shaped t = true ->
  ∃ e' t', match get e statePlugins with
           | PObj n => let '(n, t) := extend_actions n t in (put_in e [statePlugins] (PObj n), t)
           | _ => (e, t)
           end = (e', t') /\ well_shaped e' = true /\ well_shaped t' = true /\
    (∀ o u, wraps_at e' o u = wraps_at e o u) /\
    (∀ o u, find t' (wrap_path o u) = before (find e (wrap_path o u)) (find t (wrap_path o u))) /\
    (∀ q, is_leaf tree_shape q = true -> (∀ o u, q ≠ wrap_path o u) -> find e' q = find e q /\ find t' q = find t q).
Proof.
  intros He Ht. pose proof He as (oe & -> & _ & _ & Ho)%shaped_node.
  assert (Hf : ∀ o u, find (PObj oe) (wrap_path o u) = match get (PObj oe) statePlugins with PObj n => lookup n o ≫= λ i, find i [wrapActions; u] | _ => None end).
  { intros o u. unfold wrap_path. cbn [find get]. destruct (lookup oe statePlugins) as [w|]; [|done]. by destruct w. }
  destruct (get (PObj oe) statePlugins) as [| | | | | | |n] eqn:Eg.
  8: { assert (Hw : shaped (Node (λ _, part_shape)) (PObj n) = true).
    { cbn [get] in Eg. destruct (lookup oe statePlugins) as [w|] eqn:E; [|done]. change (w = PObj n) in Eg. subst w. exact (Ho _ _ E). }
    apply shaped_node in Hw as (n' & [= <-] & Hnn & _ & Hnp). destruct (extend_actions_ok n t Ht Hnn Hnp) as (t2 & -> & Ht2 & Hw & Hq).
    destruct (own_arrays_ok (PObj oe) n He Eg) as (Ho1 & Ho2 & Ho3). eexists _, t2. split_and!; [done|done|done| | |auto].
    - intros o u. unfold wraps_at. rewrite Ho2. by destruct (find (PObj oe) (wrap_path o u)).
    - intros o u. by rewrite Hw, Hf. }
  all: exists (PObj oe), t; split_and!; try done; intros o u; by rewrite Hf.
Qed.

Lemma systemExtend_view e t : well_shaped e = true -> well_shaped t = true ->
  well_shaped (systemExtend e t).1 = true /\ view_of (systemExtend e t).1 ≡ merge (view_of e) (view_of t).
Proof.
  intros He Ht. unfold systemExtend.
  assert (Hoe : isObject e = true) by (apply shaped_node in He as (? & -> & _); done).
  assert (Hot : isObject t = true) by (apply shaped_node in Ht as (? & -> & _); done). rewrite Hoe, Hot. cbn [negb].
  destruct (extend_components_ok e t He Ht) as (e1 & t1 & -> & He1 & Ht1 & HC & HP & HE & HT).
  destruct (extend_parts_ok e1 t1 He1 Ht1) as (e2 & t2 & -> & He2 & Ht2 & Hw & Hw' & Hq).
  assert (Hd : deepExtend e2 t2 = extend e2 t2) by (by apply shaped_node in Ht2 as (? & -> & _)). cbn [fst]. rewrite Hd.
  split; [by apply extend_shaped|].
  assert (HX : ∀ q, is_leaf tree_shape q = true -> find (extend e2 t2) q = match find t2 q with Some x => Some x | None => find e2 q end)
    by (intros; by apply (find_extend _ tree_shape)).
  assert (Hq' : ∀ q, is_leaf tree_shape q = true -> (∀ o u, q ≠ wrap_path o u) ->
    find (extend e2 t2) q = match find t1 q with Some x => Some x | None => find e1 q end).
  { intros q Hl Hne. rewrite HX by done. by destruct (Hq q Hl Hne) as [-> ->]. }
  split_and!; cbn [view_of merge wrappers chain pending leaf].
  - intros o u. rewrite HX, Hw', HT by done. specialize (Hw o u). unfold wraps_at in Hw. rewrite HE in Hw |- * by done.
    destruct (find e (wrap_path o u)), (find t (wrap_path o u)); cbn [before] in *; rewrite ?Hw, ?app_nil_r; done.
  - intros r. rewrite Hq', HC, HT by done. destruct (find t (comp_path r)); [done|]. by destruct (find e (comp_path r)), (find t (pend_path r)).
  - intros r. rewrite Hq', HP, HE by done. by destruct (find e (comp_path r)), (find t (pend_path r)).
  - intros q (Hl & Hne1 & Hne2 & Hne3). by rewrite Hq', HT, HE by done.
Qed.

(** ** Registration *)

Section register.
Context {B : Type}.
Local Abbreviation plugin := (@plugin F B).

Definition empty_view : view := View (λ _ _, []) (λ _, None) (λ _, None) (λ _, None).
Lemma view_empty : view_of (PObj []) ≡ empty_view.
Proof. split_and!; try done. intros q (Hl & _). by destruct q. Qed.
Lemma merge_empty x : merge empty_view x ≡ x.
Proof.
  split_and!; cbn; intros; try done.
  - by destruct (chain x r).
  - by destruct (pending x r).
  - by destruct (leaf x q).
Qed.

(** All the trees a plugin stands for have the shape. *)
Fixpoint all_shaped (n : B) (t : plugin) : bool :=
  match t with
  | PlugObj o => well_shaped (PObj o)
  | PlugFun f => all_shaped n (f n)
  | PlugArr l => forallb (all_shaped n) l
  | PlugOther => true
  end.
(** What a plugin adds: an array adds what its parts add, in their order. *)
Fixpoint plugin_view (n : B) (t : plugin) : view :=
  match t with
  | PlugObj o => view_of (PObj o)
  | PlugFun f => plugin_view n (f n)
  | PlugArr l => foldl merge empty_view (map (plugin_view n) l)
  | PlugOther => empty_view
  end.
(** The trees, in the order in which they are merged. *)
Fixpoint flatten (n : B) (t : plugin) : list pv :=
  match t with
  | PlugObj o => [PObj o]
  | PlugFun f => flatten n (f n)
  | PlugArr l => concat (map (flatten n) l)
  | PlugOther => []
  end.

Lemma empty_shaped : well_shaped (PObj []) = true.
Proof. done. Qed.

Lemma reduce_view l : ∀ acc, well_shaped acc = true -> forallb well_shaped l = true ->
  well_shaped (reduce_plugins acc l).1 = true /\ view_of (reduce_plugins acc l).1 ≡ foldl merge (view_of acc) (map view_of l).
Proof.
  induction l as [|t l IH]; intros acc Ha Hl; [done|]. cbn in Hl. apply andb_true_iff in Hl as [Ht Hl]. cbn [reduce_plugins map foldl].
  destruct (systemExtend_view acc t Ha Ht) as [Hs Hv]. destruct (systemExtend acc t) as [acc1 t1]. cbn [fst] in *.
  destruct (IH acc1 Hs Hl) as [Hs' Hv']. destruct (reduce_plugins acc1 l) as [acc2 l2]. cbn [fst] in *. split; [done|].
  etrans; [exact Hv'|]. clear -Hv. revert Hv. generalize (view_of acc1), (merge (view_of acc) (view_of t)). clear.
  induction (map view_of l) as [|y ys IH]; intros v w H; [done|]. cbn. apply IH. by rewrite H.
Qed.

Lemma foldl_merge_proper (xs ys : list view) v w : v ≡ w -> Forall2 (≡) xs ys -> foldl merge v xs ≡ foldl merge w ys.
Proof. intros H H2. revert v w H. induction H2; intros v w Hv; [done|]. cbn. apply IHForall2. by apply merge_proper. Qed.

Lemma combine_view (n : B) : ∀ t, all_shaped n t = true -> well_shaped (combine n t).1 = true /\ view_of (combine n t).1 ≡ plugin_view n t.
Proof.
  fix IH 1. intros [o|f|l|] Ht; cbn [combine plugin_view fst]; [done|by apply IH| |split; [done|apply view_empty]].
  cbn [all_shaped] in Ht. set (rs := (fix go l := match l with [] => [] | t :: l => combine n t :: go l end) l).
  assert (Hrs : forallb well_shaped rs.*1 = true /\ Forall2 (≡) (map view_of rs.*1) (map (plugin_view n) l)).
  { subst rs. induction l as [|t l IHl]; [split; [reflexivity|constructor]|]. cbn in Ht. apply andb_true_iff in Ht as [Ht Hl].
    destruct (IHl Hl) as [H1 H2], (IH t Ht) as [H3 H4]. split; [cbn -[well_shaped combine]; rewrite H3; exact H1|]. constructor; [exact H4|exact H2]. }
  destruct Hrs as [H1 H2]. destruct (reduce_view rs.*1 (PObj []) empty_shaped H1) as [Hs Hv].
  destruct (reduce_plugins (PObj []) rs.*1) as [acc ts]. cbn [fst] in *. split; [exact Hs|]. etrans; [exact Hv|].
  apply foldl_merge_proper; [apply view_empty|exact H2].
Qed.

Lemma foldl_wrappers (xs : list view) v o u : wrappers (foldl merge v xs) o u = wrappers v o u ++ concat ((λ x, wrappers x o u) <$> xs).
Proof. revert v. induction xs as [|x xs IH]; intros v; cbn; [by rewrite app_nil_r|]. rewrite IH. cbn. by rewrite <- app_assoc. Qed.

Lemma plugin_wrappers (n : B) o u : ∀ t, wrappers (plugin_view n t) o u = concat ((λ v, wraps_at v o u) <$> flatten n t).
Proof.
  fix IH 1. intros [ob|f|l|]; cbn [plugin_view flatten]; [cbn [fmap list_fmap concat]; by rewrite app_nil_r|apply IH| |done].
  rewrite foldl_wrappers. cbn [wrappers empty_view app]. induction l as [|t l IHl]; [reflexivity|].
  cbn [map fmap list_fmap concat]. rewrite fmap_app, concat_app, IHl, IH. reflexivity.
Qed.

(** *** The afterLoad functions *)

Definition afterLoad : list Z := js "afterLoad".
(** The [afterLoad] functions of a plugin, in the order in which they run. *)
Fixpoint hooks (n : B) (t : plugin) : list F :=
  match t with
  | PlugObj o => match get (PObj o) afterLoad with PFun f => [f] | _ => [] end
  | PlugFun f => hooks n (f n)
  | PlugArr l => concat (map (hooks n) l)
  | PlugOther => []
  end.

(** Merging a plugin leaves its [afterLoad] as it is. *)
Lemma systemExtend_after e t : well_shaped e = true -> well_shaped t = true -> get (systemExtend e t).2 afterLoad = get t afterLoad.
Proof.
  intros He Ht. unfold systemExtend.
  assert (Hoe : isObject e = true) by (apply shaped_node in He as (? & -> & _); done).
  assert (Hot : isObject t = true) by (apply shaped_node in Ht as (? & -> & _); done). rewrite Hoe, Hot. cbn [negb].
  destruct (extend_components_ok e t He Ht) as (e1 & t1 & -> & He1 & Ht1 & _ & _ & _ & HT).
  destruct (extend_parts_ok e1 t1 He1 Ht1) as (e2 & t2 & -> & _ & _ & _ & _ & Hq). cbn [snd].
  change (get t2 afterLoad) with (get (default PUndef (find t2 [])) afterLoad). change (get t afterLoad) with (get (default PUndef (find t [])) afterLoad).
  rewrite !get_find. cbn [app]. destruct (Hq [afterLoad]) as [_ ->]; [done|done|]. by rewrite HT.
Qed.

Lemma reduce_after l : ∀ acc, well_shaped acc = true -> forallb well_shaped l = true ->
  Forall2 (λ t t', get t' afterLoad = get t afterLoad) l (reduce_plugins acc l).2.
Proof.
  induction l as [|t l IH]; intros acc Ha Hl; [constructor|]. cbn in Hl. apply andb_true_iff in Hl as [Ht Hl]. cbn [reduce_plugins].
  pose proof (systemExtend_after acc t Ha Ht) as E. destruct (systemExtend_view acc t Ha Ht) as [Hs _].
  destruct (systemExtend acc t) as [acc1 t1]. cbn [fst snd] in *. specialize (IH acc1 Hs Hl).
  destruct (reduce_plugins acc1 l) as [acc2 l2]. cbn [snd] in *. by constructor.
Qed.

Lemma get_members (v : pv) k : get (PObj (members v)) k = get v k.
Proof. by destruct v. Qed.

(** So combining and registering a plugin leaves its hooks as they are. *)
Lemma combine_hooks (n b : B) : ∀ t v, all_shaped n t = true -> get v afterLoad = get (combine n t).1 afterLoad ->
  hooks b ((combine n t).2 v) = hooks b t.
Proof.
  fix IH 1. intros [o|f|l|] v Ht Hv; cbn [combine hooks snd]; [|done| |done].
  { rewrite get_members, Hv. reflexivity. }
  cbn [all_shaped] in Ht. clear Hv. set (rs := (fix go l := match l with [] => [] | t :: l => combine n t :: go l end) l).
  assert (Hrs : forallb well_shaped rs.*1 = true /\ ∀ ts, Forall2 (λ t t', get t' afterLoad = get t afterLoad) rs.*1 ts ->
    concat (map (hooks b) (zip_with (λ r t, r.2 t) rs ts)) = concat (map (hooks b) l)).
  { subst rs. induction l as [|t l IHl]; [split; [reflexivity|intros ts _; reflexivity]|]. cbn in Ht. apply andb_true_iff in Ht as [Ht Hl].
    destruct (IHl Hl) as [H1 H2]. destruct (combine_view n t Ht) as [H3 _]. split; [cbn -[well_shaped combine]; rewrite H3; exact H1|].
    intros ts Hts. cbn -[combine] in Hts. inversion Hts as [|x t' xs ts' E Hts']; subst. cbn [zip_with map concat].
    rewrite (IH t t' Ht E). f_equal. exact (H2 ts' Hts'). }
  destruct Hrs as [H1 H2]. pose proof (reduce_after rs.*1 (PObj []) empty_shaped H1) as Ha.
  destruct (reduce_plugins (PObj []) rs.*1) as [acc ts]. exact (H2 ts Ha).
Qed.

(** *** What they inject *)

Definition injected (add : obj) : pv := PObj [(rootInjects, PObj add)].

Lemma put_all_extend add : ∀ o : obj, (∀ k x, (k, x) ∈ add -> k ≠ proto /\ plain x = true) -> put_all o add = extend_members extend o add.
Proof.
  induction add as [|[k x] add IH]; intros o H; [done|]. cbn [put_all foldl extend_members fst snd]. fold (extend_members (F:=F) extend).
  destruct (H k x) as [Hk Hx]; [by left|]. rewrite decide_False, extend_plain by done. apply IH. intros j y Hj. apply H. by right.
Qed.
(** Writing is merging a tree that has nothing else. *)
Lemma write_injects_extend add t : well_shaped t = true -> well_shaped (injected add) = true -> write_injects add t = extend t (injected add).
Proof.
  intros (o & -> & _ & _ & Ho)%shaped_node (o' & [= <-] & _ & _ & Ha)%shaped_node. specialize (Ha rootInjects (PObj add) (ltac:(by cbn; rewrite decide_True))).
  change (shaped (Node (λ _, Leaf)) (PObj add) = true) in Ha. apply shaped_node in Ha as (add' & [= <-] & Hna & Hpa & Hadd).
  assert (P : ∀ k x, (k, x) ∈ add -> k ≠ proto /\ plain x = true).
  { intros k x Hk%(member_lookup _ _ _ Hna). split; [intros ->; congruence|]. by apply (Hadd k). }
  transitivity (PObj (put o rootInjects (PObj (extend_members extend (members (default PUndef (lookup o rootInjects))) add)))); [|reflexivity].
  rewrite <- (put_all_extend add _ P). unfold write_injects. cbn [get put_in]. destruct (lookup o rootInjects) as [r|] eqn:E; [|reflexivity].
  specialize (Ho _ _ E). change (shaped (Node (λ _, Leaf)) r = true) in Ho. by apply shaped_node in Ho as (r' & -> & _).
Qed.

Lemma write_injects_view add t : well_shaped t = true -> well_shaped (injected add) = true ->
  well_shaped (write_injects add t) = true /\ view_of (write_injects add t) ≡ merge (view_of t) (view_of (injected add)).
Proof.
  intros Ht Ha. rewrite write_injects_extend by done. split; [by apply extend_shaped|].
  assert (HX : ∀ q, is_leaf tree_shape q = true -> find (extend t (injected add)) q = match find (injected add) q with Some x => Some x | None => find t q end)
    by (intros; by apply (find_extend _ tree_shape)).
  split_and!; cbn [view_of merge wrappers chain pending leaf].
  - intros o u. rewrite HX by done. change (find (injected add) (wrap_path o u)) with (@None pv). cbv beta iota. by rewrite app_nil_r.
  - intros r. rewrite HX by done. change (find (injected add) (comp_path r)) with (@None pv). change (find (injected add) (pend_path r)) with (@None pv).
    cbn [fmap option_fmap option_map]. by destruct (find t (comp_path r)).
  - intros r. rewrite HX by done. change (find (injected add) (pend_path r)) with (@None pv). cbv beta iota. by destruct (_ <$> _).
  - intros q (Hl & _). by rewrite HX.
Qed.

Section hooks.
Context (build : pv -> B) (after_load : F -> B -> pv -> pv).

Lemma load_hooks (n : B) : ∀ (t : plugin) h s, (load after_load n t h s).1 = foldl (λ s f, after_load f n s) s (hooks n t).
Proof.
  fix IH 1. intros [o|f|l|] h s; cbn [load hooks]; [|apply IH| |reflexivity].
  - change (js "afterLoad") with afterLoad. destruct (get _ _); reflexivity.
  - cbn [fst]. revert s. induction l as [|t l IHl]; intros s; [reflexivity|]. cbn [map concat]. rewrite foldl_app, <- (IH t h). apply IHl.
Qed.
Lemma load_quiet (n : B) : ∀ (t : plugin) s, (load after_load n t false s).2 = false -> hooks n t = [].
Proof.
  fix IH 1. intros [o|f|l|] s; cbn [load hooks]; [|apply IH|done|done]. change (js "afterLoad") with afterLoad. by destruct (get _ _).
Qed.

(** The merged tree, the run of the hooks and the system that is built. *)
Lemma registered s (e : plugin) r : well_shaped (tree s) = true -> all_shaped (bound s) e = true ->
  let s' := (register build after_load s e r).1 in
  ∃ t, well_shaped t = true /\ view_of t ≡ merge (view_of (tree s)) (plugin_view (bound s) e) /\
    let b := if r then build t else bound s in
    tree s' = foldl (λ t f, after_load f b t) t (hooks b e) /\ (r = true -> bound s' = build (tree s')).
Proof.
  intros Hs He s'. subst s'. exists (systemExtend (tree s) (combine (bound s) e).1).1.
  destruct (combine_view (bound s) e He) as [Hc Hv]. destruct (systemExtend_view _ _ Hs Hc) as [H1 H2].
  split_and!; [done|by rewrite H2, Hv|]. intros b. pose proof (systemExtend_after _ _ Hs Hc) as Ha.
  pose proof (combine_hooks (bound s) b e (systemExtend (tree s) (combine (bound s) e).1).2 He Ha) as Hh.
  unfold register. destruct (combine (bound s) e) as [n after]. cbn [fst snd] in *. destruct (systemExtend (tree s) n) as [t n']. cbn [fst snd] in *. fold b.
  pose proof (load_hooks b (after n') false t) as Hl. pose proof (load_quiet b (after n') t) as Hq. rewrite Hh in *.
  destruct (load after_load b (after n') false t) as [t' again]. cbn [fst snd tree bound] in *. split; [done|].
  destruct again; [done|]. intros ->. rewrite Hl, Hq by done. done.
Qed.

Lemma injects_view injects b (fs : list F) : (∀ f b t, after_load f b t = write_injects (injects f b) t) ->
  (∀ f b, well_shaped (injected (injects f b)) = true) -> ∀ t, well_shaped t = true ->
  let t' := foldl (λ t f, after_load f b t) t fs in
  well_shaped t' = true /\ view_of t' ≡ foldl merge (view_of t) ((λ f, view_of (injected (injects f b))) <$> fs).
Proof.
  intros Hw Hi. induction fs as [|f fs IH]; intros t Ht; [done|]. cbn [foldl fmap list_fmap]. rewrite Hw.
  destruct (write_injects_view (injects f b) t Ht (Hi f b)) as [H1 H2]. destruct (IH _ H1) as [H3 H4]. split; [exact H3|].
  etrans; [exact H4|]. apply foldl_merge_proper; [exact H2|]. by induction (_ <$> fs); constructor.
Qed.

(** C5. Registering plugins refines the abstract merge, for plugins and a system
    of the documented shape. There is a well-shaped tree that is seen as what was
    seen of the system merged with what the plugin adds, where a list of plugins
    adds what its parts add in their order (wrappers of actions are collected,
    components are replaced or wrapped, other leaves replaced, and nothing else
    changes), and the new system is what the [afterLoad] functions of the
    plugins, whatever they do, make of this tree when they run in the order of
    the plugins. When they inject functions, as the one of the page does
    ([write_injects]), the new system has the shape too, and what is seen of it is
    that tree with what each of them injects merged into it. Unless the caller
    asks for no rebuild, the bound system is the one that is built from the new
    tree. *)
Theorem register_refines (s : system) (e : plugin) (rebuild : bool) :
  well_shaped (tree s) = true -> all_shaped (bound s) e = true ->
  let s' := (register build after_load s e rebuild).1 in
  ∃ t, well_shaped t = true /\ view_of t ≡ merge (view_of (tree s)) (plugin_view (bound s) e) /\
    let b := if rebuild then build t else bound s in
    tree s' = foldl (λ t f, after_load f b t) t (hooks b e) /\
    (rebuild = true -> bound s' = build (tree s')) /\
    ∀ injects, (∀ f b t, after_load f b t = write_injects (injects f b) t) -> (∀ f b, well_shaped (injected (injects f b)) = true) ->
      well_shaped (tree s') = true /\
      view_of (tree s') ≡ foldl merge (view_of t) ((λ f, view_of (injected (injects f b))) <$> hooks b e).
Proof.
  intros Hs He s'. destruct (registered s e rebuild Hs He) as (t & H1 & H2 & H3 & H4). exists t. split; [done|]. split; [done|]. intros b.
  split; [exact H3|]. split; [exact H4|]. intros injects Hw Hi. unfold s'. rewrite H3. by apply injects_view.
Qed.
End hooks.

(** ** Actions with their wrappers *)

Section actions.
Context (build : pv -> B) {V S : Type} (call : F -> list V -> S -> S * result V).
Local Abbreviation fn := (list V -> S -> S * result V).
Context (wrapper : F -> fn -> S -> S * result fn) (dispatch : V -> S -> S * result V) (null : V) (thrown_err : exn -> V).

Fixpoint alookup {A} (l : list (list Z * A)) (k : list Z) : option A :=
  match l with (k', v) :: l => if decide (k = k') then Some v else alookup l k | [] => None end.
Lemma alookup_map {A C} (f : list Z -> A -> C) l k : alookup ((λ kv, (kv.1, f kv.1 kv.2)) <$> l) k = f k <$> alookup l k.
Proof. induction l as [|[j a] l IH]; [done|]. cbn. case_decide; [by subst|done]. Qed.
Lemma alookup_lookup (o : obj) k : alookup o k = lookup o k.
Proof. induction o as [|[j a] o IH]; [done|]. cbn. by rewrite IH. Qed.

(** An action of the system, with the wrappers it has. *)
Definition the_action (sys : pv) (o u : list Z) : option fn :=
  alookup (getWrappedAndBoundActions call wrapper dispatch null thrown_err sys) (o ++ js "Actions") ≫= λ acts, alookup acts u.

Lemma get_type_lookup (n : obj) e a o : NoDup n.*1 ->
  lookup (foldl (λ a rn, let i := get rn.2 e in if truthy i then put a (rn.1 ++ capital e) i else a) a n) (o ++ capital e) =
  match lookup n o with Some i => if truthy (get i e) then Some (get i e) else lookup a (o ++ capital e) | None => lookup a (o ++ capital e) end.
Proof.
  revert a. induction n as [|[k i] n IH]; intros a Hn; [done|]. cbn in Hn. apply NoDup_cons in Hn as [Hk Hn]. cbn [foldl fst snd lookup].
  rewrite IH by done. destruct (decide (o = k)) as [->|Hne].
  - destruct (lookup n k) eqn:E; [destruct Hk; apply lookup_in; by rewrite E|]. destruct (truthy (get i e)); [|done]. by rewrite lookup_put, decide_True.
  - assert (Ho : lookup (if truthy (get i e) then put a (k ++ capital e) (get i e) else a) (o ++ capital e) = lookup a (o ++ capital e)).
    { destruct (truthy (get i e)); [|done]. rewrite lookup_put, decide_False; [done|]. by intros ?%(inj (λ x, x ++ capital e)). }
    cbv zeta. by rewrite Ho.
Qed.

Lemma functions_lookup (a : obj) u f : NoDup a.*1 -> lookup a u = Some (PFun f) -> alookup (functions a) u = Some f.
Proof.
  induction a as [|[k x] a IH]; [done|]. cbn. intros [Hk Hn]%NoDup_cons H. destruct (decide (u = k)) as [->|Hne].
  - injection H as ->. cbn. by rewrite decide_True.
  - destruct x; cbn; try (by apply IH). rewrite decide_False by done. by apply IH.
Qed.

Lemma drop_last_app k o e : length e = k -> drop_last k (o ++ e) = o.
Proof. intros <-. unfold drop_last. rewrite length_app. replace (length o + length e - length e)%nat with (length o) by lia. apply take_app_length. Qed.

(** The wrappers of a well-shaped tree are functions. *)
Lemma wraps_functions sys o u : well_shaped sys = true -> ∃ ws, wraps_at sys o u = PFun <$> ws.
Proof.
  intros Hs. unfold wraps_at. destruct (find sys (wrap_path o u)) as [x|] eqn:E; [|by exists []].
  assert (Hx : shaped Wrap x = true) by (eapply (find_shaped (wrap_path o u) tree_shape); [exact Hs|exact E|reflexivity]).
  apply as_list_wrap in Hx. induction (as_list x) as [|y l IH]; [by exists []|]. cbn in Hx. apply andb_true_iff in Hx as [Hy Hl].
  destruct y; try done. destruct (IH Hl) as [ws ->]. by exists (f :: ws).
Qed.

Lemma wrap_all_ok wrap thrown sys o u (e : fn) ws : wraps_at sys o u = PFun <$> ws -> well_shaped sys = true ->
  wrap_all wrap thrown (get (get (get sys statePlugins) o) wrapActions) u e = foldl wrap e ws.
Proof.
  intros Hw Hs. unfold wrap_all. rewrite get_wrap. unfold wraps_at in Hw. destruct (find sys (wrap_path o u)) as [x|] eqn:E.
  - assert (Hx : shaped Wrap x = true) by (eapply (find_shaped (wrap_path o u) tree_shape); [exact Hs|exact E|reflexivity]).
    change (default PUndef (Some x)) with x. rewrite wrap_truthy, Hw by done. clear. revert e. induction ws as [|w ws IH]; intros e; [done|]. apply IH.
  - by destruct ws.
Qed.

Lemma the_action_ok sys o u f ws : well_shaped sys = true -> find sys [statePlugins; o; js "actions"; u] = Some (PFun f) ->
  wraps_at sys o u = PFun <$> ws ->
  the_action sys o u = Some (foldl (wrap_action wrapper null) (bind_action call dispatch thrown_err f) ws).
Proof.
  intros Hs Hf Hw. pose proof Hs as (os & -> & _ & _ & Ho)%shaped_node. set (sys := PObj os) in *.
  cbn [find sys] in Hf. destruct (lookup os statePlugins) as [w|] eqn:E; [|done]. pose proof (Ho _ _ E) as Hn.
  change (shaped (Node (λ _, part_shape)) w = true) in Hn. apply shaped_node in Hn as (n & -> & Hnn & _ & Hnp).
  destruct (lookup n o) as [i|] eqn:Ei; [|done]. pose proof (Hnp _ _ Ei) as (oi & -> & _ & _ & Hoi)%shaped_node.
  destruct (lookup oi (js "actions")) as [a|] eqn:Ea; [|done]. pose proof (Hoi _ _ Ea) as Hacts.
  change (shaped (Node (λ _, Leaf)) a = true) in Hacts. apply shaped_node in Hacts as (acts & -> & Hna & _ & _).
  destruct (lookup acts u) as [x|] eqn:Eu; [|done]. injection Hf as ->.
  unfold the_action, getWrappedAndBoundActions, getActions.
  rewrite (alookup_map (wrapped_actions call wrapper dispatch null thrown_err sys)), (alookup_map (λ _ v, functions (members v))), alookup_lookup.
  unfold getType.
  assert (Hm : members (get sys statePlugins) = n) by (unfold sys; cbn [get]; by rewrite E). rewrite Hm.
  change (js "Actions") with (capital (js "actions")). rewrite get_type_lookup, Ei by done. cbn [get]. rewrite Ea.
  change (default PUndef (Some (PObj acts))) with (PObj acts). cbn [truthy fmap option_fmap option_map mbind option_bind members].
  unfold wrapped_actions. rewrite (alookup_map (λ u f, wrap_all _ _ _ u (bind_action _ _ _ f))), (functions_lookup acts u f) by done. cbn [fmap option_fmap option_map].
  f_equal. rewrite drop_last_app by done. by apply wrap_all_ok.
Qed.

(** ** What it means that an action is wrapped

    The functions [a] that are the action creator [f] with the wrappers [ws]
    around it, the outermost first. Without wrappers, the creator is called and
    what it returns, or the error action for what it throws, is dispatched. A
    wrapper is called with what it wraps and gives the function that is called
    with the arguments; when either throws, the result is [null]. *)
Inductive wrapped (f : F) : list F -> fn -> Prop :=
  | wrapped_none a :
      (∀ args s, a args s = match call f args s with
                            | (s, Ok action) => dispatch action s
                            | (s, Throw x) => dispatch (thrown_err x) s
                            end) -> wrapped f [] a
  | wrapped_by w ws inner a : wrapped f ws inner ->
      (∀ args s, a args s = match wrapper w inner s with
                            | (s, Ok g) => match g args s with (s, Ok v) => (s, Ok v) | (s, Throw _) => (s, Ok null) end
                            | (s, Throw _) => (s, Ok null)
                            end) -> wrapped f (w :: ws) a.

Lemma bind_wrapped f : wrapped f [] (bind_action call dispatch thrown_err f).
Proof. constructor. intros args s. unfold bind_action. by destruct (call f args s) as [? []]. Qed.
Lemma wrap_wrapped f w ws inner : wrapped f ws inner -> wrapped f (w :: ws) (wrap_action wrapper null inner w).
Proof.
  intros H. econstructor; [exact H|]. intros args s. unfold wrap_action, safe. destruct (wrapper w inner s) as [s1 [g|x]]; [|done].
  by destruct (g args s1) as [s2 []].
Qed.
Lemma foldl_wrapped f ws : ∀ done_ inner, wrapped f done_ inner -> wrapped f (reverse ws ++ done_) (foldl (wrap_action wrapper null) inner ws).
Proof.
  induction ws as [|w ws IH]; intros done_ inner H; [exact H|]. cbn [foldl]. rewrite reverse_cons, <- app_assoc. by apply IH, wrap_wrapped.
Qed.

Lemma injected_wrappers (vs : list view) v o u : Forall (λ x, wrappers x o u = []) vs -> wrappers (foldl merge v vs) o u = wrappers v o u.
Proof. intros H. revert v. induction H as [|x vs Hx _ IH]; intros v; [done|]. cbn [foldl]. rewrite IH. cbn. by rewrite Hx, app_nil_r. Qed.

Context (injects : F -> B -> obj).
Hypothesis injects_shaped : ∀ f b, well_shaped (injected (injects f b)) = true.

(** C6. An action of the system is wrapped by the wrappers of all plugins, each
    once, in the order in which the plugins were registered, the later ones
    around the earlier ones; also when plugins are registered together, in nested
    lists or by functions. The plugins and the system have the documented shape,
    and their [afterLoad] functions inject functions into [rootInjects], as the
    one of the page does. *)
Theorem actions_wrapped_in_order (s : system) (e : plugin) (rebuild : bool) o u f :
  well_shaped (tree s) = true -> all_shaped (bound s) e = true ->
  let s' := (register build (λ f b t, write_injects (injects f b) t) s e rebuild).1 in
  find (tree s') [statePlugins; o; js "actions"; u] = Some (PFun f) ->
  ∃ ws a, PFun <$> ws = wraps_at (tree s) o u ++ concat ((λ p, wraps_at p o u) <$> flatten (bound s) e) /\
    the_action (tree s') o u = Some a /\ wrapped f (reverse ws) a.
Proof.
  intros Hs He s' Hf. destruct (registered build (λ f b t, write_injects (injects f b) t) s e rebuild Hs He) as (t & Ht & Hv & Htree & _). fold s' in Htree.
  set (b := if rebuild then build t else bound s) in Htree.
  destruct (injects_view (λ f b t, write_injects (injects f b) t) injects b (hooks b e)) with (t := t) as [Hs' Hv']; [done|done|done|].
  cbv zeta in Hs', Hv'. rewrite <- Htree in Hs', Hv'. destruct (wraps_functions (tree s') o u Hs') as [ws Hws].
  exists ws, (foldl (wrap_action wrapper null) (bind_action call dispatch thrown_err f) ws). split_and!; [|by apply the_action_ok|].
  - rewrite <- plugin_wrappers, <- Hws. destruct Hv as [Hw _], Hv' as [Hw' _].
    change (wraps_at (tree s') o u) with (wrappers (view_of (tree s')) o u). rewrite Hw', injected_wrappers; [apply Hw|].
    apply Forall_fmap, Forall_forall. done.
  - rewrite <- (app_nil_r (reverse ws)). apply foldl_wrapped, bind_wrapped.
Qed.

End actions.
End register.
End ok.

(** ** A system and plugins *)

Definition part (k : string) (v : @pv Z) : @pv Z := PObj [(js "statePlugins", PObj [(js "spec", PObj [(js k, PObj [(js "updateSpec", v)])])])].
Definition sample_system : @system Z unit :=
  System (PObj [(js "statePlugins", PObj [(js "spec", PObj [(js "actions", PObj [(js "updateSpec", PFun 9)]); (js "wrapActions", PObj [(js "updateSpec", PFun 1)])])]);
                (js "components", PObj [(js "Info", PFun 0)])]) tt.
(** The third plugin has an [afterLoad] function, which injects one function. *)
Definition sample_plugin : @plugin Z unit :=
  PlugArr [PlugObj (members (part "wrapActions" (PFun 2)));
           PlugFun (λ _, PlugArr [PlugObj (members (part "wrapActions" (PArr [PFun 3; PFun 4]))); PlugObj [(js "wrapComponents", PObj [(js "Info", PFun 7)])]]);
           PlugObj [(js "afterLoad", PFun 5); (js "rootInjects", PObj [(js "other", PFun 8)])]].
Definition sample_injects (f : Z) (_ : unit) : list (list Z * @pv Z) := [(js "initOAuth", PFun (100 + f))].
Definition sample_after : @system Z unit :=
  (register (λ _, tt) (λ f b t, write_injects (sample_injects f b) t) sample_system sample_plugin true).1.

Lemma register_refines_witness :
  ∃ t, well_shaped t = true /\ view_of t ≡ merge (view_of (tree sample_system)) (plugin_view tt sample_plugin) /\
    well_shaped (tree sample_after) = true /\
    view_of (tree sample_after) ≡ merge (view_of t) (view_of (injected (sample_injects 5 tt))).
Proof.
  destruct (register_refines (λ _, tt) (λ f b t, write_injects (sample_injects f b) t) sample_system sample_plugin true) as (t & H1 & H2 & _ & _ & H);
    [vm_compute; reflexivity|vm_compute; reflexivity|].
  destruct (H sample_injects (λ _ _ _, eq_refl) (λ _ _, eq_refl)) as [H3 H4]. exists t. split_and!; [exact H1|exact H2|exact H3|exact H4].
Defined.

Lemma actions_wrapped_in_order_witness :
  let call (f : Z) (args : list (list Z)) (s : unit) := (s, Ok (f :: concat args)) in
  let wrapper (n : Z) (e : list (list Z) -> unit -> unit * result (list Z)) (s : unit) :=
    (s, Ok (λ args s, match e args s with (s, Ok v) => (s, Ok (v ++ [n])) | r => r end)) in
  let dispatch (v : list Z) (s : unit) := (s, Ok v) in
  ∃ ws a, PFun <$> ws = wraps_at (tree sample_system) (js "spec") (js "updateSpec") ++
      concat ((λ p, wraps_at p (js "spec") (js "updateSpec")) <$> flatten tt sample_plugin) /\
    the_action call wrapper dispatch [] (λ _, []) (tree sample_after) (js "spec") (js "updateSpec") = Some a /\
    wrapped call wrapper dispatch [] (λ _, []) 9 (reverse ws) a.
Proof.
  intros call wrapper dispatch.
  apply (actions_wrapped_in_order (λ _, tt) call wrapper dispatch [] (λ _, []) sample_injects (λ _ _, eq_refl) sample_system sample_plugin true (js "spec") (js "updateSpec") 9);
    vm_compute; reflexivity.
Defined.

(** The wrappers are those one expects, the component is wrapped, and the
    function is injected beside what the plugin has there. *)
Example register_ex :
  let t := tree sample_after in
  wraps_at t (js "spec") (js "updateSpec") = [PFun 1; PFun 2; PFun 3; PFun 4] /\
  chain (view_of t) (js "Info") = Some [PFun 0; PFun 7] /\
  get t (js "rootInjects") = PObj [(js "other", PFun 8); (js "initOAuth", PFun 105)].
Proof. by vm_compute. Qed.

End UiPluginsOk.
