(* ===== verification/UiSystem.v ===== *)
(** The system that joins the plugins of Swagger UI, in the bundle
    client/docs/swagger-ui/swagger-ui-bundle.js: safe calls (lines 22240-22251),
    the reducer of a plugin and of the whole state (22041-22061), bound actions
    (22172-22196) and bound selectors (22158-22170).

    The class [Plugin] is what a plugin promises the system: a reducer that
    keeps an invariant of its slice whatever the payload, unless it throws. The
    plugins are instances; the state of the page is a persistent map (ImmMap)
    updated by the combined reducer (Redux). *)

From stdpp Require Import base list list_numbers numbers strings gmap.
From Stdlib Require Import ZArith Lia.
From S2P Require Import Prelude Json ImmHash ImmMap ImmMapOk Redux Im UiErr UiAuth UiOas3 UiUtils UiSpec UiSpecOk.

Module UiSystem.
Import Im.
Import ImmHash (key, KStr).

#[global] Instance StrictEq_value : StrictEq value :=
  {| same := λ a b, bool_decide (a = b); same_eq := λ a b, proj1 (bool_decide_eq_true (a = b)) |}.

(** ** Plugins *)

Class Plugin (A : Type) := {
  plugin_reduce : value -> A -> result value;
  plugin_inv : value -> Prop;
  (** the actions whose handler may return undefined *)
  plugin_loses : A -> bool;
  plugin_inv_empty : plugin_inv emptyMap;
  plugin_inv_map : ∀ s, plugin_inv s -> isMap s = true;
  plugin_reduce_inv : ∀ s a s', plugin_inv s -> plugin_reduce s a = Ok s' ->
    plugin_inv s' \/ (s' = VUndef /\ plugin_loses a = true)
}.

(** A call in [try], with [null] for an exception. *)
Definition safely (r : result value) : value := match r with Ok v => v | Throw _ => VNull end.

Section run.
Context {A S : Type} `{Plugin A}.
(** The reducer of a plugin in the system; [proj] is its table of handlers
    applied to the type of the action. *)
Definition run_plugin (proj : S -> option A) (cur : option value) (a : S) : result (option value) :=
  let e := match cur with None | Some VUndef => emptyMap | Some v => v end in
  Ok (match proj a with
      | None => Some e
      | Some x => match safely (plugin_reduce e x) with VNull => Some e | VUndef => None | v => Some v end
      end).
End run.

(** ** The invariants of the slices *)

(** A map with each key once. *)
Definition map_inv (v : value) : Prop := ∃ o m, v = VMap o m /\ NoDup (keys m).

Lemma map_inv_empty : map_inv emptyMap.
Proof. exists false, []. split; [done|apply NoDup_nil_2]. Qed.
Lemma map_inv_map v : map_inv v -> isMap v = true.
Proof. by intros (o & m & -> & _). Qed.

Lemma set_inv v k x v' : map_inv v -> set v k x = Ok v' -> map_inv v'.
Proof. intros (o & m & -> & Hn) [= <-]. exists o, (map_set m k x). split; [done|by apply map_set_nodup]. Qed.

Lemma update_deep_inv o m k p r f y : NoDup (keys m) -> updateInDeep (Some (VMap o m)) (k :: p) r f = Ok y ->
  ∃ m', y = Some (VMap o m') /\ NoDup (keys m').
Proof.
  intros Hn. cbn [updateInDeep has_set negb im_get]. destruct (updateInDeep (map_get m k) p r f) as [z|]; [|done]. cbn [result_bind].
  destruct (decide (z = map_get m k)); [intros [= <-]; by exists m|]. destruct z as [z|]; intros [= <-].
  - exists (map_set m k z). split; [done|by apply map_set_nodup].
  - exists (map_remove m k). split; [done|by apply map_remove_nodup].
Qed.
(** Writes, updates and deletions along a path that is not empty. *)
Lemma deep_inv v p r f v' : map_inv v -> (let! y := updateInDeep (Some v) p r f in Ok (set_result y)) = Ok v' -> p <> [] -> map_inv v'.
Proof.
  intros (o & m & -> & Hn) H Hp. destruct (updateInDeep _ p r f) as [y|] eqn:E; [|done]. destruct p as [|k p]; [done|].
  destruct (update_deep_inv _ _ _ _ _ _ _ Hn E) as (m' & -> & Hn'). injection H as <-. by exists o, m'.
Qed.
Lemma map_inv_has_set v : map_inv v -> has_set v = true.
Proof. by intros (o & m & -> & _). Qed.
Lemma setIn_inv v p x v' : map_inv v -> setIn v p x = Ok v' -> p <> [] -> map_inv v'.
Proof. intros Hv H Hp. unfold setIn in H. rewrite map_inv_has_set in H by done. cbn [negb] in H. by eapply deep_inv. Qed.
Lemma updateIn_inv v p d f v' : map_inv v -> updateIn v p d f = Ok v' -> p <> [] -> map_inv v'.
Proof. intros Hv H Hp. unfold updateIn in H. rewrite map_inv_has_set in H by done. cbn [negb] in H. by eapply deep_inv. Qed.
Lemma deleteIn_inv v p v' : map_inv v -> deleteIn v p = Ok v' -> p <> [] -> map_inv v'.
Proof. intros Hv H Hp. unfold deleteIn in H. rewrite map_inv_has_set in H by done. cbn [negb] in H. by eapply deep_inv. Qed.

Lemma fold_set_nodup (es m : list (value * value)) : NoDup (keys m) -> NoDup (keys (foldl (λ m kv, map_set m kv.1 kv.2) m es)).
Proof. revert m. induction es as [|kv es IH]; intros m Hn; [done|]. cbn. by apply IH, map_set_nodup. Qed.
Lemma merge_inv v n v' : map_inv v -> merge v n = Ok v' -> map_inv v'.
Proof.
  intros (o & m & -> & Hn). unfold merge, map_merge. destruct (mapR keyed n) as [ss|]; [|done]. cbn [result_bind]. intros [= <-].
  eexists o, _. split; [done|]. revert m Hn. induction ss as [|s ss IH]; intros m Hn; [done|]. cbn. by apply IH, fold_set_nodup.
Qed.

(** The automation of the instances below. *)
Create HintDb slice_inv.
#[export] Hint Resolve set_inv setIn_inv updateIn_inv deleteIn_inv merge_inv : slice_inv.
(** Walks into a [let!] that returned. *)
Ltac step_ok H := match type of H with (let! _ := ?r in _) = Ok _ => let x := fresh "x" in let E := fresh "E" in
  destruct r as [x|] eqn:E; [cbn [result_bind] in H|discriminate H] end.

(** *** Layout and configuration *)

#[export, refine] Instance layout_plugin : Plugin UiErr.layout_action :=
  {| plugin_reduce := UiErr.layout_reduce; plugin_inv := map_inv; plugin_loses := λ _, false |}.
Proof.
  - apply map_inv_empty.
  - apply map_inv_map.
  - intros s a s' Hs H. left. destruct a; cbn [UiErr.layout_reduce] in H; eauto with slice_inv.
Defined.

#[export, refine] Instance config_plugin : Plugin UiErr.config_action :=
  {| plugin_reduce := UiErr.config_reduce; plugin_inv := map_inv; plugin_loses := λ _, false |}.
Proof.
  - apply map_inv_empty.
  - apply map_inv_map.
  - intros s a s' Hs H. left. destruct a; cbn [UiErr.config_reduce] in H; [eauto with slice_inv|]. step_ok H. eauto with slice_inv.
Defined.

(** *** OpenAPI 3 *)

Lemma under_ne o p : p <> [] -> UiOas3.under o p <> [].
Proof. unfold UiOas3.under. by destruct (truthy o). Qed.

#[export, refine] Instance oas3_plugin : Plugin UiOas3.action :=
  {| plugin_reduce := UiOas3.reduce; plugin_inv := map_inv; plugin_loses := λ _, false |}.
Proof.
  - apply map_inv_empty.
  - apply map_inv_map.
  - intros s a s' Hs H. left. destruct a; cbn [UiOas3.reduce] in H; try step_ok H; (eapply setIn_inv; [exact Hs|exact H|]); try done; by apply under_ne.
Defined.

(** *** Specification *)

Section spec.
Context (regexp_test : list Z -> list Z -> result bool) (is_date : list Z -> bool) (object_hash : value -> Z).

(** A scheme set for a path without a method, or for a method without a path. *)
Definition half_scheme (a : UiSpec.action) : bool :=
  match a with UiSpec.SET_SCHEME _ p m => xorb (truthy p) (truthy m) | _ => false end.

Lemma spec_reduce_inv s a s' : map_inv s -> UiSpec.reduce regexp_test is_date object_hash s a = Ok s' ->
  map_inv s' \/ (s' = VUndef /\ half_scheme a = true).
Proof.
  intros Hs H. destruct a; cbn [UiSpec.reduce] in H; try (left; by eauto with slice_inv); try (left; by injection H as <-).
  - left. destruct payload; try (by injection H as <-). eauto with slice_inv.
  - left. step_ok H. by eapply setIn_inv.
  - left. destruct (_ || _); [by injection H as <-|by eapply setIn_inv].
  - left. step_ok H. step_ok H. destruct (UiSpec.first_two _) as [p m]. step_ok H. by eapply updateIn_inv.
  - left. step_ok H. by eapply setIn_inv.
  - left. do 3 step_ok H. destruct (_ || _); [by eapply setIn_inv|by injection H as <-].
  - destruct (truthy path) eqn:E1, (truthy method) eqn:E2; cbn [andb orb] in H.
    + left. by eapply setIn_inv.
    + right. injection H as <-. cbn. by rewrite E1, E2.
    + right. injection H as <-. cbn. by rewrite E1, E2.
    + left. by eapply setIn_inv.
Qed.
Definition spec_plugin : Plugin UiSpec.action :=
  {| plugin_reduce := UiSpec.reduce regexp_test is_date object_hash; plugin_inv := map_inv; plugin_loses := half_scheme;
     plugin_inv_empty := map_inv_empty; plugin_inv_map := map_inv_map; plugin_reduce_inv := spec_reduce_inv |}.
End spec.

(** *** The error log *)

(** What [update] of one key returns. *)
Lemma update_result o m k f v' : update (VMap o m) k VUndef f = Ok v' ->
  ∃ x m', f (default VUndef (map_get m k)) = Ok x /\ v' = VMap o m' /\
    (m' = map_set m k x \/ m' = m /\ (map_get m k = Some x \/ map_get m k = None /\ x = VUndef)).
Proof.
  unfold update, updateIn. cbn [has_set negb updateInDeep im_get]. destruct (map_get m k) as [c|] eqn:Ec; cbn [set_result].
  - change (default VUndef (Some c)) with c. destruct (f c) as [x|]; [|done]. cbn [result_bind].
    destruct (decide (Some x = Some c)) as [[= ->]|Hne].
    + rewrite decide_True by done. cbn [set_result result_bind]. intros [= <-]. exists c, m. split_and!; [done|done|]. right. auto.
    + rewrite decide_False by done. intros [= <-]. exists x, (map_set m k x). auto.
  - change (default VUndef None) with VUndef. destruct (f VUndef) as [x|]; [|done]. cbn [result_bind].
    destruct (decide (Some x = Some VUndef)) as [[= ->]|Hne].
    + rewrite decide_True by done. intros [= <-]. exists VUndef, m. split_and!; [done|done|]. right. auto.
    + rewrite decide_False by done. intros [= <-]. exists x, (map_set m k x). auto.
Qed.

(** A map whose errors, if there are any, are a list. *)
Definition err_inv (t : value) : Prop :=
  ∃ o m, t = VMap o m /\ NoDup (keys m) /\ match map_get m (str "errors") with None => True | Some v => isList v = true end.

Lemma err_inv_map t : err_inv t -> map_inv t.
Proof. intros (o & m & -> & Hn & _). by exists o, m. Qed.

Lemma map_list_list f e r : UiErr.map_list f e = Ok r -> isList r = true.
Proof. unfold UiErr.map_list. destruct e; try done. destruct (mapR f l); [|done]. by intros [= <-]. Qed.
Lemma filter_list_list f e r : UiErr.filter_list f e = Ok r -> isList r = true.
Proof. unfold UiErr.filter_list. destruct e; try done. by intros [= <-]. Qed.
Lemma transform_list e r : UiErr.transformErrors e = Ok r -> isList r = true.
Proof. unfold UiErr.transformErrors. intros H. step_ok H. by eapply map_list_list. Qed.

Lemma update_errors_inv t f t' : map_inv t -> UiErr.update_errors t f = Ok t' -> err_inv t'.
Proof.
  intros Ht H. unfold UiErr.update_errors in H. step_ok H. assert (Hx : map_inv x) by (by eapply updateIn_inv).
  destruct Hx as (o & m & -> & Hn). apply update_result in H as (y & m' & Hy%transform_list & -> & Hm'). exists o, m'. split; [done|].
  destruct Hm' as [-> | [-> Hg]].
  - split; [by apply map_set_nodup|]. by rewrite map_get_set, decide_True.
  - split; [done|]. destruct Hg as [-> | [-> ->]]; done.
Qed.

Lemma merge_errors_inv t r t' : map_inv t -> isList r = true -> merge t [VObj [(js "errors", r)]] = Ok t' -> err_inv t'.
Proof.
  intros (o & m & -> & Hn) Hr [= <-]. exists o, (map_set m (str "errors") (fromJS r)). split; [done|]. split; [by apply map_set_nodup|].
  rewrite map_get_set, decide_True by done. by destruct r.
Qed.

#[export, refine] Instance err_plugin (l : UiErr.object) : Plugin UiErr.action :=
  {| plugin_reduce := λ t a, (UiErr.reduce l t a).2; plugin_inv := err_inv; plugin_loses := λ _, false |}.
Proof.
  - exists false, []. split_and!; [done|apply NoDup_nil_2|done].
  - intros s Hs. by apply map_inv_map, err_inv_map.
  - intros s a s' Hs H. left. pose proof (err_inv_map s Hs) as Hm. destruct a; cbn [UiErr.reduce] in H.
    + by eapply update_errors_inv.
    + destruct (UiErr.assign_batch l payload "thrown") as [l' es]. by eapply update_errors_inv.
    + cbn [snd] in H. step_ok H. by eapply update_errors_inv.
    + destruct (UiErr.assign_batch l payload "spec") as [l' es]. by eapply update_errors_inv.
    + cbn [snd] in H. step_ok H. by eapply update_errors_inv.
    + cbn [snd] in H. step_ok H. destruct (_ || _); [by injection H as <-|]. step_ok H. refine (merge_errors_inv _ _ _ Hm _ H). by eapply filter_list_list.
    + cbn [snd] in H. destruct payload as [f|]; [|by injection H as <-]. step_ok H. destruct x; try done. step_ok H. by refine (merge_errors_inv _ _ _ Hm _ H).
Defined.

(** *** Authorization *)

(** The credentials: a map of maps. *)
Definition creds_ok (c : list (value * value)) : Prop := NoDup (keys c) /\ (∀ k x, map_get c k = Some x -> isMap x = true).

Lemma creds_set c k x : creds_ok c -> isMap x = true -> creds_ok (map_set c k x).
Proof.
  intros [Hn Hc] Hx. split; [by apply map_set_nodup|]. intros j y. rewrite map_get_set. destruct (decide (j = k)); [congruence|by apply Hc].
Qed.
Lemma creds_setIn o c k a x v : creds_ok c -> setIn (VMap o c) [k; a] x = Ok v -> ∃ c', v = VMap o c' /\ creds_ok c'.
Proof.
  intros Hc H. destruct (UiAuth.setIn_two o c k a x) as (o' & m' & E & _); [destruct (map_get c k) eqn:Ek; [by eapply Hc|done]|].
  rewrite E in H. injection H as <-. eexists. split; [done|]. by apply creds_set.
Qed.
Lemma typed_map r s : getIn r [str "schema"; str "type"] VUndef = Ok (VStr s) -> isMap r = true.
Proof.
  destruct r as [| | | | |o m|l|l| |]; try done; unfold getIn; cbn [has_get isIterable].
  assert (E : get_in (VSet l) [str "schema"; str "type"] = None); [|by rewrite E].
  cbn [get_in has_get isIterable im_get]. by destruct (decide (str "schema" ∈ l)).
Qed.
Lemma authorize_entry_creds o c kr v : creds_ok c -> UiAuth.authorize_entry (VMap o c) kr = Ok v -> ∃ c', v = VMap o c' /\ creds_ok c'.
Proof.
  intros Hc H. destruct kr as [k r]. unfold UiAuth.authorize_entry in H. step_ok H. destruct (_ || _) eqn:Et.
  - injection H as <-. eexists. split; [done|]. apply creds_set; [done|].
    apply orb_true_iff in Et as [->%bool_decide_eq_true | ->%bool_decide_eq_true]; by eapply typed_map.
  - destruct (bool_decide (x = str "basic")); [|injection H as <-; by exists c]. do 5 step_ok H.
    destruct (creds_setIn _ _ _ _ _ _ Hc E3) as (c1 & -> & Hc1). by eapply creds_setIn.
Qed.
Lemma authorize_creds o c es v : creds_ok c -> foldR UiAuth.authorize_entry (VMap o c) es = Ok v -> ∃ c', v = VMap o c' /\ creds_ok c'.
Proof.
  revert c. induction es as [|kr es IH]; intros c Hc H; [injection H as <-; by exists c|]. cbn [foldR] in H. step_ok H.
  destruct (authorize_entry_creds o c kr x Hc E) as (c1 & -> & Hc1). by apply IH in H.
Qed.

Lemma auth_cases s : UiAuth.auth_ok s -> ∃ o m o' c, s = VMap o m /\ NoDup (keys m) /\ creds_ok c /\
  vor (default VUndef (map_get m (str "authorized"))) emptyMap = VMap o' c /\
  match map_get m (str "authorized") with None => True | Some v => v = VMap o' c end.
Proof.
  intros (o & m & -> & Hn & Ha). exists o, m. destruct (map_get m (str "authorized")) as [v|].
  - destruct Ha as (o' & c & -> & H1 & H2). by exists o', c.
  - exists false, []. split_and!; try done. split; [apply NoDup_nil_2|done].
Qed.
Lemma auth_set o m k x : NoDup (keys m) -> UiAuth.auth_ok (VMap o m) -> k <> str "authorized" -> UiAuth.auth_ok (VMap o (map_set m k x)).
Proof.
  intros Hn (o1 & m1 & [= <- <-] & _ & Ha) Hk. exists o, (map_set m k x). split_and!; [done|by apply map_set_nodup|].
  by rewrite map_get_set, decide_False by congruence.
Qed.
Lemma auth_put o m o' c : NoDup (keys m) -> creds_ok c -> UiAuth.auth_ok (VMap o (map_set m (str "authorized") (VMap o' c))).
Proof.
  intros Hn [H1 H2]. eexists o, _. split_and!; [done|by apply map_set_nodup|]. rewrite map_get_set, decide_True by done. by exists o', c.
Qed.

#[export, refine] Instance auth_plugin : Plugin UiAuth.action :=
  {| plugin_reduce := UiAuth.reduce; plugin_inv := UiAuth.auth_ok; plugin_loses := λ _, false |}.
Proof.
  - exists false, []. split_and!; [done|apply NoDup_nil_2|done].
  - by intros s (o & m & -> & _).
  - intros s a s' Hs H. left. destruct (auth_cases s Hs) as (o & m & o' & c & -> & Hn & Hc & Hv & Hg). destruct a; cbn [UiAuth.reduce] in H.
    + injection H as <-. apply auth_set; [done|done|]. by intros E%str_inj.
    + step_ok H. unfold get in H. rewrite UiErr.get_str in H. cbn [result_bind] in H. rewrite Hv in H. step_ok H.
      destruct (authorize_creds _ _ _ _ Hc E0) as (c1 & -> & Hc1). injection H as <-. by apply auth_put.
    + unfold get in H at 1. rewrite UiErr.get_str in H. cbn [result_bind] in H. destruct (map_get m (str "authorized")) as [v|]; [|done].
      subst v. injection H as <-. apply auth_put; [done|]. clear -Hc. revert c Hc. induction payload as [|k ks IH]; intros c Hc; [done|]. cbn. apply IH.
      destruct Hc as [Hn Hc]. split; [by apply map_remove_nodup|]. intros j x. rewrite map_get_remove by done. destruct (decide (j = k)); [done|by apply Hc].
    + destruct auth; try done. step_ok H. destruct (UiAuth.setIn_two o m (str "authorized") x (fromJS (VObj (put o0 (js "token") (VObj (assign [] (UiErr.props token))))))) as (o1 & m1 & E1 & E2).
      { destruct (map_get m (str "authorized")); [by subst|done]. }
      rewrite E1 in H. injection H as <-. apply auth_put; [done|]. apply creds_set; [|done].
      destruct (map_get m (str "authorized")) as [v|]; cbn in E2; [subst v; by injection E2 as -> ->|]. injection E2 as <- <-. split; [apply NoDup_nil_2|done].
    + injection H as <-. apply auth_set; [done|done|]. by intros E%str_inj.
Defined.

(** ** The state of the page *)

(** A combined reducer throws only when a slice reducer throws or returns
    undefined on the value of its own slice. *)
Lemma combine_map_throws {S} (rs : list (key * (option value -> S -> result (option value)))) (a : S) undef n x :
  ImmMapOk.map_ok n -> NoDup rs.*1 -> Forall (λ p, ImmMapOk.ordinary p.1) rs ->
  Redux.combine_map rs a undef n = Throw x -> ∃ t f, (t, f) ∈ rs /\ ∀ o, f (ImmMap.get n t None) a <> Ok (Some o).
Proof.
  revert n. induction rs as [|[t f] rs IH]; intros n Hn Hd Ho E; [done|]. cbn in E.
  apply NoDup_cons in Hd as [Ht Hd]. apply Forall_cons in Ho as [Hot Ho].
  destruct (f (ImmMap.get n t None) a) as [[o|]|] eqn:Ef; cbn in E.
  - destruct (ImmMapOk.updateMap_ok n t (Some o) (ImmMapOk.hash_range _ Hot) Hn) as [Hn1 E1].
    destruct (IH (ImmMap.set n t o) Hn1 Hd Ho E) as (t' & f' & Hin & Hf). exists t', f'. split; [by right|]. intros o'. specialize (Hf o').
    unfold ImmMap.set in Hf. rewrite ImmMapOk.get_ok, E1 in Hf by done. rewrite ImmMapOk.get_ok by done.
    rewrite lookup_partial_alter_ne in Hf; [done|]. intros ->. apply Ht. by apply (list_elem_of_fmap_2 fst rs (t', f')).
  - exists t, f. split; [left|]. intros o. by rewrite Ef.
  - exists t, f. split; [left|]. intros o. by rewrite Ef.
Qed.

Section system.
Context (regexp_test : list Z -> list Z -> result bool) (is_date : list Z -> bool) (object_hash : value -> Z).
Context (undef : key -> exn).

(** An action, by the plugin whose table has its type; [Other] for the types
    that no plugin has. *)
Inductive action :=
  | Err (a : UiErr.action)
  | Layout (a : UiErr.layout_action)
  | Configs (a : UiErr.config_action)
  | Auth (a : UiAuth.action)
  | Oas3 (a : UiOas3.action)
  | Spec (a : UiSpec.action)
  | Other.

Record system := System {
  slices : @ImmMap.pmap value;
  defaults : UiErr.object       (* the object of defaults of the error log *)
}.

Definition slice_key (n : string) : key := KStr (js n).

Definition reducers (l : UiErr.object) : list (key * (option value -> action -> result (option value))) :=
  [ (slice_key "err", run_plugin (H := err_plugin l) (λ a, match a with Err a => Some a | _ => None end));
    (slice_key "layout", run_plugin (λ a, match a with Layout a => Some a | _ => None end));
    (slice_key "spec", run_plugin (H := spec_plugin regexp_test is_date object_hash) (λ a, match a with Spec a => Some a | _ => None end));
    (slice_key "auth", run_plugin (λ a, match a with Auth a => Some a | _ => None end));
    (slice_key "configs", run_plugin (λ a, match a with Configs a => Some a | _ => None end));
    (slice_key "oas3", run_plugin (λ a, match a with Oas3 a => Some a | _ => None end)) ].

Definition defaults_after (l : UiErr.object) (a : action) : UiErr.object :=
  match a with Err a => (UiErr.reduce l emptyMap a).1 | _ => l end.

(** The reducer of the whole state. *)
Definition root_reduce (s : system) (a : action) : result system :=
  let! n := Redux.combine_map (reducers (defaults s)) a undef (slices s) in
  Ok (System n (defaults_after (defaults s) a)).

(** An action creator bound to the store: an exception becomes an action of
    the error log; [describe] is what the error is serialized to. *)
Definition bound_action (describe : exn -> value) (r : result action) : action :=
  match r with Ok a => a | Throw x => Err (UiErr.NEW_THROWN_ERR (describe x)) end.

(** A selector bound to its slice; an exception gives [null]. *)
Definition bound_selector (s : system) (n : string) (sel : value -> result value) : value :=
  safely (sel (default VUndef (ImmMap.get (slices s) (slice_key n) None))).

(** *** Reachable states *)

Inductive reachable : system -> Prop :=
  | reachable_init : reachable (System ImmMap.emptyMap UiErr.default_error)
  | reachable_step s a s' : reachable s -> root_reduce s a = Ok s' -> reachable s'.

Definition slice (s : system) (n : string) : option value := ImmMap.get (slices s) (slice_key n) None.
Definition holds (inv : value -> Prop) (x : option value) : Prop := match x with None => True | Some v => inv v end.
Definition system_ok (s : system) : Prop :=
  ImmMapOk.map_ok (slices s) /\ holds err_inv (slice s "err") /\ holds map_inv (slice s "layout") /\ holds map_inv (slice s "spec") /\
  holds UiAuth.auth_ok (slice s "auth") /\ holds map_inv (slice s "configs") /\ holds map_inv (slice s "oas3").

(** The slice an action is for. *)
Definition owner (a : action) : option string :=
  match a with
  | Err _ => Some "err"%string | Layout _ => Some "layout"%string | Configs _ => Some "configs"%string
  | Auth _ => Some "auth"%string | Oas3 _ => Some "oas3"%string | Spec _ => Some "spec"%string | Other => None
  end.

Lemma run_plugin_ok {A S} `{Plugin A} (proj : S -> option A) cur a : holds plugin_inv cur ->
  (∃ o, run_plugin proj cur a = Ok (Some o) /\ plugin_inv o /\ (proj a = None -> o = default emptyMap cur)) \/
  (run_plugin proj cur a = Ok None /\ ∃ x, proj a = Some x /\ plugin_loses x = true).
Proof.
  intros Hc. unfold run_plugin. set (e := match cur with None | Some VUndef => emptyMap | Some v => v end).
  assert (He : plugin_inv e /\ e = default emptyMap cur).
  { unfold e. destruct cur as [v|]; [|split; [apply plugin_inv_empty|done]]. cbn in Hc. assert (Hm := plugin_inv_map v Hc). by destruct v. }
  destruct He as [He Hd]. destruct (proj a) as [x|]; [|left; by exists e]. destruct (plugin_reduce e x) as [v|y] eqn:E; cbn [safely].
  - destruct (plugin_reduce_inv e x v He E) as [Hv|[-> Hl]].
    + left. assert (Hm := plugin_inv_map v Hv). destruct v; try done. eexists. split; [done|]. split; [done|]. done.
    + right. split; [done|]. by exists x.
  - left. exists e. done.
Qed.

Lemma reducers_distinct l : NoDup (reducers l).*1 /\ Forall (λ p, ImmMapOk.ordinary p.1) (reducers l).
Proof.
  split; [cbn; apply (bool_decide_unpack _); vm_compute; exact I|].
  repeat (apply Forall_cons; split; [unfold ImmMapOk.ordinary; cbn; discriminate|]). apply Forall_nil_2.
Qed.
(** What one slice is after an action that was accepted. *)
Lemma slice_after {A} (P : Plugin A) (proj : action -> option A) n n' l a name :
  (slice_key name, run_plugin (H := P) proj) ∈ reducers l -> holds plugin_inv (ImmMap.get n (slice_key name) None) ->
  (∀ t f, (t, f) ∈ reducers l -> ∃ o, f (ImmMap.get n t None) a = Ok (Some o) /\ ImmMap.get n' t None = Some o) ->
  holds plugin_inv (ImmMap.get n' (slice_key name) None) /\
  (proj a = None -> ImmMap.get n' (slice_key name) None = Some (default emptyMap (ImmMap.get n (slice_key name) None))).
Proof.
  intros Hin Hi Hall. destruct (Hall _ _ Hin) as (o & Ho & Hg). rewrite Hg. destruct (run_plugin_ok proj _ a Hi) as [(o' & Ho' & Hinv & Hd)|[Hn _]]; [|congruence].
  rewrite Ho in Ho'. injection Ho' as ->. split; [done|]. intros Hp. by rewrite Hd.
Qed.

Definition plugin_names : list string := ["err"; "layout"; "spec"; "auth"; "configs"; "oas3"]%string.

Lemma step_ok s a s' : system_ok s -> root_reduce s a = Ok s' ->
  system_ok s' /\ ∀ n, n ∈ plugin_names -> owner a <> Some n -> slice s' n = Some (default emptyMap (slice s n)).
Proof.
  intros (Hm & He & Hl & Hs & Ha & Hc & Ho) H. unfold root_reduce in H.
  destruct (Redux.combine_map _ a undef (slices s)) as [n'|] eqn:E; [|done]. cbn [result_bind] in H. injection H as <-.
  destruct (reducers_distinct (defaults s)) as [Hd Hord]. destruct (Redux.combine_map_ok _ _ _ _ _ Hm Hd Hord E) as (Hm' & Hall & _).
  destruct (slice_after (err_plugin (defaults s)) (λ a, match a with Err a => Some a | _ => None end) _ n' _ a "err" ltac:(by left) He Hall) as [I1 F1].
  destruct (slice_after layout_plugin (λ a, match a with Layout a => Some a | _ => None end) _ n' _ a "layout" ltac:(by right; left) Hl Hall) as [I2 F2].
  destruct (slice_after (spec_plugin regexp_test is_date object_hash) (λ a, match a with Spec a => Some a | _ => None end) _ n' _ a "spec" ltac:(by do 2 right; left) Hs Hall) as [I3 F3].
  destruct (slice_after auth_plugin (λ a, match a with Auth a => Some a | _ => None end) _ n' _ a "auth" ltac:(by do 3 right; left) Ha Hall) as [I4 F4].
  destruct (slice_after config_plugin (λ a, match a with Configs a => Some a | _ => None end) _ n' _ a "configs" ltac:(by do 4 right; left) Hc Hall) as [I5 F5].
  destruct (slice_after oas3_plugin (λ a, match a with Oas3 a => Some a | _ => None end) _ n' _ a "oas3" ltac:(by do 5 right; left) Ho Hall) as [I6 F6].
  split; [by split_and!|]. intros n Hn Hne. unfold slice. cbn [slices].
  repeat (apply elem_of_cons in Hn as [->|Hn]; [first [apply F1|apply F2|apply F3|apply F4|apply F5|apply F6]; by destruct a|]). by apply not_elem_of_nil in Hn.
Qed.

Lemma step_throws s a x : system_ok s -> root_reduce s a = Throw x -> ∃ b, a = Spec b /\ half_scheme b = true.
Proof.
  intros (Hm & He & Hl & Hs & Ha & Hc & Ho) H. unfold root_reduce in H.
  destruct (Redux.combine_map _ a undef (slices s)) as [n'|y] eqn:E; [done|]. destruct (reducers_distinct (defaults s)) as [Hd Hord].
  destruct (combine_map_throws _ _ _ _ _ Hm Hd Hord E) as (t & f & Hin & Hf).
  assert (G : ∀ A (P : Plugin A) proj name, (t, f) = (slice_key name, run_plugin (H := P) proj) -> holds plugin_inv (slice s name) ->
    ∃ b, proj a = Some b /\ plugin_loses b = true).
  { intros A P proj name [= -> ->] Hi. destruct (run_plugin_ok proj _ a Hi) as [(o & Ho' & _)|[_ Hx]]; [by destruct (Hf o)|done]. }
  repeat (apply elem_of_cons in Hin as [Heq|Hin];
    [destruct (G _ _ _ _ Heq ltac:(assumption)) as (b & Hb & Hlose); destruct a; try discriminate Hb; injection Hb as ->; first [discriminate Hlose|by exists b]|]).
  by apply not_elem_of_nil in Hin.
Qed.

Lemma reachable_system_ok s : reachable s -> system_ok s.
Proof.
  induction 1 as [|s a s' _ IH H]; [by repeat split|]. by apply (step_ok s a s').
Qed.

(** C2. The page keeps its state in order: in every state reached by any
    actions with any payloads, every slice satisfies the invariant of its plugin
    and the whole is a well-formed persistent map; the next action, whatever it
    is, is accepted and leaves the slices of the other plugins as they are (an
    empty map where there was none), except that setting a scheme for a path
    without a method, or for a method without a path, throws. *)
Theorem system_invariant s a : reachable s -> system_ok s /\
  match root_reduce s a with
  | Ok s' => system_ok s' /\ ∀ n, n ∈ plugin_names -> owner a <> Some n -> slice s' n = Some (default emptyMap (slice s n))
  | Throw _ => ∃ b, a = Spec b /\ half_scheme b = true
  end.
Proof.
  intros Hs%reachable_system_ok. split; [done|]. destruct (root_reduce s a) as [s'|x] eqn:E; [by apply (step_ok s a s')|by eapply step_throws].
Qed.
End system.

Definition sample_throws : key -> exn := λ _, PlainError [].
Definition sample_reduce : system -> action -> result system := root_reduce (λ _ _, Ok true) (λ _, true) (λ _, 0) sample_throws.
(** The page after something was shown. *)
Definition sample_system : system :=
  let s := System ImmMap.emptyMap UiErr.default_error in
  match sample_reduce s (Layout (UiErr.show (str "x") (VBool true))) with Ok s' => s' | Throw _ => s end.

Lemma system_invariant_witness :
  let a := Spec (UiSpec.SET_SCHEME (str "https") VUndef VUndef) in
  system_ok sample_system /\
  match sample_reduce sample_system a with
  | Ok s' => system_ok s' /\ ∀ n, n ∈ plugin_names -> owner a <> Some n -> slice s' n = Some (default emptyMap (slice sample_system n))
  | Throw _ => ∃ b, a = Spec b /\ half_scheme b = true
  end.
Proof.
  intros a. apply (system_invariant (λ _ _, Ok true) (λ _, true) (λ _, 0) sample_throws).
  apply (reachable_step _ _ _ _ (System ImmMap.emptyMap UiErr.default_error) (Layout (UiErr.show (str "x") (VBool true))));
    [apply reachable_init|vm_compute; reflexivity].
Defined.

End UiSystem.
